(* ===== verification/_CoqProject ===== *)
-Q . S2P
Prelude.v
RunProtocol.v
RustStr.v
RustText.v
EnforcerApi.v
Zone.v
Toml.v
Policy.v
Kernel.v
BpfMaps.v
LinuxEnforcer.v
Broker.v
IpAllocator.v
Journal.v
Results.v
Shim.v
StateError.v
Serve.v
Backend.v
Metadata.v
Registry.v
OutputLog.v
Reference.v
Content.v
Images.v
Vfs.v
Utf8.v
Layers.v
Receipts.v
Logs.v
Evidence.v
Seal.v
Tasks.v
Events.v
Follow.v
Tailer.v
Services.v
ImageService.v
RuntimeSpec.v
Client.v
Offsets.v
Loader.v
Attach.v
ProcSec.v
Session.v
Cri.v
LinuxHost.v
Cgroup.v
Network.v
Nftables.v
LinuxPolicy.v
Dns.v
LinuxBackend.v
Config.v
Telemetry.v
LinuxDemo.v
LinuxInvariant.v
LinuxReport.v
Daemon.v
