(* ===== verification/Prelude.v ===== *)
(** * Rauha: a verification development

    Rauha runs untrusted agents in zones: an eBPF LSM layer in the kernel
    ([rauha-ebpf]) decides every guarded system call of a confined process,
    a daemon ([rauhad]) turns zone policies into the maps those programs read,
    pulls the images the agents run from ([rauha-oci]), runs tasks and signs what
    became of them, a shim ([rauha-shim]) beside each zone starts its containers
    and brokers the system calls a policy hands over, and an evidence library
    ([rauha-evidence], [rauha-common]) journals what a Run did and reduces the
    journal to its state.  This library models the parts of that code which
    decide something, and proves what they are for.  Paths below are relative to
    [src/].

    ** How the parts interact

    A policy file is read ([rauhad/src/zone/policy.rs]) into a [ZonePolicy]
    ([rauha-common/src/zone.rs]), which [to_enforcement] lowers to the flags
    and capability mask of the enforcement boundary ([rauha-enforcer-api]).
    The zone registry ([rauhad/src/zone/registry.rs]) records zones and containers
    and reaches the platform through the trait [IsolationBackend]; the Linux
    backend ([rauhad/src/backend/linux/mod.rs]) implements it with cgroups,
    namespaces, nftables and the enforcer ([enforcer.rs]), which writes the eBPF
    maps ([maps.rs]) the LSM programs read.  [kernel_enforces_recorded_policy] is
    the composition: from the record of a zone in the database to the verdict of a
    hook in the kernel.  The sandbox service ([rauhad/src/server.rs]) reserves a
    task in the result tables, runs it through the registry, seals its result with
    receipts ([rauha-evidence/src/receipt.rs], [dsse.rs]) and stores it; at start it
    recovers what a killed daemon left ([server/recovery.rs]).  The command line
    ([rauha-cli]) believes a result only when its receipts are about it, and
    containerd reaches the daemon through [containerd-shim-rauha-v2].

    ** Files

    Shared.
    - [Prelude]: results and their notation, machine integers, tactics and
      lemmas used everywhere.
    - [RustStr], [RustText], [Utf8]: the operations of Rust's [str], [Path], integer
      parsing and [from_utf8_lossy] the code uses, on byte strings, with their laws.
    - [StateError]: the state and error monad of the stateful components, its
      weakest preconditions and the calculus of relations a program keeps.
    - [Vfs]: a file system with symbolic links whose operations can be refused or
      stop part-way.

    Policy and enforcement.
    - [EnforcerApi] (module [Api]): [rauha-enforcer-api/src/lib.rs].  The trait
      [EnforcerBackend] is a class, its contract ([EnforcerContract]) a second
      class of laws over it; [NoopEnforcer] is an instance, and the conformance
      harness is proved against the interface.
    - [Zone]: [rauha-common/src/error.rs] and [zone.rs], the policy model,
      capability masks, network targets, policy files and memory sizes.
    - [Toml]: the fragment of TOML policies are printed in, with its reader.
    - [Policy]: [rauhad/src/zone/policy.rs], reading and printing policies, and what
      [rauha-common/src/zone.rs] derives to read a policy file's tables.
    - [Kernel]: [rauha-ebpf] and [rauha-ebpf-common/src/types.rs].  [Maps] is the
      state shared by the seven programs; each hook is a function from a call
      context and the maps to its return value and the new maps.  The
      reference monitor at its end says who may do what, independently of
      the code.
    - [BpfMaps] (module [MapManager]): [.../linux/maps.rs], the userspace
      side of the maps and the walk that collects a rootfs's inodes.
    - [LinuxEnforcer] (module [Linux]): [.../linux/enforcer.rs] and the
      health check and counters of [.../linux/ebpf.rs]; an instance of the
      boundary's class and of its contract.
    - [Offsets]: [rauha-ebpf-common/src/offsets.rs] and the sidecar of [xtask]: where
      the fields the programs read are, as [pahole] says, and how that is carried
      from the build to the machine.
    - [Loader]: [.../linux/ebpf.rs] and the start of [enforcer.rs]: the checks an
      object passes before it is loaded, the attachment of its programs, and what
      the enforcer starts without.
    - [Broker]: [rauha-shim/src/broker], the seccomp broker: classification
      of [openat] and [openat2], the pin cache, reading a task's memory, the
      judgment with the trace of what it touches, and the answer.
    - [Serve]: [broker/mod.rs], the front of the broker: the socket the notify
      descriptor is handed over on, its receipt, and the pool of judges that share
      a descriptor and a log, as a step relation.

    The Linux backend ([rauhad/src/backend/linux]).
    - [LinuxHost]: the system its modules call, as operations on an arbitrary
      environment.
    - [Cgroup], [Network], [Nftables], [Dns]: [cgroup.rs]; [namespace.rs] and
      [network.rs]; [nftables.rs]; [rauhad/src/network/dns.rs].
    - [LinuxPolicy]: the part of [mod.rs] that decides what a policy means: admission,
      capabilities, seccomp profiles, devices and mounts of a container.
    - [LinuxBackend]: the rest of [mod.rs].  [State] is the backend's struct with
      the generator of ids and the system, and two auxiliary variables the code
      never reads: [history], the kernel map states it went through, and [applied],
      the policies it applied in full.
    - [LinuxInvariant], [LinuxReport]: what it keeps in the kernel, and what an
      isolation report says.  [LinuxDemo] is a concrete system for the witnesses.
    - [IpAllocator] (module [Ip]): [rauhad/src/network/allocator.rs] and
      [parse_cidr] of [rauhad/src/config.rs], refined to a pool of addresses.

    The daemon.
    - [Backend]: the data the daemon's layers exchange ([rauha-common/src/zone.rs],
      [container.rs], the messages of [shim.rs]), the trait [IsolationBackend]
      ([backend.rs]) as a class and what the daemon relies on of it as another.
    - [Metadata]: the zone and container tables of [rauhad/src/metadata/db.rs]
      over any codec and any failure of the database.
    - [Registry]: [rauhad/src/zone/registry.rs].  [World] is the registry with
      its tables, its cached handles, the backend and the host; every method is a
      program of the monad, proved against the classes of [Backend] and
      [Metadata].  The [reachable] worlds are closed under every method, whatever
      fails, and under restarts; in the [served] ones any number of methods are in
      flight, between what they have read and the rest of them.
    - [Daemon]: the registry over the Linux backend; the registry reaches it only
      through the trait, so the backend's invariant holds in every registry run.
    - [Results]: the result and recovery tables of [rauhad/src/metadata]
      ([results.rs], [recovery.rs]), one function per transaction.
    - [Logs]: bounded capture of output and broker decisions ([rauhad/src/logs.rs],
      [broker_events.rs]); [Follow] and [Tailer] are the parts of the two that follow
      a log while it grows.
    - [Events]: [.../linux/events.rs] and the watchers of [server.rs]: from the bytes
      the kernel writes to the enforcement events of a task's result.
    - [Config]: [rauhad/src/config.rs], and what the backend, the tables and the shim
      make of what it accepts.
    - [Telemetry]: [rauha-common/src/observability.rs], [rauhad/src/logging.rs] and
      the first lines of [main], which read one file twice.
    - [Services], [ImageService]: the zone, container and image services of
      [server.rs], over the registry and the image library.
    - [Seal]: cutting a result down to the wire budget and signing it, from
      [rauhad/src/server.rs].
    - [Tasks]: the sandbox service of [server.rs] and [server/recovery.rs].  Its
      [World] is the registry, the result tables, what the process has in memory and
      the ghost variable [executed]; every call is a sequence of steps before each
      of which the daemon can be killed, and a registry call it is killed in leaves
      anything.

    Images ([rauha-oci]).
    - [Reference], [Content], [Images]: [reference.rs]; [content.rs];
      [distribution.rs] and the pulling half of [image.rs].
    - [Layers]: the unpacking half of [image.rs] and [snapshotter.rs].
    - [RuntimeSpec]: [runtime.rs], the runtime spec of an image's container, which the
      daemon does not use (its backend writes its own).

    Shim and evidence.
    - [Shim]: the framing of [rauha-common/src/shim.rs], the container table of
      [rauha-shim/src/state.rs] and starting, stopping and deleting a container
      with crun ([container.rs]), over a host that answers every call.
    - [OutputLog]: [rauha-shim/src/output.rs], the bounded log and its capture
      loop.
    - [Attach]: [rauha-shim/src/attach.rs]: the handshake of the three processes of an
      exec as a transition system whose states are enumerated, and the relay between
      a terminal and its client.
    - [ProcSec]: the capabilities and privileges an exec process gives up.
    - [Session]: the requests of [rauha-shim/src/main.rs] and the terminal sessions.
    - [Cri]: [containerd-shim-rauha-v2], every task method as a program of atomic
      actions, interleaved with the others in any order.
    - [Client]: the sandbox and receipt commands of [rauha-cli].
    - [RunProtocol] (module [Run]): [rauha-common/src/run.rs], the reduction of
      journalled events to a Run state.  [reduce] is the code's function, [arm]
      its [match]; the protocol is the relation [protocol_step] over [transition].
    - [Journal]: [rauha-evidence/src/journal.rs], over a store that records
      what has reached the disk, in a monad whose system calls may fail or be
      killed half way; crash triples carry the invariant through the code.
    - [Receipts]: [rauha-evidence/src/receipt.rs] and [dsse.rs]: signed receipts and
      envelopes, the key file over a disk with failures and other processes.
    - [Evidence]: the normalised events of [rauha-evidence/src/lib.rs].

    ** What the theorems show

    - Enforcement: the hooks implement the reference monitor, a confined task
      cannot leave its zone, the policy on record is the one the kernel enforces
      for a served zone, every live zone is judged between any two steps, failed
      creations leave no trace, failed reloads restore the old policy, a zone is
      destroyed only when drained, an object is loaded only after its checks, and
      the denials a task's result tells are those the reader has seen recorded for
      its zone by then, those lost on the way to it being counted.
    - What a policy means: its seccomp profile denies and brokers exactly what it
      names; through the API it survives but for its brokered calls, unless a string
      of it needs escaping, which the printed text does not do.  As lemmas: a
      loaded policy is enforceable, and the nft transaction of its zone is the
      intended one whatever its targets are.
    - Brokering: grants are read-only and confined, no task memory is touched before
      the notification is validated, each notification is answered exactly once, by
      one judge or by a pool, every answer is logged before it is sent, and the judges
      work only with the descriptor the shim's own user handed over.
    - Registry: where operations run one at a time a cached zone is live under the
      policy on record, creation is all or nothing, deletion leaves nothing.  The
      tables and caches stay well formed with other operations in flight too, unless
      a zone is deleted under them, and where a policy change races with a deletion
      and a re-creation they do not.  The allocator never leases an address twice.
    - Tasks: a task whose execution was begun was begun once and is never lost
      wherever the daemon is killed; recovery settles every task and claims
      nothing of the interrupted ones.  As lemmas: what a caller is told is what is
      stored, and retained results fit the configured capacity.
    - Results and receipts: sealing ends, a sealed result fits the wire and its
      receipts are signed over exactly what is delivered; what is sealed is believed
      by the command line, and nothing else under the same receipt; a receipt
      verifies only in the form it was signed, and the key never changes.
    - Starting: a daemon that is pointed at a configuration file starts only when the
      file sets nothing (a finding); otherwise its root's file decides.
    - Images: a pull by digest yields what was pinned, unpacking a layer changes
      nothing outside its directory and applies its entries.
    - Runs: the reducer is its transition table; acknowledged journal entries
      survive every sequence of faults, kills and power losses (that the head
      commits the whole history is a lemma).
    - Shim: a workload and a command run in its container start only inside the
      zone's cgroup, a command is never executed behind the answer that its exec
      failed, the exec handshake ends in every interleaving, an exec process
      has the capabilities of its spec, requests are answered truly, captured output
      is a bounded prefix whose completeness is never overstated.
    - Containerd: however its calls interleave, a task touches only what the daemon
      made for it; and unless a creation overtakes a start or a wait of its task, a
      container is said to run or to have stopped only on the daemon's word for it.

    ** Bounds and fuel

    - The rootfs walk runs with fuel [max_inodes + 1]: every
      directory but the root was pushed after its inode was recorded, and the
      walk refuses more than [max_inodes] inodes;
      [collect_rootfs_terminates] shows the fuel is never exhausted.
    - Reading a path runs with fuel [MAX_PATH]: every round reads at least one
      byte ([path_read_exactly] includes that it ends).
    - Printing an integer has fuel 39, the digits of a 128-bit number.
    - Waiting for a process polls with fuel [Shim.poll_fuel], more than the rounds
      that fit before the deadline; draining a cgroup, waiting for a socket and
      sending a request have the rounds of the code (100, 50 and 4).
    - Sealing runs with fuel one more than there is to cut: every cut removes an
      event or a byte ([sealed_result_is_covered] includes that it ends).
    - Waiting for a container may never end; a wait that is not over after [polls]
      rounds, for every [polls], is one the daemon is killed in.
    - A path is resolved through at most 40 symbolic links, as the kernel does.
    - Directories are copied to a given depth; beyond it the copy fails.
    - The journal's scan has one unit of fuel per committed byte and one more:
      every line has at least its newline.
    - The exec handshake is explored in 23 rounds to its 127 states, where another
      round adds none; the containerd shim's wait polls for any number of rounds.
    - The kernel ids of zones are 32 bits wide: the theorems on the Linux backend
      are about fewer than 2^32 creations since the daemon started.
    - Counters, sizes and sequence numbers keep their width: [wrap],
      [checked_add] and the saturating operations of this file say which
      arithmetic the code does.

    ** Parameters and hypotheses

    Code outside [src/] enters as arguments.  [Ctx] of [Kernel] is what a
    program observes of one call (its arguments, the caller's cgroup, kernel
    memory); [BpfHost] and [BpfHostLaws] are the kernel as the daemon sees it;
    [BrokerHost] is the kernel as the broker sees it; [LinuxHost], [Daemon] and
    [Rng] of [LinuxBackend] are its system, its other services and its ids; the TOML
    reader is an argument of [parse_policy], and [PolicyReader] that it reads plain TOML
    as [Toml] does; [Json], [Serde] and [JsonLaws] are the
    JSON library, the digest and the clock of the journal; [RecordCodec] and
    [Postcard] with their laws are the binary codecs of the tables; [Host] of [Shim]
    is the shim's system; [Env] of [Registry] and [TaskHost] of [Tasks] are the
    daemon's; [IsolationBackend] with [BackendContract] is the platform backend;
    [Sha256], [OciJson] and [Http] are the digest, the JSON texts and the network of
    image pulling; [Tar] with [TarLaws] is the archive reader, which writes only
    below its destination; [Ed25519], [Encodings] and [ReceiptJson] with their laws
    are the signatures, the encodings and the JSON texts of receipts; [Wire],
    [ResultJson] and [DecisionJson] are those of results; [EventHost] is the clock of
    events; [Machine] of [Offsets] is [pahole] and the files beside the object, [Aya]
    with [AyaLaws] the eBPF library, [CapCalls] with [CapLaws] the capability system
    calls, [SessionHost] with [SessionHostLaws] and [ServeHost] the shim's system,
    [Bundles] of [Cri] the bundles containerd writes, [delivers] of [Events] what a
    broadcast channel hands on, [DocumentJson] with [DocumentJsonLaws] the documents
    the command line reads, [TomlTables] that both configuration readers deny the
    tables they do not know.  Each class of laws has an instance, which the witnesses use.  The
    store of [Journal] assumes what a file system promises: synced bytes stay, a
    synced directory entry stays, a renamed entry is the old or the new one.  Lists
    of faults say which operation of a disk fails, and how.

    ** Not modelled

    The rest of the command line (argument parsing, printing, one request per
    command), the evaluation oracle, tests and build scripts.  Of modelled files: the
    builder, the sinks and the spans of runtime events, audit events and log lines,
    the gRPC transport, the refusal of symbolic links and special files by the
    journal, poisoned mutexes, and the async runtime, whose only role in the modelled
    code is to serialise calls on a lock.  Requests of the sandbox service are handled one
    after the other, so its guards against a task that is still running are modelled
    but never needed; where the registry works on with what it read before a lock
    or a wait, that is a step of its own only for well-formedness, and where an extraction releases one early the
    race is an example of [Layers]. *)

From stdpp Require Import base gmap strings list fin_maps.
From Stdlib Require Import ZArith Lia.

(** ** Results: Rust's [Result<A, E>] *)

Inductive result (A E : Type) : Type :=
| Ok (a : A)
| Err (e : E).
Arguments Ok {A E} a.
Arguments Err {A E} e.

Declare Scope rauha_scope.
Delimit Scope rauha_scope with rauha.
Open Scope rauha_scope.

(** The [?] operator: bind the success value or return the error. *)
Notation "'let?' x ':=' c 'in' k" :=
  (match c with Ok x => k | Err err => Err err end)
  (at level 10, x pattern, c at level 200, k at level 200,
   format "'[v' 'let?'  x  ':='  c  'in' '/' k ']'") : rauha_scope.

(** An early [return Err(e)] guarded by a condition. *)
Notation "'guard' b 'else' e ';;' k" :=
  (if b then k else Err e)
  (at level 10, b at level 100, e at level 100, k at level 200,
   format "'[v' 'guard'  b  'else'  e  ';;' '/' k ']'") : rauha_scope.

Definition is_ok {A E} (r : result A E) : bool :=
  match r with Ok _ => true | Err _ => false end.

Definition map_err {A E F} (f : E -> F) (r : result A E) : result A F :=
  match r with Ok a => Ok a | Err e => Err (f e) end.

Lemma map_err_Ok {A E F} (f : E -> F) (r : result A E) a : map_err f r = Ok a -> r = Ok a.
Proof. destruct r; [by intros [= ->]|done]. Qed.

Definition ok_or {A E} (o : option A) (e : E) : result A E :=
  match o with Some a => Ok a | None => Err e end.

(** [for x in xs { f(x)?; }]: stops at the first error. *)
Fixpoint try_for_each {A E} (f : A -> result unit E) (xs : list A) : result unit E :=
  match xs with
  | [] => Ok tt
  | x :: xs' => let? _ := f x in try_for_each f xs'
  end.

#[global] Instance result_eq_dec {A E} `{EqDecision A} `{EqDecision E} :
  EqDecision (result A E).
Proof. solve_decision. Defined.

(** ** Tactics *)

(** Case analysis on the first scrutinee of a [match] or [if], with its
    equation kept. *)
Ltac break_match_hyp :=
  match goal with
  | H : context [match ?x with _ => _ end] |- _ =>
      lazymatch x with
      | context [match _ with _ => _ end] => fail
      | _ => destruct x eqn:?
      end
  end.

Ltac break_match_goal :=
  match goal with
  | |- context [match ?x with _ => _ end] =>
      lazymatch x with
      | context [match _ with _ => _ end] => fail
      | _ => destruct x eqn:?
      end
  end.

Ltac break_match := first [break_match_goal | break_match_hyp].

(** Boolean tests of the code turned into the propositions they decide. *)
Ltac reflect_bools :=
  repeat match goal with
  | H : (_ && _)%bool = true |- _ => apply andb_true_iff in H; destruct H
  | H : (_ || _)%bool = false |- _ => apply orb_false_iff in H; destruct H
  | H : negb _ = true |- _ => apply negb_true_iff in H
  | H : negb _ = false |- _ => apply negb_false_iff in H
  | H : (_ =? _)%Z = true |- _ => apply Z.eqb_eq in H
  | H : (_ =? _)%Z = false |- _ => apply Z.eqb_neq in H
  | H : (_ <? _)%Z = true |- _ => apply Z.ltb_lt in H
  | H : (_ <? _)%Z = false |- _ => apply Z.ltb_ge in H
  | H : (_ <=? _)%Z = true |- _ => apply Z.leb_le in H
  | H : (_ <=? _)%Z = false |- _ => apply Z.leb_gt in H
  | H : bool_decide _ = true |- _ => apply bool_decide_eq_true in H
  | H : bool_decide _ = false |- _ => apply bool_decide_eq_false in H
  end.

(** A [Forall] over an explicit list, element by element. *)
Ltac forall_each := repeat first [apply Forall_nil_2 | apply Forall_cons_2].

(** ** Machine integers

    A [w]-bit unsigned value is a [Z] in [[0, 2^w)]. *)

Definition wrap (w z : Z) : Z := (z mod 2 ^ w)%Z.
Definition in_width (w z : Z) : Prop := (0 <= z < 2 ^ w)%Z.
Definition as_signed (w z : Z) : Z :=
  (let m := wrap w z in if m <? 2 ^ (w - 1) then m else m - 2 ^ w)%Z.

(** [checked_add], [saturating_add] and [saturating_sub] at width [w]. *)
Definition checked_add (w a b : Z) : option Z :=
  if (a + b <? 2 ^ w)%Z then Some (a + b)%Z else None.
Definition saturating_add (w a b : Z) : Z := Z.min (a + b) (2 ^ w - 1).
Definition saturating_sub (a b : Z) : Z := Z.max 0 (a - b).

(** [x.clamp(lo, hi)]. *)
Definition clamp (lo hi x : Z) : Z :=
  if (x <? lo)%Z then lo else if (hi <? x)%Z then hi else x.

(** [x & bit != 0]. *)
Definition has_flag (x bit : Z) : bool := negb (Z.land x bit =? 0)%Z.

Lemma clamp_range (lo hi x : Z) :
  (lo <= hi)%Z -> (lo <= clamp lo hi x <= hi)%Z.
Proof. unfold clamp. intros. repeat break_match; reflect_bools; lia. Qed.

Lemma land_pow2_testbit (x n : Z) :
  (0 <= n)%Z -> Z.land x (2 ^ n) = if Z.testbit x n then (2 ^ n)%Z else 0%Z.
Proof.
  intros Hn. apply Z.bits_inj'. intros i Hi.
  rewrite Z.land_spec, Z.pow2_bits_eqb by lia.
  destruct (Z.eqb_spec n i) as [->|Hne].
  - destruct (Z.testbit x i); simpl; rewrite ?Z.pow2_bits_true, ?Z.bits_0; [done..|lia|done].
  - rewrite andb_false_r.
    destruct (Z.testbit x n); rewrite ?Z.pow2_bits_false, ?Z.bits_0; done.
Qed.

Lemma has_flag_pow2 (x n : Z) : (0 <= n)%Z -> has_flag x (2 ^ n) = Z.testbit x n.
Proof.
  intros Hn. unfold has_flag. rewrite land_pow2_testbit by done.
  destruct (Z.testbit x n); [|done].
  assert (2 ^ n <> 0)%Z by (apply Z.pow_nonzero; lia).
  by apply negb_true_iff, Z.eqb_neq.
Qed.

Lemma testbit_lor_pow2 (m n i : Z) :
  (0 <= n)%Z ->
  Z.testbit (Z.lor m (2 ^ n)) i = (Z.testbit m i || (n =? i)%Z)%bool.
Proof. intros Hn. by rewrite Z.lor_spec, Z.pow2_bits_eqb. Qed.

(** ** Lists *)

Lemma try_for_each_ok {A E} (f : A -> result unit E) (xs : list A) :
  try_for_each f xs = Ok tt <-> Forall (fun x => f x = Ok tt) xs.
Proof.
  induction xs as [|x xs IH]; simpl; [by split|].
  rewrite Forall_cons. destruct (f x) as [[]|e]; [|naive_solver].
  rewrite IH. naive_solver.
Qed.

(** ** Hints shared by the components *)

Create HintDb rauha.
#[export] Hint Resolve clamp_range : rauha.
