(* ===== verification/RunProtocol.v ===== *)
(** * Run Protocol v0: the lifecycle reducer

    Models [rauha-common/src/run.rs]: the Run states, the emitters and the pure
    function [reduce], with the order of its guards and match arms.  The
    transition table of [docs/run-protocol-v0.md] is stated as an inductive
    relation, [reduce] is proved to implement exactly it, and the journal-level
    consequences (terminal states, what an accepted Run went through, who can
    freeze a Run, a way out of every state) follow by induction on the
    sequence of reduced events. *)

From stdpp Require Import base gmap strings list.
From S2P Require Import Prelude.

Module Run.

Inductive RunState :=
| Preparing | Running | Waiting | Frozen | Delegated | Proving | Review
| Accepted | Discarded.

Inductive Emitter := Supervisor | Custodian | Broker | Reducer.

#[global] Instance RunState_eq_dec : EqDecision RunState.
Proof. solve_decision. Defined.
#[global] Instance Emitter_eq_dec : EqDecision Emitter.
Proof. solve_decision. Defined.

Record Reduction := mkReduction {
  red_state : option RunState;
  unknown_event : option string
}.

Record ProtocolError := mkProtocolError {
  err_state : option RunState;
  err_kind : string;
  err_emitter : Emitter
}.

(** What the [match kind] of [reduce] yields: the required emitter and the
    next state, [return Err(refuse())], or the catch-all arm. *)
Inductive Arm :=
| Known (source : Emitter) (next : option RunState)
| Refused
| Unknown.

(** [matches!(kind, "a" | "b" | ...)]. *)
Definition one_of (kind : string) (names : list string) : bool :=
  existsb (String.eqb kind) names.

(** [matches!(state, Some(a | b | ...))]. *)
Definition state_in (state : option RunState) (ss : list RunState) : bool :=
  match state with
  | Some s => existsb (fun t => bool_decide (s = t)) ss
  | None => false
  end.

Definition lifecycle_kinds : list string :=
  ["run.created"; "sandbox.ready"; "run.waiting"; "run.resumed"; "run.frozen";
   "run.delegated"; "proof.started"; "proof.finished"; "run.accepted";
   "run.discarded"].

Definition custodian_kinds : list string :=
  ["supervisor.claimed"; "supervisor.released"; "sandbox.materialized";
   "sandbox.destroyed"; "capability.granted"; "capability.revoked";
   "checkpoint.sealed"; "witness.attached"; "witness.observation";
   "witness.loss"; "receipt.sealed"; "journal.compacted"].

Definition broker_kinds : list string :=
  ["effect.requested"; "effect.executing"; "effect.succeeded"; "effect.failed";
   "effect.uncertain"; "effect.reconciled"].

Definition supervisor_kinds : list string :=
  ["effect.authorized"; "child.finished"; "human.asked"; "human.answered"].

(** The [match kind { ... }] of [reduce], arm by arm. *)
Definition arm (state : option RunState) (kind : string) : Arm :=
  if ((kind =? "run.created") && bool_decide (state = None))%string
  then Known Supervisor (Some Preparing)
  else if ((kind =? "sandbox.ready") && bool_decide (state = Some Preparing))%string
  then Known Custodian (Some Running)
  else if ((kind =? "run.waiting") && bool_decide (state = Some Running))%string
  then Known Supervisor (Some Waiting)
  else if ((kind =? "run.resumed") && state_in state [Waiting; Frozen; Delegated])%string
  then Known Supervisor (Some Running)
  else if ((kind =? "run.frozen")
           && state_in state [Preparing; Running; Waiting; Delegated; Proving])%string
  then Known Custodian (Some Frozen)
  else if ((kind =? "run.delegated") && state_in state [Running; Waiting])%string
  then Known Supervisor (Some Delegated)
  else if ((kind =? "proof.started") && state_in state [Running; Waiting; Delegated])%string
  then Known Supervisor (Some Proving)
  else if ((kind =? "proof.finished") && bool_decide (state = Some Proving))%string
  then Known Supervisor (Some Review)
  else if ((kind =? "run.accepted") && bool_decide (state = Some Review))%string
  then Known Supervisor (Some Accepted)
  else if ((kind =? "run.discarded") && bool_decide (is_Some state))%string
  then Known Supervisor (Some Discarded)
  else if one_of kind lifecycle_kinds then Refused
  else if one_of kind custodian_kinds then Known Custodian state
  else if one_of kind broker_kinds then Known Broker state
  else if one_of kind supervisor_kinds then Known Supervisor state
  else if (kind =? "journal.unknown_event")%string then Known Reducer state
  else Unknown.

Definition terminal (state : option RunState) : bool :=
  state_in state [Accepted; Discarded].

(** [reduce(state, kind, emitter)]; [None] is the state before [run.created]. *)
Definition reduce (state : option RunState) (kind : string) (emitter : Emitter)
  : result Reduction ProtocolError :=
  let refuse := mkProtocolError state kind emitter in
  if terminal state && negb (one_of kind ["receipt.sealed"; "journal.compacted"])
  then Err refuse
  else match arm state kind with
       | Refused => Err refuse
       | Unknown => Ok (mkReduction state (Some kind))
       | Known source next =>
           if negb (bool_decide (emitter = source))
              || (bool_decide (state = None) && negb (kind =? "run.created")%string)
           then Err refuse
           else Ok (mkReduction next None)
       end.

(** ** Replaying a journal

    The caller threads the reduced state through the recorded events, as the
    unit test [rp_lifecycle_replay_and_refusals] does. *)

Record Event := mkEvent { ev_kind : string; ev_emitter : Emitter }.

Fixpoint replay (state : option RunState) (journal : list Event)
  : result (option RunState) ProtocolError :=
  match journal with
  | [] => Ok state
  | ev :: rest =>
      let? r := reduce state (ev_kind ev) (ev_emitter ev) in
      replay (red_state r) rest
  end.

(** ** The specification: the transition table of the protocol document *)

Definition catalogued (kind : string) : bool :=
  one_of kind (lifecycle_kinds ++ custodian_kinds ++ broker_kinds
               ++ supervisor_kinds ++ ["journal.unknown_event"]).

(** Lifecycle transitions, with the emitter each requires. *)
Inductive transition : option RunState -> string -> Emitter -> RunState -> Prop :=
| t_created : transition None "run.created" Supervisor Preparing
| t_ready : transition (Some Preparing) "sandbox.ready" Custodian Running
| t_waiting : transition (Some Running) "run.waiting" Supervisor Waiting
| t_resumed s : s ∈ [Waiting; Frozen; Delegated] ->
    transition (Some s) "run.resumed" Supervisor Running
| t_frozen s : s ∈ [Preparing; Running; Waiting; Delegated; Proving] ->
    transition (Some s) "run.frozen" Custodian Frozen
| t_delegated s : s ∈ [Running; Waiting] ->
    transition (Some s) "run.delegated" Supervisor Delegated
| t_started s : s ∈ [Running; Waiting; Delegated] ->
    transition (Some s) "proof.started" Supervisor Proving
| t_finished : transition (Some Proving) "proof.finished" Supervisor Review
| t_accepted : transition (Some Review) "run.accepted" Supervisor Accepted
| t_discarded s : s ∉ [Accepted; Discarded] ->
    transition (Some s) "run.discarded" Supervisor Discarded.

(** Catalogued events that leave the lifecycle state alone. *)
Inductive annotation : string -> Emitter -> Prop :=
| a_custodian k : k ∈ custodian_kinds -> annotation k Custodian
| a_broker k : k ∈ broker_kinds -> annotation k Broker
| a_supervisor k : k ∈ supervisor_kinds -> annotation k Supervisor
| a_reducer : annotation "journal.unknown_event" Reducer.

(** One step of the protocol: the successor state and the marker the caller
    must record. *)
Inductive protocol_step : option RunState -> string -> Emitter ->
    option RunState -> option string -> Prop :=
| ps_move st k em s' : transition st k em s' -> protocol_step st k em (Some s') None
| ps_note s k em :
    annotation k em -> s ∉ [Accepted; Discarded] ->
    protocol_step (Some s) k em (Some s) None
| ps_seal s k :
    k ∈ ["receipt.sealed"; "journal.compacted"] -> s ∈ [Accepted; Discarded] ->
    protocol_step (Some s) k Custodian (Some s) None
| ps_unknown st k em :
    catalogued k = false -> terminal st = false ->
    protocol_step st k em st (Some k).

(** ** Lemmas *)

Lemma one_of_spec (k : string) (l : list string) : one_of k l = true <-> k ∈ l.
Proof.
  unfold one_of. rewrite existsb_exists, list_elem_of_In.
  setoid_rewrite String.eqb_eq. naive_solver.
Qed.

Lemma state_in_spec (st : option RunState) (l : list RunState) :
  state_in st l = true <-> exists s, st = Some s /\ s ∈ l.
Proof.
  destruct st as [s|]; simpl; [|naive_solver].
  rewrite existsb_exists. setoid_rewrite <- list_elem_of_In.
  setoid_rewrite bool_decide_eq_true. naive_solver.
Qed.

Lemma one_of_false (k : string) (l : list string) : one_of k l = false <-> k ∉ l.
Proof. rewrite <- one_of_spec. by destruct (one_of k l); split. Qed.

Lemma state_in_Some_false (s : RunState) (l : list RunState) :
  state_in (Some s) l = false <-> s ∉ l.
Proof.
  rewrite <- not_true_iff_false, state_in_spec. naive_solver.
Qed.

(** Turn the tests of [reduce] into facts about the kind and the state. *)
Ltac run_facts :=
  reflect_bools;
  repeat match goal with
  | H : (_ =? _)%string = true |- _ => apply String.eqb_eq in H
  | H : (_ =? _)%string = false |- _ => apply String.eqb_neq in H
  | H : one_of _ _ = true |- _ => apply one_of_spec in H
  | H : state_in _ _ = true |- _ =>
      apply state_in_spec in H as (? & ? & ?)
  | H : terminal (Some _) = false |- _ => apply state_in_Some_false in H
  | H : is_Some _ |- _ => destruct H
  end; subst.

(** Enumerate a membership in an explicit list. *)
Ltac enum_in :=
  unfold custodian_kinds, broker_kinds, supervisor_kinds in *;
  repeat match goal with
  | H : _ ∈ _ :: _ |- _ => apply elem_of_cons in H as [H|H]; subst
  | H : _ ∈ [] |- _ => by apply not_elem_of_nil in H
  end.

Lemma sealing_custodian (k : string) :
  k ∈ ["receipt.sealed"; "journal.compacted"] -> k ∈ custodian_kinds.
Proof. intros H. enum_in; apply one_of_spec; reflexivity. Qed.

Lemma lifecycle_not_annotation (k : string) (em : Emitter) :
  annotation k em -> one_of k lifecycle_kinds = false.
Proof. inversion 1 as [? Hk|? Hk|? Hk|]; subst; enum_in; reflexivity. Qed.

Lemma arm_annotation (st : option RunState) (k : string) (em : Emitter) :
  annotation k em -> arm st k = Known em st.
Proof. inversion 1 as [? Hk|? Hk|? Hk|]; subst; enum_in; reflexivity. Qed.

Lemma arm_unknown (st : option RunState) (k : string) :
  catalogued k = false <-> arm st k = Unknown.
Proof.
  unfold catalogued, arm, one_of. rewrite !existsb_app. split.
  - intros H. simpl in H. repeat (apply orb_false_iff in H as [? H] || apply orb_false_iff in H as [H ?]).
    repeat match goal with
    | H : (_ || _)%bool = false |- _ => apply orb_false_iff in H as [? H]
    end.
    repeat match goal with H : (k =? _)%string = false |- _ => rewrite H end.
    simpl. repeat match goal with H : (k =? _)%string = false |- _ => rewrite H end.
    reflexivity.
  - intros H. repeat (case_match; try discriminate).
    simpl in *. repeat match goal with H : _ = false |- _ => rewrite H end. done.
Qed.

(** Every arm that names a next state is a transition or an annotation. *)
Lemma arm_known (st : option RunState) (k : string) (src : Emitter) (nxt : option RunState) :
  terminal st = false -> arm st k = Known src nxt ->
  (exists s', nxt = Some s' /\ transition st k src s') \/ (nxt = st /\ annotation k src).
Proof.
  intros Ht H. unfold arm in H.
  repeat (case_match; [simplify_eq; run_facts; run_facts; eauto 10 using transition, annotation|]);
  simplify_eq.
Qed.

Lemma reduce_sound (st : option RunState) (k : string) (em : Emitter) (r : Reduction) :
  reduce st k em = Ok r -> protocol_step st k em (red_state r) (unknown_event r).
Proof.
  unfold reduce. intros H.
  destruct (terminal st) eqn:Ht; cbn [andb negb] in H.
  - destruct (one_of k ["receipt.sealed"; "journal.compacted"]) eqn:Hk; cbn [negb] in H;
      [|discriminate].
    apply state_in_spec in Ht as (s & -> & Hs). apply one_of_spec in Hk.
    rewrite (arm_annotation _ _ Custodian) in H
      by (constructor; by apply sealing_custodian).
    repeat case_match; simplify_eq. run_facts. by apply ps_seal.
  - destruct (arm st k) as [src nxt| |] eqn:Ha; [|discriminate|].
    + case_match eqn:Hg; simplify_eq. apply orb_false_iff in Hg as [Hem Hnone].
      run_facts. apply arm_known in Ha as [(s' & -> & Htr)|[-> Hann]]; [|..|done].
      * by apply ps_move.
      * destruct st as [s|]; [by apply ps_note, state_in_Some_false|].
        simpl in Hnone. apply negb_false_iff, String.eqb_eq in Hnone as ->.
        by apply lifecycle_not_annotation in Hann.
    + simplify_eq. apply ps_unknown; [by eapply arm_unknown|done].
Qed.

Lemma reduce_complete (st : option RunState) (k : string) (em : Emitter)
    (st' : option RunState) (u : option string) :
  protocol_step st k em st' u -> reduce st k em = Ok (mkReduction st' u).
Proof.
  inversion 1 as [? ? ? ? Htr|? ? ? Hann Hnt|? ? Hk Hs|? ? ? Hcat Hnt]; subst.
  - inversion Htr; subst; enum_in; try reflexivity.
    all: destruct s; try reflexivity; exfalso; set_solver.
  - unfold reduce, terminal.
    rewrite (proj2 (state_in_Some_false _ _) Hnt), (arm_annotation _ _ _ Hann).
    simpl. rewrite !bool_decide_eq_true_2 by done. reflexivity.
  - enum_in; reflexivity.
  - unfold reduce. rewrite Hnt. simpl. apply (arm_unknown st') in Hcat. by rewrite Hcat.
Qed.

Lemma reduce_err_payload (st : option RunState) (k : string) (em : Emitter) (e : ProtocolError) :
  reduce st k em = Err e -> e = mkProtocolError st k em.
Proof. unfold reduce. intros. repeat (case_match; simplify_eq); done. Qed.

Lemma replay_app (st : option RunState) (j1 j2 : list Event) :
  replay st (j1 ++ j2) =
  match replay st j1 with Ok st' => replay st' j2 | Err e => Err e end.
Proof.
  revert st. induction j1 as [|ev j1 IH]; intros st; simpl; [done|].
  destruct (reduce st _ _); [apply IH|done].
Qed.

(** What must already have happened for the Run to be in a state. *)
Definition milestones (st : option RunState) : list Event :=
  let created := mkEvent "run.created" Supervisor in
  let started := mkEvent "proof.started" Supervisor in
  let finished := mkEvent "proof.finished" Supervisor in
  let accepted := mkEvent "run.accepted" Supervisor in
  match st with
  | None => []
  | Some Proving => [created; started]
  | Some Review => [created; started; finished]
  | Some Accepted => [created; started; finished; accepted]
  | Some _ => [created]
  end.

(** [milestones] is maintained by every step. *)
Lemma milestones_step (st : option RunState) (k : string) (em : Emitter)
    (st' : option RunState) (u : option string) :
  protocol_step st k em st' u ->
  milestones st' `sublist_of` milestones st ++ [mkEvent k em].
Proof.
  inversion 1 as [? ? ? ? Htr| | |]; subst; try by apply sublist_inserts_r.
  inversion Htr; subst; enum_in; simpl;
    repeat (apply sublist_skip || apply sublist_cons || apply sublist_nil);
    try by apply sublist_nil_l.
  all: destruct s; simpl; repeat apply sublist_skip; apply sublist_nil_l.
Qed.

Lemma replay_milestones (st st' : option RunState) (j : list Event) :
  replay st j = Ok st' -> milestones st' `sublist_of` milestones st ++ j.
Proof.
  revert st. induction j as [|[k em] j IH]; intros st H; simpl in H.
  - simplify_eq. by rewrite app_nil_r.
  - destruct (reduce st k em) as [r|] eqn:Hr; [|discriminate].
    apply reduce_sound, milestones_step in Hr. apply IH in H.
    etrans; [exact H|].
    change (mkEvent k em :: j) with ([mkEvent k em] ++ j).
    rewrite (assoc_L (++)). by apply sublist_app.
Qed.

(** Replaying from a terminal state accepts nothing but sealing events. *)
Lemma terminal_step (st : option RunState) (k : string) (em : Emitter)
    (st' : option RunState) (u : option string) :
  terminal st = true -> protocol_step st k em st' u ->
  st' = st /\ em = Custodian /\ k ∈ ["receipt.sealed"; "journal.compacted"].
Proof.
  intros Ht. apply state_in_spec in Ht as (s & -> & Hs).
  inversion 1 as [? ? ? ? Htr|? ? ? ? Hnt|? ? Hk|? ? ? ? Hnt]; subst.
  - inversion Htr; subst; enum_in; set_solver.
  - done.
  - done.
  - apply state_in_Some_false in Hnt. done.
Qed.

(** The shortest way from each live state to [Accepted]. *)
Definition way_to_accept (s : RunState) : list Event :=
  let finish := [mkEvent "proof.finished" Supervisor; mkEvent "run.accepted" Supervisor] in
  match s with
  | Preparing => mkEvent "sandbox.ready" Custodian :: mkEvent "proof.started" Supervisor :: finish
  | Running | Waiting | Delegated => mkEvent "proof.started" Supervisor :: finish
  | Frozen => mkEvent "run.resumed" Supervisor :: mkEvent "proof.started" Supervisor :: finish
  | Proving => finish
  | Review => [mkEvent "run.accepted" Supervisor]
  | Accepted | Discarded => []
  end.

(** ** Properties *)

(** C11. The reducer implements the transition table of the Run protocol: it
    succeeds with a state and an unknown-event marker exactly when the protocol
    allows that step (RP-1, RP-2), and otherwise it refuses with an error that
    carries the state, kind and emitter it was given. *)
Theorem reduce_implements_protocol (st : option RunState) (k : string) (em : Emitter) :
  (forall st' u,
     reduce st k em = Ok (mkReduction st' u) <-> protocol_step st k em st' u) /\
  (forall e, reduce st k em = Err e <->
     e = mkProtocolError st k em /\ (forall st' u, ~ protocol_step st k em st' u)).
Proof.
  split.
  - intros st' u. split; [|apply reduce_complete].
    intros H. by apply reduce_sound in H.
  - intros e. split.
    + intros H. split; [by apply reduce_err_payload|].
      intros st' u Hs%reduce_complete. congruence.
    + intros [-> Hno]. destruct (reduce st k em) as [[st' u]|e] eqn:Hr.
      * exfalso. by eapply Hno, reduce_sound.
      * f_equal. by apply reduce_err_payload.
Qed.

(** RP-3: once a Run is accepted or discarded, a journal that still replays
    contains only [receipt.sealed] and [journal.compacted] events of the
    custodian, and the state never changes again. *)
Theorem terminal_states_absorb (st st' : option RunState) (j : list Event) :
  terminal st = true -> replay st j = Ok st' ->
  st' = st /\
  Forall (fun ev => ev_emitter ev = Custodian /\
                    ev_kind ev ∈ ["receipt.sealed"; "journal.compacted"]) j.
Proof.
  intros Ht. revert st'. induction j as [|[k em] j IH]; intros st' H; simpl in H.
  - by simplify_eq.
  - destruct (reduce st k em) as [r|] eqn:Hr; [|discriminate].
    apply reduce_sound, terminal_step in Hr as (Hst & -> & Hk); [|done].
    rewrite Hst in H. apply IH in H as [-> Hall]. split; [done|]. by constructor.
Qed.

Lemma terminal_states_absorb_witness :
  Some Accepted = Some Accepted /\
  Forall (fun ev => ev_emitter ev = Custodian /\
                    ev_kind ev ∈ ["receipt.sealed"; "journal.compacted"])
    [mkEvent "receipt.sealed" Custodian; mkEvent "journal.compacted" Custodian].
Proof.
  apply (terminal_states_absorb (Some Accepted) (Some Accepted)); reflexivity.
Defined.

(** No Run is accepted without proof: a journal that replays from nothing to
    [Accepted] contains, in this order, the supervisor's [run.created],
    [proof.started], [proof.finished] and [run.accepted]. *)
Theorem accepted_run_was_proved (j : list Event) :
  replay None j = Ok (Some Accepted) ->
  [mkEvent "run.created" Supervisor; mkEvent "proof.started" Supervisor;
   mkEvent "proof.finished" Supervisor; mkEvent "run.accepted" Supervisor]
    `sublist_of` j.
Proof. intros H. by apply replay_milestones in H. Qed.

Lemma accepted_run_was_proved_witness :
  [mkEvent "run.created" Supervisor; mkEvent "proof.started" Supervisor;
   mkEvent "proof.finished" Supervisor; mkEvent "run.accepted" Supervisor]
    `sublist_of`
  (mkEvent "run.created" Supervisor :: way_to_accept Preparing).
Proof.
  apply (accepted_run_was_proved (mkEvent "run.created" Supervisor :: way_to_accept Preparing)).
  reflexivity.
Defined.

(** RP-4: the state becomes [Frozen] only through the custodian's
    [run.frozen]; no supervisor, broker or reducer event freezes a Run. *)
Theorem frozen_only_by_custodian (st : option RunState) (k : string) (em : Emitter) (r : Reduction) :
  reduce st k em = Ok r -> red_state r = Some Frozen -> st <> Some Frozen ->
  k = "run.frozen"%string /\ em = Custodian.
Proof.
  intros Hr Hf Hne. apply reduce_sound in Hr. rewrite Hf in Hr.
  inversion Hr as [? ? ? ? Htr| | |]; subst; [|congruence..].
  by inversion Htr; subst.
Qed.

Lemma frozen_only_by_custodian_witness :
  "run.frozen"%string = "run.frozen"%string /\ Custodian = Custodian.
Proof.
  apply (frozen_only_by_custodian (Some Running) "run.frozen" Custodian
           (mkReduction (Some Frozen) None)); [reflexivity|reflexivity|discriminate].
Defined.

(** Every Run that is not terminal can still be finished: at most four
    further events accept it, and one event discards it. *)
Theorem live_run_can_finish (s : RunState) :
  terminal (Some s) = false ->
  length (way_to_accept s) <= 4 /\
  replay (Some s) (way_to_accept s) = Ok (Some Accepted) /\
  replay (Some s) [mkEvent "run.discarded" Supervisor] = Ok (Some Discarded).
Proof. destruct s; intros H; try discriminate; repeat split; simpl; lia. Qed.

Lemma live_run_can_finish_witness :
  length (way_to_accept Frozen) <= 4 /\
  replay (Some Frozen) (way_to_accept Frozen) = Ok (Some Accepted) /\
  replay (Some Frozen) [mkEvent "run.discarded" Supervisor] = Ok (Some Discarded).
Proof. apply (live_run_can_finish Frozen). reflexivity. Defined.

(** RP-2: events of kinds the reducer does not know have no effect on a
    replay; dropping them from the journal gives the same final state. *)
Theorem unknown_events_are_inert (st st' : option RunState) (j : list Event) :
  replay st j = Ok st' ->
  replay st (filter (fun ev => catalogued (ev_kind ev) = true) j) = Ok st'.
Proof.
  revert st. induction j as [|[k em] j IH]; intros st H; simpl in H; [done|].
  destruct (reduce st k em) as [r|] eqn:Hr; [|discriminate].
  rewrite filter_cons. case_decide as Hc; simpl in Hc.
  - simpl. rewrite Hr. by apply IH.
  - apply not_true_iff_false in Hc. apply IH.
    unfold reduce in Hr. case_match; [discriminate|].
    rewrite (proj1 (arm_unknown st k) Hc) in Hr. by simplify_eq.
Qed.

Lemma unknown_events_are_inert_witness :
  replay None (filter (fun ev => catalogued (ev_kind ev) = true)
                 [mkEvent "run.created" Supervisor; mkEvent "run.future" Broker]) =
  Ok (Some Preparing).
Proof. apply unknown_events_are_inert. reflexivity. Defined.

End Run.
