(* ===== verification/RustStr.v ===== *)
(** * Rust strings and decimal integers

    The part of [str] and [u64::from_str]/[Display] the sources use, on UTF-8
    byte strings: prefixes and suffixes, [trim], [to_uppercase], splitting, and
    decimal parsing and printing at a machine width, with the round trip the
    policy code relies on. *)

From stdpp Require Import base gmap strings list.
From Stdlib Require Import ZArith Ascii String Lia.
From S2P Require Import Prelude.
Open Scope string_scope.

Module Str.

(** [s.starts_with(p)] and [s.strip_prefix(p)]. *)
Definition starts_with (p s : string) : bool := String.prefix p s.

Fixpoint strip_prefix (p s : string) : option string :=
  match p, s with
  | "", _ => Some s
  | String a p', String b s' => if Ascii.eqb a b then strip_prefix p' s' else None
  | String _ _, "" => None
  end.

(** [s.strip_suffix(suf)]: the tail equal to [suf] is at a unique position. *)
Fixpoint strip_suffix (suf s : string) : option string :=
  if String.eqb s suf then Some ""
  else match s with
       | "" => None
       | String c s' => String c <$> strip_suffix suf s'
       end.

Fixpoint contains_char (c : ascii) (s : string) : bool :=
  match s with
  | "" => false
  | String d s' => Ascii.eqb c d || contains_char c s'
  end.

(** [s.split_once(c)]: at the first occurrence; [s.rsplit_once(c)]: at the last. *)
Fixpoint split_once (c : ascii) (s : string) : option (string * string) :=
  match s with
  | "" => None
  | String d s' =>
      if Ascii.eqb c d then Some ("", s')
      else (fun ab => (String d (fst ab), snd ab)) <$> split_once c s'
  end.

Fixpoint rsplit_once (c : ascii) (s : string) : option (string * string) :=
  match s with
  | "" => None
  | String d s' =>
      match rsplit_once c s' with
      | Some (a, b) => Some (String d a, b)
      | None => if Ascii.eqb c d then Some ("", s') else None
      end
  end.

(** [s.split(c)]: always at least one piece. *)
Fixpoint split (c : ascii) (s : string) : list string :=
  match s with
  | "" => [""]
  | String d s' =>
      if Ascii.eqb c d then "" :: split c s'
      else match split c s' with
           | p :: ps => String d p :: ps
           | [] => [String d ""]
           end
  end.

Definition code (c : ascii) : Z := Z.of_N (N_of_ascii c).

(** Unicode [White_Space], by the length of its UTF-8 encoding. *)
Definition ws1 (c : ascii) : bool := ((9 <=? code c) && (code c <=? 13) || (code c =? 32))%Z.
Definition ws2 (c d : ascii) : bool :=
  ((code c =? 0xC2) && ((code d =? 0x85) || (code d =? 0xA0)))%Z.
Definition ws3 (c d e : ascii) : bool :=
  (((code c =? 0xE1) && (code d =? 0x9A) && (code e =? 0x80))
   || ((code c =? 0xE2) && (code d =? 0x80)
       && (((0x80 <=? code e) && (code e <=? 0x8A)) || (code e =? 0xA8)
           || (code e =? 0xA9) || (code e =? 0xAF)))
   || ((code c =? 0xE2) && (code d =? 0x81) && (code e =? 0x9F))
   || ((code c =? 0xE3) && (code d =? 0x80) && (code e =? 0x80)))%Z.

Fixpoint trim_start (s : string) : string :=
  match s with
  | "" => ""
  | String c s1 =>
      if ws1 c then trim_start s1
      else match s1 with
           | "" => s
           | String d s2 =>
               if ws2 c d then trim_start s2
               else match s2 with
                    | "" => s
                    | String e s3 => if ws3 c d e then trim_start s3 else s
                    end
           end
  end.

Fixpoint trim_end (s : string) : string :=
  if String.eqb (trim_start s) "" then ""
  else match s with
       | "" => ""
       | String c s' => String c (trim_end s')
       end.

Definition trim (s : string) : string := trim_end (trim_start s).

(** [s.to_uppercase()].  ASCII letters, and the ten code points whose full
    uppercase mapping is pure ASCII (dotless i, long s, sharp s and the Latin
    ligatures).  Every other non-ASCII code point maps to a string with a
    non-ASCII code point in it and is left as it is: comparing the result with
    ASCII names is unaffected. *)
Definition ascii_upper (c : ascii) : ascii :=
  if ((97 <=? code c) && (code c <=? 122))%Z
  then ascii_of_N (Z.to_N (code c - 32)) else c.

Definition upper2 (c d : ascii) : option string :=
  if ((code c =? 0xC3) && (code d =? 0x9F))%Z then Some "SS"
  else if ((code c =? 0xC4) && (code d =? 0xB1))%Z then Some "I"
  else if ((code c =? 0xC5) && (code d =? 0xBF))%Z then Some "S"
  else None.

Definition upper3 (c d e : ascii) : option string :=
  if ((code c =? 0xEF) && (code d =? 0xAC))%Z
  then nth_error ["FF"; "FI"; "FL"; "FFI"; "FFL"; "ST"; "ST"]
         (Z.to_nat (code e - 0x80))
  else None.

Fixpoint to_uppercase (s : string) : string :=
  match s with
  | "" => ""
  | String c s1 =>
      match s1 with
      | String d s2 =>
          match upper2 c d with
          | Some u => u ++ to_uppercase s2
          | None =>
              match s2 with
              | String e s3 =>
                  match upper3 c d e with
                  | Some u => u ++ to_uppercase s3
                  | None => String (ascii_upper c) (to_uppercase s1)
                  end
              | "" => String (ascii_upper c) (to_uppercase s1)
              end
          end
      | "" => String (ascii_upper c) ""
      end
  end.

(** [s.join(sep)] on a list of strings. *)
Fixpoint join (sep : string) (l : list string) : string :=
  match l with
  | [] => ""
  | [x] => x
  | x :: rest => x ++ sep ++ join sep rest
  end.

(** ** Decimal integers *)

Inductive IntError := Empty | InvalidDigit | PosOverflow.

Definition to_digit (c : ascii) : option Z :=
  if ((48 <=? code c) && (code c <=? 57))%Z then Some (code c - 48)%Z else None.

Fixpoint parse_digits (w : Z) (s : string) (acc : Z) : result Z IntError :=
  match s with
  | "" => Ok acc
  | String c s' =>
      match to_digit c with
      | None => Err InvalidDigit
      | Some d =>
          if (acc * 10 + d <? 2 ^ w)%Z then parse_digits w s' (acc * 10 + d)%Z
          else Err PosOverflow
      end
  end.

(** [s.parse::<uW>()]: one optional leading [+], then at least one digit. *)
Definition parse_uint (w : Z) (s : string) : result Z IntError :=
  match s with
  | "" => Err Empty
  | "+" | "-" => Err InvalidDigit
  | String "+" s' => parse_digits w s' 0
  | _ => parse_digits w s 0
  end.

Definition digit (d : Z) : ascii := ascii_of_N (Z.to_N (48 + d)).

Fixpoint show_aux (fuel : nat) (n : Z) (acc : string) : string :=
  match fuel with
  | O => acc
  | S f =>
      let acc' := String (digit (n mod 10)) acc in
      if (n / 10 =? 0)%Z then acc' else show_aux f (n / 10)%Z acc'
  end.

(** [n.to_string()] for an unsigned integer of at most 128 bits: 39 digits. *)
Definition show (n : Z) : string := show_aux 39 n "".

Example show_0 : show 0 = "0". Proof. reflexivity. Qed.
Example show_u64_max : show (2 ^ 64 - 1) = "18446744073709551615". Proof. reflexivity. Qed.
Example parse_plus : parse_uint 64 "+7" = Ok 7%Z. Proof. reflexivity. Qed.
Example parse_big : parse_uint 8 "256" = Err PosOverflow. Proof. reflexivity. Qed.
Example upper_ligature : to_uppercase "net_admin" = "NET_ADMIN". Proof. reflexivity. Qed.
Example trim_ws : trim " 	4Gi " = "4Gi". Proof. reflexivity. Qed.

(** ** Lemmas *)

Lemma code_digit (d : Z) : (0 <= d < 10)%Z -> code (digit d) = (48 + d)%Z.
Proof.
  intros H. unfold code, digit.
  rewrite N_ascii_embedding by (apply N2Z.inj_lt; rewrite Z2N.id by lia; simpl; lia).
  rewrite Z2N.id; lia.
Qed.

Lemma to_digit_digit (d : Z) : (0 <= d < 10)%Z -> to_digit (digit d) = Some d.
Proof.
  intros H. unfold to_digit. rewrite code_digit by done.
  replace (48 <=? 48 + d)%Z with true by (symmetry; apply Z.leb_le; lia).
  replace (48 + d <=? 57)%Z with true by (symmetry; apply Z.leb_le; lia).
  simpl. f_equal. lia.
Qed.

Lemma mod10_range (n : Z) : (0 <= n mod 10 < 10)%Z.
Proof. apply Z.mod_pos_bound. lia. Qed.

(** Parsing what [show_aux] prints folds the printed number into the
    accumulator, provided the result fits the width. *)
Lemma parse_show_aux (w : Z) (f : nat) (n r : Z) (acc : string) :
  (0 <= n < 10 ^ Z.of_nat f)%Z -> (0 < f)%nat -> (0 <= r)%Z ->
  exists k, (0 <= k)%Z /\
    ((r * 10 ^ k + n < 2 ^ w)%Z ->
     parse_digits w (show_aux f n acc) r = parse_digits w acc (r * 10 ^ k + n)).
Proof.
  revert n r acc. induction f as [|f IH]; intros n r acc Hn Hf Hr; [lia|].
  pose proof (mod10_range n) as Hm. pose proof (Z.div_mod n 10 ltac:(lia)) as Hdm.
  assert (0 <= n / 10)%Z as Hq by (apply Z.div_pos; lia).
  cbn [show_aux]. destruct (Z.eqb_spec (n / 10) 0) as [Hz|Hz].
  - exists 1%Z. split; [lia|]. intros Hb.
    cbn [parse_digits]. rewrite to_digit_digit by done.
    rewrite (proj2 (Z.ltb_lt _ _)) by lia. f_equal. lia.
  - destruct f as [|f]; [change (10 ^ Z.of_nat 1)%Z with 10%Z in Hn; lia|].
    destruct (IH (n / 10)%Z r (String (digit (n mod 10)) acc)) as (k & Hk & Heq); [|lia|lia|].
    { split; [done|]. apply Z.div_lt_upper_bound; [lia|].
      rewrite Nat2Z.inj_succ, Z.pow_succ_r in Hn by lia. lia. }
    exists (Z.succ k). split; [lia|]. rewrite Z.pow_succ_r by lia. intros Hb.
    assert (0 <= r * 10 ^ k)%Z by (apply Z.mul_nonneg_nonneg; [lia|apply Z.pow_nonneg; lia]).
    rewrite Heq by lia. cbn [parse_digits]. rewrite to_digit_digit by done.
    rewrite (proj2 (Z.ltb_lt _ _)) by lia. f_equal. lia.
Qed.

(** Strings of ASCII letters and digits: [trim] and the [+] sign leave them alone. *)
Definition alnum (c : ascii) : bool :=
  (((48 <=? code c) && (code c <=? 57)) || ((65 <=? code c) && (code c <=? 90))
   || ((97 <=? code c) && (code c <=? 122)))%Z.

Fixpoint all_alnum (s : string) : bool :=
  match s with "" => true | String c s' => alnum c && all_alnum s' end.

Lemma all_alnum_app (s t : string) : all_alnum (s ++ t) = all_alnum s && all_alnum t.
Proof. induction s as [|c s IH]; simpl; [done|]. by rewrite IH, andb_assoc. Qed.

Lemma alnum_digit (d : Z) : (0 <= d < 10)%Z -> alnum (digit d) = true.
Proof.
  intros H. unfold alnum. rewrite code_digit by done.
  replace (48 <=? 48 + d)%Z with true by (symmetry; apply Z.leb_le; lia).
  replace (48 + d <=? 57)%Z with true by (symmetry; apply Z.leb_le; lia). done.
Qed.

Lemma all_alnum_show_aux (f : nat) (n : Z) (acc : string) :
  all_alnum acc = true -> all_alnum (show_aux f n acc) = true.
Proof.
  revert n acc. induction f as [|f IH]; intros n acc H; simpl; [done|].
  assert (all_alnum (String (digit (n mod 10)) acc) = true).
  { simpl. by rewrite alnum_digit, H by apply mod10_range. }
  destruct (_ =? 0)%Z; auto.
Qed.

Lemma all_alnum_show (n : Z) : all_alnum (show n) = true.
Proof. by apply all_alnum_show_aux. Qed.

Lemma show_aux_cons (f : nat) (n : Z) (acc : string) :
  exists d t, (0 <= d < 10)%Z /\ show_aux (S f) n acc = String (digit d) t.
Proof.
  revert n acc. induction f as [|f IH]; intros n acc.
  - simpl. exists (n mod 10)%Z. pose proof (mod10_range n). destruct (_ =? _)%Z; eauto.
  - change (show_aux (S (S f)) n acc) with
      (let acc' := String (digit (n mod 10)) acc in
       if (n / 10 =? 0)%Z then acc' else show_aux (S f) (n / 10) acc'). cbv zeta.
    destruct (_ =? 0)%Z; [|apply IH].
    exists (n mod 10)%Z. pose proof (mod10_range n). eauto.
Qed.

Lemma parse_uint_show (w n : Z) :
  (0 <= n < 2 ^ w)%Z -> (w <= 128)%Z -> parse_uint w (show n) = Ok n.
Proof.
  intros Hn Hw.
  assert (n < 10 ^ 39)%Z.
  { apply Z.lt_le_trans with (2 ^ 128)%Z; [|vm_compute; discriminate].
    apply Z.lt_le_trans with (2 ^ w)%Z; [lia|]. apply Z.pow_le_mono_r; lia. }
  destruct (parse_show_aux w 39 n 0 "") as (k & Hk & Heq); [simpl; lia|lia|lia|].
  rewrite Z.mul_0_l, Z.add_0_l in Heq. unfold show.
  specialize (Heq ltac:(lia)).
  destruct (show_aux_cons 38 n "") as (d & t & Hd & Hs). rewrite Hs in Heq |- *.
  assert (exists j, (j < 10)%nat /\ d = Z.of_nat j) as (j & Hj & ->)
    by (exists (Z.to_nat d); lia).
  do 10 (destruct j as [|j]; [exact Heq|]). lia.
Qed.

Lemma string_length_app (s t : string) :
  String.length (s ++ t) = (String.length s + String.length t)%nat.
Proof. induction s as [|c s IH]; simpl; [done|]. by rewrite IH. Qed.

Lemma strip_suffix_cons (suf : string) (c : ascii) (s : string) :
  strip_suffix suf (String c s) =
  if String.eqb (String c s) suf then Some "" else String c <$> strip_suffix suf s.
Proof. reflexivity. Qed.

Lemma strip_suffix_app (suf s : string) : strip_suffix suf (s ++ suf) = Some s.
Proof.
  induction s as [|c s IH].
  - destruct suf as [|b suf]; simpl; [done|]. by rewrite Ascii.eqb_refl, String.eqb_refl.
  - change (String c s ++ suf) with (String c (s ++ suf)).
    rewrite strip_suffix_cons, IH.
    destruct (String.eqb_spec (String c (s ++ suf)) suf) as [Heq|_]; [|done].
    exfalso. apply (f_equal String.length) in Heq. simpl in Heq.
    rewrite string_length_app in Heq. lia.
Qed.

Lemma strip_suffix_Some (suf s t : string) : strip_suffix suf s = Some t -> s = t ++ suf.
Proof.
  revert t. induction s as [|c s IH]; intros t.
  - destruct suf; simpl; intros; by simplify_eq.
  - rewrite strip_suffix_cons. destruct (String.eqb_spec (String c s) suf) as [<-|]; intros; [by simplify_eq|].
    destruct (strip_suffix suf s) as [u|]; simplify_eq/=. by rewrite (IH u eq_refl) at 1.
Qed.

Lemma trim_start_alnum (s : string) : all_alnum s = true -> trim_start s = s.
Proof.
  destruct s as [|c s]; [done|]. intros H. simpl in H. apply andb_true_iff in H as [Hc _].
  assert (ws1 c = false /\ (forall d, ws2 c d = false) /\ (forall d e, ws3 c d e = false))
    as (H1 & H2 & H3).
  { unfold alnum in Hc. unfold ws1, ws2, ws3.
    repeat (apply orb_true_iff in Hc as [Hc|Hc]); reflect_bools;
    rewrite ?(proj2 (Z.eqb_neq (code c) _)) by lia; simpl;
    (split; [|done]); rewrite orb_false_r;
    apply andb_false_iff; right; apply Z.leb_gt; lia. }
  simpl. rewrite H1. destruct s as [|d s]; [done|]. rewrite H2.
  destruct s as [|e s]; [done|]. by rewrite H3.
Qed.

Lemma trim_alnum (s : string) : all_alnum s = true -> trim s = s.
Proof.
  intros H. unfold trim. rewrite trim_start_alnum by done.
  induction s as [|c s IH]; [done|].
  cbn [trim_end]. rewrite trim_start_alnum by done. simpl.
  simpl in H. apply andb_true_iff in H as [_ H]. by rewrite IH.
Qed.

End Str.
