(* ===== verification/RustText.v ===== *)
(** * More of Rust's text handling

    What the daemon's Linux layer does with text: lines, substrings, words and
    replacements of [str], hexadecimal and octal printing, [Path] components, and
    the [Display] of IP addresses. *)

From stdpp Require Import base gmap strings list.
From Stdlib Require Import ZArith Ascii String Lia.
From S2P Require Import Prelude.
From S2P Require Import RustStr.
Open Scope string_scope.

Module Text.
Import Str.

(** [s.contains(pat)], [s.find(pat)] with the text before and after. *)
Fixpoint contains_str (pat s : string) : bool :=
  starts_with pat s || match s with "" => false | String _ s' => contains_str pat s' end.

Fixpoint split_str_once (pat s : string) : option (string * string) :=
  match strip_prefix pat s with
  | Some rest => Some ("", rest)
  | None =>
      match s with
      | "" => None
      | String c s' => (fun ab => (String c (fst ab), snd ab)) <$> split_str_once pat s'
      end
  end.

(** [s.lines()]: no empty last line, and a carriage return before the line feed
    is dropped. *)
Definition lines (s : string) : list string :=
  let ls := split "010" s in
  let ls := if String.eqb (List.last ls "") "" then removelast ls else ls in
  map (fun l => default l (strip_suffix (String "013" "") l)) ls.

(** [s.split_whitespace()]: [word] is the word being read. *)
Definition flush (word : string) (ws : list string) : list string :=
  if String.eqb word "" then ws else word :: ws.

Fixpoint words_from (word s : string) : list string :=
  match s with
  | "" => flush word []
  | String c s1 =>
      if ws1 c then flush word (words_from "" s1)
      else match s1 with
           | String d s2 =>
               if ws2 c d then flush word (words_from "" s2)
               else match s2 with
                    | String e s3 =>
                        if ws3 c d e then flush word (words_from "" s3)
                        else words_from (word ++ String c "") s1
                    | "" => words_from (word ++ String c "") s1
                    end
           | "" => words_from (word ++ String c "") s1
           end
  end.
Definition split_whitespace (s : string) : list string := words_from "" s.

(** [s.replace('c', "r")] and [s.trim_start_matches('c')]. *)
Fixpoint replace_char (c : ascii) (r s : string) : string :=
  match s with
  | "" => ""
  | String d s' => (if Ascii.eqb c d then r else String d "") ++ replace_char c r s'
  end.

Fixpoint trim_start_matches (c : ascii) (s : string) : string :=
  match s with
  | "" => ""
  | String d s' => if Ascii.eqb c d then trim_start_matches c s' else s
  end.

(** ** Hexadecimal and octal *)

Definition hex_digit (d : Z) : ascii :=
  if (d <? 10)%Z then digit d else ascii_of_N (Z.to_N (87 + d)).

Fixpoint radix_aux (fuel : nat) (base n : Z) (acc : string) : string :=
  match fuel with
  | O => acc
  | S f =>
      let acc := String (hex_digit (n mod base)) acc in
      if (n / base =? 0)%Z then acc else radix_aux f base (n / base) acc
  end.

(** [{:x}] and [{:o}] of at most 64 bits, [{:02x}] of a byte. *)
Definition show_hex (n : Z) : string := radix_aux 22 16 n "".
Definition show_octal (n : Z) : string := radix_aux 22 8 n "".
Definition show_hex2 (n : Z) : string :=
  String (hex_digit (n / 16 mod 16)) (String (hex_digit (n mod 16)) "").

(** ** IP addresses *)

Definition show_ipv4 (o : list Z) : string := join "." (map show o).

(** The first longest run of zero groups: its start and length. *)
Fixpoint longest_zeros (i : nat) (g : list Z) (cur longest : nat * nat) : nat * nat :=
  match g with
  | [] => longest
  | s :: g' =>
      if (s =? 0)%Z then
        let cur := (if Nat.eqb (snd cur) 0 then i else fst cur, S (snd cur)) in
        longest_zeros (S i) g' cur (if Nat.ltb (snd longest) (snd cur) then cur else longest)
      else longest_zeros (S i) g' (0, 0)%nat longest
  end.

Definition show_groups (g : list Z) : string := join ":" (map show_hex g).

Definition show_ipv6 (g : list Z) : string :=
  match g with
  | [a; b; c; d; e; f; hi; lo] =>
      if ((a =? 0) && (b =? 0) && (c =? 0) && (d =? 0) && (e =? 0) && (f =? 0xffff))%Z
      then "::ffff:" ++ show_ipv4 [hi / 256; hi mod 256; lo / 256; lo mod 256]%Z
      else
        let '(start, len) := longest_zeros 0 g (0, 0)%nat (0, 0)%nat in
        if Nat.ltb 1 len
        then show_groups (take start g) ++ "::" ++ show_groups (drop (start + len) g)
        else show_groups g
  | _ => show_groups g
  end.

Example ipv6_loopback : show_ipv6 [0; 0; 0; 0; 0; 0; 0; 1]%Z = "::1".
Proof. reflexivity. Qed.
Example ipv6_first_run : show_ipv6 [0x2001; 0; 0; 1; 0; 0; 0; 0xab]%Z = "2001:0:0:1::ab".
Proof. reflexivity. Qed.
Example ipv6_mapped : show_ipv6 [0; 0; 0; 0; 0; 0xffff; 0x0a01; 0x0203]%Z = "::ffff:10.1.2.3".
Proof. reflexivity. Qed.
Example words_example : split_whitespace (" a " ++ String "009" "bc  d") = ["a"; "bc"; "d"].
Proof. reflexivity. Qed.
Example lines_example : lines ("a" ++ String "013" (String "010" "") ++ String "010" "b") = ["a"; ""; "b"].
Proof. reflexivity. Qed.

(** ** Paths *)

Inductive Component := RootDir | CurDir | ParentDir | Normal (name : string).
#[global] Instance Component_eq_dec : EqDecision Component.
Proof. solve_decision. Defined.

Definition is_absolute (path : string) : bool := starts_with "/" path.

(** [Path::components] on Unix: empty and [.] segments vanish, except a leading
    [.] of a relative path. *)
Fixpoint segments (ps : list string) : list Component :=
  match ps with
  | [] => []
  | p :: ps' =>
      if String.eqb p "" || String.eqb p "." then segments ps'
      else (if String.eqb p ".." then ParentDir else Normal p) :: segments ps'
  end.

Definition components (path : string) : list Component :=
  if is_absolute path then RootDir :: segments (split "/" path)
  else match split "/" path with
       | "." :: rest => CurDir :: segments rest
       | ps => segments ps
       end.

Fixpoint is_prefix (a b : list Component) : bool :=
  match a, b with
  | [], _ => true
  | x :: a', y :: b' => bool_decide (x = y) && is_prefix a' b'
  | _, _ => false
  end.

(** [Path::starts_with] and [==] compare components. *)
Definition path_starts_with (p q : string) : bool := is_prefix (components q) (components p).
Definition path_eqb (p q : string) : bool := bool_decide (components p = components q).

Example components_example :
  components "/etc/./x//../y" = [RootDir; Normal "etc"; Normal "x"; ParentDir; Normal "y"].
Proof. reflexivity. Qed.

Lemma is_prefix_app a b : is_prefix a b = true <-> exists c, b = (a ++ c)%list.
Proof.
  revert b. induction a as [|x a IH]; intros [|y b]; cbn; split; try done; eauto.
  - intros (c & Hc). discriminate.
  - rewrite andb_true_iff, bool_decide_eq_true, IH. intros [-> (c & ->)]. by exists c.
  - intros (c & Hc). rewrite andb_true_iff, bool_decide_eq_true, IH. injection Hc as -> ->. eauto.
Qed.

(** ** Lines *)

Definition nl : string := String "010" "".
Definition unlines (ls : list string) : string := foldr (fun l acc => l ++ nl ++ acc) "" ls.

(** No line feed. *)
Definition one_line (s : string) : bool := negb (contains_char "010" s).

Lemma string_app_assoc (a b c : string) : (a ++ b) ++ c = a ++ (b ++ c).
Proof. induction a as [|x a IH]; [done|]. change (String x ((a ++ b) ++ c) = String x (a ++ b ++ c)). by rewrite IH. Qed.

Lemma string_app_assoc3 (a b c : string) : a ++ "/" ++ b ++ c = (a ++ "/" ++ b) ++ c.
Proof. by rewrite string_app_assoc. Qed.

Lemma app_cons c s t : String c s ++ t = String c (s ++ t).
Proof. done. Qed.

Lemma app_nil (a : string) : a ++ "" = a.
Proof. induction a as [|c a IH]; [done|]. change (String c (a ++ "") = String c a). by rewrite IH. Qed.

Lemma unlines_app a b : unlines (a ++ b) = unlines a ++ unlines b.
Proof.
  induction a as [|x a IH]; [done|]. change (unlines ((x :: a) ++ b)) with (x ++ nl ++ unlines (a ++ b)).
  change (unlines (x :: a)) with (x ++ nl ++ unlines a). by rewrite IH, !string_app_assoc.
Qed.

Lemma contains_char_app c a b : contains_char c (a ++ b) = contains_char c a || contains_char c b.
Proof.
  induction a as [|x a IH]; [done|]. change (contains_char c (String x a ++ b)) with (Ascii.eqb c x || contains_char c (a ++ b)).
  change (contains_char c (String x a)) with (Ascii.eqb c x || contains_char c a). by rewrite IH, orb_assoc.
Qed.

Lemma one_line_app a b : one_line (a ++ b) = one_line a && one_line b.
Proof. unfold one_line. by rewrite contains_char_app, negb_orb. Qed.

Lemma split_first c l rest : contains_char c l = false -> split c (l ++ String c rest) = l :: split c rest.
Proof.
  induction l as [|x l IH]; intros Hl.
  - change ("" ++ String c rest) with (String c rest). cbn [split]. by rewrite Ascii.eqb_refl.
  - change (Ascii.eqb c x || contains_char c l = false) in Hl. apply orb_false_iff in Hl as [Hx Hl].
    change (split c (String x l ++ String c rest)) with
      (if Ascii.eqb c x then "" :: split c (l ++ String c rest)
       else match split c (l ++ String c rest) with p :: ps => String x p :: ps | [] => [String x ""] end).
    by rewrite Hx, IH.
Qed.

Lemma split_line l rest : one_line l = true -> split "010" (l ++ nl ++ rest) = l :: split "010" rest.
Proof. unfold one_line. rewrite negb_true_iff. apply split_first. Qed.

Lemma split_unlines ls : forallb one_line ls = true -> split "010" (unlines ls) = (ls ++ [""])%list.
Proof.
  induction ls as [|l ls IH]; [done|]. cbn [forallb]. rewrite andb_true_iff. intros [Hl Hls].
  change (unlines (l :: ls)) with (l ++ nl ++ unlines ls). rewrite split_line by done. by rewrite IH.
Qed.

(** Printed numbers and addresses are on one line. *)
Lemma one_line_alnum s : all_alnum s = true -> one_line s = true.
Proof.
  unfold one_line. induction s as [|c s IH]; [done|]. cbn [all_alnum contains_char]. rewrite andb_true_iff.
  intros [Hc Hs]. destruct (Ascii.eqb_spec "010" c) as [<-|]; [vm_compute in Hc; discriminate|by apply IH].
Qed.

Lemma one_line_show n : one_line (show n) = true.
Proof. apply one_line_alnum, all_alnum_show. Qed.

Lemma one_line_join sep l : one_line sep = true -> forallb one_line l = true -> one_line (join sep l) = true.
Proof.
  intros Hsep. induction l as [|x l IH]; [done|]. cbn [forallb]. rewrite andb_true_iff. intros [Hx Hl].
  destruct l as [|y l]; [done|]. change (join sep (x :: y :: l)) with (x ++ sep ++ join sep (y :: l)).
  rewrite !one_line_app, Hx, Hsep. by apply IH.
Qed.

Lemma hex_digit_line d : (0 <= d < 16)%Z -> Ascii.eqb "010" (hex_digit d) = false.
Proof.
  intros Hd. assert (exists j, (j < 16)%nat /\ d = Z.of_nat j) as (j & Hj & ->) by (exists (Z.to_nat d); lia).
  do 16 (destruct j as [|j]; [reflexivity|]). lia.
Qed.

Lemma one_line_radix fuel base n acc : (0 < base <= 16)%Z -> one_line acc = true -> one_line (radix_aux fuel base n acc) = true.
Proof.
  intros Hb. revert n acc. induction fuel as [|f IH]; intros n acc Ha; [done|]. cbn [radix_aux].
  assert (one_line (String (hex_digit (n mod base)) acc) = true) as Hc.
  { unfold one_line. cbn [contains_char]. rewrite hex_digit_line; [exact Ha|].
    pose proof (Z.mod_pos_bound n base ltac:(lia)). lia. }
  destruct (n / base =? 0)%Z; [exact Hc|by apply IH].
Qed.

Lemma one_line_show_hex n : one_line (show_hex n) = true.
Proof. apply one_line_radix; [lia|done]. Qed.

Lemma one_line_map {A} (f : A -> string) l : (forall x, one_line (f x) = true) -> forallb one_line (map f l) = true.
Proof. intros Hf. induction l as [|x l IH]; [done|]. cbn. by rewrite Hf, IH. Qed.

Lemma one_line_ipv4 o : one_line (show_ipv4 o) = true.
Proof. apply one_line_join; [done|]. apply one_line_map, one_line_show. Qed.

Lemma one_line_groups g : one_line (show_groups g) = true.
Proof. apply one_line_join; [done|]. apply one_line_map, one_line_show_hex. Qed.

Lemma one_line_ipv6 g : one_line (show_ipv6 g) = true.
Proof.
  unfold show_ipv6. repeat case_match; rewrite ?one_line_app, ?one_line_groups, ?one_line_ipv4; done.
Qed.

(** ** Splitting *)

Lemma split_once_Some c s a b : split_once c s = Some (a, b) -> s = a ++ String c b /\ contains_char c a = false.
Proof.
  revert a b. induction s as [|d s IH]; intros a b; simpl; [done|].
  destruct (Ascii.eqb_spec c d) as [<-|Hn]; [by intros [= <- <-]|].
  destruct (split_once c s) as [[x y]|]; simpl; [|done]. intros [= <- <-].
  destruct (IH x y eq_refl) as [-> Hx]. simpl. destruct (Ascii.eqb_spec c d); [done|]. by rewrite Hx.
Qed.

Lemma split_once_app c a b : contains_char c a = false -> split_once c (a ++ String c b) = Some (a, b).
Proof.
  induction a as [|d a IH]; simpl; [by rewrite Ascii.eqb_refl|].
  intros [Hd Ha]%orb_false_iff. by rewrite Hd, IH.
Qed.

Lemma split_once_None c s : split_once c s = None <-> contains_char c s = false.
Proof.
  induction s as [|d s IH]; simpl; [done|]. destruct (Ascii.eqb c d); simpl; [done|].
  rewrite <- IH. by destruct (split_once c s).
Qed.

Lemma rsplit_once_None c s : rsplit_once c s = None <-> contains_char c s = false.
Proof.
  induction s as [|d s IH]; simpl; [done|]. rewrite orb_false_iff, <- IH.
  destruct (rsplit_once c s) as [[x y]|]; [by split; [|intros [_ ?]]|].
  destruct (Ascii.eqb c d); [by split; [|intros [? _]]|done].
Qed.

Lemma rsplit_once_Some c s a b : rsplit_once c s = Some (a, b) -> s = a ++ String c b /\ contains_char c b = false.
Proof.
  revert a b. induction s as [|d s IH]; intros a b; simpl; [done|].
  destruct (rsplit_once c s) as [[x y]|] eqn:E.
  - intros [= <- <-]. destruct (IH x y eq_refl) as [-> Hy]. done.
  - destruct (Ascii.eqb_spec c d) as [<-|]; [|done]. intros [= <- <-].
    split; [done|]. by apply rsplit_once_None.
Qed.

Lemma rsplit_once_contains c a b :
  contains_char c b = true ->
  rsplit_once c (a ++ b) = (fun xy => (a ++ fst xy, snd xy)) <$> rsplit_once c b.
Proof.
  intros Hb. assert (is_Some (rsplit_once c b)) as [[x y] Hxy].
  { destruct (rsplit_once c b) eqn:E; [done|]. apply rsplit_once_None in E. congruence. }
  rewrite Hxy. induction a as [|d a IH]; simpl in *; [done|]. by rewrite IH.
Qed.

Lemma rsplit_once_app c a b : contains_char c b = false -> rsplit_once c (a ++ String c b) = Some (a, b).
Proof.
  intros Hb. rewrite rsplit_once_contains by (simpl; by rewrite Ascii.eqb_refl). simpl.
  apply rsplit_once_None in Hb. rewrite Hb, Ascii.eqb_refl. simpl.
  f_equal. f_equal. clear. induction a as [|d a IH]; [done|]. change (String d (a ++ "") = String d a). by rewrite IH.
Qed.

(** The last occurrence is in the part that has one. *)
Lemma rsplit_once_prefix c a b x y :
  contains_char c b = false -> rsplit_once c (a ++ b) = Some (x, y) -> exists y', rsplit_once c a = Some (x, y').
Proof.
  intros Hb. revert x y. induction a as [|d a IH]; intros x y; simpl.
  - apply rsplit_once_None in Hb. intros H. change (rsplit_once c b = Some (x, y)) in H. by rewrite Hb in H.
  - destruct (rsplit_once c (a ++ b)) as [[u v]|] eqn:E.
    + intros [= <- <-]. destruct (IH u v eq_refl) as [y' ->]. by eexists.
    + destruct (Ascii.eqb c d); [|done]. intros [= <- <-].
      assert (rsplit_once c a = None) as ->; [|by eexists].
      apply rsplit_once_None in E. rewrite contains_char_app in E. apply orb_false_iff in E as [E _].
      by apply rsplit_once_None.
Qed.

(** An occurrence at or after the end of [a] is in what follows it. *)
Lemma contains_after c a b x y :
  a ++ b = x ++ String c y -> (String.length a <= String.length x)%nat -> contains_char c b = true.
Proof.
  revert x. induction a as [|d a IH]; intros x H Hl.
  - change (b = x ++ String c y) in H. subst b. rewrite contains_char_app. simpl. by rewrite Ascii.eqb_refl, orb_true_r.
  - destruct x as [|e x]; simpl in Hl; [lia|].
    change (String d (a ++ b) = String e (x ++ String c y)) in H. injection H as _ H. apply (IH x); [done|lia].
Qed.

(** ** Cancelling and taking apart *)

Lemma app_cancel a b c : a ++ b = a ++ c -> b = c.
Proof. induction a as [|d a IH]; [done|]. intros H. injection H as H. auto. Qed.

Lemma snoc_inj a b c d : a ++ String c "" = b ++ String d "" -> a = b /\ c = d.
Proof.
  revert b. induction a as [|e a IH]; intros [|f b] H.
  - by injection H as ->.
  - injection H as -> H. by destruct b.
  - injection H as -> H. by destruct a.
  - injection H as -> H. destruct (IH b H) as [-> ->]. done.
Qed.

Lemma app_cancel_r a b c : a ++ c = b ++ c -> a = b.
Proof.
  revert a b. induction c as [|d c IH]; intros a b H.
  - assert (Hn : forall x, x ++ "" = x) by (clear; induction x as [|e x IH]; [done|]; change (String e (x ++ "") = String e x); by rewrite IH).
    by rewrite !Hn in H.
  - assert (Hn : forall x, x ++ String d c = (x ++ String d "") ++ c) by (intros x; by rewrite string_app_assoc).
    rewrite !Hn in H. apply IH in H. by apply snoc_inj in H as [-> _].
Qed.

Lemma strip_prefix_app p s : strip_prefix p (p ++ s) = Some s.
Proof. induction p as [|c p IH]; [done|]. simpl. by rewrite Ascii.eqb_refl. Qed.

Lemma strip_prefix_Some p s t : strip_prefix p s = Some t -> s = p ++ t.
Proof.
  revert s. induction p as [|c p IH]; intros s; simpl; [by intros [= ->]|].
  destruct s as [|d s]; [done|]. destruct (Ascii.eqb_spec c d) as [<-|]; [|done]. intros H. by rewrite (IH s H).
Qed.

Lemma starts_with_Some p s : starts_with p s = true -> exists t, s = p ++ t.
Proof.
  unfold starts_with. revert s. induction p as [|c p IH]; intros s H; [by exists s|].
  destruct s as [|d s]; [done|]. cbn [String.prefix] in H. destruct (ascii_dec c d) as [<-|]; [|done].
  destruct (IH s H) as [t ->]. by exists t.
Qed.

Lemma substring_all s : String.substring 0 (String.length s) s = s.
Proof. induction s as [|c s IH]; simpl; [done|]. by rewrite IH. Qed.

Lemma substring_app p s n :
  (String.length p + String.length s - String.length p = n)%nat ->
  String.substring (String.length p) n (p ++ s) = s.
Proof.
  intros <-. induction p as [|c p IH]; simpl; [|exact IH]. by rewrite Nat.sub_0_r, substring_all.
Qed.

Lemma replace_cons c r d s : replace_char c r (String d s) = (if Ascii.eqb c d then r else String d "") ++ replace_char c r s.
Proof. done. Qed.

Lemma replace_app c r a b : replace_char c r (a ++ b) = replace_char c r a ++ replace_char c r b.
Proof. induction a as [|d a IH]; [done|]. by rewrite app_cons, !replace_cons, IH, string_app_assoc. Qed.

(** A replacement that left no trace replaced nothing. *)
Lemma replace_none c r s : contains_char r (replace_char c (String r "") s) = false -> replace_char c (String r "") s = s.
Proof.
  induction s as [|d s IH]; [done|]. rewrite replace_cons, contains_char_app, orb_false_iff. intros [Hd Hs].
  destruct (Ascii.eqb c d); [|by rewrite (IH Hs)]. cbn [contains_char] in Hd. by rewrite Ascii.eqb_refl in Hd.
Qed.

Lemma replace_contains x c r s :
  x <> c -> x <> r -> contains_char x (replace_char c (String r "") s) = contains_char x s.
Proof.
  intros Hc Hr. induction s as [|d s IH]; [done|]. rewrite replace_cons, contains_char_app, IH. cbn [contains_char].
  destruct (Ascii.eqb_spec c d) as [<-|]; cbn [contains_char]; rewrite orb_false_r; [|done].
  by rewrite (proj2 (Ascii.eqb_neq x r) Hr), (proj2 (Ascii.eqb_neq x c) Hc).
Qed.

Lemma starts_cons c d s : starts_with (String c "") (String d s) = Ascii.eqb c d.
Proof.
  unfold starts_with. cbn [String.prefix]. destruct (ascii_dec c d) as [->|Hn]; [|by destruct (Ascii.eqb_spec c d)].
  rewrite Ascii.eqb_refl. by destruct s.
Qed.

Lemma replaced_no_slash s r :
  starts_with "/" r = false -> starts_with "/" (replace_char ":" "_" (replace_char "/" "_" s) ++ r) = false.
Proof.
  intros Hr. destruct s as [|c s]; [done|]. rewrite replace_cons.
  destruct (Ascii.eqb_spec "/" c) as [<-|Hn]; rewrite app_cons, replace_cons, string_app_assoc.
  - destruct (Ascii.eqb_spec ":" "_"); [done|]. by rewrite app_cons, starts_cons.
  - destruct (Ascii.eqb_spec ":" c) as [<-|]; rewrite app_cons, starts_cons; [done|]. by apply Ascii.eqb_neq.
Qed.

Lemma substring_prefix n s : exists t, s = String.substring 0 n s ++ t.
Proof.
  revert n. induction s as [|c s IH]; intros [|n]; simpl.
  - by exists "". 
  - by exists "".
  - by exists (String c s).
  - destruct (IH n) as [t Ht]. exists t. by rewrite app_cons, <- Ht.
Qed.

(** ** Printable text *)

Fixpoint all_chars (p : ascii -> bool) (s : string) : bool :=
  match s with "" => true | String c s => p c && all_chars p s end.

Lemma all_chars_app p a b : all_chars p (a ++ b) = all_chars p a && all_chars p b.
Proof. induction a as [|c a IH]; simpl; [done|]. by rewrite IH, andb_assoc. Qed.

Lemma all_chars_impl p q s : (forall c, p c = true -> q c = true) -> all_chars p s = true -> all_chars q s = true.
Proof. intros H. induction s as [|c s IH]; simpl; [done|]. rewrite !andb_true_iff. naive_solver. Qed.

(** ASCII without the space and the control characters. *)
Definition graphic (c : ascii) : bool := ((33 <=? code c) && (code c <=? 126))%Z.

Lemma trim_start_graphic s : all_chars graphic s = true -> trim_start s = s.
Proof.
  destruct s as [|c s]; [done|]. simpl. intros [Hc _]%andb_true_iff.
  unfold graphic in Hc. apply andb_true_iff in Hc as [H1 H2].
  apply Z.leb_le in H1. apply Z.leb_le in H2.
  assert (ws1 c = false) as ->.
  { unfold ws1. apply orb_false_iff. split; [apply andb_false_iff; right; apply Z.leb_gt; lia|apply Z.eqb_neq; lia]. }
  destruct s as [|d s]; [done|].
  assert (ws2 c d = false) as ->.
  { unfold ws2. apply andb_false_iff. left. apply Z.eqb_neq. lia. }
  destruct s as [|e s]; [done|].
  assert (ws3 c d e = false) as ->; [|done].
  unfold ws3. rewrite !(proj2 (Z.eqb_neq (code c) _)) by lia. done.
Qed.

Lemma trim_graphic s : all_chars graphic s = true -> trim s = s.
Proof.
  intros H. unfold trim. rewrite trim_start_graphic by done.
  induction s as [|c s IH]; [done|].
  cbn [trim_end]. rewrite trim_start_graphic by done. simpl.
  simpl in H. apply andb_true_iff in H as [_ H]. by rewrite IH.
Qed.

End Text.
