(* ===== verification/EnforcerApi.v ===== *)
(** * The enforcement boundary

    Models [rauha-enforcer-api/src/lib.rs]: the neutral policy vocabulary, the
    [EnforcerBackend] trait as a type class over a backend state, the in-memory
    [NoopEnforcer], and the conformance harness every backend must pass.  The
    contract a backend owes its callers is the class [EnforcerContract]; the
    harness is proved to succeed on any backend that meets it, and the noop
    backend is proved to meet it. *)

From stdpp Require Import base gmap strings list fin_maps.
From Stdlib Require Import ZArith Lia.
From S2P Require Import Prelude.
From S2P Require Import RustStr.
Open Scope Z_scope.

Module Api.

Record ZoneRef := mkZoneRef { zr_name : string; kernel_id : Z }.

Inductive ZoneKind := Standard | Privileged | Isolated.

Record ZoneEnforcement := mkZoneEnforcement {
  caps_mask : Z;
  allow_ptrace : bool;
  allow_host_net : bool;
  kind : ZoneKind
}.

(** [#[derive(Default)]]: nothing allowed. *)
Definition ZoneEnforcement_default : ZoneEnforcement :=
  mkZoneEnforcement 0 false false Standard.

Inductive Decision := Allow | Deny.

Inductive Hook :=
| FileOpen | BprmCheck | SocketConnect | PtraceAccess | Signal | CgroupAttach.

Inductive Matcher := AnyTarget | Raw (payload : list Z).

Record EnforcementRule := mkRule {
  rule_id : Z;
  hook : Hook;
  matcher : Matcher;
  decision : Decision;
  requires_kernel : bool
}.

Record EnforcementPolicy := mkPolicy {
  zone : ZoneEnforcement;
  rules : list EnforcementRule
}.

Definition EnforcementPolicy_default : EnforcementPolicy :=
  mkPolicy ZoneEnforcement_default [].

#[global] Instance Hook_eq_dec : EqDecision Hook.
Proof. solve_decision. Defined.
#[global] Instance ZoneKind_eq_dec : EqDecision ZoneKind.
Proof. solve_decision. Defined.

Definition hook_index (h : Hook) : nat :=
  match h with
  | FileOpen => 0 | BprmCheck => 1 | SocketConnect => 2
  | PtraceAccess => 3 | Signal => 4 | CgroupAttach => 5
  end%nat.

Definition hook_of_index (n : nat) : Hook :=
  match n with
  | 0 => FileOpen | 1 => BprmCheck | 2 => SocketConnect
  | 3 => PtraceAccess | 4 => Signal | _ => CgroupAttach
  end%nat.

Lemma hook_of_index_of (h : Hook) : hook_of_index (hook_index h) = h.
Proof. by destruct h. Qed.

#[global] Instance Hook_countable : Countable Hook :=
  inj_countable' hook_index hook_of_index hook_of_index_of.

(** [{:?}] on a hook. *)
Definition hook_debug (h : Hook) : string :=
  match h with
  | FileOpen => "FileOpen" | BprmCheck => "BprmCheck"
  | SocketConnect => "SocketConnect" | PtraceAccess => "PtraceAccess"
  | Signal => "Signal" | CgroupAttach => "CgroupAttach"
  end.

Record Capabilities := mkCapabilities {
  kernel_enforcement : bool;
  hooks : gset Hook;
  event_stream : bool;
  counters : bool
}.

Definition Capabilities_noop : Capabilities := mkCapabilities false ∅ false false.

Definition supports_rule (caps : Capabilities) (rule : EnforcementRule) : bool :=
  if requires_kernel rule && negb (kernel_enforcement caps) then false
  else bool_decide (hook rule ∈ hooks caps).

Inductive EnforcerError :=
| NotLoaded
| ZoneNotFound (name : string)
| PolicyUnenforceable (zone : string) (rule : Z) (reason : string)
| Verifier (message : string)
| KernelError (errno : Z).

Record EnforcementStats := mkStats { allowed : Z; denied : Z; errors : Z }.
Definition EnforcementStats_default : EnforcementStats := mkStats 0 0 0.

Inductive VerifyDiscrepancyKind :=
| ZoneMissing | PolicyMissing | PolicyMismatch | RuleUnsupported | HookInactive
| EventStreamUnhealthy | CounterUnhealthy | BackendUnloaded.

Record VerifyDiscrepancy := mkDiscrepancy {
  d_kind : VerifyDiscrepancyKind;
  d_rule : option Z;
  d_message : string
}.

Record VerifyReport := mkReport {
  ok : bool;
  discrepancies : list VerifyDiscrepancy
}.

(** ** The trait

    A backend has interior state behind [&self]; each method takes the state
    and returns its result with the new state.  [watch_events] is left out:
    both implementations drop the sender at once, so the receiver they return
    is closed and empty. *)

Class EnforcerBackend (St : Type) := {
  load : St -> result unit EnforcerError * St;
  shutdown : St -> result unit EnforcerError * St;
  register_zone : string -> EnforcementPolicy -> St -> result Z EnforcerError * St;
  remove_zone : string -> bool -> St -> result unit EnforcerError * St;
  apply_policy : ZoneRef -> EnforcementPolicy -> St -> result unit EnforcerError * St;
  attach_container : ZoneRef -> string -> Z -> St -> result unit EnforcerError * St;
  detach_container : string -> Z -> St -> result unit EnforcerError * St;
  register_host_path : ZoneRef -> string -> bool -> St -> result Z EnforcerError * St;
  allow_comm : ZoneRef -> ZoneRef -> St -> result unit EnforcerError * St;
  deny_comm : ZoneRef -> ZoneRef -> St -> result unit EnforcerError * St;
  stats : ZoneRef -> St -> result EnforcementStats EnforcerError * St;
  verify : ZoneRef -> EnforcementPolicy -> St -> result VerifyReport EnforcerError * St;
  capabilities : St -> Capabilities
}.

(** [expect]: the harness panics ([None]) when a call does not succeed. *)
Definition expect {St A E} (c : St -> result A E * St) (k : A -> St -> option St) (s : St)
  : option St :=
  match c s with
  | (Ok a, s') => k a s'
  | (Err _, _) => None
  end.

(** [conformance::run_basic_conformance]: the final state, or [None] when an
    [expect] or the [assert!] fails. *)
Definition run_basic_conformance {St} `{EnforcerBackend St} : St -> option St :=
  let empty := EnforcementPolicy_default in
  expect load (fun _ =>
  expect (register_zone "zone-7" empty) (fun kid =>
  let z := mkZoneRef "zone-7" kid in
  expect (apply_policy z empty) (fun _ =>
  expect (attach_container z "container-1" 4242) (fun _ =>
  expect (register_host_path z "/zones/zone-7/rootfs" true) (fun _ =>
  expect (stats z) (fun _ =>
  expect (verify z empty) (fun report s =>
  if ok report then
    expect (detach_container "container-1" 4242) (fun _ =>
    expect (remove_zone "zone-7" true) (fun _ =>
    expect shutdown (fun _ s' => Some s'))) s
  else None))))))).

(** ** The contract behind the trait

    [budget n s]: the backend is loaded and at least [n] more kernel entries
    fit.  [claimable p s]: the objects under host path [p] can be enumerated. *)

Definition supported (caps : Capabilities) (p : EnforcementPolicy) : Prop :=
  Forall (fun r => supports_rule caps r = true) (rules p).

Class EnforcerContract (St : Type) `{EnforcerBackend St} := {
  ready : St -> Prop;
  budget : nat -> St -> Prop;
  known : ZoneRef -> St -> Prop;
  claimable : string -> St -> Prop;
  load_spec s : ready s ->
    exists s', load s = (Ok tt, s') /\ budget 3 s' /\
               (forall p, claimable p s -> claimable p s');
  register_spec n name p s : budget (S n) s -> supported (capabilities s) p ->
    exists id s', register_zone name p s = (Ok id, s') /\ budget n s' /\
                  known (mkZoneRef name id) s' /\
                  (forall q, claimable q s -> claimable q s');
  apply_spec n z p s : budget (S n) s -> known z s -> supported (capabilities s) p ->
    exists s', apply_policy z p s = (Ok tt, s') /\ budget n s' /\ known z s' /\
               (forall q, claimable q s -> claimable q s');
  attach_spec n z c cg s : budget (S n) s -> known z s ->
    exists s', attach_container z c cg s = (Ok tt, s') /\ budget n s' /\ known z s' /\
               (forall q, claimable q s -> claimable q s');
  path_spec n z p rec s : budget n s -> known z s -> claimable p s ->
    exists count s', register_host_path z p rec s = (Ok count, s') /\
                     budget n s' /\ known z s';
  stats_spec n z s : budget n s -> known z s ->
    exists st s', stats z s = (Ok st, s') /\ budget n s' /\ known z s';
  verify_spec n z p s : budget n s -> known z s -> supported (capabilities s) p ->
    exists s', verify z p s = (Ok (mkReport true []), s') /\ budget n s' /\ known z s';
  detach_spec n z c cg s : budget n s -> known z s ->
    exists s', detach_container c cg s = (Ok tt, s') /\ budget n s' /\ known z s';
  remove_spec n z s : budget n s -> known z s ->
    exists s', remove_zone (zr_name z) true s = (Ok tt, s') /\ budget n s';
  shutdown_spec n s : budget n s -> exists s', shutdown s = (Ok tt, s')
}.

(** ** The noop backend *)

Record NoopZone := mkNoopZone { nz_kernel_id : Z; nz_kind : ZoneKind }.

Record NoopState := mkNoop {
  loaded : bool;
  next_id : Z;
  zones : gmap string NoopZone;
  members : gmap string string
}.

(** [NoopEnforcer::new()]. *)
Definition NoopEnforcer_new : NoopState := mkNoop false 0 ∅ ∅.

Definition ensure_loaded (s : NoopState) : result unit EnforcerError :=
  if loaded s then Ok tt else Err NotLoaded.

Definition ensure_zone (s : NoopState) (name : string) : result unit EnforcerError :=
  match zones s !! name with Some _ => Ok tt | None => Err (ZoneNotFound name) end.

Definition reject_unenforceable (name : string) (p : EnforcementPolicy)
    (caps : Capabilities) : result unit EnforcerError :=
  try_for_each (fun r =>
    if supports_rule caps r then Ok tt
    else Err (PolicyUnenforceable name (rule_id r)
                (if requires_kernel r then "backend has no kernel enforcement"
                 else "backend does not support hook " ++ hook_debug (hook r))))
    (rules p).

Definition noop_load (s : NoopState) : result unit EnforcerError * NoopState :=
  (Ok tt, mkNoop true (next_id s) (zones s) (members s)).

Definition noop_shutdown (s : NoopState) : result unit EnforcerError * NoopState :=
  (Ok tt, mkNoop false (next_id s) ∅ ∅).

(** [state.next_id += 1] wraps at 32 bits in a release build. *)
Definition noop_register_zone (name : string) (p : EnforcementPolicy) (s : NoopState)
  : result Z EnforcerError * NoopState :=
  match (let? _ := ensure_loaded s in reject_unenforceable name p Capabilities_noop) with
  | Err e => (Err e, s)
  | Ok _ =>
      match zones s !! name with
      | Some z =>
          (Ok (nz_kernel_id z),
           mkNoop (loaded s) (next_id s)
             (<[name := mkNoopZone (nz_kernel_id z) (kind (zone p))]> (zones s)) (members s))
      | None =>
          let id := wrap 32 (next_id s + 1) in
          (Ok id,
           mkNoop (loaded s) id
             (<[name := mkNoopZone id (kind (zone p))]> (zones s)) (members s))
      end
  end.

Definition has_members (s : NoopState) (name : string) : bool :=
  existsb (fun kv => String.eqb (snd kv) name) (map_to_list (members s)).

Definition noop_remove_zone (name : string) (drain : bool) (s : NoopState)
  : result unit EnforcerError * NoopState :=
  match (let? _ := ensure_loaded s in ensure_zone s name) with
  | Err e => (Err e, s)
  | Ok _ =>
      if has_members s name && negb drain
      then (Err (Verifier ("zone " ++ name ++ " still has attached containers (pass drain=true)")), s)
      else (Ok tt,
            mkNoop (loaded s) (next_id s) (delete name (zones s))
              (filter (fun kv => snd kv <> name) (members s)))
  end.

Definition noop_apply_policy (z : ZoneRef) (p : EnforcementPolicy) (s : NoopState)
  : result unit EnforcerError * NoopState :=
  (let? _ := ensure_loaded s in
   let? _ := ensure_zone s (zr_name z) in
   reject_unenforceable (zr_name z) p Capabilities_noop, s).

Definition noop_attach_container (z : ZoneRef) (c : string) (cgroup_id : Z) (s : NoopState)
  : result unit EnforcerError * NoopState :=
  match (let? _ := ensure_loaded s in ensure_zone s (zr_name z)) with
  | Err e => (Err e, s)
  | Ok _ => (Ok tt, mkNoop (loaded s) (next_id s) (zones s) (<[c := zr_name z]> (members s)))
  end.

Definition noop_detach_container (c : string) (cgroup_id : Z) (s : NoopState)
  : result unit EnforcerError * NoopState :=
  match ensure_loaded s with
  | Err e => (Err e, s)
  | Ok _ => (Ok tt, mkNoop (loaded s) (next_id s) (zones s) (delete c (members s)))
  end.

Definition noop_register_host_path (z : ZoneRef) (p : string) (recursive : bool) (s : NoopState)
  : result Z EnforcerError * NoopState :=
  (let? _ := ensure_loaded s in let? _ := ensure_zone s (zr_name z) in Ok 0, s).

Definition noop_comm (a b : ZoneRef) (s : NoopState) : result unit EnforcerError * NoopState :=
  (let? _ := ensure_loaded s in
   let? _ := ensure_zone s (zr_name a) in ensure_zone s (zr_name b), s).

Definition noop_stats (z : ZoneRef) (s : NoopState)
  : result EnforcementStats EnforcerError * NoopState :=
  (let? _ := ensure_loaded s in
   let? _ := ensure_zone s (zr_name z) in Ok EnforcementStats_default, s).

Definition noop_verify (z : ZoneRef) (p : EnforcementPolicy) (s : NoopState)
  : result VerifyReport EnforcerError * NoopState :=
  (if negb (loaded s)
   then Ok (mkReport false [mkDiscrepancy BackendUnloaded None "noop enforcer is not loaded"])
   else match zones s !! zr_name z with
        | None => Ok (mkReport false [mkDiscrepancy ZoneMissing None
                        ("zone " ++ zr_name z ++ " is not registered")])
        | Some _ =>
            let ds := map (fun r => mkDiscrepancy RuleUnsupported (Some (rule_id r))
                                      ("rule RuleId(" ++ Str.show (rule_id r) ++ ") is unsupported by noop enforcer"))
                        (List.filter (fun r => negb (supports_rule Capabilities_noop r)) (rules p)) in
            Ok (mkReport (match ds with [] => true | _ => false end) ds)
        end, s).

#[global] Instance NoopEnforcer : EnforcerBackend NoopState := {
  load := noop_load;
  shutdown := noop_shutdown;
  register_zone := noop_register_zone;
  remove_zone := noop_remove_zone;
  apply_policy := noop_apply_policy;
  attach_container := noop_attach_container;
  detach_container := noop_detach_container;
  register_host_path := noop_register_host_path;
  allow_comm := noop_comm;
  deny_comm := noop_comm;
  stats := noop_stats;
  verify := noop_verify;
  capabilities := fun _ => Capabilities_noop
}.

(** ** What the noop backend promises *)

(** Every member belongs to a registered zone, and ids are 32-bit values. *)
Definition noop_wf (s : NoopState) : Prop :=
  (forall c z, members s !! c = Some z -> is_Some (zones s !! z)) /\
  (forall name z, zones s !! name = Some z -> in_width 32 (nz_kernel_id z)) /\
  in_width 32 (next_id s).

Lemma ensure_loaded_ok s : loaded s = true -> ensure_loaded s = Ok tt.
Proof. unfold ensure_loaded. by intros ->. Qed.

Lemma ensure_zone_ok s name : is_Some (zones s !! name) -> ensure_zone s name = Ok tt.
Proof. unfold ensure_zone. by intros [? ->]. Qed.

Lemma ensure_zone_inv s name : ensure_zone s name = Ok tt -> is_Some (zones s !! name).
Proof. unfold ensure_zone. destruct (zones s !! name); naive_solver. Qed.

Lemma supports_rule_noop r : supports_rule Capabilities_noop r = false.
Proof. unfold supports_rule. simpl. destruct (requires_kernel r); simpl; [done|].
  apply bool_decide_eq_false_2. set_solver. Qed.

Lemma reject_unenforceable_ok name p caps :
  reject_unenforceable name p caps = Ok tt <-> supported caps p.
Proof.
  unfold reject_unenforceable, supported. rewrite try_for_each_ok.
  apply Forall_iff. intros r. destruct (supports_rule caps r); naive_solver.
Qed.

Lemma supported_noop p : supported Capabilities_noop p <-> rules p = [].
Proof.
  unfold supported. destruct (rules p) as [|r rs]; [by split|].
  rewrite Forall_cons, supports_rule_noop. naive_solver.
Qed.


#[export] Hint Resolve ensure_zone_inv lookup_insert_is_Some : rauha.

(** The calls a client can make, as steps on the backend state. *)
Inductive noop_step (s : NoopState) : NoopState -> Prop :=
| step_load : noop_step s (snd (noop_load s))
| step_shutdown : noop_step s (snd (noop_shutdown s))
| step_register name p : noop_step s (snd (noop_register_zone name p s))
| step_remove name drain : noop_step s (snd (noop_remove_zone name drain s))
| step_apply z p : noop_step s (snd (noop_apply_policy z p s))
| step_attach z c cg : noop_step s (snd (noop_attach_container z c cg s))
| step_detach c cg : noop_step s (snd (noop_detach_container c cg s))
| step_path z p rec : noop_step s (snd (noop_register_host_path z p rec s))
| step_comm a b : noop_step s (snd (noop_comm a b s))
| step_stats z : noop_step s (snd (noop_stats z s))
| step_verify z p : noop_step s (snd (noop_verify z p s)).

Lemma filter_members_lookup s name c z :
  filter (fun kv => snd kv <> name) (members s) !! c = Some z <->
  members s !! c = Some z /\ z <> name.
Proof. by rewrite map_lookup_filter_Some. Qed.

Lemma noop_step_wf s s' : noop_step s s' -> noop_wf s -> noop_wf s'.
Proof.
  assert (Hw : forall z, in_width 32 (wrap 32 z)).
  { intros z. unfold in_width, wrap. apply Z.mod_pos_bound. lia. }
  unfold noop_wf. destruct 1; simpl; intros (Hm & Hid & Hn); try done.
  - unfold noop_register_zone.
    repeat break_match; simpl; (split_and!; [| |done || apply Hw]); try done.
    1,3: intros c z' Hc; apply lookup_insert_is_Some'; naive_solver.
    all: intros m z'; rewrite lookup_insert_Some; intros [[<- <-]|[_ ?]]; simpl; eauto.
  - unfold noop_remove_zone. repeat break_match; simpl; try done.
    split_and!; [| |done].
    + intros c z [Hc Hne]%filter_members_lookup. rewrite lookup_delete_ne by done. eauto.
    + intros m z [_ Hz]%lookup_delete_Some. eauto.
  - unfold noop_attach_container. repeat break_match; simpl; try done.
    split_and!; [|done..]. intros c' z'.
    destruct (decide (c = c')) as [->|]; rewrite ?lookup_insert_eq, ?lookup_insert_ne by done;
      [|by eauto].
    intros [= <-]. apply ensure_zone_inv.
    destruct (ensure_loaded s) as [[]|]; simplify_eq. by destruct (ensure_zone s (zr_name z)) as [[]|].
  - unfold noop_detach_container. repeat break_match; simpl; try done.
    split_and!; [|done..]. intros c' z' [_ ?]%lookup_delete_Some. eauto.
Qed.

(** Kernel ids handed out so far: distinct, and none above the counter. *)
Definition noop_ids_fresh (n : nat) (s : NoopState) : Prop :=
  next_id s <= Z.of_nat n /\ 0 <= next_id s /\
  (forall a za, zones s !! a = Some za -> 0 < nz_kernel_id za <= next_id s) /\
  (forall a b za zb, zones s !! a = Some za -> zones s !! b = Some zb ->
     nz_kernel_id za = nz_kernel_id zb -> a = b).

Lemma insert_zone_ids (m : gmap string NoopZone) (name : string) (z : NoopZone) (bound : Z) :
  (forall a za, m !! a = Some za -> 0 < nz_kernel_id za <= bound) ->
  (forall a b za zb, m !! a = Some za -> m !! b = Some zb ->
     nz_kernel_id za = nz_kernel_id zb -> a = b) ->
  (m !! name = None /\ nz_kernel_id z = bound + 1 \/
   exists z0, m !! name = Some z0 /\ nz_kernel_id z0 = nz_kernel_id z) ->
  (forall a b za zb, <[name := z]> m !! a = Some za -> <[name := z]> m !! b = Some zb ->
     nz_kernel_id za = nz_kernel_id zb -> a = b).
Proof.
  intros Hb Hinj Hz a b za zb.
  rewrite !lookup_insert_Some. intros [[<- <-]|[Hna Ha]] [[<- <-]|[Hnb Hbb]] Heq; [done|..|by eauto].
  - destruct Hz as [[_ Hz]|(z0 & H0 & Hz)]; [specialize (Hb _ _ Hbb); lia|].
    eapply Hinj; eauto. congruence.
  - destruct Hz as [[_ Hz]|(z0 & H0 & Hz)]; [specialize (Hb _ _ Ha); lia|].
    eapply Hinj; eauto. congruence.
Qed.

Lemma noop_step_ids n s s' :
  noop_step s s' -> Z.of_nat (S n) < 2 ^ 32 -> noop_ids_fresh n s -> noop_ids_fresh (S n) s'.
Proof.
  unfold noop_ids_fresh.
  destruct 1; simpl; intros Hlt (Hn & H0 & Hb & Hinj);
    try (split_and!; [lia|lia|try done..]; fail).
  - unfold noop_register_zone.
    assert (Hw : wrap 32 (next_id s + 1) = next_id s + 1).
    { unfold wrap. apply Z.mod_small. lia. }
    repeat break_match; simpl; rewrite ?Hw;
      (split_and!; [lia|lia| |eapply insert_zone_ids || done]); eauto; try done; try lia.
    all: intros m zm Hm; try (apply lookup_insert_Some in Hm as [[<- <-]|[_ Hm]]);
         simpl; try lia;
         match goal with Hz : zones _ !! _ = Some _ |- _ => specialize (Hb _ _ Hz); lia end.
  - unfold noop_remove_zone. repeat break_match; simpl; try (split_and!; [lia|lia|done..]).
    split_and!; [lia|lia| |].
    + intros m zm [_ ?]%lookup_delete_Some. eauto.
    + intros m m2 zm zm2 [_ ?]%lookup_delete_Some [_ ?]%lookup_delete_Some. eauto.
  - unfold noop_attach_container. repeat break_match; simpl; split_and!; try lia; done.
  - unfold noop_detach_container. repeat break_match; simpl; split_and!; try lia; done.
Qed.

(** ** The noop backend meets the contract *)

#[global] Program Instance NoopContract : EnforcerContract NoopState := {|
  ready _ := True;
  budget _ s := loaded s = true;
  known z s := is_Some (zones s !! zr_name z);
  claimable _ _ := True
|}.
Next Obligation. intros s _. eexists. by split_and!. Qed.
Next Obligation.
  intros n name p s Hl Hp. simpl in *. unfold noop_register_zone.
  rewrite ensure_loaded_ok by done. rewrite (proj2 (reject_unenforceable_ok _ _ _) Hp).
  destruct (zones s !! name); do 2 eexists; (split_and!; [done|done|simpl|done]);
    by rewrite lookup_insert_eq.
Qed.
Next Obligation.
  intros n z p s Hl Hz Hp. simpl in *. unfold noop_apply_policy.
  rewrite ensure_loaded_ok, ensure_zone_ok by done.
  rewrite (proj2 (reject_unenforceable_ok _ _ _) Hp). eexists. by split_and!.
Qed.
Next Obligation.
  intros n z c cg s Hl Hz. simpl in *. unfold noop_attach_container.
  rewrite ensure_loaded_ok, ensure_zone_ok by done. eexists. by split_and!.
Qed.
Next Obligation.
  intros n z p rec s Hl Hz _. simpl in *. unfold noop_register_host_path.
  rewrite ensure_loaded_ok, ensure_zone_ok by done. do 2 eexists. by split_and!.
Qed.
Next Obligation.
  intros n z s Hl Hz. simpl in *. unfold noop_stats.
  rewrite ensure_loaded_ok, ensure_zone_ok by done. do 2 eexists. by split_and!.
Qed.
Next Obligation.
  intros n z p s Hl [x Hz] Hp%supported_noop. simpl in *. unfold noop_verify.
  rewrite Hl, Hz, Hp. eexists. by split_and!.
Qed.
Next Obligation.
  intros n z c cg s Hl Hz. simpl in *. unfold noop_detach_container.
  rewrite ensure_loaded_ok by done. eexists. by split_and!.
Qed.
Next Obligation.
  intros n z s Hl Hz. simpl in *. unfold noop_remove_zone.
  rewrite ensure_loaded_ok, ensure_zone_ok, andb_false_r by done. eexists. by split_and!.
Qed.
Next Obligation. intros n s Hl. by eexists. Qed.

(** ** Properties *)

(** The harness, call by call, against the contract. *)
Lemma conformance_from_contract {St} `{EnforcerContract St} (s : St) :
  ready s -> claimable "/zones/zone-7/rootfs" s ->
  exists s', run_basic_conformance s = Some s'.
Proof.
  intros Hr Hc. unfold run_basic_conformance, expect.
  assert (Hs : forall st : St, supported (capabilities st) EnforcementPolicy_default)
    by (intros; constructor).
  destruct (load_spec s Hr) as (s1 & -> & Hb1 & Hc1).
  destruct (register_spec 2 "zone-7" EnforcementPolicy_default s1 Hb1 (Hs _))
    as (kid & s2 & -> & Hb2 & Hk2 & Hc2).
  destruct (apply_spec 1 _ EnforcementPolicy_default s2 Hb2 Hk2 (Hs _)) as (s3 & -> & Hb3 & Hk3 & Hc3).
  destruct (attach_spec 0 _ "container-1" 4242 s3 Hb3 Hk3) as (s4 & -> & Hb4 & Hk4 & Hc4).
  destruct (path_spec 0 _ "/zones/zone-7/rootfs" true s4 Hb4 Hk4) as (cnt & s5 & -> & Hb5 & Hk5);
    [by auto|].
  destruct (stats_spec 0 _ s5 Hb5 Hk5) as (st & s6 & -> & Hb6 & Hk6).
  destruct (verify_spec 0 _ EnforcementPolicy_default s6 Hb6 Hk6 (Hs _)) as (s7 & -> & Hb7 & Hk7).
  simpl. destruct (detach_spec 0 _ "container-1" 4242 s7 Hb7 Hk7) as (s8 & -> & Hb8 & Hk8).
  destruct (remove_spec 0 _ s8 Hb8 Hk8) as (s9 & Hrm & Hb9). simpl in Hrm. rewrite Hrm.
  destruct (shutdown_spec 0 s9 Hb9) as (s10 & ->). by eexists.
Qed.

(** The conformance harness never panics on a backend that meets the
    contract: from every ready state in which the rootfs path can be claimed,
    all ten calls succeed and the verification report is clean. *)
Theorem lawful_backend_passes_conformance {St} `{EnforcerContract St} (s : St) :
  ready s -> claimable "/zones/zone-7/rootfs" s ->
  exists s', run_basic_conformance s = Some s'.
Proof. apply conformance_from_contract. Qed.

Lemma lawful_backend_passes_conformance_witness :
  exists s', run_basic_conformance NoopEnforcer_new = Some s'.
Proof. exact (lawful_backend_passes_conformance NoopEnforcer_new I I). Defined.

(** The noop backend never accepts what it cannot enforce: a policy is
    applied exactly when the backend is loaded, the zone is registered and the
    policy carries no per-hook rule, and a rejected policy names the first
    rule. *)
Theorem noop_apply_policy_honest (z : ZoneRef) (p : EnforcementPolicy) (s : NoopState) :
  snd (noop_apply_policy z p s) = s /\
  (fst (noop_apply_policy z p s) = Ok tt <->
     loaded s = true /\ is_Some (zones s !! zr_name z) /\ rules p = []) /\
  (forall r rs, loaded s = true -> is_Some (zones s !! zr_name z) -> rules p = r :: rs ->
     exists reason,
       fst (noop_apply_policy z p s) = Err (PolicyUnenforceable (zr_name z) (rule_id r) reason)).
Proof.
  unfold noop_apply_policy; simpl. split; [done|]. split.
  - rewrite <-supported_noop, <-(reject_unenforceable_ok (zr_name z)).
    unfold ensure_loaded, ensure_zone.
    destruct (loaded s), (zones s !! zr_name z); split; try naive_solver.
    all: intros (? & [? ?] & ?); done.
  - intros r rs Hl Hz Hr. rewrite ensure_loaded_ok, ensure_zone_ok by done.
    unfold reject_unenforceable. rewrite Hr. simpl. rewrite supports_rule_noop. by eexists.
Qed.

Lemma noop_apply_policy_honest_witness :
  fst (noop_apply_policy (mkZoneRef "z" 1)
         (mkPolicy ZoneEnforcement_default [mkRule 1 BprmCheck AnyTarget Deny true])
         (mkNoop true 1 {["z" := mkNoopZone 1 Standard]} ∅))
  <> Ok tt.
Proof.
  destruct (noop_apply_policy_honest (mkZoneRef "z" 1)
         (mkPolicy ZoneEnforcement_default [mkRule 1 BprmCheck AnyTarget Deny true])
         (mkNoop true 1 {["z" := mkNoopZone 1 Standard]} ∅)) as (_ & _ & H).
  destruct (H _ [] eq_refl ltac:(by eexists) eq_refl) as [reason ->]. discriminate.
Defined.

(** In every state the noop backend can reach in fewer than [2^32] calls,
    attached containers belong to registered zones and two registered zones
    never share a kernel id. *)
Theorem noop_reachable_consistent (n : nat) (s : NoopState) :
  nsteps noop_step n NoopEnforcer_new s -> Z.of_nat n < 2 ^ 32 ->
  noop_wf s /\
  (forall a b za zb, zones s !! a = Some za -> zones s !! b = Some zb ->
     nz_kernel_id za = nz_kernel_id zb -> a = b).
Proof.
  intros Hsteps Hn.
  assert (Hinv : noop_wf s /\ noop_ids_fresh n s).
  { revert s Hsteps. induction n as [|n IH]; intros s Hsteps.
    - inversion Hsteps; subst. split; repeat split; simpl; try lia; intros; simplify_map_eq.
    - apply nsteps_inv_r in Hsteps as (s0 & Hs0 & Hstep).
      destruct (IH ltac:(lia) s0 Hs0) as [Hwf Hids].
      split; [by eapply noop_step_wf|by eapply noop_step_ids]. }
  destruct Hinv as [Hwf (_ & _ & _ & Hinj)]. split; [done|exact Hinj].
Qed.

Lemma noop_reachable_consistent_witness :
  noop_wf (snd (noop_register_zone "a" EnforcementPolicy_default (snd (noop_load NoopEnforcer_new)))).
Proof.
  apply (noop_reachable_consistent 2); [|lia].
  eapply nsteps_l; [apply step_load|]. eapply nsteps_l; [apply step_register|apply nsteps_O].
Defined.

End Api.
