(* ===== verification/Zone.v ===== *)
(** * Zones and their policy

    Models [rauha-common/src/error.rs] and [rauha-common/src/zone.rs]: the error
    type of the daemon, the policy records, the capability table and its mask,
    network targets (with the address grammar of [std::net]), the policy file
    and its translation, and human-readable memory sizes. *)

From stdpp Require Import base gmap strings list.
From Stdlib Require Import ZArith Ascii String Lia.
From S2P Require Import Prelude.
From S2P Require Import RustStr.
From S2P Require Import EnforcerApi.
Import Str.
Open Scope string_scope.

(** ** Errors *)

(** Ids ([Uuid]) are their text; [Io] carries the OS error number and [Other]
    the rendered message. *)
Inductive RauhaError :=
| ZoneNotFound (name : string)
| ZoneAlreadyExists (name : string)
| ContainerNotFound (id : string)
| ContainerAlreadyExists (name zone : string)
| ZoneNotEmpty (count : Z)
| InvalidInput (message : string)
| InvalidPolicy (message : string)
| BackendError (message : string)
| ImageNotFound (name : string)
| MetadataError (message : string)
| ImageError (message : string)
| PermissionDenied (message : string)
| CrossZoneAccessDenied (src dst : string)
| UnsupportedPlatform (message : string)
| EbpfError (message hint : string)
| CgroupError (message hint : string)
| NamespaceError (message hint : string)
| NetworkError (message hint : string)
| ImagePullError (reference message : string)
| ContentError (message : string)
| ShimError (zone message : string)
| RootfsError (message : string)
| ContainerExecError (container message : string)
| KernelTooOld (required found : string)
| Io (errno : Z)
| Other (message : string).

#[global] Instance RauhaError_eq_dec : EqDecision RauhaError.
Proof. solve_decision. Defined.

Module Zone.

(** ** Policy records *)

Inductive ZoneType := Global | NonGlobal | Privileged.
Inductive ZoneState := Creating | Ready | Running | Stopping | Stopped | Destroying.
Inductive PolicyAdmission := Strict | Audit.
Inductive NetworkMode := Isolated | Bridged | Host.

#[global] Instance ZoneType_eq_dec : EqDecision ZoneType.
Proof. solve_decision. Defined.
#[global] Instance ZoneState_eq_dec : EqDecision ZoneState.
Proof. solve_decision. Defined.
#[global] Instance PolicyAdmission_eq_dec : EqDecision PolicyAdmission.
Proof. solve_decision. Defined.
#[global] Instance NetworkMode_eq_dec : EqDecision NetworkMode.
Proof. solve_decision. Defined.

Record CapabilityPolicy := mkCapability { cap_allowed : list string }.

Record ResourcePolicy := mkResource {
  cpu_shares : Z; memory_limit : Z; io_weight : Z; pids_max : Z
}.

Record NetworkPolicy := mkNetwork {
  mode : NetworkMode;
  allowed_zones : list string;
  allowed_egress : list string;
  allowed_ingress : list string
}.

Record FilesystemPolicy := mkFilesystem {
  root : string; shared_layers : bool; writable_paths : list string
}.

Record DevicePolicy := mkDevice { dev_allowed : list string }.
Record SyscallPolicy := mkSyscall { deny : list string; broker : list string }.

Record ZonePolicy := mkZonePolicy {
  admission : PolicyAdmission;
  capabilities : CapabilityPolicy;
  resources : ResourcePolicy;
  network : NetworkPolicy;
  filesystem : FilesystemPolicy;
  devices : DevicePolicy;
  syscalls : SyscallPolicy
}.

Definition ResourcePolicy_default : ResourcePolicy :=
  mkResource 1024 (512 * 1024 * 1024) 100 256.
Definition NetworkPolicy_default : NetworkPolicy := mkNetwork Isolated [] [] [].
Definition FilesystemPolicy_default : FilesystemPolicy := mkFilesystem "" true [].
Definition ZonePolicy_default : ZonePolicy :=
  mkZonePolicy Strict (mkCapability []) ResourcePolicy_default NetworkPolicy_default
    FilesystemPolicy_default (mkDevice []) (mkSyscall [] []).

Definition BROKERABLE_SYSCALLS : list string := ["openat"; "openat2"].

(** ** Linux capabilities *)

Definition LINUX_CAPABILITIES : list string := [
  "CAP_CHOWN"; "CAP_DAC_OVERRIDE"; "CAP_DAC_READ_SEARCH"; "CAP_FOWNER"; "CAP_FSETID";
  "CAP_KILL"; "CAP_SETGID"; "CAP_SETUID"; "CAP_SETPCAP"; "CAP_LINUX_IMMUTABLE";
  "CAP_NET_BIND_SERVICE"; "CAP_NET_BROADCAST"; "CAP_NET_ADMIN"; "CAP_NET_RAW";
  "CAP_IPC_LOCK"; "CAP_IPC_OWNER"; "CAP_SYS_MODULE"; "CAP_SYS_RAWIO"; "CAP_SYS_CHROOT";
  "CAP_SYS_PTRACE"; "CAP_SYS_PACCT"; "CAP_SYS_ADMIN"; "CAP_SYS_BOOT"; "CAP_SYS_NICE";
  "CAP_SYS_RESOURCE"; "CAP_SYS_TIME"; "CAP_SYS_TTY_CONFIG"; "CAP_MKNOD"; "CAP_LEASE";
  "CAP_AUDIT_WRITE"; "CAP_AUDIT_CONTROL"; "CAP_SETFCAP"; "CAP_MAC_OVERRIDE";
  "CAP_MAC_ADMIN"; "CAP_SYSLOG"; "CAP_WAKE_ALARM"; "CAP_BLOCK_SUSPEND"; "CAP_AUDIT_READ";
  "CAP_PERFMON"; "CAP_BPF"; "CAP_CHECKPOINT_RESTORE"
].

Definition canonical_linux_capability_name (capability : string) : string :=
  let upper := to_uppercase capability in
  if starts_with "CAP_" upper then upper else "CAP_" ++ upper.

(** [iter().position(|k| k == name)]. *)
Fixpoint position (name : string) (l : list string) : option Z :=
  match l with
  | [] => None
  | k :: l' => if String.eqb k name then Some 0%Z else Z.succ <$> position name l'
  end.

(** [idx as u8] does not truncate: the table has 41 entries. *)
Definition linux_capability_bit (capability : string) : option Z :=
  position (canonical_linux_capability_name capability) LINUX_CAPABILITIES.

Definition unknown_capability (cap : string) : RauhaError :=
  InvalidPolicy ("unknown capability: " ++ cap).

Fixpoint capabilities_to_mask_from (caps : list string) (mask : Z) : result Z RauhaError :=
  match caps with
  | [] => Ok mask
  | cap :: caps' =>
      let? bit := ok_or (linux_capability_bit cap) (unknown_capability cap) in
      capabilities_to_mask_from caps' (Z.lor mask (Z.shiftl 1 bit))
  end.

Definition capabilities_to_mask (caps : list string) : result Z RauhaError :=
  capabilities_to_mask_from caps 0.

Definition is_ptrace_capability (c : string) : bool :=
  let upper := to_uppercase c in
  String.eqb upper "CAP_SYS_PTRACE" || String.eqb upper "SYS_PTRACE".

Definition to_enforcement (p : ZonePolicy) : result Api.ZoneEnforcement RauhaError :=
  let? caps_mask := capabilities_to_mask (cap_allowed (capabilities p)) in
  Ok (Api.mkZoneEnforcement caps_mask
        (existsb is_ptrace_capability (cap_allowed (capabilities p)))
        (bool_decide (mode (network p) = Host))
        Api.Standard).

(** ** Addresses ([std::net], [IpAddr::from_str]) *)

Inductive IpAddr := V4 (octets : list Z) | V6 (segments : list Z).

Definition is_ipv4 (a : IpAddr) : bool := match a with V4 _ => true | V6 _ => false end.

(** [char::to_digit(radix)] for radix 10 and 16. *)
Definition radix_digit (radix : Z) (c : ascii) : option Z :=
  (let v := code c in
  let d := if (48 <=? v) && (v <=? 57) then Some (v - 48)
           else if (97 <=? v) && (v <=? 102) then Some (v - 87)
           else if (65 <=? v) && (v <=? 70) then Some (v - 55)
           else None in
  match d with Some d => if d <? radix then Some d else None | None => None end)%Z.

Fixpoint read_digits (radix w : Z) (max : nat) (s : string) (acc : Z) (count : nat)
  : option (Z * nat * string) :=
  match s with
  | "" => Some (acc, count, s)
  | String c s' =>
      match radix_digit radix c with
      | None => Some (acc, count, s)
      | Some d =>
          if (acc * radix + d <? 2 ^ w)%Z then
            if Nat.ltb max (S count) then None
            else read_digits radix w max s' (acc * radix + d)%Z (S count)
          else None
      end
  end.

(** [Parser::read_number]: the value and the unread rest. *)
Definition read_number (radix w : Z) (max : nat) (allow_zero_prefix : bool) (s : string)
  : option (Z * string) :=
  let leading_zero := match s with String "0" _ => true | _ => false end in
  match read_digits radix w max s 0 0 with
  | None => None
  | Some (v, count, rest) =>
      if Nat.eqb count 0 then None
      else if negb allow_zero_prefix && leading_zero && Nat.ltb 1 count then None
      else Some (v, rest)
  end.

Definition read_char (c : ascii) (s : string) : option string :=
  match s with String d s' => if Ascii.eqb c d then Some s' else None | "" => None end.

(** [Parser::read_separator]: the separator before every element but the first. *)
Definition read_separator {A} (sep : ascii) (index : nat)
    (inner : string -> option (A * string)) (s : string) : option (A * string) :=
  match index with
  | O => inner s
  | S _ => match read_char sep s with Some s' => inner s' | None => None end
  end.

Definition read_octet (i : nat) (s : string) : option (Z * string) :=
  read_separator "." i (read_number 10 8 3 false) s.

Definition read_ipv4_addr (s : string) : option (list Z * string) :=
  match read_octet 0 s with
  | None => None
  | Some (a, s) => match read_octet 1 s with
    | None => None
    | Some (b, s) => match read_octet 2 s with
      | None => None
      | Some (c, s) => match read_octet 3 s with
        | None => None
        | Some (d, s) => Some ([a; b; c; d], s)
        end end end end.

(** [read_groups]: up to [limit] 16-bit groups, the last two possibly written
    as an embedded IPv4 address; the groups, whether one was, and the rest. *)
Fixpoint read_groups (left : nat) (i : nat) (s : string) (acc : list Z)
  : list Z * bool * string :=
  match left with
  | O => (acc, false, s)
  | S left' =>
      match (if Nat.ltb 1 left then read_separator ":" i read_ipv4_addr s else None) with
      | Some ([a; b; c; d], s') => ((acc ++ [a * 256 + b; c * 256 + d]%Z)%list, true, s')
      | _ =>
          match read_separator ":" i (read_number 16 16 4 true) s with
          | Some (g, s') => read_groups left' (S i) s' (acc ++ [g])%list
          | None => (acc, false, s)
          end
      end
  end.

Definition read_ipv6_addr (s : string) : option (list Z * string) :=
  let '(head, head_ipv4, s1) := read_groups 8 0 s [] in
  let head_size := List.length head in
  if Nat.eqb head_size 8 then Some (head, s1)
  else if head_ipv4 then None
  else match read_char ":" s1 with
       | None => None
       | Some s2 =>
           match read_char ":" s2 with
           | None => None
           | Some s3 =>
               let '(tail, _, s4) := read_groups (8 - (head_size + 1)) 0 s3 [] in
               Some ((head ++ repeat 0%Z (8 - head_size - List.length tail) ++ tail)%list, s4)
           end
       end.

Definition parse_ip_addr (s : string) : option IpAddr :=
  match read_ipv4_addr s with
  | Some (o, rest) => if String.eqb rest "" then Some (V4 o) else None
  | None =>
      match read_ipv6_addr s with
      | Some (g, rest) => if String.eqb rest "" then Some (V6 g) else None
      | None => None
      end
  end.

(** ** Network targets *)

Record NetworkEndpoint := mkEndpoint {
  address : IpAddr; prefix_len : Z; port : option Z
}.

Definition max_prefix (a : IpAddr) : Z := if is_ipv4 a then 32%Z else 128%Z.

Definition parse_network (value : string) : result (IpAddr * Z) string :=
  let '(addr, prefix) := match split_once "/" value with
                         | Some (a, p) => (a, Some p)
                         | None => (value, None)
                         end in
  let? a := ok_or (parse_ip_addr addr) ("invalid IP address or CIDR: " ++ value) in
  let? len := match prefix with
              | Some p => map_err (fun _ => "invalid CIDR prefix: " ++ value) (parse_uint 8 p)
              | None => Ok (max_prefix a)
              end in
  if (max_prefix a <? len)%Z
  then Err ("CIDR prefix exceeds " ++ show (max_prefix a) ++ ": " ++ value)
  else Ok (a, len).

(** [rest.split_once("]:")]. *)
Fixpoint split_once_bracket (s : string) : option (string * string) :=
  match s with
  | "" => None
  | String c s' =>
      match strip_prefix "]:" s with
      | Some rest => Some ("", rest)
      | None => (fun ab => (String c (fst ab), snd ab)) <$> split_once_bracket s'
      end
  end.

Definition parse_port (value p : string) : result Z string :=
  let? n := map_err (fun _ => "invalid TCP port: " ++ value) (parse_uint 16 p) in
  if (n =? 0)%Z then Err ("TCP port must be between 1 and 65535: " ++ value) else Ok n.

(** [NetworkEndpoint::from_str]. *)
Definition parse_endpoint (text : string) : result NetworkEndpoint string :=
  let value := trim text in
  if String.eqb value "" then Err "network target is empty"
  else
    let? net_port :=
      match strip_prefix "[" value with
      | Some rest =>
          let? np := ok_or (split_once_bracket rest)
                       ("invalid bracketed network target: " ++ value) in
          Ok (fst np, Some (snd np))
      | None =>
          if is_ok (parse_network value) then Ok (value, None)
          else
            let? np := ok_or (rsplit_once ":" value)
                         ("invalid network target: " ++ value) in
            Ok (fst np, Some (snd np))
      end in
    let? ap := parse_network (fst net_port) in
    let? pt := match snd net_port with
               | Some p => let? n := parse_port value p in Ok (Some n)
               | None => Ok None
               end in
    Ok (mkEndpoint (fst ap) (snd ap) pt).

Definition nft_family (e : NetworkEndpoint) : string :=
  if is_ipv4 (address e) then "ip" else "ip6".

Example endpoint_v4 : parse_endpoint " 10.0.0.0/8:443 "
  = Ok (mkEndpoint (V4 [10; 0; 0; 0]%Z) 8 (Some 443%Z)).
Proof. vm_compute. reflexivity. Qed.
Example endpoint_v6 : parse_endpoint "[2001:db8::/32]:8443"
  = Ok (mkEndpoint (V6 [0x2001; 0xdb8; 0; 0; 0; 0; 0; 0]%Z) 32 (Some 8443%Z)).
Proof. vm_compute. reflexivity. Qed.
Example endpoint_v6_plain : parse_endpoint "2001:db8::/32"
  = Ok (mkEndpoint (V6 [0x2001; 0xdb8; 0; 0; 0; 0; 0; 0]%Z) 32 None).
Proof. vm_compute. reflexivity. Qed.
Example endpoint_mapped : parse_endpoint "::ffff:1.2.3.4"
  = Ok (mkEndpoint (V6 [0; 0; 0; 0; 0; 0xffff; 0x102; 0x304]%Z) 128 None).
Proof. vm_compute. reflexivity. Qed.
Example endpoint_port0 : is_ok (parse_endpoint "0.0.0.0/0:0") = false.
Proof. vm_compute. reflexivity. Qed.
Example endpoint_prefix99 : is_ok (parse_endpoint "0.0.0.0/99") = false.
Proof. vm_compute. reflexivity. Qed.
Example endpoint_trailing : is_ok (parse_endpoint "0.0.0.0/0 accept") = false.
Proof. vm_compute. reflexivity. Qed.

(** ** Memory sizes *)

Definition int_error_text (e : IntError) : string :=
  match e with
  | Empty => "cannot parse integer from empty string"
  | InvalidDigit => "invalid digit found in string"
  | PosOverflow => "number too large to fit in target type"
  end.

(** [a * b] on [u64] in a release build, which wraps. *)
Definition mul64 (a b : Z) : Z := wrap 64 (a * b).

Definition scaled (n : string) (f : Z -> Z) : result Z RauhaError :=
  match parse_uint 64 n with
  | Ok v => Ok (f v)
  | Err e => Err (InvalidPolicy ("bad memory size: " ++ int_error_text e))
  end.

Definition parse_memory_size (text : string) : result Z RauhaError :=
  let s := trim text in
  match strip_suffix "Gi" s with
  | Some n => scaled n (fun v => mul64 (mul64 (mul64 v 1024) 1024) 1024)
  | None =>
  match strip_suffix "Mi" s with
  | Some n => scaled n (fun v => mul64 (mul64 v 1024) 1024)
  | None =>
  match strip_suffix "Ki" s with
  | Some n => scaled n (fun v => mul64 v 1024)
  | None =>
  match strip_suffix "G" s with
  | Some n => scaled n (fun v => mul64 (mul64 (mul64 v 1000) 1000) 1000)
  | None =>
  match strip_suffix "M" s with
  | Some n => scaled n (fun v => mul64 (mul64 v 1000) 1000)
  | None => scaled s (fun v => v)
  end end end end end.

Example memory_4gi : parse_memory_size "4Gi" = Ok (4 * 1024 * 1024 * 1024)%Z.
Proof. vm_compute. reflexivity. Qed.
Example memory_1g : parse_memory_size "1G" = Ok 1000000000%Z.
Proof. vm_compute. reflexivity. Qed.

(** ** The policy file *)

Record PolicyFileZone := mkFileZone { fz_name : string; fz_type : string }.
Record PolicyFileResources := mkFileResources {
  fr_cpu_shares : option Z; fr_memory_limit : option string;
  fr_io_weight : option Z; fr_pids_max : option Z
}.
Record PolicyFileNetwork := mkFileNetwork {
  fn_mode : option string; fn_allowed_zones : option (list string);
  fn_allowed_egress : option (list string); fn_allowed_ingress : option (list string)
}.
Record PolicyFileFilesystem := mkFileFilesystem {
  ff_root : option string; ff_shared_layers : option bool;
  ff_writable_paths : option (list string)
}.
Record PolicyFileSyscalls := mkFileSyscalls {
  fs_deny : option (list string); fs_broker : option (list string)
}.

(** The single-field sections [admission], [capabilities] and [devices] are
    their field. *)
Record PolicyFile := mkPolicyFile {
  pf_zone : PolicyFileZone;
  pf_admission : option string;
  pf_capabilities : option (list string);
  pf_resources : option PolicyFileResources;
  pf_network : option PolicyFileNetwork;
  pf_filesystem : option PolicyFileFilesystem;
  pf_devices : option (list string);
  pf_syscalls : option PolicyFileSyscalls
}.

Definition zone_type_of_str (s : string) : result ZoneType RauhaError :=
  if String.eqb s "non-global" then Ok NonGlobal
  else if String.eqb s "privileged" then Ok Privileged
  else if String.eqb s "global" then Ok Global
  else Err (InvalidPolicy ("unknown zone type: " ++ s)).

Definition admission_of (m : option string) : result PolicyAdmission RauhaError :=
  match m with
  | None => Ok Strict
  | Some s =>
      if String.eqb s "strict" then Ok Strict
      else if String.eqb s "audit" then Ok Audit
      else Err (InvalidPolicy ("unknown admission mode: " ++ s))
  end.

Definition capabilities_of (c : option (list string)) : result CapabilityPolicy RauhaError :=
  match c with
  | None => Ok (mkCapability [])
  | Some caps => let? _ := capabilities_to_mask caps in Ok (mkCapability caps)
  end.

Definition resources_of (r : option PolicyFileResources) : result ResourcePolicy RauhaError :=
  match r with
  | None => Ok ResourcePolicy_default
  | Some r =>
      let? mem := match fr_memory_limit r with
                  | Some m => parse_memory_size m
                  | None => Ok (512 * 1024 * 1024)%Z
                  end in
      Ok (mkResource (default 1024%Z (fr_cpu_shares r)) mem
            (default 100%Z (fr_io_weight r)) (default 256%Z (fr_pids_max r)))
  end.

Definition network_mode_of (m : option string) : result NetworkMode RauhaError :=
  match m with
  | None => Ok Isolated
  | Some s =>
      if String.eqb s "isolated" then Ok Isolated
      else if String.eqb s "bridged" then Ok Bridged
      else if String.eqb s "host" then Ok Host
      else Err (InvalidPolicy ("unknown network mode: " ++ s))
  end.

Definition dquote : string := String "034" "".

(** [{target:?}]: quoted, with the ASCII escapes of [str]'s [Debug]. *)
Fixpoint escape_debug (s : string) : string :=
  match s with
  | "" => ""
  | String c s' =>
      (if (code c =? 34)%Z then "\" ++ dquote
       else if (code c =? 92)%Z then "\\"
       else if (code c =? 0)%Z then "\0"
       else if (code c =? 9)%Z then "\t"
       else if (code c =? 10)%Z then "\n"
       else if (code c =? 13)%Z then "\r"
       else String c "") ++ escape_debug s'
  end.

Definition check_target (target : string) : result unit RauhaError :=
  match parse_endpoint target with
  | Ok _ => Ok tt
  | Err e => Err (InvalidPolicy ("invalid network target " ++ dquote ++ escape_debug target
                                  ++ dquote ++ ": " ++ e))
  end.

Definition network_of (n : option PolicyFileNetwork) : result NetworkPolicy RauhaError :=
  match n with
  | None => Ok NetworkPolicy_default
  | Some n =>
      let? m := network_mode_of (fn_mode n) in
      let egress := default [] (fn_allowed_egress n) in
      let ingress := default [] (fn_allowed_ingress n) in
      let? _ := try_for_each check_target (egress ++ ingress)%list in
      Ok (mkNetwork m (default [] (fn_allowed_zones n)) egress ingress)
  end.

Definition filesystem_of (base_root name : string) (f : option PolicyFileFilesystem)
  : FilesystemPolicy :=
  let default_root := base_root ++ "/zones/" ++ name in
  match f with
  | Some f => mkFilesystem (default default_root (ff_root f))
                (default true (ff_shared_layers f)) (default [] (ff_writable_paths f))
  | None => mkFilesystem default_root true []
  end.

Definition syscalls_of (s : option PolicyFileSyscalls) : SyscallPolicy :=
  match s with
  | Some s => mkSyscall (default [] (fs_deny s)) (default [] (fs_broker s))
  | None => mkSyscall [] []
  end.

Definition to_zone_policy (f : PolicyFile) (base_root : string) : result ZonePolicy RauhaError :=
  let? _ := zone_type_of_str (fz_type (pf_zone f)) in
  let? adm := admission_of (pf_admission f) in
  let? caps := capabilities_of (pf_capabilities f) in
  let? res := resources_of (pf_resources f) in
  let? net := network_of (pf_network f) in
  Ok (mkZonePolicy adm caps res net
        (filesystem_of base_root (fz_name (pf_zone f)) (pf_filesystem f))
        (mkDevice (default [] (pf_devices f)))
        (syscalls_of (pf_syscalls f))).

(** ** Lemmas *)

Lemma position_range name l b : position name l = Some b -> (0 <= b < Z.of_nat (List.length l))%Z.
Proof.
  revert b. induction l as [|k l IH]; intros b; [done|]. cbn [position List.length].
  destruct (String.eqb k name); [intros [= <-]; lia|].
  destruct (position name l) as [b'|]; [|done]. intros [= <-].
  specialize (IH b' eq_refl). lia.
Qed.

Lemma linux_capability_bit_range cap b : linux_capability_bit cap = Some b -> (0 <= b < 41)%Z.
Proof. apply position_range. Qed.

(** The mask of a list of known capabilities, bit by bit. *)
Lemma capabilities_to_mask_from_bits caps m0 m :
  capabilities_to_mask_from caps m0 = Ok m ->
  forall i, Z.testbit m i = true <->
    Z.testbit m0 i = true \/ exists cap, cap ∈ caps /\ linux_capability_bit cap = Some i.
Proof.
  revert m0. induction caps as [|cap caps IH]; intros m0; simpl.
  - intros [= ->] i. split; [by left|]. intros [?|(cap & []%elem_of_nil & _)]; done.
  - destruct (linux_capability_bit cap) as [b|] eqn:Hb; simpl; [|done].
    pose proof (linux_capability_bit_range _ _ Hb) as Hr.
    intros Hm i. rewrite (IH _ Hm i), Z.shiftl_1_l, testbit_lor_pow2, orb_true_iff, Z.eqb_eq by lia.
    setoid_rewrite elem_of_cons. naive_solver.
Qed.

Lemma capabilities_to_mask_from_ok caps m0 :
  (exists m, capabilities_to_mask_from caps m0 = Ok m) <->
  Forall (fun cap => is_Some (linux_capability_bit cap)) caps.
Proof.
  revert m0. induction caps as [|cap caps IH]; intros m0; simpl.
  - split; [constructor|by eexists].
  - rewrite Forall_cons. destruct (linux_capability_bit cap) as [b|]; simpl.
    + rewrite IH. naive_solver.
    + split; [intros [? ?]; done|]. by intros [[? ?] _].
Qed.

Lemma capabilities_to_mask_from_err caps m0 e :
  capabilities_to_mask_from caps m0 = Err e ->
  exists pre cap post, caps = (pre ++ cap :: post)%list /\
    Forall (fun c => is_Some (linux_capability_bit c)) pre /\
    linux_capability_bit cap = None /\ e = unknown_capability cap.
Proof.
  revert m0. induction caps as [|cap caps IH]; intros m0; simpl; [done|].
  destruct (linux_capability_bit cap) as [b|] eqn:Hb; simpl.
  - intros (pre & c & post & -> & Hpre & Hc & ->)%IH.
    exists (cap :: pre), c, post. split_and!; [done|constructor; [by eexists|done]|done|done].
  - intros [= <-]. exists [], cap, caps. by split_and!.
Qed.

Lemma capabilities_to_mask_bound caps m : capabilities_to_mask caps = Ok m -> (0 <= m < 2 ^ 41)%Z.
Proof.
  unfold capabilities_to_mask.
  assert (H : forall m0, (0 <= m0 < 2 ^ 41)%Z -> capabilities_to_mask_from caps m0 = Ok m ->
                         (0 <= m < 2 ^ 41)%Z); [|apply H; lia].
  induction caps as [|cap caps IH]; intros m0 H0; simpl; [by intros [= <-]|].
  destruct (linux_capability_bit cap) as [b|] eqn:Hb; simpl; [|done].
  apply linux_capability_bit_range in Hb. apply IH. rewrite Z.shiftl_1_l.
  assert (Hnn : (0 <= Z.lor m0 (2 ^ b))%Z) by (apply Z.lor_nonneg; lia).
  split; [done|]. destruct (Z.eq_dec (Z.lor m0 (2 ^ b)) 0) as [->|Hnz]; [lia|].
  apply Z.log2_lt_pow2; [lia|]. rewrite Z.log2_lor, Z.log2_pow2 by lia.
  apply Z.max_lub_lt; [|lia].
  destruct (Z.eq_dec m0 0) as [->|]; [simpl; lia|]. apply Z.log2_lt_pow2; lia.
Qed.

(** [starts_with("CAP_")] and the short spelling agree on the canonical name. *)
Lemma is_ptrace_capability_bit c :
  is_ptrace_capability c = true <-> linux_capability_bit c = Some 19%Z.
Proof.
  unfold is_ptrace_capability, linux_capability_bit, canonical_linux_capability_name.
  set (u := to_uppercase c). clearbody u.
  assert (Hpos : forall n, position n LINUX_CAPABILITIES = Some 19%Z <-> n = "CAP_SYS_PTRACE").
  { intros n. unfold LINUX_CAPABILITIES. split; [|by intros ->].
    cbn [position].
    repeat match goal with
    | |- context [String.eqb ?a n] =>
        destruct (String.eqb_spec a n) as [<-|_]; [vm_compute; congruence|]
    end. vm_compute. congruence. }
  rewrite Hpos. rewrite orb_true_iff, !String.eqb_eq. unfold starts_with.
  destruct (String.prefix "CAP_" u) eqn:Hp.
  - split; [|by left]. intros [->| ->]; [done|]. vm_compute in Hp. congruence.
  - split.
    + intros [-> | ->]; [vm_compute in Hp; congruence|done].
    + intros H. right. simpl in H. by injection H as H.
Qed.

Lemma wrap_small w z : (0 <= z < 2 ^ w)%Z -> wrap w z = z.
Proof. apply Z.mod_small. Qed.

(** Well-formed addresses: four octets, or eight 16-bit segments. *)
Definition addr_wf (a : IpAddr) : Prop :=
  match a with
  | V4 o => List.length o = 4%nat /\ Forall (in_width 8) o
  | V6 g => List.length g = 8%nat /\ Forall (in_width 16) g
  end.

Lemma read_digits_width radix w max s acc n v n' rest :
  (0 < radix)%Z -> in_width w acc ->
  read_digits radix w max s acc n = Some (v, n', rest) -> in_width w v.
Proof.
  intros Hr. revert acc n. induction s as [|c s IH]; intros acc n Hacc; simpl.
  - by intros [= <- _ _].
  - destruct (radix_digit radix c) as [d|] eqn:Hd; [|by intros [= <- _ _]].
    destruct (Z.ltb_spec (acc * radix + d) (2 ^ w)); [|done].
    destruct (Nat.ltb max (S n)); [done|]. apply IH.
    assert (0 <= d)%Z.
    { unfold radix_digit in Hd. repeat break_match_hyp; simplify_eq; reflect_bools; lia. }
    unfold in_width in *. nia.
Qed.

Lemma read_number_width radix w max z s v rest :
  (0 < radix)%Z -> (0 <= w)%Z -> read_number radix w max z s = Some (v, rest) -> in_width w v.
Proof.
  intros Hr Hw. unfold read_number.
  destruct (read_digits radix w max s 0 0) as [[[v' n] r]|] eqn:E; [|done].
  apply read_digits_width in E; [|done|].
  - repeat break_match; intros; by simplify_eq.
  - unfold in_width. split; [lia|]. apply Z.pow_pos_nonneg; lia.
Qed.

Lemma read_separator_inner {A} sep i (f : string -> option (A * string)) s r :
  read_separator sep i f s = Some r -> exists s', f s' = Some r.
Proof. unfold read_separator. repeat break_match; naive_solver. Qed.

Lemma read_octet_width i s v rest : read_octet i s = Some (v, rest) -> in_width 8 v.
Proof. intros [s' H]%read_separator_inner. eapply read_number_width; [| |exact H]; lia. Qed.

Lemma read_ipv4_addr_wf s o rest : read_ipv4_addr s = Some (o, rest) -> addr_wf (V4 o).
Proof.
  unfold read_ipv4_addr. repeat break_match; intros; simplify_eq.
  repeat match goal with H : read_octet _ _ = Some _ |- _ => apply read_octet_width in H end.
  split; [done|]. by repeat (apply Forall_cons_2; [done|]).
Qed.

Lemma read_groups_wf left i s acc g v4 rest :
  Forall (in_width 16) acc -> read_groups left i s acc = (g, v4, rest) ->
  Forall (in_width 16) g /\ (List.length g <= List.length acc + left)%nat.
Proof.
  revert i s acc. induction left as [|left IH]; intros i s acc Hacc.
  - simpl. intros [= <- _ _]. split; [done|lia].
  - cbn [read_groups].
    assert (Hstep : (match read_separator ":" i (read_number 16 16 4 true) s with
          | Some (g, s') => read_groups left (S i) s' (acc ++ [g])%list
          | None => (acc, false, s)
          end) = (g, v4, rest) ->
      Forall (in_width 16) g /\ (List.length g <= List.length acc + S left)%nat).
    { destruct (read_separator ":" i _ s) as [[g0 s']|] eqn:Hs.
      - intros H. apply IH in H as [H1 H2].
        + rewrite length_app in H2. simpl in H2. split; [done|lia].
        + apply Forall_app. split; [done|]. constructor; [|done].
          apply read_separator_inner in Hs as [s'' Hs].
          eapply read_number_width; [| |exact Hs]; lia.
      - intros [= <- _ _]. split; [done|lia]. }
    destruct (Nat.ltb_spec 1 (S left)); [|exact Hstep].
    destruct (read_separator ":" i read_ipv4_addr s) as [[o s']|] eqn:H4; [|exact Hstep].
    apply read_separator_inner in H4 as [s'' [Hl Ho]%read_ipv4_addr_wf].
    destruct o as [|a [|b [|c [|d [|]]]]]; try done.
    intros [= <- _ _]. rewrite length_app. simpl. split; [|lia].
    apply Forall_app. split; [done|].
    inversion Ho as [|? ? Ha Ho2]; subst. inversion Ho2 as [|? ? Hb Ho3]; subst.
    inversion Ho3 as [|? ? Hc Ho4]; subst. inversion Ho4 as [|? ? Hd Ho5]; subst.
    unfold in_width in *. repeat (apply Forall_cons_2; [lia|]). done.
Qed.

Lemma read_ipv6_addr_wf s g rest : read_ipv6_addr s = Some (g, rest) -> addr_wf (V6 g).
Proof.
  unfold read_ipv6_addr.
  destruct (read_groups 8 0 s []) as [[head v4] s1] eqn:H1.
  apply read_groups_wf in H1 as [Hh Hlen]; [|constructor]. simpl in Hlen.
  destruct (Nat.eqb_spec (List.length head) 8); [by intros [= <- _]|].
  destruct v4; [done|].
  destruct (read_char ":" s1) as [s2|]; [|done]. destruct (read_char ":" s2) as [s3|]; [|done].
  destruct (read_groups _ 0 s3 []) as [[tail b] s4] eqn:H2.
  apply read_groups_wf in H2 as [Ht Htl]; [|constructor]. cbn [List.length plus] in Htl.
  intros [= <- _]. split.
  - rewrite !length_app, repeat_length. lia.
  - rewrite !Forall_app. split_and!; [done| |done].
    apply Forall_forall. intros x Hx%list_elem_of_In%repeat_spec. unfold in_width. lia.
Qed.

Lemma parse_ip_addr_wf s a : parse_ip_addr s = Some a -> addr_wf a.
Proof.
  unfold parse_ip_addr. destruct (read_ipv4_addr s) as [[o r]|] eqn:H4.
  - destruct (String.eqb r ""); [|done]. intros [= <-]. by eapply read_ipv4_addr_wf.
  - destruct (read_ipv6_addr s) as [[g r]|] eqn:H6; [|done].
    destruct (String.eqb r ""); [|done]. intros [= <-]. by eapply read_ipv6_addr_wf.
Qed.

Lemma parse_digits_width w s acc v :
  in_width w acc -> parse_digits w s acc = Ok v -> in_width w v.
Proof.
  revert acc. induction s as [|c s IH]; intros acc Hacc; simpl; [by intros [= <-]|].
  destruct (to_digit c) as [d|] eqn:Hd; [|done].
  destruct (Z.ltb_spec (acc * 10 + d) (2 ^ w)); [|done]. apply IH.
  assert (0 <= d)%Z by (unfold to_digit in Hd; break_match_hyp; simplify_eq; reflect_bools; lia).
  unfold in_width in *. lia.
Qed.

Lemma parse_uint_width w s v : (0 <= w)%Z -> parse_uint w s = Ok v -> in_width w v.
Proof.
  intros Hw.
  assert (H0 : in_width w 0) by (split; [lia|apply Z.pow_pos_nonneg; lia]).
  assert (Hd : forall t, parse_digits w t 0 = Ok v -> in_width w v)
    by (intros t; by apply parse_digits_width).
  unfold parse_uint. repeat break_match; eauto; done.
Qed.

Lemma parse_network_wf value a len :
  parse_network value = Ok (a, len) -> addr_wf a /\ (0 <= len <= max_prefix a)%Z.
Proof.
  unfold parse_network.
  destruct (match split_once "/" value with Some (a0, p) => (a0, Some p) | None => (value, None) end)
    as [addr prefix].
  destruct (parse_ip_addr addr) as [a'|] eqn:Ha; [|done]. apply parse_ip_addr_wf in Ha.
  cbn [ok_or].
  assert (Hm : (0 <= max_prefix a')%Z) by (unfold max_prefix; destruct (is_ipv4 a'); lia).
  destruct prefix as [p|].
  - destruct (parse_uint 8 p) as [n|] eqn:Hp; simpl; [|done].
    apply parse_uint_width in Hp; [|lia]. unfold in_width in Hp.
    destruct (Z.ltb_spec (max_prefix a') n); [done|]. intros [= <- <-]. split; [done|lia].
  - rewrite Z.ltb_irrefl. intros [= <- <-]. split; [done|lia].
Qed.

Lemma capabilities_of_mask c caps :
  capabilities_of c = Ok caps -> exists m, capabilities_to_mask (cap_allowed caps) = Ok m.
Proof.
  unfold capabilities_of. destruct c as [l|]; [|intros [= <-]; by eexists].
  destruct (capabilities_to_mask l) as [m|] eqn:Hm; [|done]. intros [= <-]. by exists m.
Qed.

Lemma ptrace_flag_is_bit caps m :
  capabilities_to_mask caps = Ok m -> existsb is_ptrace_capability caps = Z.testbit m 19.
Proof.
  intros Hm. apply eq_true_iff_eq.
  rewrite (capabilities_to_mask_from_bits _ _ _ Hm 19), Z.bits_0, existsb_exists.
  setoid_rewrite is_ptrace_capability_bit. setoid_rewrite <-list_elem_of_In. naive_solver.
Qed.

Lemma mul64_mul64 a b c : mul64 (mul64 a b) c = mul64 a (b * c).
Proof. unfold mul64, wrap. rewrite Z.mul_mod_idemp_l by lia. f_equal. lia. Qed.

Lemma mul64_gi v : mul64 (mul64 (mul64 v 1024) 1024) 1024 = wrap 64 (v * 2 ^ 30).
Proof. by rewrite !mul64_mul64. Qed.

Lemma mul64_mi v : mul64 (mul64 v 1024) 1024 = wrap 64 (v * 2 ^ 20).
Proof. by rewrite mul64_mul64. Qed.

(** What the nftables layer relies on for a target. *)
Definition endpoint_wf (e : NetworkEndpoint) : Prop :=
  addr_wf (address e) /\ (0 <= prefix_len e <= max_prefix (address e))%Z /\
  (forall p, port e = Some p -> (1 <= p <= 65535)%Z).

Lemma parse_endpoint_wf text e : parse_endpoint text = Ok e -> endpoint_wf e.
Proof.
  unfold parse_endpoint. cbv zeta. destruct (String.eqb (trim text) ""); [done|].
  match goal with |- match ?c with Ok _ => _ | Err _ => _ end = _ -> _ =>
    destruct c as [[net pt]|] end; [|done].
  cbn [fst snd]. destruct (parse_network net) as [[a len]|] eqn:Hn; [|done].
  apply parse_network_wf in Hn as [Ha Hl]. unfold endpoint_wf.
  destruct pt as [p|].
  - unfold parse_port. destruct (parse_uint 16 p) as [n|] eqn:Hp; simpl; [|done].
    apply parse_uint_width in Hp; [|lia]. unfold in_width in Hp.
    destruct (Z.eqb_spec n 0); [done|]. intros [= <-]. simpl.
    split_and!; [done|lia..|]. intros ? [= <-]. lia.
  - intros [= <-]. simpl. by split_and!; [|lia..|].
Qed.

Lemma network_of_targets n net :
  network_of n = Ok net ->
  forall t, t ∈ (allowed_egress net ++ allowed_ingress net)%list ->
    exists e, parse_endpoint t = Ok e /\ endpoint_wf e.
Proof.
  unfold network_of. destruct n as [n|]; [|intros [= <-] t []%elem_of_nil].
  destruct (network_mode_of (fn_mode n)); [|done].
  destruct (try_for_each _ _) as [[]|] eqn:Ht; [|done]. apply try_for_each_ok in Ht.
  intros [= <-] t Hin. rewrite Forall_forall in Ht. specialize (Ht t Hin).
  unfold check_target in Ht. destruct (parse_endpoint t) as [e|] eqn:He; [|done].
  exists e. split; [done|]. by eapply parse_endpoint_wf.
Qed.

(** ** Properties *)

(** The capability mask is exact: it is produced precisely when every
    listed name is a known capability, its set bits are the bits of the listed
    capabilities and no others (so it fits 41 bits), and otherwise the error
    names the first unknown capability. *)
Theorem capability_mask_exact (caps : list string) :
  match capabilities_to_mask caps with
  | Ok m =>
      (0 <= m < 2 ^ 41)%Z /\
      forall i, Z.testbit m i = true <->
                exists cap, cap ∈ caps /\ linux_capability_bit cap = Some i
  | Err e =>
      exists pre cap post, caps = (pre ++ cap :: post)%list /\
        Forall (fun c => is_Some (linux_capability_bit c)) pre /\
        linux_capability_bit cap = None /\ e = unknown_capability cap
  end.
Proof.
  destruct (capabilities_to_mask caps) as [m|e] eqn:Hm.
  - split; [by eapply capabilities_to_mask_bound|]. intros i.
    rewrite (capabilities_to_mask_from_bits _ _ _ Hm i), Z.bits_0. naive_solver.
  - by eapply capabilities_to_mask_from_err.
Qed.

(** A policy file that loads is enforceable: every network target in it is
    a well-formed address with a prefix in range and a non-zero port, and the
    resulting policy translates to enforcement flags in which ptrace is allowed
    exactly when the CAP_SYS_PTRACE bit of the mask is set and host networking
    exactly for the host mode. *)
Theorem loaded_policy_is_enforceable (f : PolicyFile) (base_root : string) (p : ZonePolicy) :
  to_zone_policy f base_root = Ok p ->
  (forall t, t ∈ (allowed_egress (network p) ++ allowed_ingress (network p))%list ->
     exists e, parse_endpoint t = Ok e /\ endpoint_wf e) /\
  exists e, to_enforcement p = Ok e /\
    Api.allow_ptrace e = Z.testbit (Api.caps_mask e) 19 /\
    (Api.allow_host_net e = true <-> mode (network p) = Host).
Proof.
  unfold to_zone_policy.
  destruct (zone_type_of_str _); [|done]. destruct (admission_of _); [|done].
  destruct (capabilities_of (pf_capabilities f)) as [caps|] eqn:Hc; [|done].
  destruct (resources_of _); [|done].
  destruct (network_of (pf_network f)) as [net|] eqn:Hn; [|done].
  intros [= <-]. split.
  - simpl. by eapply network_of_targets.
  - destruct (capabilities_of_mask _ _ Hc) as [m Hm].
    unfold to_enforcement. simpl. rewrite Hm. eexists. split; [done|]. simpl. split.
    + by apply ptrace_flag_is_bit.
    + by rewrite bool_decide_eq_true.
Qed.

Definition sample_file : PolicyFile :=
  mkPolicyFile (mkFileZone "production" "non-global") None
    (Some ["CAP_NET_BIND_SERVICE"; "sys_ptrace"])
    (Some (mkFileResources (Some 1024%Z) (Some "4Gi") None None))
    (Some (mkFileNetwork (Some "bridged") None (Some ["0.0.0.0/0:443"]) (Some ["fd00::/8"])))
    None None None.

Definition sample_policy : ZonePolicy :=
  mkZonePolicy Strict (mkCapability ["CAP_NET_BIND_SERVICE"; "sys_ptrace"])
    (mkResource 1024 4294967296 100 256)
    (mkNetwork Bridged [] ["0.0.0.0/0:443"] ["fd00::/8"])
    (mkFilesystem "/var/lib/rauha/zones/production" true []) (mkDevice []) (mkSyscall [] []).

Lemma loaded_policy_is_enforceable_witness :
  to_zone_policy sample_file "/var/lib/rauha" = Ok sample_policy /\
  exists e, to_enforcement sample_policy = Ok e /\ Api.allow_ptrace e = true.
Proof.
  assert (H : to_zone_policy sample_file "/var/lib/rauha" = Ok sample_policy)
    by (vm_compute; reflexivity).
  split; [exact H|].
  destruct (loaded_policy_is_enforceable _ _ _ H) as (_ & e & He & Hp & _).
  exists e. split; [exact He|]. vm_compute in He. injection He as <-. exact Hp.
Defined.

(** Sizes above the 64-bit range are not refused: a [Gi] count whose byte
    size does not fit wraps silently, so a request for [2^34] Gi is read as a
    limit of zero bytes. *)
Theorem memory_size_wraps (v : Z) :
  (0 <= v < 2 ^ 64)%Z ->
  parse_memory_size (show v ++ "Gi") = Ok (wrap 64 (v * 2 ^ 30)).
Proof.
  intros Hv. unfold parse_memory_size.
  rewrite trim_alnum by (by rewrite all_alnum_app, all_alnum_show).
  rewrite strip_suffix_app. unfold scaled. rewrite parse_uint_show by lia.
  by rewrite mul64_gi.
Qed.

Lemma memory_size_wraps_witness : parse_memory_size "17179869184Gi" = Ok 0%Z.
Proof. exact (memory_size_wraps (2 ^ 34) ltac:(vm_compute; split; congruence)). Defined.

End Zone.
