(* ===== verification/Toml.v ===== *)
(** * A fragment of TOML

    What [rauhad/src/zone/policy.rs] prints is TOML of a small kind: tables of bare names,
    keys with basic strings, decimal integers, booleans and arrays of basic strings, nothing
    escaped.  [read] reads documents of this fragment as the TOML specification says; the
    [toml] crate reads more, and is a parameter elsewhere.  A document is written line by
    line ([render]); [read_render] reads it back. *)

From stdpp Require Import base gmap strings list.
From Stdlib Require Import ZArith Ascii String Lia.
From S2P Require Import Prelude.
From S2P Require Import RustStr.
From S2P Require Import RustText.
Import Str.
Open Scope string_scope.

Module Toml.

Inductive Value := VString (s : string) | VInt (n : Z) | VBool (b : bool) | VStrings (l : list string).
Definition Table : Type := list (string * Value).
Definition Document : Type := list (string * Table).

(** ** Reading *)

Definition quote_char : ascii := "034".
Definition newline : ascii := "010".
Definition nl : string := String newline "".

(** A character that stands for itself in a basic string: no quote, backslash or control. *)
Definition plain_char (c : ascii) : bool :=
  ((32 <=? code c) && negb (code c =? 34) && negb (code c =? 92) && negb (code c =? 127))%Z.
Definition bare_char (c : ascii) : bool := alnum c || Ascii.eqb c "_" || Ascii.eqb c "-".
Definition blank (c : ascii) : bool := Ascii.eqb c " " || Ascii.eqb c "009".
Definition gap (c : ascii) : bool := blank c || Ascii.eqb c newline.

Fixpoint all_of (p : ascii -> bool) (s : string) : bool :=
  match s with "" => true | String c s => p c && all_of p s end.

Fixpoint span (p : ascii -> bool) (s : string) : string * string :=
  match s with
  | "" => ("", "")
  | String c r => if p c then (String c (fst (span p r)), snd (span p r)) else ("", s)
  end.
Definition skip (p : ascii -> bool) (s : string) : string := snd (span p s).

(** The rest of a basic string after its opening quote. *)
Definition string_body (s : string) : option (string * string) :=
  let '(body, rest) := span plain_char s in
  match rest with String c rest => if Ascii.eqb c quote_char then Some (body, rest) else None | "" => None end.

(** The rest of an array of basic strings after its opening bracket; after the string [x]. *)
Definition more (items : string -> option (list string * string)) (x s : string) : option (list string * string) :=
  match skip gap s with
  | "" => None
  | String c s =>
      if Ascii.eqb c "," then match items s with Some (xs, s) => Some (x :: xs, s) | None => None end
      else if Ascii.eqb c "]" then Some ([x], s) else None
  end.
Fixpoint items (fuel : nat) (s : string) : option (list string * string) :=
  match fuel with
  | O => None
  | S fuel =>
      match skip gap s with
      | "" => None
      | String c s =>
          if Ascii.eqb c "]" then Some ([], s)
          else if Ascii.eqb c quote_char then
            match string_body s with Some (x, s) => more (items fuel) x s | None => None end
          else None
      end
  end.

(** [true], [false], or a canonical decimal of 63 bits: TOML's integers are [i64], without
    leading zeros. *)
Definition word (w : string) : option Value :=
  if String.eqb w "true" then Some (VBool true)
  else if String.eqb w "false" then Some (VBool false)
  else match parse_uint 63 w with Ok n => if String.eqb (show n) w then Some (VInt n) else None | Err _ => None end.

Definition value (s : string) : option (Value * string) :=
  match s with
  | "" => None
  | String c r =>
      if Ascii.eqb c quote_char then
        match string_body r with Some (x, rest) => Some (VString x, rest) | None => None end
      else if Ascii.eqb c "[" then
        match items (String.length r) r with Some (xs, rest) => Some (VStrings xs, rest) | None => None end
      else
        let '(w, rest) := span bare_char s in
        match word w with Some v => Some (v, rest) | None => None end
  end.

(** The end of a line. *)
Definition eol (s : string) : option string :=
  match skip blank s with
  | "" => Some ""
  | String c r => if Ascii.eqb c newline then Some r else None
  end.

Definition fresh {A} (k : string) (t : list (string * A)) : bool :=
  negb (String.eqb k "") && forallb (fun kv => negb (String.eqb (fst kv) k)) t.

(** A table is opened, a key of the last one given a value; neither twice.  The tables are
    kept in the opposite order. *)
Definition open_table (n : string) (d : Document) : option Document :=
  if fresh n d then Some ((n, []) :: d) else None.
Definition set_key (k : string) (v : Value) (d : Document) : option Document :=
  match d with
  | [] => None
  | (n, t) :: d => if fresh k t then Some ((n, (t ++ [(k, v)])%list) :: d) else None
  end.

Definition header_line (s : string) (d : Document) : option (string * Document) :=
  let '(n, s) := span bare_char s in
  s ← strip_prefix "]" s; s ← eol s; d ← open_table n d; Some (s, d).
Definition pair_line (s : string) (d : Document) : option (string * Document) :=
  let '(k, s) := span bare_char s in
  s ← strip_prefix "=" (skip blank s);
  vs ← value (skip blank s); s ← eol (snd vs); d ← set_key k (fst vs) d; Some (s, d).

Definition line (s : string) (d : Document) : option (string * Document) :=
  match s with
  | "" => None
  | String c r =>
      if Ascii.eqb c newline then Some (r, d)
      else if Ascii.eqb c "[" then header_line r d
      else pair_line s d
  end.

Fixpoint lines (fuel : nat) (s : string) (d : Document) : option Document :=
  match s, fuel with
  | "", _ => Some d
  | _, O => None
  | _, S fuel => match line s d with Some (s, d) => lines fuel s d | None => None end
  end.

(** Every line is at least a character long. *)
Definition read (s : string) : option Document := option_map (@rev _) (lines (String.length s) s []).

Definition q : string := String quote_char "".
Example read_two_tables :
  read ("[a]" ++ nl ++ "x = " ++ q ++ "y" ++ q ++ nl ++ "n = 07" ++ nl) = None /\
  read ("[a]" ++ nl ++ "x = " ++ q ++ "y" ++ q ++ nl ++ nl ++ "[b]" ++ nl ++ "l = [" ++ nl ++ " " ++ q ++ "z" ++ q ++ "," ++ nl ++ "]" ++ nl ++ "t = true" ++ nl ++ "n = 70" ++ nl)
    = Some [("a", [("x", VString "y")]); ("b", [("l", VStrings ["z"]); ("t", VBool true); ("n", VInt 70)])].
Proof. vm_compute. auto. Qed.

(** ** Writing *)

Inductive Line := Blank | Header (n : string) | Pair (k text : string) (v : Value).

Definition line_text (l : Line) : string :=
  match l with Blank => "" | Header n => "[" ++ n ++ "]" | Pair k text _ => k ++ " = " ++ text end.
Fixpoint render (ls : list Line) : string :=
  match ls with [] => "" | l :: ls => line_text l ++ nl ++ render ls end.

(** What the lines say. *)
Fixpoint build (ls : list Line) (d : Document) : option Document :=
  match ls with
  | [] => Some d
  | Blank :: ls => build ls d
  | Header n :: ls => d ← open_table n d; build ls d
  | Pair k _ v :: ls => d ← set_key k v d; build ls d
  end.

(** A text stands for a value. *)
Definition stands_for (text : string) (v : Value) : Prop :=
  (forall rest, value (text ++ nl ++ rest) = Some (v, nl ++ rest)) /\ exists c s, text = String c s /\ blank c = false.
Definition bare (n : string) : bool := all_of bare_char n && negb (String.eqb n "").
Definition line_ok (l : Line) : Prop :=
  match l with Blank => True | Header n => bare n = true | Pair k text v => bare k = true /\ stands_for text v end.

(** ** Reading what was written *)

Definition stops (p : ascii -> bool) (s : string) : Prop := match s with "" => True | String c _ => p c = false end.

Lemma span_app p a s : all_of p a = true -> stops p s -> span p (a ++ s) = (a, s).
Proof.
  intros Ha Hs. induction a as [|c a IH]; simpl.
  - destruct s as [|c s]; [done|]. simpl in *. by rewrite Hs.
  - simpl in Ha. apply andb_prop in Ha as [-> Ha]. by rewrite IH.
Qed.

Lemma skip_app p a s : all_of p a = true -> skip p (a ++ s) = skip p s.
Proof. intros Ha. induction a as [|c a IH]; simpl; [done|]. simpl in Ha. apply andb_prop in Ha as [Hc Ha]. unfold skip in *. simpl. by rewrite Hc, IH. Qed.

Lemma skip_none p s : stops p s -> skip p s = s.
Proof. intros Hs. pose proof (span_app p "" s eq_refl Hs) as H. unfold skip. change ("" ++ s) with s in H. by rewrite H. Qed.

Lemma string_body_app x rest : all_of plain_char x = true -> string_body (x ++ q ++ rest) = Some (x, rest).
Proof. intros Hx. unfold string_body. by rewrite span_app. Qed.

Lemma items_skip f g s : all_of gap g = true -> items f (g ++ s) = items f s.
Proof. intros Hg. destruct f; [done|]. simpl. by rewrite skip_app. Qed.

(** An array of strings, each behind [g], set apart by commas and [sep]. *)
Lemma items_join g sep post l rest f :
  all_of gap g = true -> all_of gap sep = true -> all_of gap post = true ->
  Forall (fun x => all_of plain_char x = true) l -> (List.length l < f)%nat ->
  items f (join ("," ++ sep) (map (fun x => g ++ q ++ x ++ q) l) ++ post ++ "]" ++ rest) = Some (l, rest).
Proof.
  intros Hg Hsep Hpost Hl. revert f. induction Hl as [|x l Hx Hl IH]; intros [|f] Hf; simpl in Hf; try lia.
  - cbn [map join append items]. change ("" ++ post ++ "]" ++ rest) with (post ++ "]" ++ rest). rewrite skip_app by done. reflexivity.
  - assert (Hnext : forall s, items (S f) (g ++ q ++ x ++ q ++ s) = more (items f) x s).
    { intros s. rewrite items_skip by done.
      transitivity (match string_body (x ++ q ++ s) with Some (x, s) => more (items f) x s | None => None end); [reflexivity|].
      by rewrite string_body_app. }
    destruct l as [|y l].
    + cbn [map join]. rewrite !Text.string_app_assoc, Hnext. unfold more. rewrite skip_app by done. reflexivity.
    + set (tail := join ("," ++ sep) (map (fun x => g ++ q ++ x ++ q) (y :: l))) in *.
      change (join ("," ++ sep) (map (fun x => g ++ q ++ x ++ q) (x :: y :: l))) with ((g ++ q ++ x ++ q) ++ ("," ++ sep) ++ tail).
      rewrite !Text.string_app_assoc, Hnext. unfold more.
      transitivity (match items f (sep ++ tail ++ post ++ "]" ++ rest) with Some (xs, s) => Some (x :: xs, s) | None => None end);
        [reflexivity|].
      by rewrite items_skip, IH by (done || lia).
Qed.

Lemma string_stands x : all_of plain_char x = true -> stands_for (q ++ x ++ q) (VString x).
Proof.
  intros Hx. split; [|by eexists _, _]. intros rest. rewrite !Text.string_app_assoc.
  transitivity (match string_body (x ++ q ++ nl ++ rest) with Some (x, rest) => Some (VString x, rest) | None => None end); [reflexivity|].
  by rewrite string_body_app.
Qed.

(** A word of bare characters that is no quote and no bracket. *)
Lemma word_stands w v : bare w = true -> word w = Some v -> stands_for w v.
Proof.
  unfold bare. intros [Hw Hn]%andb_prop Hv. destruct w as [|c w]; [done|]. simpl in Hw. apply andb_prop in Hw as [Hc Hw].
  assert (Hs : Ascii.eqb c quote_char = false /\ Ascii.eqb c "[" = false /\ blank c = false).
  { split_and!; [| |apply orb_false_iff; split]; apply Ascii.eqb_neq; intros ->; done. }
  destruct Hs as (H1 & H2 & H3). split; [|by eexists _, _]. intros rest.
  assert (Hsp : span bare_char (String c (w ++ nl ++ rest)) = (String c w, nl ++ rest)).
  { apply (span_app bare_char (String c w) (nl ++ rest)); [|done]. simpl. by rewrite Hc. }
  change (String c w ++ nl ++ rest) with (String c (w ++ nl ++ rest)). unfold value. by rewrite H1, H2, Hsp, Hv.
Qed.

Lemma bare_alnum s : all_alnum s = true -> all_of bare_char s = true.
Proof. induction s as [|c s IH]; [done|]. simpl. intros [Hc Hs]%andb_prop. rewrite IH by done. unfold bare_char. by rewrite Hc. Qed.

Lemma int_stands n : (0 <= n < 2 ^ 63)%Z -> stands_for (show n) (VInt n).
Proof.
  intros Hn. destruct (show_aux_cons 38 n "") as (d & t & Hd & Hs). apply word_stands.
  - unfold bare. rewrite bare_alnum by apply all_alnum_show. unfold show. by rewrite Hs.
  - unfold word. rewrite parse_uint_show, String.eqb_refl by lia.
    assert (Hne : forall b, alnum b = true -> to_digit b = None -> forall r, String.eqb (show n) (String b r) = false).
    { intros b _ Hb r. apply String.eqb_neq. unfold show. rewrite Hs. intros [= <- _]. by rewrite to_digit_digit in Hb. }
    by rewrite !Hne.
Qed.

Lemma bool_stands b : stands_for (if b : bool then "true" else "false") (VBool b).
Proof. destruct b; by apply word_stands. Qed.

(** An array whose strings are set apart by [sep], each behind [g], between [pre] and [post]. *)
Lemma strings_stand pre g sep post l : all_of gap pre = true -> all_of gap g = true -> all_of gap sep = true -> all_of gap post = true ->
  Forall (fun x => all_of plain_char x = true) l ->
  stands_for ("[" ++ pre ++ join ("," ++ sep) (map (fun x => g ++ q ++ x ++ q) l) ++ post ++ "]") (VStrings l).
Proof.
  intros Hpre Hg Hsep Hpost Hl. split; [|by eexists _, _]. intros rest. rewrite !Text.string_app_assoc.
  set (s := pre ++ join ("," ++ sep) (map (fun x => g ++ q ++ x ++ q) l) ++ post ++ "]" ++ nl ++ rest).
  transitivity (match items (String.length s) s with Some (xs, rest) => Some (VStrings xs, rest) | None => None end); [reflexivity|].
  unfold s at 2. rewrite items_skip, items_join; try done. unfold s. rewrite !string_length_app. cbn [String.length].
  enough (List.length l <= String.length (join ("," ++ sep) (map (fun x => g ++ q ++ x ++ q) l)))%nat by lia.
  clear -l. induction l as [|x [|y l] IH]; [done|cbn [map join List.length]; rewrite !string_length_app; cbn; lia|].
  change (join ("," ++ sep) (map (fun x => g ++ q ++ x ++ q) (x :: y :: l)))
    with ((g ++ q ++ x ++ q) ++ ("," ++ sep) ++ join ("," ++ sep) (map (fun x => g ++ q ++ x ++ q) (y :: l))).
  rewrite !string_length_app. cbn [List.length String.length q] in *. lia.
Qed.

Lemma eol_nl r : eol (nl ++ r) = Some r.
Proof. reflexivity. Qed.

Lemma header_render n r d : bare n = true -> line ("[" ++ n ++ "]" ++ nl ++ r) d = (d ← open_table n d; Some (r, d)).
Proof.
  intros [Hn _]%andb_prop. transitivity (header_line (n ++ "]" ++ nl ++ r) d); [reflexivity|].
  unfold header_line. by rewrite span_app.
Qed.

Lemma pair_render k text v r d : bare k = true -> stands_for text v ->
  line (k ++ " = " ++ text ++ nl ++ r) d = (d ← set_key k v d; Some (r, d)).
Proof.
  intros [Hk Hne]%andb_prop [Hv (c & t & Et & Hc)]. transitivity (pair_line (k ++ " = " ++ text ++ nl ++ r) d).
  - destruct k as [|b k]; [done|]. simpl in Hk. apply andb_prop in Hk as [Hb _].
    assert (Ascii.eqb b newline = false /\ Ascii.eqb b "[" = false) as [H1 H2] by (split; apply Ascii.eqb_neq; intros ->; done).
    change (line (String b (k ++ " = " ++ text ++ nl ++ r)) d = pair_line (String b (k ++ " = " ++ text ++ nl ++ r)) d).
    unfold line. by rewrite H1, H2.
  - unfold pair_line. rewrite span_app by done.
    assert (Hs : skip blank (" " ++ text ++ nl ++ r) = text ++ nl ++ r).
    { rewrite skip_app by done. apply skip_none. rewrite Et. exact Hc. }
    transitivity (vs ← value (skip blank (" " ++ text ++ nl ++ r)); s ← eol (snd vs); d ← set_key k (fst vs) d; Some (s, d)); [reflexivity|].
    by rewrite Hs, Hv.
Qed.

Lemma lines_step f s d : s <> "" -> lines (S f) s d = match line s d with Some (s, d) => lines f s d | None => None end.
Proof. by destruct s. Qed.

Lemma lines_render ls : Forall line_ok ls -> forall f d, (List.length ls <= f)%nat -> lines f (render ls) d = build ls d.
Proof.
  induction 1 as [|l ls Hl _ IH]; intros f d Hf; [by destruct f|]. destruct f as [|f]; simpl in Hf; [lia|].
  assert (Hne : render (l :: ls) <> "").
  { intros E%(f_equal String.length). cbn [render] in E. rewrite !string_length_app in E. cbn in E. lia. }
  rewrite lines_step by exact Hne. cbn [render]. destruct l as [|n|k text v]; cbn [line_text line_ok build] in *.
  - transitivity (lines f (render ls) d); [reflexivity|]. apply IH. lia.
  - rewrite !Text.string_app_assoc, header_render by done. destruct (open_table n d) as [d'|]; [apply IH; lia|done].
  - destruct Hl as [Hk Hv]. rewrite !Text.string_app_assoc, (pair_render _ _ v) by done.
    destruct (set_key k v d) as [d'|]; [apply IH; lia|done].
Qed.

(** A document that is written line by line is read as what the lines say. *)
Lemma read_render ls d : Forall line_ok ls -> build ls [] = Some d -> read (render ls) = Some (rev d).
Proof.
  intros Hl Hd. unfold read. rewrite lines_render; [by rewrite Hd|done|].
  clear. induction ls as [|l ls IH]; [done|]. cbn [render List.length]. rewrite !string_length_app. cbn. lia.
Qed.

End Toml.
