(* ===== verification/Policy.v ===== *)
(** * Policy text

    Models [rauhad/src/zone/policy.rs]: reading a TOML policy and printing one
    back.  A reader of policy files is the [toml] crate under the [Deserialize] that
    [PolicyFile] in [rauha-common/src/zone.rs] derives: the crate is a parameter, the
    derived part is [policy_file_of].  [PolicyReader] says that the two agree on the
    fragment of TOML that [Toml] reads, in which the printed text is, unless a string of
    the policy holds a quote, a backslash or a control character. *)

From stdpp Require Import base gmap strings list.
From Stdlib Require Import ZArith Ascii String Lia.
From S2P Require Import Prelude.
From S2P Require Import RustStr.
From S2P Require Import RustText.
From S2P Require Import EnforcerApi.
From S2P Require Import Zone.
From S2P Require Import Toml.
Import Str Zone.
Open Scope string_scope.

Module Policy.

(** ** The file format *)

(** What [#[derive(Deserialize)]] makes of a table under [deny_unknown_fields]: a key is
    required, or optional where its field is an [Option] or has a default. *)
Definition known (keys : list string) (t : Toml.Table) : bool :=
  forallb (fun kv => existsb (String.eqb (fst kv)) keys) t.
Definition field (k : string) (t : Toml.Table) : option Toml.Value :=
  option_map snd (List.find (fun kv => String.eqb (fst kv) k) t).
Definition required {A} (get : Toml.Value -> option A) (k : string) (t : Toml.Table) : option A := field k t ≫= get.
Definition optional {A} (get : Toml.Value -> option A) (k : string) (t : Toml.Table) : option (option A) :=
  match field k t with None => Some None | Some v => option_map Some (get v) end.

Definition of_string (v : Toml.Value) : option string := match v with Toml.VString s => Some s | _ => None end.
Definition of_bool (v : Toml.Value) : option bool := match v with Toml.VBool b => Some b | _ => None end.
Definition of_strings (v : Toml.Value) : option (list string) := match v with Toml.VStrings l => Some l | _ => None end.
Definition of_uint (w : Z) (v : Toml.Value) : option Z :=
  match v with Toml.VInt n => if ((0 <=? n) && (n <? 2 ^ w))%Z then Some n else None | _ => None end.

Definition if_known {A} (keys : list string) (t : Toml.Table) (o : option A) : option A := if known keys t then o else None.

Definition default_zone_type_str : string := "non-global".
Definition zone_of (t : Toml.Table) : option PolicyFileZone :=
  if_known ["name"; "type"] t (
    name ← required of_string "name" t; type ← optional of_string "type" t;
    Some (mkFileZone name (default default_zone_type_str type))).
Definition admission_mode_of (t : Toml.Table) : option string := if_known ["mode"] t (required of_string "mode" t).
Definition allowed_of (t : Toml.Table) : option (list string) := if_known ["allowed"] t (required of_strings "allowed" t).
Definition file_resources_of (t : Toml.Table) : option PolicyFileResources :=
  if_known ["cpu_shares"; "memory_limit"; "io_weight"; "pids_max"] t (
    cpu ← optional (of_uint 64) "cpu_shares" t; mem ← optional of_string "memory_limit" t;
    io ← optional (of_uint 16) "io_weight" t; pids ← optional (of_uint 64) "pids_max" t;
    Some (mkFileResources cpu mem io pids)).
Definition file_network_of (t : Toml.Table) : option PolicyFileNetwork :=
  if_known ["mode"; "allowed_zones"; "allowed_egress"; "allowed_ingress"] t (
    mode ← optional of_string "mode" t; zones ← optional of_strings "allowed_zones" t;
    egress ← optional of_strings "allowed_egress" t; ingress ← optional of_strings "allowed_ingress" t;
    Some (mkFileNetwork mode zones egress ingress)).
Definition file_filesystem_of (t : Toml.Table) : option PolicyFileFilesystem :=
  if_known ["root"; "shared_layers"; "writable_paths"] t (
    root ← optional of_string "root" t; shared ← optional of_bool "shared_layers" t;
    paths ← optional of_strings "writable_paths" t; Some (mkFileFilesystem root shared paths)).
Definition file_syscalls_of (t : Toml.Table) : option PolicyFileSyscalls :=
  if_known ["deny"; "broker"] t (
    deny ← optional of_strings "deny" t; broker ← optional of_strings "broker" t; Some (mkFileSyscalls deny broker)).

Definition find_table (n : string) (d : Toml.Document) : option Toml.Table :=
  option_map snd (List.find (fun nt => String.eqb (fst nt) n) d).
Definition section {A} (get : Toml.Table -> option A) (n : string) (d : Toml.Document) : option (option A) :=
  match find_table n d with None => Some None | Some t => option_map Some (get t) end.

Definition sections : list string :=
  ["zone"; "admission"; "capabilities"; "resources"; "network"; "filesystem"; "devices"; "syscalls"].
Definition policy_file_of (d : Toml.Document) : option PolicyFile :=
  if forallb (fun nt => existsb (String.eqb (fst nt)) sections) d then
    zone ← find_table "zone" d ≫= zone_of;
    admission ← section admission_mode_of "admission" d; capabilities ← section allowed_of "capabilities" d;
    resources ← section file_resources_of "resources" d; network ← section file_network_of "network" d;
    filesystem ← section file_filesystem_of "filesystem" d; devices ← section allowed_of "devices" d;
    syscalls ← section file_syscalls_of "syscalls" d;
    Some (mkPolicyFile zone admission capabilities resources network filesystem devices syscalls)
  else None.

(** A reader of policy files reads the documents of the fragment. *)
Class PolicyReader (from_str : string -> result PolicyFile string) : Prop :=
  reads_fragment : forall text d f, Toml.read text = Some d -> policy_file_of d = Some f -> from_str text = Ok f.

Section Reader.
Context (from_str : string -> result PolicyFile string).

Definition parse_policy (toml_str base_root : string)
  : result (ZoneType * ZonePolicy) RauhaError :=
  let? file := map_err InvalidPolicy (from_str toml_str) in
  let? zone_type := zone_type_of_str (fz_type (pf_zone file)) in
  let? policy := to_zone_policy file base_root in
  Ok (zone_type, policy).

End Reader.

Definition type_str (t : ZoneType) : string :=
  match t with Global => "global" | NonGlobal => "non-global" | Privileged => "privileged" end.

Definition net_mode_str (m : NetworkMode) : string :=
  match m with Isolated => "isolated" | Bridged => "bridged" | Host => "host" end.

Definition admission_str (a : PolicyAdmission) : string :=
  match a with Strict => "strict" | Audit => "audit" end.

Definition quoted (s : string) : string := dquote ++ s ++ dquote.
Notation nl := Toml.nl.

(** [iter().map(|x| format!("\"{x}\"")).collect().join(", ")]. *)
Definition quoted_list (l : list string) : string := join ", " (map quoted l).

Definition format_memory_size (bytes : Z) : string :=
  if (bytes mod (1024 * 1024 * 1024) =? 0)%Z then show (bytes / (1024 * 1024 * 1024)) ++ "Gi"
  else if (bytes mod (1024 * 1024) =? 0)%Z then show (bytes / (1024 * 1024)) ++ "Mi"
  else show bytes.

Definition bool_str (b : bool) : string := if b then "true" else "false".

Definition policy_to_toml (name : string) (zone_type : ZoneType) (p : ZonePolicy) : string :=
  let caps := join ("," ++ nl) (map (fun c => "    " ++ quoted c) (cap_allowed (capabilities p))) in
  join nl [
    "[zone]";
    "name = " ++ quoted name;
    "type = " ++ quoted (type_str zone_type);
    "";
    "[admission]";
    "mode = " ++ quoted (admission_str (admission p));
    "";
    "[capabilities]";
    "allowed = [";
    caps;
    "]";
    "";
    "[resources]";
    "cpu_shares = " ++ show (cpu_shares (resources p));
    "memory_limit = " ++ quoted (format_memory_size (memory_limit (resources p)));
    "io_weight = " ++ show (io_weight (resources p));
    "pids_max = " ++ show (pids_max (resources p));
    "";
    "[network]";
    "mode = " ++ quoted (net_mode_str (mode (network p)));
    "allowed_zones = [" ++ quoted_list (allowed_zones (network p)) ++ "]";
    "allowed_egress = [" ++ quoted_list (allowed_egress (network p)) ++ "]";
    "allowed_ingress = [" ++ quoted_list (allowed_ingress (network p)) ++ "]";
    "";
    "[filesystem]";
    "root = " ++ quoted (root (filesystem p));
    "shared_layers = " ++ bool_str (shared_layers (filesystem p));
    "writable_paths = [" ++ quoted_list (writable_paths (filesystem p)) ++ "]";
    "";
    "[devices]";
    "allowed = [" ++ quoted_list (dev_allowed (devices p)) ++ "]";
    "";
    "[syscalls]";
    "deny = [" ++ quoted_list (deny (syscalls p)) ++ "]";
    ""
  ].

(** The policy file the printed document is to hold, section by section. *)
Definition printed_file (name : string) (zone_type : ZoneType) (p : ZonePolicy) : PolicyFile :=
  mkPolicyFile (mkFileZone name (type_str zone_type))
    (Some (admission_str (admission p)))
    (Some (cap_allowed (capabilities p)))
    (Some (mkFileResources (Some (cpu_shares (resources p)))
             (Some (format_memory_size (memory_limit (resources p))))
             (Some (io_weight (resources p))) (Some (pids_max (resources p)))))
    (Some (mkFileNetwork (Some (net_mode_str (mode (network p))))
             (Some (allowed_zones (network p))) (Some (allowed_egress (network p)))
             (Some (allowed_ingress (network p)))))
    (Some (mkFileFilesystem (Some (root (filesystem p))) (Some (shared_layers (filesystem p)))
             (Some (writable_paths (filesystem p)))))
    (Some (dev_allowed (devices p)))
    (Some (mkFileSyscalls (Some (deny (syscalls p))) None)).

Definition drop_broker (p : ZonePolicy) : ZonePolicy :=
  mkZonePolicy (admission p) (capabilities p) (resources p) (network p) (filesystem p)
    (devices p) (mkSyscall (deny (syscalls p)) []).

(** ** Lemmas *)

(** A printed number does not end in a letter, so no unit is stripped from it. *)
Definition digits (s : string) : Prop :=
  Forall (fun c => is_Some (to_digit c)) (list_ascii_of_string s).

Lemma digits_show_aux f n acc : digits acc -> digits (show_aux f n acc).
Proof.
  unfold digits. revert n acc. induction f as [|f IH]; intros n acc H; simpl; [done|].
  assert (Hd : digits (String (digit (n mod 10)) acc)).
  { constructor; [|done]. rewrite to_digit_digit by apply mod10_range. by eexists. }
  destruct (_ =? 0)%Z; [exact Hd|by apply IH].
Qed.

Lemma digits_show n : digits (show n).
Proof. apply digits_show_aux. constructor. Qed.

Lemma digits_app s t : digits (s ++ t) <-> digits s /\ digits t.
Proof.
  unfold digits. induction s as [|c s IH]; simpl.
  - split; [by split; [constructor|]|by intros [_ ?]].
  - rewrite !Forall_cons, IH. naive_solver.
Qed.

Lemma strip_suffix_digits s u (a : ascii) :
  digits s -> to_digit a = None -> strip_suffix (u ++ String a "") s = None.
Proof.
  intros Hs Ha. destruct (strip_suffix _ s) as [t|] eqn:Ht; [|done].
  apply strip_suffix_Some in Ht as ->. apply digits_app in Hs as [_ [_ Hs]%digits_app].
  inversion Hs as [|? ? [d Hd]]; subst. congruence.
Qed.

Lemma strip_suffix_Gi_Mi s : strip_suffix "Gi" (s ++ "Mi") = None.
Proof.
  destruct (strip_suffix _ _) as [t|] eqn:Ht; [|done].
  apply strip_suffix_Some in Ht. exfalso. revert t Ht.
  induction s as [|c s IH]; intros [|d t]; simpl; intros H; try discriminate.
  - injection H as H1 H. destruct t as [|e t]; [discriminate|].
    injection H as H2 H. destruct t; discriminate.
  - injection H as H1 H. destruct s as [|e s]; [discriminate|].
    injection H as H2 H. destruct s; discriminate.
  - injection H as -> H. eauto.
Qed.

Lemma parse_format_memory_size bytes :
  in_width 64 bytes -> parse_memory_size (format_memory_size bytes) = Ok bytes.
Proof.
  intros Hb. unfold in_width in Hb. unfold format_memory_size, parse_memory_size.
  destruct (Z.eqb_spec (bytes mod (1024 * 1024 * 1024)) 0) as [Hg|_].
  - rewrite trim_alnum by (by rewrite all_alnum_app, all_alnum_show).
    rewrite strip_suffix_app. unfold scaled. apply Z.div_exact in Hg; [|lia].
    rewrite parse_uint_show, mul64_gi, wrap_small by lia. f_equal. lia.
  - destruct (Z.eqb_spec (bytes mod (1024 * 1024)) 0) as [Hm|_].
    + rewrite trim_alnum by (by rewrite all_alnum_app, all_alnum_show).
      rewrite strip_suffix_Gi_Mi, strip_suffix_app.
      unfold scaled. apply Z.div_exact in Hm; [|lia].
      rewrite parse_uint_show, mul64_mi, wrap_small by lia. f_equal. lia.
    + rewrite trim_alnum by apply all_alnum_show. pose proof (digits_show bytes) as Hd.
      rewrite (strip_suffix_digits _ "G" "i"), (strip_suffix_digits _ "M" "i"),
        (strip_suffix_digits _ "K" "i"), (strip_suffix_digits _ "" "G"),
        (strip_suffix_digits _ "" "M") by done.
      unfold scaled. by rewrite parse_uint_show by lia.
Qed.

(** The policies a daemon can hold: known capabilities, checked targets and a
    64-bit memory limit. *)
Definition policy_wf (p : ZonePolicy) : Prop :=
  is_ok (capabilities_to_mask (cap_allowed (capabilities p))) = true /\
  Forall (fun t => check_target t = Ok tt)
    (allowed_egress (network p) ++ allowed_ingress (network p))%list /\
  in_width 64 (memory_limit (resources p)).

Lemma zone_type_of_type_str t : zone_type_of_str (type_str t) = Ok t.
Proof. by destruct t. Qed.

Lemma to_zone_policy_printed name t p base_root :
  policy_wf p -> to_zone_policy (printed_file name t p) base_root = Ok (drop_broker p).
Proof.
  intros (Hc & Hn & Hm).
  assert (Hadm : admission_of (Some (admission_str (admission p))) = Ok (admission p))
    by (by destruct (admission p)).
  assert (Hmode : network_mode_of (Some (net_mode_str (mode (network p)))) = Ok (mode (network p)))
    by (by destruct (mode (network p))).
  unfold to_zone_policy, printed_file, capabilities_of, resources_of, network_of.
  cbn [pf_zone pf_admission pf_capabilities pf_resources pf_network fz_type fr_memory_limit
       fn_mode fn_allowed_egress fn_allowed_ingress from_option]; unfold id.
  rewrite zone_type_of_type_str, Hadm, parse_format_memory_size, Hmode by done.
  rewrite (proj2 (try_for_each_ok _ _) Hn).
  destruct (capabilities_to_mask (cap_allowed (capabilities p))) as [m|]; [|done].
  by destruct p as [? [] [] [] [] [] []].
Qed.

(** ** Properties *)

(** Memory limits survive the trip through text: parsing the printed size
    gives back the same number of bytes, for every 64-bit limit. *)
Theorem memory_size_roundtrip (bytes : Z) :
  in_width 64 bytes -> parse_memory_size (format_memory_size bytes) = Ok bytes.
Proof. apply parse_format_memory_size. Qed.

Lemma memory_size_roundtrip_witness :
  format_memory_size (512 * 1024 * 1024) = "512Mi" /\
  parse_memory_size (format_memory_size (512 * 1024 * 1024)) = Ok (512 * 1024 * 1024)%Z.
Proof.
  split; [vm_compute; reflexivity|].
  apply memory_size_roundtrip. unfold in_width. lia.
Defined.

(** *** The printed text *)

Definition plain (s : string) : bool := Toml.all_of Toml.plain_char s.

(** Policies whose strings need no escaping and whose numbers TOML can hold. *)
Definition printable (name : string) (p : ZonePolicy) : bool :=
  forallb plain (name :: root (filesystem p) :: cap_allowed (capabilities p) ++ allowed_zones (network p) ++ allowed_egress (network p) ++
    allowed_ingress (network p) ++ writable_paths (filesystem p) ++ dev_allowed (devices p) ++ deny (syscalls p))%list &&
  ((0 <=? cpu_shares (resources p)) && (cpu_shares (resources p) <? 2 ^ 63) &&
   (0 <=? pids_max (resources p)) && (pids_max (resources p) <? 2 ^ 63) &&
   (0 <=? io_weight (resources p)) && (io_weight (resources p) <? 2 ^ 16))%Z.

(** The printed text, line by line. *)
Definition inline (l : list string) : string := "[" ++ quoted_list l ++ "]".
Definition block (l : list string) : string :=
  "[" ++ nl ++ join ("," ++ nl) (map (fun c => "    " ++ quoted c) l) ++ nl ++ "]".
Definition string_line (k s : string) : Toml.Line := Toml.Pair k (quoted s) (Toml.VString s).
Definition int_line (k : string) (n : Z) : Toml.Line := Toml.Pair k (show n) (Toml.VInt n).
Definition list_line (k : string) (l : list string) : Toml.Line := Toml.Pair k (inline l) (Toml.VStrings l).

Definition policy_lines (name : string) (zone_type : ZoneType) (p : ZonePolicy) : list Toml.Line :=
  [Toml.Header "zone"; string_line "name" name; string_line "type" (type_str zone_type); Toml.Blank;
   Toml.Header "admission"; string_line "mode" (admission_str (admission p)); Toml.Blank;
   Toml.Header "capabilities";
   Toml.Pair "allowed" (block (cap_allowed (capabilities p))) (Toml.VStrings (cap_allowed (capabilities p))); Toml.Blank;
   Toml.Header "resources"; int_line "cpu_shares" (cpu_shares (resources p));
   string_line "memory_limit" (format_memory_size (memory_limit (resources p)));
   int_line "io_weight" (io_weight (resources p)); int_line "pids_max" (pids_max (resources p)); Toml.Blank;
   Toml.Header "network"; string_line "mode" (net_mode_str (mode (network p)));
   list_line "allowed_zones" (allowed_zones (network p)); list_line "allowed_egress" (allowed_egress (network p));
   list_line "allowed_ingress" (allowed_ingress (network p)); Toml.Blank;
   Toml.Header "filesystem"; string_line "root" (root (filesystem p));
   Toml.Pair "shared_layers" (bool_str (shared_layers (filesystem p))) (Toml.VBool (shared_layers (filesystem p)));
   list_line "writable_paths" (writable_paths (filesystem p)); Toml.Blank;
   Toml.Header "devices"; list_line "allowed" (dev_allowed (devices p)); Toml.Blank;
   Toml.Header "syscalls"; list_line "deny" (deny (syscalls p))].

Lemma printed_by_lines name t p : policy_to_toml name t p = Toml.render (policy_lines name t p).
Proof.
  unfold policy_to_toml, policy_lines, string_line, int_line, list_line, inline, block.
  cbn [join Toml.render Toml.line_text]. rewrite !Text.string_app_assoc. reflexivity.
Qed.

Lemma format_memory_plain m : all_alnum (format_memory_size m) = true.
Proof.
  unfold format_memory_size. destruct (_ =? 0)%Z; [|destruct (_ =? 0)%Z]; rewrite ?all_alnum_app, ?all_alnum_show; done.
Qed.

Lemma alnum_plain s : all_alnum s = true -> plain s = true.
Proof.
  unfold plain. induction s as [|c s IH]; [done|]. simpl. intros [Hc Hs]%andb_prop. rewrite IH by done.
  revert Hc. unfold alnum, Toml.plain_char. intros Hc. rewrite andb_true_r.
  repeat (apply orb_true_iff in Hc as [Hc|Hc]); apply andb_prop in Hc as [H1%Z.leb_le H2%Z.leb_le];
    rewrite (proj2 (Z.leb_le _ _)), !(proj2 (Z.eqb_neq _ _)) by lia; done.
Qed.

Lemma string_line_ok k s : Toml.bare k = true -> plain s = true -> Toml.line_ok (string_line k s).
Proof. intros Hk Hs. split; [done|]. by apply Toml.string_stands. Qed.

Lemma int_line_ok k n : Toml.bare k = true -> (0 <= n < 2 ^ 63)%Z -> Toml.line_ok (int_line k n).
Proof. intros Hk Hn. split; [done|]. by apply Toml.int_stands. Qed.

Lemma plain_Forall l : forallb plain l = true -> Forall (fun x => Toml.all_of Toml.plain_char x = true) l.
Proof. rewrite forallb_forall, List.Forall_forall. auto. Qed.

Lemma list_line_ok k l : Toml.bare k = true -> forallb plain l = true -> Toml.line_ok (list_line k l).
Proof. intros Hk Hl. split; [done|]. by apply (Toml.strings_stand "" "" " " ""); [..|apply plain_Forall]. Qed.

Lemma block_stands l : forallb plain l = true -> Toml.stands_for (block l) (Toml.VStrings l).
Proof. intros Hl. by apply (Toml.strings_stand nl "    " nl nl); [..|apply plain_Forall]. Qed.

Lemma policy_lines_ok name t p : printable name p = true -> Forall Toml.line_ok (policy_lines name t p).
Proof.
  unfold printable. rewrite !andb_true_iff, !Z.leb_le, !Z.ltb_lt. cbn [forallb]. rewrite !forallb_app, !andb_true_iff.
  intros ((Hn & Hr & Hc & Hz & He & Hi & Hw & Hd & Hs) & ((((Hcpu & Hcpu') & Hp) & Hp') & Hio) & Hio').
  unfold policy_lines. repeat apply Forall_cons_2; try exact I; try reflexivity; try (apply string_line_ok; [reflexivity|]);
    try (apply int_line_ok; [reflexivity|lia]); try (apply list_line_ok; [reflexivity|]); try done.
  - by destruct t.
  - by destruct (admission p).
  - split; [done|]. by apply block_stands.
  - apply alnum_plain, format_memory_plain.
  - by destruct (mode (network p)).
  - split; [done|]. apply Toml.bool_stands.
Qed.

(** What the lines say is the policy file to be printed. *)
Lemma policy_lines_say name t p : printable name p = true ->
  exists d, Toml.build (policy_lines name t p) [] = Some d /\ policy_file_of (rev d) = Some (printed_file name t p).
Proof.
  unfold printable. rewrite !andb_true_iff, !Z.leb_le, !Z.ltb_lt. intros (_ & ((((Hcpu & Hcpu') & Hp) & Hp') & Hio) & Hio').
  eexists. split; [reflexivity|].
  assert (H64 : forall n, (0 <= n < 2 ^ 63)%Z -> of_uint 64 (Toml.VInt n) = Some n).
  { intros n Hn. cbn. rewrite (proj2 (Z.leb_le _ _)), (proj2 (Z.ltb_lt _ _)) by lia. done. }
  assert (H16 : of_uint 16 (Toml.VInt (io_weight (resources p))) = Some (io_weight (resources p))).
  { cbn. rewrite (proj2 (Z.leb_le _ _)), (proj2 (Z.ltb_lt _ _)) by lia. done. }
  unfold policy_file_of, section, find_table. cbn [rev app List.find fst snd String.eqb Ascii.eqb Bool.eqb option_map forallb existsb].
  unfold file_resources_of, if_known, optional, field. cbn -[of_uint printed_file]. rewrite !H64, H16 by lia. reflexivity.
Qed.

(** The printed text is the policy file it is to hold, for every reader. *)
Lemma printed_text_reads from_str `{PolicyReader from_str} name t p :
  printable name p = true -> from_str (policy_to_toml name t p) = Ok (printed_file name t p).
Proof.
  intros Hp. destruct (policy_lines_say name t p Hp) as (d & Hd & Hf).
  apply (reads_fragment _ (rev d)); [|exact Hf]. rewrite printed_by_lines.
  by apply Toml.read_render; [apply policy_lines_ok|].
Qed.

(** Printing a policy and loading it back returns the zone type and the same policy, except
    that the brokered system calls are gone, as the printed text has no [broker] line: where
    no string of it needs escaping. *)
Theorem policy_text_roundtrip from_str `{PolicyReader from_str} name base_root t p :
  policy_wf p -> printable name p = true ->
  parse_policy from_str (policy_to_toml name t p) base_root = Ok (t, drop_broker p).
Proof.
  intros Hwf Hp. unfold parse_policy. rewrite printed_text_reads by done. simpl.
  rewrite zone_type_of_type_str. by rewrite to_zone_policy_printed.
Qed.

(** Where one does, the text can be that of another policy: a writable path that holds
    quotes is printed as two. *)
Definition with_writable (l : list string) (p : ZonePolicy) : ZonePolicy :=
  mkZonePolicy (admission p) (capabilities p) (resources p) (network p)
    (mkFilesystem (root (filesystem p)) (shared_layers (filesystem p)) l) (devices p) (syscalls p).

Theorem quotes_forge_entries from_str `{PolicyReader from_str} name base_root t p a b :
  let forged := with_writable [a ++ dquote ++ ", " ++ dquote ++ b] p in
  let two := with_writable [a; b] p in
  policy_wf p -> printable name two = true ->
  policy_wf forged /\ parse_policy from_str (policy_to_toml name t forged) base_root = Ok (t, drop_broker two) /\
  writable_paths (filesystem (drop_broker two)) <> writable_paths (filesystem forged).
Proof.
  intros forged two Hwf Hp. split; [exact Hwf|]. split; [|discriminate].
  assert (E : quoted_list [a ++ dquote ++ ", " ++ dquote ++ b] = quoted_list [a; b]).
  { unfold quoted_list, quoted. cbn [map join]. by rewrite !Text.string_app_assoc. }
  assert (Et : policy_to_toml name t forged = policy_to_toml name t two).
  { unfold policy_to_toml, forged, two, with_writable. cbn [admission capabilities resources network filesystem devices syscalls writable_paths root shared_layers].
    by rewrite E. }
  rewrite Et. by apply policy_text_roundtrip.
Qed.

Definition brokered_policy : ZonePolicy :=
  mkZonePolicy Strict (mkCapability ["CAP_CHOWN"]) ResourcePolicy_default
    (mkNetwork Bridged ["frontend"] ["0.0.0.0/0:443"] []) FilesystemPolicy_default
    (mkDevice []) (mkSyscall ["mount"] ["openat"]).

(** A reader that knows the fragment and nothing else. *)
Definition fragment_reader (text : string) : result PolicyFile string :=
  match Toml.read text ≫= policy_file_of with Some f => Ok f | None => Err "not in the fragment" end.
#[global] Instance fragment_reads : PolicyReader fragment_reader.
Proof. intros text d f Hd Hf. unfold fragment_reader. rewrite Hd. simpl. by rewrite Hf. Defined.

Example reads_a_policy :
  fragment_reader ("[zone]" ++ nl ++ "name = " ++ quoted "web" ++ nl ++ nl ++ "[network]" ++ nl ++ "allowed_zones = [" ++ quoted "db" ++ "]" ++ nl)
  = Ok (mkPolicyFile (mkFileZone "web" "non-global") None None None (Some (mkFileNetwork None (Some ["db"]) None None)) None None None) /\
  is_ok (fragment_reader ("[zone]" ++ nl ++ "name = " ++ quoted "web" ++ nl ++ "extra = true" ++ nl)) = false.
Proof. vm_compute. auto. Qed.

Lemma policy_text_roundtrip_witness :
  parse_policy fragment_reader (policy_to_toml "prod" NonGlobal brokered_policy) "/var/lib/rauha"
  = Ok (NonGlobal, drop_broker brokered_policy) /\
  drop_broker brokered_policy <> brokered_policy.
Proof.
  split; [|discriminate].
  refine (policy_text_roundtrip fragment_reader "prod" "/var/lib/rauha" NonGlobal brokered_policy _ _); [|vm_compute; reflexivity].
  split; [vm_compute; reflexivity|]. split; [|unfold in_width; simpl; lia].
  apply Forall_cons_2; [vm_compute; reflexivity|]. constructor.
Defined.

Lemma quotes_forge_entries_witness :
  parse_policy fragment_reader
    (policy_to_toml "prod" NonGlobal (with_writable ["/tmp/a" ++ dquote ++ ", " ++ dquote ++ "/b"] brokered_policy)) "/var/lib/rauha"
  = Ok (NonGlobal, drop_broker (with_writable ["/tmp/a"; "/b"] brokered_policy)).
Proof.
  refine (proj1 (proj2 (quotes_forge_entries fragment_reader "prod" "/var/lib/rauha" NonGlobal brokered_policy "/tmp/a" "/b" _ _)));
    [|vm_compute; reflexivity].
  split; [vm_compute; reflexivity|]. split; [|unfold in_width; simpl; lia].
  apply Forall_cons_2; [vm_compute; reflexivity|]. constructor.
Defined.

End Policy.
