(* ===== verification/Kernel.v ===== *)
(** * The kernel side: eBPF LSM hooks

    Models [rauha-ebpf/src/*.rs] and [rauha-ebpf-common/src/types.rs]: the BPF
    maps shared with the daemon, the reads of kernel structures, and the seven
    LSM programs with their counters and their event ring.  An invocation is a
    function of the call context (current task, hook arguments, kernel memory)
    and the maps; it returns the hook's verdict and the maps after it.

    The abstract side is a reference monitor: a confined subject, a resolved
    request and the predicate [permits].  Each enforcing hook is proved to
    return exactly the monitor's verdict. *)

From stdpp Require Import base gmap strings list fin_maps.
From Stdlib Require Import ZArith Lia.
From S2P Require Import Prelude.
From S2P Require Import RustStr.
From S2P Require Import EnforcerApi.
From S2P Require Import Zone.
Open Scope Z_scope.

Module Kernel.

(** ** Shared types *)

Definition MAX_ZONES : Z := 4096.
Definition MAX_CGROUPS : Z := 65536.
Definition MAX_INODES : Z := 262144.

Record ZoneInfoKernel := mkInfo { zone_id : Z; zflags : Z }.
Record ZonePolicyKernel := mkKPolicy { kcaps_mask : Z; kflags : Z; kpad : Z }.
Record SelfTestResult := mkSelfTest { helper_cgroup_id : Z; offset_cgroup_id : Z }.
Record EnforcementCounters := mkCounters { allow : Z; deny : Z; error : Z }.

(** [_pad0] and [_reserved] are always zero and left out. *)
Record EnforcementEvent := mkEvent {
  timestamp_ns : Z; pid : Z; ev_hook : Z; ev_decision : Z;
  caller_zone : Z; target_zone : Z; context : Z
}.

Definition ZONE_FLAG_PRIVILEGED : Z := 1.
Definition ZONE_FLAG_GLOBAL : Z := 2.
Definition POLICY_FLAG_ALLOW_PTRACE : Z := 1.
Definition POLICY_FLAG_ALLOW_HOST_NET : Z := 2.

(** [PROG_*] and [HOOK_*] carry the same numbers. *)
Definition PROG_FILE_OPEN : Z := 0.
Definition PROG_BPRM_CHECK : Z := 1.
Definition PROG_PTRACE_CHECK : Z := 2.
Definition PROG_TASK_KILL : Z := 3.
Definition PROG_CGROUP_ATTACH : Z := 4.
Definition PROG_CAPABLE : Z := 5.
Definition PROG_SOCKET_CONNECT : Z := 6.
Definition ENFORCEMENT_COUNTER_ENTRIES : Z := 7.
Definition DECISION_DENY : Z := 1.
Definition DECISION_ERROR : Z := 2.

Definition CAPS : list string := [
  "CAP_CHOWN"; "CAP_DAC_OVERRIDE"; "CAP_DAC_READ_SEARCH"; "CAP_FOWNER"; "CAP_FSETID";
  "CAP_KILL"; "CAP_SETGID"; "CAP_SETUID"; "CAP_SETPCAP"; "CAP_LINUX_IMMUTABLE";
  "CAP_NET_BIND_SERVICE"; "CAP_NET_BROADCAST"; "CAP_NET_ADMIN"; "CAP_NET_RAW";
  "CAP_IPC_LOCK"; "CAP_IPC_OWNER"; "CAP_SYS_MODULE"; "CAP_SYS_RAWIO"; "CAP_SYS_CHROOT";
  "CAP_SYS_PTRACE"; "CAP_SYS_PACCT"; "CAP_SYS_ADMIN"; "CAP_SYS_BOOT"; "CAP_SYS_NICE";
  "CAP_SYS_RESOURCE"; "CAP_SYS_TIME"; "CAP_SYS_TTY_CONFIG"; "CAP_MKNOD"; "CAP_LEASE";
  "CAP_AUDIT_WRITE"; "CAP_AUDIT_CONTROL"; "CAP_SETFCAP"; "CAP_MAC_OVERRIDE";
  "CAP_MAC_ADMIN"; "CAP_SYSLOG"; "CAP_WAKE_ALARM"; "CAP_BLOCK_SUSPEND"; "CAP_AUDIT_READ";
  "CAP_PERFMON"; "CAP_BPF"; "CAP_CHECKPOINT_RESTORE"
].

(** [caps_to_mask]: unknown names contribute no bit. *)
Definition caps_to_mask (caps : list string) : Z :=
  fold_left (fun mask cap =>
    let name := Str.to_uppercase cap in
    let name := if Str.starts_with "CAP_" name then name else ("CAP_" ++ name)%string in
    match Zone.position name CAPS with
    | Some pos => Z.lor mask (Z.shiftl 1 pos)
    | None => mask
    end) caps 0.

(** ** Maps and contexts *)

(** A BPF hash map is a finite map; the per-CPU counter array is keyed by CPU
    and program index; [events] is the ring buffer, oldest first. *)
Record Maps := mkMaps {
  ZONE_MEMBERSHIP : gmap Z ZoneInfoKernel;
  ZONE_POLICY : gmap Z ZonePolicyKernel;
  INODE_ZONE_MAP : gmap Z Z;
  ZONE_ALLOWED_COMMS : gmap (Z * Z) Z;
  SELF_TEST : SelfTestResult;
  ENFORCEMENT_COUNTERS : gmap (Z * Z) EnforcementCounters;
  ENFORCEMENT_EVENTS : list EnforcementEvent
}.

(** The kernel around one hook invocation: the BPF helpers' answers, the hook
    arguments, faulting reads of kernel memory, and whether the ring buffer has
    room for one more record. *)
Record Ctx := mkCtx {
  current_cgroup_id : Z;
  current_task : Z;
  current_pid_tgid : Z;
  ktime_ns : Z;
  cpu : Z;
  arg : nat -> Z;
  probe_read_kernel : Z -> result Z Z;
  ring_has_room : bool
}.

(** Field offsets compiled into the object ([offsets_default.rs], or the file
    the build generates for the target kernel). *)
Record Offsets := mkOffsets {
  TASK_CGROUPS : Z; CSS_SET_DFL_CGRP : Z; CGROUP_KN : Z; KERNFS_NODE_ID : Z;
  FILE_F_INODE : Z; INODE_I_INO : Z; BPRM_FILE : Z
}.

Definition offsets_default : Offsets := mkOffsets 3920 136 256 96 32 64 48.

Section Hooks.
Context (offsets : Offsets).

Definition lookup_caller_zone (ctx : Ctx) (m : Maps) : option ZoneInfoKernel :=
  ZONE_MEMBERSHIP m !! current_cgroup_id ctx.

Definition read_kernel_u64 (ctx : Ctx) (base offset : Z) : result Z Z :=
  probe_read_kernel ctx (wrap 64 (base + offset)).

Definition read_task_cgroup_id (ctx : Ctx) (task_ptr : Z) : result Z Z :=
  if task_ptr =? 0 then Err (-1)
  else
    let? cgroups_ptr := read_kernel_u64 ctx task_ptr (TASK_CGROUPS offsets) in
    if cgroups_ptr =? 0 then Err (-1)
    else
      let? dfl_cgrp_ptr := read_kernel_u64 ctx cgroups_ptr (CSS_SET_DFL_CGRP offsets) in
      if dfl_cgrp_ptr =? 0 then Err (-1)
      else
        let? kn_ptr := read_kernel_u64 ctx dfl_cgrp_ptr (CGROUP_KN offsets) in
        if kn_ptr =? 0 then Err (-1)
        else read_kernel_u64 ctx kn_ptr (KERNFS_NODE_ID offsets).

Definition lookup_task_zone (ctx : Ctx) (m : Maps) (task_ptr : Z) : option ZoneInfoKernel :=
  match read_task_cgroup_id ctx task_ptr with
  | Ok cgroup_id => ZONE_MEMBERSHIP m !! cgroup_id
  | Err _ => None
  end.

Definition read_file_ino (ctx : Ctx) (file_ptr : Z) : result Z Z :=
  if file_ptr =? 0 then Err (-1)
  else
    let? inode_ptr := read_kernel_u64 ctx file_ptr (FILE_F_INODE offsets) in
    if inode_ptr =? 0 then Err (-1)
    else read_kernel_u64 ctx inode_ptr (INODE_I_INO offsets).

Definition is_cross_zone_allowed (m : Maps) (src_zone dst_zone : Z) : bool :=
  if src_zone =? dst_zone then true
  else match ZONE_ALLOWED_COMMS m !! (src_zone, dst_zone) with Some _ => true | None => false end.

Definition set_events (m : Maps) (evs : list EnforcementEvent) : Maps :=
  mkMaps (ZONE_MEMBERSHIP m) (ZONE_POLICY m) (INODE_ZONE_MAP m) (ZONE_ALLOWED_COMMS m)
    (SELF_TEST m) (ENFORCEMENT_COUNTERS m) evs.

(** [ENFORCEMENT_EVENTS.output]: a full ring drops the record. *)
Definition output (ctx : Ctx) (m : Maps) (ev : EnforcementEvent) : Maps :=
  if ring_has_room ctx then set_events m (ENFORCEMENT_EVENTS m ++ [ev]) else m.

Definition deny_event (ctx : Ctx) (hook src dst info : Z) : EnforcementEvent :=
  mkEvent (ktime_ns ctx) (wrap 32 (Z.shiftr (current_pid_tgid ctx) 32)) hook DECISION_DENY src dst info.

Definition error_event (ctx : Ctx) (hook : Z) : EnforcementEvent :=
  mkEvent (ktime_ns ctx) (wrap 32 (Z.shiftr (current_pid_tgid ctx) 32)) hook DECISION_ERROR 0 0 0.

Definition emit_deny_event (ctx : Ctx) (m : Maps) (hook src dst info : Z) : Maps :=
  output ctx m (deny_event ctx hook src dst info).

Definition emit_error_event (ctx : Ctx) (m : Maps) (hook : Z) : Maps :=
  output ctx m (error_event ctx hook).

Definition check_cross_zone_task_access (ctx : Ctx) (m : Maps) (hook : Z)
  : result Z Z * Maps :=
  match lookup_caller_zone ctx m with
  | None => (Ok 0, m)
  | Some caller =>
      if has_flag (zflags caller) ZONE_FLAG_GLOBAL then (Ok 0, m)
      else
        let target_ptr := arg ctx 0 in
        if target_ptr =? 0 then (Ok 0, m)
        else
          match lookup_task_zone ctx m target_ptr with
          | None => (Ok (-1), emit_deny_event ctx m hook (zone_id caller) 0 0)
          | Some target =>
              if is_cross_zone_allowed m (zone_id caller) (zone_id target) then (Ok 0, m)
              else (Ok (-1), emit_deny_event ctx m hook (zone_id caller) (zone_id target) 0)
          end
  end.

Definition set_self_test (m : Maps) (r : SelfTestResult) : Maps :=
  mkMaps (ZONE_MEMBERSHIP m) (ZONE_POLICY m) (INODE_ZONE_MAP m) (ZONE_ALLOWED_COMMS m)
    r (ENFORCEMENT_COUNTERS m) (ENFORCEMENT_EVENTS m).

Definition maybe_run_self_test (ctx : Ctx) (m : Maps) : Maps :=
  if negb (helper_cgroup_id (SELF_TEST m) =? 0) then m
  else
    let offset_id := match read_task_cgroup_id ctx (current_task ctx) with
                     | Ok id => id
                     | Err _ => 0
                     end in
    set_self_test m (mkSelfTest (current_cgroup_id ctx) offset_id).

Definition bump (c : EnforcementCounters) (is_allow is_error : bool) : EnforcementCounters :=
  if is_error then mkCounters (allow c) (deny c) (wrap 64 (error c + 1))
  else if is_allow then mkCounters (wrap 64 (allow c + 1)) (deny c) (error c)
  else mkCounters (allow c) (wrap 64 (deny c + 1)) (error c).

Definition count_decision (ctx : Ctx) (m : Maps) (prog_idx : Z) (is_allow is_error : bool) : Maps :=
  match ENFORCEMENT_COUNTERS m !! (cpu ctx, prog_idx) with
  | Some c =>
      mkMaps (ZONE_MEMBERSHIP m) (ZONE_POLICY m) (INODE_ZONE_MAP m) (ZONE_ALLOWED_COMMS m)
        (SELF_TEST m)
        (<[(cpu ctx, prog_idx) := bump c is_allow is_error]> (ENFORCEMENT_COUNTERS m))
        (ENFORCEMENT_EVENTS m)
  | None => m
  end.

(** The entry point every hook shares: an error is reported and turned into
    [on_error], then the decision is counted. *)
Definition conclude (ctx : Ctx) (prog on_error : Z) (r : result Z Z * Maps) : Z * Maps :=
  let '(ret, is_error, m) :=
    match r with
    | (Ok ret, m) => (ret, false, m)
    | (Err _, m) => (on_error, true, emit_error_event ctx m prog)
    end in
  (ret, count_decision ctx m prog (ret =? 0) is_error).

(** ** The programs *)

Definition judge_inode (ctx : Ctx) (m : Maps) (hook zone ino : Z) : result Z Z * Maps :=
  match INODE_ZONE_MAP m !! ino with
  | None => (Ok 0, m)
  | Some file_zone_id =>
      if zone =? file_zone_id then (Ok 0, m)
      else if is_cross_zone_allowed m zone file_zone_id then (Ok 0, m)
      else (Ok (-1), emit_deny_event ctx m hook zone file_zone_id ino)
  end.

Definition try_file_open (ctx : Ctx) (m : Maps) : result Z Z * Maps :=
  match lookup_caller_zone ctx m with
  | None => (Ok 0, m)
  | Some caller =>
      if has_flag (zflags caller) ZONE_FLAG_GLOBAL then (Ok 0, m)
      else match read_file_ino ctx (arg ctx 0) with
           | Err e => (Err e, m)
           | Ok ino => judge_inode ctx m PROG_FILE_OPEN (zone_id caller) ino
           end
  end.

Definition file_open (ctx : Ctx) (m : Maps) : Z * Maps :=
  let m := maybe_run_self_test ctx m in
  conclude ctx PROG_FILE_OPEN (-1) (try_file_open ctx m).

Definition try_bprm_check (ctx : Ctx) (m : Maps) : result Z Z * Maps :=
  match lookup_caller_zone ctx m with
  | None => (Ok 0, m)
  | Some caller =>
      if has_flag (zflags caller) ZONE_FLAG_GLOBAL then (Ok 0, m)
      else if arg ctx 0 =? 0 then (Ok 0, m)
      else match (let? file_ptr := read_kernel_u64 ctx (arg ctx 0) (BPRM_FILE offsets) in
                  read_file_ino ctx file_ptr) with
           | Err e => (Err e, m)
           | Ok ino => judge_inode ctx m PROG_BPRM_CHECK (zone_id caller) ino
           end
  end.

Definition bprm_check_security (ctx : Ctx) (m : Maps) : Z * Maps :=
  conclude ctx PROG_BPRM_CHECK (-1) (try_bprm_check ctx m).

Definition try_ptrace_check (ctx : Ctx) (m : Maps) : result Z Z * Maps :=
  match lookup_caller_zone ctx m with
  | None => (Ok 0, m)
  | Some caller =>
      if has_flag (zflags caller) ZONE_FLAG_GLOBAL then (Ok 0, m)
      else if match ZONE_POLICY m !! zone_id caller with
              | Some policy => has_flag (kflags policy) POLICY_FLAG_ALLOW_PTRACE
              | None => false
              end then (Ok 0, m)
      else check_cross_zone_task_access ctx m PROG_PTRACE_CHECK
  end.

Definition ptrace_access_check (ctx : Ctx) (m : Maps) : Z * Maps :=
  conclude ctx PROG_PTRACE_CHECK (-1) (try_ptrace_check ctx m).

Definition task_kill (ctx : Ctx) (m : Maps) : Z * Maps :=
  conclude ctx PROG_TASK_KILL (-1) (check_cross_zone_task_access ctx m PROG_TASK_KILL).

Definition try_cgroup_attach (ctx : Ctx) (m : Maps) : result Z Z * Maps :=
  match lookup_caller_zone ctx m with
  | None => (Ok 0, m)
  | Some caller =>
      if has_flag (zflags caller) ZONE_FLAG_GLOBAL then (Ok 0, m)
      else
        let dst_cgrp_ptr := arg ctx 0 in
        if dst_cgrp_ptr =? 0 then (Ok 0, m)
        else match read_kernel_u64 ctx dst_cgrp_ptr (CGROUP_KN offsets) with
        | Err e => (Err e, m)
        | Ok kn_ptr =>
            if kn_ptr =? 0 then (Ok 0, m)
            else match read_kernel_u64 ctx kn_ptr (KERNFS_NODE_ID offsets) with
            | Err e => (Err e, m)
            | Ok dst_cgroup_id =>
                match ZONE_MEMBERSHIP m !! dst_cgroup_id with
                | Some dst_info =>
                    if zone_id caller =? zone_id dst_info then (Ok 0, m)
                    else (Ok (-1), emit_deny_event ctx m PROG_CGROUP_ATTACH
                                     (zone_id caller) (zone_id dst_info) dst_cgroup_id)
                | None => (Ok (-1), emit_deny_event ctx m PROG_CGROUP_ATTACH
                                      (zone_id caller) 0 dst_cgroup_id)
                end
            end
        end
  end.

Definition cgroup_attach_task (ctx : Ctx) (m : Maps) : Z * Maps :=
  conclude ctx PROG_CGROUP_ATTACH (-1) (try_cgroup_attach ctx m).

Definition try_capable (ctx : Ctx) (m : Maps) : result Z Z * Maps :=
  match lookup_caller_zone ctx m with
  | None => (Ok 0, m)
  | Some caller =>
      if has_flag (zflags caller) ZONE_FLAG_GLOBAL then (Ok 0, m)
      else
        let cap := as_signed 32 (arg ctx 2) in
        let deny := (Ok (-1), emit_deny_event ctx m PROG_CAPABLE (zone_id caller) 0 (wrap 64 cap)) in
        if (cap <? 0) || (63 <? cap) then deny
        else match ZONE_POLICY m !! zone_id caller with
             | None => deny
             | Some policy =>
                 if has_flag (kcaps_mask policy) (wrap 64 (Z.shiftl 1 cap)) then (Ok 0, m) else deny
             end
  end.

Definition capable (ctx : Ctx) (m : Maps) : Z * Maps :=
  conclude ctx PROG_CAPABLE (-1) (try_capable ctx m).

Definition try_socket_connect (ctx : Ctx) (m : Maps) : result Z Z * Maps :=
  match lookup_caller_zone ctx m with
  | None => (Ok 0, m)
  | Some caller =>
      if has_flag (zflags caller) ZONE_FLAG_GLOBAL then (Ok 0, m)
      else (Ok 0, emit_deny_event ctx m PROG_SOCKET_CONNECT (zone_id caller) 0 0)
  end.

Definition socket_connect (ctx : Ctx) (m : Maps) : Z * Maps :=
  conclude ctx PROG_SOCKET_CONNECT 0 (try_socket_connect ctx m).

(** ** The reference monitor *)

Inductive LsmHook :=
| HFileOpen | HBprmCheck | HPtraceCheck | HTaskKill | HCgroupAttach | HCapable | HSocketConnect.

Definition prog_of (h : LsmHook) : Z :=
  match h with
  | HFileOpen => PROG_FILE_OPEN | HBprmCheck => PROG_BPRM_CHECK
  | HPtraceCheck => PROG_PTRACE_CHECK | HTaskKill => PROG_TASK_KILL
  | HCgroupAttach => PROG_CGROUP_ATTACH | HCapable => PROG_CAPABLE
  | HSocketConnect => PROG_SOCKET_CONNECT
  end.

#[global] Instance LsmHook_eq_dec : EqDecision LsmHook.
Proof. solve_decision. Defined.

(** The [#[lsm]] entry points. *)
Definition run_hook (h : LsmHook) : Ctx -> Maps -> Z * Maps :=
  match h with
  | HFileOpen => file_open | HBprmCheck => bprm_check_security
  | HPtraceCheck => ptrace_access_check | HTaskKill => task_kill
  | HCgroupAttach => cgroup_attach_task | HCapable => capable
  | HSocketConnect => socket_connect
  end.

(** What a confined subject asks for, with the zone of the object involved. *)
Inductive Request :=
| UseInode (owner : option Z)
| ActOnTask (target : option Z)
| TraceTask (target : option Z)
| MoveToCgroup (dest : option Z)
| UseCapability (cap : Z)
| Connect.

Inductive Resolution := NoObject | Unreadable | Found (r : Request).

Definition confined (ctx : Ctx) (m : Maps) : option Z :=
  match ZONE_MEMBERSHIP m !! current_cgroup_id ctx with
  | Some info => if Z.testbit (zflags info) 1 then None else Some (zone_id info)
  | None => None
  end.

Definition of_read (r : result Z Z) (k : Z -> Request) : Resolution :=
  match r with Ok v => Found (k v) | Err _ => Unreadable end.

Definition resolve (h : LsmHook) (ctx : Ctx) (m : Maps) : Resolution :=
  let ptr := arg ctx 0 in
  match h with
  | HFileOpen => of_read (read_file_ino ctx ptr) (fun ino => UseInode (INODE_ZONE_MAP m !! ino))
  | HBprmCheck =>
      if ptr =? 0 then NoObject
      else of_read (let? f := read_kernel_u64 ctx ptr (BPRM_FILE offsets) in read_file_ino ctx f)
             (fun ino => UseInode (INODE_ZONE_MAP m !! ino))
  | HPtraceCheck =>
      if ptr =? 0 then NoObject else Found (TraceTask (zone_id <$> lookup_task_zone ctx m ptr))
  | HTaskKill =>
      if ptr =? 0 then NoObject else Found (ActOnTask (zone_id <$> lookup_task_zone ctx m ptr))
  | HCgroupAttach =>
      if ptr =? 0 then NoObject
      else match read_kernel_u64 ctx ptr (CGROUP_KN offsets) with
           | Err _ => Unreadable
           | Ok kn =>
               if kn =? 0 then NoObject
               else of_read (read_kernel_u64 ctx kn (KERNFS_NODE_ID offsets))
                      (fun id => MoveToCgroup (zone_id <$> ZONE_MEMBERSHIP m !! id))
           end
  | HCapable => Found (UseCapability (as_signed 32 (arg ctx 2)))
  | HSocketConnect => Found Connect
  end.

(** Zone [z] may reach objects of zone [o]. *)
Definition linked (m : Maps) (z o : Z) : Prop :=
  z = o \/ is_Some (ZONE_ALLOWED_COMMS m !! (z, o)).

Definition permits (m : Maps) (z : Z) (r : Request) : Prop :=
  match r with
  | UseInode None => True
  | UseInode (Some o) => linked m z o
  | ActOnTask None => False
  | ActOnTask (Some t) => linked m z t
  | TraceTask t =>
      (exists p, ZONE_POLICY m !! z = Some p /\ Z.testbit (kflags p) 0 = true) \/
      (exists t', t = Some t' /\ linked m z t')
  | MoveToCgroup d => d = Some z
  | UseCapability cap =>
      0 <= cap <= 63 /\
      exists p, ZONE_POLICY m !! z = Some p /\ Z.testbit (kcaps_mask p) cap = true
  | Connect => True
  end.

Definition monitor_allows (h : LsmHook) (ctx : Ctx) (m : Maps) : Prop :=
  match confined ctx m with
  | None => True
  | Some z =>
      match resolve h ctx m with
      | NoObject => True
      | Unreadable => False
      | Found r => permits m z r
      end
  end.

Definition unreadable (h : LsmHook) (ctx : Ctx) (m : Maps) : bool :=
  match confined ctx m, resolve h ctx m with Some _, Unreadable => true | _, _ => false end.

(** ** Lemmas *)

Lemma has_flag_global f : has_flag f ZONE_FLAG_GLOBAL = Z.testbit f 1.
Proof. apply (has_flag_pow2 f 1). lia. Qed.

Lemma has_flag_ptrace f : has_flag f POLICY_FLAG_ALLOW_PTRACE = Z.testbit f 0.
Proof. apply (has_flag_pow2 f 0). lia. Qed.

Lemma has_flag_cap mask cap :
  0 <= cap <= 63 -> has_flag mask (wrap 64 (Z.shiftl 1 cap)) = Z.testbit mask cap.
Proof.
  intros Hc. rewrite Z.shiftl_1_l, Zone.wrap_small.
  - apply has_flag_pow2. lia.
  - split; [lia|]. apply Z.pow_lt_mono_r; lia.
Qed.

Lemma is_cross_zone_allowed_spec m z o : is_cross_zone_allowed m z o = true <-> linked m z o.
Proof.
  unfold is_cross_zone_allowed, linked. destruct (Z.eqb_spec z o) as [->|]; [naive_solver|].
  destruct (ZONE_ALLOWED_COMMS m !! (z, o)); naive_solver.
Qed.

Lemma conclude_fst ctx prog e r :
  fst (conclude ctx prog e r) = match fst r with Ok v => v | Err _ => e end.
Proof. destruct r as [[v|x] m]; done. Qed.

(** The part of the maps userspace owns; hooks leave it alone. *)
Definition same_tables (m m' : Maps) : Prop :=
  ZONE_MEMBERSHIP m' = ZONE_MEMBERSHIP m /\ ZONE_POLICY m' = ZONE_POLICY m /\
  INODE_ZONE_MAP m' = INODE_ZONE_MAP m /\ ZONE_ALLOWED_COMMS m' = ZONE_ALLOWED_COMMS m.

Lemma same_tables_self_test ctx m : same_tables m (maybe_run_self_test ctx m).
Proof. unfold maybe_run_self_test. by destruct (negb _). Qed.

(** A guard's answer as the shared shape: a verdict and the events it added. *)
Definition judged (ctx : Ctx) (m : Maps) (prog : Z) (r : result Z Z * Maps)
    (allowed err : Prop) : Prop :=
  (exists e, r = (Err e, m) /\ err) \/
  (r = (Ok 0, m) /\ allowed /\ ~ err) \/
  (exists src dst info, r = (Ok (-1), emit_deny_event ctx m prog src dst info) /\
     ~ allowed /\ ~ err).

Definition guard_of (h : LsmHook) : Ctx -> Maps -> result Z Z * Maps :=
  match h with
  | HFileOpen => try_file_open | HBprmCheck => try_bprm_check
  | HPtraceCheck => try_ptrace_check
  | HTaskKill => fun ctx m => check_cross_zone_task_access ctx m PROG_TASK_KILL
  | HCgroupAttach => try_cgroup_attach | HCapable => try_capable
  | HSocketConnect => try_socket_connect
  end.

Lemma judged_allow ctx m prog (A E : Prop) : A -> ~ E -> judged ctx m prog (Ok 0, m) A E.
Proof. intros. right; left. done. Qed.

Lemma judged_deny ctx m prog src dst info (A E : Prop) :
  ~ A -> ~ E -> judged ctx m prog (Ok (-1), emit_deny_event ctx m prog src dst info) A E.
Proof. intros. right; right. do 3 eexists. done. Qed.

Lemma judged_err ctx m prog e (A E : Prop) : E -> judged ctx m prog (Err e, m) A E.
Proof. intros. left. eexists. done. Qed.

Lemma judge_inode_judged ctx m prog z ino (A E : Prop) :
  (A <-> permits m z (UseInode (INODE_ZONE_MAP m !! ino))) -> ~ E ->
  judged ctx m prog (judge_inode ctx m prog z ino) A E.
Proof.
  intros HA HE. unfold judge_inode. simpl in HA.
  destruct (INODE_ZONE_MAP m !! ino) as [o|]; [|apply judged_allow; [by apply HA|done]].
  destruct (Z.eqb_spec z o) as [->|]; [apply judged_allow; [apply HA; by left|done]|].
  destruct (is_cross_zone_allowed m z o) eqn:Hx.
  - apply judged_allow; [|done]. by apply HA, is_cross_zone_allowed_spec.
  - apply judged_deny; [|done]. intros H%HA%is_cross_zone_allowed_spec. congruence.
Qed.

Lemma check_cross_zone_judged ctx m prog z (A E : Prop) :
  confined ctx m = Some z ->
  (A <-> (arg ctx 0 = 0 \/ exists t, zone_id <$> lookup_task_zone ctx m (arg ctx 0) = Some t /\ linked m z t)) ->
  ~ E -> judged ctx m prog (check_cross_zone_task_access ctx m prog) A E.
Proof.
  intros Hz HA HE. unfold check_cross_zone_task_access, lookup_caller_zone.
  unfold confined in Hz. destruct (ZONE_MEMBERSHIP m !! current_cgroup_id ctx) as [info|]; [|done].
  rewrite has_flag_global. destruct (Z.testbit (zflags info) 1); [done|]. injection Hz as Hz.
  destruct (Z.eqb_spec (arg ctx 0) 0); [apply judged_allow; [apply HA; by left|done]|].
  destruct (lookup_task_zone ctx m (arg ctx 0)) as [t|]; simpl in HA.
  - destruct (is_cross_zone_allowed m (zone_id info) (zone_id t)) eqn:Hx; rewrite ?Hz in *.
    + apply judged_allow; [|done]. apply HA. right. eexists.
      split; [done|]. by apply is_cross_zone_allowed_spec.
    + apply judged_deny; [|done]. intros [?|(t' & [= <-] & H%is_cross_zone_allowed_spec)]%HA; congruence.
  - apply judged_deny; [|done]. intros [?|(t' & [=] & ?)]%HA; congruence.
Qed.

(** An unconfined caller: nothing is checked. *)
Lemma guard_unconfined h ctx m : confined ctx m = None -> guard_of h ctx m = (Ok 0, m).
Proof.
  unfold confined. intros Hc.
  destruct h; simpl; unfold try_file_open, try_bprm_check, try_ptrace_check,
    check_cross_zone_task_access, try_cgroup_attach, try_capable, try_socket_connect,
    lookup_caller_zone;
  (destruct (ZONE_MEMBERSHIP m !! current_cgroup_id ctx) as [info|]; [|done]);
  rewrite has_flag_global; by destruct (Z.testbit (zflags info) 1).
Qed.

Lemma confined_inv ctx m z :
  confined ctx m = Some z ->
  exists info, lookup_caller_zone ctx m = Some info /\
    has_flag (zflags info) ZONE_FLAG_GLOBAL = false /\ zone_id info = z.
Proof.
  unfold confined, lookup_caller_zone. intros Hc.
  destruct (ZONE_MEMBERSHIP m !! current_cgroup_id ctx) as [info|]; [|done].
  exists info. rewrite has_flag_global. destruct (Z.testbit (zflags info) 1); [done|]. naive_solver.
Qed.

Lemma signal_allowed m z ptr (t : option Z) :
  match (if ptr =? 0 then NoObject else Found (ActOnTask t)) with
  | NoObject => True | Unreadable => False | Found r => permits m z r
  end <-> ptr = 0 \/ exists t', t = Some t' /\ linked m z t'.
Proof.
  destruct (Z.eqb_spec ptr 0); [by split; [left|]|].
  destruct t as [t|]; cbn [permits].
  - split; [intros H; right; by exists t|]. intros [?|(t' & [= <-] & H)]; done.
  - split; [done|]. by intros [?|(t' & [=] & _)].
Qed.

Lemma trace_without_grant m z ptr (t : option Z) :
  ~ (exists p, ZONE_POLICY m !! z = Some p /\ Z.testbit (kflags p) 0 = true) ->
  match (if ptr =? 0 then NoObject else Found (TraceTask t)) with
  | NoObject => True | Unreadable => False | Found r => permits m z r
  end <-> ptr = 0 \/ exists t', t = Some t' /\ linked m z t'.
Proof.
  intros Hng. destruct (Z.eqb_spec ptr 0); [by split; [left|]|]. cbn [permits].
  split; [intros [?|H]; [done|by right]|]. intros [?|H]; [done|by right].
Qed.

Lemma guard_judged h ctx m :
  h <> HSocketConnect ->
  judged ctx m (prog_of h) (guard_of h ctx m) (monitor_allows h ctx m)
    (unreadable h ctx m = true).
Proof.
  intros Hh. destruct (confined ctx m) as [z|] eqn:Hc.
  2: { rewrite guard_unconfined by done. apply judged_allow; unfold monitor_allows, unreadable;
       rewrite Hc; done. }
  destruct (confined_inv ctx m z Hc) as (info & Hl & Hg & Hz).
  unfold monitor_allows, unreadable. rewrite Hc.
  destruct h; try done; cbn [guard_of prog_of resolve];
    unfold try_file_open, try_bprm_check, try_ptrace_check, try_cgroup_attach, try_capable;
    try (rewrite Hl, Hg, Hz).
  - destruct (read_file_ino ctx (arg ctx 0)) as [ino|e]; cbn [of_read];
      [by apply judge_inode_judged|by apply judged_err].
  - destruct (Z.eqb_spec (arg ctx 0) 0); [by apply judged_allow|].
    destruct (let? f := _ in _) as [ino|e]; cbn [of_read];
      [by apply judge_inode_judged|by apply judged_err].
  - assert (Hne : forall c : bool, (match (if c then NoObject else
        Found (TraceTask (zone_id <$> lookup_task_zone ctx m (arg ctx 0)))) with
        | Unreadable => true | _ => false end) <> true) by (by intros []).
    destruct (ZONE_POLICY m !! z) as [p|] eqn:Hp;
      [rewrite has_flag_ptrace; destruct (Z.testbit (kflags p) 0) eqn:Hf|].
    + apply judged_allow; [|apply Hne]. destruct (_ =? 0); [done|]. left. eauto.
    + eapply check_cross_zone_judged; [exact Hc| |apply Hne].
      apply trace_without_grant. intros (p' & Hp' & ?). congruence.
    + eapply check_cross_zone_judged; [exact Hc| |apply Hne].
      apply trace_without_grant. intros (p' & Hp' & _). congruence.
  - eapply check_cross_zone_judged; [exact Hc| |by destruct (_ =? 0)].
    apply signal_allowed.
  - cbv zeta. destruct (Z.eqb_spec (arg ctx 0) 0); [by apply judged_allow|].
    destruct (read_kernel_u64 ctx (arg ctx 0) _) as [kn|]; [|by apply judged_err].
    destruct (Z.eqb_spec kn 0); [by apply judged_allow|].
    destruct (read_kernel_u64 ctx kn _) as [id|]; cbn [of_read]; [|by apply judged_err].
    destruct (ZONE_MEMBERSHIP m !! id) as [d|]; cbn [fmap option_fmap option_map permits].
    + destruct (Z.eqb_spec z (zone_id d)) as [->|]; [by apply judged_allow|].
      apply judged_deny; [|done]. intros [= ?]. congruence.
    + by apply judged_deny.
  - cbv zeta. cbn [permits].
    destruct (Z.ltb_spec (as_signed 32 (arg ctx 2)) 0); [apply judged_deny; [|done]; lia|].
    destruct (Z.ltb_spec 63 (as_signed 32 (arg ctx 2))); [apply judged_deny; [|done]; lia|].
    cbn [orb]. destruct (ZONE_POLICY m !! z) as [p|] eqn:Hp;
      [|apply judged_deny; [|done]; intros (_ & p' & Hp' & _); congruence].
    rewrite has_flag_cap by lia. destruct (Z.testbit (kcaps_mask p) _) eqn:Hb.
    + apply judged_allow; [|done]. split; [lia|]. eauto.
    + apply judged_deny; [|done]. intros (_ & p' & Hp' & ?). congruence.
Qed.

(** [file_open] judges in the maps the self test left, which agree with the
    original ones on every table it reads. *)
Lemma monitor_allows_self_test h ctx m :
  monitor_allows h ctx (maybe_run_self_test ctx m) = monitor_allows h ctx m.
Proof. unfold maybe_run_self_test. by destruct (negb _). Qed.

Definition maps_seen (h : LsmHook) (ctx : Ctx) (m : Maps) : Maps :=
  match h with HFileOpen => maybe_run_self_test ctx m | _ => m end.

Definition on_error (h : LsmHook) : Z := match h with HSocketConnect => 0 | _ => -1 end.

Lemma run_hook_conclude h ctx m :
  run_hook h ctx m = conclude ctx (prog_of h) (on_error h) (guard_of h ctx (maps_seen h ctx m)).
Proof. by destruct h. Qed.

Lemma monitor_allows_seen h ctx m : monitor_allows h ctx (maps_seen h ctx m) = monitor_allows h ctx m.
Proof. destruct h; try done. apply monitor_allows_self_test. Qed.

Lemma unreadable_not_allowed h ctx m : unreadable h ctx m = true -> ~ monitor_allows h ctx m.
Proof.
  unfold unreadable, monitor_allows. destruct (confined ctx m); [|done].
  destruct (resolve h ctx m); done || (intros; congruence).
Qed.

Lemma count_decision_tables ctx m prog a e : same_tables m (count_decision ctx m prog a e).
Proof. unfold count_decision. destruct (ENFORCEMENT_COUNTERS m !! _); by split_and!. Qed.

Lemma output_tables ctx m ev : same_tables m (output ctx m ev).
Proof. unfold output. destruct (ring_has_room ctx); by split_and!. Qed.

Lemma same_tables_trans m1 m2 m3 : same_tables m1 m2 -> same_tables m2 m3 -> same_tables m1 m3.
Proof. unfold same_tables. intuition congruence. Qed.

#[local] Hint Resolve count_decision_tables output_tables same_tables_trans
  same_tables_self_test : kernel.

Lemma guard_tables h ctx m : same_tables m (snd (guard_of h ctx m)).
Proof.
  destruct (decide (h = HSocketConnect)) as [->|Hh].
  - simpl. unfold try_socket_connect, emit_deny_event.
    repeat break_match; simpl; auto with kernel; done.
  - destruct (guard_judged h ctx m Hh) as [(e & -> & _)|[[-> _]|(a & b & c & -> & _)]];
      simpl; unfold emit_deny_event; auto with kernel; done.
Qed.

Lemma conclude_tables ctx prog e r :
  same_tables (snd r) (snd (conclude ctx prog e r)).
Proof.
  destruct r as [[v|x] m]; simpl; unfold emit_error_event; eauto with kernel.
Qed.

Lemma conclude_counters ctx prog e r :
  ENFORCEMENT_COUNTERS (snd (conclude ctx prog e r)) =
  match ENFORCEMENT_COUNTERS (snd r) !! (cpu ctx, prog) with
  | Some c => <[(cpu ctx, prog) :=
                  bump c (fst (conclude ctx prog e r) =? 0) (negb (is_ok (fst r)))]>
                (ENFORCEMENT_COUNTERS (snd r))
  | None => ENFORCEMENT_COUNTERS (snd r)
  end.
Proof.
  destruct r as [[v|x] m]; simpl; unfold count_decision, emit_error_event, output.
  - by destruct (_ !! _).
  - by destruct (ring_has_room ctx); simpl; destruct (_ !! _).
Qed.

Lemma count_decision_events ctx m prog a e :
  ENFORCEMENT_EVENTS (count_decision ctx m prog a e) = ENFORCEMENT_EVENTS m.
Proof. unfold count_decision. by destruct (ENFORCEMENT_COUNTERS m !! _). Qed.

Lemma guard_counters h ctx m :
  ENFORCEMENT_COUNTERS (snd (guard_of h ctx m)) = ENFORCEMENT_COUNTERS m.
Proof.
  assert (Ho : forall ev, ENFORCEMENT_COUNTERS (output ctx m ev) = ENFORCEMENT_COUNTERS m)
    by (intros; unfold output; by destruct (ring_has_room ctx)).
  destruct (decide (h = HSocketConnect)) as [->|Hh].
  - simpl. unfold try_socket_connect, emit_deny_event. repeat break_match; simpl; auto.
  - destruct (guard_judged h ctx m Hh) as [(e & -> & _)|[[-> _]|(a & b & c & -> & _)]];
      [done..|apply Ho].
Qed.

(** ** Properties *)

(** C3. The eBPF programs implement the reference monitor: whatever the
    caller, the arguments and the kernel memory, an enforcing hook returns 0
    exactly when the monitor permits the request of a confined caller (or the
    caller is not confined), and -1 otherwise; a request whose object cannot be
    read is denied. *)
Theorem hooks_implement_monitor (h : LsmHook) (ctx : Ctx) (m : Maps) :
  h <> HSocketConnect ->
  (monitor_allows h ctx m /\ fst (run_hook h ctx m) = 0) \/
  (~ monitor_allows h ctx m /\ fst (run_hook h ctx m) = -1).
Proof.
  intros Hh. rewrite run_hook_conclude, conclude_fst.
  rewrite <-(monitor_allows_seen h ctx m).
  destruct (guard_judged h ctx (maps_seen h ctx m) Hh)
    as [(e & -> & He)|[(-> & Ha & _)|(a & b & c & -> & Ha & _)]]; simpl; [right|by left|by right].
  split; [by apply unreadable_not_allowed|]. by destruct h.
Qed.

(** Every invocation of a hook, allowed, denied or failed, adds exactly
    one to exactly one counter of its own program on its own CPU (the error
    counter when the object could not be read, otherwise allow for a verdict of
    0 and deny for -1), and leaves the membership, policy, inode and
    communication tables untouched. *)
Theorem hook_accounting (h : LsmHook) (ctx : Ctx) (m : Maps) :
  same_tables m (snd (run_hook h ctx m)) /\
  exists is_error,
    ENFORCEMENT_COUNTERS (snd (run_hook h ctx m)) =
    match ENFORCEMENT_COUNTERS m !! (cpu ctx, prog_of h) with
    | Some c => <[(cpu ctx, prog_of h) := bump c (fst (run_hook h ctx m) =? 0) is_error]>
                  (ENFORCEMENT_COUNTERS m)
    | None => ENFORCEMENT_COUNTERS m
    end /\
    (h <> HSocketConnect -> is_error = unreadable h ctx (maps_seen h ctx m)).
Proof.
  rewrite run_hook_conclude.
  set (m0 := maps_seen h ctx m).
  assert (H0 : same_tables m m0 /\ ENFORCEMENT_COUNTERS m0 = ENFORCEMENT_COUNTERS m).
  { destruct h; try done. split; [apply same_tables_self_test|]. simpl in m0. subst m0.
    unfold maybe_run_self_test. by destruct (negb _). }
  destruct H0 as [H0 Hc0]. split.
  - eauto using same_tables_trans, guard_tables, conclude_tables.
  - exists (negb (is_ok (fst (guard_of h ctx m0)))).
    rewrite conclude_counters, guard_counters, Hc0. split; [done|]. intros Hh.
    destruct (guard_judged h ctx m0 Hh) as [(e & -> & He)|[(-> & _ & He)|(a & b & c & -> & _ & He)]];
      simpl; [done|symmetry; by apply not_true_iff_false..].
Qed.

(** What userspace can observe on the event ring: a denied call appends
    exactly one DENY or ERROR record naming its hook and the caller's process
    when the ring has room, an allowed call of an enforcing hook appends
    nothing, and a full ring loses the record but never the verdict. *)
Theorem hook_reports_denials (h : LsmHook) (ctx : Ctx) (m : Maps) :
  h <> HSocketConnect ->
  if ring_has_room ctx && (fst (run_hook h ctx m) =? -1)
  then exists ev, ENFORCEMENT_EVENTS (snd (run_hook h ctx m)) = (ENFORCEMENT_EVENTS m ++ [ev])%list /\
         ev_hook ev = prog_of h /\ timestamp_ns ev = ktime_ns ctx /\
         pid ev = wrap 32 (Z.shiftr (current_pid_tgid ctx) 32) /\
         (ev_decision ev = DECISION_DENY \/ ev_decision ev = DECISION_ERROR)
  else ENFORCEMENT_EVENTS (snd (run_hook h ctx m)) = ENFORCEMENT_EVENTS m.
Proof.
  intros Hh. rewrite run_hook_conclude.
  set (m0 := maps_seen h ctx m).
  assert (He0 : ENFORCEMENT_EVENTS m0 = ENFORCEMENT_EVENTS m).
  { destruct h; try done. subst m0. simpl. unfold maybe_run_self_test. by destruct (negb _). }
  rewrite <-He0. assert (on_error h = -1) as -> by (by destruct h).
  destruct (guard_judged h ctx m0 Hh) as [(e & -> & _)|[(-> & _)|(a & b & c & -> & _)]];
    cbn [conclude fst snd]; rewrite ?count_decision_events;
    unfold emit_error_event, emit_deny_event, output; destruct (ring_has_room ctx); simpl; try done.
  all: eexists; split_and!; [done..|]; simpl; auto.
Qed.

(** The socket hook is audit only: it never blocks a connection. *)
Theorem socket_connect_never_blocks (ctx : Ctx) (m : Maps) :
  fst (run_hook HSocketConnect ctx m) = 0 /\
  (ring_has_room ctx = true ->
   length (ENFORCEMENT_EVENTS (snd (run_hook HSocketConnect ctx m))) =
   (length (ENFORCEMENT_EVENTS m) + if confined ctx m then 1 else 0))%nat.
Proof.
  rewrite run_hook_conclude. cbn [guard_of prog_of on_error maps_seen].
  unfold try_socket_connect, confined, lookup_caller_zone.
  destruct (ZONE_MEMBERSHIP m !! current_cgroup_id ctx) as [info|].
  - rewrite has_flag_global. destruct (Z.testbit (zflags info) 1);
      cbn [conclude fst snd]; rewrite count_decision_events; (split; [done|]); intros Hr; [lia|].
    unfold emit_deny_event, output. rewrite Hr. simpl. by rewrite length_app.
  - cbn [conclude fst snd]. rewrite count_decision_events. split; [done|]. lia.
Qed.

(** One task moving itself: a [cgroup_attach_task] call from cgroup [c] whose
    destination resolves to cgroup [d] and which the hook lets through. *)
Definition allowed_move (m : Maps) (c d : Z) : Prop :=
  exists ctx kn,
    current_cgroup_id ctx = c /\ arg ctx 0 <> 0 /\
    read_kernel_u64 ctx (arg ctx 0) (CGROUP_KN offsets) = Ok kn /\ kn <> 0 /\
    read_kernel_u64 ctx kn (KERNFS_NODE_ID offsets) = Ok d /\
    fst (cgroup_attach_task ctx m) = 0.

(** The daemon registers every cgroup of a zone with the same flags. *)
Definition uniform_flags (m : Maps) : Prop :=
  forall c d ic id, ZONE_MEMBERSHIP m !! c = Some ic -> ZONE_MEMBERSHIP m !! d = Some id ->
    zone_id ic = zone_id id -> zflags ic = zflags id.

Definition confined_cgroup (m : Maps) (c z : Z) : Prop :=
  exists info, ZONE_MEMBERSHIP m !! c = Some info /\ zone_id info = z /\
    Z.testbit (zflags info) 1 = false.

Lemma allowed_move_same_zone m c d z :
  uniform_flags m -> confined_cgroup m c z -> allowed_move m c d -> confined_cgroup m d z.
Proof.
  intros Hu (info & Hc & Hz & Hf) (ctx & kn & <- & Hp & Hkn & Hkn0 & Hid & Hr).
  assert (Hconf : confined ctx m = Some z) by (unfold confined; by rewrite Hc, Hf, Hz).
  unfold cgroup_attach_task in Hr. rewrite conclude_fst in Hr.
  destruct (guard_judged HCgroupAttach ctx m ltac:(done))
    as [(e & He & _)|[(He & Ha & _)|(a & b & c & He & _)]]; simpl in He; rewrite He in Hr; try done.
  unfold monitor_allows in Ha. rewrite Hconf in Ha. simpl in Ha.
  rewrite (proj2 (Z.eqb_neq _ _) Hp), Hkn, (proj2 (Z.eqb_neq _ _) Hkn0), Hid in Ha. simpl in Ha.
  destruct (ZONE_MEMBERSHIP m !! d) as [di|] eqn:Hd; simpl in Ha; [|done]. injection Ha as Ha.
  exists di. split_and!; [done|done|]. rewrite <-Hf. f_equal. eapply Hu; eauto; congruence.
Qed.

Lemma self_test_kept h ctx m :
  SELF_TEST (snd (run_hook h ctx m)) = SELF_TEST (maps_seen h ctx m).
Proof.
  assert (Ho : forall m ev, SELF_TEST (output ctx m ev) = SELF_TEST m)
    by (intros; unfold output; by destruct (ring_has_room ctx)).
  assert (Hk : forall m p a e, SELF_TEST (count_decision ctx m p a e) = SELF_TEST m)
    by (intros mm p a e; unfold count_decision; by destruct (ENFORCEMENT_COUNTERS mm !! _)).
  rewrite run_hook_conclude. set (m0 := maps_seen h ctx m). clearbody m0.
  assert (Hg : SELF_TEST (snd (guard_of h ctx m0)) = SELF_TEST m0).
  { destruct (decide (h = HSocketConnect)) as [->|Hh].
    - simpl. unfold try_socket_connect. repeat break_match; simpl; auto. apply Ho.
    - destruct (guard_judged h ctx m0 Hh) as [(e & -> & _)|[[-> _]|(a & b & c & -> & _)]];
        [done..|apply Ho]. }
  destruct (guard_of h ctx m0) as [[v|x] m1]; simpl in *; rewrite Hk; [done|].
  unfold emit_error_event. by rewrite Ho.
Qed.

(** C14. A confined task cannot leave its zone through cgroups: along every
    sequence of moves the attach hook lets through, it stays in a registered
    cgroup of its own zone and stays confined. *)
Theorem confined_task_cannot_escape (m : Maps) (c d z : Z) :
  uniform_flags m -> confined_cgroup m c z -> rtc (allowed_move m) c d ->
  confined_cgroup m d z.
Proof.
  intros Hu Hc Hr. revert Hc. induction Hr as [c|c c' d Hm _ IH]; [done|].
  intros Hc. apply IH. by eapply allowed_move_same_zone.
Qed.

(** The offset self test is one-shot: the first [file_open] records the
    cgroup id of the BPF helper beside the one read through the compiled
    offsets (0 when the walk faults), and once a non-zero id is recorded no
    hook changes the record. *)
Theorem self_test_one_shot (h : LsmHook) (ctx : Ctx) (m : Maps) :
  (helper_cgroup_id (SELF_TEST m) <> 0 -> SELF_TEST (snd (run_hook h ctx m)) = SELF_TEST m) /\
  (helper_cgroup_id (SELF_TEST m) = 0 ->
   SELF_TEST (snd (run_hook HFileOpen ctx m)) =
   mkSelfTest (current_cgroup_id ctx)
     (match read_task_cgroup_id ctx (current_task ctx) with Ok id => id | Err _ => 0 end)).
Proof.
  split; intros H0; rewrite self_test_kept.
  - destruct h; try done. simpl. unfold maybe_run_self_test.
    by rewrite (proj2 (Z.eqb_neq _ _) H0).
  - simpl. unfold maybe_run_self_test. by rewrite H0.
Qed.

End Hooks.

Lemma CAPS_table : CAPS = Zone.LINUX_CAPABILITIES.
Proof. reflexivity. Qed.

(** The kernel crate's mask agrees with the validated one: for every list
    the policy layer accepts, both encoders of capability names produce the
    same 64-bit mask. *)
Theorem caps_to_mask_agrees (caps : list string) (mask : Z) :
  Zone.capabilities_to_mask caps = Ok mask -> caps_to_mask caps = mask.
Proof.
  unfold Zone.capabilities_to_mask, caps_to_mask. generalize 0.
  induction caps as [|cap caps IH]; intros m0; cbn [Zone.capabilities_to_mask_from fold_left].
  - by intros [= ->].
  - rewrite CAPS_table. unfold Zone.linux_capability_bit, Zone.canonical_linux_capability_name.
    destruct (Zone.position _ _); [|done]. simpl. intros H. by apply IH.
Qed.

Lemma caps_to_mask_agrees_witness :
  caps_to_mask ["net_admin"; "CAP_SYS_PTRACE"] = 2 ^ 12 + 2 ^ 19.
Proof. apply caps_to_mask_agrees. vm_compute. reflexivity. Defined.

(** ** A concrete kernel *)

(** Cgroup 100 is in zone 1, cgroup 200 in zone 2; inode 7 belongs to zone 2.
    The file at address 4096 has its inode at 8192; the cgroup at 4096 its
    kernfs node at 16384. *)
Definition sample_maps : Maps :=
  mkMaps {[100 := mkInfo 1 0; 101 := mkInfo 1 0; 200 := mkInfo 2 0]}
    {[1 := mkKPolicy 1024 0 0]} {[7 := 2]} ∅ (mkSelfTest 0 0)
    {[(0, PROG_FILE_OPEN) := mkCounters 0 0 0]} [].

Definition sample_memory (addr : Z) : result Z Z :=
  if addr =? 4096 + 32 then Ok 8192
  else if addr =? 8192 + 64 then Ok 7
  else if addr =? 4096 + 256 then Ok 16384
  else if addr =? 16384 + 96 then Ok 101
  else Err (-14).

Definition sample_ctx : Ctx :=
  mkCtx 100 0 (Z.shiftl 42 32) 5 0 (fun _ => 4096) sample_memory true.

Lemma hooks_implement_monitor_witness :
  fst (run_hook offsets_default HFileOpen sample_ctx sample_maps) = -1.
Proof.
  destruct (hooks_implement_monitor offsets_default HFileOpen sample_ctx sample_maps)
    as [[H _]|[_ H]]; [discriminate| |exact H].
  exfalso. vm_compute in H. destruct H as [H|[? H]]; discriminate H.
Defined.

Lemma hook_accounting_witness :
  ENFORCEMENT_COUNTERS (snd (run_hook offsets_default HFileOpen sample_ctx sample_maps))
  = {[(0, PROG_FILE_OPEN) := mkCounters 0 1 0]}.
Proof.
  destruct (hook_accounting offsets_default HFileOpen sample_ctx sample_maps) as (_ & e & H & He).
  rewrite H, (He ltac:(discriminate)). vm_compute. reflexivity.
Defined.

Lemma hook_reports_denials_witness :
  exists ev, ENFORCEMENT_EVENTS (snd (run_hook offsets_default HFileOpen sample_ctx sample_maps)) = [ev]
             /\ pid ev = 42.
Proof.
  destruct (hook_reports_denials offsets_default HFileOpen sample_ctx sample_maps
              ltac:(discriminate)) as (ev & H & _ & _ & Hp & _).
  exists ev. split; [exact H|]. rewrite Hp. vm_compute. reflexivity.
Defined.

Lemma socket_connect_never_blocks_witness :
  length (ENFORCEMENT_EVENTS (snd (run_hook offsets_default HSocketConnect sample_ctx sample_maps))) = 1%nat.
Proof.
  exact (proj2 (socket_connect_never_blocks offsets_default sample_ctx sample_maps) eq_refl).
Defined.

Lemma confined_task_cannot_escape_witness :
  allowed_move offsets_default sample_maps 100 101 /\ confined_cgroup sample_maps 101 1.
Proof.
  assert (Hm : allowed_move offsets_default sample_maps 100 101).
  { exists sample_ctx, 16384. split_and!; try reflexivity; discriminate. }
  split; [exact Hm|].
  apply (confined_task_cannot_escape offsets_default sample_maps 100 101 1).
  - intros c d ic id Hc Hd _. unfold sample_maps in Hc, Hd. simpl in Hc, Hd.
    rewrite !lookup_insert_Some, lookup_singleton_Some in Hc, Hd. naive_solver.
  - exists (mkInfo 1 0). by split_and!.
  - by apply rtc_once.
Defined.

Lemma self_test_one_shot_witness :
  SELF_TEST (snd (run_hook offsets_default HFileOpen sample_ctx sample_maps)) = mkSelfTest 100 0.
Proof.
  exact (proj2 (self_test_one_shot offsets_default HFileOpen sample_ctx sample_maps) eq_refl).
Defined.

End Kernel.
