(* ===== verification/BpfMaps.v ===== *)
(** * BPF maps from userspace

    Models [rauhad/src/backend/linux/maps.rs]: typed access to the BPF maps
    ([MapManager]), the translation of a policy to its kernel record, and the
    walk that collects a rootfs's inodes.  The Linux kernel, its file system
    and the [aya] library are the class [BpfHost]; what is relied on of them is
    [BpfHostLaws]. *)

From stdpp Require Import base gmap strings list fin_maps.
From Stdlib Require Import ZArith Lia.
From S2P Require Import Prelude.
From S2P Require Import RustStr.
From S2P Require Import EnforcerApi.
From S2P Require Import Zone.
From S2P Require Import Kernel.
Import Kernel.
Open Scope Z_scope.

(** ** The host: BPF system calls and the file system *)

Inductive MapError := KeyMissing | SyscallFailed (text : string).

Record Ebpf := mkEbpf {
  maps : Maps;
  program_fds : gmap string Z;
  skipped_hooks : list string
}.

(** [bpf_update present size max]: inserting into a hash map of [size] of [max]
    entries a key that is already there or not.  [bpf_delete present] likewise.
    [host_load]: loading and attaching the eBPF object.  [program_loaded] and
    [fd_alive]: what the health check asks.  [read_dir] lists the entries of a
    directory (an entry can fail), [symlink_metadata] gives inode number and
    whether the entry is a directory. *)
Class BpfHost := {
  bpf_update : bool -> Z -> Z -> result unit string;
  bpf_delete : bool -> result unit MapError;
  host_load : result Ebpf RauhaError;
  num_cpus : nat;
  program_loaded : string -> bool;
  fd_alive : Z -> bool;
  io_text : Z -> string;
  read_dir : string -> result (list (result string string)) string;
  symlink_metadata : string -> result (Z * bool) string
}.

(** Kernel hash maps: an update succeeds when the key exists or there is room,
    a delete succeeds when the key exists and reports a missing key otherwise. *)
Class BpfHostLaws `{BpfHost} := {
  update_ok present size max : present = true \/ size < max -> bpf_update present size max = Ok tt;
  delete_present : bpf_delete true = Ok tt;
  delete_missing : bpf_delete false = Err KeyMissing
}.

Module MapManager.
Section MapManager.
Context `{BpfHost}.

Definition is_present {A} (o : option A) : bool := match o with Some _ => true | None => false end.

(** [map.insert(key, value, 0)] with the error context of the caller. *)
Definition hash_insert {K V} `{Countable K} (max : Z) (what hint : string) (k : K) (v : V)
    (m : gmap K V) : result (gmap K V) RauhaError :=
  match bpf_update (is_present (m !! k)) (Z.of_nat (size m)) max with
  | Ok _ => Ok (<[k := v]> m)
  | Err e => Err (EbpfError (what ++ ": " ++ e) hint)
  end.

(** [match map.remove(key)]: a missing key is success, other failures propagate. *)
Definition hash_remove {K V} `{Countable K} (what : string) (k : K) (m : gmap K V)
  : result (gmap K V) RauhaError :=
  match bpf_delete (is_present (m !! k)) with
  | Ok _ => Ok (delete k m)
  | Err KeyMissing => Ok m
  | Err (SyscallFailed e) => Err (EbpfError (what ++ ": " ++ e) "check BPF map health")
  end.

Definition set_membership (m : Maps) x := mkMaps x (ZONE_POLICY m) (INODE_ZONE_MAP m)
  (ZONE_ALLOWED_COMMS m) (SELF_TEST m) (ENFORCEMENT_COUNTERS m) (ENFORCEMENT_EVENTS m).
Definition set_policy (m : Maps) x := mkMaps (ZONE_MEMBERSHIP m) x (INODE_ZONE_MAP m)
  (ZONE_ALLOWED_COMMS m) (SELF_TEST m) (ENFORCEMENT_COUNTERS m) (ENFORCEMENT_EVENTS m).
Definition set_inodes (m : Maps) x := mkMaps (ZONE_MEMBERSHIP m) (ZONE_POLICY m) x
  (ZONE_ALLOWED_COMMS m) (SELF_TEST m) (ENFORCEMENT_COUNTERS m) (ENFORCEMENT_EVENTS m).
Definition set_comms (m : Maps) x := mkMaps (ZONE_MEMBERSHIP m) (ZONE_POLICY m)
  (INODE_ZONE_MAP m) x (SELF_TEST m) (ENFORCEMENT_COUNTERS m) (ENFORCEMENT_EVENTS m).

Definition zone_member (m : Maps) (cgroup_id : Z) : result (option ZoneInfoKernel) RauhaError :=
  Ok (ZONE_MEMBERSHIP m !! cgroup_id).

Definition member_flags (t : Zone.ZoneType) : Z :=
  match t with
  | Zone.Global => Z.lor 0 ZONE_FLAG_GLOBAL
  | Zone.Privileged => Z.lor 0 ZONE_FLAG_PRIVILEGED
  | Zone.NonGlobal => 0
  end.

Definition add_zone_member (m : Maps) (cgroup_id zone_id : Z) (t : Zone.ZoneType)
  : result Maps RauhaError :=
  let info := mkInfo zone_id (member_flags t) in
  let? x := hash_insert MAX_CGROUPS "failed to insert zone membership"
              "map may be full (check MAX_CGROUPS)" cgroup_id info (ZONE_MEMBERSHIP m) in
  Ok (set_membership m x).

Definition remove_zone_member (m : Maps) (cgroup_id : Z) : result Maps RauhaError :=
  let? x := hash_remove "failed to remove zone membership" cgroup_id (ZONE_MEMBERSHIP m) in
  Ok (set_membership m x).

Definition enforcement_to_kernel (z : Api.ZoneEnforcement) : ZonePolicyKernel :=
  let flags := 0 in
  let flags := if Api.allow_ptrace z then Z.lor flags POLICY_FLAG_ALLOW_PTRACE else flags in
  let flags := if Api.allow_host_net z then Z.lor flags POLICY_FLAG_ALLOW_HOST_NET else flags in
  mkKPolicy (Api.caps_mask z) flags 0.

Definition policy_to_kernel (p : Zone.ZonePolicy) : result ZonePolicyKernel RauhaError :=
  let? e := Zone.to_enforcement p in Ok (enforcement_to_kernel e).

Definition set_zone_policy_kernel (m : Maps) (zone_id : Z) (kp : ZonePolicyKernel)
  : result Maps RauhaError :=
  let? x := hash_insert MAX_ZONES "failed to insert zone policy"
              "map may be full (check MAX_ZONES)" zone_id kp (ZONE_POLICY m) in
  Ok (set_policy m x).

Definition set_zone_policy (m : Maps) (zone_id : Z) (p : Zone.ZonePolicy) : result Maps RauhaError :=
  let? kp := policy_to_kernel p in set_zone_policy_kernel m zone_id kp.

Definition hot_reload_policy (m : Maps) (zone_id : Z) (p : Zone.ZonePolicy) : result Maps RauhaError :=
  set_zone_policy m zone_id p.

Definition remove_zone_policy (m : Maps) (zone_id : Z) : result Maps RauhaError :=
  let? x := hash_remove "failed to remove zone policy" zone_id (ZONE_POLICY m) in
  Ok (set_policy m x).

Definition set_inode_zone (m : Maps) (inode zone_id : Z) : result Maps RauhaError :=
  let? x := hash_insert MAX_INODES "failed to insert inode zone mapping"
              "map may be full (check MAX_INODES)" inode zone_id (INODE_ZONE_MAP m) in
  Ok (set_inodes m x).

Definition inode_zone (m : Maps) (inode : Z) : result (option Z) RauhaError :=
  Ok (INODE_ZONE_MAP m !! inode).

Definition remove_inode_zone (m : Maps) (inode : Z) : result Maps RauhaError :=
  let? x := hash_remove "failed to remove inode ownership" inode (INODE_ZONE_MAP m) in
  Ok (set_inodes m x).

(** Failed inserts are logged and skipped; the inserted inodes are returned. *)
Fixpoint insert_inodes (m : Maps) (inodes : list Z) (zone_id : Z) : list Z * Maps :=
  match inodes with
  | [] => ([], m)
  | ino :: rest =>
      match set_inode_zone m ino zone_id with
      | Err _ => insert_inodes m rest zone_id
      | Ok m' => let '(ins, m'') := insert_inodes m' rest zone_id in (ino :: ins, m'')
      end
  end.

(** Stops at the first failure, keeping what was removed. *)
Fixpoint remove_inodes (m : Maps) (inodes : list Z) (count : Z) : result Z RauhaError * Maps :=
  match inodes with
  | [] => (Ok count, m)
  | ino :: rest =>
      match remove_inode_zone m ino with
      | Err e => (Err e, m)
      | Ok m' => remove_inodes m' rest (wrap 32 (count + 1))
      end
  end.

Definition comm_arrow (src dst : Z) : string := Str.show src ++ " -> " ++ Str.show dst.

Definition allow_zone_comm (m : Maps) (src_zone dst_zone : Z) : result Maps RauhaError :=
  let? x := hash_insert MAX_ZONES ("failed to allow zone comm " ++ comm_arrow src_zone dst_zone)
              "map may be full" (src_zone, dst_zone) 1 (ZONE_ALLOWED_COMMS m) in
  Ok (set_comms m x).

Definition deny_zone_comm (m : Maps) (src_zone dst_zone : Z) : result Maps RauhaError :=
  let? x := hash_remove ("failed to deny zone comm " ++ comm_arrow src_zone dst_zone)
              (src_zone, dst_zone) (ZONE_ALLOWED_COMMS m) in
  Ok (set_comms m x).

(** ** [collect_rootfs_inodes] *)

Record Walk := mkWalk { w_inodes : list Z; w_visited : gset Z; w_stack : list string }.

(** The inner loop over one directory's entries. *)
Fixpoint scan_entries (dir : string) (max_inodes : Z) (entries : list (result string string))
    (w : Walk) : result Walk RauhaError :=
  match entries with
  | [] => Ok w
  | entry :: rest =>
      if max_inodes <=? Z.of_nat (length (w_inodes w))
      then Err (RootfsError ("rootfs inode count exceeds enforcement capacity of "
                              ++ Str.show max_inodes))
      else match entry with
      | Err e => Err (RootfsError ("failed to enumerate rootfs " ++ dir ++ ": " ++ e))
      | Ok path =>
          match symlink_metadata path with
          | Err e => Err (RootfsError ("failed to inspect rootfs entry " ++ path ++ ": " ++ e))
          | Ok (ino, is_dir) =>
              let inodes := (w_inodes w ++ [ino])%list in
              let w' := if is_dir && negb (bool_decide (ino ∈ w_visited w))
                        then mkWalk inodes ({[ino]} ∪ w_visited w) (path :: w_stack w)
                        else mkWalk inodes (w_visited w) (w_stack w) in
              scan_entries dir max_inodes rest w'
          end
      end
  end.

(** [while let Some(dir) = stack.pop()]; [None] when the fuel runs out. *)
Fixpoint walk_dirs (fuel : nat) (max_inodes : Z) (w : Walk) : option (result (list Z) RauhaError) :=
  match w_stack w with
  | [] => Some (Ok (w_inodes w))
  | dir :: stack =>
      match fuel with
      | O => None
      | S fuel' =>
          match read_dir dir with
          | Err e => Some (Err (RootfsError ("failed to read rootfs directory " ++ dir ++ ": " ++ e)))
          | Ok entries =>
              match scan_entries dir max_inodes entries
                      (mkWalk (w_inodes w) (w_visited w) stack) with
              | Err e => Some (Err e)
              | Ok w' => walk_dirs fuel' max_inodes w'
              end
          end
      end
  end.

(** Every directory but the root is pushed after its inode was recorded, so
    [max_inodes + 1] iterations are enough. *)
Definition collect_rootfs_inodes (rootfs_path : string) (max_inodes : Z)
  : option (result (list Z) RauhaError) :=
  walk_dirs (S (Z.to_nat max_inodes)) max_inodes (mkWalk [] ∅ [rootfs_path]).

(** ** Lemmas on the walk *)

Lemma scan_entries_measure dir max entries w w' :
  scan_entries dir max entries w = Ok w' ->
  Z.of_nat (length (w_inodes w)) <= Z.max max (Z.of_nat (length (w_inodes w))) ->
  (length (w_stack w') + length (w_inodes w) <= length (w_stack w) + length (w_inodes w'))%nat /\
  Z.of_nat (length (w_inodes w')) <= Z.max max (Z.of_nat (length (w_inodes w))).
Proof.
  revert w. induction entries as [|e rest IH]; intros w; cbn [scan_entries].
  - intros [= <-]. lia.
  - destruct (Z.leb_spec max (Z.of_nat (length (w_inodes w)))); [done|].
    destruct e as [path|]; [|done]. destruct (symlink_metadata path) as [[ino is_dir]|]; [|done].
    intros Hs _. destruct (is_dir && _); apply IH in Hs; simpl in *;
      rewrite ?length_app in *; simpl in *; lia.
Qed.

Lemma walk_dirs_total fuel max w :
  0 <= max -> Z.of_nat (length (w_inodes w)) <= max ->
  Z.of_nat (length (w_stack w)) + (max - Z.of_nat (length (w_inodes w))) <= Z.of_nat fuel ->
  is_Some (walk_dirs fuel max w).
Proof.
  intros Hmax. revert w. induction fuel as [|fuel IH]; intros w Hle Hf; simpl;
    destruct (w_stack w) as [|dir stack] eqn:Hst; simpl in Hf; try by eexists.
  - lia.
  - destruct (read_dir dir) as [entries|]; [|by eexists].
    destruct (scan_entries dir max entries _) as [w'|] eqn:Hs; [|by eexists].
    apply scan_entries_measure in Hs; simpl in *; [|lia]. apply IH; lia.
Qed.

Lemma walk_dirs_bound fuel max w inodes :
  Z.of_nat (length (w_inodes w)) <= max ->
  walk_dirs fuel max w = Some (Ok inodes) -> Z.of_nat (length inodes) <= max.
Proof.
  revert w. induction fuel as [|fuel IH]; intros w Hle; simpl;
    destruct (w_stack w) as [|dir stack]; try done; try (intros [= <-]; done).
  destruct (read_dir dir) as [entries|]; [|done].
  destruct (scan_entries dir max entries _) as [w'|] eqn:Hs; [|done].
  apply scan_entries_measure in Hs; simpl in *; [|lia]. apply IH. lia.
Qed.

(** Entries in the tree below [root]. *)
Inductive under (root : string) : string -> Prop :=
| under_root entries p : read_dir root = Ok entries -> Ok p ∈ entries -> under root p
| under_dir d i entries p :
    under root d -> symlink_metadata d = Ok (i, true) ->
    read_dir d = Ok entries -> Ok p ∈ entries -> under root p.

(** No directory is reachable under two names (no bind mount of an ancestor or
    second file system reusing an inode number). *)
Definition distinct_dirs : Prop :=
  forall p q i, symlink_metadata p = Ok (i, true) -> symlink_metadata q = Ok (i, true) -> p = q.

Definition visited_known (Q : list string) (w : Walk) : Prop :=
  forall i, i ∈ w_visited w ->
    exists p, symlink_metadata p = Ok (i, true) /\ (p ∈ Q \/ p ∈ w_stack w).

(** Entry [p] is recorded: its inode is in the list, and if it is a directory
    it has been or will be read. *)
Definition recorded (Q : list string) (w : Walk) (p : string) : Prop :=
  exists i b, symlink_metadata p = Ok (i, b) /\ i ∈ w_inodes w /\
    (b = true -> p ∈ Q \/ p ∈ w_stack w).

Definition grows (w w' : Walk) : Prop := w_inodes w ⊆ w_inodes w' /\ w_stack w ⊆ w_stack w'.

Lemma grows_trans w1 w2 w3 : grows w1 w2 -> grows w2 w3 -> grows w1 w3.
Proof. intros [? ?] [? ?]. split; etrans; eauto. Qed.

Lemma recorded_grows Q w w' p : grows w w' -> recorded Q w p -> recorded Q w' p.
Proof. intros [Hi Hs] (i & b & Hm & Hin & Hb). exists i, b. set_solver. Qed.

(** One entry of the inner loop. *)
Definition visit (path : string) (ino : Z) (is_dir : bool) (w : Walk) : Walk :=
  if is_dir && negb (bool_decide (ino ∈ w_visited w))
  then mkWalk (w_inodes w ++ [ino])%list ({[ino]} ∪ w_visited w) (path :: w_stack w)
  else mkWalk (w_inodes w ++ [ino])%list (w_visited w) (w_stack w).

Lemma visit_ok Q path ino is_dir w :
  distinct_dirs -> symlink_metadata path = Ok (ino, is_dir) -> visited_known Q w ->
  recorded Q (visit path ino is_dir w) path /\ visited_known Q (visit path ino is_dir w) /\
  grows w (visit path ino is_dir w).
Proof.
  intros Hd Hm Hv. unfold visit. destruct is_dir; simpl.
  - destruct (bool_decide_reflect (ino ∈ w_visited w)) as [Hin|Hin]; simpl.
    + split_and!.
      * exists ino, true. split_and!; [done|simpl; set_solver|]. intros _. simpl.
        destruct (Hv ino Hin) as (p & Hp & Hq). by rewrite (Hd path p ino Hm Hp).
      * exact Hv.
      * split; simpl; set_solver.
    + split_and!.
      * exists ino, true. split_and!; [done|simpl; set_solver|]. simpl. set_solver.
      * intros i. simpl. rewrite elem_of_union, elem_of_singleton. intros [->|Hi].
        -- exists path. split; [done|]. right. apply elem_of_cons. by left.
        -- destruct (Hv i Hi) as (p & Hp & Hq). exists p. split; [done|]. rewrite elem_of_cons. tauto.
      * split; simpl; set_solver.
  - split_and!.
    + exists ino, false. split_and!; [done|simpl; set_solver|done].
    + exact Hv.
    + split; simpl; set_solver.
Qed.

Lemma scan_entries_complete dir max Q entries w w' :
  distinct_dirs -> visited_known Q w -> scan_entries dir max entries w = Ok w' ->
  (forall p, Ok p ∈ entries -> recorded Q w' p) /\ visited_known Q w' /\ grows w w'.
Proof.
  intros Hd. revert w. induction entries as [|e rest IH]; intros w Hv; cbn [scan_entries].
  - intros [= <-]. split; [intros p []%elem_of_nil|]. by split.
  - destruct (_ <=? _); [done|]. destruct e as [path|]; [|done].
    destruct (symlink_metadata path) as [[ino is_dir]|] eqn:Hm; [|done].
    fold (visit path ino is_dir w). intros Hs.
    destruct (visit_ok Q path ino is_dir w Hd Hm Hv) as (Hr & Hv1 & Hg1).
    destruct (IH _ Hv1 Hs) as (Hrest & Hv2 & Hg2). split; [|split].
    + intros p [[= ->]|Hp]%elem_of_cons; [by eapply recorded_grows|by apply Hrest].
    + done.
    + by eapply grows_trans.
Qed.

(** Directories already read, with all their entries recorded. *)
Definition read_done (Q : list string) (w : Walk) : Prop :=
  forall d, d ∈ Q -> exists entries, read_dir d = Ok entries /\
    forall p, Ok p ∈ entries -> recorded Q w p.

(** With nothing left to read, the whole tree is recorded. *)
Lemma read_done_all Q w root :
  root ∈ Q -> w_stack w = [] -> read_done Q w -> forall p, under root p -> recorded Q w p.
Proof.
  intros Hroot Hst Hdone p Hu. induction Hu as [entries p Hrd Hin|d i entries p Hu IH Hm Hrd Hin].
  - destruct (Hdone root Hroot) as (es & Hes & Hr). apply Hr. congruence.
  - destruct IH as (i' & b & Hm' & _ & Hb). rewrite Hm in Hm'. injection Hm' as <- <-.
    rewrite Hst in Hb. destruct (Hb eq_refl) as [HdQ|[]%elem_of_nil].
    destruct (Hdone d HdQ) as (es & Hes & Hr). apply Hr. congruence.
Qed.

Lemma read_done_step Q dir entries w w' stack :
  w_stack w = dir :: stack -> read_dir dir = Ok entries -> read_done Q w ->
  (forall p, Ok p ∈ entries -> recorded (dir :: Q) w' p) ->
  grows (mkWalk (w_inodes w) (w_visited w) stack) w' -> read_done (dir :: Q) w'.
Proof.
  intros Hst Hrd Hdone Hrec [Hg1 Hg2] d [->|Hin]%elem_of_cons; [by exists entries|].
  destruct (Hdone d Hin) as (es & Hes & Hr). exists es. split; [done|]. intros p Hp.
  destruct (Hr p Hp) as (i & b & Hm & Hi & Hb). exists i, b. split_and!; [done|by apply Hg1|].
  intros Hbt. rewrite elem_of_cons. destruct (Hb Hbt) as [?|Hs]; [tauto|].
  rewrite Hst, elem_of_cons in Hs. destruct Hs as [->|Hs]; [tauto|]. right. by apply Hg2.
Qed.

Lemma walk_dirs_complete fuel max Q w inodes root :
  distinct_dirs -> root ∈ Q \/ root ∈ w_stack w -> read_done Q w -> visited_known Q w ->
  walk_dirs fuel max w = Some (Ok inodes) ->
  forall p, under root p -> exists i b, symlink_metadata p = Ok (i, b) /\ i ∈ inodes.
Proof.
  intros Hd. revert Q w. induction fuel as [|fuel IH]; intros Q w Hroot Hdone Hv; simpl;
    destruct (w_stack w) as [|dir stack] eqn:Hst; try done.
  1,2: intros [= <-]; destruct Hroot as [Hroot|[]%elem_of_nil]; intros p Hp;
    destruct (read_done_all Q w root Hroot Hst Hdone p Hp) as (i & b & ? & ? & _); eauto.
  destruct (read_dir dir) as [entries|] eqn:Hrd; [|done].
  destruct (scan_entries dir max entries _) as [w'|] eqn:Hs; [|done].
  assert (Hv0 : visited_known (dir :: Q) (mkWalk (w_inodes w) (w_visited w) stack)).
  { intros i Hi. destruct (Hv i Hi) as (p & Hp & Hq). exists p. split; [done|].
    rewrite Hst, elem_of_cons in Hq. simpl. rewrite elem_of_cons. tauto. }
  destruct (scan_entries_complete _ _ _ _ _ _ Hd Hv0 Hs) as (Hrec & Hv1 & Hg).
  apply (IH (dir :: Q)); [|by eapply read_done_step|done].
  rewrite elem_of_cons. rewrite elem_of_cons in Hroot.
  destruct Hroot as [?|[?|Hin]]; [tauto..|]. right. by apply Hg.
Qed.

(** ** Properties *)

(** Collecting a rootfs always finishes within its fuel, for every file
    system the host can present, cycles and unreadable entries included. *)
Theorem collect_rootfs_terminates (rootfs_path : string) (max_inodes : Z) :
  0 <= max_inodes -> is_Some (collect_rootfs_inodes rootfs_path max_inodes).
Proof.
  intros Hm. apply walk_dirs_total; [done|simpl; lia|].
  cbn [w_stack w_inodes length]. lia.
Qed.

(** Collection never truncates silently: when it succeeds, the list holds
    at most [max_inodes] inodes and the inode of every entry below the rootfs
    is in it. *)
Theorem collect_rootfs_complete (rootfs_path : string) (max_inodes : Z) (inodes : list Z) :
  0 <= max_inodes -> distinct_dirs ->
  collect_rootfs_inodes rootfs_path max_inodes = Some (Ok inodes) ->
  Z.of_nat (length inodes) <= max_inodes /\
  forall p, under rootfs_path p -> exists i b, symlink_metadata p = Ok (i, b) /\ i ∈ inodes.
Proof.
  intros Hm Hd Hc. split.
  - eapply walk_dirs_bound; [|exact Hc]. simpl. lia.
  - eapply (walk_dirs_complete _ _ []); [done| |  | |exact Hc].
    + right. by apply list_elem_of_singleton.
    + intros d []%elem_of_nil.
    + intros i. simpl. set_solver.
Qed.

End MapManager.

(** ** A concrete host *)

#[local] Instance ideal_host : BpfHost := {|
  bpf_update present size max := if present || (size <? max) then Ok tt else Err "E2BIG";
  bpf_delete present := if present then Ok tt else Err KeyMissing;
  host_load := Err (EbpfError "no object" "");
  num_cpus := 2;
  program_loaded _ := true;
  fd_alive _ := true;
  io_text _ := "io error";
  read_dir d := if String.eqb d "/zones/zone-7/rootfs" then Ok [Ok "/zones/zone-7/rootfs/bin"]
                else if String.eqb d "/zones/zone-7/rootfs/bin"
                then Ok [Ok "/zones/zone-7/rootfs/bin/sh"] else Err "not found";
  symlink_metadata p := if String.eqb p "/zones/zone-7/rootfs/bin" then Ok (10, true)
                        else if String.eqb p "/zones/zone-7/rootfs/bin/sh" then Ok (11, false)
                        else Err "not found"
|}.

#[local] Instance ideal_laws : BpfHostLaws.
Proof.
  split; [|done..]. intros present size max [->|Hlt]; simpl; [done|].
  rewrite (proj2 (Z.ltb_lt _ _) Hlt), orb_true_r. done.
Qed.

Lemma collect_rootfs_terminates_witness :
  is_Some (collect_rootfs_inodes "/zones/zone-7/rootfs" 100).
Proof. apply (collect_rootfs_terminates "/zones/zone-7/rootfs" 100). lia. Defined.

Lemma collect_rootfs_complete_witness :
  collect_rootfs_inodes "/zones/zone-7/rootfs" 100 = Some (Ok [10; 11]) /\
  exists i b, symlink_metadata "/zones/zone-7/rootfs/bin/sh" = Ok (i, b) /\ i ∈ [10; 11].
Proof.
  assert (Hc : collect_rootfs_inodes "/zones/zone-7/rootfs" 100 = Some (Ok [10; 11]))
    by (vm_compute; reflexivity).
  split; [exact Hc|].
  apply (collect_rootfs_complete "/zones/zone-7/rootfs" 100 [10; 11]); [lia| |exact Hc|].
  - intros p q i. cbn [symlink_metadata ideal_host].
    destruct (String.eqb_spec p "/zones/zone-7/rootfs/bin") as [->|];
      destruct (String.eqb_spec q "/zones/zone-7/rootfs/bin") as [->|]; [done| | |];
      repeat match goal with |- context [String.eqb ?a ?b] => destruct (String.eqb a b) end; congruence.
  - apply (under_dir _ "/zones/zone-7/rootfs/bin" 10 [Ok "/zones/zone-7/rootfs/bin/sh"]);
      [|reflexivity|reflexivity|by apply list_elem_of_singleton].
    apply (under_root _ [Ok "/zones/zone-7/rootfs/bin"]);
      [reflexivity|by apply list_elem_of_singleton].
Defined.

End MapManager.
