(* ===== verification/LinuxEnforcer.v ===== *)
(** * The Linux enforcer

    Models [rauhad/src/backend/linux/enforcer.rs], the implementation of the
    enforcement boundary on top of the BPF maps, with the health check and the
    counter reader of [ebpf.rs].  It is proved to meet the boundary's contract
    on every lawful host, and its effects are followed down to the verdicts of
    the kernel hooks. *)

From stdpp Require Import base gmap strings list fin_maps.
From Stdlib Require Import ZArith Lia.
From S2P Require Import Prelude.
From S2P Require Import RustStr.
From S2P Require Import EnforcerApi.
From S2P Require Import Zone.
From S2P Require Import Kernel.
From S2P Require Import BpfMaps.
Import Kernel.
Import MapManager.
Open Scope Z_scope.

Module Linux.
Section Linux.
Context `{BpfHost}.

(** ** State *)

Record LinuxEnforcer := mkLinux {
  ebpf : option Ebpf;
  trait_zones : gmap string (Z * Zone.ZoneType);
  trait_next_zone_id : Z
}.

(** [LinuxEnforcer::new] once the object is loaded. *)
Definition LinuxEnforcer_new (e : Ebpf) : LinuxEnforcer := mkLinux (Some e) ∅ 1.

Definition set_maps (e : Ebpf) (m : Maps) : Ebpf := mkEbpf m (program_fds e) (skipped_hooks e).

(** [with_bpf]: run a map operation on the loaded object. *)
Definition with_bpf (operation : string) (f : Maps -> result Maps RauhaError) (s : LinuxEnforcer)
  : result unit RauhaError * LinuxEnforcer :=
  match ebpf s with
  | None => (Err (EbpfError ("eBPF manager not available during " ++ operation)
                    "restart rauhad after restoring eBPF LSM support"), s)
  | Some e =>
      match f (maps e) with
      | Ok m => (Ok tt, mkLinux (Some (set_maps e m)) (trait_zones s) (trait_next_zone_id s))
      | Err err => (Err err, s)
      end
  end.

(** ** The id-keyed operations [LinuxBackend] drives *)

Definition set_zone_policy (zone_id : Z) (p : Zone.ZonePolicy) :=
  with_bpf "policy enforcement" (fun m => MapManager.set_zone_policy m zone_id p).
Definition hot_reload_policy (zone_id : Z) (p : Zone.ZonePolicy) :=
  with_bpf "policy hot reload" (fun m => MapManager.hot_reload_policy m zone_id p).
Definition apply_zone_enforcement (zone_id : Z) (z : Api.ZoneEnforcement) :=
  with_bpf "zone enforcement"
    (fun m => set_zone_policy_kernel m zone_id (enforcement_to_kernel z)).
Definition add_zone_member (cgroup_id zone_id : Z) (t : Zone.ZoneType) :=
  with_bpf "zone membership" (fun m => MapManager.add_zone_member m cgroup_id zone_id t).
Definition remove_zone_member (cgroup_id : Z) :=
  with_bpf "zone membership cleanup" (fun m => MapManager.remove_zone_member m cgroup_id).
Definition remove_zone_policy (zone_id : Z) :=
  with_bpf "zone policy cleanup" (fun m => MapManager.remove_zone_policy m zone_id).
Definition allow_zone_comm (src dst : Z) :=
  with_bpf "allowed zone communication" (fun m => MapManager.allow_zone_comm m src dst).
Definition deny_zone_comm (src dst : Z) :=
  with_bpf "allowed zone communication cleanup" (fun m => MapManager.deny_zone_comm m src dst).

Definition zone_member_matches (cgroup_id zid : Z) (s : LinuxEnforcer) : result bool RauhaError :=
  match ebpf s with
  | None => Err (EbpfError "eBPF manager not available during membership verification"
                   "restart rauhad after restoring eBPF LSM support")
  | Some e =>
      let? member := MapManager.zone_member (maps e) cgroup_id in
      Ok (match member with Some i => zone_id i =? zid | None => false end)
  end.

Definition insert_inodes (inodes : list Z) (zone_id : Z) (s : LinuxEnforcer)
  : result (list Z) RauhaError * LinuxEnforcer :=
  match ebpf s with
  | None => (Err (EbpfError "eBPF manager not available during rootfs inode registration"
                    "restart rauhad after restoring eBPF LSM support"), s)
  | Some e =>
      let '(ins, m) := MapManager.insert_inodes (maps e) inodes zone_id in
      (Ok ins, mkLinux (Some (set_maps e m)) (trait_zones s) (trait_next_zone_id s))
  end.

Definition remove_inodes (inodes : list Z) (s : LinuxEnforcer)
  : result Z RauhaError * LinuxEnforcer :=
  match ebpf s with
  | None => (Err (EbpfError "eBPF manager not available during rootfs inode cleanup"
                    "restart rauhad after restoring eBPF LSM support"), s)
  | Some e =>
      let '(r, m) := MapManager.remove_inodes (maps e) inodes 0 in
      (r, mkLinux (Some (set_maps e m)) (trait_zones s) (trait_next_zone_id s))
  end.

Definition inodes_match (inodes : list Z) (zone_id : Z) (s : LinuxEnforcer)
  : result bool RauhaError :=
  match ebpf s with
  | None => Err (EbpfError "eBPF manager not available during rootfs inode verification"
                   "restart rauhad after restoring eBPF LSM support")
  | Some e => Ok (forallb (fun i => bool_decide (INODE_ZONE_MAP (maps e) !! i = Some zone_id)) inodes)
  end.

(** ** Health and counters ([ebpf.rs]) *)

Definition LSM_PROGRAMS : list (string * string) := [
  ("rauha_file_open", "file_open");
  ("rauha_bprm_check", "bprm_check_security");
  ("rauha_ptrace_check", "ptrace_access_check");
  ("rauha_task_kill", "task_kill");
  ("rauha_cgroup_attach", "cgroup_attach_task");
  ("rauha_capable", "capable");
  ("rauha_socket_connect", "socket_connect")
].

Record ProgramStatus := mkStatus { ps_name : string; ps_loaded : bool; ps_attached : bool }.

Fixpoint health_check_from (e : Ebpf) (progs : list (string * string)) : list ProgramStatus :=
  match progs with
  | [] => []
  | (name, _) :: rest =>
      match program_fds e !! name with
      | None => health_check_from e rest
      | Some fd =>
          mkStatus name (program_loaded name) ((0 <=? fd) && fd_alive fd)
          :: health_check_from e rest
      end
  end.

Definition health_check (s : LinuxEnforcer) : result (list ProgramStatus) RauhaError :=
  match ebpf s with
  | None => Err (EbpfError "eBPF manager not available during health check"
                   "restart rauhad after restoring eBPF LSM support")
  | Some e => Ok (health_check_from e LSM_PROGRAMS)
  end.

Definition add_counters (a b : EnforcementCounters) : EnforcementCounters :=
  mkCounters (wrap 64 (allow a + allow b)) (wrap 64 (deny a + deny b)) (wrap 64 (error a + error b)).

Definition zero_counters : EnforcementCounters := mkCounters 0 0 0.

(** [map.get(idx)]: one value per CPU. *)
Definition per_cpu (m : Maps) (idx : Z) : list EnforcementCounters :=
  map (fun cpu => default zero_counters (ENFORCEMENT_COUNTERS m !! (Z.of_nat cpu, idx)))
    (seq 0 num_cpus).

Definition sum_counters (l : list EnforcementCounters) : EnforcementCounters :=
  fold_left add_counters l zero_counters.

Definition read_enforcement_counters (s : LinuxEnforcer)
  : result (list (string * EnforcementCounters)) RauhaError :=
  match ebpf s with
  | None => Err (EbpfError "eBPF manager not available while reading counters"
                   "restart rauhad after restoring eBPF LSM support")
  | Some e =>
      Ok (imap (fun idx pn => (fst pn, sum_counters (per_cpu (maps e) (Z.of_nat idx)))) LSM_PROGRAMS)
  end.

(** ** The enforcement boundary *)

Definition capabilities_static : Api.Capabilities :=
  Api.mkCapabilities true
    (list_to_set [Api.FileOpen; Api.BprmCheck; Api.SocketConnect; Api.PtraceAccess;
                  Api.Signal; Api.CgroupAttach]) true true.

Definition zone_type_for (k : Api.ZoneKind) : Zone.ZoneType :=
  match k with
  | Api.Privileged => Zone.Privileged
  | Api.Standard | Api.Isolated => Zone.NonGlobal
  end.

(** [RauhaError]'s [Display], as far as it reaches the boundary: every other
    variant is prefixed the way [error.rs] declares it. *)
Definition display (e : RauhaError) : string :=
  match e with
  | ZoneNotFound n => "zone not found: " ++ n
  | ZoneAlreadyExists n => "zone already exists: " ++ n
  | ContainerNotFound i => "container not found: " ++ i
  | ContainerAlreadyExists n z => "container already exists in zone: " ++ n ++ " in " ++ z
  | ZoneNotEmpty c => "zone is not empty, contains " ++ Str.show c ++ " container(s)"
  | InvalidInput m => "invalid input: " ++ m
  | InvalidPolicy m => "invalid policy: " ++ m
  | BackendError m => "isolation backend error: " ++ m
  | ImageNotFound n => "image not found: " ++ n
  | MetadataError m => "metadata store error: " ++ m
  | ImageError m => "image error: " ++ m
  | PermissionDenied m => "permission denied: " ++ m
  | CrossZoneAccessDenied a b => "cross-zone access denied: " ++ a ++ " -> " ++ b
  | UnsupportedPlatform m => "unsupported platform: " ++ m
  | EbpfError m _ => "eBPF error: " ++ m
  | CgroupError m _ => "cgroup error: " ++ m
  | NamespaceError m _ => "namespace error: " ++ m
  | NetworkError m _ => "network error: " ++ m
  | ImagePullError r m => "image pull error: " ++ r ++ ": " ++ m
  | ContentError m => "content store error: " ++ m
  | ShimError z m => "shim error for zone " ++ z ++ ": " ++ m
  | RootfsError m => "rootfs error: " ++ m
  | ContainerExecError c m => "container exec error for " ++ c ++ ": " ++ m
  | KernelTooOld r f => "kernel too old: requires " ++ r ++ ", found " ++ f
  | Io errno => io_text errno
  | Other m => m
  end.

Definition to_enforcer_error (e : RauhaError) : Api.EnforcerError :=
  match e with
  | EbpfError message _ => Api.Verifier message
  | ZoneNotFound name => Api.Verifier ("zone not found in Rauha metadata: " ++ name)
  | BackendError message => Api.Verifier message
  | other => Api.Verifier (display other)
  end.

Definition lift {A} (r : result A RauhaError * LinuxEnforcer)
  : result A Api.EnforcerError * LinuxEnforcer :=
  (map_err to_enforcer_error (fst r), snd r).

Definition linux_load (s : LinuxEnforcer) : result unit Api.EnforcerError * LinuxEnforcer :=
  match ebpf s with
  | Some _ => (Ok tt, s)
  | None =>
      match host_load with
      | Ok e => (Ok tt, mkLinux (Some e) (trait_zones s) (trait_next_zone_id s))
      | Err err => (Err (to_enforcer_error err), s)
      end
  end.

Definition linux_shutdown (s : LinuxEnforcer) : result unit Api.EnforcerError * LinuxEnforcer :=
  (Ok tt, mkLinux None ∅ (trait_next_zone_id s)).

(** The zone is recorded before its policy reaches the kernel. *)
Definition linux_register_zone (name : string) (p : Api.EnforcementPolicy) (s : LinuxEnforcer)
  : result Z Api.EnforcerError * LinuxEnforcer :=
  match ebpf s with
  | None => (Err Api.NotLoaded, s)
  | Some _ =>
      let zone_type := zone_type_for (Api.kind (Api.zone p)) in
      let '(kernel_id, s1) :=
        match trait_zones s !! name with
        | Some (id, _) =>
            (id, mkLinux (ebpf s) (<[name := (id, zone_type)]> (trait_zones s)) (trait_next_zone_id s))
        | None =>
            let id := trait_next_zone_id s in
            (id, mkLinux (ebpf s) (<[name := (id, zone_type)]> (trait_zones s)) (wrap 32 (id + 1)))
        end in
      match lift (apply_zone_enforcement kernel_id (Api.zone p) s1) with
      | (Ok _, s2) => (Ok kernel_id, s2)
      | (Err e, s2) => (Err e, s2)
      end
  end.

Definition linux_remove_zone (name : string) (drain : bool) (s : LinuxEnforcer)
  : result unit Api.EnforcerError * LinuxEnforcer :=
  match ebpf s with
  | None => (Err Api.NotLoaded, s)
  | Some _ =>
      let s1 := mkLinux (ebpf s) (delete name (trait_zones s)) (trait_next_zone_id s) in
      match trait_zones s !! name with
      | Some (id, _) => lift (remove_zone_policy id s1)
      | None => (Ok tt, s1)
      end
  end.

Definition linux_apply_policy (z : Api.ZoneRef) (p : Api.EnforcementPolicy) (s : LinuxEnforcer)
  : result unit Api.EnforcerError * LinuxEnforcer :=
  match ebpf s with
  | None => (Err Api.NotLoaded, s)
  | Some _ =>
      match try_for_each (fun r =>
              if Api.supports_rule capabilities_static r then Ok tt
              else Err (Api.PolicyUnenforceable (Api.zr_name z) (Api.rule_id r)
                          ("unsupported hook " ++ Api.hook_debug (Api.hook r)))) (Api.rules p) with
      | Err e => (Err e, s)
      | Ok _ => lift (apply_zone_enforcement (Api.kernel_id z) (Api.zone p) s)
      end
  end.

Definition linux_attach_container (z : Api.ZoneRef) (c : string) (cgroup_id : Z) (s : LinuxEnforcer)
  : result unit Api.EnforcerError * LinuxEnforcer :=
  let zone_type := match trait_zones s !! Api.zr_name z with
                   | Some (_, t) => t
                   | None => Zone.NonGlobal
                   end in
  lift (add_zone_member cgroup_id (Api.kernel_id z) zone_type s).

Definition linux_detach_container (c : string) (cgroup_id : Z) (s : LinuxEnforcer)
  : result unit Api.EnforcerError * LinuxEnforcer :=
  lift (remove_zone_member cgroup_id s).

Definition linux_register_host_path (z : Api.ZoneRef) (path : string) (recursive : bool)
    (s : LinuxEnforcer) : result Z Api.EnforcerError * LinuxEnforcer :=
  match collect_rootfs_inodes path MAX_INODES with
  | Some (Ok inodes) =>
      match lift (insert_inodes inodes (Api.kernel_id z) s) with
      | (Ok ins, s') => (Ok (wrap 32 (Z.of_nat (length ins))), s')
      | (Err e, s') => (Err e, s')
      end
  | Some (Err e) => (Err (to_enforcer_error e), s)
  | None => (Err (Api.Verifier "unreachable: the walk terminates"), s)
  end.

Definition both (f : Z -> Z -> LinuxEnforcer -> result unit RauhaError * LinuxEnforcer)
    (a b : Api.ZoneRef) (s : LinuxEnforcer) : result unit Api.EnforcerError * LinuxEnforcer :=
  match lift (f (Api.kernel_id a) (Api.kernel_id b) s) with
  | (Err e, s1) => (Err e, s1)
  | (Ok _, s1) => lift (f (Api.kernel_id b) (Api.kernel_id a) s1)
  end.

Definition linux_allow_comm := both allow_zone_comm.
Definition linux_deny_comm := both deny_zone_comm.

Definition linux_stats (z : Api.ZoneRef) (s : LinuxEnforcer)
  : result Api.EnforcementStats Api.EnforcerError * LinuxEnforcer :=
  (match read_enforcement_counters s with
   | Err e => Err (to_enforcer_error e)
   | Ok l =>
       let t := sum_counters (map snd l) in
       Ok (Api.mkStats (allow t) (deny t) (error t))
   end, s).

Definition linux_verify (z : Api.ZoneRef) (p : Api.EnforcementPolicy) (s : LinuxEnforcer)
  : result Api.VerifyReport Api.EnforcerError * LinuxEnforcer :=
  (match health_check s with
   | Err e => Err (to_enforcer_error e)
   | Ok statuses =>
       let inactive :=
         map (fun st => Api.mkDiscrepancy Api.HookInactive None
                          ("program " ++ ps_name st ++ " is not loaded and attached"))
           (List.filter (fun st => negb (ps_loaded st) || negb (ps_attached st)) statuses) in
       let unsupported :=
         map (fun r => Api.mkDiscrepancy Api.RuleUnsupported (Some (Api.rule_id r))
                         ("rule RuleId(" ++ Str.show (Api.rule_id r) ++ ") is unsupported"))
           (List.filter (fun r => negb (Api.supports_rule capabilities_static r)) (Api.rules p)) in
       let ds := (inactive ++ unsupported)%list in
       Ok (Api.mkReport (match ds with [] => true | _ => false end) ds)
   end, s).

#[export] Instance LinuxBackend : Api.EnforcerBackend LinuxEnforcer := {
  Api.load := linux_load;
  Api.shutdown := linux_shutdown;
  Api.register_zone := linux_register_zone;
  Api.remove_zone := linux_remove_zone;
  Api.apply_policy := linux_apply_policy;
  Api.attach_container := linux_attach_container;
  Api.detach_container := linux_detach_container;
  Api.register_host_path := linux_register_host_path;
  Api.allow_comm := linux_allow_comm;
  Api.deny_comm := linux_deny_comm;
  Api.stats := linux_stats;
  Api.verify := linux_verify;
  Api.capabilities := fun _ => capabilities_static
}.

(** ** Lemmas *)

Context `{!BpfHostLaws}.

Lemma hash_insert_ok {K V} `{Countable K} max what hint (k : K) (v : V) m :
  is_Some (m !! k) \/ Z.of_nat (size m) < max ->
  hash_insert max what hint k v m = Ok (<[k := v]> m).
Proof.
  intros Hr. unfold hash_insert. rewrite update_ok; [done|].
  destruct Hr as [[x ->]|]; [by left|by right].
Qed.

Lemma hash_insert_inv {K V} `{Countable K} max what hint (k : K) (v : V) m m' :
  hash_insert max what hint k v m = Ok m' -> m' = <[k := v]> m.
Proof. unfold hash_insert. destruct (bpf_update _ _ _); [|done]. by intros [= <-]. Qed.

Lemma hash_remove_ok {K V} `{Countable K} what (k : K) (m : gmap K V) :
  hash_remove what k m = Ok (delete k m).
Proof.
  unfold hash_remove. destruct (m !! k) eqn:Hk; simpl.
  - by rewrite delete_present.
  - rewrite delete_missing. by rewrite delete_id.
Qed.

Lemma size_insert_le {K V} `{Countable K} (k : K) (v : V) (m : gmap K V) :
  Z.of_nat (size (<[k := v]> m)) <= Z.of_nat (size m) + 1.
Proof.
  destruct (m !! k) eqn:Hk.
  - rewrite map_size_insert_Some by (by eexists). lia.
  - rewrite map_size_insert_None by done. lia.
Qed.

Lemma size_delete_le {K V} `{Countable K} (k : K) (m : gmap K V) :
  Z.of_nat (size (delete k m)) <= Z.of_nat (size m).
Proof.
  destruct (m !! k) eqn:Hk.
  - rewrite map_size_delete_Some by (by eexists). lia.
  - rewrite delete_id by done. lia.
Qed.

(** Room for [n] more zones and cgroups, every attached program healthy. *)
Definition room (n : nat) (e : Ebpf) : Prop :=
  Z.of_nat (size (ZONE_POLICY (maps e))) + Z.of_nat n <= MAX_ZONES /\
  Z.of_nat (size (ZONE_MEMBERSHIP (maps e))) + Z.of_nat n <= MAX_CGROUPS /\
  Forall (fun st => ps_loaded st = true /\ ps_attached st = true) (health_check_from e LSM_PROGRAMS).

Lemma health_check_set_maps e m progs :
  health_check_from (set_maps e m) progs = health_check_from e progs.
Proof. induction progs as [|[n h] progs IH]; simpl; [done|]. destruct (_ !! n); by rewrite IH. Qed.

Lemma room_set_maps n k e m :
  room k e ->
  Z.of_nat (size (ZONE_POLICY m)) + Z.of_nat n <= Z.of_nat (size (ZONE_POLICY (maps e))) + Z.of_nat k ->
  Z.of_nat (size (ZONE_MEMBERSHIP m)) + Z.of_nat n
    <= Z.of_nat (size (ZONE_MEMBERSHIP (maps e))) + Z.of_nat k ->
  room n (set_maps e m).
Proof.
  intros (Hp & Hm & Hh) H1 H2. unfold room. rewrite health_check_set_maps.
  cbn [set_maps maps]. split_and!; [lia|lia|done].
Qed.

Lemma apply_zone_enforcement_ok n id z s e :
  ebpf s = Some e -> room (S n) e ->
  exists e', apply_zone_enforcement id z s = (Ok tt, mkLinux (Some e') (trait_zones s) (trait_next_zone_id s))
    /\ room n e'.
Proof.
  intros He Hr. unfold apply_zone_enforcement, with_bpf. rewrite He.
  unfold set_zone_policy_kernel. rewrite hash_insert_ok by (right; destruct Hr; lia).
  eexists. split; [done|].
  pose proof (size_insert_le id (enforcement_to_kernel z) (ZONE_POLICY (maps e))).
  eapply room_set_maps; [exact Hr|simpl; lia..].
Qed.

Lemma add_zone_member_ok n cg id t s e :
  ebpf s = Some e -> room (S n) e ->
  exists e', add_zone_member cg id t s = (Ok tt, mkLinux (Some e') (trait_zones s) (trait_next_zone_id s))
    /\ room n e'.
Proof.
  intros He Hr. unfold add_zone_member, with_bpf. rewrite He.
  unfold MapManager.add_zone_member. rewrite hash_insert_ok by (right; destruct Hr as (_ & ? & _); lia).
  eexists. split; [done|].
  pose proof (size_insert_le cg (mkInfo id (member_flags t)) (ZONE_MEMBERSHIP (maps e))).
  eapply room_set_maps; [exact Hr|simpl; lia..].
Qed.

Lemma insert_inodes_tables m inodes z ins m' :
  MapManager.insert_inodes m inodes z = (ins, m') ->
  ZONE_POLICY m' = ZONE_POLICY m /\ ZONE_MEMBERSHIP m' = ZONE_MEMBERSHIP m.
Proof.
  revert m ins m'. induction inodes as [|i rest IH]; intros m ins m'; simpl; [by intros [= <- <-]|].
  unfold set_inode_zone.
  destruct (hash_insert _ _ _ i z (INODE_ZONE_MAP m)) as [x|]; [|by apply IH].
  destruct (MapManager.insert_inodes (set_inodes m x) rest z) as [ins1 m1] eqn:Hr.
  intros [= <- <-]. by apply IH in Hr as [-> ->].
Qed.

Lemma healthy_no_discrepancy l :
  Forall (fun st => ps_loaded st = true /\ ps_attached st = true) l ->
  List.filter (fun st => negb (ps_loaded st) || negb (ps_attached st)) l = [].
Proof. induction 1 as [|st l [H1 H2] _ IH]; simpl; [done|]. by rewrite H1, H2. Qed.

Lemma supported_no_discrepancy rs :
  Forall (fun r => Api.supports_rule capabilities_static r = true) rs ->
  List.filter (fun r => negb (Api.supports_rule capabilities_static r)) rs = [].
Proof. induction 1 as [|r rs Hr _ IH]; cbn [List.filter]; [done|]. by rewrite Hr. Qed.

Lemma supported_accepted name rs :
  Forall (fun r => Api.supports_rule capabilities_static r = true) rs ->
  try_for_each (fun r =>
    if Api.supports_rule capabilities_static r then Ok tt
    else Err (Api.PolicyUnenforceable name (Api.rule_id r)
                ("unsupported hook " ++ Api.hook_debug (Api.hook r)))) rs = Ok tt.
Proof.
  intros Hs. apply try_for_each_ok. eapply Forall_impl; [exact Hs|].
  intros r Hr. cbn beta. by rewrite Hr.
Qed.

#[global] Program Instance LinuxContract : Api.EnforcerContract LinuxEnforcer := {|
  Api.ready s := exists e, (ebpf s = Some e \/ ebpf s = None /\ host_load = Ok e) /\ room 3 e;
  Api.budget n s := exists e, ebpf s = Some e /\ room n e;
  Api.known z s := exists t, trait_zones s !! Api.zr_name z = Some (Api.kernel_id z, t);
  Api.claimable p s := exists inodes, collect_rootfs_inodes p MAX_INODES = Some (Ok inodes)
|}.
Next Obligation.
  intros s (e & He & Hr). simpl. unfold linux_load.
  destruct He as [He|[He Hl]]; rewrite He; [|rewrite Hl]; eexists; (split; [done|]); eauto.
Qed.
Next Obligation.
  intros n name p s (e & He & Hr) _. simpl. unfold linux_register_zone. rewrite He.
  destruct (trait_zones s !! name) as [[id t]|] eqn:Hz; cbv zeta;
    match goal with |- context [apply_zone_enforcement ?i ?z ?s1] =>
      destruct (apply_zone_enforcement_ok n i z s1 e eq_refl Hr) as (e' & -> & Hr') end;
    simpl; do 2 eexists; (split; [done|]); (split; [by eauto|]); (split; [|by eauto]);
    eexists; simpl; by rewrite lookup_insert_eq.
Qed.
Next Obligation.
  intros n z p s (e & He & Hr) Hk Hs. simpl. unfold linux_apply_policy.
  rewrite He, supported_accepted by exact Hs.
  destruct (apply_zone_enforcement_ok n (Api.kernel_id z) (Api.zone p) s e He Hr) as (e' & -> & Hr').
  eexists. split; [done|]. simpl. eauto.
Qed.
Next Obligation.
  intros n z c cg s (e & He & Hr) Hk. simpl. unfold linux_attach_container.
  match goal with |- context [add_zone_member ?i ?j ?t s] =>
    destruct (add_zone_member_ok n i j t s e He Hr) as (e' & -> & Hr') end.
  eexists. split; [done|]. simpl. eauto.
Qed.
Next Obligation.
  intros n z p rec s (e & He & Hr) Hk (inodes & Hc). simpl. unfold linux_register_host_path.
  rewrite Hc. unfold insert_inodes. rewrite He.
  destruct (MapManager.insert_inodes (maps e) inodes (Api.kernel_id z)) as [ins m] eqn:Hi.
  apply insert_inodes_tables in Hi as [Hp Hm]. simpl. do 2 eexists. split; [done|].
  split; [|done]. eexists. split; [done|].
  eapply room_set_maps; [exact Hr|rewrite ?Hp, ?Hm; lia..].
Qed.
Next Obligation.
  intros n z s (e & He & Hr) Hk. simpl. unfold linux_stats, read_enforcement_counters.
  rewrite He. do 2 eexists. split; [done|]. eauto.
Qed.
Next Obligation.
  intros n z p s (e & He & Hr) Hk Hs. simpl. unfold linux_verify, health_check. rewrite He.
  rewrite healthy_no_discrepancy by apply Hr. rewrite supported_no_discrepancy by exact Hs.
  eexists. split; [done|]. eauto.
Qed.
Next Obligation.
  intros n z c cg s (e & He & Hr) Hk. simpl. unfold linux_detach_container, remove_zone_member, with_bpf.
  rewrite He. unfold MapManager.remove_zone_member. rewrite hash_remove_ok.
  eexists. split; [done|]. split; [|done]. eexists. split; [done|].
  pose proof (size_delete_le cg (ZONE_MEMBERSHIP (maps e))).
  eapply room_set_maps; [exact Hr|simpl; lia..].
Qed.
Next Obligation.
  intros n z s (e & He & Hr) (t & Hk). simpl. unfold linux_remove_zone. rewrite He, Hk.
  unfold remove_zone_policy, with_bpf. simpl. unfold MapManager.remove_zone_policy.
  rewrite hash_remove_ok. eexists. split; [done|]. eexists. split; [done|].
  pose proof (size_delete_le (Api.kernel_id z) (ZONE_POLICY (maps e))).
  eapply room_set_maps; [exact Hr|simpl; lia..].
Qed.
Next Obligation. intros n s _. by eexists. Qed.

(** ** Counters *)

Definition Zsum {A} (g : A -> Z) (l : list A) : Z := foldr (fun x acc => g x + acc) 0 l.

Lemma Zsum_ext {A} (g g' : A -> Z) l : (forall x, x ∈ l -> g x = g' x) -> Zsum g l = Zsum g' l.
Proof.
  induction l as [|x l IH]; intros Hext; simpl; [done|].
  rewrite (Hext x), IH; [done|intros; apply Hext; by right|by left].
Qed.

(** Updating one summand. *)
Lemma Zsum_update {A} (g g' : A -> Z) (l : list A) (x : A) :
  NoDup l -> x ∈ l -> (forall y, y ∈ l -> y <> x -> g' y = g y) ->
  Zsum g' l = Zsum g l + (g' x - g x).
Proof.
  induction 1 as [|y l Hy Hnd IH]; [by intros ?%elem_of_nil|].
  intros [->|Hx]%elem_of_cons Hext; simpl.
  - rewrite (Zsum_ext g' g l); [lia|]. intros z Hz. apply Hext; [by right|]. by intros ->.
  - rewrite IH, (Hext y); [lia|by left|by intros ->|done|]. intros z Hz. apply Hext. by right.
Qed.

(** The three components of a counter record. *)
Definition component (f : EnforcementCounters -> Z) : Prop := f = allow \/ f = deny \/ f = error.

Lemma component_add f a b : component f -> f (add_counters a b) = wrap 64 (f a + f b).
Proof. by intros [-> |[-> | ->]]. Qed.

Lemma fold_counters f l acc :
  component f -> in_width 64 (f acc) ->
  f (fold_left add_counters l acc) = wrap 64 (f acc + Zsum f l).
Proof.
  intros Hf. revert acc. induction l as [|c l IH]; intros acc Hacc; simpl.
  - rewrite Z.add_0_r, Zone.wrap_small; done.
  - rewrite IH, component_add by (rewrite ?component_add by done; try done; apply Z.mod_pos_bound; lia).
    unfold wrap. rewrite Zplus_mod_idemp_l. f_equal. lia.
Qed.

Lemma sum_counters_component f l : component f -> f (sum_counters l) = wrap 64 (Zsum f l).
Proof.
  intros Hf. unfold sum_counters. rewrite fold_counters; [|done|].
  - by destruct Hf as [-> |[-> | ->]].
  - destruct Hf as [-> |[-> | ->]]; unfold in_width; simpl; lia.
Qed.

Definition cell (m : Maps) (idx : Z) (c : nat) : EnforcementCounters :=
  default zero_counters (ENFORCEMENT_COUNTERS m !! (Z.of_nat c, idx)).

Definition grand_total (f : EnforcementCounters -> Z) (m : Maps) : Z :=
  Zsum (fun idx => Zsum (fun c => f (cell m (Z.of_nat idx) c)) (seq 0 num_cpus)) (seq 0 7).

Lemma Zsum_wrap {A} (g : A -> Z) l : wrap 64 (Zsum (fun x => wrap 64 (g x)) l) = wrap 64 (Zsum g l).
Proof.
  unfold wrap. induction l as [|x l IH]; simpl; [done|].
  rewrite Zplus_mod_idemp_l, <-Zplus_mod_idemp_r, IH, Zplus_mod_idemp_r. done.
Qed.

Lemma Zsum_map {A B} (h : A -> B) (g : B -> Z) l : Zsum g (map h l) = Zsum (fun x => g (h x)) l.
Proof. induction l as [|x l IH]; simpl; [done|]. by rewrite IH. Qed.

Definition stats_of (m : Maps) : EnforcementCounters :=
  sum_counters (map (fun idx => sum_counters (per_cpu m (Z.of_nat idx))) (seq 0 7)).

Lemma stats_of_component f m : component f -> f (stats_of m) = wrap 64 (grand_total f m).
Proof.
  intros Hf. unfold stats_of, grand_total. rewrite sum_counters_component, Zsum_map by done.
  rewrite <-(Zsum_wrap (fun idx => Zsum _ _)). f_equal. apply Zsum_ext. intros idx _.
  rewrite sum_counters_component by done. unfold per_cpu. by rewrite Zsum_map.
Qed.

(** Replacing the record of one CPU and program. *)
Lemma grand_total_insert f m m' (c : nat) (p : nat) old new :
  (c < num_cpus)%nat -> (p < 7)%nat ->
  ENFORCEMENT_COUNTERS m !! (Z.of_nat c, Z.of_nat p) = Some old ->
  ENFORCEMENT_COUNTERS m' = <[(Z.of_nat c, Z.of_nat p) := new]> (ENFORCEMENT_COUNTERS m) ->
  grand_total f m' = grand_total f m + (f new - f old).
Proof.
  intros Hc Hp Hold Hnew. unfold grand_total.
  assert (Hcell : forall idx k, (idx, k) <> (p, c) -> cell m' (Z.of_nat idx) k = cell m (Z.of_nat idx) k).
  { intros idx k Hne. unfold cell. rewrite Hnew, lookup_insert_ne; [done|].
    intros [= H1 H2]. apply Hne. f_equal; lia. }
  rewrite (Zsum_update (fun idx => Zsum (fun c => f (cell m (Z.of_nat idx) c)) (seq 0 num_cpus)) _ _ p);
    [|apply NoDup_seq|apply elem_of_seq; lia|].
  - rewrite (Zsum_update (fun c => f (cell m (Z.of_nat p) c)) (fun c => f (cell m' (Z.of_nat p) c)) _ c);
      [|apply NoDup_seq|apply elem_of_seq; lia|].
    + unfold cell at 3 4. rewrite Hnew, lookup_insert_eq, Hold. simpl. lia.
    + intros y _ Hy. by rewrite Hcell by congruence.
  - intros idx _ Hidx. apply Zsum_ext. intros k _. by rewrite Hcell by congruence.
Qed.

Lemma stats_of_bump m m' (c p : nat) old a e :
  (c < num_cpus)%nat -> (p < 7)%nat ->
  ENFORCEMENT_COUNTERS m !! (Z.of_nat c, Z.of_nat p) = Some old ->
  ENFORCEMENT_COUNTERS m' = <[(Z.of_nat c, Z.of_nat p) := bump old a e]> (ENFORCEMENT_COUNTERS m) ->
  stats_of m' = bump (stats_of m) a e.
Proof.
  intros Hc Hp Hold Hnew.
  assert (Hf : forall f, component f ->
            f (stats_of m') = wrap 64 (f (stats_of m) + (f (bump old a e) - f old))).
  { intros f Hf. rewrite !stats_of_component by done.
    rewrite (grand_total_insert f m m' c p old (bump old a e)) by done.
    unfold wrap. by rewrite Zplus_mod_idemp_l. }
  assert (Hw : forall f, component f -> wrap 64 (f (stats_of m)) = f (stats_of m)).
  { intros f Hfc. rewrite stats_of_component by done. unfold wrap. by rewrite Zmod_mod. }
  assert (Hone : forall f x, component f ->
            wrap 64 (f (stats_of m) + (wrap 64 (x + 1) - x)) = wrap 64 (f (stats_of m) + 1)).
  { intros f x _. unfold wrap. rewrite Zplus_mod, Zminus_mod, Zmod_mod, <-Zminus_mod, <-Zplus_mod.
    f_equal. lia. }
  assert (component allow /\ component deny /\ component error) as (Ca & Cd & Ce)
    by (unfold component; tauto).
  pose proof (Hf allow Ca) as Ha. pose proof (Hf deny Cd) as Hd. pose proof (Hf error Ce) as He.
  assert (Hzero : forall f x, component f -> wrap 64 (f (stats_of m) + (x - x)) = f (stats_of m))
    by (intros f x Hfc; rewrite Z.sub_diag, Z.add_0_r; by apply Hw).
  destruct (stats_of m') as [a' d' e'] eqn:Hs'. unfold bump in *.
  destruct e; [|destruct a]; cbn [allow deny error] in Ha, Hd, He;
    first [rewrite Hone in Ha by done|rewrite Hzero in Ha by done];
    first [rewrite Hone in Hd by done|rewrite Hzero in Hd by done];
    first [rewrite Hone in He by done|rewrite Hzero in He by done]; congruence.
Qed.

(** ** Properties *)

Definition rerun (s : LinuxEnforcer) (e : Ebpf) (m : Maps) : LinuxEnforcer :=
  mkLinux (Some (set_maps e m)) (trait_zones s) (trait_next_zone_id s).

Lemma linux_stats_eq z s e :
  ebpf s = Some e ->
  linux_stats z s = (Ok (Api.mkStats (allow (stats_of (maps e))) (deny (stats_of (maps e)))
                           (error (stats_of (maps e)))), s).
Proof. intros He. unfold linux_stats, read_enforcement_counters. by rewrite He. Qed.

Lemma linux_conformance s e inodes :
  ebpf s = Some e -> room 3 e ->
  collect_rootfs_inodes "/zones/zone-7/rootfs" MAX_INODES = Some (Ok inodes) ->
  exists s', Api.run_basic_conformance s = Some s'.
Proof.
  intros He Hr Hc. apply Api.conformance_from_contract; simpl; eauto.
Qed.

Lemma with_bpf_inv op f s s' :
  with_bpf op f s = (Ok tt, s') ->
  exists e m, ebpf s = Some e /\ f (maps e) = Ok m /\ s' = rerun s e m.
Proof.
  unfold with_bpf. destruct (ebpf s) as [e|] eqn:He; [|done].
  destruct (f (maps e)) as [m|] eqn:Hf; [|done]. intros [= <-]. by exists e, m.
Qed.

Lemma comm_step op f (key : Z * Z) g s s1 e :
  ebpf s = Some e ->
  (forall m m', f m = Ok m' -> ZONE_ALLOWED_COMMS m' = g key (ZONE_ALLOWED_COMMS m)) ->
  with_bpf op f s = (Ok tt, s1) ->
  exists e1, ebpf s1 = Some e1 /\
    ZONE_ALLOWED_COMMS (maps e1) = g key (ZONE_ALLOWED_COMMS (maps e)).
Proof.
  intros He Hg (e0 & m & He0 & Hf & ->)%with_bpf_inv. rewrite He in He0. injection He0 as <-.
  eexists. split; [done|]. simpl. by apply Hg.
Qed.

Definition comm_effect (f : Z -> Z -> LinuxEnforcer -> result unit RauhaError * LinuxEnforcer)
    (g : Z * Z -> gmap (Z * Z) Z -> gmap (Z * Z) Z) : Prop :=
  forall u v s s1 e, ebpf s = Some e -> f u v s = (Ok tt, s1) ->
    exists e1, ebpf s1 = Some e1 /\
      ZONE_ALLOWED_COMMS (maps e1) = g (u, v) (ZONE_ALLOWED_COMMS (maps e)).

Lemma allow_zone_comm_inv : comm_effect allow_zone_comm (fun k m => <[k := 1]> m).
Proof.
  intros u v s s1 e He. apply comm_step; [done|]. intros m m'. unfold MapManager.allow_zone_comm.
  destruct (hash_insert _ _ _ _ _ _) as [t|] eqn:Ht; [|done].
  apply hash_insert_inv in Ht as ->. by intros [= <-].
Qed.

Lemma deny_zone_comm_inv : comm_effect deny_zone_comm (fun k m => delete k m).
Proof.
  intros u v s s1 e He. apply comm_step; [done|]. intros m m'. unfold MapManager.deny_zone_comm.
  rewrite hash_remove_ok. by intros [= <-].
Qed.

Lemma both_comms f g a b s s' e e' :
  comm_effect f g -> ebpf s = Some e -> ebpf s' = Some e' -> both f a b s = (Ok tt, s') ->
  ZONE_ALLOWED_COMMS (maps e') =
  g (Api.kernel_id b, Api.kernel_id a) (g (Api.kernel_id a, Api.kernel_id b) (ZONE_ALLOWED_COMMS (maps e))).
Proof.
  intros Hf He He'. unfold both, lift.
  destruct (f (Api.kernel_id a) (Api.kernel_id b) s) as [[[]|] s1] eqn:H1; simpl; [|done].
  destruct (Hf _ _ _ _ _ He H1) as (e1 & He1 & Hc1).
  destruct (f (Api.kernel_id b) (Api.kernel_id a) s1) as [[[]|] s2] eqn:H2; simpl; [|done].
  intros [= <-]. destruct (Hf _ _ _ _ _ He1 H2) as (e2 & He2 & Hc2).
  rewrite He' in He2. injection He2 as <-. by rewrite Hc2, Hc1.
Qed.

Lemma maps_seen_counters offs h ctx m :
  ENFORCEMENT_COUNTERS (maps_seen offs h ctx m) = ENFORCEMENT_COUNTERS m.
Proof. destruct h; try done. simpl. unfold maybe_run_self_test. by destruct (negb _). Qed.

Lemma insert_inodes_owned m inodes z ins m' :
  MapManager.insert_inodes m inodes z = (ins, m') ->
  (forall i, i ∈ ins -> INODE_ZONE_MAP m' !! i = Some z) /\
  (forall i, i ∉ ins -> INODE_ZONE_MAP m' !! i = INODE_ZONE_MAP m !! i) /\
  ZONE_ALLOWED_COMMS m' = ZONE_ALLOWED_COMMS m.
Proof.
  revert m ins m'. induction inodes as [|i rest IH]; intros m ins m'; simpl.
  - intros [= <- <-]. split_and!; [intros i []%elem_of_nil|done|done].
  - unfold set_inode_zone.
    destruct (hash_insert _ _ _ i z (INODE_ZONE_MAP m)) as [x|] eqn:Hx; [|by apply IH].
    apply hash_insert_inv in Hx as ->.
    destruct (MapManager.insert_inodes _ rest z) as [ins1 m1] eqn:Hr.
    intros [= <- <-]. apply IH in Hr as (H1 & H2 & H3). simpl in H2, H3. split_and!; [| |done].
    + intros j [->|Hj]%elem_of_cons; [|by apply H1].
      destruct (decide (i ∈ ins1)); [by apply H1|]. rewrite H2 by done. by rewrite lookup_insert_eq.
    + intros j [Hne Hj]%not_elem_of_cons. rewrite H2 by done. by rewrite lookup_insert_ne.
Qed.

Lemma insert_inodes_all m inodes z ins m' :
  Z.of_nat (size (INODE_ZONE_MAP m)) + Z.of_nat (length inodes) <= MAX_INODES ->
  MapManager.insert_inodes m inodes z = (ins, m') -> ins = inodes.
Proof.
  revert m ins m'. induction inodes as [|i rest IH]; intros m ins m' Hs; simpl; [by intros [= <- _]|].
  unfold set_inode_zone. cbn [length] in Hs. rewrite hash_insert_ok by (right; lia).
  destruct (MapManager.insert_inodes _ rest z) as [ins1 m1] eqn:Hr. intros [= <- _].
  f_equal. eapply IH; [|exact Hr]. simpl.
  pose proof (size_insert_le i z (INODE_ZONE_MAP m)). lia.
Qed.

Lemma policy_to_kernel_caps p kp :
  policy_to_kernel p = Ok kp ->
  forall i, Z.testbit (kcaps_mask kp) i = true <->
    exists cap, cap ∈ Zone.cap_allowed (Zone.capabilities p) /\ Zone.linux_capability_bit cap = Some i.
Proof.
  unfold policy_to_kernel, Zone.to_enforcement.
  destruct (Zone.capabilities_to_mask _) as [m|] eqn:Hm; [|done]. intros [= <-] i. simpl.
  rewrite (Zone.capabilities_to_mask_from_bits _ _ _ Hm i), Z.bits_0. naive_solver.
Qed.

(** The [capable] hook reads the record of the zone the process is confined to. *)
Lemma capable_hook_reads_policy offs zid p kp m ctx :
  policy_to_kernel p = Ok kp -> ZONE_POLICY m !! zid = Some kp -> confined ctx m = Some zid ->
  fst (run_hook offs HCapable ctx m) = 0 <->
  exists cap, cap ∈ Zone.cap_allowed (Zone.capabilities p) /\
    Zone.linux_capability_bit cap = Some (as_signed 32 (arg ctx 2)).
Proof.
  intros Hkp Hpol Hc.
  rewrite <-(policy_to_kernel_caps p kp Hkp).
  rewrite run_hook_conclude, conclude_fst. cbn [maps_seen].
  assert (Hmon : monitor_allows offs HCapable ctx m <->
                 Z.testbit (kcaps_mask kp) (as_signed 32 (arg ctx 2)) = true).
  { unfold monitor_allows. rewrite Hc. cbn [resolve permits]. rewrite Hpol. split.
    - by intros (_ & p' & [= <-] & ?).
    - intros Hb. split; [|by eauto]. apply (policy_to_kernel_caps p kp Hkp) in Hb as (cap & _ & Hb).
      apply Zone.linux_capability_bit_range in Hb. lia. }
  rewrite <-Hmon.
  destruct (guard_judged offs HCapable ctx m ltac:(done))
    as [(x & -> & Hx)|[(-> & Ha & _)|(u & v & w & -> & Ha & _)]]; simpl; [|done..].
  apply unreadable_not_allowed in Hx. done.
Qed.

(** The Linux enforcer passes the conformance harness on every lawful
    host: loaded, with room for three more zones and cgroups, its attached
    programs healthy and the rootfs directory readable. *)
Theorem linux_enforcer_conformance (s : LinuxEnforcer) (e : Ebpf) (inodes : list Z) :
  ebpf s = Some e -> room 3 e ->
  collect_rootfs_inodes "/zones/zone-7/rootfs" MAX_INODES = Some (Ok inodes) ->
  exists s', Api.run_basic_conformance s = Some s'.
Proof. apply linux_conformance. Qed.

(** Communication is granted and revoked symmetrically: after a
    successful [allow_comm] the kernel lets both zones reach each other, after
    [deny_comm] neither (unless they are the same zone), and no other pair is
    affected by either. *)
Theorem comm_is_symmetric (a b : Api.ZoneRef) (s s' : LinuxEnforcer) (e e' : Ebpf) :
  ebpf s = Some e -> ebpf s' = Some e' ->
  let x := Api.kernel_id a in let y := Api.kernel_id b in
  (linux_allow_comm a b s = (Ok tt, s') ->
     linked (maps e') x y /\ linked (maps e') y x) /\
  (linux_deny_comm a b s = (Ok tt, s') -> x <> y ->
     ~ linked (maps e') x y /\ ~ linked (maps e') y x) /\
  (linux_allow_comm a b s = (Ok tt, s') \/ linux_deny_comm a b s = (Ok tt, s') ->
     forall u v, (u, v) <> (x, y) -> (u, v) <> (y, x) ->
       (linked (maps e') u v <-> linked (maps e) u v)).
Proof.
  intros He He' x y.
  assert (Hal : linux_allow_comm a b s = (Ok tt, s') ->
    ZONE_ALLOWED_COMMS (maps e') = <[(y, x) := 1]> (<[(x, y) := 1]> (ZONE_ALLOWED_COMMS (maps e)))).
  { apply (both_comms allow_zone_comm (fun k m => <[k := 1]> m)); [|done..]. apply allow_zone_comm_inv. }
  assert (Hde : linux_deny_comm a b s = (Ok tt, s') ->
    ZONE_ALLOWED_COMMS (maps e') = delete (y, x) (delete (x, y) (ZONE_ALLOWED_COMMS (maps e)))).
  { apply (both_comms deny_zone_comm (fun k m => delete k m)); [|done..]. apply deny_zone_comm_inv. }
  unfold linked. split_and!.
  - intros ->%Hal. split; right; rewrite !lookup_insert_is_Some'; auto.
  - intros ->%Hde Hne. split; intros [?|[? Hl]]; try congruence;
      rewrite !lookup_delete_Some in Hl; naive_solver.
  - intros [->%Hal| ->%Hde] u v H1 H2.
    + by rewrite !lookup_insert_ne by congruence.
    + by rewrite !lookup_delete_ne by congruence.
Qed.

(** From policy text to kernel verdict: once a policy is installed for a
    zone, a confined process of that zone passes the [capable] hook exactly for
    the capabilities the policy lists. *)
Theorem capability_policy_enforced (offs : Offsets) (zid : Z) (p : Zone.ZonePolicy)
    (s s' : LinuxEnforcer) (e' : Ebpf) (ctx : Ctx) :
  set_zone_policy zid p s = (Ok tt, s') -> ebpf s' = Some e' ->
  confined ctx (maps e') = Some zid ->
  fst (run_hook offs HCapable ctx (maps e')) = 0 <->
  exists cap, cap ∈ Zone.cap_allowed (Zone.capabilities p) /\
    Zone.linux_capability_bit cap = Some (as_signed 32 (arg ctx 2)).
Proof.
  intros Hset He' Hc. apply with_bpf_inv in Hset as (e & m & He & Hm & ->).
  injection He' as <-. cbn [set_maps maps] in *.
  unfold MapManager.set_zone_policy in Hm.
  destruct (policy_to_kernel p) as [kp|] eqn:Hkp; [|done].
  unfold set_zone_policy_kernel in Hm.
  destruct (hash_insert _ _ _ zid kp _) as [t|] eqn:Ht; [|done].
  apply hash_insert_inv in Ht as ->. injection Hm as <-.
  apply (capable_hook_reads_policy offs zid p kp); [done|apply lookup_insert_eq|done].
Qed.

(** No decision is lost between the kernel and the statistics: running
    any hook on a CPU the host counts moves exactly one of the three totals
    [stats] reports, by one. *)
Theorem stats_count_every_decision (offs : Offsets) (h : LsmHook) (ctx : Ctx) (z : Api.ZoneRef)
    (s : LinuxEnforcer) (e : Ebpf) (c : nat) (old : EnforcementCounters) :
  ebpf s = Some e -> cpu ctx = Z.of_nat c -> (c < num_cpus)%nat ->
  ENFORCEMENT_COUNTERS (maps e) !! (cpu ctx, prog_of h) = Some old ->
  let '(ret, m') := run_hook offs h ctx (maps e) in
  exists is_error,
    fst (linux_stats z (rerun s e m')) =
    (let t := bump (stats_of (maps e)) (ret =? 0) is_error in
     Ok (Api.mkStats (allow t) (deny t) (error t))) /\
    fst (linux_stats z s) = (let t := stats_of (maps e) in
                             Ok (Api.mkStats (allow t) (deny t) (error t))).
Proof.
  intros He Hcpu Hc Hold.
  destruct (run_hook offs h ctx (maps e)) as [ret m'] eqn:Hrun.
  assert (Hcnt := conclude_counters ctx (prog_of h) (on_error h)
                    (guard_of offs h ctx (maps_seen offs h ctx (maps e)))).
  rewrite <-run_hook_conclude, Hrun, guard_counters, maps_seen_counters in Hcnt. simpl in Hcnt.
  rewrite Hold in Hcnt.
  eexists. rewrite (linux_stats_eq z s e He), (linux_stats_eq z (rerun s e m') (set_maps e m') eq_refl).
  cbn [fst maps set_maps]. split; [|done]. cbv zeta.
  assert (exists p, (p < 7)%nat /\ prog_of h = Z.of_nat p) as (p & Hp & Hpz).
  { exists (Z.to_nat (prog_of h)). destruct h; (split; [vm_compute; lia|reflexivity]). }
  rewrite Hcpu, Hpz in Hcnt, Hold.
  by rewrite (stats_of_bump (maps e) m' c p old _ _ Hc Hp Hold Hcnt).
Qed.

(** Claiming a path gives the zone its files: with room in the inode map,
    every inode collected below the path belongs to the zone afterwards, the
    returned count is their number, and no other inode changes owner. *)
Theorem register_host_path_claims (z : Api.ZoneRef) (path : string) (rec : bool)
    (s : LinuxEnforcer) (e : Ebpf) (inodes : list Z) :
  ebpf s = Some e ->
  collect_rootfs_inodes path MAX_INODES = Some (Ok inodes) ->
  Z.of_nat (size (INODE_ZONE_MAP (maps e))) + Z.of_nat (length inodes) <= MAX_INODES ->
  exists m', linux_register_host_path z path rec s
               = (Ok (Z.of_nat (length inodes)), rerun s e m') /\
    (forall i, i ∈ inodes -> INODE_ZONE_MAP m' !! i = Some (Api.kernel_id z)) /\
    (forall i, i ∉ inodes -> INODE_ZONE_MAP m' !! i = INODE_ZONE_MAP (maps e) !! i).
Proof.
  intros He Hc Hroom. unfold linux_register_host_path, insert_inodes. rewrite Hc, He.
  destruct (MapManager.insert_inodes (maps e) inodes (Api.kernel_id z)) as [ins m'] eqn:Hi.
  pose proof (insert_inodes_all _ _ _ _ _ Hroom Hi) as ->.
  apply insert_inodes_owned in Hi as (H1 & H2 & _). exists m'. split_and!; [|done..]. simpl.
  rewrite Zone.wrap_small; [done|]. unfold MAX_INODES in Hroom. lia.
Qed.

End Linux.

(** ** A concrete state *)

#[local] Existing Instance ideal_host.
#[local] Existing Instance ideal_laws.

Definition sample_ebpf : Ebpf := mkEbpf sample_maps {["rauha_file_open" := 5]} [].
Definition sample_linux : LinuxEnforcer := LinuxEnforcer_new sample_ebpf.

Lemma sample_room : room 3 sample_ebpf.
Proof.
  split; [vm_compute; congruence|]. split; [vm_compute; congruence|].
  vm_compute. apply Forall_cons_2; [done|]. constructor.
Qed.

Lemma linux_enforcer_conformance_witness :
  exists s', Api.run_basic_conformance sample_linux = Some s'.
Proof.
  apply (linux_enforcer_conformance sample_linux sample_ebpf [10; 11]);
    [reflexivity|exact sample_room|vm_compute; reflexivity].
Defined.

Definition loaded_ebpf (s : LinuxEnforcer) : Ebpf := default sample_ebpf (ebpf s).

Definition after_allow : LinuxEnforcer :=
  snd (linux_allow_comm (Api.mkZoneRef "a" 1) (Api.mkZoneRef "b" 2) sample_linux).

Lemma comm_is_symmetric_witness :
  linked (maps (loaded_ebpf after_allow)) 1 2 /\ linked (maps (loaded_ebpf after_allow)) 2 1.
Proof.
  exact (proj1 (comm_is_symmetric (Api.mkZoneRef "a" 1) (Api.mkZoneRef "b" 2) sample_linux
                  after_allow sample_ebpf (loaded_ebpf after_allow) eq_refl eq_refl) eq_refl).
Defined.

Definition chown_policy : Zone.ZonePolicy :=
  Zone.mkZonePolicy Zone.Strict (Zone.mkCapability ["chown"]) Zone.ResourcePolicy_default
    Zone.NetworkPolicy_default Zone.FilesystemPolicy_default (Zone.mkDevice [])
    (Zone.mkSyscall [] []).

Definition chown_ctx : Ctx := mkCtx 100 0 0 0 0 (fun _ => 0) sample_memory true.

Definition after_policy : LinuxEnforcer := snd (set_zone_policy 1 chown_policy sample_linux).

Lemma capability_policy_enforced_witness :
  fst (run_hook offsets_default HCapable chown_ctx (maps (loaded_ebpf after_policy))) = 0.
Proof.
  apply (capability_policy_enforced offsets_default 1 chown_policy sample_linux after_policy
           (loaded_ebpf after_policy) chown_ctx); [vm_compute; reflexivity..|].
  exists "chown". split; [by apply list_elem_of_singleton|reflexivity].
Defined.

Lemma stats_count_every_decision_witness :
  exists st, fst (linux_stats (Api.mkZoneRef "a" 1)
    (rerun sample_linux sample_ebpf
       (snd (run_hook offsets_default HFileOpen sample_ctx sample_maps)))) = Ok st.
Proof.
  assert (Hn : (0 < @num_cpus ideal_host)%nat) by exact Nat.lt_0_2.
  destruct (stats_count_every_decision offsets_default HFileOpen sample_ctx (Api.mkZoneRef "a" 1)
              sample_linux sample_ebpf 0 (mkCounters 0 0 0) eq_refl eq_refl Hn eq_refl)
    as (b & H & _).
  eexists. exact H.
Defined.

Lemma register_host_path_claims_witness :
  exists m', linux_register_host_path (Api.mkZoneRef "a" 1) "/zones/zone-7/rootfs" true sample_linux
    = (Ok 2, rerun sample_linux sample_ebpf m') /\ INODE_ZONE_MAP m' !! 11 = Some 1.
Proof.
  assert (Hc : collect_rootfs_inodes "/zones/zone-7/rootfs" MAX_INODES = Some (Ok [10; 11]))
    by (vm_compute; reflexivity).
  assert (Hs : Z.of_nat (size (INODE_ZONE_MAP (maps sample_ebpf))) + Z.of_nat (length [10; 11])
               <= MAX_INODES) by (vm_compute; congruence).
  destruct (register_host_path_claims (Api.mkZoneRef "a" 1) "/zones/zone-7/rootfs" true
              sample_linux sample_ebpf [10; 11] eq_refl Hc Hs) as (m' & H1 & H2 & _).
  exists m'. split; [exact H1|]. apply H2. by right; left.
Defined.

End Linux.
