(* ===== verification/Broker.v ===== *)
(** * The seccomp-notify broker

    Models [rauha-shim/src/broker/]: the kernel ABI constants ([abi.rs], for
    x86_64), the pure classification of a suspended open ([classify.rs]), the
    cache of pinned tasks ([pins.rs]), the decision log ([decision.rs]) and the
    judgment itself ([mod.rs]).  The kernel is the class [BrokerHost]; every
    system call the broker makes is recorded as an [Action], so that the order
    of the race protocol is a property of the trace. *)

From stdpp Require Import base gmap strings list fin_maps.
From Stdlib Require Import ZArith Lia.
From S2P Require Import Prelude.
From S2P Require Import RustStr.
Open Scope Z_scope.

Module Broker.

(** ** ABI *)

Record SeccompData := mkData { nr : Z; arch : Z; instruction_pointer : Z; args : nat -> Z }.
Record SeccompNotif := mkNotif { notif_id : Z; notif_pid : Z; notif_flags : Z; data : SeccompData }.
Record SeccompNotifResp := mkResp { resp_id : Z; val : Z; resp_error : Z; resp_flags : Z }.
Record SeccompNotifAddfd := mkAddfd {
  add_id : Z; add_flags : Z; srcfd : Z; newfd : Z; newfd_flags : Z
}.
Record OpenHow := mkHow { how_flags : Z; how_mode : Z; how_resolve : Z }.
Definition OPEN_HOW_SIZE : Z := 24.

Definition RESOLVE_NO_XDEV : Z := 0x1.
Definition RESOLVE_NO_MAGICLINKS : Z := 0x2.
Definition RESOLVE_NO_SYMLINKS : Z := 0x4.
Definition RESOLVE_BENEATH : Z := 0x8.
Definition RESOLVE_IN_ROOT : Z := 0x10.
Definition RESOLVE_CTIME : Z := 0x20.
Definition KNOWN_RESOLVE : Z :=
  Z.lor (Z.lor (Z.lor (Z.lor (Z.lor RESOLVE_NO_XDEV RESOLVE_NO_MAGICLINKS) RESOLVE_NO_SYMLINKS)
    RESOLVE_BENEATH) RESOLVE_IN_ROOT) RESOLVE_CTIME.

Definition NATIVE_ARCH : Z := 0xC000003E.
Definition MAX_PATH : nat := 4096.
Definition NR_OPENAT : Z := 257.
Definition NR_OPENAT2 : Z := 437.

Definition brokered_syscall_name (nr : Z) : option string :=
  if nr =? NR_OPENAT then Some "openat"
  else if nr =? NR_OPENAT2 then Some "openat2"
  else None.

(** [libc] for x86_64 Linux. *)
Definition EPERM : Z := 1.
Definition ENOENT : Z := 2.
Definition ESRCH : Z := 3.
Definition E2BIG : Z := 7.
Definition EFAULT : Z := 14.
Definition EXDEV : Z := 18.
Definition EINVAL : Z := 22.
Definition ENAMETOOLONG : Z := 36.
Definition O_ACCMODE : Z := 3.
Definition O_RDONLY : Z := 0.
Definition O_CREAT : Z := 0x40.
Definition O_NOCTTY : Z := 0x100.
Definition O_TRUNC : Z := 0x200.
Definition O_NONBLOCK : Z := 0x800.
Definition O_DIRECT : Z := 0x4000.
Definition O_DIRECTORY : Z := 0x10000.
Definition O_NOFOLLOW : Z := 0x20000.
Definition O_CLOEXEC : Z := 0x80000.
Definition O_PATH : Z := 0x200000.
Definition O_TMPFILE : Z := 0x410000.
Definition AT_FDCWD : Z := -100.

(** ** Classification *)

Inductive Anchor := TaskRoot | TaskDir (dirfd : Z).
Record Grant := mkGrant { anchored : Anchor; resolve : Z; cloexec : bool; nonblock : bool }.
Record Denial := mkDenial { errno : Z; reason : string }.

Definition Denial_policy (reason : string) : Denial := mkDenial EPERM reason.
Definition Denial_kernel (errno : Z) (reason : string) : Denial := mkDenial errno reason.

(** [!x] on [u64]. *)
Definition not64 (x : Z) : Z := Z.lxor x (2 ^ 64 - 1).

Definition caller_restrictions (r : Z) : Z :=
  Z.land (Z.land r KNOWN_RESOLVE) (not64 (Z.lor RESOLVE_BENEATH RESOLVE_IN_ROOT)).

Definition resolve_flags (rooted no_follow : bool) : Z :=
  let base := if rooted then RESOLVE_IN_ROOT else RESOLVE_BENEATH in
  Z.lor base (caller_restrictions (if no_follow then RESOLVE_NO_SYMLINKS else RESOLVE_NO_MAGICLINKS)).

Definition check_open_flags (flags : Z) : result unit Denial :=
  if negb (Z.land flags O_ACCMODE =? O_RDONLY) then Err (Denial_policy "not read-only")
  else if Z.land flags O_TMPFILE =? O_TMPFILE then Err (Denial_policy "O_TMPFILE")
  else try_for_each (fun fr : Z * string =>
         if has_flag flags (fst fr) then Err (Denial_policy (snd fr)) else Ok tt)
         [(O_CREAT, "O_CREAT"); (O_TRUNC, "O_TRUNC"); (O_PATH, "O_PATH"); (O_DIRECT, "O_DIRECT")].

Definition check_path (path : list Z) : result unit Denial :=
  if Nat.eqb (length path) 0 then Err (Denial_kernel ENOENT "empty path")
  else if Nat.leb MAX_PATH (length path) then Err (Denial_kernel ENAMETOOLONG "path too long")
  else if existsb (Z.eqb 0) path then Err (Denial_kernel EINVAL "NUL in path")
  else Ok tt.

(** [path[0] == b'/'], after [check_path]. *)
Definition is_absolute (path : list Z) : bool :=
  match path with c :: _ => c =? 47 | [] => false end.

Definition classify_openat (dirfd flags : Z) (path : list Z) : result Grant Denial :=
  let? _ := check_open_flags flags in
  let? _ := check_path path in
  let no_follow := has_flag flags O_NOFOLLOW in
  let absolute := is_absolute path in
  Ok (mkGrant (if absolute then TaskRoot else TaskDir dirfd)
        (resolve_flags absolute no_follow)
        (has_flag flags O_CLOEXEC) (has_flag flags O_NONBLOCK)).

Definition classify_openat2 (dirfd size : Z) (how : OpenHow) (path : list Z) : result Grant Denial :=
  if OPEN_HOW_SIZE <? size then Err (Denial_kernel E2BIG "oversized open_how")
  else if size <? OPEN_HOW_SIZE then Err (Denial_kernel EINVAL "undersized open_how")
  else if negb (Z.land (how_resolve how) (not64 KNOWN_RESOLVE) =? 0)
  then Err (Denial_kernel EINVAL "unknown resolve flags")
  else if Z.land (how_resolve how) (Z.lor RESOLVE_BENEATH RESOLVE_IN_ROOT)
          =? Z.lor RESOLVE_BENEATH RESOLVE_IN_ROOT
  then Err (Denial_kernel EINVAL "RESOLVE_BENEATH and RESOLVE_IN_ROOT are mutually exclusive")
  else if negb (Z.shiftr (how_flags how) 32 =? 0)
  then Err (Denial_kernel EINVAL "unknown high flag bits")
  else
    let flags := as_signed 32 (how_flags how) in
    let? _ := check_open_flags flags in
    let? _ := check_path path in
    let absolute := is_absolute path in
    let beneath := has_flag (how_resolve how) RESOLVE_BENEATH in
    let in_root := has_flag (how_resolve how) RESOLVE_IN_ROOT in
    let restrictions :=
      Z.lor (caller_restrictions (how_resolve how))
        (if has_flag flags O_NOFOLLOW then RESOLVE_NO_SYMLINKS else RESOLVE_NO_MAGICLINKS) in
    if absolute then
      if beneath then Err (Denial_kernel EXDEV "absolute path under RESOLVE_BENEATH")
      else Ok (mkGrant TaskRoot (Z.lor RESOLVE_IN_ROOT restrictions)
                 (has_flag flags O_CLOEXEC) (has_flag flags O_NONBLOCK))
    else
      let containment := if in_root then RESOLVE_IN_ROOT else RESOLVE_BENEATH in
      Ok (mkGrant (TaskDir dirfd) (Z.lor containment restrictions)
            (has_flag flags O_CLOEXEC) (has_flag flags O_NONBLOCK)).

(** ** Pool sizing *)

Definition DEFAULT_JUDGE_THREADS : Z := 4.
Definition DEFAULT_CACHE_MAX_TASKS : Z := 512.
Definition FD_HEADROOM : Z := 96.
Definition MIN_JUDGE_THREADS : Z := 1.
Definition MAX_JUDGE_THREADS : Z := 64.

Definition parse_or (default : Z) (configured : option string) : Z :=
  match configured with
  | Some value => match Str.parse_uint 64 value with Ok v => v | Err _ => default end
  | None => default
  end.

Definition judge_threads_from (configured : option string) : Z :=
  clamp MIN_JUDGE_THREADS MAX_JUDGE_THREADS (parse_or DEFAULT_JUDGE_THREADS configured).

Definition cache_max_tasks_from (configured : option string) : Z :=
  parse_or DEFAULT_CACHE_MAX_TASKS configured.

Definition cache_cap_within (configured nofile : Z) : Z :=
  if configured =? 0 then 0
  else Z.min configured (saturating_sub nofile FD_HEADROOM / 3).

(** The cache capacity [serve] gives each judge. *)
Definition per_judge_cache (cache_cap threads : Z) : Z :=
  if threads =? 1 then cache_cap else Z.max (cache_cap / threads) 1.

(** ** Pinned tasks *)

(** The three descriptors held for one task. *)
Record TaskPins := mkPins { pidfd : Z; mem : Z; root : Z }.

(** What the broker did to the outside world, in order. *)
Inductive Action :=
| APinOpen (tid : Z)
| AIdValid (id : Z)
| AReadMem (mem at_addr : Z) (want : nat)
| AOpenCwd (tid : Z)
| ABorrowFd (pidfd dirfd : Z)
| AOpenat2 (dir_fd : Z) (path : list Z) (how : OpenHow)
| AAddFd (a : SeccompNotifAddfd)
| ASend (r : SeccompNotifResp).

(** One decision record; the path keeps its raw bytes. *)
Record LogRecord := mkRecord {
  seq : Z; ts_ms : Z; rec_id : Z; tid : Z; syscall : string; rec_path : list Z;
  rec_decision : string; rec_errno : Z; rec_reason : option string
}.

(** The kernel's and the file system's answers during one judgment. *)
Class BrokerHost := {
  pin_alive : TaskPins -> bool;
  pin_open : Z -> result TaskPins Z;
  id_valid : Z -> bool;
  read_at : Z -> Z -> nat -> option (list Z);
  read_exact_at : Z -> Z -> nat -> option (list Z);
  open_cwd : Z -> result Z Z;
  pidfd_getfd : Z -> Z -> result Z Z;
  openat2 : Z -> list Z -> OpenHow -> result Z Z;
  addfd : SeccompNotifAddfd -> result Z Z;
  errno_text : Z -> string;
  log_write_ok : LogRecord -> bool;
  now_ms : Z
}.

Inductive PinHandle := Cached (p : TaskPins) | Cold (p : TaskPins).
Definition pins_of (h : PinHandle) : TaskPins := match h with Cached p | Cold p => p end.

Record PinCache := mkCache { pins : gmap Z TaskPins; order : list Z; max_tasks : Z }.
Definition PinCache_new (max_tasks : Z) : PinCache := mkCache ∅ [] max_tasks.

(** [while pins.len() >= max_tasks]: evict the oldest insertion. *)
Fixpoint evict (max : Z) (p : gmap Z TaskPins) (o : list Z) : gmap Z TaskPins * list Z :=
  if max <=? Z.of_nat (size p) then
    match o with
    | [] => (p, [])
    | oldest :: rest => evict max (delete oldest p) rest
    end
  else (p, o).

Section Judge.
Context `{BrokerHost}.

Definition for_task (c : PinCache) (tid : Z) : result PinHandle Z * PinCache * list Action :=
  match match pins c !! tid with
        | Some p => if pin_alive p then Some p else None
        | None => None
        end with
  | Some p => (Ok (Cached p), c, [])
  | None =>
      let pins1 := delete tid (pins c) in
      if max_tasks c =? 0 then
        (match pin_open tid with Ok p => Ok (Cold p) | Err e => Err e end,
         mkCache pins1 (order c) (max_tasks c), [APinOpen tid])
      else
        let '(pins2, order2) := evict (max_tasks c) pins1 (order c) in
        match pin_open tid with
        | Err e => (Err e, mkCache pins2 order2 (max_tasks c), [APinOpen tid])
        | Ok p =>
            (Ok (Cached p),
             mkCache (<[tid := p]> pins2) (order2 ++ [tid])%list (max_tasks c), [APinOpen tid])
        end
  end.

(** ** Reading the target *)

Inductive PathRead := Found (path : list Z) | TooLong | Unreadable.

Fixpoint position0 (l : list Z) : option nat :=
  match l with
  | [] => None
  | b :: l' => if b =? 0 then Some O else S <$> position0 l'
  end.

(** Geometric reads; each round reads at least one byte, so [MAX_PATH] rounds
    are enough ([None]: out of fuel). *)
Fixpoint read_path_loop (fuel : nat) (m ptr : Z) (buf : list Z) (offset : Z)
  : option PathRead * list Action :=
  match fuel with
  | O => (None, [])
  | S fuel' =>
      let len := length buf in
      let want := Nat.max (Nat.min (Nat.max len 256) (MAX_PATH - len)) 1 in
      match checked_add 64 ptr offset with
      | None => (Some Unreadable, [])
      | Some at_addr =>
          let act := AReadMem m at_addr want in
          match read_at m at_addr want with
          | None | Some [] => (Some Unreadable, [act])
          | Some bytes =>
              match position0 bytes with
              | Some pos => (Some (Found (buf ++ take pos bytes)%list), [act])
              | None =>
                  let buf' := (buf ++ bytes)%list in
                  match checked_add 64 offset (Z.of_nat (length bytes)) with
                  | None => (Some Unreadable, [act])
                  | Some offset' =>
                      if Nat.eqb (length buf') MAX_PATH then (Some TooLong, [act])
                      else let '(r, acts) := read_path_loop fuel' m ptr buf' offset' in (r, act :: acts)
                  end
              end
          end
      end
  end.

Definition read_path_into (m ptr : Z) : PathRead * list Action :=
  match read_path_loop MAX_PATH m ptr [] 0 with
  | (Some r, acts) => (r, acts)
  | (None, acts) => (Unreadable, acts)
  end.

(** [u64::from_ne_bytes] on a little-endian machine. *)
Fixpoint le_bytes (l : list Z) : Z :=
  match l with [] => 0 | b :: l' => b + 256 * le_bytes l' end.

Definition read_open_how (m ptr : Z) : option OpenHow :=
  match read_exact_at m ptr 24 with
  | None => None
  | Some buf => Some (mkHow (le_bytes (take 8 buf)) (le_bytes (take 8 (drop 8 buf)))
                        (le_bytes (take 8 (drop 16 buf))))
  end.

(** ** Judging *)

Inductive Decision := Deny (errno : Z) (reason : string) | InjectFd (fd : Z) (cloexec : bool).
Record Verdict := mkVerdict {
  v_syscall : string; v_tid : Z; v_path : list Z; v_decision : Decision
}.

(** The bytes of the scratch buffer the verdict's [path_len] selects. *)
Definition Verdict_deny (syscall : string) (tid : Z) (path : list Z) (e : Z) (r : string) : Verdict :=
  mkVerdict syscall tid path (Deny e r).

Definition open_flags (g : Grant) : Z :=
  let flags := Z.lor (Z.lor O_RDONLY O_CLOEXEC) O_NOCTTY in
  if nonblock g then Z.lor flags O_NONBLOCK else flags.

Definition open_for_target (p : TaskPins) (tid : Z) (syscall : string) (g : Grant) (path : list Z)
  : Verdict * list Action :=
  let finish (dir_fd : Z) (acts : list Action) :=
    if existsb (Z.eqb 0) path then (Verdict_deny syscall tid path EINVAL "NUL in path", acts)
    else
      let how := mkHow (open_flags g) 0 (resolve g) in
      let acts' := (acts ++ [AOpenat2 dir_fd path how])%list in
      match openat2 dir_fd path how with
      | Ok fd => (mkVerdict syscall tid path (InjectFd fd (cloexec g)), acts')
      | Err e => (Verdict_deny syscall tid path e "open failed", acts')
      end in
  match anchored g with
  | TaskRoot => finish (root p) []
  | TaskDir dirfd =>
      if dirfd =? AT_FDCWD then
        match open_cwd tid with
        | Err e => (Verdict_deny syscall tid path e "no cwd fd", [AOpenCwd tid])
        | Ok base => finish base [AOpenCwd tid]
        end
      else
        let act := ABorrowFd (pidfd p) (wrap 32 dirfd) in
        match pidfd_getfd (pidfd p) (wrap 32 dirfd) with
        | Err e => (Verdict_deny syscall tid path e "borrow dirfd", [act])
        | Ok base => finish base [act]
        end
  end.

(** Steps 3 and 4 of the race protocol, with the task pinned. *)
Definition judge_pinned (notif : SeccompNotif) (syscall : string) (p : TaskPins)
  : Verdict * list Action :=
  let tid := notif_pid notif in
  let arg := args (data notif) in
  if negb (id_valid (notif_id notif)) then
    (Verdict_deny syscall tid [] ESRCH "notification expired", [AIdValid (notif_id notif)])
  else
    let '(path, reads) := read_path_into (mem p) (arg 1%nat) in
    let acts := AIdValid (notif_id notif) :: reads in
    match path with
    | TooLong => (Verdict_deny syscall tid [] ENAMETOOLONG "path too long", acts)
    | Unreadable => (Verdict_deny syscall tid [] EFAULT "unreadable path", acts)
    | Found path =>
        let dirfd := as_signed 64 (arg 0%nat) in
        let conclude (acts : list Action) (grant : result Grant Denial) :=
          match grant with
          | Ok g => let '(v, more) := open_for_target p tid syscall g path in (v, (acts ++ more)%list)
          | Err d => (Verdict_deny syscall tid path (errno d) (reason d), acts)
          end in
        if String.eqb syscall "openat" then
          conclude acts (classify_openat dirfd (as_signed 32 (arg 2%nat)) path)
        else if String.eqb syscall "openat2" then
          let acts := (acts ++ [AReadMem (mem p) (arg 2%nat) 24])%list in
          match read_open_how (mem p) (arg 2%nat) with
          | None => (Verdict_deny syscall tid path EFAULT "unreadable open_how", acts)
          | Some how => conclude acts (classify_openat2 dirfd (arg 3%nat) how path)
          end
        else (Verdict_deny syscall tid path EPERM "not brokerable (policy/shim mismatch)", acts)
    end.

Definition judge (notif : SeccompNotif) (c : PinCache) : Verdict * PinCache * list Action :=
  let tid := notif_pid notif in
  match brokered_syscall_name (nr (data notif)) with
  | None => (Verdict_deny "unknown" tid [] EPERM "not brokerable (policy/shim mismatch)", c, [])
  | Some syscall =>
      if negb (arch (data notif) =? NATIVE_ARCH)
      then (Verdict_deny syscall tid [] EPERM "non-native arch", c, [])
      else
        let '(r, c', acts) := for_task c tid in
        match r with
        | Err e => (Verdict_deny syscall tid [] e "task pins", c', acts)
        | Ok h =>
            let '(v, more) := judge_pinned notif syscall (pins_of h) in
            (v, c', (acts ++ more)%list)
        end
  end.

(** ** Answering *)

Record DecisionLog := mkLog { file : option (list LogRecord); log_seq : Z; disabled : bool }.

Definition record (l : DecisionLog) (id : Z) (syscall : string) (tid : Z) (path : list Z)
    (errno : Z) (reason : option string) : DecisionLog :=
  match file l with
  | None => l
  | Some lines =>
      if disabled l then l
      else
        let seq' := wrap 64 (log_seq l + 1) in
        let r := mkRecord seq' now_ms id tid syscall path
                   (match reason with Some _ => "denied" | None => "granted" end) errno reason in
        if log_write_ok r then mkLog (Some (lines ++ [r])%list) seq' false
        else mkLog (Some lines) seq' true
  end.

(** The response, what the log is told, and what was asked of the kernel for it. *)
Definition answer_of (id : Z) (v : Verdict) : SeccompNotifResp * Z * option string * list Action :=
  match v_decision v with
  | Deny e r => (mkResp id 0 (- e) 0, e, Some r, [])
  | InjectFd fd cloexec =>
      let a := mkAddfd id 0 (wrap 32 fd) 0 (if cloexec then O_CLOEXEC else 0) in
      match addfd a with
      | Ok target_fd => (mkResp id target_fd 0 0, 0, None, [AAddFd a])
      | Err e => (mkResp id 0 (- e) 0, e, Some ("addfd: " ++ errno_text e)%string, [AAddFd a])
      end
  end.

Definition respond (id : Z) (v : Verdict) (l : DecisionLog) : DecisionLog * list Action :=
  let '(resp, rerr, rreason, acts) := answer_of id v in
  (record l id (v_syscall v) (v_tid v) (v_path v) rerr rreason, (acts ++ [ASend resp])%list).

(** One round of [judge_loop]. *)
Definition serve_one (notif : SeccompNotif) (c : PinCache) (l : DecisionLog)
  : PinCache * DecisionLog * list Action :=
  let '(v, c', acts) := judge notif c in
  let '(l', more) := respond (notif_id notif) v l in
  (c', l', (acts ++ more)%list).

End Judge.

(** ** Lemmas on classification *)

(** An open with no authority beyond reading: no write mode, nothing created,
    truncated or anonymous, a readable handle, no alignment contract. *)
Definition harmless (flags : Z) : Prop :=
  Z.land flags O_ACCMODE = O_RDONLY /\ Z.land flags O_TMPFILE <> O_TMPFILE /\
  has_flag flags O_CREAT = false /\ has_flag flags O_TRUNC = false /\
  has_flag flags O_PATH = false /\ has_flag flags O_DIRECT = false.

Lemma check_open_flags_ok flags : check_open_flags flags = Ok tt <-> harmless flags.
Proof.
  unfold check_open_flags, harmless.
  destruct (Z.eqb_spec (Z.land flags O_ACCMODE) O_RDONLY); simpl; [|naive_solver].
  destruct (Z.eqb_spec (Z.land flags O_TMPFILE) O_TMPFILE); [naive_solver|].
  destruct (has_flag flags O_CREAT); [naive_solver|]. destruct (has_flag flags O_TRUNC); [naive_solver|].
  destruct (has_flag flags O_PATH); [naive_solver|]. destruct (has_flag flags O_DIRECT); naive_solver.
Qed.

(** Paths the kernel would accept. *)
Definition good_path (path : list Z) : Prop :=
  path <> [] /\ (length path < MAX_PATH)%nat /\ 0 ∉ path.

Lemma existsb_nul path : existsb (Z.eqb 0) path = true <-> 0 ∈ path.
Proof.
  rewrite existsb_exists. split.
  - intros (x & Hx & ->%Z.eqb_eq). by apply list_elem_of_In.
  - intros Hx. exists 0. split; [by apply list_elem_of_In|done].
Qed.

Lemma check_path_ok path : check_path path = Ok tt <-> good_path path.
Proof.
  unfold check_path, good_path.
  destruct (Nat.eqb_spec (length path) 0) as [Hl|Hl]; [destruct path; [naive_solver|done]|].
  destruct (Nat.leb_spec MAX_PATH (length path)); [naive_solver lia|].
  rewrite <-existsb_nul. destruct (existsb (Z.eqb 0) path); [naive_solver|].
  split; [|done]. intros _. split_and!; [by destruct path|done|done].
Qed.

Lemma caller_restrictions_mask r : caller_restrictions r = Z.land r 0x27.
Proof. unfold caller_restrictions. by rewrite <-Z.land_assoc. Qed.

(** The broker's containment: an absolute path inside the task's root, a
    relative one inside exactly one of its directory's two confinements, and
    never through magic links. *)
Definition contained (a : Anchor) (res : Z) : Prop :=
  (Z.testbit res 1 = true \/ Z.testbit res 2 = true) /\
  match a with
  | TaskRoot => Z.testbit res 4 = true /\ Z.testbit res 3 = false
  | TaskDir _ => Z.testbit res 4 = negb (Z.testbit res 3)
  end.

Lemma contained_lor a (base r : Z) (nofollow : bool) :
  base = (match a with TaskRoot => RESOLVE_IN_ROOT | TaskDir _ => base end) ->
  base = RESOLVE_IN_ROOT \/ base = RESOLVE_BENEATH ->
  contained a (Z.lor base (Z.lor (Z.land r 0x27)
    (if nofollow then RESOLVE_NO_SYMLINKS else RESOLVE_NO_MAGICLINKS))).
Proof.
  intros Ha Hb. unfold contained. rewrite !Z.lor_spec, !Z.land_spec.
  change (Z.testbit 0x27 3) with false. change (Z.testbit 0x27 4) with false.
  rewrite !andb_false_r. split.
  - destruct nofollow; [right|left]; cbn; by rewrite !orb_true_r.
  - destruct a; [subst base|destruct Hb as [-> | ->]]; by destruct nofollow.
Qed.

Lemma resolve_flags_shape rooted nofollow :
  resolve_flags rooted nofollow =
  Z.lor (if rooted then RESOLVE_IN_ROOT else RESOLVE_BENEATH)
    (Z.lor (Z.land 0 0x27) (if nofollow then RESOLVE_NO_SYMLINKS else RESOLVE_NO_MAGICLINKS)).
Proof. by destruct rooted, nofollow. Qed.

Lemma classify_openat_inv dirfd flags path g :
  classify_openat dirfd flags path = Ok g ->
  harmless flags /\ good_path path /\ contained (anchored g) (resolve g) /\
  anchored g = (if is_absolute path then TaskRoot else TaskDir dirfd) /\
  cloexec g = has_flag flags O_CLOEXEC /\ nonblock g = has_flag flags O_NONBLOCK.
Proof.
  unfold classify_openat.
  destruct (check_open_flags flags) as [[]|] eqn:Hf; [|done]. apply check_open_flags_ok in Hf.
  destruct (check_path path) as [[]|] eqn:Hp; [|done]. apply check_path_ok in Hp.
  intros [= <-]. cbn [anchored resolve cloexec nonblock]. split_and!; try done.
  all: rewrite resolve_flags_shape; apply contained_lor; destruct (is_absolute path); auto.
Qed.

(** Outside the two confinement bits the broker knows exactly the bits it keeps. *)
Lemma known_bits i :
  0 <= i -> i <> 3 -> i <> 4 -> Z.testbit KNOWN_RESOLVE i = true -> Z.testbit 0x27 i = true.
Proof.
  intros Hi H3 H4 Hk. destruct (Z.le_gt_cases 6 i) as [Hge|Hlt].
  - rewrite Z.bits_above_log2 in Hk; [done|vm_compute; congruence|].
    change (Z.log2 KNOWN_RESOLVE) with 5. lia.
  - assert (i = 0 \/ i = 1 \/ i = 2 \/ i = 5) as [->|[->|[->| ->]]] by lia; done.
Qed.

Lemma both_confinements r :
  Z.testbit r 3 = true -> Z.testbit r 4 = true ->
  Z.land r (Z.lor RESOLVE_BENEATH RESOLVE_IN_ROOT) = Z.lor RESOLVE_BENEATH RESOLVE_IN_ROOT.
Proof.
  intros H3 H4. change (Z.lor RESOLVE_BENEATH RESOLVE_IN_ROOT) with (Z.lor (2 ^ 3) (2 ^ 4)).
  by rewrite Z.land_lor_distr_r, !land_pow2_testbit, H3, H4 by lia.
Qed.

Lemma classify_openat2_inv dirfd size how path g :
  classify_openat2 dirfd size how path = Ok g ->
  size = OPEN_HOW_SIZE /\ harmless (as_signed 32 (how_flags how)) /\ good_path path /\
  contained (anchored g) (resolve g) /\
  anchored g = (if is_absolute path then TaskRoot else TaskDir dirfd) /\
  (forall i, 0 <= i -> i <> 3 -> i <> 4 -> Z.testbit (Z.land (how_resolve how) KNOWN_RESOLVE) i = true ->
     Z.testbit (resolve g) i = true) /\
  (Z.testbit (how_resolve how) 3 = true -> Z.testbit (resolve g) 3 = true) /\
  (Z.testbit (how_resolve how) 4 = true -> Z.testbit (resolve g) 4 = true).
Proof.
  unfold classify_openat2.
  destruct (Z.ltb_spec OPEN_HOW_SIZE size); [done|]. destruct (Z.ltb_spec size OPEN_HOW_SIZE); [done|].
  destruct (negb _); [done|]. 
  destruct (Z.eqb_spec (Z.land (how_resolve how) (Z.lor RESOLVE_BENEATH RESOLVE_IN_ROOT))
              (Z.lor RESOLVE_BENEATH RESOLVE_IN_ROOT)) as [|Hexcl]; [done|].
  destruct (negb _); [done|].
  destruct (check_open_flags _) as [[]|] eqn:Hf; [|done]. apply check_open_flags_ok in Hf.
  destruct (check_path path) as [[]|] eqn:Hp; [|done]. apply check_path_ok in Hp.
  rewrite caller_restrictions_mask.
  assert (Hkeep : forall base extra i, 0 <= i -> i <> 3 -> i <> 4 ->
    Z.testbit (Z.land (how_resolve how) KNOWN_RESOLVE) i = true ->
    Z.testbit (Z.lor base (Z.lor (Z.land (how_resolve how) 0x27) extra)) i = true).
  { intros base extra i Hi H3 H4. rewrite !Z.lor_spec, !Z.land_spec. intros [Hr Hk]%andb_true_iff.
    rewrite Hr. rewrite (known_bits i Hi H3 H4 Hk). by rewrite orb_true_r. }
  change (has_flag (how_resolve how) RESOLVE_BENEATH) with (has_flag (how_resolve how) (2 ^ 3)).
  change (has_flag (how_resolve how) RESOLVE_IN_ROOT) with (has_flag (how_resolve how) (2 ^ 4)).
  rewrite !has_flag_pow2 by lia.
  destruct (is_absolute path) eqn:Habs.
  - destruct (Z.testbit (how_resolve how) 3) eqn:H3; [done|]. intros [= <-].
    cbn [anchored resolve]. split; [lia|]. split; [done|]. split; [done|].
    split; [by apply contained_lor; auto|]. split; [done|].
    split; [intros i; apply Hkeep|]. split; [done|]. intros _. by rewrite Z.lor_spec.
  - destruct (Z.testbit (how_resolve how) 4) eqn:H4; intros [= <-]; cbn [anchored resolve];
      (split; [lia|]); (split; [done|]); (split; [done|]);
      (split; [apply contained_lor; auto|]); (split; [done|]); (split; [intros i; apply Hkeep|]).
    + split; [|by rewrite Z.lor_spec].
      intros H3. exfalso. apply Hexcl. by apply both_confinements.
    + split; [by rewrite Z.lor_spec|done].
Qed.

(** ** Lemmas on the judgment *)

Definition is_pin (a : Action) : Prop := match a with APinOpen _ => True | _ => False end.

(** Acting on the suspended task: its memory, its directories, its files. *)
Definition touches_task (a : Action) : Prop :=
  match a with AReadMem _ _ _ | AOpenCwd _ | ABorrowFd _ _ | AOpenat2 _ _ _ => True | _ => False end.

(** The opens the broker performs with its own authority. *)
Definition safe_open (p : TaskPins) (a : Action) : Prop :=
  match a with
  | AOpenat2 d path how =>
      harmless (how_flags how) /\ how_mode how = 0 /\ good_path path /\
      (if is_absolute path then contained TaskRoot (how_resolve how) /\ d = root p
       else contained (TaskDir 0) (how_resolve how))
  | _ => True
  end.

Section JudgeLemmas.
Context `{BrokerHost}.

Lemma for_task_acts c t r c' acts : for_task c t = (r, c', acts) -> Forall is_pin acts.
Proof.
  unfold for_task. repeat break_match; intros [= <- <- <-]; by forall_each.
Qed.

Lemma read_path_loop_acts fuel m ptr buf off r acts :
  read_path_loop fuel m ptr buf off = (r, acts) ->
  Forall (fun a => exists x w, a = AReadMem m x w) acts.
Proof.
  revert buf off r acts. induction fuel as [|fuel IH]; intros buf off r acts.
  - intros [= <- <-]. constructor.
  - cbn [read_path_loop]. cbv zeta.
    destruct (checked_add 64 ptr off) as [at_addr|]; [|intros [= <- <-]; constructor].
    destruct (read_at m at_addr _) as [[|b bytes]|];
      [intros [= <- <-]; forall_each; eauto| |intros [= <- <-]; forall_each; eauto].
    destruct (position0 (b :: bytes)); [intros [= <- <-]; forall_each; eauto|].
    destruct (checked_add 64 off _) as [off'|]; [|intros [= <- <-]; forall_each; eauto].
    destruct (Nat.eqb _ _); [intros [= <- <-]; forall_each; eauto|].
    destruct (read_path_loop fuel m ptr _ off') as [r1 acts1] eqn:Hr.
    intros [= <- <-]. constructor; [by do 2 eexists|by eapply IH].
Qed.

Lemma read_path_into_acts m ptr r acts :
  read_path_into m ptr = (r, acts) -> Forall (fun a => exists x w, a = AReadMem m x w) acts.
Proof.
  unfold read_path_into. destruct (read_path_loop _ m ptr [] 0) as [[r1|] acts1] eqn:Hr;
    intros [= <- <-]; by eapply read_path_loop_acts.
Qed.

Lemma harmless_open_flags g : harmless (open_flags g).
Proof. unfold open_flags. destruct (nonblock g); vm_compute; split_and!; congruence. Qed.

Lemma contained_dir d d' res : contained (TaskDir d) res -> contained (TaskDir d') res.
Proof. done. Qed.

Lemma open_for_target_acts p t sc g path v acts :
  good_path path -> contained (anchored g) (resolve g) ->
  anchored g = (if is_absolute path then TaskRoot else TaskDir (match anchored g with TaskDir d => d | _ => 0 end)) ->
  open_for_target p t sc g path = (v, acts) ->
  Forall (fun a => touches_task a /\ safe_open p a) acts.
Proof.
  intros Hp Hc Ha. unfold open_for_target.
  assert (Hnul : existsb (Z.eqb 0) path = false).
  { destruct Hp as (_ & _ & Hn). destruct (existsb (Z.eqb 0) path) eqn:E; [|done].
    by apply existsb_nul in E. }
  rewrite Hnul.
  assert (Hopen : forall d, (is_absolute path = true -> d = root p) ->
    touches_task (AOpenat2 d path (mkHow (open_flags g) 0 (resolve g))) /\
    safe_open p (AOpenat2 d path (mkHow (open_flags g) 0 (resolve g)))).
  { intros d Hd. split; [done|]. split; [apply harmless_open_flags|]. split; [done|].
    split; [done|]. simpl. destruct (is_absolute path); rewrite Ha in Hc; [by auto|done]. }
  destruct (anchored g) as [|dirfd].
  - destruct (openat2 _ _ _); intros [= <- <-]; simpl; forall_each; by apply Hopen.
  - assert (is_absolute path = false) as Habs by (by destruct (is_absolute path)).
    destruct (dirfd =? AT_FDCWD).
    + destruct (open_cwd t); [|intros [= <- <-]; by forall_each].
      destruct (openat2 _ _ _); intros [= <- <-]; simpl; forall_each; try done; apply Hopen; congruence.
    + destruct (pidfd_getfd _ _); [|intros [= <- <-]; by forall_each].
      destruct (openat2 _ _ _); intros [= <- <-]; simpl; forall_each; try done; apply Hopen; congruence.
Qed.

Lemma classify_conclude p t sc path (gr : result Grant Denial) acts v acts' :
  Forall (fun a => touches_task a /\ safe_open p a) acts ->
  (forall g, gr = Ok g -> good_path path /\ contained (anchored g) (resolve g) /\
     exists d, anchored g = (if is_absolute path then TaskRoot else TaskDir d)) ->
  match gr with
  | Ok g => let '(v, more) := open_for_target p t sc g path in (v, (acts ++ more)%list)
  | Err d => (Verdict_deny sc t path (errno d) (reason d), acts)
  end = (v, acts') ->
  Forall (fun a => touches_task a /\ safe_open p a) acts'.
Proof.
  intros Hacts Hgr. destruct gr as [g|d]; [|by intros [= <- <-]].
  destruct (Hgr g eq_refl) as (Hp & Hc & d & Ha).
  destruct (open_for_target p t sc g path) as [v1 more] eqn:Ho. intros [= <- <-].
  apply Forall_app. split; [done|]. eapply open_for_target_acts; [done|done| |exact Ho].
  rewrite Ha. by destruct (is_absolute path).
Qed.

(** Everything after the pin: the notification is validated first, and nothing
    of the task is touched unless it was valid. *)
Lemma judge_pinned_acts notif sc p v acts :
  judge_pinned notif sc p = (v, acts) ->
  exists touched, acts = AIdValid (notif_id notif) :: touched /\
    Forall (fun a => touches_task a /\ safe_open p a) touched /\
    (id_valid (notif_id notif) = false -> touched = []).
Proof.
  unfold judge_pinned. destruct (id_valid (notif_id notif)); simpl.
  2: { intros [= <- <-]. exists []. split; [done|]. by split; [constructor|]. }
  destruct (read_path_into (mem p) (args (data notif) 1)) as [pr reads] eqn:Hr.
  apply read_path_into_acts in Hr.
  assert (Hreads : Forall (fun a => touches_task a /\ safe_open p a) reads).
  { eapply Forall_impl; [exact Hr|]. by intros a (x & w & ->). }
  assert (Hgo : forall gr v acts' (pre : list Action), Forall (fun a => touches_task a /\ safe_open p a) pre ->
     forall path, (forall g, gr = Ok g -> good_path path /\ contained (anchored g) (resolve g) /\
        exists d, anchored g = (if is_absolute path then TaskRoot else TaskDir d)) ->
     match gr with
     | Ok g => let '(v, more) := open_for_target p (notif_pid notif) sc g path in
               (v, ((AIdValid (notif_id notif) :: pre) ++ more)%list)
     | Err d => (Verdict_deny sc (notif_pid notif) path (errno d) (reason d), AIdValid (notif_id notif) :: pre)
     end = (v, acts') ->
     exists touched, acts' = AIdValid (notif_id notif) :: touched /\
       Forall (fun a => touches_task a /\ safe_open p a) touched /\ (true = false -> touched = [])).
  { intros gr v0 acts' pre Hpre path Hgr Heq.
    destruct (match gr with
              | Ok g => let '(v, more) := open_for_target p (notif_pid notif) sc g path in (v, (pre ++ more)%list)
              | Err d => (Verdict_deny sc (notif_pid notif) path (errno d) (reason d), pre)
              end) as [v1 a1] eqn:Hc.
    exists a1. split; [|split; [by eapply classify_conclude|done]].
    destruct gr as [g|d]; [|congruence]. destruct (open_for_target _ _ _ g path). simpl in *. congruence. }
  destruct pr as [path| |];
    [|intros [= <- <-]; by exists reads|intros [= <- <-]; by exists reads].
  destruct (String.eqb sc "openat").
  - apply Hgo; [done|]. intros g Hg. apply classify_openat_inv in Hg as (_ & ? & ? & ? & _).
    split; [done|]. split; [done|]. by eexists.
  - destruct (String.eqb sc "openat2"); [|intros [= <- <-]; by exists reads].
    assert (Hpre : Forall (fun a => touches_task a /\ safe_open p a)
                     (reads ++ [AReadMem (mem p) (args (data notif) 2) 24])%list).
    { apply Forall_app. split; [done|]. by forall_each. }
    destruct (read_open_how _ _) as [how|]; [|intros [= <- <-]; by eexists].
    apply (Hgo _ _ _ _ Hpre). intros g Hg. apply classify_openat2_inv in Hg as (_ & _ & ? & ? & ? & _).
    split; [done|]. split; [done|]. by eexists.
Qed.

(** ** Lemmas on reading a path *)

Lemma position0_None l : position0 l = None -> 0 ∉ l.
Proof.
  induction l as [|b l IH]; simpl; [intros _; apply not_elem_of_nil|].
  destruct (Z.eqb_spec b 0); [done|]. destruct (position0 l); [done|]. intros _.
  apply not_elem_of_cons. split; [done|by apply IH].
Qed.

Lemma position0_Some l pos :
  position0 l = Some pos -> l !! pos = Some 0 /\ 0 ∉ take pos l.
Proof.
  revert pos. induction l as [|b l IH]; intros pos; simpl; [done|].
  destruct (Z.eqb_spec b 0) as [->|]; [intros [= <-]; split; [done|apply not_elem_of_nil]|].
  destruct (position0 l) as [q|]; [|done]. intros [= <-]. destruct (IH q eq_refl) as [H1 H2].
  split; [done|]. simpl. apply not_elem_of_cons. by split.
Qed.

(** [l] is what the target's memory holds from [at_addr] on. *)
Definition holds (bytes : Z -> Z) (at_addr : Z) (l : list Z) : Prop :=
  forall i b, l !! i = Some b -> b = bytes (at_addr + Z.of_nat i).

(** A read returns at most what was asked for, all of it the task's memory. *)
Definition reads_memory (m : Z) (bytes : Z -> Z) : Prop :=
  forall at_addr want l, read_at m at_addr want = Some l -> (length l <= want)%nat /\ holds bytes at_addr l.

Lemma holds_app bytes a l l' :
  holds bytes a l -> holds bytes (a + Z.of_nat (length l)) l' -> holds bytes a (l ++ l')%list.
Proof.
  intros Hl Hl' i b Hi. apply lookup_app_Some in Hi as [Hi|[Hle Hi]]; [by apply Hl|].
  rewrite (Hl' _ _ Hi). f_equal. lia.
Qed.

Lemma holds_take bytes a n l : holds bytes a l -> holds bytes a (take n l).
Proof. intros Hl i b [Hi _]%lookup_take_Some. by apply Hl. Qed.

Definition path_read_ok (bytes : Z -> Z) (ptr : Z) (r : PathRead) : Prop :=
  match r with
  | Found p => (length p < MAX_PATH)%nat /\ 0 ∉ p /\ holds bytes ptr p /\
               bytes (ptr + Z.of_nat (length p)) = 0
  | TooLong => exists p, length p = MAX_PATH /\ holds bytes ptr p /\ 0 ∉ p
  | Unreadable => True
  end.

Lemma read_path_loop_ok fuel m bytes ptr buf r acts :
  reads_memory m bytes ->
  (MAX_PATH <= fuel + length buf)%nat -> (length buf < MAX_PATH)%nat ->
  0 ∉ buf -> holds bytes ptr buf ->
  read_path_loop fuel m ptr buf (Z.of_nat (length buf)) = (r, acts) ->
  exists pr, r = Some pr /\ path_read_ok bytes ptr pr.
Proof.
  intros Hm. revert buf r acts. induction fuel as [|fuel IH]; intros buf r acts Hf Hlen Hnul Hh; [lia|].
  cbn [read_path_loop]. cbv zeta.
  destruct (checked_add 64 ptr _) as [at_addr|] eqn:Hat; [|intros [= <- <-]; by eexists].
  unfold checked_add in Hat. destruct (_ <? _) in Hat; [|done]. injection Hat as <-.
  destruct (read_at m _ _) as [[|b bs]|] eqn:Hr; [intros [= <- <-]; by eexists| |intros [= <- <-]; by eexists].
  destruct (Hm _ _ _ Hr) as [Hwant Hbytes]. remember (b :: bs) as l eqn:El.
  assert (Hl0 : (0 < length l)%nat) by (subst; simpl; lia).
  assert (Hle : (length buf + length l <= MAX_PATH)%nat) by (unfold MAX_PATH in *; lia).
  destruct (position0 l) as [pos|] eqn:Hp.
  - intros [= <- <-]. eexists. split; [done|]. apply position0_Some in Hp as [Hpos Hn].
    pose proof (lookup_lt_Some _ _ _ Hpos). cbn [path_read_ok].
    rewrite length_app, length_take_le by lia. split_and!; [lia| | |].
    + rewrite elem_of_app. tauto.
    + apply holds_app; [done|]. by apply holds_take.
    + rewrite Nat2Z.inj_add, Z.add_assoc. symmetry. by apply Hbytes.
  - apply position0_None in Hp.
    destruct (checked_add 64 (Z.of_nat (length buf)) _) as [off'|] eqn:Hoff; [|intros [= <- <-]; by eexists].
    unfold checked_add in Hoff. destruct (_ <? _) in Hoff; [|done]. injection Hoff as <-.
    rewrite <-Nat2Z.inj_add, <-length_app.
    assert (Hnul' : 0 ∉ (buf ++ l)%list) by (rewrite elem_of_app; tauto).
    assert (Hh' : holds bytes ptr (buf ++ l)%list) by (by apply holds_app).
    destruct (Nat.eqb_spec (length (buf ++ l)%list) MAX_PATH) as [Hmax|Hmax].
    + intros [= <- <-]. eexists. split; [done|]. by exists (buf ++ l)%list.
    + destruct (read_path_loop fuel m ptr _ _) as [r1 acts1] eqn:Hrec. intros [= <- <-].
      eapply IH; [| | | |exact Hrec]; [rewrite length_app; lia|rewrite length_app in *; lia|done|done].
Qed.

End JudgeLemmas.

(** ** Lemmas on the pin cache *)

Definition cache_wf (c : PinCache) : Prop :=
  dom (pins c) ⊆ (list_to_set (order c) : gset Z) /\ Z.of_nat (size (pins c)) <= max_tasks c.

Lemma evict_ok max p o :
  0 < max -> dom p ⊆ (list_to_set o : gset Z) ->
  let '(p', o') := evict max p o in
  Z.of_nat (size p') < max /\ dom p' ⊆ (list_to_set o' : gset Z) /\ p' ⊆ p.
Proof.
  intros Hmax. revert p. induction o as [|x o IH]; intros p Hd; cbn [evict].
  - assert (p = ∅) as ->.
    { apply (dom_empty_inv_L (D := gset Z)). simpl in Hd. set_solver. }
    rewrite map_size_empty. destruct (Z.leb_spec max (Z.of_nat 0)); [lia|].
    rewrite map_size_empty. by split_and!; [lia| |].
  - destruct (Z.leb_spec max (Z.of_nat (size p))); [|by split_and!].
    assert (Hd' : dom (delete x p) ⊆ (list_to_set o : gset Z)).
    { rewrite dom_delete_L. simpl in Hd. set_solver. }
    specialize (IH _ Hd'). destruct (evict max (delete x p) o) as [p' o'].
    destruct IH as (H1 & H2 & H3). split_and!; [done..|]. etrans; [done|apply delete_subseteq].
Qed.

Lemma for_task_wf `{BrokerHost} c t r c' acts :
  0 <= max_tasks c -> cache_wf c -> for_task c t = (r, c', acts) ->
  cache_wf c' /\ max_tasks c' = max_tasks c.
Proof.
  intros Hmax [Hdom Hsize]. unfold for_task.
  destruct (match pins c !! t with Some p => _ | None => None end) as [p|].
  { intros [= <- <- <-]. by split. }
  assert (Hd1 : dom (delete t (pins c)) ⊆ (list_to_set (order c) : gset Z))
    by (rewrite dom_delete_L; set_solver).
  destruct (Z.eqb_spec (max_tasks c) 0) as [H0|H0].
  - intros [= <- <- <-]. split; [|done]. split; [done|]. simpl.
    assert (size (delete t (pins c)) <= size (pins c))%nat
      by (apply map_subseteq_size, delete_subseteq). lia.
  - pose proof (evict_ok (max_tasks c) (delete t (pins c)) (order c) ltac:(lia) Hd1) as He.
    destruct (evict _ _ _) as [p2 o2]. destruct He as (Hs2 & Hd2 & _).
    destruct (pin_open t) as [p|]; intros [= <- <- <-]; (split; [|done]); split; simpl; try done; try lia.
    + rewrite dom_insert_L, list_to_set_app_L. simpl. set_solver.
    + destruct (p2 !! t) eqn:Ht.
      * rewrite map_size_insert_Some by (by eexists). lia.
      * rewrite map_size_insert_None by done. lia.
Qed.

(** A history of lookups, each against its own state of the world. *)
Definition lookups (calls : list (BrokerHost * Z)) (c : PinCache) : PinCache :=
  fold_left (fun c ht => snd (fst (@for_task (fst ht) c (snd ht)))) calls c.

Lemma lookups_wf calls c :
  0 <= max_tasks c -> cache_wf c -> cache_wf (lookups calls c) /\ max_tasks (lookups calls c) = max_tasks c.
Proof.
  revert c. induction calls as [|[h t] calls IH]; intros c Hm Hwf; [done|].
  cbn [lookups fold_left fst snd]. destruct (@for_task h c t) as [[r c1] a] eqn:Hf.
  destruct (for_task_wf c t r c1 a Hm Hwf Hf) as [Hwf1 Hm1].
  fold (lookups calls c1). rewrite <-Hm1. apply IH; [by rewrite Hm1|done].
Qed.

(** ** Lemmas on the answer *)

(** The operating system reports failures with positive error numbers. *)
Definition errno_positive `{BrokerHost} : Prop :=
  (forall t e, pin_open t = Err e -> 0 < e) /\ (forall t e, open_cwd t = Err e -> 0 < e) /\
  (forall p d e, pidfd_getfd p d = Err e -> 0 < e) /\
  (forall d p h e, openat2 d p h = Err e -> 0 < e) /\ (forall a e, addfd a = Err e -> 0 < e).

Definition deny_positive (d : Decision) : Prop :=
  match d with Deny e _ => 0 < e | InjectFd _ _ => True end.

Lemma check_open_flags_errno flags d : check_open_flags flags = Err d -> 0 < errno d.
Proof.
  unfold check_open_flags. simpl. repeat break_match; intros [= <-]; done.
Qed.

Lemma check_path_errno path d : check_path path = Err d -> 0 < errno d.
Proof. unfold check_path. repeat break_match; intros [= <-]; done. Qed.

Lemma classify_openat_errno dirfd flags path d :
  classify_openat dirfd flags path = Err d -> 0 < errno d.
Proof.
  unfold classify_openat. destruct (check_open_flags flags) as [[]|] eqn:Hf;
    [|intros [= <-]; by eapply check_open_flags_errno].
  destruct (check_path path) as [[]|] eqn:Hp; [done|]. intros [= <-]. by eapply check_path_errno.
Qed.

Lemma classify_openat2_errno dirfd size how path d :
  classify_openat2 dirfd size how path = Err d -> 0 < errno d.
Proof.
  unfold classify_openat2.
  repeat match goal with |- (if ?b then Err _ else _) = _ -> _ => destruct b; [by intros [= <-]|] end.
  cbv zeta. destruct (check_open_flags _) as [[]|] eqn:Hf;
    [|intros [= <-]; by eapply check_open_flags_errno].
  destruct (check_path path) as [[]|] eqn:Hp; [|intros [= <-]; by eapply check_path_errno].
  repeat break_match; intros; simplify_eq; done.
Qed.

Section Answer.
Context `{BrokerHost} (Herr : errno_positive).

Lemma open_for_target_errno p t sc g path :
  deny_positive (v_decision (fst (open_for_target p t sc g path))).
Proof.
  destruct Herr as (_ & Hcwd & Hget & Hopen & _). unfold open_for_target.
  repeat break_match; simpl; eauto; done.
Qed.

Lemma judge_pinned_errno notif sc p : deny_positive (v_decision (fst (judge_pinned notif sc p))).
Proof.
  unfold judge_pinned. destruct (negb _); [done|].
  destruct (read_path_into _ _) as [[path| |] reads]; [|done..].
  destruct (String.eqb sc "openat").
  - destruct (classify_openat _ _ path) as [g|d] eqn:Hc; [|by eapply classify_openat_errno].
    pose proof (open_for_target_errno p (notif_pid notif) sc g path) as Ho.
    by destruct (open_for_target _ _ _ _ _).
  - destruct (String.eqb sc "openat2"); [|done]. destruct (read_open_how _ _) as [how|]; [|done].
    destruct (classify_openat2 _ _ _ path) as [g|d] eqn:Hc; [|by eapply classify_openat2_errno].
    pose proof (open_for_target_errno p (notif_pid notif) sc g path) as Ho.
    by destruct (open_for_target _ _ _ _ _).
Qed.

Lemma judge_errno notif c : deny_positive (v_decision (fst (fst (judge notif c)))).
Proof.
  unfold judge. destruct (brokered_syscall_name _) as [sc|]; [|done]. destruct (negb _); [done|].
  destruct (for_task c (notif_pid notif)) as [[[h|e] c'] acts] eqn:Hf.
  - pose proof (judge_pinned_errno notif sc (pins_of h)) as Hj.
    by destruct (judge_pinned notif sc (pins_of h)).
  - simpl. destruct Herr as (Hpin & _). unfold for_task in Hf.
    repeat break_match_hyp; simplify_eq; eauto.
Qed.

End Answer.

(** The shape of a judgment's trace: pins first, then the validation, then the
    task. *)
Lemma judge_acts `{BrokerHost} notif c v c' acts :
  judge notif c = (v, c', acts) ->
  exists pinned rest, acts = (pinned ++ rest)%list /\ Forall is_pin pinned /\
    (rest = [] \/ exists p touched,
       rest = AIdValid (notif_id notif) :: touched /\
       Forall (fun a => touches_task a /\ safe_open p a) touched /\
       (id_valid (notif_id notif) = false -> touched = [])).
Proof.
  unfold judge. destruct (brokered_syscall_name _) as [sc|].
  2: { intros [= <- <- <-]. exists [], []. split; [done|]. split; [constructor|by left]. }
  destruct (negb _). { intros [= <- <- <-]. exists [], []. split; [done|]. split; [constructor|by left]. }
  destruct (for_task c (notif_pid notif)) as [[[h|e] c1] pinned] eqn:Hf; apply for_task_acts in Hf.
  - destruct (judge_pinned notif sc (pins_of h)) as [v1 more] eqn:Hj. intros [= <- <- <-].
    exists pinned, more. split; [done|]. split; [done|]. right.
    apply judge_pinned_acts in Hj as (touched & ? & ? & ?). by exists (pins_of h), touched.
  - intros [= <- <- <-]. exists pinned, []. rewrite app_nil_r. split; [done|]. split; [done|by left].
Qed.

Lemma judge_no_send `{BrokerHost} notif c v c' acts r :
  judge notif c = (v, c', acts) -> ASend r ∉ acts.
Proof.
  intros (pinned & rest & -> & Hp & Hrest)%judge_acts Hin. rewrite Forall_forall in Hp.
  apply elem_of_app in Hin as [Hin|Hin]; [by apply Hp in Hin|].
  destruct Hrest as [->|(p & touched & -> & Ht & _)]; [by apply elem_of_nil in Hin|].
  apply elem_of_cons in Hin as [Hin|Hin]; [done|]. rewrite Forall_forall in Ht.
  by apply Ht in Hin as [? _].
Qed.

(** ** Properties *)

(** C12. Only confined read-only opens are granted: whatever the workload
    passed, a granted [openat]/[openat2] asked for no write, creation,
    truncation or path-only handle, its path is one the kernel accepts, and the
    broker resolves it inside the task's root (absolute paths) or under exactly
    one directory confinement (relative paths), never through magic links and
    never with fewer restrictions than the caller asked for. *)
Theorem grants_are_confined (dirfd : Z) (path : list Z) (g : Grant) :
  (forall flags, classify_openat dirfd flags path = Ok g ->
     harmless flags /\ good_path path /\ contained (anchored g) (resolve g) /\
     anchored g = (if is_absolute path then TaskRoot else TaskDir dirfd)) /\
  (forall size how, classify_openat2 dirfd size how path = Ok g ->
     harmless (as_signed 32 (how_flags how)) /\ good_path path /\
     contained (anchored g) (resolve g) /\
     anchored g = (if is_absolute path then TaskRoot else TaskDir dirfd) /\
     (forall i, 0 <= i -> i <> 3 -> i <> 4 ->
        Z.testbit (Z.land (how_resolve how) KNOWN_RESOLVE) i = true ->
        Z.testbit (resolve g) i = true) /\
     (Z.testbit (how_resolve how) 3 = true -> Z.testbit (resolve g) 3 = true)).
Proof.
  split.
  - intros flags (? & ? & ? & ? & _)%classify_openat_inv. done.
  - intros size how (_ & ? & ? & ? & ? & ? & ? & _)%classify_openat2_inv. done.
Qed.

Lemma grants_are_confined_witness :
  exists g, classify_openat 3 0 [47; 101; 116; 99] = Ok g /\ anchored g = TaskRoot /\ resolve g = 0x12.
Proof.
  eexists. split; [reflexivity|]. split; [|reflexivity].
  exact (proj2 (proj2 (proj2 (proj1 (grants_are_confined 3 [47; 101; 116; 99] _) 0 eq_refl)))).
Defined.

(** C9. The race protocol of the judgment path: in every judgment the task is
    pinned first, then the notification is validated, and the task's memory,
    directories and files are touched only after that validation, and not at
    all when it failed. *)
Theorem judge_race_protocol `{BrokerHost} (notif : SeccompNotif) (c c' : PinCache) (v : Verdict)
    (acts : list Action) :
  judge notif c = (v, c', acts) ->
  exists pinned rest, acts = (pinned ++ rest)%list /\ Forall is_pin pinned /\
    (rest = [] \/ exists touched, rest = AIdValid (notif_id notif) :: touched /\
       Forall touches_task touched /\ (id_valid (notif_id notif) = false -> touched = [])).
Proof.
  intros (pinned & rest & Ha & Hp & Hrest)%judge_acts. exists pinned, rest. split; [done|].
  split; [done|]. destruct Hrest as [->|(p & touched & ? & Ht & ?)]; [by left|right].
  exists touched. split; [done|]. split; [|done]. eapply Forall_impl; [exact Ht|]. by intros a [? _].
Qed.

(** Every file the broker opens with its own authority is opened
    read-only with no side effect, through a path without NUL bytes, an
    absolute one from the pinned task's root and confined to it, a relative one
    confined under its directory. *)
Theorem broker_opens_are_confined `{BrokerHost} (notif : SeccompNotif) (c c' : PinCache)
    (v : Verdict) (acts : list Action) :
  judge notif c = (v, c', acts) -> exists p, Forall (safe_open p) acts.
Proof.
  intros (pinned & rest & -> & Hp & Hrest)%judge_acts.
  assert (Hpin : forall q, Forall (safe_open q) pinned).
  { intros q. eapply Forall_impl; [exact Hp|]. by intros []. }
  destruct Hrest as [->|(p & touched & -> & Ht & _)].
  - exists (mkPins 0 0 0). rewrite app_nil_r. apply Hpin.
  - exists p. apply Forall_app. split; [apply Hpin|]. apply Forall_cons_2; [done|].
    eapply Forall_impl; [exact Ht|]. by intros a [_ ?].
Qed.

(** C13. Every notification is answered, exactly once and never with "continue
    with ambient authority": one SEND ends the round, with the notification's
    id and no flags, carrying either a strictly negative error or the
    descriptor the kernel installed. *)
Theorem notification_answered_once `{BrokerHost} (notif : SeccompNotif) (c c' : PinCache)
    (l l' : DecisionLog) (acts : list Action) :
  errno_positive -> serve_one notif c l = (c', l', acts) ->
  exists before r, acts = (before ++ [ASend r])%list /\ (forall r', ASend r' ∉ before) /\
    resp_id r = notif_id notif /\ resp_flags r = 0 /\
    ((resp_error r < 0 /\ val r = 0) \/
     (resp_error r = 0 /\ exists a, AAddFd a ∈ before /\ add_id a = notif_id notif /\
        addfd a = Ok (val r))).
Proof.
  intros Herr. unfold serve_one. destruct (judge notif c) as [[v c1] acts1] eqn:Hj.
  pose proof (judge_errno Herr notif c) as Hpos. rewrite Hj in Hpos. simpl in Hpos.
  pose proof (fun r => judge_no_send notif c v c1 acts1 r Hj) as Hns.
  unfold respond, answer_of. destruct (v_decision v) as [e rs|fd cl]; simpl in Hpos.
  - intros [= <- <- <-]. exists acts1, (mkResp (notif_id notif) 0 (- e) 0).
    split; [done|]. split; [done|]. split; [done|]. split; [done|]. left. simpl. lia.
  - cbv zeta. set (a := mkAddfd _ _ _ _ _).
    assert (Hns' : forall r', ASend r' ∉ (acts1 ++ [AAddFd a])%list).
    { intros r'. rewrite elem_of_app, list_elem_of_singleton. intros [?|[=]]. by eapply Hns. }
    destruct (addfd a) as [t|e] eqn:Ha; intros [= <- <- <-].
    + exists (acts1 ++ [AAddFd a])%list, (mkResp (notif_id notif) t 0 0).
      rewrite <-app_assoc. split; [done|]. split; [done|]. split; [done|]. split; [done|]. right.
      split; [done|]. exists a. split; [|done]. apply elem_of_app. right. by apply list_elem_of_singleton.
    + exists (acts1 ++ [AAddFd a])%list, (mkResp (notif_id notif) 0 (- e) 0).
      rewrite <-app_assoc. split; [done|]. split; [done|]. split; [done|]. split; [done|]. left.
      destruct Herr as (_ & _ & _ & _ & Hadd). specialize (Hadd _ _ Ha). simpl. lia.
Qed.

(** Paths are read exactly: the read always ends, a found path is the
    bytes of the task's memory up to its first NUL and shorter than PATH_MAX,
    and "too long" means PATH_MAX bytes without a NUL. *)
Theorem path_read_exactly `{BrokerHost} (m ptr : Z) (bytes : Z -> Z) (r : PathRead)
    (acts : list Action) :
  reads_memory m bytes -> read_path_into m ptr = (r, acts) ->
  path_read_ok bytes ptr r /\ exists pr acts', read_path_loop MAX_PATH m ptr [] 0 = (Some pr, acts').
Proof.
  intros Hm. unfold read_path_into.
  destruct (read_path_loop MAX_PATH m ptr [] 0) as [o acts'] eqn:Hl.
  destruct (read_path_loop_ok MAX_PATH m bytes ptr [] o acts' Hm) as (pr & -> & Hok);
    [unfold MAX_PATH; simpl; lia|unfold MAX_PATH; simpl; lia|apply not_elem_of_nil| |exact Hl|].
  - intros i b Hi. by rewrite lookup_nil in Hi.
  - intros [= <- <-]. split; [done|]. by do 2 eexists.
Qed.

(** The pin cache is bounded: after any history of lookups, tasks living
    and dying as they please, it holds at most its capacity, and a capacity of
    zero holds nothing. *)
Theorem pin_cache_bounded (calls : list (BrokerHost * Z)) (capacity : Z) :
  0 <= capacity -> Z.of_nat (size (pins (lookups calls (PinCache_new capacity)))) <= capacity.
Proof.
  intros Hc. destruct (lookups_wf calls (PinCache_new capacity)) as [[_ Hs] Hm].
  - done.
  - split; [simpl; set_solver|]. unfold PinCache_new. cbn [pins max_tasks].
    rewrite map_size_empty. done.
  - rewrite Hm in Hs. exact Hs.
Qed.

(** ** A concrete host *)

(** The target's memory holds the path [/x] at address 1000. *)
Definition sample_byte (addr : Z) : Z :=
  if addr =? 1000 then 47 else if addr =? 1001 then 120 else 0.

(** Tasks always look dead, every call succeeds. *)
Definition sample_host : BrokerHost := {|
  pin_alive _ := false;
  pin_open t := Ok (mkPins (10 * t) (10 * t + 1) (10 * t + 2));
  id_valid _ := true;
  read_at _ at_addr want := Some (map (fun i => sample_byte (at_addr + Z.of_nat i)) (List.seq 0 want));
  read_exact_at _ _ _ := None;
  open_cwd _ := Err ENOENT;
  pidfd_getfd _ _ := Err ESRCH;
  openat2 _ _ _ := Ok 7;
  addfd _ := Ok 3;
  errno_text _ := "error";
  log_write_ok _ := true;
  now_ms := 0
|}.

Definition sample_args (i : nat) : Z := match i with 1%nat => 1000 | _ => 0 end.
Definition sample_notif : SeccompNotif :=
  mkNotif 77 5 0 (mkData NR_OPENAT NATIVE_ARCH 0 sample_args).
Definition sample_cache : PinCache := PinCache_new 8.
Definition sample_log : DecisionLog := mkLog (Some []) 0 false.

Definition sample_judged := @judge sample_host sample_notif sample_cache.

Lemma sample_judged_eq :
  sample_judged = (fst (fst sample_judged), snd (fst sample_judged), snd sample_judged).
Proof. by destruct sample_judged as [[v c] a]. Qed.

Lemma judge_race_protocol_witness :
  exists pinned rest, snd sample_judged = (pinned ++ rest)%list /\ Forall is_pin pinned.
Proof.
  destruct (@judge_race_protocol sample_host sample_notif sample_cache _ _ _ sample_judged_eq)
    as (pinned & rest & H1 & H2 & _).
  exists pinned, rest. split; [exact H1|exact H2].
Defined.

Lemma broker_opens_are_confined_witness :
  AOpenat2 52 [47; 120] (mkHow 0x80100 0 0x12) ∈ snd sample_judged /\
  exists p, Forall (safe_open p) (snd sample_judged).
Proof.
  split.
  - vm_compute. repeat first [apply list_elem_of_here | apply list_elem_of_further].
  - exact (@broker_opens_are_confined sample_host sample_notif sample_cache _ _ _ sample_judged_eq).
Defined.

Lemma sample_errno : @errno_positive sample_host.
Proof. unfold errno_positive. cbn. split_and!; intros; simplify_eq; done. Qed.

Lemma notification_answered_once_witness :
  exists before r, snd (@serve_one sample_host sample_notif sample_cache sample_log)
                   = (before ++ [ASend r])%list /\ resp_id r = 77.
Proof.
  destruct (@serve_one sample_host sample_notif sample_cache sample_log) as [[c l] acts] eqn:Hs.
  destruct (@notification_answered_once sample_host sample_notif sample_cache c sample_log l acts
              sample_errno Hs) as (before & r & Ha & _ & Hid & _).
  exists before, r. split; [exact Ha|exact Hid].
Defined.

Lemma path_read_exactly_witness :
  path_read_ok sample_byte 1000 (fst (@read_path_into sample_host 51 1000)).
Proof.
  apply (@path_read_exactly sample_host 51 1000 sample_byte _ (snd (@read_path_into sample_host 51 1000))).
  - intros at_addr want l. cbn [read_at sample_host]. intros [= <-]. split.
    + by rewrite length_map, length_seq.
    + intros i b Hi. rewrite list_lookup_fmap in Hi.
      destruct (List.seq 0 want !! i) as [j|] eqn:Hj; simplify_eq/=.
      apply lookup_seq in Hj as [-> _]. done.
  - by destruct (@read_path_into sample_host 51 1000).
Defined.

Lemma pin_cache_bounded_witness :
  Z.of_nat (size (pins (lookups [(sample_host, 1); (sample_host, 2); (sample_host, 3)] (PinCache_new 2)))) <= 2.
Proof. apply (pin_cache_bounded [(sample_host, 1); (sample_host, 2); (sample_host, 3)] 2). lia. Defined.

(** Only the pins are bounded: a task that is found dead and pinned again
    is appended to the eviction queue each time, so for every length there is a
    history after which the queue is that long while a single task is cached. *)
Theorem pin_order_unbounded (n : nat) (capacity : Z) :
  1 <= capacity ->
  exists calls, length (order (lookups calls (PinCache_new capacity))) = n /\
    Z.of_nat (size (pins (lookups calls (PinCache_new capacity)))) <= 1.
Proof.
  intros Hc. exists (repeat (sample_host, 1) n).
  assert (Hgen : forall c, max_tasks c = capacity -> dom (pins c) ⊆ ({[1]} : gset Z) ->
    length (order (lookups (repeat (sample_host, 1) n) c)) = (length (order c) + n)%nat /\
    dom (pins (lookups (repeat (sample_host, 1) n) c)) ⊆ ({[1]} : gset Z)).
  { induction n as [|k IH]; intros c Hm Hd; [simpl; split; [lia|done]|].
    change (lookups (repeat (sample_host, 1) (S k)) c) with
      (lookups (repeat (sample_host, 1) k) (snd (fst (@for_task sample_host c 1)))).
    assert (Hstep : snd (fst (@for_task sample_host c 1)) =
      mkCache (<[1 := mkPins 10 11 12]> (delete 1 (pins c))) (order c ++ [1])%list (max_tasks c)).
    { unfold for_task. rewrite Hm. destruct (Z.eqb_spec capacity 0); [lia|].
      assert (evict capacity (delete 1 (pins c)) (order c) = (delete 1 (pins c), order c)) as Hev.
      { assert (delete 1 (pins c) = ∅) as ->.
        { apply (dom_empty_inv_L (D := gset Z)). rewrite dom_delete_L. set_solver. }
        destruct (order c); cbn [evict]; rewrite map_size_empty;
          destruct (Z.leb_spec capacity (Z.of_nat 0)); (lia || done). }
      destruct (pins c !! 1); cbn [pin_alive sample_host pin_open]; by rewrite Hev. }
    rewrite Hstep. destruct (IH (mkCache (<[1 := mkPins 10 11 12]> (delete 1 (pins c)))
                                   (order c ++ [1])%list (max_tasks c))) as [H1 H2]; [done| |].
    - cbn [pins]. rewrite dom_insert_L, dom_delete_L. set_solver.
    - rewrite H1. cbn [order]. rewrite length_app. simpl. split; [lia|done]. }
  destruct (Hgen (PinCache_new capacity)) as [H1 H2]; [done|simpl; set_solver|].
  split; [exact H1|]. rewrite <-size_dom. apply subseteq_size in H2. rewrite size_singleton in H2. lia.
Qed.

Lemma pin_order_unbounded_witness :
  exists calls, length (order (lookups calls (PinCache_new 4))) = 1000%nat /\
    Z.of_nat (size (pins (lookups calls (PinCache_new 4)))) <= 1.
Proof. apply (pin_order_unbounded 1000 4). lia. Defined.

(** The judge pool is sized within its limits: between 1 and 64 judges
    whatever the configuration says, a cache clamped so that its descriptors
    fit the limit with headroom; but in a pool a disabled cache (capacity 0)
    still gives every judge one entry. *)
Theorem pool_sizing (threads cache : option string) (nofile : Z) :
  0 <= nofile ->
  let n := judge_threads_from threads in
  let cap := cache_cap_within (cache_max_tasks_from cache) nofile in
  1 <= n <= 64 /\
  (0 < cap -> 3 * cap + FD_HEADROOM <= nofile) /\
  (n <= cap -> n * per_judge_cache cap n <= cap) /\
  (1 < n -> cap = 0 -> per_judge_cache cap n = 1).
Proof.
  intros Hn n cap.
  assert (Hr : 1 <= n <= 64) by (apply clamp_range; unfold MIN_JUDGE_THREADS, MAX_JUDGE_THREADS; lia).
  split; [done|]. split; [|split].
  - unfold cap, cache_cap_within. destruct (_ =? 0); [lia|].
    unfold saturating_sub, FD_HEADROOM. intros H0.
    pose proof (Z.mul_div_le (Z.max 0 (nofile - 96)) 3 ltac:(lia)).
    pose proof (Z.le_min_r (cache_max_tasks_from cache) (Z.max 0 (nofile - 96) / 3)). lia.
  - intros Hle. unfold per_judge_cache. destruct (Z.eqb_spec n 1) as [->|]; [lia|].
    rewrite Z.max_l; [|apply Z.div_le_lower_bound; lia].
    apply Z.mul_div_le. lia.
  - intros H1 H0. unfold per_judge_cache. rewrite H0, Z.div_0_l by lia.
    destruct (Z.eqb_spec n 1); lia.
Qed.

Lemma pool_sizing_witness :
  per_judge_cache (cache_cap_within (cache_max_tasks_from (Some "0")) 1024) (judge_threads_from None) = 1.
Proof.
  apply (pool_sizing None (Some "0") 1024); [lia|reflexivity|reflexivity].
Defined.

End Broker.
