(* ===== verification/IpAllocator.v ===== *)
(** * The zone address allocator

    [rauhad/src/network/allocator.rs] hands out IPv4 addresses to zones from
    the subnet that [rauhad/src/config.rs] ([parse_cidr]) accepts.  The
    allocator keeps host offsets; the abstract pool of this file keeps
    addresses, and the refinement theorem relates the two along every history
    of calls. *)

From stdpp Require Import base gmap strings list fin_maps sets.
From Stdlib Require Import ZArith Lia Ascii.
From S2P Require Import Prelude RustStr EnforcerApi Zone.

Module Ip.

Import Str.
Open Scope Z_scope.

(** ** Addresses as big-endian octets *)

Definition from_be_bytes (o : list Z) : Z := fold_left (fun acc b => acc * 256 + b) o 0.

Definition to_be_bytes (n : Z) : list Z :=
  [wrap 8 (Z.shiftr n 24); wrap 8 (Z.shiftr n 16); wrap 8 (Z.shiftr n 8); wrap 8 n].

(** Shifts and subtraction on [u32], as an optimised build computes them. *)
Definition shl32 (x n : Z) : Z := wrap 32 (Z.shiftl x (n mod 32)).
Definition wrapping_sub32 (a b : Z) : Z := wrap 32 (a - b).

(** ** The configured subnet *)

Section Cidr.

(** [{:?}] of a string, and a literal string in quotation marks. *)
Variable debug : string -> string.
Definition quoted (s : string) : string :=
  String "034" (s ++ String "034" EmptyString)%string.

Definition parse_ipv4 (s : string) : option (list Z) :=
  if Nat.ltb 15 (String.length s) then None
  else match Zone.read_ipv4_addr s with
       | Some (o, rest) => if String.eqb rest "" then Some o else None
       | None => None
       end.

Definition parse_cidr (cidr : string) : result (list Z * Z) RauhaError :=
  match split_once "/" cidr with
  | None => Err (InvalidInput ("subnet " ++ debug cidr
              ++ " is not a CIDR (expected e.g. " ++ quoted "10.89.0.0/16" ++ ")")%string)
  | Some (addr, prefix) =>
      let? octets := ok_or (parse_ipv4 addr)
                       (InvalidInput ("subnet address " ++ debug addr ++ " is not IPv4")%string) in
      let? prefix := map_err (fun _ =>
                       InvalidInput ("subnet prefix " ++ debug prefix ++ " is not a number")%string)
                       (parse_uint 8 prefix) in
      if 32 <? prefix then
        Err (InvalidInput ("subnet prefix /" ++ show prefix ++ " is invalid (max /32)")%string)
      else if prefix <? 16 then
        Err (InvalidInput ("subnet /" ++ show prefix
               ++ " is larger than /16 — refusing: a zone network that big "
               ++ "exhausts the address space Rauha is allowed to manage")%string)
      else if 30 <? prefix then
        Err (InvalidInput ("subnet /" ++ show prefix
               ++ " is too small — /30 is the minimum that fits a gateway "
               ++ "plus at least one zone (got " ++ cidr ++ ")")%string)
      else
        let bits := from_be_bytes octets in
        let host_mask := if prefix =? 32 then 0 else Z.shiftr (2 ^ 32 - 1) prefix in
        if negb (Z.land bits host_mask =? 0) then
          Err (InvalidInput ("subnet " ++ cidr
                 ++ " has host bits set (expected a network address like 10.89.0.0/16)")%string)
        else Ok (octets, prefix)
  end.

End Cidr.

(** ** The allocator *)

Record IpAllocator := mkAlloc { subnet : list Z; prefix_len : Z; allocated : gset Z }.

(** [new] panics on a prefix longer than 30. *)
Definition new (subnet : list Z) (prefix_len : Z) : option IpAllocator :=
  if prefix_len <=? 30 then Some (mkAlloc subnet prefix_len {[0; 1]}) else None.

Definition with_allocated (a : IpAllocator) (s : gset Z) : IpAllocator :=
  mkAlloc (subnet a) (prefix_len a) s.

Definition max_host_offset (a : IpAllocator) : Z :=
  let host_bits := wrapping_sub32 32 (prefix_len a) in
  wrapping_sub32 (shl32 1 host_bits) 2.

Definition offset_to_ip (a : IpAllocator) (offset : Z) : list Z :=
  to_be_bytes (wrap 32 (from_be_bytes (subnet a) + offset)).

Definition ip_to_offset (a : IpAllocator) (ip : list Z) : Z :=
  wrapping_sub32 (from_be_bytes ip) (from_be_bytes (subnet a)).

Definition validated_offset (a : IpAllocator) (ip : list Z) : option Z :=
  let offset := ip_to_offset a ip in
  if (1 <? offset) && (offset <=? max_host_offset a) then Some offset else None.

Definition gateway (a : IpAllocator) : list Z := offset_to_ip a 1.

(** The search loop over [offset..=max_offset], [n] offsets long. *)
Fixpoint first_free (used : gset Z) (n : nat) (offset : Z) : option Z :=
  match n with
  | O => None
  | S n' => if bool_decide (offset ∈ used) then first_free used n' (offset + 1) else Some offset
  end.

Definition allocate (a : IpAllocator) : result (list Z) RauhaError * IpAllocator :=
  let max_offset := max_host_offset a in
  match first_free (allocated a) (Z.to_nat (max_offset - 1)) 2 with
  | Some offset =>
      (Ok (offset_to_ip a offset), with_allocated a ({[offset]} ∪ allocated a))
  | None =>
      (Err (NetworkError
              ("IP address pool exhausted (" ++ show (Z.of_nat (size (allocated a)))
               ++ " addresses allocated out of " ++ show max_offset ++ ")")%string
              "destroy unused zones to free IP addresses"), a)
  end.

Definition mark_allocated (a : IpAllocator) (ip : list Z) : IpAllocator :=
  match validated_offset a ip with
  | Some offset => with_allocated a ({[offset]} ∪ allocated a)
  | None => a
  end.

Definition contains (a : IpAllocator) (ip : list Z) : bool :=
  match validated_offset a ip with Some _ => true | None => false end.

Definition release (a : IpAllocator) (ip : list Z) : IpAllocator :=
  match validated_offset a ip with
  | Some offset => with_allocated a (allocated a ∖ {[offset]})
  | None => a
  end.

(** The calls that change the allocator, and what they return. *)
Inductive Call := CAllocate | CMark (ip : list Z) | CRelease (ip : list Z).

Definition call (a : IpAllocator) (c : Call) : option (result (list Z) RauhaError) * IpAllocator :=
  match c with
  | CAllocate => let '(r, a') := allocate a in (Some r, a')
  | CMark ip => (None, mark_allocated a ip)
  | CRelease ip => (None, release a ip)
  end.

Fixpoint calls (a : IpAllocator) (cs : list Call)
  : list (option (result (list Z) RauhaError)) * IpAllocator :=
  match cs with
  | [] => ([], a)
  | c :: cs' => let '(r, a1) := call a c in let '(rs, a2) := calls a1 cs' in (r :: rs, a2)
  end.

Example small_subnet :
  option_map (fun a => fst (calls a [CAllocate; CAllocate])) (new [10; 0; 0; 0] 30)
  = Some [Some (Ok [10; 0; 0; 2]);
          Some (Err (NetworkError "IP address pool exhausted (3 addresses allocated out of 2)"
                       "destroy unused zones to free IP addresses"))].
Proof. reflexivity. Qed.

(** ** The abstract pool

    A network of addresses [base .. base + 2^h): the first is the network
    address, the second the gateway, the last the broadcast address; the rest
    can be leased.  The pool's state is the set of leased addresses. *)

Section Pool.
Context (base h : Z).

Definition usable (x : Z) : Prop := base + 1 < x < base + 2 ^ h - 1.

Inductive pool_step : gset Z -> Call -> option (result (list Z) RauhaError) -> gset Z -> Prop :=
| PLease P x ip : usable x -> x ∉ P -> (forall y, usable y -> y < x -> y ∈ P) ->
    from_be_bytes ip = x -> pool_step P CAllocate (Some (Ok ip)) ({[x]} ∪ P)
| PFull P e : (forall y, usable y -> y ∈ P) -> pool_step P CAllocate (Some (Err e)) P
| PMark P ip : usable (from_be_bytes ip) ->
    pool_step P (CMark ip) None ({[from_be_bytes ip]} ∪ P)
| PMarkForeign P ip : ~ usable (from_be_bytes ip) -> pool_step P (CMark ip) None P
| PRelease P ip : usable (from_be_bytes ip) ->
    pool_step P (CRelease ip) None (P ∖ {[from_be_bytes ip]})
| PReleaseForeign P ip : ~ usable (from_be_bytes ip) -> pool_step P (CRelease ip) None P.

Inductive pool_steps :
  gset Z -> list Call -> list (option (result (list Z) RauhaError)) -> gset Z -> Prop :=
| PDone P : pool_steps P [] [] P
| PMore P c r P1 cs rs P2 :
    pool_step P c r P1 -> pool_steps P1 cs rs P2 -> pool_steps P (c :: cs) (r :: rs) P2.

End Pool.

(** ** Lemmas *)

Definition octets_wf (o : list Z) : Prop := length o = 4%nat /\ Forall (in_width 8) o.

Lemma octets_wf_inv o :
  octets_wf o -> exists a b c d, o = [a; b; c; d] /\
    in_width 8 a /\ in_width 8 b /\ in_width 8 c /\ in_width 8 d.
Proof.
  intros [Hl Hf]. destruct o as [|a [|b [|c [|d []]]]]; try done.
  rewrite !Forall_cons in Hf. naive_solver.
Qed.

Lemma from_be_bytes_width o : octets_wf o -> in_width 32 (from_be_bytes o).
Proof.
  intros (a & b & c & d & -> & Ha & Hb & Hc & Hd)%octets_wf_inv.
  unfold in_width, from_be_bytes in *. simpl in *. lia.
Qed.

Lemma to_be_bytes_wf n : octets_wf (to_be_bytes n).
Proof.
  split; [done|]. unfold to_be_bytes.
  forall_each; unfold in_width, wrap; apply Z.mod_pos_bound; lia.
Qed.

Lemma from_to_be_bytes n : in_width 32 n -> from_be_bytes (to_be_bytes n) = n.
Proof.
  unfold in_width, from_be_bytes, to_be_bytes, wrap. intros Hn. cbn [fold_left].
  rewrite !Z.shiftr_div_pow2 by lia.
  change (2 ^ 24) with 16777216. change (2 ^ 16) with 65536. change (2 ^ 8) with 256.
  change (2 ^ 32) with 4294967296 in Hn. Z.to_euclidean_division_equations. lia.
Qed.

(** What [parse_cidr] establishes and every call preserves. *)
Definition host_bits (a : IpAllocator) : Z := 32 - prefix_len a.
Definition base (a : IpAllocator) : Z := from_be_bytes (subnet a).

Record wf (a : IpAllocator) : Prop := {
  wf_octets : octets_wf (subnet a);
  wf_prefix : 16 <= prefix_len a <= 30;
  wf_network : base a mod 2 ^ host_bits a = 0;
  wf_reserved : 0 ∈ allocated a /\ 1 ∈ allocated a;
  wf_range : forall o, o ∈ allocated a -> 0 <= o <= 2 ^ host_bits a - 2 }.

(** The addresses the allocator considers leased. *)
Definition leases (a : IpAllocator) : gset Z :=
  set_map (fun o => base a + o) (filter (fun o => 1 < o) (allocated a)).

Lemma elem_of_leases a x :
  x ∈ leases a <-> 1 < x - base a /\ x - base a ∈ allocated a.
Proof.
  unfold leases. rewrite elem_of_map. setoid_rewrite elem_of_filter. split.
  - intros (o & -> & Ho & Hin). by replace (base a + o - base a) with o by lia.
  - intros [H1 H2]. exists (x - base a). split; [lia|done].
Qed.

Lemma pow2_host a : wf a -> 4 <= 2 ^ host_bits a <= 65536.
Proof.
  intros [_ Hp _ _ _]. unfold host_bits.
  split; [apply (Z.pow_le_mono_r 2 2)|apply (Z.pow_le_mono_r 2 _ 16)]; lia.
Qed.

Lemma network_fits a : wf a -> 0 <= base a /\ base a + 2 ^ host_bits a <= 2 ^ 32.
Proof.
  intros Hw. pose proof (pow2_host a Hw). destruct Hw as [Ho Hp Hn _ _].
  apply from_be_bytes_width in Ho. fold (base a) in Ho. unfold in_width in Ho.
  split; [lia|]. apply Z.mod_divide in Hn as [k Hk]; [|lia].
  assert (H32 : 2 ^ 32 = 2 ^ host_bits a * 2 ^ prefix_len a).
  { rewrite <- Z.pow_add_r by (unfold host_bits; lia). f_equal. unfold host_bits. lia. }
  rewrite H32 in *. rewrite Hk in *.
  assert (k < 2 ^ prefix_len a) by (apply (Z.mul_lt_mono_pos_r (2 ^ host_bits a)); lia). nia.
Qed.

Lemma max_host_offset_eq a : wf a -> max_host_offset a = 2 ^ host_bits a - 2.
Proof.
  intros Hw. pose proof (pow2_host a Hw) as Hr. destruct Hw as [_ Hp _ _ _].
  unfold max_host_offset, wrapping_sub32, shl32, wrap.
  rewrite (Z.mod_small (32 - prefix_len a) (2 ^ 32)) by lia.
  rewrite (Z.mod_small (32 - prefix_len a) 32) by lia. fold (host_bits a).
  rewrite Z.shiftl_1_l, (Z.mod_small (2 ^ host_bits a)) by lia. apply Z.mod_small. lia.
Qed.

Lemma offset_to_ip_value a o :
  wf a -> 0 <= o < 2 ^ host_bits a ->
  from_be_bytes (offset_to_ip a o) = base a + o.
Proof.
  intros Hw Ho. pose proof (network_fits a Hw). unfold offset_to_ip. fold (base a).
  rewrite from_to_be_bytes; unfold wrap, in_width; rewrite Z.mod_small; lia.
Qed.

(** Offsets are validated exactly for the addresses that can be leased. *)
Lemma validated_offset_spec a ip :
  wf a -> octets_wf ip ->
  let x := from_be_bytes ip in
  (usable (base a) (host_bits a) x /\ validated_offset a ip = Some (x - base a)) \/
  (~ usable (base a) (host_bits a) x /\ validated_offset a ip = None).
Proof.
  intros Hw Hip x. pose proof (network_fits a Hw) as Hb. pose proof (pow2_host a Hw).
  apply from_be_bytes_width in Hip. fold x in Hip. unfold in_width in Hip.
  unfold validated_offset. rewrite max_host_offset_eq by done.
  unfold ip_to_offset, wrapping_sub32, wrap. fold (base a) x.
  unfold usable. destruct (Z.le_gt_cases (base a) x).
  - rewrite Z.mod_small by lia.
    destruct ((1 <? x - base a) && (x - base a <=? 2 ^ host_bits a - 2)) eqn:Hc;
      [left|right]; (split; [|done]); reflect_bools; [lia|].
    apply andb_false_iff in Hc as [Hc|Hc]; reflect_bools; lia.
  - right. split; [lia|].
    replace ((x - base a) mod 2 ^ 32) with (x - base a + 2 ^ 32)
      by (rewrite <- (Z.mod_small (x - base a + 2 ^ 32) (2 ^ 32)) at 1 by lia;
          rewrite <- (Z.mod_add (x - base a) 1) by lia; f_equal; lia).
    destruct (_ <=? _) eqn:Hc; [reflect_bools; lia|by rewrite andb_false_r].
Qed.

Lemma first_free_some used n o k :
  first_free used n o = Some k ->
  o <= k < o + Z.of_nat n /\ k ∉ used /\ (forall j, o <= j < k -> j ∈ used).
Proof.
  revert o. induction n as [|n IH]; intros o; cbn [first_free]; [done|].
  case_bool_decide as Ho.
  - intros (Hr & Hk & Hj)%IH. split; [lia|]. split; [done|]. intros j Hjr.
    destruct (decide (j = o)) as [->|]; [done|]. apply Hj. lia.
  - intros [= <-]. split; [lia|]. split; [done|]. lia.
Qed.

Lemma first_free_none used n o :
  first_free used n o = None -> forall j, o <= j < o + Z.of_nat n -> j ∈ used.
Proof.
  revert o. induction n as [|n IH]; intros o; cbn [first_free]; [lia|].
  case_bool_decide as Ho; [|done]. intros Hn j Hj.
  destruct (decide (j = o)) as [->|]; [done|]. eapply IH; [done|lia].
Qed.

Lemma with_allocated_wf a s :
  wf a -> 0 ∈ s /\ 1 ∈ s -> (forall o, o ∈ s -> 0 <= o <= 2 ^ host_bits a - 2) ->
  wf (with_allocated a s).
Proof. intros [] ??. by split. Qed.

Definition call_wf (c : Call) : Prop :=
  match c with CAllocate => True | CMark ip | CRelease ip => octets_wf ip end.

Lemma base_with a s : base (with_allocated a s) = base a.
Proof. done. Qed.

(** Taking or freeing one host offset changes the leases by one address. *)
Lemma leases_add a o :
  1 < o -> leases (with_allocated a ({[o]} ∪ allocated a)) = {[base a + o]} ∪ leases a.
Proof.
  intros Ho. apply leibniz_equiv. intros x. rewrite elem_of_union, !elem_of_leases, elem_of_singleton.
  rewrite base_with. cbn [allocated with_allocated]. rewrite elem_of_union, elem_of_singleton.
  split.
  - intros [? [?|?]]; [left; lia|by right].
  - intros [->|[? ?]]; (split; [lia|]); [left; lia|by right].
Qed.

Lemma leases_remove a o :
  1 < o -> leases (with_allocated a (allocated a ∖ {[o]})) = leases a ∖ {[base a + o]}.
Proof.
  intros Ho. apply leibniz_equiv. intros x.
  rewrite elem_of_difference, !elem_of_leases, elem_of_singleton.
  rewrite base_with. cbn [allocated with_allocated]. rewrite elem_of_difference, elem_of_singleton.
  split; [intros [? [? ?]]; split; [done|lia]|intros [[? ?] ?]; repeat split; try done; lia].
Qed.

Lemma add_offset_wf a o :
  wf a -> 1 < o <= 2 ^ host_bits a - 2 -> wf (with_allocated a ({[o]} ∪ allocated a)).
Proof.
  intros Hw Ho. destruct (wf_reserved a Hw). apply with_allocated_wf; [done|set_solver|].
  intros j [->%elem_of_singleton|Hj]%elem_of_union; [lia|by apply (wf_range a Hw)].
Qed.

(** The outcome of one call: the invariant and the pool step it makes. *)
Definition refines_step (a : IpAllocator) (c : Call)
    (r : option (result (list Z) RauhaError)) (a' : IpAllocator) : Prop :=
  wf a' /\ base a' = base a /\ host_bits a' = host_bits a /\
  pool_step (base a) (host_bits a) (leases a) c r (leases a').

Ltac split_step := split; [|split; [done|split; [done|]]].

Lemma allocate_refines a r a' :
  wf a -> call a CAllocate = (r, a') -> refines_step a CAllocate r a'.
Proof.
  intros Hw. pose proof (pow2_host a Hw). simpl. unfold allocate.
  rewrite max_host_offset_eq by done.
  destruct (first_free _ _ _) as [o|] eqn:Hf; intros [= <- <-]; unfold refines_step.
  - apply first_free_some in Hf as (Hr & Hfree & Hbelow).
    split_step; [apply add_offset_wf; [done|lia]|].
    rewrite leases_add by lia.
    apply PLease; [unfold usable; lia| | |apply offset_to_ip_value; [done|lia]].
    + rewrite elem_of_leases. intros [_ Hin]. apply Hfree. by replace o with (base a + o - base a) by lia.
    + unfold usable. intros y Hy Hlt. rewrite elem_of_leases. split; [lia|]. apply Hbelow. lia.
  - pose proof (first_free_none _ _ _ Hf) as Hall. split_step; [done|].
    apply PFull. unfold usable. intros y Hy. rewrite elem_of_leases. split; [lia|]. apply Hall. lia.
Qed.

Lemma mark_refines a ip :
  wf a -> octets_wf ip -> refines_step a (CMark ip) None (mark_allocated a ip).
Proof.
  intros Hw Hip. unfold refines_step, mark_allocated.
  destruct (validated_offset_spec a ip Hw Hip) as [[Hu ->]|[Hu ->]].
  - unfold usable in Hu.
    split_step; [apply add_offset_wf; [done|lia]|]. rewrite leases_add by lia.
    replace (base a + (from_be_bytes ip - base a)) with (from_be_bytes ip) by lia. by apply PMark.
  - split_step; [done|]. by apply PMarkForeign.
Qed.

Lemma release_refines a ip :
  wf a -> octets_wf ip -> refines_step a (CRelease ip) None (release a ip).
Proof.
  intros Hw Hip. unfold refines_step, release.
  destruct (validated_offset_spec a ip Hw Hip) as [[Hu ->]|[Hu ->]].
  - unfold usable in Hu. destruct (wf_reserved a Hw) as [H0 H1].
    split_step.
    { apply with_allocated_wf; [done| |].
      - rewrite !elem_of_difference, !elem_of_singleton. split; split; done || lia.
      - intros j [Hj _]%elem_of_difference. by apply (wf_range a Hw). }
    rewrite leases_remove by lia.
    replace (base a + (from_be_bytes ip - base a)) with (from_be_bytes ip) by lia. by apply PRelease.
  - split_step; [done|]. by apply PReleaseForeign.
Qed.

(** One call preserves the invariant and is a step of the pool. *)
Lemma call_refines a c r a' :
  wf a -> call_wf c -> call a c = (r, a') -> refines_step a c r a'.
Proof.
  intros Hw Hc. destruct c as [|ip|ip]; simpl.
  - by apply allocate_refines.
  - intros [= <- <-]. by apply mark_refines.
  - intros [= <- <-]. by apply release_refines.
Qed.

Lemma calls_refine cs : forall a rs a',
  wf a -> Forall call_wf cs -> calls a cs = (rs, a') ->
  wf a' /\ pool_steps (base a) (host_bits a) (leases a) cs rs (leases a').
Proof.
  induction cs as [|c cs IH]; intros a rs a' Hw Hcs; simpl.
  - intros [= <- <-]. split; [done|constructor].
  - apply Forall_cons in Hcs as [Hc Hcs].
    destruct (call a c) as [r a1] eqn:H1. destruct (calls a1 cs) as [rs' a2] eqn:H2.
    intros [= <- <-]. destruct (call_refines a c r a1 Hw Hc H1) as (Hw1 & Hb & Hh & Hs).
    destruct (IH a1 rs' a2 Hw1 Hcs H2) as [Hw2 Hss]. rewrite Hb, Hh in Hss.
    split; [done|]. by econstructor.
Qed.

Lemma parse_ipv4_wf s o : parse_ipv4 s = Some o -> octets_wf o.
Proof.
  unfold parse_ipv4. destruct (Nat.ltb _ _); [done|].
  destruct (Zone.read_ipv4_addr s) as [[o' rest]|] eqn:H4; [|done].
  apply Zone.read_ipv4_addr_wf in H4. destruct (String.eqb _ _); [|done]. by intros [= <-].
Qed.

Lemma shiftr_ones n : 0 <= n <= 32 -> Z.shiftr (2 ^ 32 - 1) n = Z.ones (32 - n).
Proof.
  intros Hn. apply Z.bits_inj'. intros i Hi. rewrite Z.shiftr_spec by lia.
  change (2 ^ 32 - 1) with (Z.ones 32). rewrite !Z.testbit_ones by lia.
  destruct (Z.leb_spec 0 i), (Z.leb_spec 0 (i + n)), (Z.ltb_spec (i + n) 32), (Z.ltb_spec i (32 - n));
    simpl; lia || done.
Qed.

(** The accepted subnets: a network address of a prefix from 16 to 30. *)
Lemma parse_cidr_ok debug cidr o p :
  parse_cidr debug cidr = Ok (o, p) ->
  octets_wf o /\ 16 <= p <= 30 /\ from_be_bytes o mod 2 ^ (32 - p) = 0.
Proof.
  unfold parse_cidr. destruct (split_once _ _) as [[addr prefix]|]; [|done].
  destruct (parse_ipv4 addr) as [oct|] eqn:Ho; simpl; [|done].
  destruct (parse_uint 8 prefix) as [n|]; simpl; [|done].
  repeat (match goal with |- context [if ?b then _ else _] => destruct b eqn:? end; try done).
  all: intros [= <- <-]; reflect_bools; try lia.
  split; [by eapply parse_ipv4_wf|]. split; [lia|].
  rename select (Z.land _ _ = 0) into Hl.
  replace (n =? 32) with false in Hl by (symmetry; apply Z.eqb_neq; lia).
  by rewrite shiftr_ones, Z.land_ones in Hl by lia.
Qed.

Lemma new_wf o p :
  octets_wf o -> 16 <= p <= 30 -> from_be_bytes o mod 2 ^ (32 - p) = 0 ->
  exists a, new o p = Some a /\ wf a /\ leases a = ∅ /\
    base a = from_be_bytes o /\ host_bits a = 32 - p.
Proof.
  intros Ho Hp Hm. unfold new. replace (p <=? 30) with true by (symmetry; apply Z.leb_le; lia).
  eexists. split; [done|]. split; [|split; [|done]].
  - split; [done|done|done|cbn; set_solver|]. unfold host_bits. cbn.
    assert (4 <= 2 ^ (32 - p)) by (apply (Z.pow_le_mono_r 2 2); lia).
    intros j [->%elem_of_singleton| ->%elem_of_singleton]%elem_of_union; lia.
  - apply leibniz_equiv. intros x. rewrite elem_of_leases. cbn. set_solver by lia.
Qed.

(** C31. The allocator of an accepted subnet implements the address pool: for
    every history of allocations, recovery marks and releases, the replies and
    the final leases are those of the abstract pool of the subnet's addresses
    without its network, gateway and broadcast addresses.  So an allocation
    hands out the lowest address that is not leased and fails only when every
    address is leased; foreign addresses are never marked or released. *)
Theorem allocator_implements_pool debug cidr o p :
  parse_cidr debug cidr = Ok (o, p) ->
  exists a, new o p = Some a /\
    forall cs rs a', Forall call_wf cs -> calls a cs = (rs, a') ->
      pool_steps (from_be_bytes o) (32 - p) ∅ cs rs (leases a').
Proof.
  intros (Ho & Hp & Hm)%parse_cidr_ok.
  destruct (new_wf o p Ho Hp Hm) as (a & Hn & Hw & Hl & Hb & Hh).
  exists a. split; [done|]. intros cs rs a' Hcs Hc.
  destruct (calls_refine cs a rs a' Hw Hcs Hc) as [_ Hs]. by rewrite Hb, Hh, Hl in Hs.
Qed.

Lemma allocator_implements_pool_witness :
  parse_cidr quoted "10.0.0.0/30" = Ok ([10; 0; 0; 0], 30) /\
  exists a, new [10; 0; 0; 0] 30 = Some a /\
    pool_steps 167772160 2 ∅ [CAllocate; CRelease [10; 0; 0; 2]; CAllocate]
      [Some (Ok [10; 0; 0; 2]); None; Some (Ok [10; 0; 0; 2])]
      (leases (snd (calls a [CAllocate; CRelease [10; 0; 0; 2]; CAllocate]))).
Proof.
  assert (Hc : parse_cidr quoted "10.0.0.0/30" = Ok ([10; 0; 0; 0], 30)) by (vm_compute; reflexivity).
  split; [exact Hc|].
  destruct (allocator_implements_pool quoted "10.0.0.0/30" _ _ Hc) as (a & Hn & Hr).
  exists a. split; [exact Hn|]. vm_compute in Hn. injection Hn as <-.
  apply Hr; [|reflexivity].
  forall_each; try exact I. split; [reflexivity|]. forall_each; unfold in_width; lia.
Defined.

End Ip.
