(* ===== verification/Journal.v ===== *)
(** * The Run journal

    [rauha-evidence/src/journal.rs] stores a Run's events as lines of
    canonical JSON chained by digests, and publishes the committed prefix by
    atomically replacing a small head file.  This file models the store (a
    directory of files with what has reached the disk), the journal's
    operations as a fallible, interruptible IO monad, and proves that a crash
    at any point leaves the committed history intact.

    The JSON library, SHA-256 and the clock are parameters ([Json]); what the
    code relies on about them is [JsonLaws]. *)

From stdpp Require Import base gmap strings list fin_maps countable.
From Stdlib Require Import ZArith Lia Ascii.
From S2P Require Import Prelude RustStr.

Module Journal.

Import Str.
Open Scope Z_scope.

Notation bytes := (list Z).
Definition NEWLINE : Z := 10.

(** ** JSON values and the serialisation interface *)

(** [serde_json::Value]; numbers are opaque. *)
#[warnings="-register-all"]
Inductive Value (N : Type) :=
| Null
| Bool (b : bool)
| Number (n : N)
| VString (s : string)
| Array (vs : list (Value N))
| Object (fields : list (string * Value N)).
Arguments Null {N}.
Arguments Bool {N} b.
Arguments Number {N} n.
Arguments VString {N} s.
Arguments Array {N} vs.
Arguments Object {N} fields.

Definition is_object {N} (v : Value N) : bool :=
  match v with Object _ => true | _ => false end.

Definition MAX_RECORD_BYTES : Z := 1024 * 1024.
Definition MAX_INPUT_DEPTH : nat := 120.

Inductive Error :=
| Io (errno : Z)
| Json_error
| Busy
| Invalid (what : string)
| UncommittedTail
| ReopenRequired.

Record JournalHead := mkHead {
  manifest_sha256 : string; sequence : Z; journal_root : string; journal_bytes : Z }.

Record Entry (N T : Type) := mkEntry {
  seq : Z; ts : T; kind : string; epoch : Z; prev : string; body : Value N }.
Arguments mkEntry {N T} seq ts kind epoch prev body.
Arguments seq {N T} e.
Arguments ts {N T} e.
Arguments kind {N T} e.
Arguments epoch {N T} e.
Arguments prev {N T} e.
Arguments body {N T} e.

(** The library functions the journal calls.  [normal] is the value a reader
    gets back: objects may come back in another key order. *)
Class Serde (N A : Type) := {
  to_value : A -> result (Value N) Error;
  from_slice : bytes -> result A Error;
  normal : A -> A }.

Class Json := {
  Num : Type;
  Timestamp : Type;
  sort_all_objects : Value Num -> Value Num;
  to_vec : Value Num -> result bytes Error;
  sha256_bytes : bytes -> string;
  serde_value :: Serde Num (Value Num);
  serde_entry :: Serde Num (Entry Num Timestamp);
  serde_head :: Serde Num JournalHead }.

(** ** Pure parts of the journal *)

Fixpoint fits {N} (remaining : nat) (v : Value N) : bool :=
  match v, remaining with
  | Array _, O | Object _, O => false
  | Array vs, S r => forallb (fits r) vs
  | Object fs, S r => forallb (fun kv => fits r (snd kv)) fs
  | _, _ => true
  end.

Definition bounded_input {N} (v : Value N) : result (Value N) Error :=
  if fits MAX_INPUT_DEPTH v then Ok v else Err (Invalid "input exceeds maximum JSON depth").

Definition kind_byte (c : ascii) : bool :=
  let b := code c in
  ((97 <=? b) && (b <=? 122)) || ((48 <=? b) && (b <=? 57)) || (b =? 95).

Definition valid_kind (k : string) : bool :=
  contains_char "." k &&
  forallb (fun part => negb (String.eqb part "") && forallb kind_byte (String.list_ascii_of_string part))
    (split "." k).

Section Codec.
Context {J : Json}.

Notation entry := (Entry Num Timestamp).

Definition sha256_json (v : Value Num) : result string Error :=
  let? b := to_vec v in Ok (sha256_bytes b).

Section Generic.
Context {A : Type} {S : Serde Num A}.

Definition canonical (x : A) : result (Value Num) Error :=
  let? v := to_value x in Ok (sort_all_objects v).

Definition digest (x : A) : result string Error :=
  let? v := canonical x in sha256_json v.

Definition record (x : A) : result bytes Error :=
  let? v := canonical x in
  let? b := to_vec v in
  let bytes := (b ++ [NEWLINE])%list in
  if MAX_RECORD_BYTES <? Z.of_nat (length bytes) then Err (Invalid "record exceeds 1 MiB")
  else let? _ := (from_slice bytes : result (Value Num) Error) in Ok bytes.

Definition parse_record (bs : bytes) : result A Error :=
  let? value := (from_slice bs : result A Error) in
  let? again := record value in
  if bool_decide (again = bs) then Ok value
  else Err (Invalid "record is not canonical JSON plus newline").

End Generic.

(** [read_until(b'\n')]: the first line with its newline, and the rest. *)
Fixpoint read_until (bs : bytes) : bytes * bytes :=
  match bs with
  | [] => ([], [])
  | b :: bs' =>
      if b =? NEWLINE then ([b], bs')
      else let '(line, rest) := read_until bs' in (b :: line, rest)
  end.

(** The reader sees at most [MAX_RECORD_BYTES + 1] bytes of a line. *)
Definition read_line (bs : bytes) : result (bytes * bytes) Error :=
  let limit := Z.to_nat (MAX_RECORD_BYTES + 1) in
  let '(line, rest) := read_until (take limit bs) in
  if MAX_RECORD_BYTES <? Z.of_nat (length line) then Err (Invalid "record exceeds 1 MiB")
  else Ok (line, (rest ++ drop limit bs)%list).

(** The loop of [scan]: [seen] are the entries the visitor has been given. *)
Fixpoint scan_loop (fuel : nat) (bs : bytes) (sq : Z) (root : string) (consumed : Z)
    (seen : list entry) : result (Z * string * Z * list entry) Error :=
  match fuel with
  | O => Err (Invalid "out of fuel")
  | S fuel' =>
      let? (line, rest) := read_line bs in
      match line with
      | [] => Ok (sq, root, consumed, seen)
      | _ =>
          let consumed := consumed + Z.of_nat (length line) in
          let? e := (parse_record line : result entry Error) in
          let? sq := ok_or (checked_add 64 sq 1) (Invalid "sequence overflow") in
          if negb (seq e =? sq) || negb (String.eqb (prev e) root)
          then Err (Invalid "sequence or hash chain mismatch")
          else if negb (valid_kind (kind e)) || negb (is_object (body e))
          then Err (Invalid "invalid event kind or body")
          else let? root := digest e in scan_loop fuel' rest sq root consumed (seen ++ [e])
      end
  end.

(** [scan] over the committed bytes: what the visitor sees. *)
Definition scan (h : JournalHead) (log : bytes) : result (list entry) Error :=
  let committed := take (Z.to_nat (journal_bytes h)) log in
  let? (sq, root, consumed, seen) :=
    scan_loop (S (length committed)) committed 0 (manifest_sha256 h) 0 [] in
  if negb (sq =? sequence h) || negb (String.eqb root (journal_root h))
     || negb (consumed =? journal_bytes h)
  then Err (Invalid "committed head does not match journal")
  else Ok seen.

Definition read_record_bytes {A} {S : Serde Num A} (data : bytes) : result A Error :=
  let bs := take (Z.to_nat (MAX_RECORD_BYTES + 1)) data in
  if MAX_RECORD_BYTES <? Z.of_nat (length bs) then Err (Invalid "record exceeds 1 MiB")
  else parse_record bs.

(** ** The store

    The Run directory as the process sees it, with what has reached the disk:
    a file's [synced] prefix, the [head] entry at the last directory sync, and
    whether the manifest and log entries were covered by one. *)

Record File := mkFile { data : bytes; synced : nat }.

Record Fs := mkFs {
  present : bool; locked : bool;
  manifest_file : option File; log_file : option File;
  head_file : option File; next_file : option File;
  linked : bool; durable_head : option File }.

Definition empty_fs : Fs := mkFs false false None None None None false None.

Definition set_lock (b : bool) (f : Fs) : Fs :=
  mkFs (present f) b (manifest_file f) (log_file f) (head_file f) (next_file f)
    (linked f) (durable_head f).
Definition set_present (f : Fs) : Fs :=
  mkFs true (locked f) (manifest_file f) (log_file f) (head_file f) (next_file f)
    (linked f) (durable_head f).
Definition on_manifest (g : option File -> option File) (f : Fs) : Fs :=
  mkFs (present f) (locked f) (g (manifest_file f)) (log_file f) (head_file f) (next_file f)
    (linked f) (durable_head f).
Definition on_log (g : option File -> option File) (f : Fs) : Fs :=
  mkFs (present f) (locked f) (manifest_file f) (g (log_file f)) (head_file f) (next_file f)
    (linked f) (durable_head f).
Definition on_next (g : option File -> option File) (f : Fs) : Fs :=
  mkFs (present f) (locked f) (manifest_file f) (log_file f) (head_file f) (g (next_file f))
    (linked f) (durable_head f).
Definition rename_next (f : Fs) : Fs :=
  match next_file f with
  | Some n => mkFs (present f) (locked f) (manifest_file f) (log_file f) (Some n) None
                (linked f) (durable_head f)
  | None => f
  end.
Definition sync_dir (f : Fs) : Fs :=
  mkFs (present f) (locked f) (manifest_file f) (log_file f) (head_file f) (next_file f)
    true (head_file f).

Definition appended (bs : bytes) (o : option File) : option File :=
  option_map (fun f => mkFile (data f ++ bs) (synced f)) o.
Definition flushed (o : option File) : option File :=
  option_map (fun f => mkFile (data f) (length (data f))) o.

(** A loss of power: unsynced bytes are arbitrary, entries not covered by a
    directory sync may be missing, the head entry is the current one or the
    last durable one, and anything can be left under [head.next]. *)
Definition survives (f f' : File) : Prop :=
  take (synced f) (data f) `prefix_of` data f' /\
  (length (data f') <= length (data f))%nat /\ synced f' = length (data f').

Inductive opt_survives : option File -> option File -> Prop :=
| SNone : opt_survives None None
| SSome f f' : survives f f' -> opt_survives (Some f) (Some f').

Definition power_loss (f f' : Fs) : Prop :=
  locked f' = false /\
  (linked f = true -> present f' = present f) /\
  (opt_survives (manifest_file f) (manifest_file f') \/ (linked f = false /\ manifest_file f' = None)) /\
  (opt_survives (log_file f) (log_file f') \/ (linked f = false /\ log_file f' = None)) /\
  (opt_survives (head_file f) (head_file f') \/ opt_survives (durable_head f) (head_file f')) /\
  durable_head f' = head_file f' /\ linked f' = true.

(** ** Fallible, interruptible IO

    Each system call takes the next outcome of the plan: it succeeds, fails
    with an errno, or the process is killed in it; [n] says how much of its
    effect took place. An exhausted plan means success. *)

Inductive Outcome := Success | Fail (n : nat) (e : Z) | Kill (n : nat).

Record World := mkWorld { fs : Fs; plan : list Outcome }.

Inductive Out (A : Type) := Ret (r : result A Error) | Killed.
#[global] Arguments Ret {A} r.
#[global] Arguments Killed {A}.

Definition IO (A : Type) : Type := World -> Out A * World.

Definition ret {A} (r : result A Error) : IO A := fun w => (Ret r, w).

Definition bind {A B} (c : IO A) (k : A -> IO B) : IO B := fun w =>
  match c w with
  | (Ret (Ok a), w') => k a w'
  | (Ret (Err e), w') => (Ret (Err e), w')
  | (Killed, w') => (Killed, w')
  end.

Notation "'io' x ':=' c 'in' k" := (bind c (fun x => k))
  (at level 10, x pattern, c at level 200, k at level 200).

Definition EEXIST : Z := 17.
Definition ENOENT : Z := 2.

Definition effect (full : Fs -> Fs) (part : nat -> Fs -> Fs) : IO unit := fun w =>
  match plan w with
  | [] => (Ret (Ok tt), mkWorld (full (fs w)) [])
  | Success :: p => (Ret (Ok tt), mkWorld (full (fs w)) p)
  | Fail n e :: p => (Ret (Err (Io e)), mkWorld (part n (fs w)) p)
  | Kill n :: p => (Killed, mkWorld (part n (fs w)) p)
  end.

(** A call whose effect takes place entirely or not at all, and one without. *)
Definition syscall (g : Fs -> Fs) : IO unit :=
  effect g (fun n f => match n with O => f | S _ => g f end).
Definition observe : IO unit := syscall id.

Definition write_all (on : (option File -> option File) -> Fs -> Fs) (bs : bytes) : IO unit :=
  effect (on (appended bs)) (fun n => on (appended (take n bs))).

Definition sync_all (on : (option File -> option File) -> Fs -> Fs) : IO unit :=
  syscall (on flushed).

(** [O_CREAT | O_EXCL]. *)
Definition new_file (get : Fs -> option File) (on : (option File -> option File) -> Fs -> Fs)
  : IO unit := fun w =>
  match get (fs w) with
  | Some _ => (Ret (Err (Io EEXIST)), w)
  | None => syscall (on (fun _ => Some (mkFile [] 0))) w
  end.

Definition open_file (get : Fs -> option File) : IO File :=
  io _ := observe in
  fun w => (Ret (ok_or (get (fs w)) (Io ENOENT)), w).

(** [DirBuilder::create]. *)
Definition create_directory : IO unit := fun w =>
  if present (fs w) then (Ret (Err (Io EEXIST)), w) else syscall set_present w.

Definition open_directory : IO unit :=
  io _ := observe in
  fun w => (Ret (if present (fs w) then Ok tt else Err (Io ENOENT)), w).

Definition lock : IO unit :=
  io _ := observe in
  fun w => if locked (fs w) then (Ret (Err Busy), w)
           else (Ret (Ok tt), mkWorld (set_lock true (fs w)) (plan w)).

(** Dropping the handle, on every exit but a successful return; the kernel
    drops a killed process's lock. *)
Definition unlock (w : World) : World := mkWorld (set_lock false (fs w)) (plan w).

Definition with_lock {A} (c : IO A) : IO A := fun w =>
  match c w with
  | (Ret (Ok a), w') => (Ret (Ok a), w')
  | (o, w') => (o, unlock w')
  end.

Definition read_record_file {A} {S : Serde Num A} (get : Fs -> option File) : IO A :=
  io f := open_file get in
  io _ := observe in
  ret (read_record_bytes (data f)).

(** ** The journal handle *)

Record Journal := mkJournal {
  manifest : Value Num; head : JournalHead; tail_bytes : Z; write_failed : bool }.

Definition scan_io (h : JournalHead) : IO (list entry) :=
  io f := open_file log_file in
  io _ := observe in
  ret (scan h (data f)).

Definition publish_head (h : JournalHead) : IO unit :=
  io _ := new_file next_file on_next in
  io bs := ret (record h) in
  io _ := write_all on_next bs in
  io _ := sync_all on_next in
  io _ := syscall rename_next in
  syscall sync_dir.

Definition initial_head (root : string) : JournalHead := mkHead root 0 root 0.

(** The manifest and the empty log, made durable. *)
Definition create_files (bs : bytes) : IO unit :=
  io _ := new_file manifest_file on_manifest in
  io _ := write_all on_manifest bs in
  io _ := sync_all on_manifest in
  io _ := new_file log_file on_log in
  io _ := sync_all on_log in
  syscall sync_dir.

Definition create (m : Value Num) : IO Journal :=
  io m := ret (bounded_input m) in
  if negb (is_object m) then ret (Err (Invalid "manifest must be an object")) else
  io bs := ret (record m) in
  io _ := create_directory in
  io _ := observe in
  io _ := open_directory in
  io _ := lock in
  with_lock (
    io _ := create_files bs in
    io root := ret (digest m) in
    io _ := publish_head (initial_head root) in
    ret (Ok (mkJournal m (initial_head root) 0 false))).

Definition open : IO Journal :=
  io _ := open_directory in
  io _ := lock in
  with_lock (
    io m := (read_record_file manifest_file : IO (Value Num)) in
    if negb (is_object m) then ret (Err (Invalid "manifest must be an object")) else
    io h := (read_record_file head_file : IO JournalHead) in
    io d := ret (digest m) in
    if negb (String.eqb d (manifest_sha256 h)) then ret (Err (Invalid "manifest digest mismatch")) else
    io f := open_file log_file in
    io _ := observe in
    let len := Z.of_nat (length (data f)) in
    if len <? journal_bytes h then ret (Err (Invalid "journal shorter than committed head")) else
    let j := mkJournal m h (len - journal_bytes h) false in
    io _ := scan_io h in
    io _ := syscall sync_dir in
    ret (Ok j)).

(** What the visitor of [replay] is given. *)
Definition replay (j : Journal) : IO (list entry) :=
  io _ := scan_io (head j) in
  scan_io (head j).

(** The checks of [append], before anything is written. *)
Definition prepare (j : Journal) (k : string) (ep : Z) (b : Value Num) (now : Timestamp)
  : result (entry * JournalHead * bytes) Error :=
  let? b := bounded_input b in
  if write_failed j then Err ReopenRequired else
  if negb (tail_bytes j =? 0) then Err UncommittedTail else
  if negb (valid_kind k) || negb (is_object b)
  then Err (Invalid "event needs a namespaced kind and object body") else
  let h := head j in
  let? sq := ok_or (checked_add 64 (sequence h) 1) (Invalid "sequence overflow") in
  let e := mkEntry sq now k ep (journal_root h) b in
  let? bs := record e in
  let? root := digest e in
  let? size := ok_or (checked_add 64 (journal_bytes h) (Z.of_nat (length bs)))
                 (Invalid "journal size overflow") in
  Ok (e, mkHead (manifest_sha256 h) sq root size, bs).

Definition commit (bs : bytes) (next : JournalHead) : IO unit :=
  let split := Nat.div2 (length bs) in
  io _ := write_all on_log (take split bs) in
  io _ := write_all on_log (drop split bs) in
  io _ := sync_all on_log in
  publish_head next.

Definition append (j : Journal) (k : string) (ep : Z) (b : Value Num) (now : Timestamp) (w : World)
  : Out entry * Journal * World :=
  match prepare j k ep b now with
  | Err e => (Ret (Err e), j, w)
  | Ok (e, next, bs) =>
      match commit bs next w with
      | (Ret (Ok _), w') => (Ret (Ok e), mkJournal (manifest j) next (tail_bytes j) false, w')
      | (Ret (Err err), w') =>
          (Ret (Err err), mkJournal (manifest j) (head j) (tail_bytes j) true, w')
      | (Killed, w') => (Killed, j, unlock w')
      end
  end.

(** ** What the journal relies on *)

(** A written value is read back, up to the order of object keys, whenever the
    text is readable at all; key order does not change the canonical form. *)
Class SerdeLaws (A : Type) {S : Serde Num A} := {
  from_written : forall (x : A) v b (any : Value Num),
    canonical x = Ok v -> to_vec v = Ok b ->
    from_slice (b ++ [NEWLINE]) = Ok any -> from_slice (b ++ [NEWLINE]) = Ok (normal x);
  canonical_normal : forall x : A, canonical (normal x) = canonical x }.

Class JsonLaws := {
  to_vec_one_line : forall v b, to_vec v = Ok b -> NEWLINE ∉ b;
  laws_value :: SerdeLaws (Value Num);
  laws_entry :: SerdeLaws (Entry Num Timestamp);
  laws_head :: SerdeLaws JournalHead;
  normal_head : forall h : JournalHead, normal h = h;
  normal_value_object : forall v : Value Num, is_object (normal v) = is_object v;
  normal_entry_fields : forall e : Entry Num Timestamp,
    seq (normal e) = seq e /\ kind (normal e) = kind e /\ prev (normal e) = prev e /\
    is_object (body (normal e)) = is_object (body e) }.

End Codec.

(** ** Records and lines *)

Section Proofs.
Context {J : Json} {L : JsonLaws}.

Notation entry := (Entry Num Timestamp).

Section Record.
Context {A : Type} {S : Serde Num A} {SL : SerdeLaws A}.

Lemma record_shape (x : A) bs :
  record x = Ok bs ->
  exists b, bs = (b ++ [NEWLINE])%list /\ NEWLINE ∉ b /\ Z.of_nat (length bs) <= MAX_RECORD_BYTES.
Proof.
  unfold record. destruct (canonical x) as [v|]; [|done].
  destruct (to_vec v) as [b|] eqn:Hb; [|done].
  destruct (_ <? _) eqn:Hl; [done|]. destruct (from_slice _); [|done].
  intros [= <-]. exists b. reflect_bools. eauto using to_vec_one_line.
Qed.

Lemma record_normal (x : A) : record (normal x) = record x.
Proof. unfold record. by rewrite canonical_normal. Qed.

Lemma digest_normal (x : A) : digest (normal x) = digest x.
Proof. unfold digest. by rewrite canonical_normal. Qed.

Lemma record_parse (x : A) bs : record x = Ok bs -> parse_record bs = Ok (normal x).
Proof.
  intros Hr. unfold parse_record.
  assert (Hf : from_slice bs = Ok (normal x)).
  { revert Hr. unfold record. destruct (canonical x) as [v|] eqn:Hv; [|done].
    destruct (to_vec v) as [b|] eqn:Hb; [|done]. destruct (_ <? _); [done|].
    destruct (from_slice _) as [any|] eqn:Hany; [|done].
    intros [= <-]. by eapply from_written. }
  rewrite Hf, record_normal, Hr. by rewrite bool_decide_true.
Qed.

Lemma record_pos (x : A) bs : record x = Ok bs -> (0 < length bs)%nat.
Proof. intros (b & -> & _)%record_shape. rewrite length_app. simpl. lia. Qed.

Lemma read_record_written (x : A) bs : record x = Ok bs -> read_record_bytes bs = Ok (normal x).
Proof.
  intros Hr. destruct (record_shape x bs Hr) as (b & _ & _ & Hl).
  unfold read_record_bytes. rewrite take_ge by lia.
  destruct (_ <? _) eqn:Hc; [reflect_bools; lia|]. by apply record_parse.
Qed.

End Record.

Lemma read_until_line b rest :
  NEWLINE ∉ b -> read_until ((b ++ [NEWLINE]) ++ rest) = ((b ++ [NEWLINE])%list, rest).
Proof.
  induction b as [|c b IH]; simpl; [done|]. rewrite not_elem_of_cons. intros [Hc Hb].
  destruct (Z.eqb_spec c NEWLINE) as [->|_]; [done|]. by rewrite IH.
Qed.

Lemma read_line_record {A} {S : Serde Num A} {SL : SerdeLaws A} (x : A) bs rest :
  record x = Ok bs -> read_line (bs ++ rest) = Ok (bs, rest).
Proof.
  intros (b & -> & Hb & Hl)%record_shape. unfold read_line.
  set (limit := Z.to_nat _).
  assert (Hlim : (length (b ++ [NEWLINE]) < limit)%nat) by (unfold limit; lia).
  rewrite take_app_ge, read_until_line by (done || lia).
  destruct (_ <? _) eqn:Hc; [reflect_bools; lia|].
  rewrite drop_app_ge by lia. by rewrite take_drop.
Qed.

(** ** Histories: the entries, the head that commits them and their bytes *)

Inductive history (d0 : string) : list entry -> JournalHead -> bytes -> Prop :=
| HEmpty : history d0 [] (initial_head d0) []
| HSnoc es h log e bs r :
    history d0 es h log ->
    seq e = sequence h + 1 -> prev e = journal_root h ->
    valid_kind (kind e) = true -> is_object (body e) = true ->
    record e = Ok bs -> digest e = Ok r -> sequence h + 1 < 2 ^ 64 ->
    history d0 (es ++ [e]) (mkHead d0 (seq e) r (journal_bytes h + Z.of_nat (length bs)))
      (log ++ bs).

Lemma history_head d0 es h log :
  history d0 es h log ->
  manifest_sha256 h = d0 /\ journal_bytes h = Z.of_nat (length log) /\
  (length es <= length log)%nat.
Proof.
  induction 1 as [|es h log e bs r Hh (IH1 & IH2 & IH3) Hs Hp Hk Ho Hr Hd Hm]; simpl; [done|].
  apply record_pos in Hr. rewrite !length_app. simpl. repeat split; lia.
Qed.

Lemma scan_loop_history d0 es h log :
  history d0 es h log -> forall fuel rest,
  scan_loop (length es + fuel) (log ++ rest) 0 d0 0 [] =
  scan_loop fuel rest (sequence h) (journal_root h) (journal_bytes h) (map normal es).
Proof.
  induction 1 as [|es h log e bs r Hh IH Hs Hp Hk Ho Hr Hd Hm]; intros fuel rest; [done|].
  rewrite length_app, <- Nat.add_assoc, <- app_assoc, IH. cbn [length Nat.add scan_loop].
  rewrite (read_line_record e) by done. pose proof (record_pos e bs Hr).
  destruct bs as [|b0 bs']; [simpl in *; lia|].
  rewrite (record_parse e) by done.
  destruct (normal_entry_fields e) as (Es & Ek & Ep & Eo).
  unfold checked_add. destruct (Z.ltb_spec (sequence h + 1) (2 ^ 64)); [|lia]. cbn [ok_or].
  rewrite Es, Ek, Ep, Eo, Hs, Hp, Hk, Ho, Z.eqb_refl, String.eqb_refl. cbn [negb orb].
  rewrite digest_normal, Hd. cbn. by rewrite map_app.
Qed.

(** A committed history is read back whatever follows it in the file. *)
Lemma scan_history d0 es h log rest :
  history d0 es h log -> scan h (log ++ rest) = Ok (map normal es).
Proof.
  intros Hh. destruct (history_head _ _ _ _ Hh) as (Hd & Hb & Hl).
  unfold scan. rewrite Hb, Nat2Z.id, take_app_length, Hd.
  replace (S (length log)) with (length es + S (length log - length es))%nat by lia.
  rewrite <- (app_nil_r log) at 2.
  rewrite (scan_loop_history _ _ _ _ Hh). cbn [scan_loop]. unfold read_line. rewrite take_nil.
  cbn [read_until length]. destruct (_ <? _) eqn:Hc; [by reflect_bools|].
  by rewrite Hb, !Z.eqb_refl, String.eqb_refl.
Qed.

(** ** Crash triples

    [triple pre c post crash]: run from a store with [pre], under any plan, [c]
    ends in [post] when it succeeds and in [crash] when it fails or is killed. *)

Definition triple {A} (pre : Fs -> Prop) (c : IO A) (post : A -> Fs -> Prop)
    (crash : Fs -> Prop) : Prop :=
  forall w, pre (fs w) ->
    match c w with
    | (Ret (Ok a), w') => post a (fs w')
    | (Ret (Err _), w') | (Killed, w') => crash (fs w')
    end.

Lemma triple_bind {A B} pre (c : IO A) mid (k : A -> IO B) post crash :
  triple pre c mid crash -> (forall a, triple (mid a) (k a) post crash) ->
  triple pre (bind c k) post crash.
Proof.
  intros Hc Hk w Hw. specialize (Hc w Hw). unfold bind.
  destruct (c w) as [[[a|e]|] w']; [|done..]. by apply Hk.
Qed.

Lemma triple_effect (pre : Fs -> Prop) full part (post : unit -> Fs -> Prop) (crash : Fs -> Prop) :
  (forall f, pre f -> post tt (full f)) -> (forall f n, pre f -> crash (part n f)) ->
  triple pre (effect full part) post crash.
Proof.
  intros Hfull Hpart w Hw. unfold effect. destruct (plan w) as [|[|n e|n] p]; simpl; auto.
Qed.

Lemma triple_syscall (pre : Fs -> Prop) g (post : unit -> Fs -> Prop) (crash : Fs -> Prop) :
  (forall f, pre f -> post tt (g f)) -> (forall f, pre f -> crash f) ->
  (forall f, pre f -> crash (g f)) -> triple pre (syscall g) post crash.
Proof. intros. apply triple_effect; [done|]. intros f [|n] Hf; auto. Qed.

Lemma triple_ret {A} (pre : Fs -> Prop) (r : result A Error) (post : A -> Fs -> Prop)
    (crash : Fs -> Prop) :
  (forall a f, r = Ok a -> pre f -> post a f) -> (forall f, pre f -> crash f) ->
  triple pre (ret r) post crash.
Proof. intros Hp Hc w Hw. destruct r; simpl; eauto. Qed.

Lemma triple_new_file (pre : Fs -> Prop) get on (post : unit -> Fs -> Prop) (crash : Fs -> Prop) :
  (forall f, pre f -> crash f) ->
  (forall f, pre f -> crash (on (fun _ => Some (mkFile [] 0)) f)) ->
  (forall f, pre f -> get f = None -> post tt (on (fun _ => Some (mkFile [] 0)) f)) ->
  triple pre (new_file get on) post crash.
Proof.
  intros Hc Hc' Hp w Hw. unfold new_file. destruct (get (fs w)) eqn:Hg; [by apply Hc|].
  apply (triple_syscall (fun f => pre f /\ get f = None)); naive_solver.
Qed.

Lemma triple_create_directory (pre : Fs -> Prop) (post : unit -> Fs -> Prop) (crash : Fs -> Prop) :
  (forall f, pre f -> crash f) -> (forall f, pre f -> crash (set_present f)) ->
  (forall f, pre f -> post tt (set_present f)) -> triple pre create_directory post crash.
Proof.
  intros Hc Hc' Hp w Hw. unfold create_directory. destruct (present (fs w)); [by apply Hc|].
  by apply (triple_syscall pre).
Qed.

Lemma triple_pre {A} (pre pre' : Fs -> Prop) (c : IO A) post crash :
  (forall f, pre f -> pre' f) -> triple pre' c post crash -> triple pre c post crash.
Proof. intros Hp Ht w Hw. apply Ht, Hp, Hw. Qed.

Lemma triple_crash {A} pre (c : IO A) post (crash crash' : Fs -> Prop) :
  (forall f, crash' f -> crash f) -> triple pre c post crash' -> triple pre c post crash.
Proof. intros Hc Ht w Hw. specialize (Ht w Hw). destruct (c w) as [[[a|e]|] w']; auto. Qed.

(** Calls that only look at the store [f0]. *)

Lemma triple_at {A} pre (c : IO A) post crash :
  (forall f0, pre f0 -> triple (eq f0) c post crash) -> triple pre c post crash.
Proof. intros H w Hw. by apply (H (fs w) Hw). Qed.

Lemma triple_observe f0 (crash : Fs -> Prop) :
  crash f0 -> triple (eq f0) observe (fun _ => eq f0) crash.
Proof. intros Hc. apply triple_syscall; naive_solver. Qed.

Lemma triple_pure {A} f0 (g : Fs -> result A Error) (crash : Fs -> Prop) :
  crash f0 -> triple (eq f0) (fun w => (Ret (g (fs w)), w)) (fun a f => f0 = f /\ g f0 = Ok a) crash.
Proof. intros Hc w <-. simpl. by destruct (g f0) eqn:?. Qed.

Lemma triple_open_file f0 get (crash : Fs -> Prop) :
  crash f0 -> triple (eq f0) (open_file get) (fun x f => f0 = f /\ get f0 = Some x) crash.
Proof.
  intros Hc. apply triple_bind with (mid := fun _ => eq f0); [by apply triple_observe|]. intros _ w <-.
  simpl. by destruct (get f0) eqn:?.
Qed.

Lemma triple_read {A} {S : Serde Num A} f0 get (crash : Fs -> Prop) :
  crash f0 -> triple (eq f0) (read_record_file get)
    (fun a f => f0 = f /\ exists x, get f0 = Some x /\ read_record_bytes (data x) = Ok a) crash.
Proof.
  intros Hc. apply triple_bind with (mid := fun x f => f0 = f /\ get f0 = Some x);
    [by apply triple_open_file|]. intros x.
  apply triple_bind with (mid := fun _ f => f0 = f /\ get f0 = Some x);
    [apply triple_syscall; naive_solver|]. intros _.
  apply triple_ret; naive_solver.
Qed.

Lemma triple_scan f0 h (crash : Fs -> Prop) :
  crash f0 -> triple (eq f0) (scan_io h)
    (fun es f => f0 = f /\ exists x, log_file f0 = Some x /\ scan h (data x) = Ok es) crash.
Proof.
  intros Hc. apply triple_bind with (mid := fun x f => f0 = f /\ log_file f0 = Some x);
    [by apply triple_open_file|]. intros x.
  apply triple_bind with (mid := fun _ f => f0 = f /\ log_file f0 = Some x);
    [apply triple_syscall; naive_solver|]. intros _.
  apply triple_ret; naive_solver.
Qed.

Lemma triple_lock f0 (crash : Fs -> Prop) :
  crash f0 -> triple (eq f0) lock (fun _ f => f = set_lock true f0) crash.
Proof.
  intros Hc. apply triple_bind with (mid := fun _ => eq f0); [by apply triple_observe|]. intros _ w Hw.
  simpl. destruct (locked (fs w)); simpl; by rewrite <- Hw.
Qed.

Lemma triple_with_lock {A} pre (c : IO A) post (crash' crash : Fs -> Prop) :
  triple pre c post crash' -> (forall f, crash' f -> crash (set_lock false f)) ->
  triple pre (with_lock c) post crash.
Proof.
  intros Ht Hc w Hw. specialize (Ht w Hw). unfold with_lock.
  destruct (c w) as [[[a|e]|] w']; simpl; auto.
Qed.

(** ** What is on the disk *)

Definition full (bs : bytes) : File := mkFile bs (length bs).

Lemma full_survives bs f : survives (full bs) f -> f = full bs.
Proof.
  unfold survives, full. destruct f as [d n]. simpl. rewrite take_ge by done.
  intros ([t ->] & Hl & ->). rewrite length_app in Hl.
  destruct t; simpl in Hl; [|lia]. by rewrite app_nil_r.
Qed.

Lemma opt_full_survives bs o : opt_survives (Some (full bs)) o -> o = Some (full bs).
Proof. inversion 1; subst. f_equal. by apply full_survives. Qed.

(** The first [n] bytes of a file are [log] and have reached the disk. *)
Definition holds (log : bytes) (f : File) : Prop :=
  log `prefix_of` data f /\ (length log <= synced f)%nat.

Lemma holds_survives log f f' : holds log f -> survives f f' -> holds log f'.
Proof.
  intros [[t Ht] Hl] (Hp & _ & Hs). unfold holds. rewrite Hs.
  assert (Hpre : log `prefix_of` data f').
  { trans (take (synced f) (data f)); [|done]. rewrite Ht, take_app_ge by done. by exists (take (synced f - length log) t). }
  split; [done|]. by apply prefix_length.
Qed.

Lemma holds_appended log f bs : holds log f -> holds log (mkFile (data f ++ bs) (synced f)).
Proof. intros [[t Ht] Hl]. split; [|done]. simpl. rewrite Ht, <- app_assoc. by eexists. Qed.

Lemma holds_flushed log f : holds log f -> holds log (mkFile (data f) (length (data f))).
Proof. intros [Hp Hl]. split; [done|]. simpl. by apply prefix_length. Qed.

Section Store.
(** The Run's manifest, its record and its digest. *)
Context (m : Value Num) (mbs : bytes) (d0 : string).
Context (Hm : record m = Ok mbs) (Hobj : is_object m = true) (Hd0 : digest m = Ok d0).

(** A head file that commits an allowed history held by the log file, or no
    head file where that is allowed. *)
Definition published (P : option (list entry) -> Prop) (lf : File) (o : option File) : Prop :=
  (o = None /\ P None) \/
  exists es h log hbs, P (Some es) /\ history d0 es h log /\ record h = Ok hbs /\
    o = Some (full hbs) /\ holds log lf.

Definition ready (f : Fs) : Prop :=
  present f = true /\ linked f = true /\ manifest_file f = Some (full mbs).

Definition safe (P : option (list entry) -> Prop) (f : Fs) : Prop :=
  ready f /\ exists lf, log_file f = Some lf /\
    published P lf (head_file f) /\ published P lf (durable_head f).

Lemma published_mono P Q lf o :
  (forall es, P es -> Q es) -> published P lf o -> published Q lf o.
Proof.
  intros HPQ [[-> HN]|(es & h & log & hbs & Hes & Hrest)]; [by left; auto|right].
  exists es, h, log, hbs. auto.
Qed.

Lemma safe_mono (P Q : option (list entry) -> Prop) f : (forall es, P es -> Q es) -> safe P f -> safe Q f.
Proof.
  intros HPQ (Hr & lf & Hl & Hh & Hd). split; [done|]. exists lf. eauto using published_mono.
Qed.

Lemma published_file P lf lf' o :
  (forall log, holds log lf -> holds log lf') -> published P lf o -> published P lf' o.
Proof.
  intros Hf [?|(es & h & log & hbs & ? & ? & ? & ? & ?)]; [by left|right].
  exists es, h, log, hbs. auto 10.
Qed.

(** Nothing is lost with the power. *)
Lemma safe_power_loss P f f' : safe P f -> power_loss f f' -> safe P f'.
Proof.
  intros ((Hp & Hk & Hman) & lf & Hl & Hh & Hd) (_ & Hp' & Hm' & Hl' & Hh' & Hd' & Hk').
  rewrite Hk in *. destruct Hm' as [Hm'|[? _]]; [|done]. destruct Hl' as [Hl'|[? _]]; [|done].
  rewrite Hman in Hm'. apply opt_full_survives in Hm'.
  rewrite Hl in Hl'. inversion Hl' as [|? lf' Hs]; subst.
  split; [split; [by rewrite Hp'|done]|]. exists lf'. split; [done|]. rewrite Hd'.
  assert (published P lf' (head_file f')); [|done].
  apply (published_file _ lf); [intros; by eapply holds_survives|].
  assert (Hcase : forall o, published P lf o -> opt_survives o (head_file f') ->
                    published P lf (head_file f')).
  { intros o [[-> HN]|(es & h & log & hbs & ? & ? & ? & -> & ?)] Hs'.
    - left. split; [by inversion Hs'|done].
    - apply opt_full_survives in Hs'. right. exists es, h, log, hbs. auto 10. }
  destruct Hh' as [Hh'|Hh']; eauto.
Qed.

(** The store after a commit of [es]: the head file and its durable copy agree. *)
Definition committed (es : list entry) (h : JournalHead) (log : bytes) (lf : File) (f : Fs) : Prop :=
  ready f /\ log_file f = Some lf /\ history d0 es h log /\ holds log lf /\
  exists hbs, record h = Ok hbs /\ head_file f = Some (full hbs) /\ durable_head f = Some (full hbs).

Lemma committed_safe (P : option (list entry) -> Prop) es h log lf f :
  P (Some es) -> committed es h log lf f -> safe P f.
Proof.
  intros HP (Hr & Hl & Hh & Hlog & hbs & Hrec & Hhd & Hdh). split; [done|]. exists lf.
  split; [done|]. rewrite Hhd, Hdh. split; right; exists es, h, log, hbs; auto 10.
Qed.

(** Publishing a head for a history the log holds moves the store from one
    committed history to the other; interrupted, it leaves one of the two. *)
Lemma publish_head_triple (P : option (list entry) -> Prop) es h log lf :
  P (Some es) -> history d0 es h log -> holds log lf ->
  triple (fun f => safe P f /\ log_file f = Some lf) (publish_head h)
    (fun _ f => committed es h log lf f) (safe P).
Proof.
  intros HP Hh Hlog. unfold publish_head.
  apply triple_bind with (mid := fun _ f => safe P f /\ log_file f = Some lf /\
                                  next_file f = Some (mkFile [] 0)).
  { apply triple_new_file; naive_solver. }
  intros _. apply triple_bind with (mid := fun bs f => record h = Ok bs /\ safe P f /\
                                       log_file f = Some lf /\ next_file f = Some (mkFile [] 0)).
  { apply triple_ret; naive_solver. }
  intros hbs. apply triple_bind with (mid := fun _ f => record h = Ok hbs /\ safe P f /\
                                         log_file f = Some lf /\ next_file f = Some (mkFile hbs 0)).
  { apply triple_effect; [|naive_solver]. intros f (Hr & Hs & Hl & Hn). do 3 (split; [done|]).
    simpl. by rewrite Hn. }
  intros _. apply triple_bind with (mid := fun _ f => record h = Ok hbs /\ safe P f /\
                                       log_file f = Some lf /\ next_file f = Some (full hbs)).
  { apply triple_syscall; [|naive_solver..]. intros f (Hr & Hs & Hl & Hn). do 3 (split; [done|]).
    simpl. by rewrite Hn. }
  intros _. apply triple_bind with (mid := fun _ f => record h = Ok hbs /\ safe P f /\
                                       log_file f = Some lf /\ head_file f = Some (full hbs)).
  { assert (Hren : forall f, record h = Ok hbs /\ safe P f /\ log_file f = Some lf /\
                      next_file f = Some (full hbs) ->
              record h = Ok hbs /\ safe P (rename_next f) /\ log_file (rename_next f) = Some lf /\
                      head_file (rename_next f) = Some (full hbs)).
    { intros f (Hr & (Hrd & lf' & Hl' & Hhd & Hdh) & Hl & Hn). unfold rename_next. rewrite Hn.
      assert (lf' = lf) as -> by congruence. split; [done|]. split; [|done]. split; [done|]. exists lf. split; [done|].
      split; [|done]. right. exists es, h, log, hbs. auto 10. }
    apply triple_syscall; [exact Hren|by intros f (_ & ? & _)|by intros f (_ & ? & _)%Hren]. }
  intros _. apply triple_syscall; [|by intros f (_ & ? & _)|].
  - intros f (Hr & ((Hp & _ & Hma) & _) & Hl & Hhd). split; [by split|]. split; [done|].
    split; [done|]. split; [done|]. by exists hbs.
  - intros f (Hr & ((Hp & _ & Hma) & lf' & Hl' & Hpub & _) & Hl & Hhd). split; [by split|].
    exists lf'. split; [done|]. by split.
Qed.

(** Appending bytes to the log and syncing it keeps what it held. *)
Lemma safe_on_log P g f :
  (forall lf, exists lf', g (Some lf) = Some lf' /\ forall log, holds log lf -> holds log lf') ->
  safe P f -> safe P (on_log g f).
Proof.
  intros Hg (Hr & lf & Hl & Hh & Hd). split; [done|]. destruct (Hg lf) as (lf' & Hg' & Hk).
  exists lf'. simpl. rewrite Hl. split; [done|]. split; by apply (published_file _ lf).
Qed.

Lemma safe_write P bs f : safe P f -> safe P (on_log (appended bs) f).
Proof. apply safe_on_log. intros lf. eexists. split; [done|]. intros. by apply holds_appended. Qed.

Lemma safe_flush P f : safe P f -> safe P (on_log flushed f).
Proof. apply safe_on_log. intros lf. eexists. split; [done|]. intros. by apply holds_flushed. Qed.

(** [commit] moves the store from [es] to [es'] or leaves one of them. *)
Lemma commit_triple (P : option (list entry) -> Prop) es h log es' h' bs :
  P (Some es) -> P (Some es') -> history d0 es' h' (log ++ bs) ->
  triple (fun f => exists lf, committed es h log lf f /\ data lf = log) (commit bs h')
    (fun _ f => committed es' h' (log ++ bs) (full (log ++ bs)) f) (safe P).
Proof.
  intros HP HP' Hh'. unfold commit. set (k := Nat.div2 (length bs)).
  apply triple_bind with (mid := fun _ f => safe P f /\ exists s,
                            log_file f = Some (mkFile (log ++ take k bs) s)).
  { apply triple_effect.
    - intros f (lf & Hc & Hd). split; [by apply safe_write, (committed_safe P es h log lf)|].
      destruct Hc as (_ & Hl & _). exists (synced lf). simpl. by rewrite Hl, <- Hd.
    - intros f n (lf & Hc & Hd). by apply safe_write, (committed_safe P es h log lf). }
  intros _. apply triple_bind with (mid := fun _ f => safe P f /\ exists s,
                                      log_file f = Some (mkFile (log ++ bs) s)).
  { apply triple_effect.
    - intros f (Hs & s & Hl). split; [by apply safe_write|]. exists s. simpl. rewrite Hl. simpl.
      by rewrite <- app_assoc, take_drop.
    - intros f n (Hs & _). by apply safe_write. }
  intros _. apply triple_bind with (mid := fun _ f => safe P f /\
                                      log_file f = Some (full (log ++ bs))).
  { apply triple_syscall; [|by intros f [? _]|by intros f [? _]; apply safe_flush].
    intros f (Hs & s & Hl). split; [by apply safe_flush|]. simpl. by rewrite Hl. }
  intros _. apply publish_head_triple; [done..|]. split; done.
Qed.

(** *** Opening *)

(** A handle's head is the committed one, its tail what follows in the log. *)
Definition owns (es : list entry) (log : bytes) (lf : File) (j : Journal) (f : Fs) : Prop :=
  tail_bytes j = Z.of_nat (length (data lf)) - Z.of_nat (length log) /\
  committed es (head j) log lf f.

(** The handle [open] returns for a committed history of the store. *)
Definition opened (es : list entry) (log : bytes) (lf : File) (j : Journal) (f : Fs) : Prop :=
  manifest j = normal m /\ write_failed j = false /\
  owns es log lf j f.

(** What [open] reads from a safe store. *)
Lemma safe_read P f :
  head_file f <> None -> safe P f -> exists es h log lf hbs,
    P (Some es) /\ history d0 es h log /\ holds log lf /\ log_file f = Some lf /\
    head_file f = Some (full hbs) /\ record h = Ok hbs /\
    read_record_bytes hbs = Ok h /\ read_record_bytes mbs = Ok (normal m) /\
    scan h (data lf) = Ok (map normal es).
Proof.
  intros HN (Hr & lf & Hl & [[? _]|(es & h & log & hbs & HP & Hh & Hrec & Hhd & Hlog)] & _); [done|].
  exists es, h, log, lf, hbs. do 6 (split; [done|]).
  split; [by rewrite (read_record_written h), normal_head|].
  split; [by apply read_record_written|].
  destruct Hlog as [[t ->] _]. by eapply scan_history.
Qed.

Definition seal (f : Fs) : Fs := sync_dir (set_lock true f).

Lemma seal_committed P f es h log lf hbs :
  safe P f -> history d0 es h log -> holds log lf -> log_file f = Some lf ->
  head_file f = Some (full hbs) -> record h = Ok hbs -> committed es h log lf (seal f).
Proof.
  intros ((Hp & _ & Hma) & _) Hh Hlog Hl Hhd Hrec.
  split; [by split|]. do 3 (split; [done|]). by exists hbs.
Qed.

(** Without faults a safe store opens with one of its committed histories. *)
Lemma open_safe P f :
  head_file f <> None -> safe P f -> locked f = false ->
  exists es log lf j, P (Some es) /\
    open (mkWorld f []) = (Ret (Ok j), mkWorld (seal f) []) /\ opened es log lf j (seal f).
Proof.
  intros HN Hs Hlk.
  destruct (safe_read P f HN Hs) as (es & h & log & lf & hbs & HP & Hh & Hlog & Hl & Hhd & Hrec & Rh & Rm & Hscan).
  destruct (history_head _ _ _ _ Hh) as (Eh & Eb & _).
  pose proof (seal_committed P f es h log lf hbs Hs Hh Hlog Hl Hhd Hrec) as Hc.
  pose proof (prefix_length _ _ (proj1 Hlog)) as Hlen. destruct Hs as ((Hp & _ & Hma) & _).
  exists es, log, lf, (mkJournal (normal m) h (Z.of_nat (length (data lf)) - journal_bytes h) false).
  split; [done|]. split; [|by split; [|split; [|split; [rewrite <- Eb|]]]].
  unfold open, open_directory, lock, with_lock, read_record_file, scan_io, open_file, bind, observe,
    syscall, effect, ret. cbn. rewrite Hp. cbn. rewrite Hlk. cbn. rewrite Hma. cbn. rewrite Rm.
  rewrite normal_value_object, Hobj. cbn. rewrite Hhd. cbn. rewrite Rh, digest_normal, Hd0, Eh.
  rewrite String.eqb_refl. cbn. rewrite Hl. cbn.
  destruct (Z.ltb_spec (Z.of_nat (length (data lf))) (journal_bytes h)); [lia|].
  cbn. rewrite Hl. cbn. by rewrite Hscan.
Qed.

Lemma safe_has_head (P : option (list entry) -> Prop) f :
  ~ P None -> safe P f -> head_file f <> None.
Proof. intros HN (_ & lf & _ & [[_ ?]|(es & h & log & hbs & _ & _ & _ & -> & _)] & _); done. Qed.

(** A directory without a head file is never opened as a Run. *)
Lemma open_headless (C : Fs -> Prop) :
  (forall f b, C f -> C (set_lock b f)) ->
  triple (fun f => C f /\ head_file f = None) open (fun _ _ => False) C.
Proof.
  intros HC. apply triple_at. intros f0 [Hc Hn]. unfold open.
  apply triple_bind with (mid := fun _ f => f0 = f).
  { apply triple_bind with (mid := fun _ => eq f0); [by apply triple_observe|]. intros _ w Hw.
    simpl. destruct (present (fs w)); by rewrite <- ?Hw. }
  intros _. apply triple_bind with (mid := fun _ f => f = set_lock true f0); [by apply triple_lock|].
  intros _. apply triple_with_lock with C; [|auto].
  apply triple_at. intros f1 ->. assert (Hc1 : C (set_lock true f0)) by auto.
  eapply triple_bind; [by apply triple_read|]. intros m'.
  apply triple_at. intros f1 (<- & _). destruct (is_object m'); [|intros w Hw; simpl; by rewrite <- Hw].
  cbn [negb]. eapply triple_bind; [by apply triple_read|]. intros h'.
  apply triple_at. intros f1 (_ & x & Hx & _). cbn in Hx. congruence.
Qed.

(** Under any faults, opening a safe store yields one of its histories or
    leaves the store safe. *)
Lemma open_triple P :
  triple (fun f => safe P f /\ head_file f <> None) open
    (fun j f => exists es log lf, P (Some es) /\ opened es log lf j f) (safe P).
Proof.
  apply triple_at. intros f0 [Hs HN]. unfold open.
  apply triple_bind with (mid := fun _ f => f0 = f).
  { apply triple_bind with (mid := fun _ => eq f0); [by apply triple_observe|]. intros _ w Hw.
    simpl. destruct (present (fs w)); by rewrite <- ?Hw. }
  intros _. apply triple_bind with (mid := fun _ f => f = set_lock true f0); [by apply triple_lock|].
  intros _. apply triple_with_lock with (safe P); [|done].
  destruct (safe_read P f0 HN Hs) as (es & h & log & lf & hbs & HP & Hh & Hlog & Hl & Hhd & Hrec & Rh & Rm & Hscan).
  destruct (history_head _ _ _ _ Hh) as (Eh & Eb & _).
  pose proof (seal_committed P f0 es h log lf hbs Hs Hh Hlog Hl Hhd Hrec) as Hc.
  assert (Hsl : safe P (set_lock true f0)) by exact Hs.
  apply triple_at. intros f1 ->.
  eapply triple_bind; [by apply triple_read|]. intros m'.
  apply triple_at. intros f1 (<- & x & Hx & Hm').
  assert (m' = normal m) as ->.
  { destruct Hs as ((_ & _ & Hma) & _). cbn in Hx. rewrite Hma in Hx. injection Hx as <-.
    cbn in Hm'. congruence. }
  rewrite normal_value_object, Hobj. cbn [negb].
  eapply triple_bind; [by apply triple_read|]. intros h'.
  apply triple_at. intros f1 (<- & x' & Hx' & Hh').
  assert (h' = h) as -> by (cbn in Hx'; rewrite Hhd in Hx'; injection Hx' as <-; cbn in Hh'; congruence).
  eapply triple_bind; [by apply triple_pure with (g := fun _ => digest (normal m))|]. intros d.
  apply triple_at. intros f1 (<- & Hd). rewrite digest_normal, Hd0 in Hd. injection Hd as <-.
  rewrite Eh, String.eqb_refl. cbn [negb].
  eapply triple_bind; [by apply triple_open_file|]. intros lf'.
  apply triple_at. intros f1 (<- & Hl'). assert (lf' = lf) as -> by (simpl in *; congruence).
  eapply triple_bind; [by apply triple_observe|]. intros []. cbn zeta.
  destruct (_ <? _); [intros w Hw; simpl; by rewrite <- Hw|].
  eapply triple_bind; [by apply triple_scan|]. intros es'.
  apply triple_at. intros f1 (<- & _).
  apply triple_bind with (mid := fun _ f => f = seal f0).
  { apply triple_syscall; [by intros f <-|by intros f <-|intros f <-]. by apply (committed_safe P es h log lf). }
  intros _ w Hw. simpl. rewrite Hw. exists es, log, lf. split; [done|].
  by split; [|split; [|split; [rewrite <- Eb|]]].
Qed.

(** *** Appending *)

Lemma prepare_ok es log lf j f k ep b now e next bs :
  owns es log lf j f -> prepare j k ep b now = Ok (e, next, bs) ->
  write_failed j = false /\ tail_bytes j = 0 /\ data lf = log /\
  history d0 (es ++ [e]) next (log ++ bs).
Proof.
  intros (Ht & _ & _ & Hh & [[t Hpre] _] & _). unfold prepare.
  destruct (bounded_input b) as [b'|]; [|done].
  destruct (write_failed j); [done|]. destruct (Z.eqb_spec (tail_bytes j) 0) as [Ht0|]; [|done].
  destruct (valid_kind k) eqn:Hk; [|done]. destruct (is_object b') eqn:Hb; [|done]. cbn [negb orb].
  unfold checked_add. destruct (Z.ltb_spec (sequence (head j) + 1) (2 ^ 64)); [|done]. cbn [ok_or].
  set (e0 := mkEntry _ _ _ _ _ _).
  destruct (record e0) as [bs'|] eqn:Hrec; [|done]. destruct (digest e0) as [r|] eqn:Hdig; [|done].
  destruct (_ <? _); [|done]. cbn [ok_or]. intros [= <- <- <-].
  destruct (history_head _ _ _ _ Hh) as (Eh & _ & _).
  do 2 (split; [done|]). split.
  - rewrite Hpre in Ht |- *. rewrite length_app in Ht. destruct t; [apply app_nil_r|simpl in Ht; lia].
  - rewrite Eh. by apply (HSnoc d0 es (head j) log e0).
Qed.

(** An append commits the entry and updates the handle, or poisons the handle
    and leaves the store on the old or the new history. *)
Lemma append_outcome es log lf j k ep b now w o j' w' (P : option (list entry) -> Prop) :
  owns es log lf j (fs w) -> append j k ep b now w = (o, j', w') ->
  P (Some es) -> (forall e, P (Some (es ++ [e])%list)) ->
  match o with
  | Ret (Ok e) => write_failed j' = false /\ exists log', owns (es ++ [e]) log' (full log') j' (fs w')
  | Ret (Err _) => safe P (fs w') /\ (write_failed j' = true \/ (j', w') = (j, w))
  | Killed => safe P (fs w') /\ locked (fs w') = false
  end.
Proof.
  intros Hown Hap HP HP'. revert Hap. unfold append.
  destruct (prepare j k ep b now) as [[[e next] bs]|err] eqn:Hprep.
  - destruct (prepare_ok _ _ _ _ _ _ _ _ _ _ _ _ Hown Hprep) as (Hwf & Ht & Hd & Hh').
    destruct Hown as [_ Hc].
    pose proof (commit_triple P es (head j) log (es ++ [e]) next bs HP (HP' e) Hh' w) as Htr.
    specialize (Htr (ex_intro _ lf (conj Hc Hd))).
    destruct (commit bs next w) as [[[u|err]|] w1]; intros [= <- <- <-]; simpl.
    + split; [done|]. exists (log ++ bs)%list. split; [simpl; lia|done].
    + split; [done|by left].
    + by split.
  - intros [= <- <- <-]. split; [|by right]. destruct Hown as [_ Hc].
    exact (committed_safe P es (head j) log lf (fs w) HP Hc).
Qed.

(** *** Creating *)

Definition headless (f : Fs) : Prop := head_file f = None /\ durable_head f = None.

(** The histories an interrupted creation can leave: none, or the empty one. *)
Definition at_birth (o : option (list entry)) : Prop := o = None \/ o = Some [].

(** The directory with its manifest and empty log, before the first head. *)
Definition born : Fs :=
  mkFs true true (Some (full mbs)) (Some (full [])) None None true None.

Lemma create_files_triple (crash : Fs -> Prop) :
  (forall f, headless f -> crash f) ->
  triple (fun f => f = set_lock true (set_present empty_fs)) (create_files mbs)
    (fun _ f => f = born) crash.
Proof.
  intros Hc. set (f2 := set_lock true _). unfold create_files.
  apply triple_bind with (mid := fun _ f => f = on_manifest (fun _ => Some (mkFile [] 0)) f2).
  { apply triple_new_file; intros f ->; [by apply Hc..|done]. }
  intros []. apply triple_bind with (mid := fun _ f => f = on_manifest (fun _ => Some (mkFile mbs 0)) f2).
  { apply triple_effect; [by intros f ->|intros f n ->; by apply Hc]. }
  intros []. apply triple_bind with (mid := fun _ f => f = on_manifest (fun _ => Some (full mbs)) f2).
  { apply triple_syscall; intros f ->; [done|by apply Hc..]. }
  intros []. set (f3 := on_manifest (fun _ => Some (full mbs)) f2).
  apply triple_bind with (mid := fun _ f => f = on_log (fun _ => Some (full [])) f3).
  { apply triple_new_file; intros f ->; [by apply Hc..|done]. }
  intros []. apply triple_bind with (mid := fun _ f => f = on_log (fun _ => Some (full [])) f3).
  { apply triple_syscall; intros f ->; [done|by apply Hc..]. }
  intros []. apply triple_syscall; intros f ->; [done|by apply Hc..].
Qed.

Lemma create_triple :
  triple (eq empty_fs) (create m)
    (fun j f => manifest j = m /\ write_failed j = false /\ owns [] [] (full []) j f)
    (fun f => headless f \/ safe at_birth f).
Proof.
  unfold create.
  apply triple_bind with (mid := fun m' f => m' = m /\ empty_fs = f).
  { apply triple_ret; [|by intros f <-; left].
    unfold bounded_input. destruct (fits _ m); naive_solver. }
  intros m'. apply triple_at. intros f0 [-> <-]. rewrite Hobj. cbn [negb].
  apply triple_bind with (mid := fun bs f => bs = mbs /\ empty_fs = f).
  { apply triple_ret; [|by intros f <-; left]. intros a f Ha <-. split; [congruence|done]. }
  intros bs. apply triple_at. intros f0 [-> <-].
  apply triple_bind with (mid := fun _ f => f = set_present empty_fs).
  { apply triple_create_directory; intros f <-; [by left..|done]. }
  intros _. set (f1 := set_present empty_fs).
  apply triple_at. intros f0 ->.
  eapply triple_bind; [apply triple_observe; by left|]. intros [].
  eapply triple_bind; [apply triple_bind with (mid := fun _ => eq f1); [apply triple_observe; by left|]|].
  { intros [] w Hw. simpl. rewrite <- Hw. instantiate (1 := fun _ => eq f1). done. }
  intros []. eapply triple_bind; [apply triple_lock; by left|]. intros [].
  apply triple_with_lock with (fun f => headless f \/ safe at_birth f); [|done].
  apply triple_bind with (mid := fun _ f => f = born); [apply create_files_triple; by left|].
  intros []. rewrite Hd0.
  apply triple_bind with (mid := fun r f => r = d0 /\ f = born).
  { apply triple_ret; [|intros f ->; by left]. intros a f [= <-] ->. done. }
  intros r. apply triple_at. intros f5 [-> ->].
  apply triple_bind with (mid := fun _ f => committed [] (initial_head d0) [] (full []) f).
  { apply triple_crash with (safe at_birth); [by right|].
    apply triple_pre with (fun f => safe at_birth f /\ log_file f = Some (full []));
      [|apply publish_head_triple; [by right|constructor|by split]].
    intros f <-. split; [|done]. split; [done|]. exists (full []). split; [done|].
    split; by left; split; [|left]. }
  intros [] w Hw. by split; [|split; [|split]].
Qed.

Lemma replay_owns es log lf j f :
  owns es log lf j f -> replay j (mkWorld f []) = (Ret (Ok (map normal es)), mkWorld f []).
Proof.
  intros (_ & _ & Hl & Hh & [[t Ht] _] & _).
  unfold replay, scan_io, open_file, bind, observe, syscall, effect, ret. cbn.
  do 2 (rewrite Hl; cbn; rewrite Ht, (scan_history d0 es (head j) log) by done; cbn). done.
Qed.

End Store.

Lemma record_digest (m : Value Num) mbs : record m = Ok mbs -> exists d0, digest m = Ok d0.
Proof.
  unfold record, digest, sha256_json. destruct (canonical m) as [v|]; [|done].
  destruct (to_vec v) as [b|]; [|done]. by eexists.
Qed.

Lemma create_ok_inv m w j w' :
  create m w = (Ret (Ok j), w') -> is_object m = true /\ exists mbs, record m = Ok mbs.
Proof.
  unfold create, bind at 1, ret at 1, bounded_input.
  destruct (fits _ m); [|done]. destruct (is_object m); [|done]. cbn [negb].
  unfold bind at 1, ret at 1. destruct (record m) as [bs|]; [|done]. eauto.
Qed.

Lemma triple_any {A} (c : IO A) : triple (fun _ => True) c (fun _ _ => True) (fun _ => True).
Proof. intros w _. by destruct (c w) as [[[a|e]|] w']. Qed.

Lemma open_unlocks : triple (fun f => locked f = false) open (fun _ _ => True) (fun f => locked f = false).
Proof.
  apply triple_bind with (mid := fun _ f => locked f = false).
  { apply triple_bind with (mid := fun _ f => locked f = false); [by apply triple_syscall|].
    intros _ w Hw. simpl. by destruct (present (fs w)). }
  intros _. apply triple_bind with (mid := fun _ _ => True).
  { apply triple_bind with (mid := fun _ f => locked f = false); [by apply triple_syscall|].
    intros _ w Hw. simpl. by rewrite Hw. }
  intros _. apply triple_with_lock with (fun _ => True); [apply triple_any|done].
Qed.

(** ** The life of a Run's journal

    Sessions of one writer: the handle appends, closes, is killed or loses
    power; the next session opens what is left.  The list holds the entries
    the journal has acknowledged: those [append] returned, or those [replay]
    showed to the session that opened the Run. *)
Inductive life (m : Value Num) : Fs -> option Journal -> list entry -> Prop :=
| LCreate p j w : create m (mkWorld empty_fs p) = (Ret (Ok j), w) -> life m (fs w) (Some j) []
| LAppend f j acked k ep b now p e j' w :
    life m f (Some j) acked ->
    append j k ep b now (mkWorld f p) = (Ret (Ok e), j', w) ->
    life m (fs w) (Some j') (acked ++ [normal e])
| LAppendFails f j acked k ep b now p e j' w :
    life m f (Some j) acked ->
    append j k ep b now (mkWorld f p) = (Ret (Err e), j', w) ->
    life m (fs w) (Some j') acked
| LAppendKilled f j acked k ep b now p j' w :
    life m f (Some j) acked ->
    append j k ep b now (mkWorld f p) = (Killed, j', w) -> life m (fs w) None acked
| LClose f j acked : life m f (Some j) acked -> life m (set_lock false f) None acked
| LPowerLoss f o acked f' : life m f o acked -> power_loss f f' -> life m f' None acked
| LOpen f acked p j w es w' :
    life m f None acked -> open (mkWorld f p) = (Ret (Ok j), w) ->
    replay j (mkWorld (fs w) []) = (Ret (Ok es), w') -> life m (fs w) (Some j) es
| LOpenFails f acked p o w :
    life m f None acked -> open (mkWorld f p) = (o, w) -> (forall j, o <> Ret (Ok j)) ->
    life m (fs w) None acked.

(** A history that has every acknowledged entry and at most one more. *)
Definition covers (acked : list entry) (o : option (list entry)) : Prop :=
  exists es, o = Some es /\ acked `prefix_of` map normal es /\
    (length es <= S (length acked))%nat.

Lemma covers_exact (es : list entry) : covers (map normal es) (Some es).
Proof. exists es. rewrite length_map. split; [done|]. split; [done|lia]. Qed.

Lemma covers_extra (es : list entry) e : covers (map normal es) (Some (es ++ [e])%list).
Proof.
  exists (es ++ [e])%list. rewrite map_app, length_app, length_map. simpl.
  split; [done|]. split; [by eexists|lia].
Qed.

Lemma covers_some acked : ~ covers acked None.
Proof. by intros (es & ? & _). Qed.

(** The invariant of a life. *)
Definition alive (m : Value Num) (f : Fs) (o : option Journal) (acked : list entry) : Prop :=
  exists mbs d0, record m = Ok mbs /\ is_object m = true /\ digest m = Ok d0 /\
    safe mbs d0 (covers acked) f /\
    match o with
    | None => locked f = false
    | Some j => write_failed j = false ->
        exists es log lf, acked = map normal es /\ owns mbs d0 es log lf j f
    end.

Lemma append_poisoned j k ep b now w :
  write_failed j = true -> exists e, append j k ep b now w = (Ret (Err e), j, w).
Proof.
  intros Hw. unfold append. unfold prepare at 1.
  destruct (bounded_input b); [|by eexists]. rewrite Hw. by eexists.
Qed.

Lemma append_alive m f j acked k ep b now p o j' w' :
  alive m f (Some j) acked -> append j k ep b now (mkWorld f p) = (o, j', w') ->
  match o with
  | Ret (Ok e) => alive m (fs w') (Some j') (acked ++ [normal e])
  | Ret (Err _) => alive m (fs w') (Some j') acked
  | Killed => alive m (fs w') None acked
  end.
Proof.
  intros (mbs & d0 & Hm & Hobj & Hd & Hs & Hj) Hap.
  destruct (write_failed j) eqn:Hw.
  { destruct (append_poisoned j k ep b now (mkWorld f p) Hw) as [e He]. rewrite He in Hap.
    injection Hap as <- <- <-. exists mbs, d0. by rewrite Hw. }
  destruct (Hj eq_refl) as (es & log & lf & -> & Hown).
  pose proof (append_outcome mbs d0 es log lf j k ep b now (mkWorld f p) o j' w'
    (covers (map normal es)) Hown Hap (covers_exact es) (covers_extra es)) as Hout.
  destruct o as [[e|e]|].
  - destruct Hout as (Hw' & log' & Hown'). exists mbs, d0. do 3 (split; [done|]).
    assert (Hmap : (map normal es ++ [normal e] = map normal (es ++ [e]))%list) by by rewrite map_app.
    rewrite Hmap. split.
    + destruct Hown' as [_ Hc]. exact (committed_safe mbs d0 (covers _) _ _ _ _ _ (covers_exact _) Hc).
    + intros _. by eexists _, _, _.
  - destruct Hout as [Hs' Hw']. exists mbs, d0. do 4 (split; [done|]).
    intros Hwf. destruct Hw' as [?|[= -> ->]]; [congruence|]. by eexists _, _, _.
  - destruct Hout as [Hs' Hl]. by exists mbs, d0.
Qed.

Lemma create_alive m p j w :
  create m (mkWorld empty_fs p) = (Ret (Ok j), w) -> alive m (fs w) (Some j) [].
Proof.
  intros Hc. destruct (create_ok_inv _ _ _ _ Hc) as [Hobj [mbs Hm]].
  destruct (record_digest m mbs Hm) as [d0 Hd].
  pose proof (create_triple m mbs d0 Hm Hobj Hd (mkWorld empty_fs p) eq_refl) as Ht.
  rewrite Hc in Ht. destruct Ht as (_ & _ & Hown). exists mbs, d0. do 3 (split; [done|]). split.
  - destruct Hown as [_ Hcm]. exact (committed_safe mbs d0 (covers []) [] _ _ _ _ (covers_exact []) Hcm).
  - intros _. by exists [], [], (full []).
Qed.

Lemma open_alive m f acked p o w :
  alive m f None acked -> open (mkWorld f p) = (o, w) ->
  match o with
  | Ret (Ok j) => exists es w', replay j (mkWorld (fs w) []) = (Ret (Ok es), w') /\
                    alive m (fs w) (Some j) es
  | _ => alive m (fs w) None acked
  end.
Proof.
  intros (mbs & d0 & Hm & Hobj & Hd & Hs & Hl) Ho.
  pose proof (safe_has_head mbs d0 _ f (covers_some acked) Hs) as Hh.
  pose proof (open_triple m mbs d0 Hm Hobj Hd (covers acked) (mkWorld f p) (conj Hs Hh)) as Ht.
  pose proof (open_unlocks (mkWorld f p) Hl) as Hu. rewrite Ho in Ht, Hu.
  destruct o as [[j|e]|]; [|by exists mbs, d0..].
  destruct Ht as (es & log & lf & _ & _ & _ & Hown).
  exists (map normal es), (mkWorld (fs w) []). split.
  - by eapply replay_owns.
  - exists mbs, d0. do 3 (split; [done|]). split; [|intros _; by eexists _, _, _].
    destruct Hown as [_ Hc]. exact (committed_safe mbs d0 (covers _) _ _ _ _ _ (covers_exact es) Hc).
Qed.

Lemma life_alive m f o acked : life m f o acked -> alive m f o acked.
Proof.
  induction 1 as [p j w Hc|f j acked k ep b now p e j' w _ IH Ha|f j acked k ep b now p e j' w _ IH Ha
    |f j acked k ep b now p j' w _ IH Ha|f j acked _ IH|f o acked f' _ IH Hp
    |f acked p j w es w' _ IH Ho Hr|f acked p o w _ IH Ho Hn].
  - by eapply create_alive.
  - by apply (append_alive _ _ _ _ _ _ _ _ _ _ _ _ IH Ha).
  - by apply (append_alive _ _ _ _ _ _ _ _ _ _ _ _ IH Ha).
  - by apply (append_alive _ _ _ _ _ _ _ _ _ _ _ _ IH Ha).
  - destruct IH as (mbs & d0 & ? & ? & ? & Hs & _). by exists mbs, d0.
  - destruct IH as (mbs & d0 & ? & ? & ? & Hs & _). exists mbs, d0. do 3 (split; [done|]).
    split; [by eapply safe_power_loss|]. by destruct Hp.
  - destruct (open_alive _ _ _ _ _ _ IH Ho) as (es' & w2 & Hr' & Ha). rewrite Hr' in Hr.
    by injection Hr as <- <-.
  - pose proof (open_alive _ _ _ _ _ _ IH Ho) as Ha. destruct o as [[j|e]|]; [|done..].
    by destruct (Hn j).
Qed.

(** C10. Whatever happens in the life of a Run's journal — sessions that append,
    fail, are killed or lose power inside any system call, in any order — the
    store still opens without faults, with the Run's manifest, and replays
    every entry the journal has acknowledged, in order, followed by at most
    one entry whose append was interrupted. *)
Theorem acknowledged_entries_survive m f acked :
  life m f None acked ->
  exists j es w, open (mkWorld f []) = (Ret (Ok j), w) /\
    manifest j = normal m /\
    replay j w = (Ret (Ok es), w) /\
    acked `prefix_of` es /\ (length es <= S (length acked))%nat.
Proof.
  intros (mbs & d0 & Hm & Hobj & Hd & Hs & Hl)%life_alive.
  pose proof (safe_has_head mbs d0 _ f (covers_some acked) Hs) as Hh.
  destruct (open_safe m mbs d0 Hm Hobj Hd _ f Hh Hs Hl) as (es & log & lf & j & Hc & Ho & Hman & _ & Hown).
  destruct Hc as (es' & [= <-] & Hpre & Hlen).
  exists j, (map normal es), (mkWorld (seal f) []). rewrite length_map.
  do 2 (split; [done|]). split; [by eapply replay_owns|]. done.
Qed.

Lemma headless_power_loss f f' : headless f -> power_loss f f' -> headless f'.
Proof.
  intros [Hh Hd] (_ & _ & _ & _ & Hh' & Hd' & _). rewrite Hh, Hd in Hh'.
  assert (head_file f' = None) by (destruct Hh' as [Hs|Hs]; by inversion Hs). by split; [|rewrite Hd'].
Qed.

(** A creation that refuses its manifest has not touched the store. *)
Lemma create_refuses m w o w' :
  create m w = (o, w') -> is_object m = false \/ (exists e, record m = Err e) -> fs w' = fs w.
Proof.
  unfold create, bind at 1, ret at 1, bounded_input. intros Hc Hr.
  destruct (fits _ m); [|by injection Hc as <- <-].
  destruct (is_object m); cbn [negb] in Hc; [|by injection Hc as <- <-].
  destruct Hr as [?|[e He]]; [done|]. unfold bind at 1, ret at 1 in Hc. rewrite He in Hc.
  by injection Hc as <- <-.
Qed.

(** The store an interrupted or finished creation leaves. *)
Lemma create_leaves m p o w :
  create m (mkWorld empty_fs p) = (o, w) ->
  headless (fs w) \/ exists mbs d0, record m = Ok mbs /\ is_object m = true /\
    digest m = Ok d0 /\ safe mbs d0 at_birth (fs w).
Proof.
  intros Hc.
  destruct (is_object m) eqn:Hobj; [|left; rewrite (create_refuses _ _ _ _ Hc); [done|by left]].
  destruct (record m) as [mbs|e] eqn:Hm;
    [|left; rewrite (create_refuses _ _ _ _ Hc); [done|right; by eexists]].
  destruct (record_digest m mbs Hm) as [d0 Hd].
  assert (Hw : headless (fs w) \/ safe mbs d0 at_birth (fs w)).
  { pose proof (create_triple m mbs d0 Hm Hobj Hd (mkWorld empty_fs p) eq_refl) as Ht.
    rewrite Hc in Ht. destruct o as [[j0|e]|]; [|done..]. destruct Ht as (_ & _ & _ & Hcm).
    right. exact (committed_safe mbs d0 at_birth [] _ _ _ _ (or_intror eq_refl) Hcm). }
  destruct Hw; [by left|right]. by exists mbs, d0.
Qed.

(** A creation stopped at any point - by an error, a kill or a loss of
    power inside any system call - is never mistaken for another Run: if the
    directory it leaves opens at all, under any faults, it is the Run created,
    with its manifest and no events. *)
Theorem interrupted_creation_is_not_a_run m p o w f' p' j w' :
  create m (mkWorld empty_fs p) = (o, w) ->
  f' = set_lock false (fs w) \/ power_loss (fs w) f' ->
  open (mkWorld f' p') = (Ret (Ok j), w') ->
  manifest j = normal m /\ sequence (head j) = 0 /\
  replay j (mkWorld (fs w') []) = (Ret (Ok []), mkWorld (fs w') []).
Proof.
  intros Hc Hf' Ho.
  assert (Hno : head_file f' <> None).
  { intros Hn. pose proof (open_headless (fun _ => True) (fun _ _ _ => I) (mkWorld f' p') (conj I Hn)) as Ht.
    by rewrite Ho in Ht. }
  destruct (create_leaves _ _ _ _ Hc) as [Hh|(mbs & d0 & Hm & Hobj & Hd & Hs)].
  { destruct Hno. destruct Hf' as [->|Hp]; [by apply Hh|]. by apply (headless_power_loss (fs w)). }
  assert (Hs' : safe mbs d0 at_birth f').
  { destruct Hf' as [->|Hp]; [exact Hs|by eapply safe_power_loss]. }
  pose proof (open_triple m mbs d0 Hm Hobj Hd at_birth (mkWorld f' p') (conj Hs' Hno)) as Ht.
  rewrite Ho in Ht. destruct Ht as (es & log & lf & [?|[= ->]] & Hman & _ & Hown); [done|].
  split; [done|]. split; [|by apply (replay_owns _ _ _ _ _ _ _ Hown)].
  destruct Hown as (_ & _ & _ & Hh & _). inversion Hh as [Hi|es' ? ? ? ? ? ? ? ? ? ? ? ? ? He]; [done|].
  by destruct es'.
Qed.

End Proofs.

(** ** The head commits the whole history *)

Section Chain.
Context {J : Json}.

Notation entry := (Entry Num Timestamp).

(** A run of lines with their entries, chained from one digest to another. *)
Fixpoint chain (items : list (bytes * entry)) (root root' : string) : Prop :=
  match items with
  | [] => root = root'
  | (line, e) :: items' =>
      parse_record line = Ok e /\ prev e = root /\
      exists mid, digest e = Ok mid /\ chain items' mid root'
  end.

Lemma chain_snoc items line e root root' :
  chain (items ++ [(line, e)]) root root' <->
  chain items root (prev e) /\ parse_record line = Ok e /\ digest e = Ok root'.
Proof.
  revert root. induction items as [|[l x] items IH]; intros root; simpl.
  - naive_solver.
  - setoid_rewrite IH. naive_solver.
Qed.

Lemma read_until_app bs line rest : read_until bs = (line, rest) -> bs = (line ++ rest)%list.
Proof.
  revert line rest. induction bs as [|b bs IH]; simpl; intros line rest.
  - by intros [= <- <-].
  - destruct (b =? NEWLINE); [by intros [= <- <-]|].
    destruct (read_until bs) as [l r]. intros [= <- <-]. simpl. f_equal. by apply IH.
Qed.

Lemma read_line_app bs line rest : read_line bs = Ok (line, rest) -> bs = (line ++ rest)%list.
Proof.
  unfold read_line. destruct (read_until _) as [l r] eqn:Hr. apply read_until_app in Hr.
  destruct (_ <? _); [done|]. intros [= <- <-]. rewrite app_assoc, <- Hr. by rewrite take_drop.
Qed.

Lemma read_line_end bs rest : read_line bs = Ok ([], rest) -> bs = [].
Proof.
  unfold read_line. destruct bs as [|b bs]; [done|].
  set (n := Z.to_nat _). assert (Hn : (0 < n)%nat) by (unfold n, MAX_RECORD_BYTES; lia).
  clearbody n. destruct n as [|n]; [lia|]. cbn [take read_until]. destruct (b =? NEWLINE); [by destruct (_ <? _)|].
  destruct (read_until _). by destruct (_ <? _).
Qed.

Lemma scan_loop_chain fuel bs sq root c seen sq' root' c' seen' :
  scan_loop fuel bs sq root c seen = Ok (sq', root', c', seen') ->
  exists items, bs = concat (map fst items) /\ seen' = (seen ++ map snd items)%list /\
    sq' = sq + Z.of_nat (length items) /\ chain items root root'.
Proof.
  revert bs sq root c seen. induction fuel as [|fuel IH]; intros bs sq root c seen; [done|].
  cbn [scan_loop]. destruct (read_line bs) as [[line rest]|] eqn:Hl; [|done].
  destruct line as [|b line].
  { intros [= <- <- <- <-]. apply read_line_end in Hl as ->. exists [].
    split; [done|]. split; [by rewrite app_nil_r|]. split; [simpl; lia|done]. }
  apply read_line_app in Hl. destruct (parse_record _) as [e|] eqn:Hp; [|done].
  unfold checked_add. destruct (_ <? _); [|done]. cbn [ok_or].
  destruct (Z.eqb_spec (seq e) (sq + 1)); [|done].
  destruct (String.eqb_spec (prev e) root); [|done]. cbn [negb orb].
  destruct (_ || _); [done|]. destruct (digest e) as [mid|] eqn:Hd; [|done].
  intros (items & -> & -> & -> & Hc)%IH. exists ((b :: line, e) :: items). subst bs. simpl.
  split; [done|]. rewrite <- app_assoc. split; [done|]. split; [lia|]. eauto.
Qed.

(** Without digest collisions, a line is determined by its entry's digest. *)
Context (collision_free : forall b b', sha256_bytes b = sha256_bytes b' -> b = b').

Lemma digest_line l (e : entry) l' (e' : entry) r :
  parse_record l = Ok e -> digest e = Ok r -> parse_record l' = Ok e' -> digest e' = Ok r -> l = l'.
Proof using collision_free.
  assert (Hline : forall l (e : entry) r, parse_record l = Ok e -> digest e = Ok r ->
            exists b, l = (b ++ [NEWLINE])%list /\ sha256_bytes b = r).
  { clear -J. intros l e r. unfold parse_record. destruct (from_slice l) as [x|]; [|done].
    destruct (record x) as [again|] eqn:Hr; [|done]. case_bool_decide as Heq; [|done].
    intros [= ->]. subst again. revert Hr. unfold record, digest, sha256_json.
    destruct (canonical e) as [v|]; [|done]. destruct (to_vec v) as [b|]; [|done].
    destruct (_ <? _); [done|]. destruct (from_slice _); [|done]. intros [= <-] [= <-]. eauto. }
  intros H1 H2 H3 H4. destruct (Hline _ _ _ H1 H2) as (b & -> & Hb).
  destruct (Hline _ _ _ H3 H4) as (b' & -> & Hb'). f_equal. apply collision_free. congruence.
Qed.

Lemma chain_unique items : forall items' root root',
  length items = length items' ->
  chain items root root' -> chain items' root root' -> items = items'.
Proof using collision_free.
  induction items as [|[l e] items IH] using rev_ind; intros items' root root' Hlen Hc Hc'.
  - by destruct items'.
  - destruct items' as [|[l' e'] items' _] using rev_ind;
      [rewrite length_app in Hlen; simpl in Hlen; lia|].
    rewrite !length_app in Hlen. simpl in Hlen.
    apply chain_snoc in Hc as (Hc & Hp & Hd). apply chain_snoc in Hc' as (Hc' & Hp' & Hd').
    pose proof (digest_line l e l' e' root' Hp Hd Hp' Hd') as <-. assert (e = e') as <- by congruence.
    f_equal. apply (IH items' root (prev e)); [lia|done..].
Qed.

(** The head commits the whole history: with a collision-free digest, two
    logs that verify against the same head have the same committed bytes and
    the same entries, so no committed record can be altered, dropped,
    reordered or inserted without the verification failing. *)
Theorem head_commits_history h log log' es es' :
  scan h log = Ok es -> scan h log' = Ok es' ->
  take (Z.to_nat (journal_bytes h)) log = take (Z.to_nat (journal_bytes h)) log' /\ es = es'.
Proof using collision_free.
  unfold scan. intros H1 H2.
  destruct (scan_loop _ (take _ log) _ _ _ _) as [[[[sq root] c] seen]|] eqn:E1; [|done].
  destruct (scan_loop _ (take _ log') _ _ _ _) as [[[[sq' root'] c'] seen']|] eqn:E2; [|done].
  apply scan_loop_chain in E1 as (items & Hb & -> & -> & Hc).
  apply scan_loop_chain in E2 as (items' & Hb' & -> & -> & Hc').
  destruct (_ || _) eqn:G1; [done|]. destruct (_ || _) eqn:G2 in H2; [done|].
  injection H1 as <-. injection H2 as <-. reflect_bools.
  repeat match goal with H : String.eqb _ _ = true |- _ => apply String.eqb_eq in H end. subst root root'.
  assert (items = items') as <-; [|by rewrite Hb, Hb'].
  apply (chain_unique items items' _ _ ltac:(lia) Hc Hc').
Qed.

End Chain.

(** ** A concrete codec

    The laws are satisfiable: values are written as the binary digits of their
    code, numbers and times are integers, and objects keep their order. *)
Module Demo.

Notation V := (Value Z).

Fixpoint to_tree (v : V) : gen_tree (bool + Z + string) :=
  match v with
  | Null => GenNode 0 []
  | Bool b => GenLeaf (inl (inl b))
  | Number n => GenLeaf (inl (inr n))
  | VString s => GenLeaf (inr s)
  | Array vs => GenNode 1 (map to_tree vs)
  | Object fs => GenNode 2 (map (fun kv => GenNode 3 [GenLeaf (inr (fst kv)); to_tree (snd kv)]) fs)
  end.

Fixpoint of_tree (t : gen_tree (bool + Z + string)) : V :=
  match t with
  | GenLeaf (inl (inl b)) => Bool b
  | GenLeaf (inl (inr n)) => Number n
  | GenLeaf (inr s) => VString s
  | GenNode 1 ts => Array (map of_tree ts)
  | GenNode 2 ts =>
      Object (map (fun t => match t with
                            | GenNode 3 [GenLeaf (inr k); v] => (k, of_tree v)
                            | _ => (""%string, Null)
                            end) ts)
  | _ => Null
  end.

Fixpoint of_to_tree (v : V) : of_tree (to_tree v) = v.
Proof.
  destruct v as [|b|n|s|vs|fs]; simpl; try done; f_equal; rewrite map_map; simpl.
  - induction vs as [|v vs IH]; simpl; [done|]. by rewrite of_to_tree, IH.
  - induction fs as [|[k v] fs IH]; simpl; [done|]. by rewrite of_to_tree, IH.
Qed.

#[local] Instance value_eq_dec : EqDecision V.
Proof.
  assert (Inj (=) (=) to_tree).
  { intros x y Hxy. by rewrite <- (of_to_tree x), Hxy, of_to_tree. }
  exact (inj_eq_dec to_tree).
Defined.
#[local] Instance value_countable : Countable V := inj_countable' to_tree of_tree of_to_tree.

Fixpoint digits (p : positive) : bytes :=
  match p with xH => [] | xO q => 48 :: digits q | xI q => 49 :: digits q end.

Fixpoint of_digits (bs : bytes) : option positive :=
  match bs with
  | [] => None
  | b :: bs' =>
      if b =? NEWLINE then match bs' with [] => Some xH | _ => None end
      else p ← of_digits bs'; Some (if b =? 49 then xI p else xO p)
  end.

Lemma of_digits_written p : of_digits (digits p ++ [NEWLINE]) = Some p.
Proof. induction p as [p IH|p IH|]; simpl; [by rewrite IH..|done]. Qed.

Lemma digits_one_line p : NEWLINE ∉ digits p.
Proof. induction p; simpl; [rewrite not_elem_of_cons; by split..|apply not_elem_of_nil]. Qed.

Definition read_value (bs : bytes) : result V Error :=
  ok_or (p ← of_digits bs; decode p) Json_error.

Definition entry_value (e : Entry Z Z) : V :=
  Object [("body", body e); ("epoch", Number (epoch e)); ("kind", VString (kind e));
          ("prev", VString (prev e)); ("seq", Number (seq e)); ("ts", Number (ts e))]%string.

Definition value_entry (v : V) : option (Entry Z Z) :=
  match v with
  | Object [(_, b); (_, Number ep); (_, VString k); (_, VString pr); (_, Number sq); (_, Number t)] =>
      Some (mkEntry sq t k ep pr b)
  | _ => None
  end.

Definition head_value (h : JournalHead) : V :=
  Object [("journal_bytes", Number (journal_bytes h)); ("journal_root", VString (journal_root h));
          ("manifest_sha256", VString (manifest_sha256 h)); ("sequence", Number (sequence h))]%string.

Definition value_head (v : V) : option JournalHead :=
  match v with
  | Object [(_, Number b); (_, VString r); (_, VString m); (_, Number s)] => Some (mkHead m s r b)
  | _ => None
  end.

Section Digest.
Variable sha : bytes -> string.

#[local] Instance json : Json := {|
  Num := Z; Timestamp := Z; sort_all_objects := id;
  to_vec v := Ok (digits (encode v)); sha256_bytes := sha;
  serde_value := {| to_value v := Ok v; from_slice := read_value; normal := id |};
  serde_entry := {| to_value e := Ok (entry_value e);
                    from_slice bs := let? v := read_value bs in ok_or (value_entry v) Json_error;
                    normal := id |};
  serde_head := {| to_value h := Ok (head_value h);
                   from_slice bs := let? v := read_value bs in ok_or (value_head v) Json_error;
                   normal := id |} |}.

Lemma read_value_written v : read_value (digits (encode v) ++ [NEWLINE]) = Ok v.
Proof. unfold read_value. rewrite of_digits_written. simpl. by rewrite decode_encode. Qed.

#[local] Instance json_laws : JsonLaws.
Proof.
  split.
  - intros v b [= <-]. apply digits_one_line.
  - split; [|done]. intros x v b any [= <-] [= <-] _. apply read_value_written.
  - split; [|done]. intros x v b any [= <-] [= <-] _.
    change ((let? v := read_value (digits (encode (entry_value x)) ++ [NEWLINE]) in
             ok_or (value_entry v) Json_error) = Ok x).
    rewrite read_value_written. destruct x; reflexivity.
  - split; [|done]. intros x v b any [= <-] [= <-] _.
    change ((let? v := read_value (digits (encode (head_value x)) ++ [NEWLINE]) in
             ok_or (value_head v) Json_error) = Ok x).
    rewrite read_value_written. destruct x; reflexivity.
  - done.
  - done.
  - done.
Qed.

End Digest.

Definition length_digest (b : bytes) : string := show (Z.of_nat (length b)).

Notation J := (json length_digest).
Notation Handle := (Journal (J := J)).

(** A session: the Run is created, one event is appended, and the process is
    killed while it writes the second event. *)
Definition handle_of (o : Out Handle) : Handle :=
  match o with
  | Ret (Ok j) => j
  | _ => mkJournal (J := J) Null (mkHead "" 0 "" 0) 0 false
  end.
Definition entry_of (o : Out (Entry Z Z)) : Entry Z Z :=
  match o with Ret (Ok e) => e | _ => mkEntry 0 0 "" 0 "" Null end.

Notation created := (create (J := J) (Object []) (mkWorld empty_fs [])).
Notation j0 := (handle_of (fst created)).
Notation w0 := (snd created).
Notation first :=
  (append (J := J) j0 "run.created" 1 (Object []) 7 (mkWorld (fs w0) [])).
Notation e1 := (entry_of (fst (fst first))).
Notation j1 := (snd (fst first)).
Notation w1 := (snd first).
Notation killed :=
  (append (J := J) j1 "sandbox.ready" 1 (Object []) 8 (mkWorld (fs w1) [Success; Kill 3])).
Notation j2 := (snd (fst killed)).
Notation w2 := (snd killed).

(** How a call ended. *)
Definition ended {A} (o : Out A) : nat :=
  match o with Ret (Ok _) => 0 | Ret (Err _) => 1 | Killed => 2 end.

Lemma opened_pair (x : Out Handle * World) :
  ended (fst x) = 0%nat -> x = (Ret (Ok (handle_of (fst x))), snd x).
Proof. by destruct x as [[[]|] ?]. Qed.
Lemma appended_pair (x : Out (Entry Z Z) * Handle * World) :
  ended (fst (fst x)) = 0%nat ->
  x = (Ret (Ok (entry_of (fst (fst x)))), snd (fst x), snd x).
Proof. by destruct x as [[[[]|] ?] ?]. Qed.
Lemma killed_pair (x : Out (Entry Z Z) * Handle * World) :
  ended (fst (fst x)) = 2%nat ->
  x = (Killed, snd (fst x), snd x).
Proof. by destruct x as [[[[]|] ?] ?]. Qed.

Lemma created_ok : created = (Ret (Ok j0), w0).
Proof. apply (opened_pair created). vm_compute. reflexivity. Qed.
Lemma first_ok : first = (Ret (Ok e1), j1, w1).
Proof. apply (appended_pair first). vm_compute. reflexivity. Qed.
Lemma killed_killed : killed = (Killed, j2, w2).
Proof. apply (killed_pair killed). vm_compute. reflexivity. Qed.

Lemma session_life : life (J := J) (Object []) (fs w2) None [e1].
Proof.
  eapply LAppendKilled; [|exact killed_killed].
  eapply (LAppend (J := J) _ _ _ []); [|exact first_ok].
  eapply LCreate. exact created_ok.
Qed.

(** A digest without collisions: the bits of the text's code. *)
Fixpoint bits (p : positive) : string :=
  match p with
  | xH => EmptyString
  | xO q => String "0" (bits q)
  | xI q => String "1" (bits q)
  end.

Lemma bits_inj p q : bits p = bits q -> p = q.
Proof.
  revert q. induction p as [p IH|p IH|]; intros [q|q|]; simpl; try done; intros [= H]; f_equal; auto.
Qed.

Definition exact_digest (b : bytes) : string := bits (encode b).

Lemma exact_digest_inj b b' : exact_digest b = exact_digest b' -> b = b'.
Proof. intros H%bits_inj. by apply (inj encode). Qed.

Notation JE := (json exact_digest).

(** A one-entry history and its head. *)
Definition one_entry : Entry Z Z :=
  mkEntry 1 7 "run.created" 1
    (match digest (J := JE) (Object [] : V) with Ok d => d | Err _ => "" end) (Object []).
Definition one_line : bytes :=
  match record (J := JE) one_entry with Ok b => b | Err _ => [] end.
Definition one_head : JournalHead :=
  mkHead (prev one_entry) 1
    (match digest (J := JE) one_entry with Ok d => d | Err _ => "" end)
    (Z.of_nat (length one_line)).

Definition scanned (log : bytes) : list (Entry Z Z) :=
  match scan (J := JE) one_head log with Ok es => es | Err _ => [] end.

Lemma scan_scanned log :
  is_ok (scan (J := JE) one_head log) = true -> scan (J := JE) one_head log = Ok (scanned log).
Proof. unfold scanned. by destruct (scan (J := JE) one_head log). Qed.

End Demo.

Lemma head_commits_history_witness :
  let tail := [123; 125] in
  scan (J := Demo.JE) Demo.one_head Demo.one_line = Ok (Demo.scanned Demo.one_line) /\
  Demo.scanned Demo.one_line = Demo.scanned (Demo.one_line ++ tail).
Proof.
  intros tail.
  assert (H1 : scan (J := Demo.JE) Demo.one_head Demo.one_line = Ok (Demo.scanned Demo.one_line)).
  { apply Demo.scan_scanned. vm_compute. reflexivity. }
  assert (H2 : scan (J := Demo.JE) Demo.one_head (Demo.one_line ++ tail)
               = Ok (Demo.scanned (Demo.one_line ++ tail))).
  { apply Demo.scan_scanned. vm_compute. reflexivity. }
  split; [exact H1|].
  exact (proj2 (head_commits_history (J := Demo.JE) Demo.exact_digest_inj _ _ _ _ _ H1 H2)).
Defined.

(** The process is killed in the call that publishes the first head. *)
Lemma interrupted_creation_is_not_a_run_witness :
  let w := snd (create (J := Demo.J) (Object []) (mkWorld empty_fs (repeat Success 13 ++ [Kill 1]))) in
  let opened := open (J := Demo.J) (mkWorld (set_lock false (fs w)) []) in
  Demo.ended (fst opened) = 0%nat /\
  manifest (Demo.handle_of (fst opened)) = Object [] /\
  sequence (head (Demo.handle_of (fst opened))) = 0.
Proof.
  intros w opened. assert (Hok : Demo.ended (fst opened) = 0%nat) by (vm_compute; reflexivity).
  split; [exact Hok|].
  destruct (interrupted_creation_is_not_a_run (J := Demo.J) (L := Demo.json_laws Demo.length_digest)
              (Object []) _ _ _ (set_lock false (fs w)) [] _ _
              (surjective_pairing (create (J := Demo.J) (Object [])
                 (mkWorld empty_fs (repeat Success 13 ++ [Kill 1]))))
              (or_introl eq_refl) (Demo.opened_pair opened Hok)) as (Hman & Hseq & _).
  exact (conj Hman Hseq).
Defined.

Lemma acknowledged_entries_survive_witness :
  life (J := Demo.J) (Object []) (fs Demo.w2) None [Demo.e1] /\
  exists j es w, open (J := Demo.J) (mkWorld (fs Demo.w2) []) = (Ret (Ok j), w) /\
    replay (J := Demo.J) j w = (Ret (Ok es), w) /\ [Demo.e1] `prefix_of` es.
Proof.
  split; [exact Demo.session_life|].
  destruct (acknowledged_entries_survive (J := Demo.J) (L := Demo.json_laws Demo.length_digest)
              _ _ _ Demo.session_life) as (j & es & w & Ho & _ & Hr & Hp & _).
  exists j, es, w. exact (conj Ho (conj Hr Hp)).
Defined.

End Journal.
