(* ===== verification/Results.v ===== *)
(** * Result reservations and recovery records

    [rauhad/src/metadata/results.rs] and [rauhad/src/metadata/recovery.rs]: the
    daemon reserves room for a task's result before it runs, writes the result
    once, and keeps a write-ahead recovery record until the result is
    committed and the task cleaned up.  The two redb tables are finite maps
    read in key order; every operation is one transaction, so a refused
    operation leaves the tables as they were.  The JSON library is a
    parameter. *)

From stdpp Require Import base gmap strings list fin_maps sorting.
From Stdlib Require Import ZArith Lia.
From S2P Require Import Prelude EnforcerApi Zone.

Module Results.

Open Scope Z_scope.

Notation bytes := (list Z).

Definition MAX_RESULT_BYTES : Z := 4 * 1024 * 1024.

(** [ImageAdmission], [EnforcementTotals] and [ExecutionReceiptPayload] of
    [rauha-evidence/src/receipt.rs]. *)
Record ImageAdmission := mkImage {
  reference : string; manifest_digest : string; digest_verified : bool }.

Record EnforcementTotals := mkTotals { allow : Z; deny : Z; error : Z; dropped : Z }.

Record ExecutionReceiptPayload := mkReceipt {
  schema : string; task_id : string; zone_id : string; image : ImageAdmission;
  policy_sha256 : string; inputs_sha256 : string; outputs_sha256 : string;
  status : string; exit_code : option Z; started_at : option string;
  finished_at : option string; enforcement : EnforcementTotals;
  unavailable_controls : list string; capture_issues : list string }.

Record RecoveryRecord := mkRecovery {
  zone_name : string; container_id : option string; cleanup_zone : bool;
  command : list string; admission : Zone.PolicyAdmission;
  receipt : ExecutionReceiptPayload }.

(** The key of a record. *)
Definition task_of (r : RecoveryRecord) : string := task_id (receipt r).

Class RecordCodec := {
  to_vec : RecoveryRecord -> result bytes string;
  from_slice : bytes -> result RecoveryRecord string }.

Class RecordCodecLaws (C : RecordCodec) :=
  from_to_vec : forall r b, to_vec r = Ok b -> from_slice b = Ok r.

(** The tables [sandbox_results] and [sandbox_recovery_v1]. *)
Record MetadataStore := mkStore {
  results : gmap string bytes; recovery : gmap string bytes }.

Definition empty_store : MetadataStore := mkStore ∅ ∅.

(** Table iteration, by key. *)
Definition key_le (a b : string * bytes) : Prop := String.leb (fst a) (fst b) = true.
#[global] Instance key_le_dec : RelDecision key_le.
Proof. intros a b. unfold key_le. apply _. Defined.
Definition entries (t : gmap string bytes) : list (string * bytes) :=
  merge_sort key_le (map_to_list t).

Section Store.
Context {C : RecordCodec}.

(** What a retained entry counts for. *)
Definition charge (s : MetadataStore) (e : string * bytes) : Z :=
  if Nat.eqb (length (snd e)) 0 || bool_decide (is_Some (recovery s !! fst e))
  then MAX_RESULT_BYTES else Z.of_nat (length (snd e)).

Definition used (s : MetadataStore) : Z :=
  fold_left (fun acc e => saturating_add 64 acc (charge s e)) (entries (results s)) 0.

Definition reserve_result (s : MetadataStore) (id : string) (max_bytes : Z)
  : result bool string * MetadataStore :=
  match results s !! id with
  | Some _ => (Ok false, s)
  | None =>
      if saturating_add 64 (used s) MAX_RESULT_BYTES <=? max_bytes
      then (Ok true, mkStore (<[id := []]> (results s)) (recovery s))
      else (Err "result capacity exhausted; delete retained results before starting another task"%string, s)
  end.

Definition save_result (s : MetadataStore) (id : string) (b : bytes)
  : result unit string * MetadataStore :=
  if negb (negb (Nat.eqb (length b) 0) && (Z.of_nat (length b) <=? MAX_RESULT_BYTES))
  then (Err "result exceeds wire budget"%string, s)
  else match results s !! id with
       | Some [] => (Ok tt, mkStore (<[id := b]> (results s)) (recovery s))
       | _ => (Err "result reservation missing or already completed"%string, s)
       end.

Definition get_result (s : MetadataStore) (id : string) : option bytes := results s !! id.

Definition delete_result (s : MetadataStore) (id : string) : result bool string * MetadataStore :=
  match recovery s !! id with
  | Some _ => (Err "task still requires recovery or cleanup"%string, s)
  | None => (Ok (bool_decide (is_Some (results s !! id))),
             mkStore (delete id (results s)) (recovery s))
  end.

Definition put_recovery (s : MetadataStore) (r : RecoveryRecord)
  : result unit string * MetadataStore :=
  match to_vec r with
  | Err e => (Err e, s)
  | Ok b =>
      if negb (Z.of_nat (length b) <=? MAX_RESULT_BYTES)
      then (Err "recovery context exceeds metadata budget"%string, s)
      else match results s !! task_of r with
           | Some [] => (Ok tt, mkStore (results s) (<[task_of r := b]> (recovery s)))
           | _ => (Err "recovery context requires an unfinished result reservation"%string, s)
           end
  end.

(** [.map(..).collect::<Result<Vec<_>>>()]: the first error wins. *)
Fixpoint decode_records (es : list (string * bytes)) : result (list RecoveryRecord) string :=
  match es with
  | [] => Ok []
  | (id, b) :: es' =>
      let? r := from_slice b in
      if negb (String.eqb id (task_of r)) then Err "recovery task identity mismatch"%string
      else let? rs := decode_records es' in Ok (r :: rs)
  end.

Definition recovery_records (s : MetadataStore) : result (list RecoveryRecord) string :=
  decode_records (entries (recovery s)).

Definition finish_recovery (s : MetadataStore) (id : string) : result unit string * MetadataStore :=
  match results s !! id with
  | Some (_ :: _) => (Ok tt, mkStore (results s) (delete id (recovery s)))
  | _ => (Err "cannot discard recovery context before result commit"%string, s)
  end.

Definition has_recovery (s : MetadataStore) (id : string) : bool :=
  bool_decide (is_Some (recovery s !! id)).

(** The transactions that change the store. *)
Inductive Op :=
| OReserve (id : string)
| OSave (id : string) (b : bytes)
| ODelete (id : string)
| OPutRecovery (r : RecoveryRecord)
| OFinish (id : string).

Definition apply (max_bytes : Z) (s : MetadataStore) (o : Op) : MetadataStore :=
  match o with
  | OReserve id => snd (reserve_result s id max_bytes)
  | OSave id b => snd (save_result s id b)
  | ODelete id => snd (delete_result s id)
  | OPutRecovery r => snd (put_recovery s r)
  | OFinish id => snd (finish_recovery s id)
  end.

Definition run (max_bytes : Z) (s : MetadataStore) (os : list Op) : MetadataStore :=
  fold_left (apply max_bytes) os s.

(** ** Sums over a table *)

Definition zsum {A} (f : A -> Z) (l : list A) : Z := foldr (fun x acc => f x + acc) 0 l.

#[local] Instance zsum_perm {A} (f : A -> Z) : Proper ((≡ₚ) ==> (=)) (zsum f).
Proof. induction 1; simpl; lia. Qed.

Lemma zsum_le {A} (f g : A -> Z) l : (forall x, x ∈ l -> f x <= g x) -> zsum f l <= zsum g l.
Proof.
  induction l as [|x l IH]; simpl; intros Hle; [lia|].
  pose proof (Hle x ltac:(left)). specialize (IH (fun y Hy => Hle y ltac:(by right))). lia.
Qed.

Lemma zsum_nonneg {A} (f : A -> Z) l : (forall x, 0 <= f x) -> 0 <= zsum f l.
Proof. intros Hf. induction l as [|x l IH]; simpl; [lia|]. pose proof (Hf x). lia. Qed.

Lemma entries_perm t : entries t ≡ₚ map_to_list t.
Proof. apply merge_sort_Permutation. Qed.

Definition total (s : MetadataStore) : Z := zsum (charge s) (map_to_list (results s)).

Lemma charge_range s e :
  Z.of_nat (length (snd e)) <= MAX_RESULT_BYTES ->
  0 <= Z.of_nat (length (snd e)) <= charge s e /\ charge s e <= MAX_RESULT_BYTES.
Proof. unfold charge, MAX_RESULT_BYTES. intros. destruct (_ || _); lia. Qed.

Lemma charge_nonneg s e : 0 <= charge s e.
Proof. unfold charge, MAX_RESULT_BYTES. destruct (_ || _); lia. Qed.

(** The accounting loop computes the total, saturating at the word size. *)
Lemma used_total s : used s = Z.min (total s) (2 ^ 64 - 1).
Proof.
  unfold used, total. rewrite <- entries_perm. generalize (entries (results s)) as l.
  assert (Hgen : forall l acc, 0 <= acc ->
    fold_left (fun acc e => saturating_add 64 acc (charge s e)) l (Z.min acc (2 ^ 64 - 1)) =
    Z.min (acc + zsum (charge s) l) (2 ^ 64 - 1)).
  { intros l. induction l as [|e l IH]; intros acc Hacc; simpl; [f_equal; lia|].
    pose proof (charge_nonneg s e). unfold saturating_add at 2.
    replace (Z.min (Z.min acc (2 ^ 64 - 1) + charge s e) (2 ^ 64 - 1))
      with (Z.min (acc + charge s e) (2 ^ 64 - 1)) by lia.
    rewrite IH by lia. f_equal. lia. }
  intros l. exact (Hgen l 0 ltac:(lia)).
Qed.

Lemma total_split s id b :
  results s !! id = Some b ->
  total s = charge s (id, b) + zsum (charge s) (map_to_list (delete id (results s))).
Proof. intros Hb. unfold total. by rewrite <- (map_to_list_delete _ _ _ Hb). Qed.

Lemma total_insert s id b rs :
  rs !! id = None ->
  zsum (charge s) (map_to_list (<[id := b]> rs)) = charge s (id, b) + zsum (charge s) (map_to_list rs).
Proof. intros Hn. by rewrite map_to_list_insert. Qed.

(** ** The invariant *)

Record inv (max_bytes : Z) (s : MetadataStore) : Prop := {
  inv_total : total s <= max_bytes;
  inv_result : forall id b, results s !! id = Some b -> Z.of_nat (length b) <= MAX_RESULT_BYTES;
  inv_recovery : forall id b, recovery s !! id = Some b ->
    is_Some (results s !! id) /\ exists r, from_slice b = Ok r /\ task_of r = id }.

Context {CL : RecordCodecLaws C}.

Lemma inv_empty max : 0 <= max -> inv max empty_store.
Proof. intros Hm. split; [unfold total; cbn; by rewrite map_to_list_empty|done|done]. Qed.

Lemma reserve_inv max s id :
  max < 2 ^ 64 - 1 -> inv max s -> inv max (snd (reserve_result s id max)).
Proof.
  intros Hmax [Ht Hr Hc]. unfold reserve_result. destruct (results s !! id) eqn:Hid; [done|].
  destruct (_ <=? _) eqn:Hle; [|done]. reflect_bools. cbn [snd].
  assert (0 <= total s) by (apply zsum_nonneg, charge_nonneg).
  rewrite used_total in Hle. unfold saturating_add, MAX_RESULT_BYTES in Hle. split.
  - unfold total. cbn. rewrite total_insert by done.
    change (charge _ (id, [])) with MAX_RESULT_BYTES. fold (charge s).
    change (zsum (charge (mkStore _ (recovery s))) ?l) with (zsum (charge s) l).
    fold (total s). unfold MAX_RESULT_BYTES. lia.
  - cbn. intros id' b. destruct (decide (id' = id)) as [->|].
    + rewrite lookup_insert_eq. intros [= <-]. done.
    + rewrite lookup_insert_ne by done. apply Hr.
  - cbn. intros id' b Hb. destruct (Hc id' b Hb) as [? ?]. split; [|done].
    destruct (decide (id' = id)) as [->|]; [by rewrite lookup_insert_eq|by rewrite lookup_insert_ne].
Qed.

Lemma save_inv max s id b : inv max s -> inv max (snd (save_result s id b)).
Proof.
  intros [Ht Hr Hc]. unfold save_result. destruct (negb (_ && _)) eqn:Hb; [done|].
  destruct (results s !! id) as [[|]|] eqn:Hid; [|done..]. cbn [snd].
  reflect_bools. split.
  - rewrite (total_split s id [] Hid) in Ht. unfold total. cbn.
    rewrite <- insert_delete_eq, total_insert by apply lookup_delete_eq.
    change (zsum (charge (mkStore _ (recovery s))) ?l) with (zsum (charge s) l).
    change (charge s (id, [])) with MAX_RESULT_BYTES in Ht.
    destruct (charge_range (mkStore (<[id:=b]> (delete id (results s))) (recovery s)) (id, b)); [done|]. lia.
  - cbn. intros id' b'. destruct (decide (id' = id)) as [->|].
    + rewrite lookup_insert_eq. intros [= <-]. done.
    + rewrite lookup_insert_ne by done. apply Hr.
  - cbn. intros id' b' Hb'. destruct (Hc id' b' Hb') as [? ?]. split; [|done].
    destruct (decide (id' = id)) as [->|]; [by rewrite lookup_insert_eq|by rewrite lookup_insert_ne].
Qed.

Lemma delete_inv max s id : inv max s -> inv max (snd (delete_result s id)).
Proof.
  intros [Ht Hr Hc]. unfold delete_result. destruct (recovery s !! id) eqn:Hrec; [done|]. cbn [snd].
  split.
  - unfold total. cbn. change (zsum (charge (mkStore _ (recovery s))) ?l) with (zsum (charge s) l).
    destruct (results s !! id) as [b|] eqn:Hid; [|by rewrite delete_id].
    rewrite (total_split s id b Hid) in Ht. pose proof (charge_nonneg s (id, b)). lia.
  - cbn. intros id' b [_ Hb]%lookup_delete_Some. by apply (Hr id').
  - cbn. intros id' b Hb. destruct (Hc id' b Hb) as [? ?]. split; [|done].
    rewrite lookup_delete_ne; [done|]. intros ->. congruence.
Qed.

Lemma put_recovery_inv max s r : inv max s -> inv max (snd (put_recovery s r)).
Proof.
  intros [Ht Hr Hc]. unfold put_recovery. destruct (to_vec r) as [b|] eqn:Hb; [|done].
  destruct (negb _); [done|]. destruct (results s !! task_of r) as [[|]|] eqn:Hid; [|done..]. cbn [snd].
  split; [|done|].
  - etrans; [|exact Ht]. apply zsum_le. intros [id v] Hin%elem_of_map_to_list. cbn in Hin.
    unfold charge. cbn. destruct (decide (id = task_of r)) as [->|].
    + assert (v = []) as -> by congruence. done.
    + by rewrite lookup_insert_ne.
  - cbn. intros id b'. destruct (decide (id = task_of r)) as [->|].
    + rewrite lookup_insert_eq. intros [= <-]. split; [by rewrite Hid|]. exists r.
      split; [by apply from_to_vec|done].
    + rewrite lookup_insert_ne by done. apply Hc.
Qed.

Lemma finish_inv max s id : inv max s -> inv max (snd (finish_recovery s id)).
Proof.
  intros [Ht Hr Hc]. unfold finish_recovery.
  destruct (results s !! id) as [[|]|] eqn:Hid; [done| |done]. cbn [snd]. split; [|done|].
  - etrans; [|exact Ht]. apply zsum_le. intros [id' v] Hin%elem_of_map_to_list. cbn in Hin.
    pose proof (Hr id' v Hin). unfold charge. cbn. destruct (decide (id' = id)) as [->|].
    + rewrite lookup_delete_eq, bool_decide_eq_false_2 by (by intros [? ?]).
      rewrite orb_false_r. destruct (Nat.eqb _ _); [done|]. simpl. destruct (bool_decide _); lia.
    + by rewrite lookup_delete_ne.
  - cbn. intros id' b [_ Hb]%lookup_delete_Some. by apply Hc.
Qed.

Lemma run_inv max s os : max < 2 ^ 64 - 1 -> inv max s -> inv max (run max s os).
Proof.
  intros Hmax. revert s. induction os as [|o os IH]; intros s Hs; [done|].
  apply IH. destruct o; simpl;
    eauto using reserve_inv, save_inv, delete_inv, put_recovery_inv, finish_inv.
Qed.

(** ** Reading the recovery table *)

Lemma decode_records_ok es :
  (forall id b, (id, b) ∈ es -> exists r, from_slice b = Ok r /\ task_of r = id) ->
  exists rs, decode_records es = Ok rs /\ map task_of rs = map fst es.
Proof.
  induction es as [|[id b] es IH]; intros Hes; [by exists []|].
  destruct (Hes id b) as (r & Hf & Ht); [left|].
  destruct IH as (rs & Hrs & Hm); [intros; apply Hes; by right|].
  exists (r :: rs). split.
  - cbn [decode_records]. by rewrite Hf, Ht, String.eqb_refl, Hrs.
  - cbn [map fst]. by rewrite Ht, Hm.
Qed.

Lemma reachable_inv max os : 0 <= max < 2 ^ 64 - 1 -> inv max (run max empty_store os).
Proof. intros Hmax. apply run_inv; [lia|]. apply inv_empty. lia. Qed.

(** In every reachable store the retained results fit the configured
    capacity together, and each fits the wire budget. *)
Theorem results_within_capacity max os :
  0 <= max < 2 ^ 64 - 1 ->
  let s := run max empty_store os in
  zsum (fun e => Z.of_nat (length (snd e))) (map_to_list (results s)) <= max /\
  (forall id b, results s !! id = Some b -> Z.of_nat (length b) <= MAX_RESULT_BYTES).
Proof.
  intros Hmax s. destruct (reachable_inv max os Hmax) as [Ht Hr _]. split; [|done].
  etrans; [|exact Ht]. apply zsum_le. intros [id b] Hin%elem_of_map_to_list.
  destruct (charge_range s (id, b)) as [Hlo _]; [by apply (Hr id)|]. apply Hlo.
Qed.

(** In every reachable store the recovery table is readable, its records
    are exactly those of the tasks in it, and each of them still has its result
    reservation: the two errors startup recovery checks for cannot occur. *)
Theorem recovery_finds_every_task max os :
  0 <= max < 2 ^ 64 - 1 ->
  let s := run max empty_store os in
  exists rs, recovery_records s = Ok rs /\
    (forall id, has_recovery s id = true <-> id ∈ map task_of rs) /\
    (forall r, r ∈ rs -> is_Some (get_result s (task_of r))).
Proof.
  intros Hmax s. destruct (reachable_inv max os Hmax) as [_ _ Hc]. fold s in Hc.
  assert (Hin : forall id b, (id, b) ∈ entries (recovery s) <-> recovery s !! id = Some b).
  { intros id b. rewrite entries_perm. apply elem_of_map_to_list. }
  destruct (decode_records_ok (entries (recovery s))) as (rs & Hrs & Hm).
  { intros id b Hb%Hin. by apply Hc. }
  assert (Hkey : forall id, id ∈ map task_of rs <-> is_Some (recovery s !! id)).
  { intros id. rewrite Hm, list_elem_of_fmap. split.
    - intros ([id' b] & -> & Hb%Hin). by eexists.
    - intros [b Hb%Hin]. by exists (id, b). }
  exists rs. split; [done|]. split.
  - intros id. rewrite Hkey. apply bool_decide_eq_true.
  - intros r Hr. destruct (proj1 (Hkey (task_of r))) as [b Hb]; [by apply list_elem_of_fmap_2|].
    by apply (Hc _ _ Hb).
Qed.

(** ** One task through a history *)

(** A committed result stays, and a recovery record stays until then. *)
Definition kept (s s' : MetadataStore) (id : string) : Prop :=
  (forall b, results s !! id = Some b -> b <> [] -> results s' !! id = Some b) /\
  (is_Some (recovery s !! id) ->
     is_Some (recovery s' !! id) \/ exists x b, results s' !! id = Some (x :: b)).

Lemma kept_refl s id : kept s s id.
Proof. split; [done|by left]. Qed.

Lemma kept_step max s o id : o <> ODelete id -> kept s (apply max s o) id.
Proof.
  intros Ho. destruct o as [id'|id' b|id'|r|id']; simpl.
  - unfold reserve_result. destruct (results s !! id') eqn:Hid; [apply kept_refl|].
    destruct (_ <=? _); [|apply kept_refl]. split; [|by left]. cbn. intros b Hb _.
    by rewrite lookup_insert_ne by congruence.
  - unfold save_result. destruct (negb _); [apply kept_refl|].
    destruct (results s !! id') as [[|]|] eqn:Hid; [|apply kept_refl..]. split; [|by left]. cbn.
    intros b' Hb Hne. by rewrite lookup_insert_ne by congruence.
  - unfold delete_result. destruct (recovery s !! id'); [apply kept_refl|].
    split; [|by left]. cbn. intros b Hb _. by rewrite lookup_delete_ne by congruence.
  - unfold put_recovery. destruct (to_vec r); [|apply kept_refl]. destruct (negb _); [apply kept_refl|].
    destruct (results s !! task_of r) as [[|]|]; [|apply kept_refl..]. split; [done|]. cbn.
    intros Hr. left. destruct (decide (id = task_of r)) as [->|];
      [by rewrite lookup_insert_eq|by rewrite lookup_insert_ne].
  - unfold finish_recovery. destruct (results s !! id') as [[|x b]|] eqn:Hid; [apply kept_refl| |apply kept_refl].
    split; [done|]. cbn. intros Hr. destruct (decide (id = id')) as [->|].
    + right. by exists x, b.
    + left. by rewrite lookup_delete_ne.
Qed.

Lemma kept_run max id os : forall s, ODelete id ∉ os -> kept s (run max s os) id.
Proof.
  induction os as [|o os IH]; intros s Hos; [apply kept_refl|].
  apply not_elem_of_cons in Hos as [Ho Hos].
  destruct (kept_step max s o id (not_eq_sym Ho)) as [H1 H2].
  destruct (IH (apply max s o) Hos) as [H3 H4]. split.
  - intros b Hb Hne. by apply H3; [apply H1|].
  - intros Hr. destruct (H2 Hr) as [Hr'|(x & b & Hb)]; [by apply H4|].
    right. exists x, b. by apply H3.
Qed.

(** Until a task's result is deleted: once committed it is never changed,
    the task is never admitted again, and the result is never written twice;
    and a recovery record is discarded only after the result is committed. *)
Theorem result_committed_once max s os id :
  ODelete id ∉ os ->
  let s' := run max s os in
  (forall b, results s !! id = Some b -> b <> [] ->
     get_result s' id = Some b /\ fst (reserve_result s' id max) = Ok false /\
     (forall b', is_ok (fst (save_result s' id b')) = false)) /\
  (has_recovery s id = true ->
     has_recovery s' id = true \/ exists x b, get_result s' id = Some (x :: b)).
Proof.
  intros Hos s'. destruct (kept_run max id os s Hos) as [Hres Hrec]. split.
  - intros b Hb Hne. pose proof (Hres b Hb Hne) as Hb'. fold s' in Hb'.
    split; [done|]. unfold reserve_result, save_result. rewrite Hb'. split; [done|].
    intros b'. destruct (negb _); [done|]. by destruct b.
  - unfold has_recovery. rewrite !bool_decide_eq_true. exact Hrec.
Qed.

End Store.

(** ** A concrete codec *)

Definition demo_receipt (id : string) : ExecutionReceiptPayload :=
  mkReceipt "s" id "z" (mkImage "r" "d" true) "p" "i" "o" "running" None None None
    (mkTotals 0 0 0 0) [] [].
Definition demo_record (id : string) : RecoveryRecord :=
  mkRecovery "zone" None true ["true"%string] Zone.Strict (demo_receipt id).

#[local] Instance image_eq_dec : EqDecision ImageAdmission.
Proof. solve_decision. Defined.
#[local] Instance totals_eq_dec : EqDecision EnforcementTotals.
Proof. solve_decision. Defined.
#[local] Instance receipt_eq_dec : EqDecision ExecutionReceiptPayload.
Proof. solve_decision. Defined.
#[local] Instance record_eq_dec : EqDecision RecoveryRecord.
Proof. solve_decision. Defined.

(** The codec of one task's record. *)
Definition demo_codec : RecordCodec := {|
  to_vec r := if bool_decide (r = demo_record "t") then Ok [116] else Err "unsupported"%string;
  from_slice _ := Ok (demo_record "t") |}.

Lemma demo_laws : RecordCodecLaws demo_codec.
Proof. intros r b. unfold to_vec, demo_codec. case_bool_decide; [by subst|done]. Qed.

(** A task reserved, recorded and interrupted, in a store with room for one. *)
Definition demo_ops : list Op := [OReserve "t"; OPutRecovery (demo_record "t"); OReserve "u"].
Notation demo_store := (run (C := demo_codec) MAX_RESULT_BYTES empty_store demo_ops).

Lemma results_within_capacity_witness :
  0 <= MAX_RESULT_BYTES < 2 ^ 64 - 1 /\
  zsum (fun e => Z.of_nat (length (snd e))) (map_to_list (results demo_store)) <= MAX_RESULT_BYTES.
Proof.
  assert (Hm : 0 <= MAX_RESULT_BYTES < 2 ^ 64 - 1) by (unfold MAX_RESULT_BYTES; lia).
  split; [exact Hm|].
  exact (proj1 (results_within_capacity (C := demo_codec) (CL := demo_laws) _ demo_ops Hm)).
Defined.

Lemma recovery_finds_every_task_witness :
  exists rs, recovery_records (C := demo_codec) demo_store = Ok rs /\ "t"%string ∈ map task_of rs.
Proof.
  assert (Hm : 0 <= MAX_RESULT_BYTES < 2 ^ 64 - 1) by (unfold MAX_RESULT_BYTES; lia).
  destruct (recovery_finds_every_task (C := demo_codec) (CL := demo_laws) _ demo_ops Hm)
    as (rs & Hrs & Hkeys & _).
  exists rs. split; [exact Hrs|]. apply Hkeys. vm_compute. reflexivity.
Defined.

Lemma result_committed_once_witness :
  let s := run (C := demo_codec) MAX_RESULT_BYTES demo_store [OSave "t" [1; 2]] in
  let s' := run (C := demo_codec) MAX_RESULT_BYTES s [OFinish "t"; OSave "t" [3]] in
  get_result s' "t" = Some [1; 2] /\
  fst (reserve_result s' "t" MAX_RESULT_BYTES) = Ok false.
Proof.
  intros s s'.
  assert (Hno : ODelete "t" ∉ [OFinish "t"; OSave "t" [3]]).
  { rewrite !not_elem_of_cons. split; [discriminate|]. split; [discriminate|apply not_elem_of_nil]. }
  destruct (result_committed_once (C := demo_codec) MAX_RESULT_BYTES s _ "t" Hno) as [Hres _].
  destruct (Hres [1; 2] ltac:(vm_compute; reflexivity) ltac:(discriminate)) as (H1 & H2 & _).
  exact (conj H1 H2).
Defined.

End Results.
