(* ===== verification/Shim.v ===== *)
(** * The zone shim: containers and their runtime process

    [rauha-common/src/shim.rs] (the framing of requests and responses),
    [rauha-shim/src/state.rs] (the containers of a zone) and, of
    [rauha-shim/src/container.rs], starting a container with crun and
    supervising its init process.

    System calls and crun commands are the typed [Call]s of an arbitrary host;
    every call is logged with its answer, so that theorems can speak of the
    order of effects.  The wire codec (postcard) and the JSON pointer of the
    OCI spec are parameters. *)

From stdpp Require Import base gmap strings list fin_maps.
From Stdlib Require Import ZArith Lia Ascii.
From S2P Require Import Prelude RustStr.

Module Shim.

Import Str.
Open Scope Z_scope.

Notation bytes := (list Z).

(** ** Wire format *)

Section Wire.
(** [postcard::to_allocvec] and [postcard::from_bytes]. *)
Context {T E : Type} (to_allocvec : T -> result bytes E) (from_bytes : bytes -> result T E).

Inductive ShimIoError :=
| UnexpectedEof
| Encode (e : E)
| Decode (e : E)
| MessageTooLarge (len : Z).

Definition to_le_bytes (n : Z) : bytes :=
  [wrap 8 n; wrap 8 (Z.shiftr n 8); wrap 8 (Z.shiftr n 16); wrap 8 (Z.shiftr n 24)].
Definition from_le_bytes (b : bytes) : Z := foldr (fun x acc => x + 256 * acc) 0 b.

Definition encode (msg : T) : result bytes E :=
  let? payload := to_allocvec msg in
  Ok (to_le_bytes (wrap 32 (Z.of_nat (length payload))) ++ payload)%list.

(** [read_exact] of a stream. *)
Definition read_exact (n : nat) (stream : bytes) : option (bytes * bytes) :=
  if Nat.ltb (length stream) n then None else Some (take n stream, drop n stream).

(** The message and what is left of the stream. *)
Definition decode_from (stream : bytes) : result (T * bytes) ShimIoError :=
  match read_exact 4 stream with
  | None => Err UnexpectedEof
  | Some (len_buf, stream) =>
      let len := from_le_bytes len_buf in
      if 1024 * 1024 <? len then Err (MessageTooLarge len)
      else match read_exact (Z.to_nat len) stream with
           | None => Err UnexpectedEof
           | Some (payload, rest) => let? msg := map_err Decode (from_bytes payload) in Ok (msg, rest)
           end
  end.

End Wire.
Arguments UnexpectedEof {E}.
Arguments Encode {E} e.
Arguments Decode {E} e.
Arguments MessageTooLarge {E} len.

(** ** The host *)

Inductive Call : Type -> Type :=
| CrunPath : Call (result unit string)
| SetSubreaper : Call (result unit Z)
| EnvVar (name : string) : Call (option string)
| IsDir (path : string) : Call bool
| CreateDirAll (path : string) : Call (result unit Z)
| WriteFile (path text : string) : Call (result unit Z)
| ReadFile (path : string) : Call (result string Z)
| RemoveFile (path : string) : Call (result unit Z)
| MakePrivateDirs (path : string) : Call (result unit Z)
| SpawnBroker (listener decision_log : string) : Call unit
| CaptureStart (path : string) (limit : Z) : Call (result unit Z)
| Crun (args : list string) : Call (result (bool * string) Z)
| PidfdOpen (pid : Z) : Call (result Z Z)
| SendSignal (pidfd signal : Z) : Call (result unit Z)
| PollExit (pidfd : Z) : Call bool
| WaitPid (pid : Z) : Call (option Z)
| Now : Call Z
| Sleep (ms : Z) : Call unit
| CloseCaptures : Call unit
| BrokerFinished : Call bool.

Inductive Event : Type :=
| Ev : forall A : Type, Call A -> A -> Event.
Arguments Ev {A} _ _.

Class Host := {
  W : Type;
  answer : forall {A}, Call A -> W -> A * W;
  errno_text : Z -> string;
  (** [/linux/seccomp/listenerPath] of the OCI spec. *)
  listener_path : string -> option string }.

Section Runtime.
Context {H : Host}.

Record World := mkWorld { host : W; log : list Event }.

Definition M (A : Type) : Type := World -> A * World.
Definition ret {A} (a : A) : M A := fun w => (a, w).
Definition bind {A B} (c : M A) (k : A -> M B) : M B := fun w => let '(a, w') := c w in k a w'.
Definition call {A} (c : Call A) : M A := fun w =>
  let '(a, h) := answer c (host w) in (a, mkWorld h (log w ++ [Ev c a])).

(** Calls that fail with an error end the function: [?]. *)
Definition try {A B} (c : M (result A string)) (k : A -> M (result B string)) : M (result B string) :=
  bind c (fun r => match r with Ok a => k a | Err e => ret (Err e) end).
Definition io {A} (c : Call (result A Z)) : M (result A string) :=
  bind (call c) (fun r => ret (map_err errno_text r)).

Notation "'do' x <- c ; k" := (bind c (fun x => k))
  (at level 10, x pattern, c at level 200, k at level 200).
Notation "'do?' x <- c ; k" := (try c (fun x => k))
  (at level 10, x pattern, c at level 200, k at level 200).

(** [Path::join]. *)
Definition join_path (a b : string) : string :=
  if starts_with "/" b then b
  else if String.eqb a "" then b
  else match strip_suffix "/" a with
       | Some _ => (a ++ b)%string
       | None => (a ++ "/" ++ b)%string
       end.

(** ** The init process of a container *)

Record RuntimeProcess := mkRuntime {
  pidfd : Z; pid : Z; runtime_root : string; id : string; cleaned : bool; broker : bool }.

Definition runtime_args (root : string) (args : list string) : list string :=
  ("--root" :: root :: "--cgroup-manager=disabled" :: args)%string.

Definition signal (r : RuntimeProcess) (sig : Z) : M (result unit string) :=
  io (SendSignal (pidfd r) sig).

(** Poll until [probe] answers or the deadline passes, sleeping 10 ms between
    tries.  [poll_fuel] is enough for the clock to pass the deadline
    ([poll_until_deadline]). *)
Fixpoint poll_until {S A} (fuel : nat) (probe : S -> M (option A * S)) (deadline : Z) (s : S)
  : M (option A * S) :=
  match fuel with
  | O => ret (None, s)
  | Datatypes.S fuel' =>
      do (a, s') <- probe s;
      match a with
      | Some _ => ret (a, s')
      | None =>
          do t <- call Now;
          if deadline <=? t then ret (None, s')
          else do _ <- call (Sleep 10); poll_until fuel' probe deadline s'
      end
  end.

(** 10 ms steps to the deadline, and two more. *)
Definition poll_fuel (now deadline : Z) : nat := Z.to_nat ((deadline - now) / 10 + 2).

Definition broker_probe (u : unit) : M (option unit * unit) :=
  do f <- call BrokerFinished; ret (if f then Some tt else None, u).

Definition delete (r : RuntimeProcess) : M RuntimeProcess :=
  if cleaned r then ret r else
  do _ <- call (Crun (runtime_args (runtime_root r) ["delete"; "--force"; id r]%string));
  do _ <- call CloseCaptures;
  let r' := mkRuntime (pidfd r) (pid r) (runtime_root r) (id r) true false in
  if broker r then
    do now <- call Now;
    do _ <- poll_until (poll_fuel now (now + 1000)) broker_probe (now + 1000) tt;
    ret r'
  else ret r'.

(** [WIFEXITED], [WEXITSTATUS], [WIFSIGNALED] and [WTERMSIG]. *)
Definition exit_code_of (status : option Z) : Z :=
  match status with
  | Some st =>
      if Z.land st 127 =? 0 then Z.land (Z.shiftr st 8) 255
      else if 0 <? Z.shiftr (as_signed 8 (Z.land st 127 + 1)) 1 then 128 + Z.land st 127
      else 125
  | None => 125
  end.

Definition try_wait (r : RuntimeProcess) : M (option Z * RuntimeProcess) :=
  do exited <- call (PollExit (pidfd r));
  if negb exited then ret (None, r) else
  do status <- call (WaitPid (pid r));
  do r' <- delete r;
  ret (Some (exit_code_of status), r').

Definition wait_until (deadline now : Z) (r : RuntimeProcess) : M (option Z * RuntimeProcess) :=
  poll_until (poll_fuel now deadline) try_wait deadline r.

Definition SIGKILL : Z := 9.

Definition wait_or_kill (grace : Z) (r : RuntimeProcess) : M (Z * RuntimeProcess) :=
  do now <- call Now;
  do (code, r) <- wait_until (now + grace) now r;
  match code with
  | Some code => ret (code, r)
  | None =>
      do _ <- signal r SIGKILL;
      do now <- call Now;
      do (code, r) <- wait_until (now + 5000) now r;
      do r <- delete r;
      ret (match code with Some code => code | None => 128 + SIGKILL end, r)
  end.

Definition stop_and_delete (r : RuntimeProcess) : M RuntimeProcess :=
  do (_, r) <- wait_or_kill 0 r; ret r.

(** ** Starting a container *)

Definition int_error_text (e : IntError) : string :=
  match e with
  | Str.Empty => "cannot parse integer from empty string"
  | InvalidDigit => "invalid digit found in string"
  | PosOverflow => "number too large to fit in target type"
  end.

(** [output::max_bytes]. *)
Definition max_bytes : M (result Z string) :=
  do v <- call (EnvVar "RAUHA_LOG_MAX_BYTES");
  ret (let? value := map_err int_error_text
                       (parse_uint 64 (match v with Some v => v | None => show (1024 * 1024) end)) in
       if 0 <? value then Ok value else Err "RAUHA_LOG_MAX_BYTES must be positive"%string).

Definition run_dir : M string :=
  do v <- call (EnvVar "RAUHA_RUN_DIR");
  ret (match v with Some v => v | None => "/run/rauha"%string end).

(** Give up after the container exists: delete it and report. *)
Definition abandon {A} (root id msg : string) : M (result A string) :=
  do _ <- call (Crun (runtime_args root ["delete"; "--force"; id]%string)); ret (Err msg).

Definition create_args (bundle pid_file id : string) : list string :=
  ["create"; "--bundle"; bundle; "--pid-file"; pid_file; id]%string.

(** The directories, configuration and capture files of a container; returns
    its log directory. *)
Definition prepare_start (rootfs_root id spec_json : string) : M (result string string) :=
  do? _ <- call CrunPath;
  do? _ <- io SetSubreaper;
  let bundle := join_path (join_path rootfs_root "containers") id in
  do merged <- call (IsDir (join_path bundle "merged"));
  do present <- (if merged then ret true else call (IsDir (join_path bundle "rootfs")));
  if negb present then ret (Err ("rootfs not found for container " ++ id)%string) else
  do? _ <- io (CreateDirAll (join_path rootfs_root "runtime"));
  do? _ <- io (WriteFile (join_path bundle "config.json") spec_json);
  do _ <- call (RemoveFile (join_path bundle "init.pid"));
  do run <- run_dir;
  let log_dir := join_path (join_path run "containers") id in
  do? _ <- io (MakePrivateDirs log_dir);
  do _ <- match listener_path spec_json with
          | Some l => call (SpawnBroker l (join_path log_dir "broker.log"))
          | None => ret tt
          end;
  do? limit <- max_bytes;
  do? _ <- io (CaptureStart (join_path log_dir "stdout.log") limit);
  do? _ <- io (CaptureStart (join_path log_dir "stderr.log") limit);
  ret (Ok log_dir).

Definition zone_cgroup (zone : string) : string :=
  ("/sys/fs/cgroup/rauha.slice/zone-" ++ zone ++ "/cgroup.procs")%string.

(** From the created container to the running one. *)
Definition finish_start (zone root id bundle : string) (has_broker : bool)
  : M (result (RuntimeProcess * Z) string) :=
  do text <- call (ReadFile (join_path bundle "init.pid"));
  match (let? text := map_err errno_text text in
         map_err int_error_text (parse_uint 32 (trim text))) with
  | Err e => abandon root id e
  | Ok pid =>
      do fd <- call (PidfdOpen pid);
      match fd with
      | Err e => abandon root id (errno_text e)
      | Ok fd =>
          do enrolled <- call (WriteFile (zone_cgroup zone) (show pid));
          match enrolled with
          | Err e => abandon root id ("failed to enroll OCI init in " ++ zone_cgroup zone ++ ": "
                                      ++ errno_text e)%string
          | Ok _ =>
              do out <- call (Crun (runtime_args root ["start"; id]%string));
              match out with
              | Err e => abandon root id (errno_text e)
              | Ok (false, stderr) => abandon root id ("crun start failed: " ++ trim stderr)%string
              | Ok (true, _) =>
                  ret (Ok (mkRuntime fd (as_signed 32 pid) root id false has_broker, pid))
              end
          end
      end
  end.

Definition start_with_crun (zone id spec_json rootfs_root : string)
  : M (result (RuntimeProcess * Z) string) :=
  do? log_dir <- prepare_start rootfs_root id spec_json;
  let bundle := join_path (join_path rootfs_root "containers") id in
  let root := join_path rootfs_root "runtime" in
  do? (created, _) <- io (Crun (runtime_args root
                                 (create_args bundle (join_path bundle "init.pid") id)));
  if negb created then
    do err <- call (ReadFile (join_path log_dir "stderr.log"));
    abandon root id ("crun create failed: " ++ trim (match err with Ok t => t | Err _ => "" end))%string
  else finish_start zone root id bundle (bool_decide (is_Some (listener_path spec_json))).

(** ** The containers of a zone *)

Inductive ContainerStatus := Created | Running | Stopped.
#[global] Instance ContainerStatus_eq_dec : EqDecision ContainerStatus.
Proof. solve_decision. Defined.

Definition status_text (s : ContainerStatus) : string :=
  match s with Created => "created" | Running => "running" | Stopped => "stopped" end.

Record ContainerProcess := mkProc {
  cpid : Z; status : ContainerStatus; exit_code : option Z; spec_json : string;
  runtime : option RuntimeProcess }.

Record ShimState := mkShim {
  zone_name : string; rootfs_root : string;
  containers : gmap string ContainerProcess; shutdown : bool }.

Definition new (zone root : string) : ShimState := mkShim zone root ∅ false.

Definition set_containers (st : ShimState) (cs : gmap string ContainerProcess) : ShimState :=
  mkShim (zone_name st) (rootfs_root st) cs (shutdown st).
Definition set_container (st : ShimState) (id : string) (p : ContainerProcess) : ShimState :=
  set_containers st (<[id := p]> (containers st)).

Definition create_container (st : ShimState) (id spec : string) : result Z string * ShimState :=
  match containers st !! id with
  | Some _ => (Err ("container " ++ id ++ " already exists")%string, st)
  | None => (Ok 0, set_container st id (mkProc 0 Created None spec None))
  end.

Definition start_container (st : ShimState) (id : string) : M (result Z string * ShimState) :=
  match containers st !! id with
  | None => ret (Err ("container " ++ id ++ " not found")%string, st)
  | Some p =>
      if negb (bool_decide (status p = Created))
      then ret (Err ("container " ++ id ++ " is " ++ status_text (status p) ++ ", cannot start")%string, st)
      else
        do r <- start_with_crun (zone_name st) id (spec_json p) (rootfs_root st);
        ret (match r with
             | Err e => (Err e, st)
             | Ok (rt, pid) =>
                 (Ok pid, set_container st id (mkProc pid Running (exit_code p) (spec_json p) (Some rt)))
             end)
  end.

(** One container of the reaping loop. *)
Definition reap (p : ContainerProcess) : M ContainerProcess :=
  if negb (bool_decide (status p = Running)) || (cpid p =? 0) then ret p else
  match runtime p with
  | None => ret p
  | Some r =>
      do (code, r') <- try_wait r;
      ret (match code with
           | Some code => mkProc (cpid p) Stopped (Some code) (spec_json p) (Some r')
           | None => mkProc (cpid p) (status p) (exit_code p) (spec_json p) (Some r')
           end)
  end.

(** [for process in containers.values_mut()]. *)
Fixpoint each (f : ContainerProcess -> M ContainerProcess) (l : list (string * ContainerProcess))
  : M (list (string * ContainerProcess)) :=
  match l with
  | [] => ret []
  | (id, p) :: l' => do p' <- f p; do l'' <- each f l'; ret ((id, p') :: l'')
  end.

Definition reap_children (st : ShimState) : M ShimState :=
  do l <- each reap (map_to_list (containers st));
  ret (set_containers st (list_to_map l)).

Definition signal_container (st : ShimState) (id : string) (sig : Z) : M (result unit string) :=
  match containers st !! id with
  | None => ret (Err ("container " ++ id ++ " not found")%string)
  | Some p =>
      if negb (bool_decide (status p = Running)) || (cpid p =? 0)
      then ret (Err ("container " ++ id ++ " is not running")%string)
      else match runtime p with
           | None => ret (Err ("container " ++ id ++ " has no OCI runtime")%string)
           | Some r => signal r sig
           end
  end.

Definition GRACE : Z := 5000.

Definition stop_container (st : ShimState) (id : string) (sig : Z) : M (result unit string * ShimState) :=
  do st <- reap_children st;
  do sent <- signal_container st id sig;
  match sent with
  | Err e => ret (Err e, st)
  | Ok _ =>
      match containers st !! id with
      | None => ret (Err ("container " ++ id ++ " not found")%string, st)
      | Some p =>
          match runtime p with
          | None => ret (Err ("container " ++ id ++ " has no OCI runtime")%string, st)
          | Some r =>
              do (code, r') <- wait_or_kill GRACE r;
              ret (Ok tt, set_container st id
                            (mkProc (cpid p) Stopped (Some code) (spec_json p) (Some r')))
          end
      end
  end.

Definition delete_container (st : ShimState) (id : string) : M (result unit string * ShimState) :=
  do st <- reap_children st;
  ret (match containers st !! id with
       | Some p =>
           if bool_decide (status p = Running)
           then (Err ("container " ++ id ++ " is running")%string, st)
           else (Ok tt, set_containers st (base.delete id (containers st)))
       | None => (Ok tt, set_containers st (base.delete id (containers st)))
       end).

Definition get_state (st : ShimState) (id : string) : option (Z * string * option Z) :=
  p ← containers st !! id; Some (cpid p, status_text (status p), exit_code p).

Definition container_summary (st : ShimState) : Z * Z :=
  let live := filter (fun kv => status (snd kv) = Running /\ 0 < cpid (snd kv)) (map_to_list (containers st)) in
  (wrap 32 (Z.of_nat (length live)), wrap 32 (Z.of_nat (size (containers st)))).

Definition shut (p : ContainerProcess) : M ContainerProcess :=
  match runtime p with
  | None => ret p
  | Some r =>
      do r' <- stop_and_delete r;
      ret (mkProc (cpid p) (status p) (exit_code p) (spec_json p) (Some r'))
  end.

Definition request_shutdown (st : ShimState) : M ShimState :=
  do l <- each shut (map_to_list (containers st));
  ret (mkShim (zone_name st) (rootfs_root st) (list_to_map l) true).

(** The operations that change the containers. *)
Inductive Op :=
| OCreate (id spec : string)
| OStart (id : string)
| OStop (id : string) (sig : Z)
| OSignal (id : string) (sig : Z)
| ODelete (id : string)
| OReap
| OShutdown.

Definition apply (st : ShimState) (o : Op) : M ShimState :=
  match o with
  | OCreate id spec => ret (snd (create_container st id spec))
  | OStart id => do (_, st') <- start_container st id; ret st'
  | OStop id sig => do (_, st') <- stop_container st id sig; ret st'
  | OSignal id sig => do _ <- signal_container st id sig; ret st
  | ODelete id => do (_, st') <- delete_container st id; ret st'
  | OReap => reap_children st
  | OShutdown => request_shutdown st
  end.

Fixpoint run (st : ShimState) (os : list Op) : M ShimState :=
  match os with
  | [] => ret st
  | o :: os' => do st' <- apply st o; run st' os'
  end.

(** ** What holds of every answer of the host *)

Definition ensures {A} (c : M A) (Q : A -> Prop) : Prop := forall w, Q (fst (c w)).

Lemma ensures_ret {A} (a : A) (Q : A -> Prop) : Q a -> ensures (ret a) Q.
Proof. by intros HQ w. Qed.

Lemma ensures_bind {A B} (c : M A) (k : A -> M B) (P : A -> Prop) (Q : B -> Prop) :
  ensures c P -> (forall a, P a -> ensures (k a) Q) -> ensures (bind c k) Q.
Proof. intros Hc Hk w. unfold bind. specialize (Hc w). destruct (c w) as [a w']. by apply Hk. Qed.

Lemma ensures_any {A} (c : M A) : ensures c (fun _ => True).
Proof. done. Qed.

Lemma ensures_mono {A} (c : M A) (P Q : A -> Prop) :
  (forall a, P a -> Q a) -> ensures c P -> ensures c Q.
Proof. intros HPQ Hc w. apply HPQ, Hc. Qed.

(** Sequence a computation whose answer does not matter. *)
Ltac skip := eapply ensures_bind; [apply ensures_any|]; cbn beta.

Lemma delete_cleans r : ensures (delete r) (fun r' => cleaned r' = true).
Proof.
  unfold delete. destruct (cleaned r) eqn:Hc; [by apply ensures_ret|].
  skip; intros _ _. skip; intros _ _. destruct (broker r); [|by apply ensures_ret].
  skip; intros ? _. skip; intros _ _. by apply ensures_ret.
Qed.

Lemma try_wait_cleans r :
  ensures (try_wait r) (fun cr => match fst cr with
                                  | Some _ => cleaned (snd cr) = true
                                  | None => snd cr = r
                                  end).
Proof.
  unfold try_wait. skip; intros exited _. destruct exited; [|by apply ensures_ret]. cbn [negb].
  skip; intros st _. eapply ensures_bind; [apply delete_cleans|]. intros r' Hr'. by apply ensures_ret.
Qed.

Lemma poll_until_ensures {S A} fuel (probe : S -> M (option A * S)) deadline (s : S)
    (Q : option A * S -> Prop) :
  (forall s, ensures (probe s) (fun x => match fst x with Some _ => Q x | None => True end)) ->
  (forall s, Q (None, s)) -> ensures (poll_until fuel probe deadline s) Q.
Proof.
  intros Hp Hn. revert s. induction fuel as [|fuel IH]; intros s; [by apply ensures_ret|].
  cbn [poll_until]. eapply ensures_bind; [apply Hp|]. intros [[a|] s'] Ha; [by apply ensures_ret|].
  skip; intros t _. destruct (deadline <=? t); [by apply ensures_ret|]. skip; intros _ _. apply IH.
Qed.

Lemma wait_or_kill_cleans grace r : ensures (wait_or_kill grace r) (fun cr => cleaned (snd cr) = true).
Proof.
  unfold wait_or_kill. skip; intros now _.
  apply ensures_bind with (fun x => match fst x with Some _ => cleaned (snd x) = true | None => True end).
  { apply poll_until_ensures; [|done]. intros s. eapply ensures_mono; [|apply try_wait_cleans].
    intros [[c|] r'] Hc; [exact Hc|done]. }
  intros [[c|] r'] Hc; [by apply ensures_ret|].
  skip; intros _ _. skip; intros now' _. skip; intros [c r2] _.
  eapply ensures_bind; [apply delete_cleans|]. intros r3 Hr3. by apply ensures_ret.
Qed.

(** ** The life of a container *)

Definition wf_container (p : ContainerProcess) : Prop :=
  match status p with
  | Created => cpid p = 0 /\ exit_code p = None /\ runtime p = None
  | Running => exit_code p = None /\ exists r, runtime p = Some r
  | Stopped => (exists c, exit_code p = Some c) /\ exists r, runtime p = Some r /\ cleaned r = true
  end.

Definition rank (s : ContainerStatus) : nat :=
  match s with Created => 0 | Running => 1 | Stopped => 2 end.

(** Status only moves forward; the spec, a started container's pid and a
    recorded exit code never change. *)
Definition advances (p p' : ContainerProcess) : Prop :=
  spec_json p' = spec_json p /\ (rank (status p) <= rank (status p'))%nat /\
  (status p <> Created -> cpid p' = cpid p) /\
  (forall c, exit_code p = Some c -> exit_code p' = Some c).

Lemma advances_refl p : advances p p.
Proof. by repeat split. Qed.

Lemma advances_trans p q r : advances p q -> advances q r -> advances p r.
Proof.
  intros (H1 & H2 & H3 & H4) (H5 & H6 & H7 & H8). split; [congruence|]. split; [lia|]. split; [|auto].
  intros Hp. rewrite H7, H3; [done..|]. intros Hq. rewrite Hq in H2. destruct (status p); [done|simpl in H2; lia..].
Qed.

(** A well-formed successor. *)
Definition goes (p p' : ContainerProcess) : Prop := wf_container p' /\ advances p p'.

Lemma reap_goes p : wf_container p -> ensures (reap p) (goes p).
Proof.
  intros Hw. unfold reap. destruct (negb _ || _) eqn:Hc.
  { apply ensures_ret. split; [done|apply advances_refl]. }
  reflect_bools. rename select (status p = Running) into Hs. unfold wf_container in Hw. rewrite Hs in Hw.
  destruct Hw as (He & r & Hr). rewrite Hr.
  eapply ensures_bind; [apply try_wait_cleans|]. intros [[c|] r'] Hc; apply ensures_ret; simpl in Hc.
  - split; [split; [by exists c|by exists r']|]. unfold advances. simpl. rewrite Hs, He. simpl.
    repeat split; done || lia.
  - split; [unfold wf_container; simpl; rewrite Hs; split; [done|by eexists]|].
    unfold advances. simpl. repeat split; done || lia.
Qed.

Lemma shut_goes p : wf_container p -> ensures (shut p) (goes p).
Proof.
  intros Hw. unfold shut. destruct (runtime p) as [r|] eqn:Hr.
  - apply ensures_bind with (fun r' => cleaned r' = true); [|intros r' Hr'; apply ensures_ret].
    + unfold stop_and_delete. eapply ensures_bind; [apply wait_or_kill_cleans|].
      intros [c r'] Hc. apply ensures_ret. exact Hc.
    + split; [|by repeat split]. unfold wf_container in *. simpl. destruct (status p).
      * naive_solver.
      * destruct Hw as [He _]. split; [done|by eexists].
      * destruct Hw as [He _]. split; [done|by exists r'].
  - apply ensures_ret. split; [done|apply advances_refl].
Qed.

Definition all_wf (cs : gmap string ContainerProcess) : Prop :=
  forall id p, cs !! id = Some p -> wf_container p.

(** Every container of [cs] is still there in [cs'], further along. *)
Definition all_go (cs cs' : gmap string ContainerProcess) : Prop :=
  forall id, match cs !! id, cs' !! id with
             | Some p, Some p' => goes p p'
             | None, None => True
             | _, _ => False
             end.

Lemma each_goes f l :
  (forall id p, (id, p) ∈ l -> ensures (f p) (goes p)) ->
  ensures (each f l) (fun l' => Forall2 (fun a b => fst a = fst b /\ goes (snd a) (snd b)) l l').
Proof.
  induction l as [|[id p] l IH]; intros Hf; [by apply ensures_ret|]. cbn [each].
  eapply ensures_bind; [apply (Hf id p); left|]. intros p' Hp'.
  eapply ensures_bind; [apply IH; intros ? ? ?; by eapply Hf; right|]. intros l' Hl'.
  apply ensures_ret. by constructor.
Qed.

Lemma each_all_go cs l' :
  Forall2 (fun a b => fst a = fst b /\ goes (snd a) (snd b)) (map_to_list cs) l' ->
  all_go cs (list_to_map l').
Proof.
  intros Hl id.
  assert (Hkeys : (map_to_list cs).*1 = l'.*1).
  { revert Hl. generalize (map_to_list cs) as l. intros l. induction 1 as [|a b ? ? [Hab _] _ IHl]; [done|].
    rewrite !fmap_cons. by rewrite Hab, IHl. }
  assert (Hnd : NoDup (l'.*1)) by (rewrite <- Hkeys; apply NoDup_fst_map_to_list).
  destruct (cs !! id) as [p|] eqn:Hp.
  - apply elem_of_map_to_list, list_elem_of_lookup in Hp as [i Hi].
    destruct (Forall2_lookup_l _ _ _ _ _ Hl Hi) as ([id' p'] & Hi' & Heq & Hg). simpl in Heq. subst id'.
    apply list_elem_of_lookup_2 in Hi'.
    by rewrite (elem_of_list_to_map_1 _ _ _ Hnd Hi').
  - rewrite not_elem_of_list_to_map_1; [done|]. rewrite <- Hkeys, list_elem_of_fmap.
    intros ([id' p] & -> & Hin%elem_of_map_to_list). simpl in Hp. congruence.
Qed.

Lemma all_go_wf cs cs' : all_go cs cs' -> all_wf cs'.
Proof.
  intros Hg id p' Hp'. specialize (Hg id). rewrite Hp' in Hg. destruct (cs !! id); [apply Hg|done].
Qed.

Lemma reap_children_goes st :
  all_wf (containers st) -> ensures (reap_children st) (fun st' => all_go (containers st) (containers st')).
Proof.
  intros Hw. unfold reap_children. eapply ensures_bind.
  - apply each_goes. intros id p Hin%elem_of_map_to_list. apply reap_goes, (Hw id p Hin).
  - intros l' Hl'. apply ensures_ret. by apply each_all_go.
Qed.

(** What an operation may do to the containers: all stay well-formed, and all
    but a deleted one are still there, further along. *)
Definition step_ok (gone : option string) (st st' : ShimState) : Prop :=
  all_wf (containers st') /\
  forall id p, containers st !! id = Some p -> gone <> Some id ->
    exists p', containers st' !! id = Some p' /\ advances p p'.

Lemma step_ok_refl g st : all_wf (containers st) -> step_ok g st st.
Proof. intros Hw. split; [done|]. intros id p Hp _. eauto using advances_refl. Qed.

Lemma step_ok_trans g st st1 st2 : step_ok g st st1 -> step_ok g st1 st2 -> step_ok g st st2.
Proof.
  intros [_ H1] [Hw H2]. split; [done|]. intros id p Hp Hg.
  destruct (H1 id p Hp Hg) as (p1 & Hp1 & Ha). destruct (H2 id p1 Hp1 Hg) as (p2 & Hp2 & Ha2).
  eauto using advances_trans.
Qed.

Lemma step_ok_all_go g st st' : all_go (containers st) (containers st') -> step_ok g st st'.
Proof.
  intros Hg. split; [by eapply all_go_wf|]. intros id p Hp _. specialize (Hg id). rewrite Hp in Hg.
  destruct (containers st' !! id) as [p'|]; [|done]. exists p'. split; [done|apply Hg].
Qed.

Lemma step_ok_set g st id p' :
  all_wf (containers st) -> wf_container p' ->
  (forall p, containers st !! id = Some p -> advances p p') -> step_ok g st (set_container st id p').
Proof.
  intros Hw Hp' Ha. split.
  - intros id2 p2. cbn. destruct (decide (id2 = id)) as [->|].
    + rewrite lookup_insert_eq. by intros [= <-].
    + rewrite lookup_insert_ne by done. apply Hw.
  - intros id2 p2 Hp2 _. cbn. destruct (decide (id2 = id)) as [->|].
    + rewrite lookup_insert_eq. eauto.
    + rewrite lookup_insert_ne by done. eauto using advances_refl.
Qed.

Lemma create_step st id spec :
  all_wf (containers st) -> step_ok None st (snd (create_container st id spec)).
Proof.
  intros Hw. unfold create_container. destruct (containers st !! id) eqn:Hid; [by apply step_ok_refl|].
  apply step_ok_set; [done|done|]. intros p Hp. congruence.
Qed.

(** A start gives a running container exactly when the runtime reports one. *)
Lemma start_step st id :
  all_wf (containers st) ->
  ensures (start_container st id) (fun rs =>
    step_ok None st (snd rs) /\
    match fst rs with
    | Ok pid => exists p p', containers st !! id = Some p /\ status p = Created /\
                  containers (snd rs) !! id = Some p' /\ status p' = Running /\ cpid p' = pid
    | Err _ => snd rs = st
    end).
Proof.
  intros Hw. unfold start_container.
  destruct (containers st !! id) as [p|] eqn:Hid;
    [|apply ensures_ret; split; [by apply step_ok_refl|done]].
  destruct (negb _) eqn:Hs; [apply ensures_ret; split; [by apply step_ok_refl|done]|].
  reflect_bools. skip. intros [[rt pid']|e] _; apply ensures_ret; simpl;
    [|split; [by apply step_ok_refl|done]].
  pose proof (Hw id p Hid) as Hwp. unfold wf_container in Hwp. rewrite Hs in Hwp.
  destruct Hwp as (_ & He & _). split.
  - apply step_ok_set; [done|split; [done|by eexists]|]. intros q Hq. assert (q = p) as -> by congruence.
    unfold advances. simpl. rewrite Hs, He. simpl. repeat split; done || lia.
  - eexists p, _. split; [done|]. split; [done|]. cbn. rewrite lookup_insert_eq. done.
Qed.

Lemma signal_running st id sig :
  ensures (signal_container st id sig) (fun r =>
    r = Ok tt -> exists p, containers st !! id = Some p /\ status p = Running).
Proof.
  unfold signal_container. destruct (containers st !! id) as [p|]; [|by apply ensures_ret].
  destruct (negb _ || _) eqn:Hc; [by apply ensures_ret|]. reflect_bools.
  destruct (runtime p); [|by apply ensures_ret]. intros w _. by exists p.
Qed.

(** A stop that succeeds leaves the container stopped with an exit code; one
    that fails has at most reaped. *)
Lemma stop_step st id sig :
  all_wf (containers st) ->
  ensures (stop_container st id sig) (fun rs =>
    step_ok None st (snd rs) /\
    (fst rs = Ok tt -> exists p c, containers (snd rs) !! id = Some p /\ status p = Stopped /\
                         exit_code p = Some c)).
Proof.
  intros Hw. unfold stop_container.
  eapply ensures_bind; [by apply reap_children_goes|]. intros st1 Hg.
  pose proof (step_ok_all_go None _ _ Hg) as H1. pose proof (all_go_wf _ _ Hg) as Hw1.
  eapply ensures_bind; [apply signal_running|]. intros [[]|e] Hsig; [|by apply ensures_ret].
  destruct (Hsig eq_refl) as (p & Hp & Hs). rewrite Hp.
  destruct (runtime p) as [r|] eqn:Hr; [|by apply ensures_ret].
  eapply ensures_bind; [apply wait_or_kill_cleans|]. intros [c r'] Hc. apply ensures_ret. simpl in *.
  pose proof (Hw1 id p Hp) as Hwp. unfold wf_container in Hwp. rewrite Hs in Hwp. destruct Hwp as [He _].
  split.
  - eapply step_ok_trans; [exact H1|]. apply step_ok_set; [done|split; [by eexists|by eexists]|].
    intros q Hq. assert (q = p) as -> by congruence.
    unfold advances. simpl. rewrite Hs, He. simpl. repeat split; done || lia.
  - intros _. eexists _, c. cbn. rewrite lookup_insert_eq. done.
Qed.

Lemma delete_step st id :
  all_wf (containers st) ->
  ensures (delete_container st id) (fun rs => step_ok (Some id) st (snd rs)).
Proof.
  intros Hw. unfold delete_container.
  eapply ensures_bind; [by apply reap_children_goes|]. intros st1 Hg. apply ensures_ret.
  pose proof (step_ok_all_go (Some id) _ _ Hg) as H1. pose proof (all_go_wf _ _ Hg) as Hw1.
  assert (Hdel : step_ok (Some id) st (set_containers st1 (base.delete id (containers st1)))).
  { eapply step_ok_trans; [exact H1|]. split.
    - intros id2 p2 Hp2. cbn in Hp2. apply lookup_delete_Some in Hp2 as [_ Hp2]. by apply (Hw1 id2).
    - intros id2 p2 Hp2 Hne. cbn. rewrite lookup_delete_ne by (intros ->; by apply Hne).
      eauto using advances_refl. }
  destruct (containers st1 !! id) as [p|]; [|done]. by destruct (bool_decide _).
Qed.

Lemma shutdown_step st :
  all_wf (containers st) -> ensures (request_shutdown st) (step_ok None st).
Proof.
  intros Hw. unfold request_shutdown. eapply ensures_bind.
  - apply each_goes. intros id p Hin%elem_of_map_to_list. apply shut_goes, (Hw id p Hin).
  - intros l' Hl'. apply ensures_ret, step_ok_all_go. by apply each_all_go.
Qed.

Definition deletes (o : Op) : option string := match o with ODelete id => Some id | _ => None end.

Lemma apply_step st o : all_wf (containers st) -> ensures (apply st o) (step_ok (deletes o) st).
Proof.
  intros Hw. destruct o as [id spec|id|id sig|id sig|id| |]; cbn [apply deletes].
  - apply ensures_ret. by apply create_step.
  - eapply ensures_bind; [by apply start_step|]. intros [r st'] [Hs _]. by apply ensures_ret.
  - eapply ensures_bind; [by apply stop_step|]. intros [r st'] [Hs _]. by apply ensures_ret.
  - skip. intros r _. apply ensures_ret. by apply step_ok_refl.
  - eapply ensures_bind; [by apply delete_step|]. intros [r st'] Hs. by apply ensures_ret.
  - eapply ensures_mono; [|by apply reap_children_goes]. intros st'. apply step_ok_all_go.
  - by apply shutdown_step.
Qed.

Lemma run_step os : forall st id, all_wf (containers st) -> Forall (fun o => deletes o <> Some id) os ->
  ensures (run st os) (fun st' => all_wf (containers st') /\
    forall p, containers st !! id = Some p -> exists p', containers st' !! id = Some p' /\ advances p p').
Proof.
  induction os as [|o os IH]; intros st id Hw Hd; cbn [run].
  - apply ensures_ret. eauto using advances_refl.
  - apply Forall_cons in Hd as [Ho Hd].
    eapply ensures_bind; [by apply apply_step|]. intros st1 [Hw1 H1].
    eapply ensures_mono; [|by apply (IH st1 id)]. intros st2 [Hw2 H2]. split; [done|].
    intros p Hp. destruct (H1 id p Hp Ho) as (p1 & Hp1 & Ha). destruct (H2 p1 Hp1) as (p2 & Hp2 & Ha2).
    eauto using advances_trans.
Qed.

(** ** What a computation does: its answer and the events it logs *)

Definition emits {A} (c : M A) (Q : A -> list Event -> Prop) : Prop :=
  forall w, exists new, log (snd (c w)) = (log w ++ new)%list /\ Q (fst (c w)) new.

Lemma emits_ret {A} (a : A) (Q : A -> list Event -> Prop) : Q a [] -> emits (ret a) Q.
Proof. intros HQ w. exists []. by rewrite app_nil_r. Qed.

Lemma emits_call {A} (c : Call A) (Q : A -> list Event -> Prop) :
  (forall a, Q a [Ev c a]) -> emits (call c) Q.
Proof. intros HQ w. unfold call. destruct (answer c (host w)) as [a h]. by exists [Ev c a]. Qed.

Lemma emits_bind {A B} (c : M A) (k : A -> M B) (P : A -> list Event -> Prop)
    (Q : B -> list Event -> Prop) :
  emits c P -> (forall a l, P a l -> emits (k a) (fun b l' => Q b (l ++ l')%list)) ->
  emits (bind c k) Q.
Proof.
  intros Hc Hk w. unfold bind. destruct (Hc w) as (l & Hl & HP). destruct (c w) as [a w'].
  destruct (Hk a l HP w') as (l' & Hl' & HQ). exists (l ++ l')%list. simpl in *.
  by rewrite Hl', Hl, app_assoc.
Qed.

Lemma emits_bind_call {A B} (c : Call A) (k : A -> M B) (Q : B -> list Event -> Prop) :
  (forall a, emits (k a) (fun b l => Q b (Ev c a :: l))) -> emits (bind (call c) k) Q.
Proof.
  intros Hk. apply emits_bind with (fun a l => l = [Ev c a]); [by apply emits_call|].
  intros a l ->. apply Hk.
Qed.

Lemma emits_mono {A} (c : M A) (P Q : A -> list Event -> Prop) :
  (forall a l, P a l -> Q a l) -> emits c P -> emits c Q.
Proof. intros HPQ Hc w. destruct (Hc w) as (l & ? & ?). exists l. auto. Qed.

(** The crun subcommand an event runs. *)
Definition verb (e : Event) : option string :=
  match e with
  | Ev c a => match c with Crun args => Some (nth 3 args EmptyString) | _ => None end
  end.

(** Whether an event is a crun command that could be run. *)
Definition crun_spawned (e : Event) : bool :=
  match e with
  | Ev c a => match c in Call A return A -> bool with Crun _ => is_ok | _ => fun _ => false end a
  end.

(** Computations that run no crun command. *)
Definition quiet (l : list Event) : Prop := Forall (fun e => verb e = None) l.
Definition silent {A} (c : M A) : Prop := emits c (fun _ l => quiet l).

Lemma silent_ret {A} (a : A) : silent (ret a).
Proof. by apply emits_ret, Forall_nil_2. Qed.

Lemma silent_call {A} (c : Call A) : (forall a, verb (Ev c a) = None) -> silent (call c).
Proof. intros Hv. apply emits_call. intros a. apply Forall_cons_2; [done|apply Forall_nil_2]. Qed.

Lemma silent_bind {A B} (c : M A) (k : A -> M B) : silent c -> (forall a, silent (k a)) -> silent (bind c k).
Proof.
  intros Hc Hk. eapply emits_bind; [exact Hc|]. intros a l Hl. eapply emits_mono; [|apply Hk].
  intros b l' Hl'. by apply Forall_app_2.
Qed.

Lemma silent_try {A B} (c : M (result A string)) (k : A -> M (result B string)) :
  silent c -> (forall a, silent (k a)) -> silent (try c k).
Proof. intros Hc Hk. apply silent_bind; [done|]. intros [a|e]; [apply Hk|apply silent_ret]. Qed.

Lemma silent_io {A} (c : Call (result A Z)) : (forall a, verb (Ev c a) = None) -> silent (io c).
Proof. intros Hv. apply silent_bind; [by apply silent_call|]. intros a. apply silent_ret. Qed.

Lemma prepare_start_silent root id spec : silent (prepare_start root id spec).
Proof.
  unfold prepare_start, run_dir, max_bytes.
  repeat first [ apply silent_ret | apply silent_call; done | apply silent_io; done
               | apply silent_try; [|intros ?] | apply silent_bind; [|intros ?]
               | match goal with
                 | |- silent (if ?b then _ else _) => destruct b
                 | |- silent (match ?o with Some _ => _ | None => _ end) => destruct o
                 end ].
Qed.

(** Every [Q] event of the list comes after a [P] event. *)
Definition preceded (P Q : Event -> Prop) (l : list Event) : Prop :=
  forall l1 e l2, l = (l1 ++ e :: l2)%list -> Q e -> exists x, x ∈ l1 /\ P x.

Lemma preceded_nil P Q : preceded P Q [].
Proof. intros l1 e l2 Heq. by destruct l1. Qed.

Lemma preceded_cons P Q e l : ~ Q e -> preceded P Q l -> preceded P Q (e :: l).
Proof.
  intros HQ Hl l1 x l2 Heq Hx. destruct l1 as [|e1 l1]; injection Heq as -> ->; [done|].
  destruct (Hl l1 x l2 eq_refl Hx) as (y & Hy & HP). exists y. split; [by right|done].
Qed.

Lemma preceded_first P Q e l : P e -> ~ Q e -> preceded P Q (e :: l).
Proof.
  intros HP HQ l1 x l2 Heq Hx. destruct l1 as [|e1 l1]; injection Heq as -> ->; [done|]. exists e1. split; [left|done].
Qed.

Lemma preceded_app P Q l0 l : Forall (fun e => ~ Q e) l0 -> preceded P Q l -> preceded P Q (l0 ++ l).
Proof. induction 1; simpl; auto using preceded_cons. Qed.

(** The init process [pid] was put into the zone's cgroup. *)
Definition enrolls (zone : string) (pid : Z) (e : Event) : Prop :=
  e = Ev (WriteFile (zone_cgroup zone) (show pid)) (Ok tt).
Definition runs (v : string) (e : Event) : Prop := verb e = Some v.

(** The trace of a start: the workload never runs before its init process is
    in the zone's cgroup; a failed start that had created the container ends
    by deleting it; a successful one has enrolled the reported process and
    deleted nothing. *)
Definition start_trace (zone : string) (r : result (RuntimeProcess * Z) string) (l : list Event) : Prop :=
  preceded (fun e => exists pid, enrolls zone pid e) (runs "start") l /\
  match r with
  | Err _ => (exists e, e ∈ l /\ runs "start" e) \/ (exists args out, Ev (Crun args) (Ok out) ∈ l) ->
               exists e, last l = Some e /\ runs "delete" e
  | Ok (rt, pid) => (exists e, e ∈ l /\ enrolls zone pid e) /\ (exists e, e ∈ l /\ runs "start" e) /\
                    Forall (fun e => ~ runs "delete" e) l
  end.

Lemma quiet_start_trace zone e l : quiet l -> start_trace zone (Err e) l.
Proof.
  intros Hq. split.
  - intros l1 x l2 -> Hx. apply Forall_app in Hq as [_ Hq]. apply Forall_cons in Hq as [Hv _].
    unfold runs in Hx. congruence.
  - intros [(x & Hx & Hr)|(args & out & Hx)].
    + unfold quiet in Hq. rewrite Forall_forall in Hq. specialize (Hq x Hx). unfold runs in Hr. congruence.
    + unfold quiet in Hq. rewrite Forall_forall in Hq. by specialize (Hq _ Hx).
Qed.

(** crun itself could not be run: there is no container. *)
Lemma create_unspawned_trace zone e l args x :
  quiet l -> nth 3 args EmptyString = "create"%string ->
  start_trace zone (Err e) (l ++ [Ev (Crun args) (Err x)]).
Proof.
  intros Hq Hv. unfold quiet in Hq. split.
  - apply preceded_app; [eapply Forall_impl; [exact Hq|]; unfold runs; intros y Hy; congruence|].
    apply preceded_cons; [|apply preceded_nil]. unfold runs. simpl. congruence.
  - rewrite Forall_forall in Hq.
    intros [(y & [Hy| ->%list_elem_of_singleton]%elem_of_app & Hr)|(args' & out & [Hy|Hy]%elem_of_app)].
    + unfold runs in Hr. rewrite (Hq y Hy) in Hr. done.
    + unfold runs in Hr. simpl in Hr. congruence.
    + by specialize (Hq _ Hy).
    + apply list_elem_of_singleton, (f_equal crun_spawned) in Hy. done.
Qed.

Lemma abandon_trace {A} root id msg (Q : result A string -> list Event -> Prop) :
  (forall out, Q (Err msg) [Ev (Crun (runtime_args root ["delete"; "--force"; id]%string)) out]) ->
  emits (abandon root id msg) Q.
Proof. intros HQ. apply emits_bind_call. intros out. by apply emits_ret. Qed.

(** The end of a trace that gives up. *)
Lemma abandoned zone l0 l root id (out : result (bool * string) Z) (r : result (RuntimeProcess * Z) string) :
  quiet l0 ->
  let l' := (l ++ [Ev (Crun (runtime_args root ["delete"; "--force"; id]%string)) out])%list in
  preceded (fun e => exists pid, enrolls zone pid e) (runs "start") l' ->
  (exists e, r = Err e) -> start_trace zone r (l0 ++ l').
Proof.
  intros Hq l' Hp [e ->]. split.
  - apply preceded_app; [|done]. eapply Forall_impl; [exact Hq|].
    unfold runs. intros x Hx. congruence.
  - intros _. unfold l'. rewrite app_assoc, last_snoc. by eexists.
Qed.

(** The steps that end the proofs about explicit traces. *)
Ltac trace_steps :=
  repeat first [ apply preceded_nil
               | apply preceded_first; [by eexists|by unfold runs]
               | apply preceded_cons; [by unfold runs|] ].

Lemma finish_start_trace zone root id bundle b l0 create_out create_args :
  quiet l0 ->
  emits (finish_start zone root id bundle b) (fun r l =>
    start_trace zone r (l0 ++ Ev (Crun (runtime_args root ("create"%string :: create_args))) create_out :: l)).
Proof.
  intros Hq. unfold finish_start. apply emits_bind_call. intros text.
  destruct (let? _ := _ in _) as [pid|e];
    [|apply abandon_trace; intros out; apply (abandoned zone l0 [_; _]); [done|trace_steps|by eexists]].
  apply emits_bind_call. intros [fd|e];
    [|apply abandon_trace; intros out; apply (abandoned zone l0 [_; _; _]); [done|trace_steps|by eexists]].
  apply emits_bind_call. intros [[]|e];
    [|apply abandon_trace; intros out; apply (abandoned zone l0 [_; _; _; _]); [done|trace_steps|by eexists]].
  apply emits_bind_call. intros [[[|] stderr]|e];
    [|apply abandon_trace; intros out; apply (abandoned zone l0 [_; _; _; _; _]); [done|trace_steps|by eexists]..].
  apply emits_ret. split.
  - apply preceded_app; [|trace_steps]. eapply Forall_impl; [exact Hq|]. unfold runs. intros x Hx. congruence.
  - split; [|split].
    + eexists. split; [|done]. rewrite elem_of_app, !elem_of_cons. naive_solver.
    + eexists. rewrite elem_of_app, !elem_of_cons. split; [right; right; right; right; right; by left|done].
    + apply Forall_app_2; [eapply Forall_impl; [exact Hq|]; unfold runs; intros x Hx; congruence|].
      forall_each; by unfold runs.
Qed.

(** C32. However the host answers, a container's workload never runs outside its
    zone: crun start comes only after the container's init process has been
    written to the zone's cgroup; a start that succeeds has enrolled exactly
    the process it reports and deleted nothing; and a start that fails after
    crun created the container ends by deleting it. *)
Theorem start_confines_workload zone id spec root w :
  exists l, log (snd (start_with_crun zone id spec root w)) = (log w ++ l)%list /\
    start_trace zone (fst (start_with_crun zone id spec root w)) l.
Proof.
  cut (emits (start_with_crun zone id spec root) (start_trace zone)); [intros He; apply He|].
  unfold start_with_crun. unfold try at 1.
  eapply emits_bind; [apply prepare_start_silent|]. intros [log_dir|e] l0 Hq;
    [|apply emits_ret; rewrite app_nil_r; by apply quiet_start_trace].
  cbn zeta. unfold try, io. set (bundle := join_path (join_path root "containers") id).
  eapply emits_bind.
  { apply emits_bind_call. intros out. apply emits_ret. instantiate (1 := fun r l =>
      exists out, l = [Ev (Crun (runtime_args (join_path root "runtime")
                         (create_args bundle (join_path bundle "init.pid") id))) out] /\
        r = map_err errno_text out). by exists out. }
  intros r l (out & -> & ->). destruct out as [[[|] stderr]|e]; cbn [map_err negb].
  - exact (finish_start_trace zone _ id bundle _ l0 (Ok (true, stderr))
             (tail (create_args bundle (join_path bundle "init.pid") id)) Hq).
  - apply emits_bind_call. intros err. apply abandon_trace. intros out.
    apply (abandoned zone l0 [_; _]); [done|trace_steps|by eexists].
  - apply emits_ret. apply create_unspawned_trace; done.
Qed.

Lemma run_wf os : forall st, all_wf (containers st) -> ensures (run st os) (fun st' => all_wf (containers st')).
Proof.
  induction os as [|o os IH]; intros st Hw; cbn [run]; [by apply ensures_ret|].
  eapply ensures_bind; [by apply apply_step|]. intros st1 [H1 _]. by apply IH.
Qed.

(** Whatever requests the shim serves and however the host answers, every
    container's record is consistent with its status (a created one has no
    process, a running one a process and no exit code, a stopped one an exit
    code and a process whose runtime state was deleted), and until a container
    is deleted it stays, its status only moves forward from created to
    running to stopped, and its spec, its pid once started and its exit code
    never change. *)
Theorem container_lifecycle zone root os os' id w :
  let st := fst (run (new zone root) os w) in
  let st' := fst (run st os' (snd (run (new zone root) os w))) in
  all_wf (containers st') /\
  (Forall (fun o => deletes o <> Some id) os' -> forall p, containers st !! id = Some p ->
     exists p', containers st' !! id = Some p' /\ advances p p').
Proof.
  intros st st'. assert (Hst : all_wf (containers st)) by by apply run_wf.
  split; [by apply run_wf|]. intros Hd p Hp. by apply (run_step os' st id Hst Hd).
Qed.

(** Stopping a container of a reachable state: when the shim answers Ok the
    container is stopped and has an exit code; when it answers with an error
    the other containers have at most been reaped, and no container is lost. *)
Theorem stop_leaves_stopped zone root os id sig w :
  let st := fst (run (new zone root) os w) in
  let r := fst (stop_container st id sig (snd (run (new zone root) os w))) in
  step_ok None st (snd r) /\
  (fst r = Ok tt -> exists p c, containers (snd r) !! id = Some p /\ status p = Stopped /\
                      exit_code p = Some c).
Proof.
  intros st r. apply stop_step. by apply run_wf.
Qed.

End Runtime.

(** ** Framing *)

Section Framing.
Context {T E : Type} (to_allocvec : T -> result bytes E) (from_bytes : bytes -> result T E).
Context (codec : forall m p, to_allocvec m = Ok p -> from_bytes p = Ok m).

Lemma from_to_le_bytes n : in_width 32 n -> from_le_bytes (to_le_bytes n) = n.
Proof.
  unfold in_width, from_le_bytes, to_le_bytes, wrap. intros Hn. cbn [foldr].
  rewrite !Z.shiftr_div_pow2 by lia.
  change (2 ^ 24) with 16777216. change (2 ^ 16) with 65536. change (2 ^ 8) with 256.
  change (2 ^ 32) with 4294967296 in Hn. Z.to_euclidean_division_equations. lia.
Qed.

Lemma read_exact_app (b rest : bytes) : read_exact (length b) (b ++ rest) = Some (b, rest).
Proof.
  unfold read_exact. rewrite length_app.
  replace (Nat.ltb _ _) with false by (symmetry; apply Nat.ltb_ge; lia).
  by rewrite take_app_length, drop_app_length.
Qed.

(** What a reader makes of one frame, by the size of its payload. *)
Lemma decode_frame m p b rest :
  to_allocvec m = Ok p -> encode to_allocvec m = Ok b ->
  Z.of_nat (length p) < 2 ^ 32 ->
  decode_from from_bytes (b ++ rest) =
    if 1024 * 1024 <? Z.of_nat (length p) then Err (MessageTooLarge (Z.of_nat (length p)))
    else Ok (m, rest).
Proof using codec.
  intros Hp. unfold encode. rewrite Hp. intros Hb Hl.
  assert (b = (to_le_bytes (wrap 32 (Z.of_nat (length p))) ++ p)%list) as -> by congruence.
  unfold decode_from.
  assert (Hw : wrap 32 (Z.of_nat (length p)) = Z.of_nat (length p)) by (apply Z.mod_small; lia).
  rewrite Hw, <- app_assoc.
  change 4%nat with (length (to_le_bytes (Z.of_nat (length p)))). rewrite read_exact_app.
  rewrite from_to_le_bytes by (unfold in_width; lia).
  destruct (_ <? _); [done|]. rewrite Nat2Z.id, read_exact_app. by rewrite (codec m p Hp).
Qed.

(** Reading [n] messages from a stream, one [decode_from] after the other. *)
Fixpoint decode_n (n : nat) (stream : bytes) : result (list T * bytes) (ShimIoError (E := E)) :=
  match n with
  | O => Ok ([], stream)
  | S n' =>
      let? (m, rest) := decode_from from_bytes stream in
      let? (ms, rest) := decode_n n' rest in
      Ok (m :: ms, rest)
  end.

(** Framing is lossless: messages whose encodings are at most 1 MiB,
    written one after the other, are read back in order and leave the rest of
    the stream untouched; a message between 1 MiB and 4 GiB is written by the
    encoder but refused by the reader, with its size. *)
Theorem framing_roundtrip msgs frames rest :
  Forall2 (fun m b => encode to_allocvec m = Ok b /\
             Z.of_nat (length b) <= 4 + 1024 * 1024) msgs frames ->
  decode_n (length msgs) (concat frames ++ rest) = Ok (msgs, rest) /\
  (forall m p b, to_allocvec m = Ok p -> encode to_allocvec m = Ok b ->
     1024 * 1024 < Z.of_nat (length p) < 2 ^ 32 ->
     decode_from from_bytes (b ++ rest) = Err (MessageTooLarge (Z.of_nat (length p)))).
Proof using codec.
  intros Hf. split.
  - induction Hf as [|m b msgs frames [He Hl] _ IH]; [done|]. cbn [length decode_n concat].
    rewrite <- app_assoc. pose proof He as He'. unfold encode in He'.
    destruct (to_allocvec m) as [p|] eqn:Hp; [|done].
    assert (Hb : b = (to_le_bytes (wrap 32 (Z.of_nat (length p))) ++ p)%list) by congruence.
    assert (Hlen : Z.of_nat (length p) <= 1024 * 1024).
    { rewrite Hb, length_app in Hl. change (length (to_le_bytes _)) with 4%nat in Hl. lia. }
    rewrite (decode_frame m p b _ Hp He) by lia.
    destruct (_ <? _) eqn:Hc; [reflect_bools; lia|]. by rewrite IH.
  - intros m p b Hp He Hl. rewrite (decode_frame m p b rest Hp He) by lia.
    destruct (_ <? _) eqn:Hc; [done|reflect_bools; lia].
Qed.

End Framing.

Definition demo_encode (m : bytes) : result bytes unit := Ok m.

Lemma framing_roundtrip_witness :
  decode_n (E := unit) Ok 2 ([2; 0; 0; 0; 7; 8; 0; 0; 0; 0] ++ [9]) = Ok ([[7; 8]; []], [9]).
Proof.
  apply (framing_roundtrip demo_encode Ok (fun m p H => eq_sym H) [[7; 8]; []]
           [[2; 0; 0; 0; 7; 8]; [0; 0; 0; 0]] [9]).
  constructor; [split; [reflexivity|simpl; lia]|].
  constructor; [split; [reflexivity|simpl; lia]|constructor].
Defined.

(** A host on which everything succeeds and the init process 42 exits when it is
    signalled. *)
Definition demo_answer {A} (c : Call A) (signalled : bool) : A :=
  match c in Call A return A with
  | CrunPath => Ok tt | SetSubreaper => Ok tt | EnvVar _ => None | IsDir _ => true
  | CreateDirAll _ => Ok tt | WriteFile _ _ => Ok tt | ReadFile _ => Ok "42"%string
  | RemoveFile _ => Ok tt | MakePrivateDirs _ => Ok tt | SpawnBroker _ _ => tt
  | CaptureStart _ _ => Ok tt | Crun _ => Ok (true, ""%string) | PidfdOpen _ => Ok 5
  | SendSignal _ _ => Ok tt | PollExit _ => signalled | WaitPid _ => Some 0
  | Now => 0 | Sleep _ => tt | CloseCaptures => tt | BrokerFinished => true
  end.

Definition demo_host : Host := {|
  W := bool;
  answer A c w := (demo_answer c w, match c with SendSignal _ _ => true | _ => w end);
  errno_text e := show e;
  listener_path _ := None |}.

Notation demo_world := (mkWorld (H := demo_host) false []).
Notation started := (run (H := demo_host) (new "z" "/r") [OCreate "c" "{}"; OStart "c"] demo_world).

(** The started container is still there after it was stopped. *)
Lemma container_lifecycle_witness :
  exists p, containers (fst started) !! "c"%string = Some p /\ status p = Running /\ cpid p = 42 /\
  exists p', containers (fst (run (H := demo_host) (fst started) [OStop "c" 15] (snd started))) !! "c"%string
               = Some p' /\ advances p p'.
Proof.
  destruct (containers (fst started) !! "c"%string) as [p|] eqn:Hp; [|vm_compute in Hp; discriminate Hp].
  exists p. split; [reflexivity|].
  split; [vm_compute in Hp; injection Hp as <-; reflexivity|].
  split; [vm_compute in Hp; injection Hp as <-; reflexivity|].
  apply (container_lifecycle (H := demo_host) "z" "/r" [OCreate "c" "{}"; OStart "c"]%string
             [OStop "c" 15]%string "c" demo_world).
  - apply Forall_cons_2; [discriminate|apply Forall_nil_2].
  - exact Hp.
Defined.

Lemma stop_leaves_stopped_witness :
  let r := fst (stop_container (H := demo_host) (fst started) "c" 15 (snd started)) in
  fst r = Ok tt /\
  exists p c, containers (snd r) !! "c"%string = Some p /\ status p = Stopped /\ exit_code p = Some c.
Proof.
  intros r. assert (Hok : fst r = Ok tt) by (vm_compute; reflexivity). split; [exact Hok|].
  exact (proj2 (stop_leaves_stopped (H := demo_host) "z" "/r" [OCreate "c" "{}"; OStart "c"]%string
                  "c" 15 demo_world) Hok).
Defined.

End Shim.
