(* ===== verification/StateError.v ===== *)
(** * A state and error monad

    Operations that change a state and may fail, keeping the changes made before
    the failure: the shape of a Rust method with [&self] side effects that
    returns a [Result].  [wp] is its weakest-precondition reasoning: one rule
    per construct, used by the components written in this monad. *)

From stdpp Require Import base list.
From S2P Require Import Prelude.

Section StateError.
Context {S X : Type}.

Definition M (A : Type) : Type := S -> result A X * S.

Definition ret {A} (a : A) : M A := fun w => (Ok a, w).
Definition fail {A} (e : X) : M A := fun w => (Err e, w).
Definition bind {A C} (c : M A) (k : A -> M C) : M C := fun w =>
  match c w with
  | (Ok a, w') => k a w'
  | (Err e, w') => (Err e, w')
  end.

(** The result of a call as a value: [if let Err(e) = ...], [let _ = ...]. *)
Definition attempt {A} (c : M A) : M (result A X) := fun w =>
  let '(r, w') := c w in (Ok r, w').

Definition gets {A} (f : S -> A) : M A := fun w => (Ok (f w), w).
Definition modify (f : S -> S) : M unit := fun w => (Ok tt, f w).

Definition or_fail {A} (o : option A) (e : X) : M A :=
  match o with Some a => ret a | None => fail e end.
Definition of_result {A} (r : result A X) : M A :=
  match r with Ok a => ret a | Err e => fail e end.

Definition void {A} (c : M A) : M unit := bind c (fun _ => ret tt).

(** [for x in xs { f(x)?; }]. *)
Fixpoint for_each {A} (f : A -> M unit) (xs : list A) : M unit :=
  match xs with
  | [] => ret tt
  | x :: xs' => bind (f x) (fun _ => for_each f xs')
  end.

(** ** Reasoning: [wp c Q w] says that running [c] in [w] ends in a result and a
    state of [Q]. *)

Definition wp {A} (c : M A) (Q : result A X -> S -> Prop) (w : S) : Prop :=
  Q (fst (c w)) (snd (c w)).

Lemma wp_mono {A} (c : M A) (Q Q' : result A X -> S -> Prop) w :
  wp c Q w -> (forall r w', Q r w' -> Q' r w') -> wp c Q' w.
Proof. unfold wp. auto. Qed.

Lemma wp_bind {A C} (c : M A) (k : A -> M C) Q w :
  wp c (fun r w' => match r with Ok a => wp (k a) Q w' | Err e => Q (Err e) w' end) w ->
  wp (bind c k) Q w.
Proof. unfold wp, bind. destruct (c w) as [[a|e] w']; exact id. Qed.

Lemma wp_ret {A} (a : A) Q w : Q (Ok a) w -> wp (ret a) Q w.
Proof. exact id. Qed.
Lemma wp_fail {A} e (Q : result A X -> S -> Prop) w : Q (Err e) w -> wp (fail e) Q w.
Proof. exact id. Qed.
Lemma wp_gets {A} (f : S -> A) Q w : Q (Ok (f w)) w -> wp (gets f) Q w.
Proof. exact id. Qed.
Lemma wp_modify f Q w : Q (Ok tt) (f w) -> wp (modify f) Q w.
Proof. exact id. Qed.

Lemma wp_attempt {A} (c : M A) Q w : wp c (fun r w' => Q (Ok r) w') w -> wp (attempt c) Q w.
Proof. unfold wp, attempt. by destruct (c w). Qed.

Lemma wp_or_fail {A} (o : option A) e Q w :
  (forall a, o = Some a -> Q (Ok a) w) -> (o = None -> Q (Err e) w) -> wp (or_fail o e) Q w.
Proof. destruct o; simpl; intros H1 H2; [by apply wp_ret, H1|by apply wp_fail, H2]. Qed.

Lemma wp_of_result {A} (r : result A X) Q w :
  (forall a, r = Ok a -> Q (Ok a) w) -> (forall e, r = Err e -> Q (Err e) w) -> wp (of_result r) Q w.
Proof. destruct r; simpl; intros H1 H2; [by apply wp_ret, H1|by apply wp_fail, H2]. Qed.

(** A loop keeps an invariant its body keeps. *)
Lemma wp_for_each {A} (f : A -> M unit) (Inv : list A -> S -> Prop) (E : S -> Prop) xs w :
  Inv [] w ->
  (forall ys x zs w, xs = (ys ++ x :: zs)%list -> Inv ys w ->
     wp (f x) (fun r w' => match r with Ok _ => Inv (ys ++ [x])%list w' | Err _ => E w' end) w) ->
  wp (for_each f xs) (fun r w' => match r with Ok _ => Inv xs w' | Err _ => E w' end) w.
Proof.
  intros H0 Hf.
  assert (Hgen : forall ys zs w, xs = (ys ++ zs)%list -> Inv ys w ->
    wp (for_each f zs) (fun r w' => match r with Ok _ => Inv xs w' | Err _ => E w' end) w).
  { intros ys zs. revert ys. induction zs as [|z zs IH]; intros ys w1 -> Hi.
    - apply wp_ret. by rewrite app_nil_r in *.
    - apply wp_bind. eapply wp_mono; [by apply (Hf ys z zs)|].
      intros [[]|e] w2 Hw2; [|done]. apply (IH (ys ++ [z])%list); [by rewrite <- app_assoc|done]. }
  by apply (Hgen []).
Qed.

(** Relations kept by every run: reflexive and transitive ones compose. *)
Definition keeps (R : S -> S -> Prop) {A} (c : M A) : Prop := forall w, wp c (fun _ w' => R w w') w.

Section Keeps.
Context (R : S -> S -> Prop) `{!PreOrder R}.

Lemma keeps_ret {A} (a : A) : keeps R (ret a).
Proof. intros w. apply wp_ret. reflexivity. Qed.
Lemma keeps_fail {A} e : keeps R (A := A) (fail e).
Proof. intros w. apply wp_fail. reflexivity. Qed.
Lemma keeps_gets {A} (f : S -> A) : keeps R (gets f).
Proof. intros w. apply wp_gets. reflexivity. Qed.
Lemma keeps_or_fail {A} (o : option A) e : keeps R (or_fail o e).
Proof. destruct o; [apply keeps_ret|apply keeps_fail]. Qed.
Lemma keeps_of_result {A} (r : result A X) : keeps R (of_result r).
Proof. destruct r; [apply keeps_ret|apply keeps_fail]. Qed.
Lemma keeps_attempt {A} (c : M A) : keeps R c -> keeps R (attempt c).
Proof. intros Hc w. apply wp_attempt. apply Hc. Qed.

Lemma keeps_bind {A C} (c : M A) (k : A -> M C) :
  keeps R c -> (forall a, keeps R (k a)) -> keeps R (bind c k).
Proof.
  intros Hc Hk w. apply wp_bind. eapply wp_mono; [apply Hc|]. intros [a|e] w' Hs; [|done].
  eapply wp_mono; [apply Hk|]. intros r w'' Hs'. by transitivity w'.
Qed.

Lemma keeps_void {A} (c : M A) : keeps R c -> keeps R (void c).
Proof. intros Hc. apply keeps_bind; [done|]. intros a. apply keeps_ret. Qed.

Lemma keeps_for_each {A} (f : A -> M unit) xs : (forall x, keeps R (f x)) -> keeps R (for_each f xs).
Proof. intros Hf. induction xs as [|x xs IH]; [apply keeps_ret|]. by apply keeps_bind. Qed.

End Keeps.
End StateError.

Arguments M : clear implicits.

Notation "'do' x <- c ; k" := (bind c (fun x => k))
  (at level 10, x pattern, c at level 200, k at level 200) : rauha_scope.

(** One step of symbolic execution through the constructs of the monad. *)
Ltac wp_step :=
  lazymatch goal with
  | |- wp (bind _ _) _ _ => apply wp_bind
  | |- wp (void _) _ _ => apply wp_bind
  | |- wp (ret _) _ _ => apply wp_ret
  | |- wp (fail _) _ _ => apply wp_fail
  | |- wp (gets _) _ _ => apply wp_gets
  | |- wp (modify _) _ _ => apply wp_modify
  | |- wp (attempt _) _ _ => apply wp_attempt
  | |- wp (or_fail _ _) _ _ => apply wp_or_fail; [intros ? ?|intros ?]
  | |- wp (of_result _) _ _ => apply wp_of_result; [intros ? ?|intros ? ?]
  end; cbv beta iota zeta.

Create HintDb keeps.
#[export] Hint Resolve keeps_ret keeps_fail keeps_gets keeps_or_fail keeps_of_result keeps_attempt
  keeps_void keeps_for_each : keeps.

(** Programs keep a relation because their steps do. *)
Ltac keeps_step :=
  lazymatch goal with
  | |- keeps _ (bind _ _) => apply keeps_bind; [try apply _| |intros ?]
  | |- keeps _ (ret _) => apply keeps_ret; apply _
  | |- keeps _ (fail _) => apply keeps_fail; apply _
  | |- keeps _ (gets _) => apply keeps_gets; apply _
  | |- keeps _ (or_fail _ _) => apply keeps_or_fail; apply _
  | |- keeps _ (of_result _) => apply keeps_of_result; apply _
  | |- keeps _ (attempt _) => apply keeps_attempt
  | |- keeps _ (void _) => apply keeps_void; [apply _|]
  | |- keeps _ (for_each _ _) => apply keeps_for_each; [apply _|intros ?]
  | |- keeps _ (let '(_, _) := ?x in _) => destruct x
  | |- keeps _ (match ?x with _ => _ end) => destruct x
  | |- keeps _ (if ?x then _ else _) => destruct x
  end.
Ltac keeps_auto := repeat first [solve [eauto 2 with keeps] | keeps_step].
