(* ===== verification/Serve.v ===== *)
(** * The broker's front door and its judges

    [serve], [recv_fd] and the judge pool of [rauha-shim/src/broker/mod.rs]: whose
    descriptor is judged with, what a refused hand-off leaves behind, and what the judges
    that share one listener and one decision log do in any interleaving.  A judgment itself
    is in [Broker]. *)

From stdpp Require Import base gmap strings list.
From Stdlib Require Import ZArith Ascii String Lia.
From S2P Require Import Prelude.
From S2P Require Import RustStr.
From S2P Require Import StateError.
From S2P Require Import Broker.
Open Scope string_scope.

Module Serve.
Import Broker.

(** ** The hand-off *)

Definition SOL_SOCKET : Z := 1.
Definition SCM_RIGHTS : Z := 1.

(** What [recvmsg] delivers: the first control message, with the length of its data and
    the descriptors the kernel installed for it, and whether more was cut off. *)
Record Control := mkControl { cmsg_level : Z; cmsg_type : Z; data_len : Z; cmsg_fds : list Z }.
Record Message := mkMessage { control : option Control; ctrunc : bool }.

(** The descriptor, or why it is refused, and the descriptors that are closed. *)
Definition recv_fd (received : result Message string) : result Z string * list Z :=
  match received with
  | Err e => (Err ("recvmsg on seccomp listener: " ++ e), [])
  | Ok m =>
      match control m with
      | None => (Err "no control message on seccomp listener", [])
      | Some c =>
          if negb ((cmsg_level c =? SOL_SOCKET) && (cmsg_type c =? SCM_RIGHTS))%Z
          then (Err "unexpected cmsg on seccomp listener", [])
          else if negb (data_len c mod 4 =? 0)%Z then (Err "malformed SCM_RIGHTS cmsg on seccomp listener", [])
          else if ctrunc m then (Err "truncated SCM_RIGHTS cmsg on seccomp listener", cmsg_fds c)
          else match cmsg_fds c with
               | [fd] => if (fd <? 0)%Z then (Err "invalid fd from seccomp listener", []) else (Ok fd, [])
               | fds => (Err ("expected exactly one fd from the seccomp listener, got " ++ Str.show (Z.of_nat (List.length fds))), fds)
               end
      end
  end.

(** The kernel's side: a control message of rights holds whole descriptors, the ones it
    installed; other messages install none. *)
Definition kernel_message (m : Message) : Prop :=
  match control m with
  | None => True
  | Some c => if ((cmsg_level c =? SOL_SOCKET) && (cmsg_type c =? SCM_RIGHTS))%Z
              then data_len c = (4 * Z.of_nat (List.length (cmsg_fds c)))%Z /\ Forall (fun fd => 0 <= fd)%Z (cmsg_fds c)
              else cmsg_fds c = []
  end.
Definition installed (received : result Message string) : list Z :=
  match received with Ok m => from_option cmsg_fds [] (control m) | Err _ => [] end.

(** Every descriptor a hand-off brings is the one that is kept or is closed. *)
Lemma hand_off_leaks_nothing received :
  match received with Ok m => kernel_message m | Err _ => True end ->
  match recv_fd received with
  | (Ok fd, closed) => installed received = [fd] /\ closed = [] /\ (0 <= fd)%Z
  | (Err _, closed) => installed received = closed
  end.
Proof.
  destruct received as [[[[l t n fds]|] tr]|e]; [|done..]. unfold kernel_message, recv_fd, installed. cbn.
  destruct ((l =? SOL_SOCKET) && (t =? SCM_RIGHTS))%Z; cbn [negb]; [|done]. intros [-> Hfds].
  rewrite (Z.mul_comm 4), Z.mod_mul by done. cbn [Z.eqb negb]. destruct tr; [done|].
  destruct fds as [|fd [|fd2 fds]]; [done| |done]. apply Forall_cons in Hfds as [Hfd _].
  destruct (Z.ltb_spec fd 0); [lia|done].
Qed.

(** ** Serving *)

(** What [serve] does that others can see. *)
Inductive Act :=
| Unlink (path : string)
| Bind (path : string) (umask : Z)
| Chmod (path : string) (mode : Z)
| Accepted
| StopListening
| Peer (uid : Z)
| Received (received : result Message string)
| Close (fd : Z)
| RaiseNofile (to : Z)
| OpenLog (path : string)
| Clone (original fd : Z)
| Judge (fd cache : Z)
| Joined.

Class ServeHost (E : Type) := {
  bind : string -> E -> result unit string * E;
  accept : E -> result unit string * E;
  (** [SO_PEERCRED]: uid and pid. *)
  peercred : E -> result (Z * Z) string * E;
  set_read_timeout : Z -> E -> result unit string * E;
  recvmsg : E -> result Message string * E;
  (** The soft and the hard limit. *)
  getrlimit : E -> option (Z * Z) * E;
  setrlimit : Z -> E -> bool * E;
  (** A further descriptor of the listener. *)
  try_clone : Z -> E -> result Z string * E;
  spawn : E -> result unit string * E;
  var : string -> option string;
  getuid : Z }.

Section Serve.
Context {E : Type} `{!ServeHost E}.

Record World := mkWorld { host : E; umask : Z; acts : list Act }.
Notation M := (StateError.M World string).

Definition act (a : Act) : M unit := modify (fun w => mkWorld (host w) (umask w) (acts w ++ [a])).
Definition sys {A} (f : E -> A * E) : M A := fun w => let '(a, e) := f (host w) in (Ok a, mkWorld e (umask w) (acts w)).
Definition try_ {A} (what : string) (f : E -> result A string * E) : M A :=
  do r <- sys f; of_result (map_err (fun e => what ++ e) r).
Definition set_umask (u : Z) : M Z := fun w => (Ok (umask w), mkWorld (host w) u (acts w)).

Definition handoff_timeout_ms : Z := parse_or 30000 (var "RAUHA_BROKER_HANDOFF_TIMEOUT_MS").
Definition cache_max_tasks : Z := cache_max_tasks_from (var "RAUHA_BROKER_CACHE_MAX").
Definition judge_threads : Z := judge_threads_from (var "RAUHA_BROKER_JUDGE_THREADS").

Definition raise_nofile_soft_to_hard : M unit :=
  do limit <- sys getrlimit;
  match limit with
  | None => ret tt
  | Some (cur, max) =>
      if (cur <? max)%Z then do ok <- sys (setrlimit max); if ok : bool then act (RaiseNofile max) else ret tt else ret tt
  end.
Definition nofile_limit : M (option Z) := do limit <- sys getrlimit; ret (fst <$> limit).

(** [0o077] and [0o600]. *)
Definition PRIVATE_UMASK : Z := 63.
Definition SOCKET_MODE : Z := 384.

(** Binding under a umask of its own. *)
Definition bind_listener (listener_path : string) : M unit :=
  do _ <- act (Unlink listener_path);
  do saved <- set_umask PRIVATE_UMASK;
  do r <- sys (bind listener_path);
  do _ <- (if is_ok r then do u <- gets umask; act (Bind listener_path u) else ret tt);
  do _ <- set_umask saved;
  of_result (map_err (fun e => "bind seccomp listener " ++ listener_path ++ ": " ++ e) r).

(** The descriptor of the one connection that is accepted. *)
Definition hand_off (listener_path : string) : M Z :=
  do _ <- (if Str.contains_char "000" listener_path then fail ("listener path " ++ listener_path ++ " not a C string") else ret tt);
  do _ <- act (Chmod listener_path SOCKET_MODE);
  do _ <- try_ "accept seccomp listener: " accept;
  do _ <- act Accepted;
  do _ <- act StopListening;
  do (uid, pid) <- try_ "SO_PEERCRED on seccomp listener: " peercred;
  do _ <- act (Peer uid);
  do _ <- (if negb (uid =? getuid)%Z
           then fail ("refusing seccomp hand-off from uid " ++ Str.show uid ++ " (pid " ++ Str.show pid ++ ") — expected our own uid")
           else ret tt);
  do _ <- try_ "set seccomp hand-off timeout: " (set_read_timeout handoff_timeout_ms);
  do received <- sys recvmsg;
  do _ <- act (Received received);
  let '(fd, closed) := recv_fd received in
  do _ <- for_each (fun fd => act (Close fd)) closed;
  of_result (map_err (fun e => "receive seccomp notify fd: " ++ e) fd).

(** The judges of the pool, started one after the other. *)
Fixpoint start_judges (n : nat) (notify_fd cache : Z) : M unit :=
  match n with
  | O => ret tt
  | S n =>
      do fd <- try_ "dup seccomp notify fd for judge pool: " (try_clone notify_fd);
      do _ <- act (Clone notify_fd fd);
      do _ <- try_ "spawn broker judge thread: " spawn;
      do _ <- act (Judge fd cache);
      start_judges n notify_fd cache
  end.

Definition judge_with (notify_fd : Z) (decision_log_path : string) : M unit :=
  do _ <- raise_nofile_soft_to_hard;
  do limit <- nofile_limit;
  let cache_cap := cache_cap_within cache_max_tasks (default (DEFAULT_CACHE_MAX_TASKS * 3 + FD_HEADROOM)%Z limit) in
  let threads := judge_threads in
  do _ <- act (OpenLog decision_log_path);
  if (threads =? 1)%Z then act (Judge notify_fd cache_cap)
  else
    do _ <- start_judges (Z.to_nat threads) notify_fd (per_judge_cache cache_cap threads);
    act Joined.

(** With [SocketGuard]: the socket goes however the rest ends. *)
Definition serve (listener_path decision_log_path : string) : M unit :=
  do _ <- bind_listener listener_path;
  do r <- attempt (do fd <- hand_off listener_path; judge_with fd decision_log_path);
  do _ <- act (Unlink listener_path);
  of_result r.

(** ** What a serve leaves behind *)

Lemma recv_fd_ok received fd closed : recv_fd received = (Ok fd, closed) -> closed = [].
Proof. unfold recv_fd. repeat case_match; intros; simplify_eq; done. Qed.

(** Steps that add to the trace what [ok] allows and leave the umask alone. *)
Definition traces (ok : Act -> Prop) (w w' : World) : Prop :=
  umask w' = umask w /\ exists l, acts w' = (acts w ++ l)%list /\ Forall ok l.

#[local] Instance traces_preorder ok : PreOrder (traces ok).
Proof.
  split; [intros w; split; [done|exists []; by rewrite app_nil_r]|].
  intros w1 w2 w3 (U1 & l1 & E1 & F1) (U2 & l2 & E2 & F2). split; [congruence|]. exists (l1 ++ l2)%list.
  rewrite E2, E1, app_assoc. split; [done|by apply Forall_app].
Qed.

Lemma traces_act (ok : Act -> Prop) a : ok a -> keeps (traces ok) (act a).
Proof. intros Ha w. unfold act. wp_step. split; [done|]. exists [a]. split; [done|by constructor]. Qed.
Lemma traces_sys (ok : Act -> Prop) {A} (f : E -> A * E) : keeps (traces ok) (sys f).
Proof. intros w. unfold wp, sys. destruct (f (host w)). split; [done|]. exists []. by rewrite app_nil_r. Qed.
Lemma traces_try (ok : Act -> Prop) {A} what (f : E -> result A string * E) : keeps (traces ok) (try_ what f).
Proof. unfold try_. apply keeps_bind; [apply _|apply traces_sys|]. intros r. apply keeps_of_result, _. Qed.
#[local] Hint Resolve traces_act traces_sys traces_try : keeps.

(** What is done with a descriptor [fd] that was handed over: judges are started with it
    or with a duplicate that was made of it, and with no other, each with a cache of [cache]. *)
Definition with_it (fd cache : Z) (a : Act) : Prop :=
  match a with RaiseNofile _ | OpenLog _ | Joined => True | Judge _ c => c = cache | Clone original _ => original = fd | _ => False end.
Definition judging (fd cache : Z) (l : list Act) : Prop :=
  Forall (with_it fd cache) l /\ forall l1 j c l2, l = (l1 ++ Judge j c :: l2)%list -> j = fd \/ Clone fd j ∈ l1.
Definition judges_in (l : list Act) : nat := List.length (List.filter (fun a => match a with Judge _ _ => true | _ => false end) l).

Lemma judging_app fd cache l1 l2 : judging fd cache l1 -> judging fd cache l2 -> judging fd cache (l1 ++ l2).
Proof.
  intros [F1 J1] [F2 J2]. split; [by apply Forall_app|]. intros k1 j c k2 Es.
  apply app_eq_app in Es as [k [[E1 E2]|[E1 E2]]].
  - destruct k as [|a k].
    + rewrite app_nil_r in E1. subst k1. destruct (J2 [] j c k2 (eq_sym E2)) as [?|H]; [by left|by apply elem_of_nil in H].
    + injection E2 as <- ->. by apply (J1 k1 j c k).
  - subst k1. destruct (J2 k j c k2 E2) as [?|H]; [by left|]. right. apply elem_of_app. by right.
Qed.
Lemma judging_one fd cache a : with_it fd cache a -> (forall c j, a = Judge j c -> j = fd) -> judging fd cache [a].
Proof.
  intros Ha Hj. split; [by constructor|]. intros l1 j c l2 Es. left. destruct l1 as [|? [|]]; [|done|done]. injection Es as ->. by eapply Hj.
Qed.
Lemma judges_app l1 l2 : judges_in (l1 ++ l2) = (judges_in l1 + judges_in l2)%nat.
Proof. unfold judges_in. by rewrite List.filter_app, length_app. Qed.

Lemma wp_act a (Q : result unit string -> World -> Prop) w :
  Q (Ok tt) (mkWorld (host w) (umask w) (acts w ++ [a])%list) -> wp (act a) Q w.
Proof. exact id. Qed.
Lemma serve_wp_sys {A} (f : E -> A * E) (Q : result A string -> World -> Prop) w :
  (forall a e, Q (Ok a) (mkWorld e (umask w) (acts w))) -> wp (sys f) Q w.
Proof. intros H. unfold wp, sys. destruct (f (host w)) as [a e]. apply H. Qed.
Lemma serve_wp_try {A} what (f : E -> result A string * E) (Q : result A string -> World -> Prop) w :
  (forall a e, Q (Ok a) (mkWorld e (umask w) (acts w))) -> (forall x e, Q (Err x) (mkWorld e (umask w) (acts w))) ->
  wp (try_ what f) Q w.
Proof. intros HO HE. unfold try_. wp_step. apply serve_wp_sys. intros [a|x] e; wp_step; naive_solver. Qed.

(** A part of [judge_with]: what it adds to the trace, and how many judges it starts. *)
Definition starts (fd cache : Z) (n : nat) (w : World) {A} (r : result A string) (w' : World) : Prop :=
  umask w' = umask w /\ exists l, acts w' = (acts w ++ l)%list /\ judging fd cache l /\ (is_ok r = true -> judges_in l = n).

Lemma start_judges_starts fd cache n : forall w, wp (start_judges n fd cache) (starts fd cache n w) w.
Proof.
  assert (Hnil : judging fd cache []) by (split; [constructor|]; by intros [|??] ???).
  induction n as [|n IH]; intros w; cbn [start_judges].
  { wp_step. split; [done|]. exists []. by rewrite app_nil_r. }
  wp_step. apply serve_wp_try; [|intros x e; split; [done|]; exists []; cbn; by rewrite app_nil_r].
  intros j e. wp_step. apply wp_act. wp_step. cbn [host umask acts].
  assert (Hc : judging fd cache [Clone fd j]) by (apply judging_one; [done|by intros]).
  apply serve_wp_try; [|intros x e'; split; [done|]; exists [Clone fd j]; by split_and!].
  intros _ e'. wp_step. apply wp_act. cbn [host umask acts].
  assert (Hj : judging fd cache [Clone fd j; Judge j cache]).
  { split; [by repeat constructor|]. intros [|a1 [|a2 [|??]]] j' c' l2 E'; try done. injection E' as <- <- <- <-. right. by left. }
  eapply wp_mono; [apply IH|]. intros r w' (U & l & El & Hl & Hn). cbn [umask acts] in *. split; [done|].
  exists ([Clone fd j; Judge j cache] ++ l)%list. rewrite El, <- !app_assoc. split; [done|]. split; [by apply judging_app|].
  intros Hr. rewrite judges_app, Hn by done. done.
Qed.

(** The cache of each judge, under a limit of descriptors. *)
Definition cache_within (limit : option Z) : Z :=
  per_judge_cache (cache_cap_within cache_max_tasks (default (DEFAULT_CACHE_MAX_TASKS * 3 + FD_HEADROOM)%Z limit)) judge_threads.

Lemma judge_with_starts fd path w :
  wp (judge_with fd path) (fun r w' => exists limit, starts fd (cache_within limit) (Z.to_nat judge_threads) w r w') w.
Proof.
  unfold judge_with, nofile_limit. wp_step.
  assert (Hr : wp raise_nofile_soft_to_hard (fun r w' => r = Ok tt /\ forall cache, starts fd cache 0 w r w') w).
  { unfold raise_nofile_soft_to_hard. wp_step. apply serve_wp_sys. intros limit e.
    assert (H0 : forall cache, starts fd cache 0 w (Ok tt : result unit string) (mkWorld e (umask w) (acts w))).
    { split; [done|]. exists []. rewrite app_nil_r. split_and!; [done|split; [constructor|by intros [|??] ???]|done]. }
    destruct limit as [[cur max]|]; [|by wp_step]. destruct (cur <? max)%Z; [|by wp_step]. wp_step. apply serve_wp_sys.
    intros [|] e'; [apply wp_act|wp_step]; split; try done; split; try done; cbn [acts host].
    exists [RaiseNofile max]. split_and!; [done|by apply judging_one|done]. }
  eapply wp_mono; [exact Hr|]. intros r w1 [-> Hl]. wp_step. wp_step. apply serve_wp_sys. intros answer e. wp_step.
  set (limit := option_map fst answer). destruct (Hl (cache_within limit)) as (U1 & l1 & E1 & J1 & N1). clear Hl.
  wp_step. apply wp_act. cbn [host umask acts]. set (w2 := mkWorld _ _ _).
  assert (H2 : acts w2 = (acts w ++ l1 ++ [OpenLog path])%list /\ umask w2 = umask w) by (subst w2; cbn; by rewrite E1, <- app_assoc).
  destruct H2 as [E2 U2]. clearbody w2.
  assert (J2 : judging fd (cache_within limit) (l1 ++ [OpenLog path])) by (apply judging_app; [done|by apply judging_one]).
  assert (N2 : judges_in (l1 ++ [OpenLog path]) = 0%nat) by (rewrite judges_app, N1 by done; done).
  set (l2 := (l1 ++ [OpenLog path])%list) in *. clearbody l2.
  destruct (Z.eqb_spec judge_threads 1) as [E1t|Hne].
  - rewrite E1t. apply wp_act. exists limit. split; [done|]. cbn [acts]. eexists. rewrite E2, <- app_assoc. split; [done|]. split.
    + apply judging_app; [done|]. apply judging_one; [cbn; unfold cache_within; by rewrite E1t|]. by intros ?? [= ->].
    + intros _. by rewrite judges_app, N2.
  - wp_step. eapply wp_mono; [apply start_judges_starts|]. intros r w3 (U3 & l3 & E3 & J3 & N3). destruct r as [[]|x].
    + apply wp_act. exists limit. split; [cbn; congruence|]. cbn [acts]. exists (l2 ++ l3 ++ [Joined])%list.
      rewrite E3, E2, <- !app_assoc. split; [done|]. split.
      * apply judging_app; [done|]. apply judging_app; [done|by apply judging_one].
      * intros _. rewrite !judges_app, N2, N3 by done. cbn. lia.
    + exists limit. split; [congruence|]. exists (l2 ++ l3)%list. rewrite E3, E2, <- !app_assoc. split; [done|]. split; [by apply judging_app|done].
Qed.

(** What happens before a descriptor is judged with. *)
Definition handed_over (listener_path : string) (received : result Message string) : list Act :=
  [Chmod listener_path SOCKET_MODE; Accepted; StopListening; Peer getuid; Received received].
Definition refusing (a : Act) : Prop := match a with Judge _ _ | Clone _ _ | Unlink _ | Bind _ _ => False | _ => True end.

Lemma hand_off_traces listener_path : keeps (traces refusing) (hand_off listener_path).
Proof.
  unfold hand_off.
  repeat first [by apply traces_act | apply traces_try | apply traces_sys | keeps_step | case_match].
Qed.

Lemma hand_off_ok listener_path w :
  wp (hand_off listener_path) (fun r w' => forall fd, r = Ok fd -> umask w' = umask w /\
    exists received, recv_fd received = (Ok fd, []) /\ acts w' = (acts w ++ handed_over listener_path received)%list) w.
Proof.
  unfold hand_off. wp_step. case_match; [by wp_step|]. wp_step.
  wp_step. apply wp_act. wp_step. apply serve_wp_try; [|done]. intros _ e1.
  wp_step. apply wp_act. wp_step. apply wp_act. wp_step. apply serve_wp_try; [|done]. intros [uid pid] e2.
  wp_step. apply wp_act. wp_step. destruct (Z.eqb_spec uid getuid) as [->|]; cbn [negb]; [|by wp_step]. wp_step.
  wp_step. apply serve_wp_try; [|done]. intros _ e3. wp_step. apply serve_wp_sys. intros received e4. wp_step. apply wp_act.
  destruct (recv_fd received) as [r closed] eqn:Hr. wp_step.
  destruct r as [fd|x].
  - apply recv_fd_ok in Hr as Hc. subst closed. cbn [for_each]. wp_step. wp_step; [|done]. intros fd' Hfd. cbn in *. simplify_eq.
    split; [done|]. exists received. split; [done|]. cbn. by rewrite <- !app_assoc.
  - eapply wp_mono; [apply (keeps_for_each (traces (fun _ => True))); intros x'; by apply traces_act|].
    intros [[]|] w' _; [|done]. by wp_step.
Qed.

(** C21. Whatever the host does, a serve leaves the umask as it was, binds under a private one
    and, if it bound, removes the socket last and only then; judges are started only after
    the one connection was accepted, the socket had stopped listening, the peer was found
    to have the shim's own uid, and exactly one descriptor was received; every judge works
    with that very descriptor or with a duplicate made of it before, and with its share of
    the pins the limit of descriptors leaves room for; and a serve that succeeds has started
    as many of them as are configured. *)
Theorem serve_guards_the_listener listener_path log_path w : acts w = [] ->
  let '(r, w') := serve listener_path log_path w in
  umask w' = umask w /\
  (acts w' = [Unlink listener_path] /\ is_ok r = false \/
   exists l, acts w' = (Unlink listener_path :: Bind listener_path PRIVATE_UMASK :: l ++ [Unlink listener_path])%list /\
     (Forall refusing l /\ is_ok r = false \/
      exists received fd limit rest, recv_fd received = (Ok fd, []) /\ l = (handed_over listener_path received ++ rest)%list /\
        judging fd (cache_within limit) rest /\ (is_ok r = true -> judges_in rest = Z.to_nat judge_threads))).
Proof.
  intros Hnil. set (Q := fun (r : result unit string) (w' : World) => umask w' = umask w /\
    (acts w' = [Unlink listener_path] /\ is_ok r = false \/
     exists l, acts w' = (Unlink listener_path :: Bind listener_path PRIVATE_UMASK :: l ++ [Unlink listener_path])%list /\
       (Forall refusing l /\ is_ok r = false \/
        exists received fd limit rest, recv_fd received = (Ok fd, []) /\ l = (handed_over listener_path received ++ rest)%list /\
          judging fd (cache_within limit) rest /\ (is_ok r = true -> judges_in rest = Z.to_nat judge_threads)))).
  enough (wp (serve listener_path log_path) Q w) as H by (unfold wp in H; by destruct (serve listener_path log_path w)).
  unfold serve, bind_listener. wp_step. wp_step. apply wp_act. wp_step. unfold set_umask at 1. unfold wp at 1. cbn [fst snd].
  wp_step. apply serve_wp_sys. intros [[]|x] e; cbn [is_ok].
  2: { wp_step. wp_step. wp_step. unfold set_umask, wp. cbn. unfold Q. cbn. rewrite Hnil. by split; [|left]. }
  wp_step. wp_step. wp_step. apply wp_act. wp_step. unfold set_umask at 1. unfold wp at 1. cbn [fst snd map_err of_result umask acts host].
  wp_step. wp_step. wp_step. wp_step. set (w0 := mkWorld _ _ _).
  pose proof (hand_off_traces listener_path w0) as Ht. pose proof (hand_off_ok listener_path w0) as Hok.
  unfold wp in Ht, Hok. unfold wp at 1. destruct (hand_off listener_path w0) as [[fd|x] w1]; cbn [fst snd] in *.
  - clear Ht. destruct (Hok fd eq_refl) as (U1 & received & Hr & E1). pose proof (judge_with_starts fd log_path w1) as Hj.
    unfold wp in Hj |- *. destruct (judge_with fd log_path w1) as [r w2]. destruct Hj as (limit & U2 & rest & E2 & F2 & N2). cbn [fst snd] in *.
    destruct r; cbn; unfold Q; (split; [cbn in *; congruence|]); right; exists (handed_over listener_path received ++ rest)%list; cbn [acts];
      rewrite E2, E1; subst w0; cbn [acts]; rewrite Hnil; (split; [cbn; by rewrite <- ?app_assoc|]); right; by exists received, fd, limit, rest.
  - destruct Ht as (U1 & l & E1 & F1). wp_step. apply wp_act. wp_step; [done|]. unfold Q. cbn. split; [exact U1|]. right. exists l.
    rewrite E1. subst w0. cbn [acts]. rewrite Hnil. split; [done|]. by left.
Qed.

End Serve.

(** ** The judges *)

(** Where a judge is in [judge_loop] and [respond]: the notification it holds, its verdict,
    the response it will send once the kernel took a descriptor and the log was told, and
    the response it will send next. *)
Inductive Hand :=
| Idle
| Holding (n : SeccompNotif)
| Decided (n : SeccompNotif) (v : Verdict)
| Answering (v : Verdict) (r : SeccompNotifResp) (errno : Z) (reason : option string)
| Recorded (r : SeccompNotifResp).
Record JudgeState := mkJudge { hand : Hand; cache : PinCache }.

(** The listener, shared: what arrived, what was taken back because its task died, and the
    responses in the order the log was told of them are ghosts.  Each judge has its own
    pins; they share the log. *)
Record Pool := mkPool {
  arrived : list SeccompNotif; gone : list SeccompNotif; pending : list SeccompNotif;
  judges : list JudgeState; plog : DecisionLog; noted : list SeccompNotifResp; sent : list SeccompNotifResp }.

Definition with_judge (i : nat) (j : JudgeState) (p : Pool) : Pool :=
  mkPool (arrived p) (gone p) (pending p) (<[i := j]> (judges p)) (plog p) (noted p) (sent p).
Definition with_log (l : DecisionLog) (r : SeccompNotifResp) (p : Pool) : Pool :=
  mkPool (arrived p) (gone p) (pending p) (judges p) l (noted p ++ [r]) (sent p).
Definition with_sent (r : SeccompNotifResp) (p : Pool) : Pool :=
  mkPool (arrived p) (gone p) (pending p) (judges p) (plog p) (noted p) (sent p ++ [r]).

(** One step of one judge, or of the kernel: a notification arrives, under an id of its own,
    or its task dies; a judge that waits receives one that is pending, and no other judge
    does; it judges it; it has the kernel take the descriptor it grants; it tells the log,
    under the lock; it sends, with the lock released. *)
Inductive step : Pool -> Pool -> Prop :=
| step_arrive n p : notif_id n ∉ map notif_id (arrived p) ->
    step p (mkPool (arrived p ++ [n]) (gone p) (pending p ++ [n]) (judges p) (plog p) (noted p) (sent p))
| step_gone n l1 l2 p : pending p = (l1 ++ n :: l2)%list ->
    step p (mkPool (arrived p) (gone p ++ [n]) (l1 ++ l2) (judges p) (plog p) (noted p) (sent p))
| step_recv i c n l1 l2 p : pending p = (l1 ++ n :: l2)%list -> judges p !! i = Some (mkJudge Idle c) ->
    step p (with_judge i (mkJudge (Holding n) c) (mkPool (arrived p) (gone p) (l1 ++ l2) (judges p) (plog p) (noted p) (sent p)))
| step_judge (H : BrokerHost) i c n v c' acts p : judges p !! i = Some (mkJudge (Holding n) c) ->
    judge n c = (v, c', acts) -> step p (with_judge i (mkJudge (Decided n v) c') p)
| step_addfd (H : BrokerHost) i c n v r errno reason acts p : judges p !! i = Some (mkJudge (Decided n v) c) ->
    answer_of (notif_id n) v = (r, errno, reason, acts) -> step p (with_judge i (mkJudge (Answering v r errno reason) c) p)
| step_record (H : BrokerHost) i c v r errno reason p : judges p !! i = Some (mkJudge (Answering v r errno reason) c) ->
    step p (with_judge i (mkJudge (Recorded r) c)
              (with_log (record (plog p) (resp_id r) (v_syscall v) (v_tid v) (v_path v) errno reason) r p))
| step_send i c r p : judges p !! i = Some (mkJudge (Recorded r) c) ->
    step p (with_judge i (mkJudge Idle c) (with_sent r p)).

Definition started (threads : nat) (capacity : Z) (log : bool) : Pool :=
  mkPool [] [] [] (replicate threads (mkJudge Idle (PinCache_new capacity)))
    (mkLog (if log then Some [] else None) 0 (negb log)) [] [].









Lemma answer_of_id `{BrokerHost} id v r errno reason acts : answer_of id v = (r, errno, reason, acts) ->
  resp_id r = id /\ resp_error r = (- errno)%Z.
Proof.
  unfold answer_of. destruct (v_decision v) as [e why|fd cx]; [by intros [= <- <- <- <-]|].
  destruct (addfd _) as [t|e]; by intros [= <- <- <- <-].
Qed.







(** A judge that holds a notification can go on and answer it, whatever the kernel says. *)
Lemma holder_can_answer (H : BrokerHost) p i n c : judges p !! i = Some (mkJudge (Holding n) c) ->
  exists p', rtc step p p' /\ exists r, resp_id r = notif_id n /\ sent p' = (sent p ++ [r])%list.
Proof.
  intros Hi. destruct (judge n c) as [[v c'] acts] eqn:Hj. destruct (answer_of (notif_id n) v) as [[[r errno] reason] acts'] eqn:Ha.
  assert (Hat : forall j q, List.length (judges q) = List.length (judges p) -> judges (with_judge i j q) !! i = Some j).
  { intros j q Hl. cbn. apply list_lookup_insert_eq. rewrite Hl. by eapply lookup_lt_Some. }
  eexists. split.
  - eapply rtc_l; [by eapply (step_judge H)|]. eapply rtc_l; [by eapply (step_addfd H); [apply Hat|]|].
    eapply rtc_l; [eapply (step_record H), Hat; cbn; by rewrite ?length_insert|].
    eapply rtc_once, step_send, Hat. cbn. by rewrite !length_insert.
  - exists r. split; [by eapply answer_of_id|done].
Qed.

(** ** A run *)

Module Demo.

(** A host on which all goes well: descriptor 9 is handed over. *)
#[local] Instance host : ServeHost unit := {|
  bind _ e := (Ok tt, e); accept e := (Ok tt, e); peercred e := (Ok (0, 41)%Z, e);
  set_read_timeout _ e := (Ok tt, e);
  recvmsg e := (Ok (mkMessage (Some (mkControl 1 1 4 [9%Z])) false), e);
  getrlimit e := (Some (1024, 4096)%Z, e); setrlimit _ e := (true, e); try_clone fd e := (Ok (fd + 1)%Z, e);
  spawn e := (Ok tt, e); var _ := None; getuid := 0 |}.

Definition served := serve "/run/s.sock" "/run/broker.log" (mkWorld tt 18 []).

Lemma serve_guards_the_listener_witness :
  acts (snd served) =
    ([Unlink "/run/s.sock"; Bind "/run/s.sock" 63] ++
     handed_over "/run/s.sock" (Ok (mkMessage (Some (mkControl 1 1 4 [9%Z])) false)) ++
     [RaiseNofile 4096; OpenLog "/run/broker.log"] ++ List.concat (replicate 4 [Clone 9 10; Judge 10 77]) ++ [Joined; Unlink "/run/s.sock"])%list /\
  umask (snd served) = 18%Z.
Proof.
  split; [vm_compute; reflexivity|].
  pose proof (serve_guards_the_listener "/run/s.sock" "/run/broker.log" (mkWorld tt 18 []) eq_refl) as H.
  unfold served. destruct (serve _ _ _) as [r w']. exact (proj1 H).
Defined.

Definition other_notif : SeccompNotif := mkNotif 78 (notif_pid sample_notif) (notif_flags sample_notif) (data sample_notif).

(** A notification arrives; judge [i] takes the oldest one that is pending; it goes on by one
    step, on the sample host. *)
Inductive Move := Arrive (n : SeccompNotif) | Recv (i : nat) | Go (i : nat).
Definition move (p : Pool) (m : Move) : Pool :=
  match m with
  | Arrive n =>
      if decide (notif_id n ∈ map notif_id (arrived p)) then p
      else mkPool (arrived p ++ [n]) (gone p) (pending p ++ [n]) (judges p) (plog p) (noted p) (sent p)
  | Recv i =>
      match judges p !! i, pending p with
      | Some (mkJudge Idle c), n :: l =>
          with_judge i (mkJudge (Holding n) c) (mkPool (arrived p) (gone p) l (judges p) (plog p) (noted p) (sent p))
      | _, _ => p
      end
  | Go i =>
      match judges p !! i with
      | Some (mkJudge (Holding n) c) => let '(v, c', _) := @judge sample_host n c in with_judge i (mkJudge (Decided n v) c') p
      | Some (mkJudge (Decided n v) c) =>
          let '(r, errno, reason, _) := @answer_of sample_host (notif_id n) v in with_judge i (mkJudge (Answering v r errno reason) c) p
      | Some (mkJudge (Answering v r errno reason) c) =>
          with_judge i (mkJudge (Recorded r) c)
            (with_log (@record sample_host (plog p) (resp_id r) (v_syscall v) (v_tid v) (v_path v) errno reason) r p)
      | Some (mkJudge (Recorded r) c) => with_judge i (mkJudge Idle c) (with_sent r p)
      | _ => p
      end
  end.


(** Two judges with a notification each: the first tells the log first and sends last. *)
Definition crossing : list Move :=
  [Arrive sample_notif; Arrive other_notif; Recv 0; Recv 1; Go 0; Go 1; Go 0; Go 1; Go 0; Go 1; Go 1].
Definition crossed : Pool := fold_left move crossing (started 2 8 true).


(** The last answer is sent as well: the log has the two in the opposite order. *)
Example log_order_is_not_sending_order :
  let p := move crossed (Go 0) in
  map resp_id (sent p) = [78; 77]%Z /\ option_map (map rec_id) (file (plog p)) = Some [77; 78]%Z.
Proof. vm_compute. auto. Qed.

(** Two descriptors fit in the space that is meant for one, and are refused all the same. *)
Example two_descriptors_are_closed :
  snd (recv_fd (Ok (mkMessage (Some (mkControl 1 1 8 [9; 10]%Z)) false))) = [9; 10]%Z.
Proof. reflexivity. Qed.
End Demo.
End Serve.
