(* ===== verification/Backend.v ===== *)
(** * Zones, containers and the isolation backend's interface

    The data the daemon keeps and hands around ([rauha-common/src/zone.rs],
    [container.rs]), the messages of the shim protocol ([rauha-common/src/shim.rs])
    and the trait [IsolationBackend] of [rauha-common/src/backend.rs].  The trait
    is a class over the backend's state; [BackendContract] says what the
    trait's documentation promises, through a view of which zones are live and
    what is enforced for each. *)

From stdpp Require Import base gmap strings list.
From Stdlib Require Import ZArith Lia.
From S2P Require Import Prelude.
From S2P Require Import RustStr.
From S2P Require Import EnforcerApi.
From S2P Require Import Zone.
Import Zone.

Module Backend.

(** ** Zones

    [Uuid]s are their text and timestamps integers; [f64] is kept abstract as
    the rational text the code never inspects. *)

Record ZoneNetworkState := mkNetState { ip : list Z; gateway : list Z; net_prefix_len : Z }.

Record Zone := mkZone {
  z_id : string; z_name : string; z_zone_type : ZoneType; z_state : ZoneState;
  z_policy : ZonePolicy; z_created_at : Z; z_updated_at : Z;
  z_network_state : option ZoneNetworkState }.

Record ZoneConfig := mkConfig {
  cf_name : string; cf_zone_type : ZoneType; cf_policy : ZonePolicy }.

Record ZoneHandle := mkHandle {
  h_id : string; h_name : string; h_platform_id : Z;
  h_network_state : option ZoneNetworkState }.

Record ZoneStats := mkStats {
  s_zone_id : string; container_count : Z; cpu_usage_percent : string;
  memory_usage_bytes : Z; memory_limit_bytes : Z;
  network_rx_bytes : Z; network_tx_bytes : Z; pids_current : Z }.

Inductive IsolationModel := SyscallPolicy | HardwareBoundary.

Record IsolationCheck := mkCheck { ck_name : string; ck_passed : bool; ck_detail : string }.

Record IsolationReport := mkReport {
  r_zone_id : string; r_model : IsolationModel; is_isolated : bool;
  checks : list IsolationCheck }.

(** ** Containers *)

Inductive ContainerState := Created | Running | Stopped | Paused.
#[global] Instance ContainerState_eq_dec : EqDecision ContainerState.
Proof. solve_decision. Defined.

Record Container := mkContainer {
  c_id : string; c_name : string; c_zone_id : string; c_image : string;
  c_state : ContainerState; c_pid : option Z; c_created_at : Z;
  c_started_at : option Z; c_finished_at : option Z; c_exit_code : option Z }.

Record ContainerHandle := mkCHandle {
  ch_id : string; ch_zone_id : string; ch_pid : Z; ch_platform_id : Z }.

Record ContainerSpec := mkSpec {
  sp_name : string; sp_image : string; sp_command : list string;
  sp_env : list (string * string); sp_working_dir : option string;
  sp_rootfs_path : option string; sp_overlay_layers : option (list string) }.

(** Decidable equality of the records. *)
#[global] Instance CapabilityPolicy_eq_dec : EqDecision CapabilityPolicy. Proof. solve_decision. Defined.
#[global] Instance ResourcePolicy_eq_dec : EqDecision ResourcePolicy. Proof. solve_decision. Defined.
#[global] Instance NetworkPolicy_eq_dec : EqDecision NetworkPolicy. Proof. solve_decision. Defined.
#[global] Instance FilesystemPolicy_eq_dec : EqDecision FilesystemPolicy. Proof. solve_decision. Defined.
#[global] Instance DevicePolicy_eq_dec : EqDecision DevicePolicy. Proof. solve_decision. Defined.
#[global] Instance SyscallPolicy_eq_dec : EqDecision Zone.SyscallPolicy. Proof. solve_decision. Defined.
#[global] Instance ZonePolicy_eq_dec : EqDecision ZonePolicy. Proof. solve_decision. Defined.
#[global] Instance ZoneNetworkState_eq_dec : EqDecision ZoneNetworkState. Proof. solve_decision. Defined.
#[global] Instance Zone_eq_dec : EqDecision Zone. Proof. solve_decision. Defined.
#[global] Instance Container_eq_dec : EqDecision Container. Proof. solve_decision. Defined.

(** ** Shim messages *)

Inductive ShimRequest :=
| CreateContainer (id spec_json : string)
| StartContainer (id : string)
| StopContainer (id : string) (signal : Z)
| Signal (id : string) (signal : Z)
| GetState (id : string)
| Shutdown
| GetStats
| Attach (id : string) (pty : bool)
| Exec (id : string) (command env : list string) (pty : bool)
| ResizePty (id : string) (session_id : option string) (rows cols : Z)
| DeleteContainer (id : string).

Inductive ShimResponse :=
| ROk
| RCreated (pid : Z)
| RState (pid : Z) (status : string) (exit_code : option Z)
| RError (message : string)
| RStats (cpu_usage_ns memory_bytes pids container_count network_rx_bytes network_tx_bytes : Z)
| RAttachReady (socket_path : string) (session_id : option string)
| RExecReady (session_id : option string) (socket_path : string).

(** ** The trait *)

Section Trait.
Context (B : Type).

(** A method of a backend: it may fail, and changes the backend's state. *)
Definition method (A : Type) : Type := B -> result A RauhaError * B.

Class IsolationBackend := {
  create_zone : ZoneConfig -> method ZoneHandle;
  destroy_zone : ZoneHandle -> method unit;
  enforce_policy : ZoneHandle -> ZonePolicy -> method unit;
  hot_reload_policy : ZoneHandle -> ZonePolicy -> method unit;
  create_container : ZoneHandle -> ContainerSpec -> method ContainerHandle;
  start_container : ContainerHandle -> method Z;
  stop_container : ContainerHandle -> method unit;
  zone_stats : ZoneHandle -> method ZoneStats;
  verify_isolation : ZoneHandle -> method IsolationReport;
  recover_zone : ZoneHandle -> ZoneType -> ZonePolicy -> method unit;
  cleanup_orphans : list ZoneHandle -> method unit;
  isolation_model : IsolationModel;
  name : string;
  enforcement_degraded_reason : B -> option string;
  kernel_zone_id : ZoneHandle -> B -> option Z;
  shim_request : string -> ShimRequest -> method ShimResponse }.

(** ** What the trait promises

    [view]: the live zones by id, each with the policy known to be enforced
    for it.  [issued]: every zone id ever handed out (ids are fresh UUIDs). *)
Class BackendContract (I : IsolationBackend) := {
  view : B -> gmap string (option ZonePolicy);
  issued : B -> gset string;

  (** Nothing un-issues an id. *)
  create_issued : forall c b, issued b ⊆ issued (snd (create_zone c b));
  destroy_issued : forall h b, issued b ⊆ issued (snd (destroy_zone h b));
  enforce_issued : forall h p b, issued b ⊆ issued (snd (enforce_policy h p b));
  reload_issued : forall h p b, issued b ⊆ issued (snd (hot_reload_policy h p b));
  recover_issued : forall h t p b, issued b ⊆ issued (snd (recover_zone h t p b));

  (** A created zone has a fresh id; its policy is not enforced yet. *)
  create_ok : forall c b h b', create_zone c b = (Ok h, b') ->
    h_id h ∉ issued b /\ h_id h ∈ issued b';
  create_frame : forall c b id, id ∈ issued b -> view (snd (create_zone c b)) !! id = view b !! id;

  destroy_ok : forall h b b', destroy_zone h b = (Ok tt, b') -> view b' !! h_id h = None;
  destroy_frame : forall h b id, id <> h_id h -> view (snd (destroy_zone h b)) !! id = view b !! id;

  enforce_ok : forall h p b b', enforce_policy h p b = (Ok tt, b') ->
    view b' !! h_id h = Some (Some p);
  enforce_frame : forall h p b id, id <> h_id h ->
    view (snd (enforce_policy h p b)) !! id = view b !! id;

  reload_ok : forall h p b b', hot_reload_policy h p b = (Ok tt, b') ->
    view b' !! h_id h = Some (Some p);
  reload_frame : forall h p b id, id <> h_id h ->
    view (snd (hot_reload_policy h p b)) !! id = view b !! id;

  recover_ok : forall h t p b b', recover_zone h t p b = (Ok tt, b') ->
    view b' !! h_id h = Some (Some p);
  recover_frame : forall h t p b id, id <> h_id h ->
    view (snd (recover_zone h t p b)) !! id = view b !! id;

  (** Orphan cleanup leaves the zones it is told about alone. *)
  cleanup_frame : forall hs b h, h ∈ hs ->
    view (snd (cleanup_orphans hs b)) !! h_id h = view b !! h_id h;
  cleanup_issued : forall hs b, issued b ⊆ issued (snd (cleanup_orphans hs b));

  (** Container operations and queries do not touch zones; they may hand out ids. *)
  create_container_zones : forall h s b,
    let b' := snd (create_container h s b) in view b' = view b /\ issued b ⊆ issued b';
  start_container_zones : forall h b,
    let b' := snd (start_container h b) in view b' = view b /\ issued b ⊆ issued b';
  stop_container_zones : forall h b,
    let b' := snd (stop_container h b) in view b' = view b /\ issued b ⊆ issued b';
  stats_zones : forall h b,
    let b' := snd (zone_stats h b) in view b' = view b /\ issued b ⊆ issued b';
  verify_zones : forall h b,
    let b' := snd (verify_isolation h b) in view b' = view b /\ issued b ⊆ issued b';
  shim_zones : forall n r b,
    let b' := snd (shim_request n r b) in view b' = view b /\ issued b ⊆ issued b' }.

End Trait.

Arguments create_zone {B I} : rename.
Arguments destroy_zone {B I} : rename.
Arguments enforce_policy {B I} : rename.
Arguments hot_reload_policy {B I} : rename.
Arguments create_container {B I} : rename.
Arguments start_container {B I} : rename.
Arguments stop_container {B I} : rename.
Arguments zone_stats {B I} : rename.
Arguments verify_isolation {B I} : rename.
Arguments recover_zone {B I} : rename.
Arguments cleanup_orphans {B I} : rename.
Arguments shim_request {B I} : rename.
Arguments kernel_zone_id {B I} : rename.
Arguments view {B I C} : rename.
Arguments issued {B I C} : rename.
Arguments create_issued {B I C} : rename.
Arguments destroy_issued {B I C} : rename.
Arguments enforce_issued {B I C} : rename.
Arguments reload_issued {B I C} : rename.
Arguments recover_issued {B I C} : rename.
Arguments create_ok {B I C} : rename.
Arguments create_frame {B I C} : rename.
Arguments destroy_ok {B I C} : rename.
Arguments destroy_frame {B I C} : rename.
Arguments enforce_ok {B I C} : rename.
Arguments enforce_frame {B I C} : rename.
Arguments reload_ok {B I C} : rename.
Arguments reload_frame {B I C} : rename.
Arguments recover_ok {B I C} : rename.
Arguments recover_frame {B I C} : rename.
Arguments cleanup_frame {B I C} : rename.
Arguments cleanup_issued {B I C} : rename.
Arguments create_container_zones {B I C} : rename.
Arguments start_container_zones {B I C} : rename.
Arguments stop_container_zones {B I C} : rename.
Arguments stats_zones {B I C} : rename.
Arguments verify_zones {B I C} : rename.
Arguments shim_zones {B I C} : rename.

End Backend.
