(* ===== verification/Metadata.v ===== *)
(** * Zone and container tables

    [rauhad/src/metadata/db.rs]: the two redb tables of the metadata store.
    Values are encoded by [postcard], a parameter; a transaction is atomic, and
    whether redb performs it is an argument of every operation ([None], or the
    text of its error). *)

From stdpp Require Import base gmap strings list fin_maps.
From Stdlib Require Import ZArith Lia.
From S2P Require Import Prelude.
From S2P Require Import EnforcerApi.
From S2P Require Import Zone.
From S2P Require Import Backend.
From S2P Require Import Results.
Import Backend.

Module Metadata.

Notation bytes := (list Z).
Notation table := (gmap string (list Z)).

Class Postcard := {
  zone_to_vec : Zone -> result bytes string;
  zone_from_bytes : bytes -> result Zone string;
  container_to_vec : Container -> result bytes string;
  container_from_bytes : bytes -> result Container string }.

Class PostcardLaws (P : Postcard) := {
  zone_from_to : forall z b, zone_to_vec z = Ok b -> zone_from_bytes b = Ok z;
  container_from_to : forall c b, container_to_vec c = Ok b -> container_from_bytes b = Ok c }.

Section Tables.
Context {P : Postcard}.

Definition put_zone (fault : option string) (zone : Zone) (t : table) : result unit RauhaError * table :=
  match zone_to_vec zone with
  | Err e => (Err (MetadataError e), t)
  | Ok data =>
      match fault with
      | Some e => (Err (MetadataError e), t)
      | None => (Ok tt, <[z_name zone := data]> t)
      end
  end.

(** An undecodable zone is treated as missing. *)
Definition get_zone (fault : option string) (name : string) (t : table) : result (option Zone) RauhaError :=
  match fault with
  | Some e => Err (MetadataError e)
  | None =>
      match t !! name with
      | Some value =>
          match zone_from_bytes value with
          | Ok zone => Ok (Some zone)
          | Err _ => Ok None
          end
      | None => Ok None
      end
  end.

Definition delete_zone (fault : option string) (name : string) (t : table) : result unit RauhaError * table :=
  match fault with
  | Some e => (Err (MetadataError e), t)
  | None => (Ok tt, delete name t)
  end.

(** Undecodable zones are skipped. *)
Definition list_zones (fault : option string) (t : table) : result (list Zone) RauhaError :=
  match fault with
  | Some e => Err (MetadataError e)
  | None => Ok (omap (fun kv => match zone_from_bytes (snd kv) with Ok z => Some z | Err _ => None end)
                  (Results.entries t))
  end.

Definition put_container (fault : option string) (c : Container) (t : table) : result unit RauhaError * table :=
  match container_to_vec c with
  | Err e => (Err (MetadataError e), t)
  | Ok data =>
      match fault with
      | Some e => (Err (MetadataError e), t)
      | None => (Ok tt, <[c_id c := data]> t)
      end
  end.

(** An undecodable container is an error. *)
Definition get_container (fault : option string) (id : string) (t : table)
  : result (option Container) RauhaError :=
  match fault with
  | Some e => Err (MetadataError e)
  | None =>
      match t !! id with
      | Some value => let? c := map_err MetadataError (container_from_bytes value) in Ok (Some c)
      | None => Ok None
      end
  end.

Definition delete_container (fault : option string) (id : string) (t : table) : result unit RauhaError * table :=
  match fault with
  | Some e => (Err (MetadataError e), t)
  | None => (Ok tt, delete id t)
  end.

Fixpoint collect_containers (zone_id : option string) (es : list (string * bytes))
  : result (list Container) RauhaError :=
  match es with
  | [] => Ok []
  | (_, value) :: es' =>
      let? c := map_err MetadataError (container_from_bytes value) in
      let? rest := collect_containers zone_id es' in
      match zone_id with
      | Some zid => if String.eqb (c_zone_id c) zid then Ok (c :: rest) else Ok rest
      | None => Ok (c :: rest)
      end
  end.

Definition list_containers (fault : option string) (zone_id : option string) (t : table)
  : result (list Container) RauhaError :=
  match fault with
  | Some e => Err (MetadataError e)
  | None => collect_containers zone_id (Results.entries t)
  end.

(** ** What the tables hold *)

(** The zone stored under a name; the container stored under an id. *)
Definition stored_zone (t : table) (n : string) : option Zone :=
  b ← t !! n; match zone_from_bytes b with Ok z => Some z | Err _ => None end.
Definition stored_container (t : table) (id : string) : option Container :=
  b ← t !! id; match container_from_bytes b with Ok c => Some c | Err _ => None end.

Lemma get_zone_stored n t : get_zone None n t = Ok (stored_zone t n).
Proof.
  unfold get_zone, stored_zone. destruct (t !! n) as [b|]; simpl; [|done].
  by destruct (zone_from_bytes b).
Qed.

Lemma get_zone_ok f n t z : get_zone f n t = Ok z -> z = stored_zone t n.
Proof. destruct f; [done|]. rewrite get_zone_stored. congruence. Qed.

Lemma get_container_ok f id t c : get_container f id t = Ok (Some c) -> stored_container t id = Some c.
Proof.
  unfold get_container, stored_container. destruct f; [done|]. destruct (t !! id) as [b|]; simpl; [|done].
  destruct (container_from_bytes b); simpl; congruence.
Qed.

Lemma elem_of_entries (t : table) k b : (k, b) ∈ Results.entries t <-> t !! k = Some b.
Proof. rewrite Results.entries_perm. apply elem_of_map_to_list. Qed.

Lemma list_zones_elem f t zs z :
  list_zones f t = Ok zs -> z ∈ zs <-> exists k, stored_zone t k = Some z.
Proof.
  unfold list_zones, stored_zone. destruct f; [done|]. intros [= <-].
  rewrite list_elem_of_omap. split.
  - intros ([k b] & Hin%elem_of_entries & Hb). exists k. rewrite Hin. exact Hb.
  - intros (k & Hk). destruct (t !! k) as [b|] eqn:Hb; [|done]. exists (k, b).
    split; [by apply elem_of_entries|exact Hk].
Qed.

Lemma collect_containers_elem zid es cs c :
  collect_containers zid es = Ok cs ->
  c ∈ cs <-> (exists k b, (k, b) ∈ es /\ container_from_bytes b = Ok c) /\
             from_option (fun z => c_zone_id c = z) True zid.
Proof.
  revert cs. induction es as [|[k b] es IH]; intros cs; simpl.
  - intros [= <-]. rewrite elem_of_nil. split; [done|]. intros [(k & b & H & _) _]. inversion H.
  - destruct (container_from_bytes b) as [c0|] eqn:Hb; simpl; [|done].
    destruct (collect_containers zid es) as [rest|] eqn:Hr; [|done]. specialize (IH rest eq_refl).
    assert (Hsplit : (exists k' b', (k', b') ∈ (k, b) :: es /\ container_from_bytes b' = Ok c) <->
      c = c0 \/ (exists k' b', (k', b') ∈ es /\ container_from_bytes b' = Ok c)).
    { split.
      - intros (k' & b' & [[= -> ->]|Hin]%elem_of_cons & Hc); [left; congruence|right; eauto].
      - intros [->|(k' & b' & Hin & Hc)]; [exists k, b; split; [left|done]|].
        exists k', b'. split; [by right|done]. }
    rewrite Hsplit. destruct zid as [zid|]; [destruct (String.eqb_spec (c_zone_id c0) zid)|];
      intros [= <-]; rewrite ?elem_of_cons, IH; simpl; naive_solver.
Qed.

Lemma list_containers_elem f zid t cs c :
  list_containers f zid t = Ok cs ->
  c ∈ cs <-> (exists id, stored_container t id = Some c) /\
             from_option (fun z => c_zone_id c = z) True zid.
Proof.
  unfold list_containers, stored_container. destruct f; [done|].
  intros H. rewrite (collect_containers_elem _ _ _ c H).
  apply and_iff_compat_r. split.
  - intros (k & b & Hin%elem_of_entries & Hb). exists k. rewrite Hin. simpl. by rewrite Hb.
  - intros (k & Hk). destruct (t !! k) as [b|] eqn:Hb; [|done]. simpl in Hk.
    exists k, b. rewrite elem_of_entries. split; [done|].
    destruct (container_from_bytes b); congruence.
Qed.

Context {PL : PostcardLaws P}.

Lemma put_zone_ok f z t t' :
  put_zone f z t = (Ok tt, t') ->
  exists b, zone_to_vec z = Ok b /\ t' = <[z_name z := b]> t /\
            stored_zone t' (z_name z) = Some z.
Proof.
  unfold put_zone. destruct (zone_to_vec z) as [b|] eqn:Hb; [|done]. destruct f; [done|].
  intros [= <-]. exists b. split_and!; [done..|]. unfold stored_zone.
  rewrite lookup_insert_eq. simpl. by rewrite (zone_from_to _ _ Hb).
Qed.

Lemma put_zone_frame f z t n : n <> z_name z -> snd (put_zone f z t) !! n = t !! n.
Proof.
  intros Hn. unfold put_zone. destruct (zone_to_vec z); [|done]. destruct f; [done|].
  by apply lookup_insert_ne.
Qed.

Lemma put_zone_err f z t e t' : put_zone f z t = (Err e, t') -> t' = t.
Proof. unfold put_zone. destruct (zone_to_vec z); [destruct f|]; congruence. Qed.

Lemma put_container_ok f c t t' :
  put_container f c t = (Ok tt, t') ->
  exists b, container_to_vec c = Ok b /\ t' = <[c_id c := b]> t /\
            stored_container t' (c_id c) = Some c.
Proof.
  unfold put_container. destruct (container_to_vec c) as [b|] eqn:Hb; [|done]. destruct f; [done|].
  intros [= <-]. exists b. split_and!; [done..|]. unfold stored_container.
  rewrite lookup_insert_eq. simpl. by rewrite (container_from_to _ _ Hb).
Qed.

Lemma put_container_err f c t e t' : put_container f c t = (Err e, t') -> t' = t.
Proof. unfold put_container. destruct (container_to_vec c); [destruct f|]; congruence. Qed.

End Tables.

End Metadata.
