(* ===== verification/Registry.v ===== *)
(** * The zone registry

    [rauhad/src/zone/registry.rs]: zone lifecycle and container membership,
    kept in the metadata tables ([Metadata]), two in-memory caches of handles
    and an isolation backend ([Backend]).

    An operation is a function of the world that may fail; a failing operation
    leaves the effects it already had.  Redb transactions, the clock, the file
    system, processes, the image service and the shim's socket are the methods
    of [Env], with a state of their own and no laws: theorems hold whatever
    they answer.  [reachable]: operations run one at a time, as [zone_mutation_lock]
    makes them for creation and deletion.  The others read a zone or a container before
    they take a lock or wait for the shim, and go on with what they read: each is split at
    that point ([_locked], [_found]), and in [served] any number of them are in flight;
    [policy_race_resurrects_id] is what must not happen in between.  Telemetry is left
    out. *)

From stdpp Require Import base gmap strings list fin_maps.
From Stdlib Require Import ZArith Lia Ascii.
From S2P Require Import Prelude StateError RustStr EnforcerApi.
From S2P Require Import RustText.
From S2P Require Import Zone.
From S2P Require Import Shim.
From S2P Require Import Backend.
From S2P Require Import Metadata.
Import Zone Backend.

Module Registry.

Import Str.
Open Scope string_scope.

(** ** The environment *)

(** [std::io::Error] of [remove_dir_all]. *)
Inductive RemoveError := NotFound | OtherIo (text : string).

Class Env (E : Type) := {
  redb : E -> option string * E;
  now : E -> Z * E;
  remove_dir_all : string -> E -> result unit RemoveError * E;
  unmount_overlay : string -> string -> E -> result unit RauhaError * E;
  kill0 : Z -> E -> option Z * E;
  read_to_string : string -> E -> option string * E;
  stat_ino : string -> E -> result Z string * E;
  path_exists : string -> E -> bool * E;
  connect : string -> E -> result unit string * E;
  write_all : string -> list Z -> E -> result unit string * E;
  flush : string -> E -> result unit string * E;
  (** What the peer sends until it closes or the 30 second timeout. *)
  read_stream : string -> E -> list Z * E;
  to_allocvec : ShimRequest -> result (list Z) string;
  from_bytes : list Z -> result ShimResponse string;
  shim_io_text : Shim.ShimIoError (E := string) -> string;
  debug_response : ShimResponse -> string;
  image_safe_name : string -> E -> result string RauhaError * E;
  layer_digests : string -> E -> result (list string * string) RauhaError * E;
  prepare_layers : string -> string -> list string -> string -> E -> result (list string) RauhaError * E }.

(** The paths of the configuration. *)
Record Paths := mkPaths { root : string; run_dir : string }.

Definition ESRCH : Z := 3.

Section Registry.
Context {B E : Type} {I : IsolationBackend B} {V : Env E} {P : Metadata.Postcard}.
Context (paths : Paths).

Record World := mkWorld {
  zones : gmap string (list Z);
  containers : gmap string (list Z);
  handles : gmap string ZoneHandle;
  container_handles : gmap string ContainerHandle;
  backend : B;
  env : E }.

Notation M := (M World RauhaError).

Definition set_zones (t : gmap string (list Z)) (w : World) : World :=
  mkWorld t (containers w) (handles w) (container_handles w) (backend w) (env w).
Definition set_containers (t : gmap string (list Z)) (w : World) : World :=
  mkWorld (zones w) t (handles w) (container_handles w) (backend w) (env w).
Definition set_handles (t : gmap string ZoneHandle) (w : World) : World :=
  mkWorld (zones w) (containers w) t (container_handles w) (backend w) (env w).
Definition set_container_handles (t : gmap string ContainerHandle) (w : World) : World :=
  mkWorld (zones w) (containers w) (handles w) t (backend w) (env w).
Definition set_backend (b : B) (w : World) : World :=
  mkWorld (zones w) (containers w) (handles w) (container_handles w) b (env w).
Definition set_env (e : E) (w : World) : World :=
  mkWorld (zones w) (containers w) (handles w) (container_handles w) (backend w) e.

Definition call {A} (m : method B A) : M A := fun w =>
  let '(r, b) := m (backend w) in (r, set_backend b w).
Definition sys {A} (f : E -> A * E) : M A := fun w =>
  let '(a, e) := f (env w) in (Ok a, set_env e w).
Definition sys_try {A X} (f : E -> result A X * E) (err : X -> RauhaError) : M A := fun w =>
  let '(r, e) := f (env w) in (map_err err r, set_env e w).

(** Transactions on the metadata tables. *)
Definition db_read {A} (f : option string -> World -> result A RauhaError) : M A := fun w =>
  let '(fault, e) := redb (env w) in (f fault w, set_env e w).
Definition db_zones (f : option string -> gmap string (list Z) -> result unit RauhaError * gmap string (list Z))
  : M unit := fun w =>
  let '(fault, e) := redb (env w) in
  let '(r, t) := f fault (zones w) in (r, set_zones t (set_env e w)).
Definition db_containers (f : option string -> gmap string (list Z) -> result unit RauhaError * gmap string (list Z))
  : M unit := fun w =>
  let '(fault, e) := redb (env w) in
  let '(r, t) := f fault (containers w) in (r, set_containers t (set_env e w)).

Definition meta_get_zone (n : string) : M (option Zone) := db_read (fun f w => Metadata.get_zone f n (zones w)).
Definition meta_list_zones : M (list Zone) := db_read (fun f w => Metadata.list_zones f (zones w)).
Definition meta_put_zone (z : Zone) : M unit := db_zones (fun f => Metadata.put_zone f z).
Definition meta_delete_zone (n : string) : M unit := db_zones (fun f => Metadata.delete_zone f n).
Definition meta_get_container (id : string) : M (option Container) :=
  db_read (fun f w => Metadata.get_container f id (containers w)).
Definition meta_list_containers (zid : option string) : M (list Container) :=
  db_read (fun f w => Metadata.list_containers f zid (containers w)).
Definition meta_put_container (c : Container) : M unit := db_containers (fun f => Metadata.put_container f c).
Definition meta_delete_container (id : string) : M unit := db_containers (fun f => Metadata.delete_container f id).

(** ** Zones *)

Definition validate_zone_name (name : string) : result unit RauhaError :=
  if String.eqb name "" then Err (InvalidInput "zone name cannot be empty")
  else if contains_char "/" name || contains_char "\" name || contains_char "000" name
  then Err (InvalidInput "zone name must not contain path separators")
  else if String.eqb name "." || String.eqb name ".."
  then Err (InvalidInput "zone name must not be '.' or '..'")
  else if Nat.ltb 128 (String.length name)
  then Err (InvalidInput "zone name must be 128 characters or fewer")
  else Ok tt.

Definition kernel_zone_id (n : string) (w : World) : option Z :=
  h ← handles w !! n; Backend.kernel_zone_id h (backend w).

Definition create_zone (name : string) (zone_type : ZoneType) (policy : ZonePolicy) : M Zone :=
  do _ <- of_result (validate_zone_name name);
  do existing <- meta_get_zone name;
  match existing with
  | Some _ => fail (ZoneAlreadyExists name)
  | None =>
      do handle <- call (Backend.create_zone (mkConfig name zone_type policy));
      do applied <- attempt (call (Backend.enforce_policy handle policy));
      match applied with
      | Err e => do _ <- attempt (call (Backend.destroy_zone handle)); fail e
      | Ok _ =>
          do t <- sys now;
          let zone := mkZone (h_id handle) name zone_type Ready policy t t (h_network_state handle) in
          do _ <- meta_put_zone zone;
          do _ <- modify (fun w => set_handles (<[name := handle]> (handles w)) w);
          ret zone
      end
  end.

Definition container_logs (id : string) : string :=
  Shim.join_path (Shim.join_path (run_dir paths) "containers") id.

Definition remove_container_logs (id : string) : M unit :=
  do r <- sys (remove_dir_all (container_logs id));
  match r with
  | Ok _ => ret tt
  | Err NotFound => ret tt
  | Err (OtherIo e) => fail (BackendError ("cannot remove container logs: " ++ e))
  end.

(** Forced deletion stops the running containers it has a handle for. *)
Definition stop_if_running (c : Container) : M unit :=
  if bool_decide (c_state c = Running) then
    do hs <- gets container_handles;
    match hs !! c_id c with
    | Some ch => do _ <- attempt (call (Backend.stop_container ch)); ret tt
    | None => ret tt
    end
  else ret tt.

Definition forget_container (c : Container) : M unit :=
  do _ <- remove_container_logs (c_id c);
  do _ <- meta_delete_container (c_id c);
  modify (fun w => set_container_handles (delete (c_id c) (container_handles w)) w).

Definition delete_zone (name : string) (force : bool) : M unit :=
  do found <- meta_get_zone name;
  do zone <- or_fail found (ZoneNotFound name);
  do hs <- gets handles;
  do handle <- or_fail (hs !! name) (BackendError ("zone " ++ name ++ " has no recovered backend handle"));
  do cs <- meta_list_containers (Some (z_id zone));
  if negb (Nat.eqb (List.length cs) 0) && negb force
  then fail (ZoneNotEmpty (Z.of_nat (List.length cs)))
  else
    do _ <- (if force then for_each stop_if_running cs else ret tt);
    do _ <- call (Backend.destroy_zone handle);
    do _ <- for_each forget_container cs;
    do _ <- meta_delete_zone name;
    modify (fun w => set_handles (delete name (handles w)) w).

Definition get_zone (name : string) : M Zone :=
  do found <- meta_get_zone name;
  or_fail found (ZoneNotFound name).

(** What happens under the read lock on the handles, to a zone read before. *)
Definition apply_policy_locked (zone_name : string) (zone : Zone) (policy : ZonePolicy) : M unit :=
  do hs <- gets handles;
  do handle <- or_fail (hs !! zone_name) (ZoneNotFound zone_name);
  do r <- attempt (call (Backend.hot_reload_policy handle policy));
  match r with
  | Err (ZoneNotFound _) => fail (ZoneNotFound zone_name)
  | Err e => fail e
  | Ok _ =>
      do t <- sys now;
      meta_put_zone (mkZone (z_id zone) (z_name zone) (z_zone_type zone) (z_state zone) policy
                       (z_created_at zone) t (z_network_state zone))
  end.

Definition apply_policy (zone_name : string) (policy : ZonePolicy) : M unit :=
  do zone <- get_zone zone_name;
  apply_policy_locked zone_name zone policy.

(** ** Reconciliation at startup *)

Definition resolve_live_cgroup_id (zone_name : string) : M Z :=
  let path := "/sys/fs/cgroup/rauha.slice/zone-" ++ zone_name in
  sys_try (stat_ino path) (fun e => CgroupError ("failed to stat cgroup " ++ path ++ ": " ++ e)
                                      "cgroup may not exist").

Definition recovered_handle (zone : Zone) : ZoneHandle :=
  mkHandle (z_id zone) (z_name zone) 0 (z_network_state zone).

Definition container_handle_of (c : Container) : ContainerHandle :=
  mkCHandle (c_id c) (c_zone_id c) (default 0%Z (c_pid c)) 0.

Definition reconcile_zone (zone : Zone) : M unit :=
  do r <- attempt (call (Backend.recover_zone (recovered_handle zone) (z_zone_type zone) (z_policy zone)));
  match r with
  | Err _ => ret tt
  | Ok _ =>
      do live <- attempt (resolve_live_cgroup_id (z_name zone));
      let handle := match live with
                    | Ok id => mkHandle (z_id zone) (z_name zone) id (z_network_state zone)
                    | Err _ => recovered_handle zone
                    end in
      do _ <- modify (fun w => set_handles (<[z_name zone := handle]> (handles w)) w);
      do cs <- meta_list_containers (Some (z_id zone));
      modify (fun w => set_container_handles
        (foldl (fun hs c => <[c_id c := container_handle_of c]> hs) (container_handles w) cs) w)
  end.

Definition reconcile : M unit :=
  do zs <- meta_list_zones;
  match zs with
  | [] => call (Backend.cleanup_orphans [])
  | _ =>
      do _ <- for_each reconcile_zone zs;
      do _ <- attempt (call (Backend.cleanup_orphans (map recovered_handle zs)));
      ret tt
  end.

(** ** Containers *)

(** On Linux the image's layers are extracted and mounted as an overlay. *)
Definition prepare_rootfs (zone_name : string) (spec : ContainerSpec) : M ContainerSpec :=
  if String.eqb (sp_image spec) "" then ret spec
  else
    do safe_name <- sys_try (image_safe_name (sp_image spec)) id;
    do dc <- sys_try (layer_digests (sp_image spec)) id;
    let zone_data := Shim.join_path (Shim.join_path (root paths) "zones") zone_name in
    do layers <- sys_try (prepare_layers zone_data safe_name (fst dc) (snd dc)) id;
    ret (mkSpec (sp_name spec) (sp_image spec) (sp_command spec) (sp_env spec) (sp_working_dir spec)
           (sp_rootfs_path spec) (Some layers)).

Definition create_container_locked (zone_name : string) (zone : Zone) (spec : ContainerSpec) : M Container :=
  do hs <- gets handles;
  do handle <- or_fail (hs !! zone_name) (ZoneNotFound zone_name);
  do ch <- call (Backend.create_container handle spec);
  do t <- sys now;
  let c := mkContainer (ch_id ch) (sp_name spec) (z_id zone) (sp_image spec) Created
             (Some (ch_pid ch)) t None None None in
  do _ <- meta_put_container c;
  do _ <- modify (fun w => set_container_handles (<[ch_id ch := ch]> (container_handles w)) w);
  ret c.

Definition create_container (zone_name : string) (spec : ContainerSpec) : M Container :=
  do zone <- get_zone zone_name;
  do spec <- prepare_rootfs zone_name spec;
  create_container_locked zone_name zone spec.

(** A stored container and its cached handle. *)
Definition find_container (id : string) : M Container :=
  do found <- meta_get_container id;
  or_fail found (ContainerNotFound id).
Definition find_handle (id : string) : M ContainerHandle :=
  do hs <- gets container_handles;
  or_fail (hs !! id) (ContainerNotFound id).

Definition set_pid (pid : Z) (ch : ContainerHandle) : ContainerHandle :=
  mkCHandle (ch_id ch) (ch_zone_id ch) pid (ch_platform_id ch).

(** What starting, stopping and asking do to a container read before. *)
Definition start_found (id : string) (c : Container) (ch : ContainerHandle) : M unit :=
  do pid <- call (Backend.start_container ch);
  do t <- sys now;
  do _ <- meta_put_container (mkContainer (c_id c) (c_name c) (c_zone_id c) (c_image c) Running
            (Some pid) (c_created_at c) (Some t) (c_finished_at c) (c_exit_code c));
  modify (fun w => set_container_handles (alter (set_pid pid) id (container_handles w)) w).

Definition start_container (id : string) : M unit :=
  do c <- find_container id;
  do ch <- find_handle id;
  start_found id c ch.

Definition stop_found (c : Container) (ch : ContainerHandle) : M unit :=
  do _ <- call (Backend.stop_container ch);
  do t <- sys now;
  meta_put_container (mkContainer (c_id c) (c_name c) (c_zone_id c) (c_image c) Stopped
    (c_pid c) (c_created_at c) (c_started_at c) (Some t) (c_exit_code c)).

Definition stop_container (id : string) : M unit :=
  do c <- find_container id;
  do ch <- find_handle id;
  stop_found c ch.

(** Map iteration order is unspecified; zone ids are unique, so at most one
    entry matches ([ids_unique]). *)
Definition zone_name_for_container (zone_id : string) (w : World) : option string :=
  fst <$> List.find (fun nh => String.eqb (h_id (snd nh)) zone_id) (map_to_list (handles w)).

(** One exchange over the zone's socket. *)
Definition shim_request (zone_name : string) (request : ShimRequest) : M ShimResponse :=
  let path := Shim.join_path (run_dir paths) ("shim-" ++ zone_name ++ ".sock") in
  do there <- sys (path_exists path);
  if there : bool then
    do buf <- (match Shim.encode to_allocvec request with
               | Ok b => ret b
               | Err e => fail (ShimError zone_name ("failed to encode request: " ++ e))
               end);
    do _ <- sys_try (connect path) (fun e => ShimError zone_name ("failed to connect to shim: " ++ e));
    do _ <- sys_try (write_all path buf) (fun e => ShimError zone_name ("failed to send request: " ++ e));
    do _ <- sys_try (flush path) (fun e => ShimError zone_name ("failed to flush: " ++ e));
    do stream <- sys (read_stream path);
    match Shim.decode_from from_bytes stream with
    | Ok (response, _) => ret response
    | Err e => fail (ShimError zone_name ("failed to read response: " ++ shim_io_text e))
    end
  else fail (ShimError zone_name ("shim socket not found at " ++ path)).

(** [finished_at.get_or_insert_with(Utc::now)]: the clock is read only when needed. *)
Definition get_or_now (o : option Z) : M (option Z) :=
  match o with
  | Some t => ret (Some t)
  | None => do t <- sys now; ret (Some t)
  end.

Definition state_found (id : string) (c : Container) : M (string * option Z) :=
  do found <- gets (zone_name_for_container (c_zone_id c));
  do zone_name <- or_fail found (ZoneNotFound (c_zone_id c));
  do response <- shim_request zone_name (GetState id);
  match response with
  | RState _ status exit_code =>
      do _ <- (if String.eqb status "stopped" &&
                  (negb (bool_decide (c_state c = Stopped)) || negb (bool_decide (c_exit_code c = exit_code)))
               then
                 do finished <- get_or_now (c_finished_at c);
                 meta_put_container (mkContainer (c_id c) (c_name c) (c_zone_id c) (c_image c) Stopped
                   (c_pid c) (c_created_at c) (c_started_at c) finished exit_code)
               else ret tt);
      ret (status, exit_code)
  | RError message => fail (ShimError zone_name message)
  | other => fail (ShimError zone_name ("unexpected shim response to GetState: " ++ debug_response other))
  end.

Definition get_container_state (id : string) : M (string * option Z) :=
  do c <- find_container id;
  state_found id c.

(** The shim drops its container, then the overlay is unmounted. *)
Definition shim_delete (zone_name id : string) : M unit :=
  do response <- call (Backend.shim_request zone_name (DeleteContainer id));
  do _ <- (match response with
           | ROk => ret tt
           | response => fail (BackendError ("shim did not delete container: " ++ debug_response response))
           end);
  let zone_data := Shim.join_path (Shim.join_path (root paths) "zones") zone_name in
  let container_root := Shim.join_path (Shim.join_path zone_data "containers") id in
  do _ <- sys (unmount_overlay zone_data container_root);
  ret tt.

Definition delete_container (id : string) (force : bool) : M unit :=
  do c <- find_container id;
  do _ <- (if bool_decide (c_state c = Running)
           then if force then stop_container id
                else fail (BackendError ("container " ++ id ++ " is running, use force to stop it first"))
           else ret tt);
  do found <- gets (zone_name_for_container (c_zone_id c));
  do _ <- (match found with
           | Some zone_name => shim_delete zone_name id
           | None => ret tt
           end);
  do _ <- remove_container_logs id;
  do _ <- modify (fun w => set_container_handles (delete id (container_handles w)) w);
  meta_delete_container id.

Definition is_process_dead (pid : Z) : M bool :=
  do r <- sys (kill0 (as_signed 32 pid));
  if bool_decide (r = Some ESRCH) then ret true
  else
    do status <- sys (read_to_string ("/proc/" ++ show pid ++ "/status"));
    ret (match status with
         | None => false
         | Some text =>
             match List.find (starts_with "State:") (Text.lines text) with
             | Some line => Text.contains_str "Z (zombie)" line || Text.contains_str "X (dead)" line
             | None => false
             end
         end).

Definition maybe_reap_container (c : Container) : M Container :=
  if bool_decide (c_state c = Running) then
    match (p ← c_pid c; if (0 <? p)%Z then Some p else None) with
    | None => ret c
    | Some pid =>
        do dead <- is_process_dead pid;
        if dead : bool then
          do t <- sys now;
          let c' := mkContainer (c_id c) (c_name c) (c_zone_id c) (c_image c) Stopped (c_pid c)
                      (c_created_at c) (c_started_at c) (Some t) (c_exit_code c) in
          do _ <- attempt (meta_put_container c');
          ret c'
        else ret c
    end
  else ret c.

Definition get_container (id : string) : M Container :=
  do c <- find_container id;
  maybe_reap_container c.

Fixpoint reap_all (cs : list Container) : M (list Container) :=
  match cs with
  | [] => ret []
  | c :: cs' => do c' <- maybe_reap_container c; do rest <- reap_all cs'; ret (c' :: rest)
  end.

Definition list_containers (zone_name : option string) : M (list Container) :=
  do cs <- (match zone_name with
            | Some name => do zone <- get_zone name; meta_list_containers (Some (z_id zone))
            | None => meta_list_containers None
            end);
  reap_all cs.

(** ** Queries *)

Definition zone_stats (zone_name : string) : M ZoneStats :=
  do hs <- gets handles;
  do handle <- or_fail (hs !! zone_name) (ZoneNotFound zone_name);
  do stats <- call (Backend.zone_stats handle);
  if (memory_limit_bytes stats =? 0)%Z then
    do r <- attempt (meta_get_zone zone_name);
    ret (match r with
         | Ok (Some zone) =>
             mkStats (s_zone_id stats) (container_count stats) (cpu_usage_percent stats)
               (memory_usage_bytes stats) (memory_limit (resources (z_policy zone)))
               (network_rx_bytes stats) (network_tx_bytes stats) (pids_current stats)
         | _ => stats
         end)
  else ret stats.

Definition verify_isolation (zone_name : string) : M IsolationReport :=
  do hs <- gets handles;
  do handle <- or_fail (hs !! zone_name) (ZoneNotFound zone_name);
  call (Backend.verify_isolation handle).

(** ** Rules for the primitives *)

Lemma wp_call {A} (m : method B A) Q w :
  (forall r b, m (backend w) = (r, b) -> Q r (set_backend b w)) -> wp (call m) Q w.
Proof. unfold wp, call. intros HQ. destruct (m (backend w)) as [r b] eqn:Hm. by apply HQ. Qed.

Lemma wp_sys {A} (f : E -> A * E) Q w :
  (forall a e, Q (Ok a) (set_env e w)) -> wp (sys f) Q w.
Proof. unfold wp, sys. intros HQ. destruct (f (env w)). apply HQ. Qed.

Lemma wp_sys_try {A X} (f : E -> result A X * E) err Q w :
  (forall r e, Q r (set_env e w)) -> wp (sys_try f err) Q w.
Proof. unfold wp, sys_try. intros HQ. destruct (f (env w)). apply HQ. Qed.

Lemma wp_db_read {A} (f : option string -> World -> result A RauhaError) Q w :
  (forall fault e, Q (f fault w) (set_env e w)) -> wp (db_read f) Q w.
Proof. unfold wp, db_read. intros HQ. destruct (redb (env w)). apply HQ. Qed.

Lemma wp_get_zone n Q w :
  (forall err e, Q (Err err) (set_env e w)) ->
  (forall e, Q (Ok (Metadata.stored_zone (zones w) n)) (set_env e w)) ->
  wp (meta_get_zone n) Q w.
Proof.
  intros HE HO. apply wp_db_read. intros [f|] e; [apply HE|]. rewrite Metadata.get_zone_stored. apply HO.
Qed.

Lemma wp_get_container id Q w :
  (forall err e, Q (Err err) (set_env e w)) ->
  (forall c e, from_option (fun c => Metadata.stored_container (containers w) id = Some c) True c ->
     Q (Ok c) (set_env e w)) ->
  wp (meta_get_container id) Q w.
Proof.
  intros HE HO. apply wp_db_read. intros f e.
  destruct (Metadata.get_container f id (containers w)) as [[c|]|err] eqn:Hg; [| |apply HE]; apply HO; [|done].
  by apply Metadata.get_container_ok in Hg.
Qed.

Lemma wp_list_containers zid Q w :
  (forall err e, Q (Err err) (set_env e w)) ->
  (forall cs e, (forall c, c ∈ cs <-> (exists id, Metadata.stored_container (containers w) id = Some c) /\
                                  from_option (fun z => c_zone_id c = z) True zid) ->
     Q (Ok cs) (set_env e w)) ->
  wp (meta_list_containers zid) Q w.
Proof.
  intros HE HO. apply wp_db_read. intros f e.
  destruct (Metadata.list_containers f zid (containers w)) as [cs|err] eqn:Hl; [|apply HE].
  apply HO. intros c. by apply (Metadata.list_containers_elem f).
Qed.

Lemma wp_list_zones Q w :
  (forall err e, Q (Err err) (set_env e w)) ->
  (forall e, let zs := omap (fun kv => match Metadata.zone_from_bytes (snd kv) with
                                       | Ok z => Some z | Err _ => None end)
                            (Results.Results.entries (zones w)) in Q (Ok zs) (set_env e w)) ->
  wp meta_list_zones Q w.
Proof. intros HE HO. apply wp_db_read. intros [f|] e; [apply HE|apply HO]. Qed.

Context {PL : Metadata.PostcardLaws P}.

Lemma wp_put_zone z Q w :
  (forall err e, Q (Err err) (set_env e w)) ->
  (forall b e, Metadata.zone_from_bytes b = Ok z -> Q (Ok tt) (set_zones (<[z_name z := b]> (zones w)) (set_env e w))) ->
  wp (meta_put_zone z) Q w.
Proof.
  intros HE HO. unfold wp, meta_put_zone, db_zones, Metadata.put_zone.
  destruct (redb (env w)) as [f e]. destruct (Metadata.zone_to_vec z) as [b|] eqn:Hb; [|apply (HE _ e)].
  destruct f; [apply (HE _ e)|]. apply HO. by apply Metadata.zone_from_to.
Qed.

Lemma wp_put_container c Q w :
  (forall err e, Q (Err err) (set_env e w)) ->
  (forall b e, Metadata.container_from_bytes b = Ok c ->
     Q (Ok tt) (set_containers (<[c_id c := b]> (containers w)) (set_env e w))) ->
  wp (meta_put_container c) Q w.
Proof.
  intros HE HO. unfold wp, meta_put_container, db_containers, Metadata.put_container.
  destruct (redb (env w)) as [f e]. destruct (Metadata.container_to_vec c) as [b|] eqn:Hb; [|apply (HE _ e)].
  destruct f; [apply (HE _ e)|]. apply HO. by apply Metadata.container_from_to.
Qed.

Lemma wp_delete_zone n Q w :
  (forall err e, Q (Err err) (set_env e w)) ->
  (forall e, Q (Ok tt) (set_zones (delete n (zones w)) (set_env e w))) ->
  wp (meta_delete_zone n) Q w.
Proof.
  intros HE HO. unfold wp, meta_delete_zone, db_zones, Metadata.delete_zone.
  destruct (redb (env w)) as [[f|] e]; [apply (HE _ e)|apply HO].
Qed.

Lemma wp_delete_container id Q w :
  (forall err e, Q (Err err) (set_env e w)) ->
  (forall e, Q (Ok tt) (set_containers (delete id (containers w)) (set_env e w))) ->
  wp (meta_delete_container id) Q w.
Proof.
  intros HE HO. unfold wp, meta_delete_container, db_containers, Metadata.delete_container.
  destruct (redb (env w)) as [[f|] e]; [apply (HE _ e)|apply HO].
Qed.

(** ** Well-formed registries

    Stated over the components so that changes of the environment, which none
    of it mentions, disappear by computation. *)

Context {CT : BackendContract B I}.

Notation stored := Metadata.stored_zone.
Notation stored_c := Metadata.stored_container.

Record wf_parts (Z C : gmap string (list Z)) (H : gmap string ZoneHandle)
    (CH : gmap string ContainerHandle) (iss : gset string) : Prop := {
  (** Every entry of the zone table decodes to a zone of that name. *)
  wf_zone : forall n, is_Some (Z !! n) ->
    exists z, stored Z n = Some z /\ z_name z = n /\ z_id z ∈ iss;
  wf_ids : forall n1 n2 z1 z2, stored Z n1 = Some z1 -> stored Z n2 = Some z2 ->
    z_id z1 = z_id z2 -> n1 = n2;
  (** A cached handle is the handle of the zone stored under its name. *)
  wf_handle : forall n h, H !! n = Some h -> exists z, stored Z n = Some z /\ z_id z = h_id h;
  (** A stored container belongs to a stored zone. *)
  wf_container : forall id, is_Some (C !! id) ->
    exists c, stored_c C id = Some c /\ c_id c = id /\ exists n z, stored Z n = Some z /\ z_id z = c_zone_id c;
  (** A cached container handle is of a stored container. *)
  wf_container_handle : forall id ch, CH !! id = Some ch -> is_Some (C !! id) /\ ch_id ch = id }.

Definition wf (w : World) : Prop :=
  wf_parts (zones w) (containers w) (handles w) (container_handles w) (issued (backend w)).

(** Every cached zone outside [T] is live, under exactly its stored policy. *)
Definition enforced_parts (T : gset string) (Z : gmap string (list Z)) (H : gmap string ZoneHandle)
    (v : gmap string (option ZonePolicy)) : Prop :=
  forall n h, H !! n = Some h -> n ∉ T ->
    exists z, stored Z n = Some z /\ z_id z = h_id h /\ v !! h_id h = Some (Some (z_policy z)).

Definition enforced (T : gset string) (w : World) : Prop :=
  enforced_parts T (zones w) (handles w) (view (backend w)).

Definition Inv (T : gset string) (w : World) : Prop := wf w /\ enforced T w.

Lemma stored_insert Z n b z : Metadata.zone_from_bytes b = Ok z -> stored (<[n := b]> Z) n = Some z.
Proof. intros Hb. unfold stored. rewrite lookup_insert_eq. simpl. by rewrite Hb. Qed.
Lemma stored_insert_ne Z n m b : m <> n -> stored (<[n := b]> Z) m = stored Z m.
Proof. intros Hn. unfold stored. by rewrite lookup_insert_ne. Qed.
Lemma stored_delete Z n : stored (delete n Z) n = None.
Proof. unfold stored. by rewrite lookup_delete_eq. Qed.
Lemma stored_delete_ne Z n m : m <> n -> stored (delete n Z) m = stored Z m.
Proof. intros Hn. unfold stored. by rewrite lookup_delete_ne. Qed.
Lemma stored_is_Some Z n z : stored Z n = Some z -> is_Some (Z !! n).
Proof. unfold stored. destruct (Z !! n); [done|discriminate]. Qed.
Lemma stored_c_insert C id b c : Metadata.container_from_bytes b = Ok c -> stored_c (<[id := b]> C) id = Some c.
Proof. intros Hb. unfold stored_c. rewrite lookup_insert_eq. simpl. by rewrite Hb. Qed.
Lemma stored_c_insert_ne C id m b : m <> id -> stored_c (<[id := b]> C) m = stored_c C m.
Proof. intros Hn. unfold stored_c. by rewrite lookup_insert_ne. Qed.
Lemma stored_c_delete_ne C id m : m <> id -> stored_c (delete id C) m = stored_c C m.
Proof. intros Hn. unfold stored_c. by rewrite lookup_delete_ne. Qed.
Lemma stored_c_is_Some C id c : stored_c C id = Some c -> is_Some (C !! id).
Proof. unfold stored_c. destruct (C !! id); [done|discriminate]. Qed.
Hint Resolve stored_is_Some stored_c_is_Some : core.

Section Parts.
Context (Z C : gmap string (list Z)) (H : gmap string ZoneHandle) (CH : gmap string ContainerHandle).
Context (iss : gset string) (W : wf_parts Z C H CH iss).

Lemma wf_stored n z : stored Z n = Some z -> z_name z = n /\ z_id z ∈ iss.
Proof.
  intros Hz. destruct (wf_zone _ _ _ _ _ W n) as (z' & Hz' & ? & ?); [eauto|].
  assert (z' = z) as -> by congruence. done.
Qed.

Lemma wf_stored_c id c : stored_c C id = Some c ->
  c_id c = id /\ exists n z, stored Z n = Some z /\ z_id z = c_zone_id c.
Proof.
  intros Hc. destruct (wf_container _ _ _ _ _ W id) as (c' & Hc' & ? & ?); [eauto|].
  assert (c' = c) as -> by congruence. done.
Qed.

(** A zone is stored: under a free name with a fresh id, or again under its own. *)
Lemma wf_put_zone n b z iss' :
  Metadata.zone_from_bytes b = Ok z -> z_name z = n -> iss ⊆ iss' -> z_id z ∈ iss' ->
  (z_id z ∉ iss /\ stored Z n = None \/ exists z0, stored Z n = Some z0 /\ z_id z0 = z_id z) ->
  wf_parts (<[n := b]> Z) C H CH iss'.
Proof.
  intros Hb Hn Hsub Hin Hcase.
  assert (Hother : forall m z', m <> n -> stored Z m = Some z' -> z_id z' <> z_id z).
  { intros m z' Hm Hz' Heq. destruct (wf_stored m z' Hz') as [_ Hi].
    destruct Hcase as [[? _]|(z0 & H0 & H0i)]; [by rewrite Heq in Hi|].
    apply Hm, (wf_ids _ _ _ _ _ W m n z' z0); congruence. }
  assert (Hkeep : forall m z', stored Z m = Some z' ->
    exists z'', stored (<[n := b]> Z) m = Some z'' /\ z_id z'' = z_id z').
  { intros m z' Hz'. destruct (decide (m = n)) as [->|Hm].
    - exists z. split; [by apply stored_insert|].
      destruct Hcase as [[_ ?]|(z0 & ? & ?)]; congruence.
    - exists z'. by rewrite stored_insert_ne. }
  split.
  - intros m Hm. destruct (decide (m = n)) as [->|Hne].
    + exists z. split; [by apply stored_insert|done].
    + rewrite lookup_insert_ne in Hm by done. rewrite stored_insert_ne by done.
      destruct (wf_zone _ _ _ _ _ W m Hm) as (z' & ? & ? & ?). exists z'. set_solver.
  - intros n1 n2 z1 z2. destruct (decide (n1 = n)) as [->|H1], (decide (n2 = n)) as [->|H2]; [done|..].
    + rewrite (stored_insert _ _ _ _ Hb), stored_insert_ne by done. intros [= <-] Hz2 Heq.
      destruct (Hother n2 z2 H2 Hz2). done.
    + rewrite (stored_insert _ _ _ _ Hb), stored_insert_ne by done. intros Hz1 [= <-] Heq.
      destruct (Hother n1 z1 H1 Hz1). done.
    + rewrite !stored_insert_ne by done. apply (wf_ids _ _ _ _ _ W).
  - intros m h Hm. destruct (wf_handle _ _ _ _ _ W m h Hm) as (z' & Hz' & Hid).
    destruct (Hkeep m z' Hz') as (z'' & ? & ?). exists z''. split; [done|congruence].
  - intros id Hid. destruct (wf_container _ _ _ _ _ W id Hid) as (c & ? & ? & m & z' & Hz' & Hzi).
    exists c. split_and!; [done..|]. destruct (Hkeep m z' Hz') as (z'' & ? & ?).
    exists m, z''. split; [done|congruence].
  - apply (wf_container_handle _ _ _ _ _ W).
Qed.

Lemma wf_put_handle n h z :
  stored Z n = Some z -> z_id z = h_id h -> wf_parts Z C (<[n := h]> H) CH iss.
Proof.
  intros Hz Hid. destruct W as [W1 W2 W3 W4 W5]. split; [done|done| |done|done].
  intros m h'. destruct (decide (m = n)) as [->|Hm].
  - rewrite lookup_insert_eq. intros [= <-]. eauto.
  - rewrite lookup_insert_ne by done. apply W3.
Qed.

Lemma wf_issued iss' : iss ⊆ iss' -> wf_parts Z C H CH iss'.
Proof.
  intros Hs. destruct W as [W1 W2 W3 W4 W5]. split; [|done..].
  intros n Hn. destruct (W1 n Hn) as (z & ? & ? & ?). exists z. set_solver.
Qed.

Lemma wf_put_container id b c n z :
  Metadata.container_from_bytes b = Ok c -> c_id c = id -> stored Z n = Some z -> z_id z = c_zone_id c ->
  wf_parts Z (<[id := b]> C) H CH iss.
Proof.
  intros Hb Hid Hz Hzi. destruct W as [W1 W2 W3 W4 W5]. split; [done..| |].
  - intros id'. destruct (decide (id' = id)) as [->|Hne].
    + intros _. exists c. split; [by apply stored_c_insert|eauto].
    + rewrite lookup_insert_ne, stored_c_insert_ne by done. apply W4.
  - intros id' ch Hch. destruct (W5 id' ch Hch) as [Hs ?]. split; [|done].
    destruct (decide (id' = id)) as [->|]; [by rewrite lookup_insert_eq|by rewrite lookup_insert_ne].
Qed.

Lemma wf_put_container_handle id ch :
  is_Some (C !! id) -> ch_id ch = id -> wf_parts Z C H (<[id := ch]> CH) iss.
Proof.
  intros Hc Hid. destruct W as [W1 W2 W3 W4 W5]. split; [done..|].
  intros id' ch'. destruct (decide (id' = id)) as [->|Hne].
  - rewrite lookup_insert_eq. intros [= <-]. done.
  - rewrite lookup_insert_ne by done. apply W5.
Qed.

Lemma wf_alter_container_handle id f :
  (forall ch, ch_id (f ch) = ch_id ch) -> wf_parts Z C H (alter f id CH) iss.
Proof.
  intros Hf. destruct W as [W1 W2 W3 W4 W5]. split; [done..|].
  intros id' ch'. destruct (decide (id' = id)) as [->|Hne].
  - rewrite lookup_alter_eq. intros (ch & Hch & ->)%fmap_Some. rewrite Hf. by apply W5.
  - rewrite lookup_alter_ne by done. apply W5.
Qed.

Lemma wf_drop_container_handle id : wf_parts Z C H (delete id CH) iss.
Proof.
  destruct W as [W1 W2 W3 W4 W5]. split; [done..|]. intros id' ch' [_ Hch]%lookup_delete_Some. by apply W5.
Qed.

Lemma wf_drop_container id : CH !! id = None -> wf_parts Z (delete id C) H CH iss.
Proof.
  intros Hn. destruct W as [W1 W2 W3 W4 W5]. split; [done..| |].
  - intros id' [b [Hne Hb]%lookup_delete_Some]. rewrite stored_c_delete_ne by done. eauto.
  - intros id' ch' Hch. destruct (W5 id' ch' Hch) as [? ?]. split; [|done].
    rewrite lookup_delete_ne by congruence. done.
Qed.

Lemma wf_drop_zone n z :
  stored Z n = Some z ->
  (forall id c, stored_c C id = Some c -> c_zone_id c <> z_id z) ->
  wf_parts (delete n Z) C (delete n H) CH iss.
Proof.
  intros Hz Hc. destruct W as [W1 W2 W3 W4 W5]. split.
  - intros m [b [Hne Hb]%lookup_delete_Some]. rewrite stored_delete_ne by done. eauto.
  - intros n1 n2 z1 z2 H1 H2. apply W2.
    + rewrite stored_delete_ne in H1; [done|]. intros ->. by rewrite stored_delete in H1.
    + rewrite stored_delete_ne in H2; [done|]. intros ->. by rewrite stored_delete in H2.
  - intros m h [Hne Hm]%lookup_delete_Some. rewrite stored_delete_ne by done. by apply W3.
  - intros id Hid. destruct (W4 id Hid) as (c & Hcs & ? & m & z' & Hz' & Hzi).
    exists c. split_and!; [done..|]. exists m, z'. rewrite stored_delete_ne; [done|]. intros ->.
    apply (Hc id c Hcs). congruence.
  - done.
Qed.

(** A backend call that only touches zones outside the issued ids, or only the
    zone stored under [n], leaves the other zones enforced. *)
Lemma enforced_issued T v v' :
  (forall id, id ∈ iss -> v' !! id = v !! id) -> enforced_parts T Z H v -> enforced_parts T Z H v'.
Proof.
  intros Hv HE m h Hm HT. destruct (HE m h Hm HT) as (z & Hz & Hid & Hp). exists z.
  split_and!; [done..|]. rewrite Hv; [done|]. rewrite <- Hid. by apply (wf_stored m).
Qed.

Lemma enforced_except T n z v v' :
  stored Z n = Some z -> (forall id, id <> z_id z -> v' !! id = v !! id) ->
  enforced_parts T Z H v -> enforced_parts ({[n]} ∪ T) Z H v'.
Proof.
  intros Hz Hv HE m h Hm HT. destruct (HE m h Hm) as (z' & Hz' & Hid & Hp); [set_solver|]. exists z'.
  split_and!; [done..|]. rewrite Hv; [done|]. rewrite <- Hid. intros Heq.
  assert (m = n) by (apply (wf_ids _ _ _ _ _ W m n z' z); done). set_solver.
Qed.

End Parts.

Lemma enforced_weaken T T' Z H v : T ⊆ T' -> enforced_parts T Z H v -> enforced_parts T' Z H v.
Proof. intros Hs HE n h Hn HT. apply HE; [done|set_solver]. Qed.

(** The zone under [n] is live under its stored policy again. *)
Lemma enforced_cache T Z H v n z h :
  stored Z n = Some z -> z_id z = h_id h -> v !! h_id h = Some (Some (z_policy z)) ->
  enforced_parts ({[n]} ∪ T) Z H v -> enforced_parts (T ∖ {[n]}) Z (<[n := h]> H) v.
Proof.
  intros Hz Hid Hv HE m h'. destruct (decide (m = n)) as [->|Hm].
  - rewrite lookup_insert_eq. intros [= <-] _. eauto.
  - rewrite lookup_insert_ne by done. intros Hh HT. apply HE; [done|set_solver].
Qed.

Lemma enforced_put T Z H v n b z h :
  Metadata.zone_from_bytes b = Ok z -> z_id z = h_id h -> v !! h_id h = Some (Some (z_policy z)) ->
  enforced_parts ({[n]} ∪ T) Z H v -> enforced_parts (T ∖ {[n]}) (<[n := b]> Z) (<[n := h]> H) v.
Proof.
  intros Hb Hid Hv HE. apply (enforced_cache _ _ _ _ _ z); [by apply stored_insert|done..|].
  intros m h' Hm HT. rewrite stored_insert_ne by set_solver. by apply HE.
Qed.

Lemma enforced_drop T Z H v n :
  enforced_parts ({[n]} ∪ T) Z H v -> enforced_parts (T ∖ {[n]}) (delete n Z) (delete n H) v.
Proof.
  intros HE m h [Hne Hm]%lookup_delete_Some HT. rewrite stored_delete_ne by done.
  apply HE; [done|set_solver].
Qed.

Lemma enforced_absent T Z H v n :
  H !! n = None -> enforced_parts ({[n]} ∪ T) Z H v -> enforced_parts T Z H v.
Proof. intros Hn HE m h Hm HT. apply HE; [done|]. intros [->%elem_of_singleton|]%elem_of_union; congruence. Qed.

(** ** Operations *)

Inductive Op :=
| OCreate (name : string) (zone_type : ZoneType) (policy : ZonePolicy)
| ODelete (name : string) (force : bool)
| OApply (name : string) (policy : ZonePolicy)
| OCreateContainer (zone_name : string) (spec : ContainerSpec)
| OStartContainer (id : string)
| OStopContainer (id : string)
| OContainerState (id : string)
| ODeleteContainer (id : string) (force : bool)
| OGetContainer (id : string)
| OListContainers (zone_name : option string)
| OStats (zone_name : string)
| OVerify (zone_name : string).

Definition exec (o : Op) : M unit :=
  match o with
  | OCreate n t p => void (create_zone n t p)
  | ODelete n f => delete_zone n f
  | OApply n p => apply_policy n p
  | OCreateContainer n s => void (create_container n s)
  | OStartContainer id => start_container id
  | OStopContainer id => stop_container id
  | OContainerState id => void (get_container_state id)
  | ODeleteContainer id f => delete_container id f
  | OGetContainer id => void (get_container id)
  | OListContainers n => void (list_containers n)
  | OStats n => void (zone_stats n)
  | OVerify n => void (verify_isolation n)
  end.

(** The zones whose enforcement is in doubt: the last deletion or policy change
    of them that had an effect may have failed half way. *)
Definition doubt (o : Op) (r : result unit RauhaError) (T : gset string) : gset string :=
  match o, r with
  | OCreate n _ _, Ok _ | ODelete n _, Ok _ | OApply n _, Ok _ => T ∖ {[n]}
  | ODelete n _, Err _ | OApply n _, Err _ => {[n]} ∪ T
  | _, _ => T
  end.

(** The registries the daemon can be in: from an empty database, by
    operations, and by restarts, which lose the caches, come back with another
    backend and environment, and reconcile. *)
Definition reboot (b : B) (e : E) (w : World) : World :=
  mkWorld (zones w) (containers w) ∅ ∅ b e.

Inductive reachable : World -> gset string -> Prop :=
| reach_init b e : reachable (mkWorld ∅ ∅ ∅ ∅ b e) ∅
| reach_op o w T : reachable w T -> reachable (snd (exec o w)) (doubt o (fst (exec o w)) T)
| reach_restart w T b e : reachable w T -> issued (backend w) ⊆ issued b ->
    reachable (snd (reconcile (reboot b e w))) ∅.

(** *** Operations in flight

    What an operation has read before it takes a lock or waits; the rest of it works with
    that, whatever happened since. *)
Inductive Pending :=
| PApply (n : string) (policy : ZonePolicy) (z : Zone)
| PRootfs (n : string) (spec : ContainerSpec) (z : Zone)
| PCreate (n : string) (spec : ContainerSpec) (z : Zone)
| PStart (id : string) (c : Container) (ch : ContainerHandle)
| PStop (c : Container) (ch : ContainerHandle)
| PState (id : string) (c : Container)
| PReap (c : Container).

Definition found_with_handle (id : string) : M (Container * ContainerHandle) :=
  do c <- find_container id;
  do ch <- find_handle id;
  ret (c, ch).

Inductive reads (w : World) : list Pending -> World -> Prop :=
| reads_apply n p z w' : get_zone n w = (Ok z, w') -> reads w [PApply n p z] w'
| reads_create n s z w' : get_zone n w = (Ok z, w') -> reads w [PRootfs n s z] w'
| reads_start id c ch w' : found_with_handle id w = (Ok (c, ch), w') -> reads w [PStart id c ch] w'
| reads_stop id c ch w' : found_with_handle id w = (Ok (c, ch), w') -> reads w [PStop c ch] w'
| reads_state id c w' : find_container id w = (Ok c, w') -> reads w [PState id c] w'
| reads_get id c w' : find_container id w = (Ok c, w') -> reads w [PReap c] w'
| reads_list zid cs w' : meta_list_containers zid w = (Ok cs, w') -> reads w (map PReap cs) w'.

(** The rest of the operation; creating a container has two such rests. *)
Definition finish (q : Pending) : M (option Pending) :=
  match q with
  | PApply n p z => do _ <- apply_policy_locked n z p; ret None
  | PRootfs n s z => do s <- prepare_rootfs n s; ret (Some (PCreate n s z))
  | PCreate n s z => do _ <- create_container_locked n z s; ret None
  | PStart id c ch => do _ <- start_found id c ch; ret None
  | PStop c ch => do _ <- stop_found c ch; ret None
  | PState id c => do _ <- state_found id c; ret None
  | PReap c => do _ <- maybe_reap_container c; ret None
  end.

(** Since the reading, the zone's name has not gone to another zone; the zone of the
    container has not been deleted. *)
Definition kept (w : World) (q : Pending) : Prop :=
  match q with
  | PApply n _ z | PRootfs n _ z | PCreate n _ z => forall z', stored (zones w) n = Some z' -> z_id z' = z_id z
  | PStart _ c _ | PStop c _ | PState _ c | PReap c => exists n z, stored (zones w) n = Some z /\ z_id z = c_zone_id c
  end.

Definition left_over (r : result (option Pending) RauhaError) : list Pending :=
  match r with Ok (Some q) => [q] | _ => [] end.

(** Any number of operations in flight, their readings and rests in any order, between
    whole operations and restarts. *)
Inductive served : World -> list Pending -> Prop :=
| served_init b e : served (mkWorld ∅ ∅ ∅ ∅ b e) []
| served_op o w qs : served w qs -> served (snd (exec o w)) qs
| served_read w qs ps w' : served w qs -> reads w ps w' -> served w' (ps ++ qs)
| served_finish w qs1 q qs2 : served w (qs1 ++ q :: qs2) -> kept w q ->
    served (snd (finish q w)) (qs1 ++ left_over (fst (finish q w)) ++ qs2)
| served_restart w qs b e : served w qs -> issued (backend w) ⊆ issued b ->
    served (snd (reconcile (reboot b e w))) [].

Ltac wnorm :=
  unfold Inv, wf, enforced in *;
  cbn [zones containers handles container_handles backend env set_zones set_containers set_handles
       set_container_handles set_backend set_env] in *.

(** One step of symbolic execution. *)
Ltac wstep :=
  lazymatch goal with
  | |- wp (call _) _ _ => apply wp_call; intros [?|?] ? ?
  | |- wp (sys _) _ _ => apply wp_sys; intros ? ?
  | |- wp (sys_try _ _) _ _ => apply wp_sys_try; intros [?|?] ?
  | |- wp (meta_get_zone _) _ _ => apply wp_get_zone; [intros ? ?|intros ?]
  | |- wp (meta_get_container _) _ _ => apply wp_get_container; [intros ? ?|intros ? ? ?]
  | |- wp (meta_list_containers _) _ _ => apply wp_list_containers; [intros ? ?|intros ? ? ?]
  | |- wp (meta_put_zone _) _ _ => apply wp_put_zone; [intros ? ?|intros ? ? ?]
  | |- wp (meta_put_container _) _ _ => apply wp_put_container; [intros ? ?|intros ? ? ?]
  | |- wp (meta_delete_zone _) _ _ => apply wp_delete_zone; [intros ? ?|intros ?]
  | |- wp (meta_delete_container _) _ _ => apply wp_delete_container; [intros ? ?|intros ?]
  | |- _ => wp_step
  end; cbv beta iota zeta.

(** What the contract says of the backend calls made so far. *)
Ltac frame L H := let F := fresh "F" in pose proof L as F; rewrite H in F; cbn [snd] in F.
Ltac frame2 L H :=
  let F := fresh "Fv" in let G := fresh "Fi" in
  pose proof L as F; rewrite H in F; cbn [snd] in F; destruct F as [F G].
Ltac learn :=
  repeat match goal with
  | H : Backend.create_zone ?c ?b = (?r, _) |- _ =>
      frame (create_issued c b) H; frame (create_frame c b) H;
      lazymatch r with Ok _ => destruct (create_ok _ _ _ _ H) | _ => idtac end; clear H
  | H : Backend.destroy_zone ?h ?b = (?r, _) |- _ =>
      frame (destroy_issued h b) H; frame (destroy_frame h b) H;
      lazymatch r with Ok ?u => destruct u; pose proof (destroy_ok _ _ _ H) | _ => idtac end; clear H
  | H : Backend.enforce_policy ?h ?p ?b = (?r, _) |- _ =>
      frame (enforce_issued h p b) H; frame (enforce_frame h p b) H;
      lazymatch r with Ok ?u => destruct u; pose proof (enforce_ok _ _ _ _ H) | _ => idtac end; clear H
  | H : Backend.hot_reload_policy ?h ?p ?b = (?r, _) |- _ =>
      frame (reload_issued h p b) H; frame (reload_frame h p b) H;
      lazymatch r with Ok ?u => destruct u; pose proof (reload_ok _ _ _ _ H) | _ => idtac end; clear H
  | H : Backend.recover_zone ?h ?t ?p ?b = (?r, _) |- _ =>
      frame (recover_issued h t p b) H; frame (recover_frame h t p b) H;
      lazymatch r with Ok ?u => destruct u; pose proof (recover_ok _ _ _ _ _ H) | _ => idtac end; clear H
  | H : Backend.cleanup_orphans ?hs ?b = _ |- _ =>
      frame (cleanup_issued hs b) H; frame (cleanup_frame hs b) H; clear H
  | H : Backend.create_container ?h ?x ?b = _ |- _ => frame2 (create_container_zones h x b) H; clear H
  | H : Backend.start_container ?h ?b = _ |- _ => frame2 (start_container_zones h b) H; clear H
  | H : Backend.stop_container ?h ?b = _ |- _ => frame2 (stop_container_zones h b) H; clear H
  | H : Backend.zone_stats ?h ?b = _ |- _ => frame2 (stats_zones h b) H; clear H
  | H : Backend.verify_isolation ?h ?b = _ |- _ => frame2 (verify_zones h b) H; clear H
  | H : Backend.shim_request ?n ?r ?b = _ |- _ => frame2 (shim_zones n r b) H; clear H
  end.

Lemma create_zone_inv n ty p T w :
  Inv T w ->
  wp (create_zone n ty p) (fun r w' => Inv (match r with Ok _ => T ∖ {[n]} | Err _ => T end) w') w.
Proof.
  intros [W HE]. unfold create_zone. wstep. wstep; [|done].
  wstep. wstep; [done|]. destruct (stored (zones w) n) as [z0|] eqn:Hn; [wstep; done|].
  wstep. wstep; wnorm; learn; rename b into b1.
  2:{ split; [by apply (wf_issued _ _ _ _ _ W)|by apply (enforced_issued _ _ _ _ _ W _ (view (backend w)))]. }
  rename a0 into h.
  assert (Hne : forall id, id ∈ issued (backend w) -> id <> h_id h) by (intros id Hi ->; done).
  assert (Hkeep : forall b, issued b1 ⊆ issued b ->
    (forall id, id <> h_id h -> view b !! id = view b1 !! id) ->
    wf_parts (zones w) (containers w) (handles w) (container_handles w) (issued b) /\
    enforced_parts T (zones w) (handles w) (view b)).
  { intros b Hi Hv. split; [apply (wf_issued _ _ _ _ _ W); set_solver|].
    apply (enforced_issued _ _ _ _ _ W _ (view (backend w))); [|done].
    intros id Hid. rewrite Hv by auto. auto. }
  wstep. wstep. wstep; wnorm; learn; rename b into b2.
  - wstep. wstep. wstep. wstep; wnorm; [by apply Hkeep|].
    wstep. wstep. wstep. wnorm. destruct (Hkeep b2) as [W' HE']; [done..|]. cbn [z_name]. split.
    + apply (wf_put_handle _ _ _ _ _) with
        (z := mkZone (h_id h) n ty Ready p a0 a0 (h_network_state h)); [|by apply stored_insert|done].
      eapply (wf_put_zone _ _ _ _ _ W); [done|done|set_solver|set_solver|by left].
    + eapply enforced_put; [done|done|done|]. eapply enforced_weaken; [|done]. set_solver.
  - wstep. wstep. wstep; wnorm; learn; wstep; wnorm;
      (apply Hkeep; [set_solver|intros id Hid; rewrite F4 by done; auto]).
Qed.
(** Calls that leave everything but the environment and the zones' inner state
    alone. *)
Definition same (w w' : World) : Prop :=
  zones w' = zones w /\ containers w' = containers w /\ handles w' = handles w /\
  container_handles w' = container_handles w /\
  view (backend w') = view (backend w) /\ issued (backend w) ⊆ issued (backend w').

Lemma same_refl w : same w w.
Proof. by split_and!. Qed.

Lemma same_trans w1 w2 w3 : same w1 w2 -> same w2 w3 -> same w1 w3.
Proof. unfold same. intros (?&?&?&?&?&?) (?&?&?&?&?&?). split_and!; [congruence..|]. by etransitivity. Qed.

Lemma same_wf w w' : same w w' -> wf w -> wf w'.
Proof.
  intros (E1 & E2 & E3 & E4 & E5 & Hi) W. unfold wf. rewrite E1, E2, E3, E4. by apply (wf_issued _ _ _ _ _ W).
Qed.

Lemma same_Inv T w w' : same w w' -> Inv T w -> Inv T w'.
Proof.
  intros Hs [W HE]. split; [by apply (same_wf w)|].
  destruct Hs as (E1 & E2 & E3 & E4 & E5 & Hi). unfold enforced. by rewrite E1, E3, E5.
Qed.

Definition quiet {A} (c : M A) : Prop := forall w, wp c (fun _ w' => same w w') w.

Lemma quiet_bind {A C} (c : M A) (k : A -> M C) : quiet c -> (forall a, quiet (k a)) -> quiet (bind c k).
Proof.
  intros Hc Hk w. apply wp_bind. eapply wp_mono; [apply Hc|]. intros [a|e] w' Hs; [|done].
  eapply wp_mono; [apply Hk|]. intros r w'' Hs'. by eapply same_trans.
Qed.

Lemma quiet_for_each {A} (f : A -> M unit) xs : (forall x, quiet (f x)) -> quiet (for_each f xs).
Proof.
  intros Hf. induction xs as [|x xs IH]; [intros w; apply same_refl|]. by apply quiet_bind.
Qed.

Lemma stop_if_running_quiet c : quiet (stop_if_running c).
Proof.
  intros w. unfold stop_if_running. case_bool_decide; [|apply same_refl].
  wstep. wstep. destruct (container_handles w !! c_id c); [|apply same_refl].
  wstep. wstep. wstep; wnorm; learn; by split_and!.
Qed.

Lemma remove_container_logs_quiet id : quiet (remove_container_logs id).
Proof.
  intros w. unfold remove_container_logs. wstep. wstep. destruct a as [[]|[|]]; wstep; by split_and!.
Qed.

(** The loop that forgets a zone's containers. *)
Record forgot (w0 : World) (done_ : list Container) (w : World) : Prop := {
  forgot_wf : wf w;
  forgot_zones : zones w = zones w0;
  forgot_handles : handles w = handles w0;
  forgot_backend : backend w = backend w0;
  forgot_sub : forall id b, containers w !! id = Some b -> containers w0 !! id = Some b;
  forgot_done : forall c, c ∈ done_ -> containers w !! c_id c = None }.

Lemma forget_container_spec w0 ys c w :
  forgot w0 ys w ->
  wp (forget_container c) (fun r w' =>
    match r with
    | Ok _ => forgot w0 (ys ++ [c]) w'
    | Err _ => wf w' /\ zones w' = zones w0 /\ handles w' = handles w0 /\ backend w' = backend w0
    end) w.
Proof.
  intros [W Hz Hh Hb Hsub Hd]. unfold forget_container, remove_container_logs.
  wstep. wstep. wstep.
  assert (Hgo : forall e,
    wp (do _ <- meta_delete_container (c_id c);
        modify (fun w => set_container_handles (delete (c_id c) (container_handles w)) w))
      (fun r w' => match r with
        | Ok _ => forgot w0 (ys ++ [c]) w'
        | Err _ => wf w' /\ zones w' = zones w0 /\ handles w' = handles w0 /\ backend w' = backend w0
        end) (set_env e w)).
  { intros e'. wstep. wstep; [done|]. wstep. wnorm. split; wnorm; [|done..| |].
    - apply wf_drop_container; [by apply wf_drop_container_handle|apply lookup_delete_eq].
    - intros id b [_ ?]%lookup_delete_Some. auto.
    - intros c' [Hc'| ->%list_elem_of_singleton]%elem_of_app; [|apply lookup_delete_eq].
      apply lookup_delete_None. right. by apply Hd. }
  destruct a as [[]|[|]]; wstep; [apply Hgo|apply Hgo|done].
Qed.

Lemma stored_c_sub C C' id c :
  (forall id b, C' !! id = Some b -> C !! id = Some b) -> stored_c C' id = Some c -> stored_c C id = Some c.
Proof.
  intros Hs. unfold stored_c. destruct (C' !! id) as [b|] eqn:Hb; [|done]. by rewrite (Hs _ _ Hb).
Qed.

(** Deleting a zone: refused before anything happened, broken off, or done. *)
Lemma stop_running_quiet (force : bool) cs w :
  wp (if force then for_each stop_if_running cs else ret tt) (fun r w' => is_ok r = true /\ same w w') w.
Proof.
  destruct force; [|split; [done|apply same_refl]].
  unfold wp. split; [|apply quiet_for_each, stop_if_running_quiet].
  revert w. induction cs as [|c cs IH]; intros w; [done|]. cbn [for_each].
  apply (wp_bind (stop_if_running c) (fun _ => for_each stop_if_running cs) (fun r _ => is_ok r = true)).
  unfold stop_if_running. case_bool_decide; [|apply IH].
  wstep. wstep. destruct (container_handles w !! c_id c); [|apply IH].
  wstep. wstep. wstep; apply IH.
Qed.

Lemma delete_zone_spec n force w :
  wf w ->
  wp (delete_zone n force) (fun r w' =>
    match r with
    | Err _ => wf w' /\ zones w' = zones w /\ handles w' = handles w /\
        issued (backend w) ⊆ issued (backend w') /\
        (same w w' \/ exists z, stored (zones w) n = Some z /\
           forall id, id <> z_id z -> view (backend w') !! id = view (backend w) !! id)
    | Ok _ => wf w' /\ exists z h, stored (zones w) n = Some z /\ handles w !! n = Some h /\
        z_id z = h_id h /\
        zones w' = delete n (zones w) /\ handles w' = delete n (handles w) /\
        issued (backend w) ⊆ issued (backend w') /\ view (backend w') !! h_id h = None /\
        (forall id, id <> z_id z -> view (backend w') !! id = view (backend w) !! id) /\
        (force = false -> forall id c, stored_c (containers w) id = Some c -> c_zone_id c <> z_id z) /\
        (forall id c, stored_c (containers w') id = Some c -> c_zone_id c <> z_id z) /\
        (forall id b, containers w' !! id = Some b -> containers w !! id = Some b)
    end) w.
Proof.
  intros W. unfold delete_zone.
  assert (Hs : forall e, same w (set_env e w)) by (intros; by split_and!).
  assert (Hs' : forall e e', same w (set_env e' (set_env e w))) by (intros; by split_and!).
  wstep. wstep; [split_and!; auto|]. wstep. wstep; [|split_and!; auto].
  rename a into z, H into Hz. wstep. wstep. wstep. wstep; [|split_and!; auto].
  rename a into h, H into Hh. wstep. wstep; [split_and!; auto|].
  rename select (forall c, c ∈ cs <-> _) into Hcs.
  destruct (wf_handle _ _ _ _ _ W n h Hh) as (z' & Hz' & Hid). assert (z' = z) as -> by congruence.
  destruct (_ && negb force) eqn:Hforce; [wstep; split_and!; auto|].
  set (w1 := set_env e0 (set_env e w)).
  wstep. eapply wp_mono; [apply (stop_running_quiet force cs)|].
  intros [[]|] w2 [Hok Hs2]; [|done]. clear Hok.
  assert (W2 : wf w2) by by apply (same_wf w1); [|apply (same_wf w)].
  destruct Hs2 as (E1 & E2 & E3 & E4 & E5 & E6). unfold w1 in *. clear w1. wnorm.
  wstep. wstep; wnorm; learn.
  2:{ split_and!; [apply (wf_issued _ _ _ _ _ W2); set_solver|done|done|set_solver|]. right. exists z. split; [done|].
      intros id Hne. rewrite F0 by congruence. by rewrite E5. }
  assert (Hi : issued (backend w) ⊆ issued b) by (by etransitivity).
  set (w3 := set_backend b w2).
  assert (Hv : forall id, id <> z_id z -> view b !! id = view (backend w) !! id).
  { intros id Hne. rewrite F0 by congruence. by rewrite E5. }
  wstep. eapply wp_mono.
  { apply (wp_for_each forget_container (forgot w3)
             (fun w' => wf w' /\ zones w' = zones w3 /\ handles w' = handles w3 /\ backend w' = backend w3)).
    - split; [unfold w3; wnorm; by apply (wf_issued _ _ _ _ _ W2)|done..|].
      intros c Hc. by apply elem_of_nil in Hc.
    - intros ys x zs w4 _ Hforgot. by apply forget_container_spec. }
  intros [[]|err] w4; unfold w3; wnorm.
  2:{ intros (W4 & Z4 & H4 & B4). rewrite Z4, H4, B4. split_and!; [by rewrite Z4, H4, B4 in W4|done|done|exact Hi|].
      right. eauto. }
  intros [W4 Z4 H4 B4 Hsub Hdone]; wnorm.
  wstep. wstep; wnorm.
  { rewrite Z4, H4, B4. split_and!; [by rewrite Z4, H4, B4 in W4|done|done|exact Hi|]. right. eauto. }
  assert (Hnone : forall id c, stored_c (containers w4) id = Some c -> c_zone_id c <> z_id z).
  { intros id c Hc Hzi. assert (Hc0 : stored_c (containers w) id = Some c).
    { eapply stored_c_sub; [|exact Hc]. intros id' b' Hb'. rewrite <- E2. by apply Hsub. }
    destruct (wf_stored_c _ _ _ _ _ W _ _ Hc0) as [Hid' _].
    assert (Hin : c ∈ cs) by (apply Hcs; simpl; eauto).
    apply stored_c_is_Some in Hc as [b' Hb']. rewrite <- Hid', (Hdone c Hin) in Hb'. done. }
  wstep. wnorm. split.
  - rewrite H4. change (wf_parts (delete n (zones w4)) (containers w4) (delete n (handles w2))
                          (container_handles w4) (issued (backend w4))).
    rewrite <- H4. apply (wf_drop_zone _ _ _ _ _ W4 n z); [by rewrite Z4, E1|done].
  - exists z, h. rewrite Z4, H4, B4, E1, E3. split_and!; [done..|exact Hi|done|done| |done|].
    + intros -> id c Hc Hzi. assert (Hin : c ∈ cs) by (apply Hcs; simpl; eauto).
      destruct cs; [by apply elem_of_nil in Hin|done].
    + intros id b' Hb'. rewrite <- E2. by apply Hsub.
Qed.

Lemma delete_zone_inv n force T w :
  Inv T w ->
  wp (delete_zone n force) (fun r w' => Inv (match r with Ok _ => T ∖ {[n]} | Err _ => {[n]} ∪ T end) w') w.
Proof.
  intros [W HE]. eapply wp_mono; [by apply delete_zone_spec|]. intros [[]|err] w'; wnorm.
  - intros (W' & z & h & Hz & Hh & Hid & EZ & EH & Hi & Hv & Hvo & _).
    split; [done|]. rewrite EZ, EH. apply enforced_drop. by eapply (enforced_except _ _ _ _ _ W).
  - intros (W' & EZ & EH & Hi & [Hs|(z & Hz & Hv)]).
    + apply (same_Inv ({[n]} ∪ T) w); [done|]. split; [done|]. wnorm. eapply enforced_weaken; [|done]. set_solver.
    + split; [done|]. rewrite EZ, EH. by eapply (enforced_except _ _ _ _ _ W).
Qed.
(** The locked part of a policy change, for whatever zone was read before. *)
Lemma apply_policy_locked_spec n z p w :
  wp (apply_policy_locked n z p) (fun r w' =>
    containers w' = containers w /\ handles w' = handles w /\ container_handles w' = container_handles w /\
    issued (backend w) ⊆ issued (backend w') /\
    match r with
    | Err _ => zones w' = zones w /\
        (handles w !! n = None /\ view (backend w') = view (backend w) \/
         exists h, handles w !! n = Some h /\
           forall id, id <> h_id h -> view (backend w') !! id = view (backend w) !! id)
    | Ok _ => exists h z' b, handles w !! n = Some h /\
        z_id z' = z_id z /\ z_name z' = z_name z /\ z_policy z' = p /\
        Metadata.zone_from_bytes b = Ok z' /\ zones w' = <[z_name z := b]> (zones w) /\
        view (backend w') !! h_id h = Some (Some p) /\
        (forall id, id <> h_id h -> view (backend w') !! id = view (backend w) !! id)
    end) w.
Proof.
  unfold apply_policy_locked. wstep. wstep. wstep. wstep.
  2:{ split_and!; [done..|]. by left. }
  rename a into h. wstep. wstep. wstep; wnorm; learn; rename b into b1.
  - wstep. wstep. wstep; wnorm; do 4 (split; [done|]).
    + split; [done|]. right. eauto.
    + eexists h, _, b. split_and!; [done| | | |eassumption|done..]; done.
  - destruct e; wstep; wnorm; do 4 (split; [done|]); (split; [done|]; right; eauto).
Qed.

Lemma apply_policy_inv n p T w :
  Inv T w ->
  wp (apply_policy n p) (fun r w' => Inv (match r with Ok _ => T ∖ {[n]} | Err _ => {[n]} ∪ T end) w') w.
Proof.
  intros [W HE]. assert (HE' : enforced ({[n]} ∪ T) w) by (wnorm; eapply enforced_weaken; [|done]; set_solver).
  unfold apply_policy, get_zone. wstep. wstep. wstep; [done|]. wstep; [|done].
  rename select (stored _ _ = Some _) into Hz. rename a into z.
  eapply wp_mono; [apply apply_policy_locked_spec|].
  destruct (wf_stored _ _ _ _ _ W n z Hz) as [Hn _].
  intros [[]|err] w'; wnorm; intros (EC & EH & ECH & Hi & HR).
  - destruct HR as (h & z' & b & Hh & Hid & Hnm & Hp & Hb & EZ & Hv & Hvo).
    destruct (wf_handle _ _ _ _ _ W n h Hh) as (z0 & Hz0 & Hidh). assert (z0 = z) as -> by congruence.
    rewrite EC, EH, ECH, EZ, Hn. split.
    + eapply (wf_put_zone _ _ _ _ _ W); [done|congruence|done| |right; eauto].
      rewrite Hid. apply Hi. by apply (wf_stored _ _ _ _ _ W n).
    + rewrite <- (insert_id (handles w) n h Hh).
      eapply enforced_put; [done|congruence|congruence|].
      eapply (enforced_except _ _ _ _ _ W); [done| |done]. by rewrite Hidh.
  - destruct HR as [EZ HR]. rewrite EC, EH, ECH, EZ. split; [by apply (wf_issued _ _ _ _ _ W)|].
    destruct HR as [[_ ->]|(h & Hh & Hvo)]; [done|].
    destruct (wf_handle _ _ _ _ _ W n h Hh) as (z0 & Hz0 & Hidh). assert (z0 = z) as -> by congruence.
    eapply (enforced_except _ _ _ _ _ W); [done| |done]. by rewrite Hidh.
Qed.

(** ** Containers keep the registry well formed *)

(** The zone of a container is stored. *)
Definition homed (Z : gmap string (list Z)) (c : Container) : Prop :=
  exists n z, stored Z n = Some z /\ z_id z = c_zone_id c.

(** Operations on containers: the zones, their handles and their enforcement
    stay, and the registry stays well formed. *)
Definition tends (w w' : World) : Prop :=
  wf w' /\ zones w' = zones w /\ handles w' = handles w /\
  view (backend w') = view (backend w) /\ issued (backend w) ⊆ issued (backend w').

Lemma tends_refl w : wf w -> tends w w.
Proof. intros W. by split_and!. Qed.
Lemma tends_trans w1 w2 w3 : tends w1 w2 -> tends w2 w3 -> tends w1 w3.
Proof. intros (?&?&?&?&?) (?&?&?&?&?). split_and!; [done|congruence..|]. by etransitivity. Qed.
Lemma tends_Inv T w w' : tends w w' -> Inv T w -> Inv T w'.
Proof. intros (W & E1 & E2 & E3 & E4) [_ HE]. split; [done|]. unfold enforced. by rewrite E1, E2, E3. Qed.
Lemma same_tends w w' : same w w' -> wf w -> tends w w'.
Proof. intros Hs W. split; [by apply (same_wf w)|]. by destruct Hs as (?&?&?&?&?&?). Qed.

Definition tending {A} (c : M A) : Prop := forall w, wf w -> wp c (fun _ w' => tends w w') w.

Lemma quiet_tending {A} (c : M A) : quiet c -> tending c.
Proof. intros Hc w W. eapply wp_mono; [apply Hc|]. intros r w' Hs. by apply same_tends. Qed.

Lemma tending_bind {A C} (c : M A) (k : A -> M C) :
  tending c -> (forall a, tending (k a)) -> tending (bind c k).
Proof.
  intros Hc Hk w W. apply wp_bind. eapply wp_mono; [by apply Hc|]. intros [a|e] w' Hs; [|done].
  eapply wp_mono; [apply Hk, Hs|]. intros r w'' Hs'. by eapply tends_trans.
Qed.

Lemma put_container_tends c w :
  wf w -> homed (zones w) c -> wp (meta_put_container c) (fun _ w' => tends w w') w.
Proof.
  intros W (n & z & Hz & Hzi). wstep; [by apply same_tends; [split_and!|]|].
  split_and!; [|done..]. wnorm. by eapply (wf_put_container _ _ _ _ _ W).
Qed.

Lemma find_container_wp id w (Q : result Container RauhaError -> World -> Prop) :
  wf w ->
  (forall err e, Q (Err err) (set_env e w)) ->
  (forall c e, c_id c = id -> stored_c (containers w) id = Some c -> homed (zones w) c ->
     Q (Ok c) (set_env e w)) ->
  wp (find_container id) Q w.
Proof.
  intros W HE HO. unfold find_container. wstep. wstep; [apply HE|]. wstep; [|apply HE].
  subst. simpl in *. destruct (wf_stored_c _ _ _ _ _ W _ _ H) as [Hid Hhome]. by apply HO.
Qed.

(** A backend call that may have handed out ids keeps the registry well formed. *)
Ltac widen W :=
  match goal with F : issued _ ⊆ issued _ |- _ =>
    let W1 := fresh in pose proof (wf_issued _ _ _ _ _ W _ F) as W1; clear W; rename W1 into W
  end.

Ltac settle := repeat first [wstep | by split_and!].

Lemma prepare_rootfs_quiet n s : quiet (prepare_rootfs n s).
Proof.
  intros w. unfold prepare_rootfs. destruct (String.eqb _ _); settle.
Qed.

Lemma shim_request_quiet n r : quiet (shim_request n r).
Proof.
  intros w. unfold shim_request. wstep. wstep. destruct a; [|settle].
  wstep. destruct (Shim.encode _ _); settle.
  destruct (Shim.decode_from _ _) as [[? ?]|]; settle.
Qed.

Lemma shim_delete_quiet n id : quiet (shim_delete n id).
Proof.
  intros w. unfold shim_delete. wstep. wstep; wnorm; learn; [|settle].
  wstep. destruct a; settle.
Qed.

Lemma is_process_dead_quiet pid : quiet (is_process_dead pid).
Proof.
  intros w. unfold is_process_dead. wstep. wstep. case_bool_decide; settle.
Qed.

Lemma create_container_locked_tends n z s w : wf w ->
  (forall z', stored (zones w) n = Some z' -> z_id z' = z_id z) ->
  wp (create_container_locked n z s) (fun _ w' => tends w w') w.
Proof.
  intros W Hsame. unfold create_container_locked. wstep. wstep. wstep. wstep; [|by apply same_tends; [split_and!|]].
  rename select (handles w !! n = Some _) into Hh. destruct (wf_handle _ _ _ _ _ W n _ Hh) as (z' & Hz' & _).
  pose proof (Hsame _ Hz') as Hid. wstep. wstep; wnorm; learn; widen W; [|by split_and!].
  wstep. wstep. wstep. wstep; wnorm; [by split_and!|].
  wstep. wstep. wstep. split_and!; wnorm; [|done..].
  apply wf_put_container_handle; [|by rewrite lookup_insert_eq|done].
  by eapply (wf_put_container _ _ _ _ _ W).
Qed.

Lemma create_container_tending n s : tending (create_container n s).
Proof.
  intros w W. unfold create_container, get_zone.
  wstep. wstep. wstep; [by apply same_tends; [split_and!|]|].
  wstep; [|by apply same_tends; [split_and!|]].
  rename select (stored _ _ = Some _) into Hz. rename a into z.
  wstep. eapply wp_mono; [apply prepare_rootfs_quiet|]. intros [s'|err] w' Hs.
  2:{ apply same_tends; [|done]. eapply same_trans; [|exact Hs]. by split_and!. }
  assert (Ht : tends w w').
  { apply same_tends; [|done]. eapply same_trans; [|exact Hs]. by split_and!. }
  eapply wp_mono; [apply create_container_locked_tends; [apply Ht|]|].
  - intros z'. destruct Ht as (_ & -> & _). cbn. congruence.
  - intros r w2 Ht2. by eapply tends_trans.
Qed.

(** Starting a container: the record says running, under the backend's pid,
    and so does the cached handle. *)
Lemma start_container_spec id w :
  wf w ->
  wp (start_container id) (fun r w' => tends w w' /\
    (forall id', id' <> id -> containers w' !! id' = containers w !! id') /\
    match r with
    | Ok _ => exists c ch pid t, stored_c (containers w) id = Some c /\
        container_handles w !! id = Some ch /\
        fst (Backend.start_container ch (backend w)) = Ok pid /\
        stored_c (containers w') id = Some (mkContainer id (c_name c) (c_zone_id c) (c_image c) Running
          (Some pid) (c_created_at c) (Some t) (c_finished_at c) (c_exit_code c)) /\
        container_handles w' !! id = Some (set_pid pid ch)
    | Err _ => containers w' = containers w /\ container_handles w' = container_handles w
    end) w.
Proof.
  intros W. unfold start_container, start_found, find_handle.
  assert (Hs : forall e, tends w (set_env e w)) by (intros; apply same_tends; [by split_and!|done]).
  wstep. apply find_container_wp; [done|intros; split_and!; done|]. intros c e Hid Hc Hhome.
  wstep. wstep. wstep. wstep; [|split_and!; done]. rename a into ch, H into Hch.
  wstep. wstep; wnorm; pose proof (f_equal fst H) as Hstart; learn; widen W.
  2:{ split_and!; done. }
  rename a into pid. wstep. wstep. wstep. wstep; wnorm.
  { split_and!; done. }
  rewrite Hid in *. wstep. wnorm. split; [|split].
  - split_and!; try done; wnorm. apply wf_alter_container_handle; [|done].
    destruct Hhome as (n & z & Hz & Hzi). by eapply (wf_put_container _ _ _ _ _ W).
  - intros id' Hne. by rewrite lookup_insert_ne.
  - exists c, ch, pid, a. split_and!; [done..| |].
    + by apply stored_c_insert.
    + by rewrite lookup_alter_eq, Hch.
Qed.

Lemma stop_container_spec id w :
  wf w ->
  wp (stop_container id) (fun r w' => tends w w' /\ container_handles w' = container_handles w /\
    (forall id', id' <> id -> containers w' !! id' = containers w !! id') /\
    match r with
    | Ok _ => exists c t, stored_c (containers w) id = Some c /\
        stored_c (containers w') id = Some (mkContainer id (c_name c) (c_zone_id c) (c_image c) Stopped
          (c_pid c) (c_created_at c) (c_started_at c) (Some t) (c_exit_code c))
    | Err _ => containers w' = containers w
    end) w.
Proof.
  intros W. unfold stop_container, stop_found, find_handle.
  assert (Hs : forall e, tends w (set_env e w)) by (intros; apply same_tends; [by split_and!|done]).
  wstep. apply find_container_wp; [done|intros; split_and!; done|]. intros c e Hid Hc Hhome.
  wstep. wstep. wstep. wstep; [|split_and!; done].
  wstep. wstep; wnorm; learn; widen W.
  2:{ split_and!; done. }
  wstep. wstep. wstep; wnorm.
  { split_and!; done. }
  rewrite Hid in *. split; [|split; [done|split]].
  - split_and!; try done; wnorm.
    destruct Hhome as (n & z & Hz & Hzi). by eapply (wf_put_container _ _ _ _ _ W).
  - intros id' Hne. by rewrite lookup_insert_ne.
  - eexists c, _. split; [done|]. by apply stored_c_insert.
Qed.

Lemma get_or_now_wp o w (Q : result (option Z) RauhaError -> World -> Prop) :
  (forall t e, (forall t0, o = Some t0 -> t = t0) -> Q (Ok (Some t)) (set_env e w)) ->
  wp (get_or_now o) Q w.
Proof.
  intros HQ. destruct o as [t|]; simpl.
  - wstep. pose proof (HQ t (env w)) as Hq. destruct w. apply Hq. congruence.
  - wstep. wstep. wstep. by apply HQ.
Qed.

(** Asking for a container's state: a reported exit is on record afterwards. *)
Lemma get_container_state_spec id w :
  wf w ->
  wp (get_container_state id) (fun r w' => tends w w' /\ container_handles w' = container_handles w /\
    (forall id', id' <> id -> containers w' !! id' = containers w !! id') /\
    match r with
    | Ok (status, exit_code) =>
        exists c c', stored_c (containers w) id = Some c /\ stored_c (containers w') id = Some c' /\
          (status = "stopped" -> c_state c' = Stopped /\ c_exit_code c' = exit_code /\
             forall t, c_finished_at c = Some t -> c_finished_at c' = Some t) /\
          (status <> "stopped" -> c' = c)
    | Err _ => containers w' = containers w
    end) w.
Proof.
  intros W. unfold get_container_state, state_found.
  assert (Hs : forall w', same w w' -> tends w w' /\ container_handles w' = container_handles w /\
    (forall id', id' <> id -> containers w' !! id' = containers w !! id') /\ containers w' = containers w).
  { intros w' Hs. split; [by apply same_tends|]. destruct Hs as (?&E2&?&E4&?&?).
    split_and!; [done| |done]. intros. by rewrite E2. }
  wstep. apply find_container_wp; [done|intros; by apply Hs; split_and!|]. intros c e Hid Hc Hhome.
  wstep. wstep. wstep. wstep; [|by apply Hs; split_and!].
  wstep. eapply wp_mono; [apply shim_request_quiet|]. intros [resp|err] w1 Hsame.
  2:{ apply Hs. eapply same_trans; [|exact Hsame]. by split_and!. }
  assert (Hsame' : same w w1) by (eapply same_trans; [|exact Hsame]; by split_and!). clear Hsame.
  destruct (Hs w1 Hsame') as (Ht & ECH & Hoth & EC).
  destruct resp as [| |pid status code|err| | |]; try (wstep; by split_and!).
  assert (Hc1 : stored_c (containers w1) id = Some c) by (by rewrite EC).
  wstep. destruct (String.eqb status "stopped") eqn:Hst; simpl.
  2:{ wstep. wstep. apply String.eqb_neq in Hst. split_and!; try done; try apply Ht. exists c, c. by split_and!. }
  apply String.eqb_eq in Hst as ->.
  destruct (negb _ || negb _) eqn:Hneed; wstep.
  2:{ wstep. reflect_bools. split_and!; try done; try apply Ht. exists c, c. by split_and!. }
  apply get_or_now_wp. intros t e' Ht0. wstep; wnorm; [by split_and!; [apply Ht..|done| |]|].
  rewrite Hid in *. wstep. wnorm. split; [|split; [done|split]].
  - destruct Ht as (W1 & E1 & E2 & E3 & E4). split_and!; wnorm; try done.
    destruct Hhome as (n & z & Hz & Hzi). rewrite <- E1 in Hz. by eapply (wf_put_container _ _ _ _ _ W1).
  - intros id' Hne. rewrite lookup_insert_ne by done. by rewrite EC.
  - eexists c, _. split; [done|]. split; [by apply stored_c_insert|]. split; [|done].
    intros _. split_and!; [done..|]. simpl. intros t0 Hf. f_equal. by apply Ht0.
Qed.

Lemma find_container_quiet id : quiet (find_container id).
Proof. intros w. unfold find_container. settle. Qed.

Lemma gets_quiet {A} (f : World -> A) : quiet (gets f).
Proof. intros w. settle. Qed.

Lemma fail_quiet {A} e : quiet (A := A) (fail e).
Proof. intros w. settle. Qed.

Lemma ret_quiet {A} (a : A) : quiet (ret a).
Proof. intros w. settle. Qed.

Lemma attempt_tending {A} (c : M A) : tending c -> tending (attempt c).
Proof. intros Hc w W. wstep. by apply Hc. Qed.

Hint Resolve quiet_tending find_container_quiet gets_quiet fail_quiet ret_quiet prepare_rootfs_quiet
  shim_request_quiet shim_delete_quiet is_process_dead_quiet remove_container_logs_quiet : tending.

Lemma start_container_tending id : tending (start_container id).
Proof. intros w W. eapply wp_mono; [by apply start_container_spec|]. by intros r w' [? _]. Qed.
Lemma stop_container_tending id : tending (stop_container id).
Proof. intros w W. eapply wp_mono; [by apply stop_container_spec|]. by intros r w' [? _]. Qed.
Lemma get_container_state_tending id : tending (get_container_state id).
Proof. intros w W. eapply wp_mono; [by apply get_container_state_spec|]. by intros r w' [? _]. Qed.
Hint Resolve start_container_tending stop_container_tending get_container_state_tending : tending.

Lemma drop_record_tending id :
  tending (do _ <- modify (fun w => set_container_handles (delete id (container_handles w)) w);
           meta_delete_container id).
Proof.
  intros w W. pose proof (wf_drop_container_handle _ _ _ _ _ W id) as W1. wstep. wstep. wstep; wnorm.
  - by split_and!.
  - split_and!; [|done..]. wnorm. apply wf_drop_container; [done|apply lookup_delete_eq].
Qed.

Lemma delete_container_tending id force : tending (delete_container id force).
Proof.
  apply tending_bind; [auto with tending|]. intros c.
  apply tending_bind; [case_bool_decide; [destruct force|]; auto with tending|]. intros _.
  apply tending_bind; [auto with tending|]. intros found.
  apply tending_bind; [destruct found; auto with tending|]. intros _.
  apply tending_bind; [auto with tending|]. intros _. apply drop_record_tending.
Qed.

(** A deleted container leaves neither record nor handle. *)
Lemma delete_container_gone id force w w' :
  delete_container id force w = (Ok tt, w') ->
  containers w' !! id = None /\ container_handles w' !! id = None /\
  (force = false -> forall c, stored_c (containers w) id = Some c -> c_state c <> Running).
Proof.
  assert (Hwp : wp (delete_container id force) (fun r w' =>
    match r with
    | Ok _ => containers w' !! id = None /\ container_handles w' !! id = None /\
        (force = false -> forall c, stored_c (containers w) id = Some c -> c_state c <> Running)
    | Err _ => True
    end) w).
  { unfold delete_container, find_container. wstep. wstep. wstep; [done|]. wstep; [|done]. subst.
    simpl in *. rename a into c. wstep.
    eapply (wp_mono _ (fun r _ => is_ok r = true -> force = false -> c_state c <> Running)).
    { case_bool_decide as Hrun; [destruct force; [by unfold wp|by wstep]|by wstep]. }
    intros [[]|] w1 Hf; [|done]. wstep. wstep. wstep.
    eapply (wp_mono _ (fun _ _ => True)); [done|]. intros [[]|] w2 _; [|done].
    wstep. eapply (wp_mono _ (fun _ _ => True)); [done|]. intros [[]|] w3 _; [|done].
    wstep. wstep. wstep; [done|]. wnorm. rewrite !lookup_delete_eq. split_and!; [done..|].
    intros Hforce c' Hc'. assert (c' = c) as -> by congruence. by apply Hf. }
  unfold wp in Hwp. by destruct (delete_container id force w) as [r w1]; intros [= -> ->].
Qed.

Lemma maybe_reap_tends c w :
  wf w -> homed (zones w) c -> wp (maybe_reap_container c) (fun _ w' => tends w w') w.
Proof.
  intros W Hc. unfold maybe_reap_container. case_bool_decide; [|by apply tends_refl].
  destruct (_ ≫= _) as [pid|]; [|by apply tends_refl].
  wstep. eapply wp_mono; [apply is_process_dead_quiet|]. intros [dead|err] w1 Hs; [|by apply same_tends].
  destruct dead; [|by apply same_tends].
  pose proof (same_tends _ _ Hs W) as Ht. wstep. wstep. wstep. wstep.
  eapply wp_mono.
  { apply put_container_tends.
    - apply Ht.
    - destruct Ht as (_ & E1 & _). unfold homed. cbn. by rewrite E1. }
  intros r w2 Ht2. wstep. eapply tends_trans; [exact Ht|]. eapply tends_trans; [|exact Ht2].
  apply same_tends; [by split_and!|apply Ht].
Qed.

Lemma get_container_tending id : tending (get_container id).
Proof.
  intros w W. unfold get_container. wstep.
  apply find_container_wp; [done|intros; by apply same_tends; [split_and!|]|].
  intros c e _ _ Hhome. eapply wp_mono; [by apply maybe_reap_tends|]. done.
Qed.

Lemma reap_all_tends cs w :
  wf w -> Forall (homed (zones w)) cs -> wp (reap_all cs) (fun _ w' => tends w w') w.
Proof.
  revert w. induction cs as [|c cs IH]; intros w W Hcs; [by apply tends_refl|].
  inversion Hcs; subst. cbn [reap_all]. wstep. eapply wp_mono; [by apply maybe_reap_tends|].
  intros [c'|err] w1 Ht; [|done]. wstep.
  destruct Ht as (W1 & E1 & Ht). eapply wp_mono; [apply IH; [done|by rewrite E1]|].
  intros [rest|err] w2 Ht2; [wstep|]; (eapply tends_trans; [by split; [exact W1|split; [exact E1|exact Ht]]|done]).
Qed.

Lemma list_containers_tending n : tending (list_containers n).
Proof.
  intros w W. unfold list_containers. wstep.
  eapply (wp_mono _ (fun r w' => same w w' /\ forall cs, r = Ok cs -> Forall (homed (zones w)) cs)).
  { assert (Hh : forall zid w', zones w' = zones w -> containers w' = containers w -> same w w' ->
      wp (meta_list_containers zid) (fun r w'' => same w w'' /\ forall cs, r = Ok cs -> Forall (homed (zones w)) cs) w').
    { intros zid w' EZ EC Hs. wstep; (split; [eapply same_trans; [exact Hs|]; by split_and!|]); [done|].
      intros cs' [= <-]. apply Forall_forall. intros c [[id Hc] _]%H.
      rewrite EC in Hc. by apply (wf_stored_c _ _ _ _ _ W) in Hc as [_ ?]. }
    destruct n as [n|]; [|by apply Hh].
    unfold get_zone. wstep. wstep. wstep; [by split; [split_and!|]|]. wstep; [|by split; [split_and!|]].
    by apply Hh. }
  intros [cs|err] w1 [Hs Hcs]; [|by apply same_tends].
  pose proof (same_tends _ _ Hs W) as Ht. eapply wp_mono.
  { apply reap_all_tends; [apply Ht|]. destruct Ht as (_ & -> & _). by apply Hcs. }
  intros r w2 Ht2. by eapply tends_trans.
Qed.

Lemma zone_stats_quiet n : quiet (zone_stats n).
Proof.
  intros w. unfold zone_stats. wstep. wstep. wstep. wstep; [|settle].
  wstep. wstep; wnorm; learn; [|settle]. destruct (_ =? _)%Z; settle.
Qed.

Lemma verify_isolation_quiet n : quiet (verify_isolation n).
Proof.
  intros w. unfold verify_isolation. wstep. wstep. wstep. wstep; [|settle].
  wstep; wnorm; learn; settle.
Qed.

Lemma void_tending {A} (c : M A) : tending c -> tending (void c).
Proof. intros Hc. apply tending_bind; [done|]. auto with tending. Qed.

Hint Resolve create_container_tending delete_container_tending get_container_tending
  list_containers_tending zone_stats_quiet verify_isolation_quiet void_tending : tending.

(** ** Reconciliation *)

(** What the loop of [reconcile] keeps: only zones already visited are cached,
    and every cached zone is enforced. *)
Record reconciling (w0 : World) (ys : list Zone) (w : World) : Prop := {
  rec_wf : wf w;
  rec_zones : zones w = zones w0;
  rec_containers : containers w = containers w0;
  rec_enforced : enforced ∅ w;
  rec_visited : forall n h, handles w !! n = Some h -> exists z, z ∈ ys /\ z_name z = n }.

Lemma wf_reconciled_containers Z C H CH iss cs :
  wf_parts Z C H CH iss -> (forall c, c ∈ cs -> is_Some (C !! c_id c)) ->
  wf_parts Z C H (foldl (fun hs c => <[c_id c := container_handle_of c]> hs) CH cs) iss.
Proof.
  revert CH. induction cs as [|c cs IH]; intros CH W Hcs; [done|]. simpl. apply IH.
  - apply (wf_put_container_handle _ _ _ _ _ W); [apply Hcs; left|done].
  - intros c' Hc'. apply Hcs. by right.
Qed.

Lemma reconcile_zone_spec w0 ys z w :
  stored (zones w0) (z_name z) = Some z -> (forall y, y ∈ ys -> z_name y <> z_name z) ->
  reconciling w0 ys w ->
  wp (reconcile_zone z) (fun r w' =>
    match r with
    | Ok _ => reconciling w0 (ys ++ [z]) w'
    | Err _ => Inv ∅ w'
    end) w.
Proof.
  intros Hz Hnew [W EZ EC HE Hvis]. rewrite <- EZ in Hz.
  assert (Habs : handles w !! z_name z = None).
  { destruct (handles w !! z_name z) as [h|] eqn:Hh; [|done].
    destruct (Hvis _ _ Hh) as (y & Hy & Hn). by destruct (Hnew y Hy). }
  assert (Hgrow : forall n h, handles w !! n = Some h -> exists z', z' ∈ (ys ++ [z])%list /\ z_name z' = n).
  { intros n h Hh. destruct (Hvis n h Hh) as (y & ? & ?). exists y. rewrite elem_of_app. auto. }
  unfold reconcile_zone. wstep. wstep. wstep; wnorm; learn; rename b into b1; cbn [h_id recovered_handle] in *.
  2:{ wstep. split; wnorm; [by apply (wf_issued _ _ _ _ _ W)|done|done| |done].
      eapply enforced_absent; [exact Habs|]. by eapply (enforced_except _ _ _ _ _ W). }
  set (Q := fun (r : result unit RauhaError) (w' : World) =>
    match r with Ok _ => reconciling w0 (ys ++ [z]) w' | Err _ => Inv ∅ w' end).
  assert (Hcache : forall handle e, h_id handle = z_id z ->
    wp (do _ <- modify (fun w => set_handles (<[z_name z := handle]> (handles w)) w);
        do cs <- meta_list_containers (Some (z_id z));
        modify (fun w => set_container_handles
          (foldl (fun hs c => <[c_id c := container_handle_of c]> hs) (container_handles w) cs) w))
      Q (set_env e (set_backend b1 w))).
  { intros handle e' Hid.
    assert (W1 : wf_parts (zones w) (containers w) (<[z_name z := handle]> (handles w)) (container_handles w)
                   (issued b1)).
    { eapply wf_put_handle; [by apply (wf_issued _ _ _ _ _ W)|done|done]. }
    assert (HE1 : enforced_parts ∅ (zones w) (<[z_name z := handle]> (handles w)) (view b1)).
    { apply (enforced_weaken (∅ ∖ {[z_name z]})); [set_solver|].
      eapply enforced_cache; [done|by rewrite Hid|by rewrite Hid|]. by eapply (enforced_except _ _ _ _ _ W). }
    wstep. wstep. wstep. wstep; wnorm; [done|]. rename select (forall c, c ∈ _ <-> _) into Hcs.
    wstep. split; wnorm; [|done..|].
    - apply wf_reconciled_containers; [done|]. intros c [[id Hc] _]%Hcs.
      destruct (wf_stored_c _ _ _ _ _ W1 _ _ Hc) as [-> _]. eauto.
    - intros n h. destruct (decide (n = z_name z)) as [->|Hne].
      + intros _. exists z. rewrite elem_of_app, list_elem_of_singleton. auto.
      + rewrite lookup_insert_ne by done. apply Hgrow. }
  wstep. wstep. unfold resolve_live_cgroup_id. wstep; by apply Hcache.
Qed.

Lemma decode_names (es : list (string * list Z)) :
  (forall k b, (k, b) ∈ es -> exists z, Metadata.zone_from_bytes b = Ok z /\ z_name z = k) ->
  map z_name (omap (fun kv => match Metadata.zone_from_bytes (snd kv) with Ok z => Some z | Err _ => None end) es)
    = map fst es.
Proof.
  induction es as [|[k b] es IH]; intros Hes; [done|]. cbn [omap list_omap snd map fst].
  destruct (Hes k b) as (z & Hz & Hk); [left|]. rewrite Hz. cbn [map].
  rewrite Hk, IH; [done|]. intros k' b' Hin. apply Hes. by right.
Qed.

Lemma reconcile_inv b e w :
  wf w -> issued (backend w) ⊆ issued b -> wp reconcile (fun _ w' => Inv ∅ w') (reboot b e w).
Proof.
  intros W Hi. unfold reconcile.
  assert (W0 : wf (reboot b e w)).
  { destruct (wf_issued _ _ _ _ _ W _ Hi) as [W1 W2 W3 W4 W5]. split; cbn; [done..| |done|].
    - intros n h. by rewrite lookup_empty.
    - intros id ch. by rewrite lookup_empty. }
  assert (HE0 : forall v, enforced_parts ∅ (zones w) ∅ v) by (intros v n h; by rewrite lookup_empty).
  wstep. apply wp_list_zones; [intros; by split|]. intros e' zs.
  assert (Hzs : forall z, z ∈ zs <-> exists k, stored (zones w) k = Some z).
  { intros z. exact (Metadata.list_zones_elem None (zones w) zs z eq_refl). }
  assert (Hnd : NoDup (map z_name zs)).
  { unfold zs. rewrite decode_names.
    - rewrite Results.Results.entries_perm. apply NoDup_fst_map_to_list.
    - intros k b' Hin%Metadata.elem_of_entries. destruct (wf_zone _ _ _ _ _ W k) as (z & Hz & Hn & _).
      { eexists; exact Hin. } exists z. split; [|done]. revert Hz. unfold stored. cbn in Hin. rewrite Hin. simpl.
      destruct (Metadata.zone_from_bytes b'); congruence. }
  clearbody zs. destruct zs as [|z zs']; [|].
  - wstep; cbn [zones handles containers container_handles backend env reboot set_env] in *; learn;
      (split; [by apply (wf_issued _ _ _ _ _ W0)|apply HE0]).
  - set (zs := z :: zs') in *. clearbody zs. clear z zs'.
    wstep. eapply wp_mono.
    { apply (wp_for_each reconcile_zone (reconciling w) (Inv ∅)).
      - split; [exact W0|done|done|apply HE0|]. intros n h. cbn. by rewrite lookup_empty.
      - intros ys x zs2 w1 -> Hrec. apply reconcile_zone_spec; [| |done].
        + destruct (proj1 (Hzs x)) as [k Hk]; [apply elem_of_app; right; left|].
          destruct (wf_stored _ _ _ _ _ W k x Hk) as [-> _]. done.
        + intros y Hy Heq. rewrite map_app in Hnd. apply NoDup_app in Hnd as (_ & Hd & _).
          apply (Hd (z_name y)); [by apply list_elem_of_fmap_2|]. rewrite Heq. left. }
    intros [[]|err] w1; [|done]. intros [W1 EZ EC HE Hvis]. wstep. wstep. wstep; wnorm; learn; wstep; wnorm;
      (split; [by apply (wf_issued _ _ _ _ _ W1)|]).
    + intros n h Hh HT. destruct (HE n h Hh HT) as (z & Hz & Hid & Hp). exists z. split_and!; [done..|].
      pose proof (F0 (recovered_handle z)) as Hv. cbn [h_id recovered_handle] in Hv.
      rewrite <- Hid, Hv, Hid; [done|]. apply list_elem_of_fmap_2, Hzs. exists n. by rewrite <- EZ.
    + intros n h Hh HT. destruct (HE n h Hh HT) as (z & Hz & Hid & Hp). exists z. split_and!; [done..|].
      pose proof (F0 (recovered_handle z)) as Hv. cbn [h_id recovered_handle] in Hv.
      rewrite <- Hid, Hv, Hid; [done|]. apply list_elem_of_fmap_2, Hzs. exists n. by rewrite <- EZ.
Qed.

(** ** The registry's guarantees *)

Lemma exec_inv o T w : Inv T w -> wp (exec o) (fun r w' => Inv (doubt o r T) w') w.
Proof.
  intros HI. pose proof HI as [W _].
  assert (Htend : forall c : M unit, tending c -> wp c (fun _ w' => Inv T w') w).
  { intros c Hc. eapply wp_mono; [by apply Hc|]. intros r w' Ht. by apply (tends_Inv T w). }
  destruct o; cbn [exec]; try (apply Htend; auto 6 with tending; fail).
  - wstep. eapply wp_mono; [by apply create_zone_inv|]. intros [z|err] w' Hw; [apply wp_ret|]; exact Hw.
  - eapply wp_mono; [by apply delete_zone_inv|]. intros [[]|err] w' Hw; exact Hw.
  - eapply wp_mono; [by apply apply_policy_inv|]. intros [[]|err] w' Hw; exact Hw.
Qed.

Lemma reachable_Inv w T : reachable w T -> Inv T w.
Proof.
  induction 1 as [b e|o w T _ IH|w T b e _ IH Hi].
  - split; [split|]; cbn; intros *; rewrite ?lookup_empty;
      try (intros [? Hs]; discriminate Hs); discriminate.
  - exact (exec_inv o T w IH).
  - apply reconcile_inv; [apply IH|done].
Qed.

Lemma registry_wf_of w T : reachable w T -> wf w.
Proof. intros HR. by apply reachable_Inv in HR as [? _]. Qed.

(** *** With operations in flight *)

(** A rest of an operation in a well-formed registry. *)
Definition keeps_wf {A} (c : M A) (w : World) : Prop := wp c (fun _ w' => wf w') w.

Lemma keeps_tends {A} (c : M A) w : wp c (fun _ w' => tends w w') w -> keeps_wf c w.
Proof. intros Hc. eapply wp_mono; [exact Hc|]. by intros r w' [W _]. Qed.

Lemma apply_policy_locked_keeps n z p w : wf w -> z_name z = n ->
  (forall z', stored (zones w) n = Some z' -> z_id z' = z_id z) -> keeps_wf (apply_policy_locked n z p) w.
Proof.
  intros W Hn Hsame. eapply wp_mono; [apply apply_policy_locked_spec|].
  intros [[]|err] w'; wnorm; intros (EC & EH & ECH & Hi & HR); rewrite EC, EH, ECH.
  - destruct HR as (h & z' & b & Hh & Hid & Hnm & Hp & Hb & EZ & _). rewrite EZ, Hn.
    destruct (wf_handle _ _ _ _ _ W n h Hh) as (z0 & Hz0 & _). pose proof (Hsame _ Hz0) as H0.
    eapply (wf_put_zone _ _ _ _ _ W); [done|congruence|done| |right; exists z0; split; [done|congruence]].
    rewrite Hid, <- H0. apply Hi. by apply (wf_stored _ _ _ _ _ W n).
  - destruct HR as [-> _]. by apply (wf_issued _ _ _ _ _ W).
Qed.

Lemma found_keeps id c ch w : wf w -> homed (zones w) c ->
  keeps_wf (start_found id c ch) w /\ keeps_wf (stop_found c ch) w /\ keeps_wf (state_found id c) w.
Proof.
  intros W Hhome.
  assert (Hput : forall c' w', c_zone_id c' = c_zone_id c -> tends w w' -> wp (meta_put_container c') (fun _ w' => tends w w') w').
  { intros c' w' Hid Ht. eapply wp_mono; [apply put_container_tends|intros r w2 Ht2; by eapply tends_trans].
    - apply Ht.
    - destruct Ht as (_ & -> & _). unfold homed. by rewrite Hid. }
  assert (Hs : forall w', same w w' -> tends w w') by (intros w' Hs; by apply same_tends).
  split_and!; apply keeps_tends.
  - unfold start_found. wstep. wstep; wnorm; learn; [|apply Hs; by split_and!].
    wstep. wstep. wstep. eapply wp_mono; [apply Hput; [done|apply Hs; by split_and!]|]. intros [[]|err] w1 Ht; [|done].
    wstep. eapply tends_trans; [exact Ht|]. destruct Ht as (W1 & _). split_and!; [|done..]. wnorm.
    by apply wf_alter_container_handle.
  - unfold stop_found. wstep. wstep; wnorm; learn; [|apply Hs; by split_and!].
    wstep. wstep. eapply wp_mono; [apply Hput; [done|apply Hs; by split_and!]|]. done.
  - unfold state_found. wstep. wstep. wstep. wstep; [|apply Hs, same_refl].
    wstep. eapply wp_mono; [apply shim_request_quiet|]. intros [resp|err] w1 Hs1; [|by apply Hs].
    destruct resp; try (wstep; by apply Hs). wstep.
    destruct (_ && _); [|wstep; wstep; by apply Hs]. wstep. apply get_or_now_wp. intros t e _.
    eapply wp_mono; [apply Hput; [done|apply Hs; eapply same_trans; [exact Hs1|]; by split_and!]|].
    intros [[]|err] w2 Ht; [by wstep|done].
Qed.

(** What was read of a zone is of its name. *)
Definition well_read (q : Pending) : Prop :=
  match q with PApply n _ z | PRootfs n _ z | PCreate n _ z => z_name z = n | _ => True end.

Lemma finish_keeps q w : wf w -> well_read q -> kept w q ->
  wp (finish q) (fun r w' => wf w' /\ Forall well_read (left_over r)) w.
Proof.
  intros W Hq Hk.
  assert (Hnone : forall A (c : M A), keeps_wf c w ->
    wp (do _ <- c; ret (@None Pending)) (fun r w' => wf w' /\ Forall well_read (left_over r)) w).
  { intros A c Hc. apply wp_bind. eapply (wp_mono _ (fun _ w' => wf w')); [exact Hc|]. intros [a|e] w' W'; [apply wp_ret|]; by split. }
  destruct q as [n p z|n s z|n s z|id c ch|c ch|id c|c]; cbn [finish].
  - by apply Hnone, apply_policy_locked_keeps.
  - apply wp_bind. eapply wp_mono; [apply prepare_rootfs_quiet|]. intros [s'|e] w' Hs; [apply wp_ret|];
      (split; [by apply (same_wf w)|]); [|done]. by constructor.
  - by apply Hnone, keeps_tends, create_container_locked_tends.
  - by apply Hnone, found_keeps.
  - by apply Hnone, (found_keeps "" c ch).
  - by apply Hnone, (found_keeps id c (mkCHandle "" "" 0 0)).
  - by apply Hnone, keeps_tends, maybe_reap_tends.
Qed.

Lemma run_wp {A} (c : M A) Q w r w' : wp c Q w -> c w = (r, w') -> Q r w'.
Proof. unfold wp. intros H Hrun. by rewrite Hrun in H. Qed.

Lemma reads_keeps w qs w' : wf w -> reads w qs w' -> wf w' /\ Forall well_read qs.
Proof.
  intros W Hr.
  assert (Hq : forall A (c : M A) r w', quiet c -> c w = (r, w') -> wf w').
  { intros A c r w1 Hc Hrun. apply (same_wf w); [|done]. exact (run_wp c _ _ _ _ (Hc w) Hrun). }
  assert (Hz : forall n z w', get_zone n w = (Ok z, w') -> wf w' /\ z_name z = n).
  { intros n z w1 Hrun. refine (run_wp (get_zone n) (fun r w' => match r with Ok z => wf w' /\ z_name z = n | Err _ => True end) _ _ _ _ Hrun).
    unfold get_zone. wstep. wstep; [done|]. wstep; [|done]. rename select (stored _ _ = Some _) into Hst.
    split; [done|]. by apply (wf_stored _ _ _ _ _ W). }
  assert (Hf : forall id, quiet (found_with_handle id)).
  { intros id. apply quiet_bind; [apply find_container_quiet|]. intros c. apply quiet_bind; [|intros; apply ret_quiet].
    intros w1. unfold find_handle. settle. }
  destruct Hr as [n p z w1 Hrun|n s z w1 Hrun|id c ch w1 Hrun|id c ch w1 Hrun|id c w1 Hrun|id c w1 Hrun|zid cs w1 Hrun].
  - apply Hz in Hrun as [? ?]. split; [done|by constructor].
  - apply Hz in Hrun as [? ?]. split; [done|by constructor].
  - apply Hq in Hrun; [|apply Hf]. split; [done|by constructor].
  - apply Hq in Hrun; [|apply Hf]. split; [done|by constructor].
  - apply Hq in Hrun; [|apply find_container_quiet]. split; [done|by constructor].
  - apply Hq in Hrun; [|apply find_container_quiet]. split; [done|by constructor].
  - apply Hq in Hrun; [|intros w2; settle]. split; [done|]. apply Forall_map, Forall_true. done.
Qed.

(** Enforcement aside, what an operation leaves is well formed. *)
Lemma exec_keeps o w : wf w -> wf (snd (exec o w)).
Proof.
  intros W. assert (HI : Inv (dom (handles w)) w).
  { split; [done|]. intros n h Hh Hn. destruct Hn. apply elem_of_dom. by eexists. }
  exact (proj1 (exec_inv o _ w HI)).
Qed.

Lemma served_keeps w qs : served w qs -> wf w /\ Forall well_read qs.
Proof.
  induction 1 as [b e|o w qs _ [W Hq]|w qs ps w' _ [W Hq] Hr|w qs1 q qs2 _ [W Hq] Hk|w qs b e _ [W Hq] Hi].
  - split; [|done]. split; cbn; intros *; rewrite ?lookup_empty; try (intros [? Hs]; discriminate Hs); discriminate.
  - split; [by apply exec_keeps|done].
  - destruct (reads_keeps _ _ _ W Hr). split; [done|by apply Forall_app].
  - apply Forall_app in Hq as [H1 Hq]. inversion_clear Hq as [|? ? H2 H3].
    destruct (finish_keeps q w W H2 Hk) as [W' H4]. split; [done|]. by repeat apply Forall_app_2.
  - split; [|done]. exact (proj1 (reconcile_inv b e w W Hi)).
Qed.

(** One at a time is the case of nothing in flight. *)
Lemma reachable_served w T : reachable w T -> served w [].
Proof. induction 1; eauto using served. Qed.

(** C33. Whatever the store, backend and host answer and across restarts, each entry of a
    table decodes to a zone or container of its key, zone ids are unique, every container
    belongs to a stored zone, and every cached handle is the handle of what is stored: after
    operations run one at a time, and also with any number of operations in flight which
    have read a zone or a container and finish with it later, as long as the zone's name has
    not been given to another zone since, or the container's zone been deleted.  The
    deletion and re-creation of a zone under a policy change breaks it:
    [policy_race_resurrects_id]. *)
Theorem registry_well_formed w qs : served w qs -> wf w.
Proof. intros Hs. by apply served_keeps in Hs as [W _]. Qed.

(** C34. In every reachable registry a cached zone is live in the backend under
    exactly the policy on record, unless the last deletion or policy change of
    it reported an error; a restart leaves no such doubt. *)
Theorem zones_enforced_as_recorded w T n h :
  reachable w T -> handles w !! n = Some h -> n ∉ T ->
  exists z, stored (zones w) n = Some z /\ z_id z = h_id h /\
            view (backend w) !! h_id h = Some (Some (z_policy z)).
Proof. intros HR Hh HT. apply reachable_Inv in HR as [_ HE]. exact (HE n h Hh HT). Qed.

Lemma create_zone_spec n ty p w :
  wp (create_zone n ty p) (fun r w' =>
    match r with
    | Ok z => validate_zone_name n = Ok tt /\ stored (zones w) n = None /\
        z_id z ∉ issued (backend w) /\ z_name z = n /\ z_policy z = p /\
        stored (zones w') n = Some z /\ view (backend w') !! z_id z = Some (Some p) /\
        (exists h, handles w' = <[n := h]> (handles w) /\ h_id h = z_id z) /\
        (forall m, m <> n -> zones w' !! m = zones w !! m) /\
        containers w' = containers w /\ container_handles w' = container_handles w
    | Err e => zones w' = zones w /\ handles w' = handles w /\
        containers w' = containers w /\ container_handles w' = container_handles w /\
        (validate_zone_name n = Err e \/ validate_zone_name n = Ok tt)
    end) w.
Proof.
  unfold create_zone. wstep. wstep; [|split_and!; auto]. destruct a.
  wstep. wstep; [split_and!; auto|]. destruct (stored (zones w) n) eqn:Hn; [wstep; split_and!; auto|].
  wstep. wstep; wnorm; learn; [|split_and!; auto].
  wstep. wstep. wstep; wnorm; learn.
  - wstep. wstep. wstep. wstep; wnorm; [split_and!; auto|]. wstep. wstep. wstep. wnorm. cbn [z_id z_name z_policy].
    split_and!; try done; [by apply stored_insert|eauto|]. intros m Hm. by apply lookup_insert_ne.
  - wstep. wstep. wstep; wnorm; learn; wstep; wnorm; split_and!; auto.
Qed.

(** C35. Creating a zone is refused for an unusable or taken name and otherwise
    either leaves store and caches as they were or adds one zone, under a fresh
    id, recorded, cached, live and under the requested policy. *)
Theorem create_zone_all_or_nothing n ty p w :
  let r := fst (create_zone n ty p w) in let w' := snd (create_zone n ty p w) in
    match r with
    | Ok z => validate_zone_name n = Ok tt /\ stored (zones w) n = None /\
        z_id z ∉ issued (backend w) /\ z_name z = n /\ z_policy z = p /\
        stored (zones w') n = Some z /\ view (backend w') !! z_id z = Some (Some p) /\
        (exists h, handles w' = <[n := h]> (handles w) /\ h_id h = z_id z) /\
        (forall m, m <> n -> zones w' !! m = zones w !! m) /\
        containers w' = containers w /\ container_handles w' = container_handles w
    | Err e => zones w' = zones w /\ handles w' = handles w /\
        containers w' = containers w /\ container_handles w' = container_handles w /\
        (validate_zone_name n = Err e \/ validate_zone_name n = Ok tt)
    end.
Proof. exact (create_zone_spec n ty p w). Qed.

(** C36. A zone is deleted only when it has a handle and is empty or deletion is
    forced; afterwards its record, its handle and all its containers are gone
    and it is no longer live.  A refused or failed deletion keeps the record
    and the handle. *)
Theorem delete_zone_leaves_nothing n force w T :
  reachable w T ->
  match delete_zone n force w with
  | (Ok _, w') => exists z h, stored (zones w) n = Some z /\ handles w !! n = Some h /\
      (force = false -> forall id c, stored_c (containers w) id = Some c -> c_zone_id c <> z_id z) /\
      zones w' = delete n (zones w) /\ handles w' = delete n (handles w) /\
      view (backend w') !! z_id z = None /\
      (forall id c, stored_c (containers w') id = Some c -> c_zone_id c <> z_id z)
  | (Err _, w') => zones w' = zones w /\ handles w' = handles w
  end.
Proof.
  intros HR. apply registry_wf_of in HR. pose proof (delete_zone_spec n force w HR) as Hs. unfold wp in Hs.
  destruct (delete_zone n force w) as [[[]|err] w']; cbn [fst snd] in Hs.
  - destruct Hs as (_ & z & h & Hz & Hh & Hid & EZ & EH & _ & Hv & _ & Hf & Hc & _).
    exists z, h. rewrite Hid. rewrite <- Hid. split_and!; [done..| |done]. by rewrite Hid.
  - destruct Hs as (_ & ? & ? & _). done.
Qed.

(** Starting, stopping and asking for a container keep its record and the
    backend's answer together: a started container is recorded as running with
    the pid the backend gave, and a reported exit is on record with its code. *)
Theorem container_records_follow_backend id w T :
  reachable w T ->
  (forall w', start_container id w = (Ok tt, w') ->
     exists ch pid c, container_handles w !! id = Some ch /\
       fst (Backend.start_container ch (backend w)) = Ok pid /\
       stored_c (containers w') id = Some c /\ c_state c = Running /\ c_pid c = Some pid /\
       container_handles w' !! id = Some (set_pid pid ch)) /\
  (forall w', stop_container id w = (Ok tt, w') ->
     exists c, stored_c (containers w') id = Some c /\ c_state c = Stopped) /\
  (forall code w', get_container_state id w = (Ok ("stopped", code), w') ->
     exists c, stored_c (containers w') id = Some c /\ c_state c = Stopped /\ c_exit_code c = code).
Proof.
  intros HR. apply registry_wf_of in HR. split_and!.
  - intros w' Hrun. pose proof (start_container_spec id w HR) as Hs. unfold wp in Hs. rewrite Hrun in Hs.
    destruct Hs as (_ & _ & c & ch & pid & t & _ & Hch & Hp & Hc & Hch'). exists ch, pid. eauto 10.
  - intros w' Hrun. pose proof (stop_container_spec id w HR) as Hs. unfold wp in Hs. rewrite Hrun in Hs.
    destruct Hs as (_ & _ & _ & c & t & _ & Hc). eauto.
  - intros code w' Hrun. pose proof (get_container_state_spec id w HR) as Hs. unfold wp in Hs. rewrite Hrun in Hs.
    destruct Hs as (_ & _ & _ & c & c' & _ & Hc' & Hstop & _). destruct (Hstop eq_refl) as (? & ? & _). eauto.
Qed.

(** ** Interleaving *)

(** A policy change reads its zone before it takes the lock.  When the zone
    is deleted and created again in between, the change succeeds and records
    the old zone's id beside the new zone's handle: the registry is no longer
    well formed. *)
Theorem policy_race_resurrects_id n z force ty p p' w T w1 z2 w2 w3 :
  reachable w T ->
  stored (zones w) n = Some z ->
  delete_zone n force w = (Ok tt, w1) ->
  create_zone n ty p w1 = (Ok z2, w2) ->
  apply_policy_locked n z p' w2 = (Ok tt, w3) ->
  exists h z3, handles w3 !! n = Some h /\ h_id h = z_id z2 /\
    stored (zones w3) n = Some z3 /\ z_id z3 = z_id z /\ z_id z3 <> h_id h /\ ~ wf w3.
Proof.
  intros HR Hz Hd Hc Ha. apply registry_wf_of in HR as W. destruct (wf_stored _ _ _ _ _ W n z Hz) as [Hn Hiss].
  pose proof (delete_zone_spec n force w W) as Hs. unfold wp in Hs. rewrite Hd in Hs. cbn [fst snd] in Hs.
  destruct Hs as (_ & z' & h' & _ & _ & _ & _ & _ & Hi & _).
  pose proof (create_zone_spec n ty p w1) as Hs. unfold wp in Hs. rewrite Hc in Hs. cbn [fst snd] in Hs.
  destruct Hs as (_ & _ & Hnew & _ & _ & _ & _ & (h & Eh & Hid) & _).
  pose proof (apply_policy_locked_spec n z p' w2) as Hs. unfold wp in Hs. rewrite Ha in Hs. cbn [fst snd] in Hs.
  destruct Hs as (_ & EH & _ & _ & h0 & z3 & b & Hh & Hid3 & Hnm & _ & Hb & EZ & _).
  assert (h0 = h) as -> by (rewrite Eh, lookup_insert_eq in Hh; congruence).
  assert (Hne : z_id z3 <> h_id h) by (rewrite Hid3, Hid; intros Heq; apply Hnew; rewrite <- Heq; by apply Hi).
  assert (Hst : stored (zones w3) n = Some z3) by (rewrite EZ, Hn; by apply stored_insert).
  exists h, z3. split_and!; [by rewrite EH|done..|]. intros W3.
  destruct (wf_handle _ _ _ _ _ W3 n h) as (z4 & Hz4 & Hid4); [by rewrite EH|]. congruence.
Qed.

End Registry.

(** ** A concrete daemon, for the witnesses

    Zone ids are strings of increasing length; the codec knows the records the
    witnesses store; the store fails as a script of faults says. *)
Module Demo.

Record B := mkB { live : gmap string (option ZonePolicy); next : nat }.

Fixpoint id_of (n : nat) : string := match n with O => "i" | S n => String "i" (id_of n) end.

Lemma id_of_inj n m : id_of n = id_of m -> n = m.
Proof.
  revert m. induction n as [|n IH]; intros [|m]; simpl; intros [=]; [done|destruct m; done|destruct n; done|].
  f_equal. by apply IH.
Qed.

#[local] Instance backend : IsolationBackend B := {|
  Backend.create_zone c b :=
    (Ok (mkHandle (id_of (next b)) (cf_name c) 7 None), mkB (<[id_of (next b) := None]> (live b)) (S (next b)));
  Backend.destroy_zone h b := (Ok tt, mkB (delete (h_id h) (live b)) (next b));
  Backend.enforce_policy h p b := (Ok tt, mkB (<[h_id h := Some p]> (live b)) (next b));
  Backend.hot_reload_policy h p b := (Ok tt, mkB (<[h_id h := Some p]> (live b)) (next b));
  Backend.create_container h s b := (Ok (mkCHandle "c" (h_id h) 0 0), b);
  Backend.start_container h b := (Ok 42%Z, b);
  Backend.stop_container h b := (Ok tt, b);
  Backend.zone_stats h b := (Err (BackendError "none"), b);
  Backend.verify_isolation h b := (Err (BackendError "none"), b);
  Backend.recover_zone h t p b := (Ok tt, mkB (<[h_id h := Some p]> (live b)) (next b));
  Backend.cleanup_orphans hs b := (Ok tt, b);
  isolation_model := Backend.SyscallPolicy;
  name := "demo";
  enforcement_degraded_reason b := None;
  Backend.kernel_zone_id h b := None;
  Backend.shim_request n r b := (Ok ROk, b) |}.

Definition ids (n : nat) : gset string := list_to_set (map id_of (seq 0 n)).
Arguments ids : simpl never.

Lemma elem_of_ids n id : id ∈ ids n <-> exists k, (k < n)%nat /\ id = id_of k.
Proof.
  unfold ids. rewrite elem_of_list_to_set, list_elem_of_fmap.
  split; intros (k & H1 & H2); exists k; [apply elem_of_seq in H2; split; [lia|done]|].
  split; [done|]. apply elem_of_seq. lia.
Qed.

Lemma ids_mono n : ids n ⊆ ids (S n).
Proof. intros id (k & ? & ->)%elem_of_ids. apply elem_of_ids. exists k. split; [lia|done]. Qed.

Lemma next_fresh n : id_of n ∉ ids n.
Proof. intros (k & Hk & Heq)%elem_of_ids. apply id_of_inj in Heq. lia. Qed.

#[local] Instance contract : BackendContract B backend.
Proof.
  refine {| view b := live b; issued b := ids (next b) |}; cbn; try done; try (intros; apply ids_mono).
  - intros c b h b' [= <- <-]. split; [apply next_fresh|]. apply elem_of_ids. exists (next b). split; [simpl; lia|done].
  - intros c b id Hid. apply lookup_insert_ne. intros <-. by apply next_fresh in Hid.
  - intros h b b' [= <-]. apply lookup_delete_eq.
  - intros h b id Hne. by apply lookup_delete_ne.
  - intros h p b b' [= <-]. apply lookup_insert_eq.
  - intros h p b id Hne. by apply lookup_insert_ne.
  - intros h p b b' [= <-]. apply lookup_insert_eq.
  - intros h p b id Hne. by apply lookup_insert_ne.
  - intros h t p b b' [= <-]. apply lookup_insert_eq.
  - intros h t p b id Hne. by apply lookup_insert_ne.
Defined.

(** The store's faults, one per transaction; everything else succeeds. *)
#[local] Instance env : Env (list (option string)) := {|
  redb e := (match e with f :: _ => f | [] => None end, tail e);
  now e := (0%Z, e);
  remove_dir_all _ e := (Ok tt, e);
  unmount_overlay _ _ e := (Ok tt, e);
  kill0 _ e := (None, e);
  read_to_string _ e := (None, e);
  stat_ino _ e := (Ok 7%Z, e);
  path_exists _ e := (true, e);
  connect _ e := (Ok tt, e);
  write_all _ _ e := (Ok tt, e);
  flush _ e := (Ok tt, e);
  read_stream _ e := ([1; 0; 0; 0; 0]%Z, e);
  to_allocvec _ := Ok [];
  from_bytes _ := Ok (RState 42 "stopped" (Some 3%Z));
  shim_io_text _ := "";
  debug_response _ := "";
  image_safe_name _ e := (Ok "", e);
  layer_digests _ e := (Ok ([], ""), e);
  prepare_layers _ _ _ _ e := (Ok [], e) |}.

Definition policy (k : Z) : ZonePolicy :=
  mkZonePolicy Strict (mkCapability []) (mkResource 1024 k 100 256) NetworkPolicy_default
    FilesystemPolicy_default (mkDevice []) (mkSyscall [] []).

Definition read_zone (b : list Z) : result Zone string :=
  match b with
  | [n; k] => Ok (mkZone (id_of (Z.to_nat n)) "z" NonGlobal Ready (policy k) 0 0 None)
  | _ => Err "bad zone"
  end.
Definition read_state (k : Z) : ContainerState * option Z * option Z * option Z * option Z :=
  if (k =? 0)%Z then (Created, Some 0%Z, None, None, None)
  else if (k =? 1)%Z then (Running, Some 42%Z, Some 0%Z, None, None)
  else if (k =? 2)%Z then (Stopped, Some 42%Z, Some 0%Z, Some 0%Z, None)
  else (Stopped, Some 42%Z, Some 0%Z, Some 0%Z, Some 3%Z).
Definition read_container (b : list Z) : result Container string :=
  match b with
  | [n; k] => let '(s, pid, st, fi, ex) := read_state k in
              Ok (mkContainer "c" "c" (id_of (Z.to_nat n)) "" s pid 0 st fi ex)
  | _ => Err "bad container"
  end.

Definition pairs : list (list Z) := [[0;0];[0;1];[0;2];[0;3];[1;0];[1;1];[1;2];[1;3]]%Z.

(** Encode by searching for the bytes that are read back. *)
Definition search {A} `{EqDecision A} (read : list Z -> result A string) (a : A) : result (list Z) string :=
  match List.find (fun b => bool_decide (read b = Ok a)) pairs with
  | Some b => Ok b
  | None => Err "unsupported"
  end.

Lemma search_ok {A} `{EqDecision A} read (a : A) b : search read a = Ok b -> read b = Ok a.
Proof.
  unfold search. destruct (List.find _ _) as [b'|] eqn:Hf; [|done]. intros [= <-].
  apply find_some in Hf as [_ Hf]. by apply bool_decide_eq_true in Hf.
Qed.

#[local] Instance codec : Metadata.Postcard := {|
  Metadata.zone_to_vec := search read_zone;
  Metadata.zone_from_bytes := read_zone;
  Metadata.container_to_vec := search read_container;
  Metadata.container_from_bytes := read_container |}.
#[local] Instance codec_laws : Metadata.PostcardLaws codec.
Proof. split; intros *; apply search_ok. Defined.

Definition paths : Paths := mkPaths "/var/lib/rauha" "/run/rauha".
Definition w0 : World (B := B) (E := list (option string)) := mkWorld ∅ ∅ ∅ ∅ (mkB ∅ 0) [].

Notation step o w := (snd (exec paths o w)).
Notation w1 := (step (OCreate "z" NonGlobal (policy 0)) w0).
Notation w2 := (step (OApply "z" (policy 1)) w1).
Notation w3 := (step (OCreateContainer "z" (mkSpec "c" "" [] [] None None None)) w2).
Notation w4 := (step (OStartContainer "c") w3).

Lemma w1_reachable : reachable paths w1 ∅.
Proof. exact (reach_op paths (OCreate "z" NonGlobal (policy 0)) w0 ∅ (reach_init paths (mkB ∅ 0) [])). Qed.
Lemma w2_reachable : reachable paths w2 ∅.
Proof. exact (reach_op paths (OApply "z" (policy 1)) w1 ∅ w1_reachable). Qed.
Lemma w3_reachable : reachable paths w3 ∅.
Proof. exact (reach_op paths (OCreateContainer "z" (mkSpec "c" "" [] [] None None None)) w2 ∅ w2_reachable). Qed.
Lemma w4_reachable : reachable paths w4 ∅.
Proof. exact (reach_op paths (OStartContainer "c") w3 ∅ w3_reachable). Qed.

(** A policy change reads the zone; another one overtakes it; it finishes with what it read. *)
Notation zone0 := (mkZone "i" "z" NonGlobal Ready (policy 1) 0 0 None).
Notation in_flight := (PApply "z" (policy 0) zone0).
Notation w5 := (snd (get_zone "z" w4)).
Notation w6 := (step (OApply "z" (policy 3)) w5).
Notation w7 := (snd (finish paths in_flight w6)).

Lemma w5_served : served paths w5 [in_flight].
Proof.
  apply (served_read paths w4 [] [in_flight] w5); [exact (reachable_served paths w4 ∅ w4_reachable)|].
  apply reads_apply. vm_compute. reflexivity.
Qed.

Lemma registry_well_formed_witness :
  wf (CT := contract) w7 /\ option_map z_policy (Metadata.stored_zone (zones w7) "z") = Some (policy 0).
Proof.
  split; [|vm_compute; reflexivity]. apply (registry_well_formed paths w7 ([] ++ left_over (fst (finish paths in_flight w6)) ++ [])).
  apply served_finish; [exact (served_op paths (OApply "z" (policy 3)) w5 [in_flight] w5_served)|].
  intros z Hz. vm_compute in Hz. injection Hz as <-. reflexivity.
Defined.

Lemma zones_enforced_as_recorded_witness :
  exists z, Metadata.stored_zone (zones w4) "z" = Some z /\ z_id z = "i" /\
            live (Registry.backend w4) !! "i" = Some (Some (z_policy z)).
Proof.
  assert (Hh : handles w4 !! "z" = Some (mkHandle "i" "z" 7 None)) by (vm_compute; reflexivity).
  assert (HT : "z" ∉ (∅ : gset string)) by (apply not_elem_of_empty).
  exact (zones_enforced_as_recorded (CT := contract) paths w4 ∅ "z" (mkHandle "i" "z" 7 None) w4_reachable Hh HT).
Defined.

Lemma create_zone_all_or_nothing_witness :
  exists z, fst (create_zone "z" NonGlobal (policy 0) w0) = Ok z /\ z_id z = "i" /\
    live (Registry.backend w1) !! "i" = Some (Some (policy 0)).
Proof.
  pose proof (create_zone_all_or_nothing (CT := contract) "z" NonGlobal (policy 0) w0) as H. cbv zeta in H.
  destruct (fst (create_zone "z" NonGlobal (policy 0) w0)) as [z|e] eqn:Hr; [|exfalso; vm_compute in Hr; discriminate Hr].
  assert (Hi : z_id z = "i") by (vm_compute in Hr; injection Hr as <-; reflexivity).
  destruct H as (_ & _ & _ & _ & _ & _ & Hv & _). exists z. split; [reflexivity|split; [exact Hi|]].
  rewrite Hi in Hv. vm_compute in Hv |- *. exact Hv.
Defined.

Lemma delete_zone_leaves_nothing_witness :
  is_ok (fst (delete_zone paths "z" true w4)) = true /\ handles (snd (delete_zone paths "z" true w4)) !! "z" = None.
Proof.
  split; [vm_compute; reflexivity|].
  pose proof (delete_zone_leaves_nothing paths "z" true w4 ∅ w4_reachable) as H.
  destruct (delete_zone paths "z" true w4) as [r w'] eqn:Hd.
  destruct r as [u|e]; [|exfalso; vm_compute in Hd; discriminate Hd].
  destruct H as (z & h & _ & _ & _ & _ & EH & _). cbn [snd]. rewrite EH. apply lookup_delete_eq.
Defined.

Lemma container_records_follow_backend_witness :
  exists c, Metadata.stored_container (containers (snd (get_container_state paths "c" w4))) "c" = Some c /\
            c_state c = Stopped /\ c_exit_code c = Some 3%Z.
Proof.
  refine (proj2 (proj2 (container_records_follow_backend paths "c" w4 ∅ w4_reachable)) (Some 3%Z) _ _).
  vm_compute. reflexivity.
Defined.

(** Creation whose record cannot be stored leaves a live zone behind that no
    record or handle names. *)
Notation faulty := (mkWorld ∅ ∅ ∅ ∅ (mkB ∅ 0) [None; Some "disk full"]).
Lemma create_zone_leaks_on_store_failure :
  let w := snd (create_zone "z" NonGlobal (policy 0) faulty) in
  is_ok (fst (create_zone "z" NonGlobal (policy 0) faulty)) = false /\
  live (Registry.backend w) !! "i" = Some (Some (policy 0)) /\ handles w = ∅ /\ zones w = ∅.
Proof. vm_compute. done. Qed.

(** A start goes on with the container it read: over a forced deletion of the zone it brings
    the record back, of a container without a zone.  What it read is not [kept]. *)
Notation c0 := (mkContainer "c" "c" "i" "" Created (Some 0%Z) 0 None None None).
Example start_outlives_its_zone :
  let emptied := snd (delete_zone paths "z" true w3) in
  let w := snd (finish paths (PStart "c" c0 (mkCHandle "c" "i" 0 0)) emptied) in
  Metadata.stored_container (containers w3) "c" = Some c0 /\ zones w = ∅ /\
  option_map c_state (Metadata.stored_container (containers w) "c") = Some Running.
Proof. vm_compute. done. Qed.

Notation d1 := (snd (delete_zone paths "z" true w2)).
Notation d2 := (snd (create_zone "z" NonGlobal (policy 0) d1)).
Notation d3 := (snd (apply_policy_locked "z" zone0 (policy 2) d2)).

Lemma policy_race_resurrects_id_witness :
  exists h z3, handles d3 !! "z" = Some h /\ h_id h = "ii" /\
    Metadata.stored_zone (zones d3) "z" = Some z3 /\ z_id z3 = "i" /\ z_id z3 <> h_id h /\ ~ wf (CT := contract) d3.
Proof.
  apply (policy_race_resurrects_id (CT := contract) paths "z" zone0 true NonGlobal (policy 0) (policy 2) w2 ∅
           d1 (mkZone "ii" "z" NonGlobal Ready (policy 0) 0 0 None) d2 d3).
  - exact w2_reachable.
  - vm_compute. reflexivity.
  - vm_compute. reflexivity.
  - vm_compute. reflexivity.
  - vm_compute. reflexivity.
Defined.

End Demo.

End Registry.
