(* ===== verification/OutputLog.v ===== *)
(** * Bounded logs of workload output

    [rauha-shim/src/output.rs]: a log that keeps a bounded prefix of what a
    workload writes, and the capture thread that drains the workload's pipe
    into it.  The file on disk and the existence of the [.incomplete] marker are
    part of the state; how far a failing [write_all] gets, and whether syncing and
    removing the marker succeed, are arguments. *)

From stdpp Require Import base list.
From Stdlib Require Import ZArith Lia.
From S2P Require Import Prelude.

Module OutputLog.

Open Scope nat_scope.

Notation bytes := (list Z).

Record BoundedLog := mkLog {
  file : bytes; marker : bool; remaining : nat; incomplete : bool }.

(** [BoundedLog::open]: the marker is created first, then the log, which must be
    new.  The result is the log, or what an early return leaves: the marker. *)
Definition open (marker_ok file_ok : bool) (limit : nat) : result BoundedLog bool :=
  if marker_ok then if file_ok then Ok (mkLog [] true limit false) else Err true
  else Err false.

(** [write_all]: [None] when it succeeds, or how many bytes it wrote before it
    failed. *)
Definition write (disk : option nat) (log : BoundedLog) (b : bytes) (whole_record : bool)
  : result unit unit * BoundedLog :=
  let '(count, rem) :=
    if whole_record && Nat.ltb (remaining log) (length b) then (0, 0)
    else (Nat.min (length b) (remaining log), remaining log) in
  let inc := if Nat.ltb count (length b) then true else incomplete log in
  match disk with
  | Some k => (Err tt, mkLog (file log ++ take k (take count b)) (marker log) 0 true)
  | None => (Ok tt, mkLog (file log ++ take count b) (marker log) (rem - count) inc)
  end.

Definition finish (sync_ok remove_ok : bool) (log : BoundedLog) : result unit unit * BoundedLog :=
  if sync_ok then
    if incomplete log then (Ok tt, log)
    else if remove_ok then (Ok tt, mkLog (file log) false (remaining log) (incomplete log))
    else (Err tt, log)
  else (Err tt, log).

(** ** The capture thread *)

Inductive Read :=
| Eof
| Data (b : bytes)
| Interrupted
| TimedOut
| Broken.

(** What one round of the loop observes: the stop flag where it is loaded, the
    clock where it is read (for the deadline and for its check), the read, and
    the disk. *)
Record Round := mkRound {
  stopping : bool; clock : Z; clock' : Z; read : Read; stopping' : bool;
  disk : option nat; sync_ok : bool; remove_ok : bool }.

Definition BUFFER : nat := Z.to_nat 8192.

Inductive Outcome := Running (stop_at : option Z) | Returned.

Definition round (stop_at : option Z) (log : BoundedLog) (r : Round) : Outcome * BoundedLog :=
  let deadline := match stop_at with Some d => d | None => (clock r + 200)%Z end in
  if stopping r && (deadline <=? clock' r)%Z then (Returned, log)
  else
    let stop_at := if stopping r then Some deadline else stop_at in
    match read r with
    | Eof => (Returned, snd (finish (sync_ok r) (remove_ok r) log))
    | Data b => (Running stop_at, snd (write (disk r) log b false))
    | Interrupted => (Running stop_at, log)
    | TimedOut => if stopping' r then (Returned, log) else (Running stop_at, log)
    | Broken => (Returned, log)
    end.

Fixpoint capture (stop_at : option Z) (log : BoundedLog) (rs : list Round) : Outcome * BoundedLog :=
  match rs with
  | [] => (Running stop_at, log)
  | r :: rs' =>
      match round stop_at log r with
      | (Running s, log') => capture s log' rs'
      | (Returned, log') => (Returned, log')
      end
  end.

(** What the workload sent in these rounds. *)
Definition sent (rs : list Round) : bytes :=
  concat (map (fun r => match read r with Data b => b | _ => [] end) rs).

(** ** Properties *)

(** The log after [data] was handed to it: a prefix within the limit, and
    everything unless the log says it is incomplete. *)
Record holds (limit : nat) (data : bytes) (log : BoundedLog) : Prop := {
  holds_prefix : file log `prefix_of` data;
  holds_limit : length (file log) + remaining log <= limit;
  holds_full : incomplete log = false -> file log = data;
  holds_lost : incomplete log = true -> remaining log = 0;
  holds_marker : marker log = true }.

Lemma write_file d log b w :
  exists k, file (snd (write d log b w)) = file log ++ take k b /\ k <= remaining log.
Proof.
  unfold write. destruct (w && _); destruct d as [k|]; cbn [snd file].
  - exists 0. rewrite !take_0, take_nil. split; [done|lia].
  - exists 0. split; [done|lia].
  - exists (Nat.min k (Nat.min (length b) (remaining log))). rewrite take_take. split; [done|lia].
  - exists (Nat.min (length b) (remaining log)). split; [done|lia].
Qed.

Lemma write_holds limit data d log b w :
  holds limit data log -> holds limit (data ++ b) (snd (write d log b w)).
Proof.
  intros [Hp Hl Hf Hlost Hm]. destruct (write_file d log b w) as (k & Hfile & Hk).
  assert (Hpre : file (snd (write d log b w)) `prefix_of` data ++ b).
  { rewrite Hfile. destruct (incomplete log) eqn:Hinc.
    - rewrite (Hlost eq_refl) in Hk. replace k with 0 by lia. rewrite take_0, app_nil_r.
      by apply prefix_app_r.
    - rewrite (Hf eq_refl). apply prefix_app. apply prefix_take. }
  split; [done|..].
  - revert Hfile. unfold write. destruct (w && _) eqn:Hw; destruct d as [j|]; cbn [snd file remaining]; intros _;
      rewrite ?length_app, ?length_take; lia.
  - unfold write. destruct (w && _) eqn:Hw; destruct d as [j|]; cbn [snd file incomplete]; try done.
    + apply andb_true_iff in Hw as [_ Hw]. apply Nat.ltb_lt in Hw.
      rewrite (proj2 (Nat.ltb_lt 0 (length b))) by lia. done.
    + destruct (Nat.ltb_spec (Nat.min (length b) (remaining log)) (length b)); [done|].
      intros Hinc. rewrite (Hf Hinc), take_ge by lia. done.
  - unfold write. destruct (w && _) eqn:Hw; destruct d as [j|]; cbn [snd remaining incomplete]; try done; intros Hinc.
    destruct (Nat.ltb_spec (Nat.min (length b) (remaining log)) (length b)); [lia|].
    rewrite (Hlost Hinc). lia.
  - unfold write. destruct (w && _); destruct d; done.
Qed.

Lemma holds_returned limit data log :
  holds limit data log -> file log `prefix_of` data /\ length (file log) <= limit /\ marker log = true.
Proof. intros [Hp Hl Hf Hlost Hm]. split_and!; [done|lia|done]. Qed.

(** The log when the loop returns in a round: untouched, or finished at the end
    of the stream. *)
Lemma round_returned limit data s log r log' :
  holds limit data log -> round s log r = (Returned, log') ->
  log' = log \/ read r = Eof /\ file log' `prefix_of` data /\ length (file log') <= limit /\
                (marker log' = false -> file log' = data).
Proof.
  intros [Hp Hl Hf Hlost Hm]. unfold round. destruct (stopping r && _); [intros [= <-]; by left|].
  destruct (read r); intros Hr; try discriminate; try (left; congruence).
  - right. injection Hr as <-. unfold finish.
    destruct (sync_ok r); [destruct (incomplete log) eqn:Hinc; [|destruct (remove_ok r)]|]; cbn [snd];
      split_and!; cbn [file marker]; try done; try lia; try congruence; auto.
  - destruct (stopping' r); [left|]; congruence.
Qed.

Lemma round_running limit data s log r s' log' :
  holds limit data log -> round s log r = (Running s', log') ->
  read r <> Eof /\ holds limit (data ++ match read r with Data b => b | _ => [] end) log'.
Proof.
  intros Hh. unfold round. destruct (stopping r && _); [discriminate|].
  destruct (read r); intros Hr; try discriminate; injection Hr as <- <- || (destruct (stopping' r); [discriminate|];
    injection Hr as <- <-); rewrite ?app_nil_r; (split; [discriminate|done || by apply write_holds]).
Qed.

Lemma capture_holds limit data s log rs :
  holds limit data log ->
  let '(o, log') := capture s log rs in
  file log' `prefix_of` data ++ sent rs /\ length (file log') <= limit /\
  (marker log' = false -> o = Returned /\ exists n r, rs !! n = Some r /\ read r = Eof /\
     Forall (fun q => read q <> Eof) (take n rs) /\ file log' = data ++ sent (take n rs)).
Proof.
  revert s data log. induction rs as [|r rs IH]; intros s data log Hh; cbn [capture].
  - destruct (holds_returned _ _ _ Hh) as (Hp & Hl & Hm). unfold sent. cbn. rewrite app_nil_r.
    split_and!; [done..|congruence].
  - destruct (round s log r) as [[s'|] log1] eqn:Hr.
    + destruct (round_running _ _ _ _ _ _ _ Hh Hr) as [Hne Hh1].
      specialize (IH s' _ _ Hh1). destruct (capture s' log1 rs) as [o log2]. unfold sent in *. cbn [map concat].
      rewrite <- app_assoc in IH. destruct IH as (Hp & Hl & Hm). split_and!; [done..|].
      intros Hmk. destruct (Hm Hmk) as (-> & n & q & Hq & He & Hf & Hfile). split; [done|].
      exists (S n), q. split_and!; [done..| |].
      * cbn [take]. by constructor.
      * cbn [take map concat]. by rewrite Hfile, <- app_assoc.
    + destruct (round_returned _ _ _ _ _ _ Hh Hr) as [->|(He & Hp & Hl & Hm)].
      * destruct (holds_returned _ _ _ Hh) as (Hp & Hl & Hm).
        split_and!; [by apply prefix_app_r|done|congruence].
      * split_and!; [by apply prefix_app_r|done|]. intros Hmk. split; [done|].
        exists 0, r. split_and!; [done..|cbn; constructor|]. unfold sent. cbn. rewrite app_nil_r. auto.
Qed.

(** C37. Whatever is read, however the disk answers and whenever the capture is
    stopped, the log on disk is a prefix of what the workload wrote, within the
    configured limit; and the marker is gone only when the workload closed its
    end and the log holds everything it wrote. *)
Theorem capture_is_bounded_prefix limit rs :
  let '(o, log) := capture None (mkLog [] true limit false) rs in
  file log `prefix_of` sent rs /\ length (file log) <= limit /\
  (marker log = false -> o = Returned /\ exists n r, rs !! n = Some r /\ read r = Eof /\
     Forall (fun q => read q <> Eof) (take n rs) /\ file log = sent (take n rs)).
Proof. apply (capture_holds limit [] None). split; cbn; [done|lia|done..]. Qed.

(** A round that goes on while the stop flag is set has a deadline ahead of it. *)
Lemma round_running_at s log r s' log' :
  round s log r = (Running s', log') -> stopping r = true ->
  exists d, s' = Some d /\ (clock' r < d)%Z /\ (s = None -> d = (clock r + 200)%Z) /\ (forall d0, s = Some d0 -> d = d0).
Proof.
  unfold round. intros H Hs. rewrite Hs in H. cbn [andb] in H.
  set (d := match s with Some d => d | None => (clock r + 200)%Z end) in *.
  destruct (Z.leb_spec d (clock' r)); [discriminate|]. exists d.
  assert (s' = Some d) as ->.
  { destruct (read r); try discriminate; try congruence. destruct (stopping' r); [discriminate|congruence]. }
  split_and!; [done|lia| |].
  - intros Hn. unfold d. by rewrite Hn.
  - intros d0 Hd. unfold d. by rewrite Hd.
Qed.

(** Once the capture is told to stop, its thread returns at the latest in
    the first round that begins 200 ms after it first noticed, even when the
    workload keeps writing. *)
Theorem stop_is_bounded log r rs last :
  stopping r = true ->
  Forall (fun q => stopping q = true) rs -> stopping last = true ->
  (clock r + 200 <= clock' last)%Z ->
  fst (capture None log (r :: rs ++ [last])) = Returned.
Proof.
  intros Hr Hrs Hl Hclock. cbn [capture].
  destruct (round None log r) as [[s|] log1] eqn:Hround; [|done].
  destruct (round_running_at _ _ _ _ _ Hround Hr) as (d & -> & _ & Hd & _). rewrite (Hd eq_refl). clear Hround Hd.
  revert log1. induction Hrs as [|q rs Hq Hrs IH]; intros log1; cbn [app capture].
  - unfold round. rewrite Hl. cbn [andb]. destruct (Z.leb_spec (clock r + 200) (clock' last)); [done|lia].
  - destruct (round (Some (clock r + 200)%Z) log1 q) as [[s|] log2] eqn:Hq2; [|done].
    destruct (round_running_at _ _ _ _ _ Hq2 Hq) as (d' & -> & _ & _ & Hd'). rewrite (Hd' _ eq_refl). apply IH.
Qed.

Lemma stop_is_bounded_witness :
  let q c := mkRound true c c (Data [1%Z]) true None true true in
  fst (capture None (mkLog [] true 1 false) (q 0%Z :: [q 100%Z] ++ [q 200%Z])) = Returned.
Proof.
  apply (stop_is_bounded (mkLog [] true 1 false) (mkRound true 0 0 (Data [1%Z]) true None true true)
           [mkRound true 100 100 (Data [1%Z]) true None true true]
           (mkRound true 200 200 (Data [1%Z]) true None true true)).
  - reflexivity.
  - apply Forall_cons_2; [reflexivity|apply Forall_nil_2].
  - reflexivity.
  - simpl. lia.
Defined.

(** Records written whole: those before the first that does not fit. *)
Fixpoint fitting (limit : nat) (rs : list bytes) : list bytes :=
  match rs with
  | [] => []
  | r :: rs' => if Nat.leb (length r) limit then r :: fitting (limit - length r) rs' else []
  end.

Definition write_records (log : BoundedLog) (rs : list bytes) : BoundedLog :=
  fold_left (fun log r => snd (write None log r true)) rs log.

Lemma write_records_full log rs :
  remaining log = 0 -> incomplete log = true -> Forall (fun r => 0 < length r) rs ->
  write_records log rs = log.
Proof.
  intros Hr Hi Hrs. induction Hrs as [|r rs Hlen _ IH]; [done|]. unfold write_records in *. cbn [fold_left].
  enough (snd (write None log r true) = log) as -> by done.
  unfold write. rewrite Hr. destruct (Nat.ltb_spec 0 (length r)); [|lia]. cbn [andb snd].
  destruct log as [f m re inc]. cbn in *. subst. rewrite take_0, app_nil_r. by destruct (length r).
Qed.

(** A log of records written whole, such as the broker's decisions, holds
    exactly the records before the first that does not fit, none of them cut,
    and calls itself incomplete when that is not all of them. *)
Theorem whole_records_never_split limit rs :
  Forall (fun r => 0 < length r) rs ->
  let log := write_records (mkLog [] true limit false) rs in
  file log = concat (fitting limit rs) /\
  (incomplete log = false <-> fitting limit rs = rs).
Proof.
  intros Hrs. enough (Hgen : forall f, let log := write_records (mkLog f true limit false) rs in
    file log = f ++ concat (fitting limit rs) /\ (incomplete log = false <-> fitting limit rs = rs)) by apply (Hgen []).
  revert limit. induction Hrs as [|r rs Hlen Hrs IH]; intros limit f.
  - cbn. by rewrite app_nil_r.
  - cbn [fitting]. unfold write_records. cbn [fold_left]. fold (write_records (snd (write None (mkLog f true limit false) r true)) rs).
    unfold write at 1 2. cbn [remaining andb file marker incomplete].
    destruct (Nat.ltb_spec limit (length r)) as [Hlt|Hge]; cbn [snd].
    + rewrite (proj2 (Nat.leb_gt (length r) limit)) by done. rewrite (proj2 (Nat.ltb_lt 0 (length r))) by lia.
      rewrite write_records_full by done. cbn. by rewrite take_0, !app_nil_r.
    + rewrite (proj2 (Nat.leb_le (length r) limit)) by lia.
      rewrite Nat.min_l, Nat.ltb_irrefl, take_ge by lia.
      destruct (IH (limit - length r) (f ++ r)) as [Hf Hi]. rewrite Hf. cbn [concat]. rewrite app_assoc.
      split; [done|]. rewrite Hi. split; [congruence|]. intros [=]. done.
Qed.

Lemma whole_records_never_split_witness :
  let log := write_records (mkLog [] true 3 false) [[1; 2]; [3; 4]; [5]]%Z in
  file log = [1; 2]%Z /\ incomplete log = true.
Proof.
  destruct (whole_records_never_split 3 [[1; 2]; [3; 4]; [5]]%Z) as [Hf _].
  - apply Forall_cons_2; [simpl; lia|]. apply Forall_cons_2; [simpl; lia|]. apply Forall_cons_2; [simpl; lia|].
    apply Forall_nil_2.
  - split; [exact Hf|reflexivity].
Defined.

End OutputLog.
