(* ===== verification/Reference.v ===== *)
(** * Image references

    [rauha-oci/src/reference.rs]: reading a reference a user or a request gives,
    and the canonical form it is stored and compared under. *)

From stdpp Require Import base gmap strings list.
From Stdlib Require Import ZArith Ascii String Lia.
From S2P Require Import Prelude.
From S2P Require Import RustStr.
From S2P Require Import RustText.
Open Scope string_scope.

Module Reference.

Record ImageReference := mkRef {
  registry : string;
  repository : string;
  tag : string;
  digest : option string }.

Definition DOCKER_HUB : string := "registry-1.docker.io".

(** [rfind(c)] as a position, 0 when there is none. *)
Definition last_or_zero (c : ascii) (s : string) : nat :=
  match Str.rsplit_once c s with Some (before, _) => String.length before | None => 0 end.

(** Off the first [@]. *)
Definition split_digest (input : string) : result (string * option string) string :=
  match Str.split_once "@" input with
  | Some (name_tag, digest) =>
      if negb (Str.starts_with "sha256:" digest) then Err ("unsupported digest algorithm: " ++ digest)
      else Ok (name_tag, Some digest)
  | None => Ok (input, None)
  end.

(** A colon before the last slash belongs to a port. *)
Definition split_tag (name_tag : string) : string * string :=
  match Str.rsplit_once ":" name_tag with
  | Some (name, tag) =>
      if Nat.ltb (last_or_zero "/" name_tag) (String.length name) then (name, tag) else (name_tag, "latest")
  | None => (name_tag, "latest")
  end.

Definition split_registry (name : string) : string * string :=
  match Str.split_once "/" name with
  | Some (first_part, rest) =>
      if Str.contains_char "." first_part || Str.contains_char ":" first_part || String.eqb first_part "localhost"
      then (first_part, rest)
      else (DOCKER_HUB, name)
  | None => (DOCKER_HUB, "library/" ++ name)
  end.

Definition normalize (registry : string) : string :=
  if String.eqb registry "docker.io" || String.eqb registry "index.docker.io" then DOCKER_HUB else registry.

Definition parse (input : string) : result ImageReference string :=
  let input := Str.trim input in
  if String.eqb input "" then Err "empty image reference"
  else
    let? (name_tag, digest) := split_digest input in
    let '(name, tag) := split_tag name_tag in
    let '(registry, repository) := split_registry name in
    Ok (mkRef (normalize registry) repository tag digest).

Definition to_string_canonical (r : ImageReference) : string :=
  match digest r with
  | Some digest => registry r ++ "/" ++ repository r ++ "@" ++ digest
  | None => registry r ++ "/" ++ repository r ++ ":" ++ tag r
  end.

Example parse_bare : parse "nginx" = Ok (mkRef DOCKER_HUB "library/nginx" "latest" None).
Proof. reflexivity. Qed.
Example parse_port : parse " localhost:5000/img:dev " = Ok (mkRef "localhost:5000" "img" "dev" None).
Proof. reflexivity. Qed.
Example parse_two_colons : parse "a:b:c@sha256:0" = Ok (mkRef DOCKER_HUB "library/a:b" "c" (Some "sha256:0")).
Proof. reflexivity. Qed.

(** ** What a parsed reference is made of *)

Lemma split_digest_Ok s nt d :
  split_digest s = Ok (nt, d) ->
  Str.contains_char "@" nt = false /\
  match d with
  | Some d => s = nt ++ "@" ++ d /\ Str.starts_with "sha256:" d = true
  | None => s = nt
  end.
Proof.
  unfold split_digest. destruct (Str.split_once "@" s) as [[a b]|] eqn:E.
  - destruct (Str.starts_with "sha256:" b) eqn:Hb; simpl; [|done]. intros [= <- <-].
    by apply Text.split_once_Some in E as [-> ->].
  - intros [= <- <-]. by apply Text.split_once_None in E.
Qed.

Lemma split_digest_None nt : Str.contains_char "@" nt = false -> split_digest nt = Ok (nt, None).
Proof. intros H. unfold split_digest. apply Text.split_once_None in H. by rewrite H. Qed.

Lemma split_digest_app nt d :
  Str.contains_char "@" nt = false -> Str.starts_with "sha256:" d = true ->
  split_digest (nt ++ "@" ++ d) = Ok (nt, Some d).
Proof. intros H Hd. unfold split_digest.
  change (nt ++ "@" ++ d) with (nt ++ String "@" d). by rewrite (Text.split_once_app "@" _ d H), Hd. Qed.

(** A tag has neither a colon nor a slash. *)
Definition plain_tag (t : string) : Prop := Str.contains_char ":" t = false /\ Str.contains_char "/" t = false.

Lemma last_slash a b : (String.length a <= last_or_zero "/" (a ++ "/" ++ b))%nat.
Proof.
  unfold last_or_zero. change (a ++ "/" ++ b) with (a ++ String "/" b).
  rewrite Text.rsplit_once_contains by done. destruct (Str.rsplit_once "/" (String "/" b)) as [[x y]|] eqn:E; simpl.
  - rewrite Str.string_length_app. lia.
  - by apply Text.rsplit_once_None in E.
Qed.

Lemma split_tag_plain nt name t : split_tag nt = (name, t) -> plain_tag t.
Proof.
  unfold split_tag. destruct (Str.rsplit_once ":" nt) as [[a b]|] eqn:E; [|by intros [= <- <-]].
  destruct (Nat.ltb_spec (last_or_zero "/" nt) (String.length a)) as [Hlt|]; [|by intros [= <- <-]].
  intros [= <- <-]. apply Text.rsplit_once_Some in E as [-> Hb]. split; [done|].
  destruct (Str.contains_char "/" b) eqn:Hs; [exfalso|done].
  unfold last_or_zero in Hlt. rewrite Text.rsplit_once_contains in Hlt by (simpl; by rewrite Hs).
  destruct (Str.rsplit_once "/" (String ":" b)) as [[x y]|] eqn:Ex; [|by apply Text.rsplit_once_None in Ex; simpl in Ex; rewrite Hs in Ex].
  simpl in Hlt. rewrite Str.string_length_app in Hlt. lia.
Qed.

(** The name is what remains, whatever the tag is. *)
Lemma split_tag_cases nt name t :
  split_tag nt = (name, t) -> nt = name \/ nt = name ++ ":" ++ t.
Proof.
  unfold split_tag. destruct (Str.rsplit_once ":" nt) as [[a b]|] eqn:E; [|intros [= <- <-]; by left].
  case_match; intros [= <- <-]; [|by left]. apply Text.rsplit_once_Some in E as [-> _]. by right.
Qed.

(** In a name with a slash every plain tag is read back. *)
Lemma split_tag_app a b t :
  plain_tag t -> split_tag ((a ++ "/" ++ b) ++ ":" ++ t) = (a ++ "/" ++ b, t).
Proof.
  intros [Hc Hs]. unfold split_tag.
  change (a ++ "/" ++ b) with (a ++ String "/" b). change (":" ++ t) with (String ":" t).
  rewrite (Text.rsplit_once_app ":" _ t Hc).
  destruct (Nat.ltb_spec (last_or_zero "/" ((a ++ String "/" b) ++ String ":" t)) (String.length (a ++ String "/" b)))
    as [|Hge]; [done|exfalso].
  unfold last_or_zero in Hge.
  destruct (Str.rsplit_once "/" ((a ++ String "/" b) ++ String ":" t)) as [[x y]|] eqn:E.
  - apply Text.rsplit_once_Some in E as [E Hy].
    assert (Hr : exists y', Str.rsplit_once "/" (a ++ String "/" b) = Some (x, y')).
    { apply (Text.rsplit_once_prefix "/" _ (String ":" t) x y); [by simpl|]. rewrite E. by apply Text.rsplit_once_app. }
    destruct Hr as [y' Hr]. apply Text.rsplit_once_Some in Hr as [Hr _].
    rewrite Hr in Hge. rewrite Str.string_length_app in Hge. simpl in Hge. lia.
  - apply Text.rsplit_once_None in E. rewrite !Text.contains_char_app in E. simpl in E.
    by rewrite orb_true_r in E.
Qed.

Lemma split_tag_none a b :
  Str.contains_char ":" b = false -> split_tag (a ++ "/" ++ b) = (a ++ "/" ++ b, "latest").
Proof.
  intros Hc. unfold split_tag. pose proof (last_slash a b) as Hl.
  destruct (Str.rsplit_once ":" (a ++ "/" ++ b)) as [[x y]|] eqn:E; [|done].
  apply Text.rsplit_once_Some in E as [E Hy].
  destruct (Nat.ltb_spec (last_or_zero "/" (a ++ "/" ++ b)) (String.length x)) as [Hlt|]; [exfalso|done].
  assert (Str.contains_char ":" (String "/" b) = true) as Hx; [|simpl in Hx; congruence].
  eapply Text.contains_after; [exact E|lia].
Qed.

Definition registry_like (r : string) : Prop :=
  Str.contains_char "/" r = false /\
  Str.contains_char "." r || Str.contains_char ":" r || String.eqb r "localhost" = true.

Lemma split_registry_like name r repo : split_registry name = (r, repo) -> registry_like r.
Proof.
  unfold split_registry. destruct (Str.split_once "/" name) as [[a b]|] eqn:E; [|by intros [= <- <-]].
  case_match eqn:Hr; intros [= <- <-]; [|done]. apply Text.split_once_Some in E as [_ Ha]. done.
Qed.

Lemma normalize_like r : registry_like r -> registry_like (normalize r) /\ normalize (normalize r) = normalize r.
Proof. unfold normalize. case_match eqn:E; [done|]. by rewrite E. Qed.

Lemma split_registry_app r repo : registry_like r -> split_registry (r ++ "/" ++ repo) = (r, repo).
Proof. intros [Hs Hr]. unfold split_registry.
  change (r ++ "/" ++ repo) with (r ++ String "/" repo). by rewrite (Text.split_once_app "/" r repo Hs), Hr. Qed.

(** The parts of a reference are made of its own characters and of the defaults'. *)
Section Parts.
Context (p : ascii -> bool).
Hypothesis constants : Text.all_chars p DOCKER_HUB && Text.all_chars p "library/" && Text.all_chars p "latest" = true.

Lemma registry_parts name r repo :
  Text.all_chars p name = true -> split_registry name = (r, repo) ->
  Text.all_chars p (normalize r) = true /\ Text.all_chars p repo = true.
Proof using constants.
  intros Hn. pose proof constants as [[Hh Hlib]%andb_true_iff _]%andb_true_iff.
  assert (Hnorm : forall x, Text.all_chars p x = true -> Text.all_chars p (normalize x) = true).
  { intros x Hx. unfold normalize. by case_match. }
  unfold split_registry. destruct (Str.split_once "/" name) as [[a b]|] eqn:E.
  - apply Text.split_once_Some in E as [-> _]. rewrite Text.all_chars_app in Hn. cbn [Text.all_chars] in Hn.
    apply andb_true_iff in Hn as [Ha [Hc Hb]%andb_true_iff].
    case_match; intros [= <- <-]; [by auto|]. split; [by auto|].
    rewrite Text.all_chars_app. cbn [Text.all_chars]. by rewrite Ha, Hc, Hb.
  - intros [= <- <-]. split; [by auto|]. by rewrite Text.all_chars_app, Hlib, Hn.
Qed.

Lemma tag_parts nt name t :
  Text.all_chars p nt = true -> split_tag nt = (name, t) ->
  Text.all_chars p name = true /\ Text.all_chars p t = true.
Proof using constants.
  intros Hn H. pose proof constants as [_ Hlatest]%andb_true_iff. unfold split_tag in H.
  destruct (Str.rsplit_once ":" nt) as [[a b]|] eqn:E; [|by injection H as <- <-].
  case_match; injection H as <- <-; [|done]. apply Text.rsplit_once_Some in E as [-> _].
  rewrite Text.all_chars_app in Hn. cbn [Text.all_chars] in Hn. by apply andb_true_iff in Hn as [-> [_ ->]%andb_true_iff].
Qed.

End Parts.

Definition not_at (c : ascii) : bool := negb (Ascii.eqb "@" c).

Lemma no_at s : Str.contains_char "@" s = false <-> Text.all_chars not_at s = true.
Proof.
  induction s as [|c s IH]; [done|]. cbn [Str.contains_char Text.all_chars].
  rewrite orb_false_iff, andb_true_iff, IH. unfold not_at. by rewrite negb_true_iff.
Qed.

Lemma parse_shape s r :
  parse s = Ok r ->
  Str.contains_char "@" (registry r ++ "/" ++ repository r) = false /\ Str.contains_char "@" (tag r) = false /\
  registry_like (registry r) /\ normalize (registry r) = registry r /\ plain_tag (tag r) /\
  forall d, digest r = Some d -> Str.starts_with "sha256:" d = true.
Proof.
  unfold parse. case_match; [done|].
  destruct (split_digest (Str.trim s)) as [[nt d]|] eqn:Hd; [|done]. destruct (split_tag nt) as [name t] eqn:Ht.
  destruct (split_registry name) as [reg repo] eqn:Hr. intros [= <-]. cbn [registry repository tag digest].
  apply split_digest_Ok in Hd as [Hat Hd]. apply no_at in Hat.
  destruct (tag_parts not_at eq_refl nt name t Hat Ht) as [Hn2 Ht2].
  destruct (registry_parts not_at eq_refl name reg repo Hn2 Hr) as [Hr2 Hp2].
  destruct (normalize_like reg (split_registry_like _ _ _ Hr)) as [Hl Hi].
  split_and!; [by rewrite no_at, !Text.all_chars_app, Hr2, Hp2|by apply no_at|done..|by eapply split_tag_plain|].
  intros x ->. by destruct Hd as [_ Hd].
Qed.

Lemma canonical_graphic s r :
  Text.all_chars Text.graphic s = true -> parse s = Ok r -> Text.all_chars Text.graphic (to_string_canonical r) = true.
Proof.
  intros Hg. unfold parse. rewrite Text.trim_graphic by done. case_match; [done|].
  destruct (split_digest s) as [[nt d]|] eqn:Hd; [|done]. destruct (split_tag nt) as [name t] eqn:Ht.
  destruct (split_registry name) as [reg repo] eqn:Hr. intros [= <-].
  apply split_digest_Ok in Hd as [_ Hd].
  assert (Hnt : Text.all_chars Text.graphic nt = true /\ forall x, d = Some x -> Text.all_chars Text.graphic x = true).
  { destruct d as [x|]; [|by subst s]. destruct Hd as [-> _].
    rewrite !Text.all_chars_app in Hg. apply andb_true_iff in Hg as [? [_ ?]%andb_true_iff]. by split; [|intros ? [= <-]]. }
  destruct Hnt as [Hnt Hx]. destruct (tag_parts Text.graphic eq_refl nt name t Hnt Ht) as [Hn1 Ht1].
  destruct (registry_parts Text.graphic eq_refl name reg repo Hn1 Hr) as [Hr1 Hp1].
  unfold to_string_canonical. cbn [registry repository tag digest].
  destruct d as [x|]; rewrite !Text.all_chars_app, Hr1, Hp1, ?Ht1; [|done]. by rewrite (Hx x eq_refl).
Qed.

(** The canonical form of a reference names the same image: reading it back
    gives the reference itself.  With a digest the tag is not part of it, and the
    repository must have no colon of its own, which [parse] does not check. *)
Theorem canonical_reads_back s r :
  Text.all_chars Text.graphic s = true -> parse s = Ok r ->
  match digest r with
  | None => parse (to_string_canonical r) = Ok r
  | Some d => Str.contains_char ":" (repository r) = false ->
      parse (to_string_canonical r) = Ok (mkRef (registry r) (repository r) "latest" (Some d))
  end.
Proof.
  intros Hg Hp. destruct (parse_shape s r Hp) as (Hat & Hatt & Hl & Hn & Ht & Hd).
  pose proof (canonical_graphic s r Hg Hp) as Hc.
  assert (Hne : to_string_canonical r <> "").
  { unfold to_string_canonical. intros H. destruct Hl as [_ Hl], (registry r); [done|]. by destruct (digest r). }
  unfold parse. rewrite (Text.trim_graphic _ Hc). apply String.eqb_neq in Hne.
  unfold to_string_canonical in *. destruct r as [reg repo t d]. cbn [registry repository tag digest] in *.
  destruct d as [d|]; [intros Hcol|]; rewrite Hne.
  - rewrite (Text.string_app_assoc3 reg repo), split_digest_app by (by auto). rewrite split_tag_none by done.
    by rewrite split_registry_app, Hn.
  - rewrite (Text.string_app_assoc3 reg repo), split_digest_None.
    + rewrite split_tag_app by done. by rewrite split_registry_app, Hn.
    + rewrite Text.contains_char_app, Hat. simpl. done.
Qed.

Definition pinned : ImageReference := mkRef "ghcr.io" "owner/repo" "latest" (Some "sha256:ab").

Lemma canonical_reads_back_witness :
  parse "ghcr.io/owner/repo@sha256:ab" = Ok pinned /\ parse (to_string_canonical pinned) = Ok pinned.
Proof.
  assert (H : parse "ghcr.io/owner/repo@sha256:ab" = Ok pinned) by (vm_compute; reflexivity).
  split; [exact H|].
  exact (canonical_reads_back "ghcr.io/owner/repo@sha256:ab" pinned eq_refl H eq_refl).
Defined.

(** With a colon in the repository the canonical form is another image's. *)
Lemma canonical_of_another :
  exists r r', parse "a:b:c@sha256:0" = Ok r /\ parse (to_string_canonical r) = Ok r' /\ repository r' <> repository r.
Proof.
  exists (mkRef DOCKER_HUB "library/a:b" "c" (Some "sha256:0")), (mkRef DOCKER_HUB "library/a" "b" (Some "sha256:0")).
  split_and!; [vm_compute; reflexivity..|discriminate].
Qed.

End Reference.
