(* ===== verification/Content.v ===== *)
(** * The content store

    [rauha-oci/src/content.rs]: blobs in files named by their digest, and files that
    name the manifest of a reference, on a disk where any operation can fail and
    a write can stop part-way. *)

From stdpp Require Import base gmap strings list.
From Stdlib Require Import ZArith Ascii String Lia.
From S2P Require Import Prelude.
From S2P Require Import RustStr.
From S2P Require Import RustText.
From S2P Require Import StateError.
From S2P Require Import Shim.
From S2P Require Import Reference.
Open Scope string_scope.

(** SHA-256 of some bytes in lower-case hexadecimal. *)
Class Sha256 := { sha256_hex : string -> string }.
Class Sha256Laws `{!Sha256} := {
  sha256_hex_length : forall data, String.length (sha256_hex data) = 64%nat;
  sha256_hex_digits : forall data,
    Text.all_chars (fun c => Text.contains_str (String c "") "0123456789abcdef") (sha256_hex data) = true }.

Module Content.

(** ** The disk *)

(** What happens to an operation: it works, it fails and changes nothing, or - a
    write - it fails after some bytes are in the file. *)
Inductive Fault :=
| Fine
| Refused (e : string)
| Torn (bytes : nat) (e : string).

(** The operations to come meet the faults of the list; after it all work. *)
Record Disk := mkDisk {
  files : gmap string string;
  faults : list Fault }.

Notation M := (M Disk string).

Definition next_fault : M Fault := fun d =>
  match faults d with
  | f :: fs => (Ok f, mkDisk (files d) fs)
  | [] => (Ok Fine, d)
  end.

Definition set_files (f : gmap string string -> gmap string string) : M unit :=
  modify (fun d => mkDisk (f (files d)) (faults d)).

(** [Path::exists] is false when the path cannot be inspected. *)
Definition exists_ (path : string) : M bool :=
  do f <- next_fault;
  match f with
  | Fine => gets (fun d => bool_decide (is_Some (files d !! path)))
  | _ => ret false
  end.

Definition read (path : string) : M string :=
  do f <- next_fault;
  match f with
  | Fine => do c <- gets (fun d => files d !! path); or_fail c "No such file or directory (os error 2)"
  | Refused e | Torn _ e => fail e
  end.

Definition write (path data : string) : M unit :=
  do f <- next_fault;
  match f with
  | Fine => set_files <[path := data]>
  | Refused e => fail e
  | Torn n e => do _ <- set_files <[path := String.substring 0 n data]>; fail e
  end.

Definition remove_file (path : string) : M unit :=
  do f <- next_fault;
  match f with
  | Fine => set_files (base.delete path)
  | Refused e | Torn _ e => fail e
  end.

Definition create_dir_all (path : string) : M unit :=
  do f <- next_fault;
  match f with
  | Fine => ret tt
  | Refused e | Torn _ e => fail e
  end.

(** ** Digests *)

Definition is_hexdigit (c : ascii) : bool := Text.contains_str (String c "") "0123456789abcdefABCDEF".

(** [Digest(String)]. *)
Record Digest := mkDigest { as_str : string }.
#[global] Instance Digest_eq_dec : EqDecision Digest.
Proof. solve_decision. Defined.

Definition parse (s : string) : option Digest :=
  match Str.strip_prefix "sha256:" s with
  | Some hex_part =>
      if Nat.eqb (String.length hex_part) 64 && Text.all_chars is_hexdigit hex_part then Some (mkDigest s) else None
  | None => None
  end.

Definition hex (d : Digest) : string := String.substring 7 (String.length (as_str d) - 7) (as_str d).

Section Store.
Context `{Sha : Sha256}.
Context (root : string).

Definition from_data (data : string) : Digest := mkDigest ("sha256:" ++ sha256_hex data).
Definition validate (d : Digest) (data : string) : bool := bool_decide (from_data data = d).

(** ** The store *)

Definition join := Shim.join_path.
Definition blobs_dir : string := join (join root "blobs") "sha256".
Definition manifests_dir : string := join root "manifests".

Definition new : M unit :=
  do _ <- create_dir_all blobs_dir; create_dir_all manifests_dir.

Definition blob_path (d : Digest) : string := join blobs_dir (hex d).

Definition put_blob (data : string) : M Digest :=
  let digest := from_data data in
  let path := blob_path digest in
  do there <- exists_ path;
  do _ <- (if negb there then write path data else ret tt);
  ret digest.

Definition get_blob (d : Digest) : M string := read (blob_path d).
Definition has_blob (d : Digest) : M bool := exists_ (blob_path d).

Definition safe_name (reference : string) : string :=
  Text.replace_char ":" "_" (Text.replace_char "/" "_" reference).
Definition manifest_ref_path (reference : string) : string :=
  join manifests_dir (safe_name reference ++ ".json").

Definition put_manifest (reference manifest : string) : M Digest :=
  do digest <- put_blob manifest;
  do _ <- write (manifest_ref_path reference) (as_str digest);
  ret digest.

Definition get_manifest (reference : string) : M (option string) :=
  let ref_path := manifest_ref_path reference in
  do there <- exists_ ref_path;
  if negb there then ret None
  else
    do digest_str <- read ref_path;
    do digest <- or_fail (parse (Str.trim digest_str)) "corrupt manifest reference";
    do data <- get_blob digest;
    ret (Some data).

End Store.

(** ** Digests and paths *)

Lemma parse_Some s d : parse s = Some d -> d = mkDigest s /\ exists h, s = "sha256:" ++ h /\
  String.length h = 64%nat /\ Text.all_chars is_hexdigit h = true /\ hex d = h.
Proof.
  unfold parse. destruct (Str.strip_prefix "sha256:" s) as [h|] eqn:E; [|done].
  destruct (Nat.eqb_spec (String.length h) 64) as [Hl|]; [|done]. destruct (Text.all_chars is_hexdigit h) eqn:Hh; [|done].
  intros [= <-]. split; [done|]. apply Text.strip_prefix_Some in E as ->. exists h. split_and!; try done.
  unfold hex. cbn [as_str]. rewrite Str.string_length_app, Hl. apply (Text.substring_app "sha256:" h). simpl. lia.
Qed.

Lemma hex_digit_imp c : Text.contains_str (String c "") "0123456789abcdef" = true -> is_hexdigit c = true.
Proof. destruct c as [[] [] [] [] [] [] [] []]; by vm_compute. Qed.

Section Paths.
Context `{Sha : Sha256} `{ShaL : !Sha256Laws} (root : string).

Lemma parse_from_data data : parse (as_str (from_data data)) = Some (from_data data).
Proof.
  unfold parse, from_data. cbn [as_str]. rewrite Text.strip_prefix_app, sha256_hex_length. simpl.
  by rewrite (Text.all_chars_impl _ is_hexdigit _ hex_digit_imp (sha256_hex_digits data)).
Qed.

Lemma hex_from_data data : hex (from_data data) = sha256_hex data.
Proof.
  destruct (parse_Some _ _ (parse_from_data data)) as (_ & h & Heq & _ & _ & ->). unfold from_data in Heq. simpl in Heq.
  by injection Heq.
Qed.

Definition dir (a : string) : string :=
  if String.eqb a "" then "" else match Str.strip_suffix "/" a with Some _ => a | None => a ++ "/" end.

Lemma join_name a b : Str.starts_with "/" b = false -> join a b = dir a ++ b.
Proof.
  intros Hb. unfold join, Shim.join_path, dir. rewrite Hb. destruct (String.eqb a ""); [done|].
  destruct (Str.strip_suffix "/" a); [done|]. by rewrite Text.string_app_assoc.
Qed.

Lemma dir_name x n c : c <> "/"%char -> dir (x ++ n ++ String c "") = x ++ n ++ String c "/".
Proof.
  intros Hc. unfold dir. destruct (String.eqb_spec (x ++ n ++ String c "") "") as [H|_].
  { apply (f_equal String.length) in H. rewrite !Str.string_length_app in H. simpl in H. lia. }
  destruct (Str.strip_suffix "/" (x ++ n ++ String c "")) as [t|] eqn:E.
  - apply Str.strip_suffix_Some in E. rewrite <- Text.string_app_assoc in E. by apply Text.snoc_inj in E as [_ ?].
  - by rewrite !Text.string_app_assoc.
Qed.

Lemma blob_path_eq d h :
  hex d = h -> Text.all_chars is_hexdigit h = true -> h <> "" ->
  blob_path root d = dir root ++ "blobs/sha256/" ++ h.
Proof.
  intros Hd Hh Hne. unfold blob_path, blobs_dir. rewrite Hd.
  rewrite (join_name root "blobs" eq_refl).
  change (dir root ++ "blobs") with (dir root ++ "blob" ++ String "s" "").
  rewrite (join_name _ "sha256" eq_refl), dir_name, !Text.string_app_assoc by done.
  rewrite join_name. 2: { destruct h as [|c h]; [done|]. simpl in *. by destruct c as [[] [] [] [] [] [] [] []]. }
  change ("blob" ++ "s/" ++ "sha256") with ("blobs/sha25" ++ String "6" "").
  by rewrite dir_name, !Text.string_app_assoc by done.
Qed.

Lemma ref_path_eq r :
  manifest_ref_path root r = dir root ++ "manifests/" ++ safe_name r ++ ".json".
Proof.
  unfold manifest_ref_path, manifests_dir. rewrite (join_name root "manifests" eq_refl).
  change (dir root ++ "manifests") with (dir root ++ "manifest" ++ String "s" "").
  rewrite join_name by (by apply Text.replaced_no_slash).
  by rewrite dir_name, !Text.string_app_assoc by done.
Qed.

Definition well_formed (d : Digest) : Prop := parse (as_str d) = Some d.

Lemma well_formed_hex d : well_formed d -> exists h, hex d = h /\ as_str d = "sha256:" ++ h /\
  String.length h = 64%nat /\ Text.all_chars is_hexdigit h = true /\ h <> "".
Proof.
  intros H. apply parse_Some in H as (_ & h & -> & Hl & Hh & Hx). exists h. split_and!; try done. by intros ->.
Qed.

Lemma blob_path_inj d d' : well_formed d -> well_formed d' -> blob_path root d = blob_path root d' -> d = d'.
Proof.
  intros (h & Hx & Ha & _ & Hh & Hn)%well_formed_hex (h' & Hx' & Ha' & _ & Hh' & Hn')%well_formed_hex H.
  rewrite (blob_path_eq d h), (blob_path_eq d' h') in H by done.
  apply Text.app_cancel, Text.app_cancel in H as ->. destruct d, d'. simpl in *. congruence.
Qed.

Lemma blob_not_ref d r : well_formed d -> blob_path root d <> manifest_ref_path root r.
Proof.
  intros (h & Hx & _ & _ & Hh & Hn)%well_formed_hex H.
  rewrite (blob_path_eq d h), ref_path_eq in H by done. by apply Text.app_cancel in H.
Qed.

Lemma ref_path_inj r r' : manifest_ref_path root r = manifest_ref_path root r' -> safe_name r = safe_name r'.
Proof.
  rewrite !ref_path_eq. intros H%Text.app_cancel%Text.app_cancel. by apply Text.app_cancel_r in H.
Qed.

End Paths.

(** ** What the files of a store are

    [link] is what is to be known of the digests recorded under the file name of a
    reference.  [T] holds when a write may have been torn: a blob is then only
    the beginning of the data its name is the digest of. *)
Section Integrity.
Context `{Sha : Sha256} `{ShaL : !Sha256Laws} (root : string).
Context (T : Prop) (link : string -> Digest -> Prop).

Definition is_torn (f : Fault) : bool := match f with Torn _ _ => true | _ => false end.

Definition calm (d : Disk) : Prop :=
  T \/ existsb is_torn (faults d) = false.

Definition blob_ok (d : Digest) (c : string) : Prop :=
  exists data t, from_data data = d /\ data = c ++ t /\ (T \/ c = data).

Record store_ok (d : Disk) : Prop := {
  ok_calm : calm d;
  ok_blobs : forall dg c, well_formed dg -> files d !! blob_path root dg = Some c -> blob_ok dg c;
  ok_refs : forall r txt dg, files d !! manifest_ref_path root r = Some txt -> parse (Str.trim txt) = Some dg ->
    link (safe_name r) dg }.

(** Nothing is lost but, by [remove_file], the name of a manifest. *)
Definition present (dg : Digest) (d : Disk) : Prop := is_Some (files d !! blob_path root dg).
Definition retains (d d' : Disk) : Prop := forall dg, well_formed dg -> present dg d -> present dg d'.
#[global] Instance retains_preorder : PreOrder retains.
Proof. split; [by intros d dg ?|]. intros a b c H1 H2 dg Hw Hp. auto. Qed.

(** A step from a store in order to a store in order that keeps its blobs. *)
Definition steps {A} (c : M A) (Q : A -> Disk -> Prop) : Prop := forall d, store_ok d ->
  wp c (fun r d' => store_ok d' /\ retains d d' /\ match r with Ok a => Q a d' | Err _ => True end) d.

Lemma calm_tail f fs d : calm (mkDisk (files d) (f :: fs)) -> calm (mkDisk (files d) fs).
Proof. unfold calm. simpl. intros [?|[_ Hf]%orb_false_iff]; [by left|by right]. Qed.

Ltac kept := split_and!; first [done|reflexivity|idtac].

Lemma steps_fault : steps next_fault (fun f d => match f with Torn _ _ => T | _ => True end).
Proof.
  intros d Hd. unfold wp, next_fault. destruct (faults d) as [|f fs] eqn:Hf; [done|]. cbn [fst snd].
  assert (Hc : calm (mkDisk (files d) (f :: fs))).
  { destruct (ok_calm d Hd) as [?|Hc]; [by left|]. right. cbn [faults]. by rewrite <- Hf. }
  split_and!; [split|by intros ? ?|].
  - by apply (calm_tail f).
  - apply (ok_blobs d Hd).
  - apply (ok_refs d Hd).
  - destruct f; try done. by destruct Hc.
Qed.

Lemma steps_bind {A B} (c : M A) (k : A -> M B) Q R :
  steps c Q -> (forall a d, Q a d -> store_ok d ->
    wp (k a) (fun r d' => store_ok d' /\ retains d d' /\ match r with Ok b => R b d' | Err _ => True end) d) ->
  steps (bind c k) R.
Proof.
  intros Hc Hk d Hd. apply wp_bind. eapply wp_mono; [by apply Hc|]. intros [a|e] d' (Hd' & Hr & Hq); [|done].
  eapply wp_mono; [by apply Hk|]. intros r d'' (? & ? & ?). split_and!; [done|by etrans|done].
Qed.

Lemma steps_weaken {A} (c : M A) (Q Q' : A -> Disk -> Prop) :
  steps c Q -> (forall a d, Q a d -> Q' a d) -> steps c Q'.
Proof. intros H HQ d Hd. eapply wp_mono; [by apply H|]. intros [a|e] d' (?&?&?); split_and!; auto. Qed.

Lemma steps_exists path : steps (exists_ path) (fun b d => b = true -> is_Some (files d !! path)).
Proof.
  eapply steps_bind; [apply steps_fault|]. intros f d _ Hd. destruct f; unfold wp; simpl; kept.
  by intros ?%bool_decide_eq_true.
Qed.

Lemma steps_read path : steps (read path) (fun c d => files d !! path = Some c).
Proof.
  eapply steps_bind; [apply steps_fault|]. intros f d _ Hd. destruct f; try (by unfold wp; kept).
  apply wp_bind, wp_gets. destruct (files d !! path) eqn:E; unfold wp; simpl; kept.
Qed.

(** A write keeps the store in order when whatever it can leave does. *)
Lemma steps_write path data :
  (forall dg c t, well_formed dg -> path = blob_path root dg -> data = c ++ t -> (T \/ c = data) -> blob_ok dg c) ->
  (forall r c t dg, path = manifest_ref_path root r -> data = c ++ t -> parse (Str.trim c) = Some dg -> link (safe_name r) dg) ->
  steps (write path data) (fun _ d => files d !! path = Some data).
Proof.
  intros Hb Hr. eapply steps_bind; [apply steps_fault|]. intros f d Hf Hd.
  assert (Hset : forall c t, data = c ++ t -> (T \/ c = data) ->
    store_ok (mkDisk (<[path := c]> (files d)) (faults d)) /\ retains d (mkDisk (<[path := c]> (files d)) (faults d))).
  { intros c t Hc HT. split; [split|].
    - apply (ok_calm d Hd).
    - intros dg x Hw. simpl. rewrite lookup_insert_Some. intros [[Hp <-]|[_ ?]]; [by eapply Hb|by apply (ok_blobs d Hd)].
    - intros r x dg. simpl. rewrite lookup_insert_Some. intros [[Hp <-]|[_ ?]]; [by eapply Hr|by eapply (ok_refs d Hd)].
    - intros dg Hw Hp. unfold present. simpl. destruct (decide (path = blob_path root dg)) as [->|]; by simplify_map_eq. }
  destruct f as [|e|n e].
  - unfold wp, set_files, modify. simpl. destruct (Hset data "") as [? ?]; [by rewrite Text.app_nil|by right|].
    split_and!; [done..|]. by simplify_map_eq.
  - by unfold wp; kept.
  - unfold wp, bind, set_files, modify. simpl. destruct (Text.substring_prefix n data) as [t Ht].
    destruct (Hset (String.substring 0 n data) t) as [? ?]; [done|by left|]. done.
Qed.

Lemma steps_put_blob data :
  steps (put_blob root data) (fun dg d => dg = from_data data /\ present dg d).
Proof.
  eapply steps_bind; [apply steps_exists|]. intros there d Ht Hd. apply wp_bind.
  assert (Hw : well_formed (from_data data)) by apply parse_from_data.
  destruct there; simpl.
  - apply wp_ret, wp_ret. kept. by apply Ht.
  - assert (Hs : steps (write (blob_path root (from_data data)) data)
                   (fun _ d => files d !! blob_path root (from_data data) = Some data)).
    { apply steps_write.
      - intros dg c t Hg Hp Hc HT. apply blob_path_inj in Hp as <-; [|done..]. by exists data, t.
      - intros r c t dg Hp. by apply blob_not_ref in Hp. }
    eapply wp_mono; [by apply Hs|]. intros [[]|e] d' (? & ? & Hf); [|done]. apply wp_ret. split_and!; [done..|].
    by eexists.
Qed.

Lemma steps_get_blob dg : well_formed dg -> steps (get_blob root dg) (fun c _ => blob_ok dg c).
Proof.
  intros Hw d Hd. eapply wp_mono; [by apply steps_read|]. intros [c|e] d' (Hd' & ? & Hf); [|done].
  split_and!; [done..|]. by apply (ok_blobs d' Hd').
Qed.

Lemma steps_has_blob dg : steps (has_blob root dg) (fun b d => b = true -> present dg d).
Proof. apply steps_exists. Qed.

(** A digest cut short is not a digest. *)
Lemma torn_digest dg c t d' :
  well_formed dg -> as_str dg = c ++ t -> parse (Str.trim c) = Some d' -> d' = dg.
Proof.
  intros (h & _ & Hs & Hl & Hh & _)%well_formed_hex Hc Hp.
  assert (Hg : Text.all_chars Text.graphic (as_str dg) = true).
  { rewrite Hs, Text.all_chars_app. simpl. revert Hh. apply Text.all_chars_impl.
    intros x. destruct x as [[] [] [] [] [] [] [] []]; by vm_compute. }
  rewrite Hc, Text.all_chars_app in Hg. apply andb_true_iff in Hg as [Hg _].
  rewrite Text.trim_graphic in Hp by done. apply parse_Some in Hp as (-> & h' & -> & Hl' & _ & _).
  rewrite Hs in Hc. apply (f_equal String.length) in Hc as Hn. rewrite !Str.string_length_app, Hl, Hl' in Hn. simpl in Hn.
  destruct t; [|simpl in Hn; lia]. destruct dg as [s]. simpl in *. by rewrite Hs, Hc, Text.app_nil.
Qed.

Lemma steps_put_manifest r manifest :
  (forall r', safe_name r' = safe_name r -> link (safe_name r') (from_data manifest)) ->
  steps (put_manifest root r manifest) (fun dg _ => dg = from_data manifest).
Proof.
  intros Hl. eapply steps_bind; [apply steps_put_blob|]. intros dg d [-> _] Hd. apply wp_bind.
  assert (Hs : steps (write (manifest_ref_path root r) (as_str (from_data manifest))) (fun _ _ => True)).
  { eapply steps_weaken; [apply steps_write|done].
    - intros dg c t Hw Hp. symmetry in Hp. by apply blob_not_ref in Hp.
    - intros r' c t dg Hp Hc Hg. apply ref_path_inj in Hp as Hp'.
      rewrite (torn_digest (from_data manifest) c t dg) by (done || apply parse_from_data). by apply Hl. }
  eapply wp_mono; [by apply Hs|]. intros [[]|e] d' (? & ? & _); [|done]. by apply wp_ret.
Qed.

(** A manifest that is found is recorded for the reference, and its bytes are the
    recorded digest's. *)
Lemma steps_get_manifest r :
  steps (get_manifest root r) (fun o _ => forall data, o = Some data ->
    exists dg, link (safe_name r) dg /\ blob_ok dg data).
Proof.
  eapply steps_bind; [apply steps_exists|]. intros there d _ Hd. destruct there; simpl; [|by apply wp_ret; kept].
  apply wp_bind. eapply wp_mono; [by apply steps_read|]. intros [txt|e] d' (Hd' & Hr & Hf); [|done].
  apply wp_bind, wp_or_fail; [|by intros _; kept]. intros dg Hdg. apply wp_bind.
  assert (Hw : well_formed dg).
  { apply parse_Some in Hdg as Hx. destruct Hx as [-> _]. exact Hdg. }
  eapply wp_mono; [by apply steps_get_blob|]. intros [c|e] d'' (Hd'' & Hr' & Hb); [|by split_and!; try done; etrans].
  apply wp_ret. split_and!; [done|by etrans|]. intros data [= <-]. exists dg. split; [|done].
  by eapply (ok_refs d' Hd').
Qed.

Lemma steps_remove r : steps (remove_file (manifest_ref_path root r)) (fun _ _ => True).
Proof.
  eapply steps_bind; [apply steps_fault|]. intros f d Hf Hd. destruct f; try (by unfold wp; kept).
  unfold wp, set_files, modify. simpl. split_and!; [split|..|done].
  - apply (ok_calm d Hd).
  - intros dg c Hw. simpl. intros [_ ?]%lookup_delete_Some. by apply (ok_blobs d Hd).
  - intros r' c dg. simpl. intros [_ ?]%lookup_delete_Some. by eapply (ok_refs d Hd).
  - intros dg Hw [c Hp]. exists c. simpl. apply lookup_delete_Some. split; [|done].
    intros Heq. symmetry in Heq. by apply blob_not_ref in Heq.
Qed.

End Integrity.
End Content.
