(* ===== verification/Images.v ===== *)
(** * Pulling images

    [rauha-oci/src/distribution.rs] and the pull and inspection half of
    [rauha-oci/src/image.rs]: manifests and blobs are fetched from a registry that
    can answer anything and kept in the content store.  What a reference with a
    digest yields is what the digest names, whatever was answered or failed. *)

From stdpp Require Import base gmap strings list.
From Stdlib Require Import ZArith Ascii String Lia.
From S2P Require Import Prelude.
From S2P Require Import RustStr.
From S2P Require Import RustText.
From S2P Require Import Zone.
From S2P Require Import StateError.
From S2P Require Import Shim.
From S2P Require Import Reference.
From S2P Require Import Content.
Open Scope string_scope.

Module Images.

(** ** Documents *)

Record OciDescriptor := mkDescriptor { media_type : string; digest : string; size : Z }.
Record OciManifest := mkManifest {
  schema_version : Z; manifest_media_type : string; config : OciDescriptor; layers : list OciDescriptor }.
Record OciPlatform := mkPlatform { architecture : string; os : string }.
Record OciPlatformManifest := mkPlatformManifest {
  pm_media_type : string; pm_digest : string; pm_size : Z; platform : option OciPlatform }.
Record OciIndex := mkIndex { index_schema_version : Z; manifests : list OciPlatformManifest }.
Record OciImageConfigInner := mkConfigInner {
  cmd : option (list string); entrypoint : option (list string); env : option (list string);
  working_dir : option string; user : option string }.
Record OciImageConfig := mkImageConfig { inner_config : option OciImageConfigInner }.

Record PullProgress := mkProgress { status : string; layer : string; current : Z; total : Z; done : bool }.
Record ImageInspection := mkInspection {
  ii_digest : string; ii_config : OciImageConfig; ii_config_json : string; ii_layers : list string; ii_size : Z }.

(** The JSON reader.  A field is [Some None] when it is there and no string. *)
Class OciJson := {
  manifest_of_json : string -> result OciManifest string;
  index_of_json : string -> result OciIndex string;
  config_of_json : string -> result OciImageConfig string;
  fields_of_json : string -> result (string -> option (option string)) string;
  utf8_lossy : string -> string }.

(** ** The registry's side *)

Record Request := mkRequest { url : string; accept : option string; bearer : option string }.
Record Response := mkResponse {
  code : Z; www_authenticate : string; content_length : option Z; chunks : list (result string string) }.

Class Http (N : Type) := {
  send : Request -> N -> result Response string * N;
  sleep_s : Z -> N -> N;
  code_text : Z -> string }.

Section Images.
Context `{Sha : Sha256} `{Json : OciJson} {N : Type} `{Net : Http N}.
Context (root target_arch : string).

(** The token cache, and what the caller is told of a pull; [last_reported_pct]
    is the variable the progress closure of a layer captures. *)
Record World := mkWorld {
  disk : Content.Disk;
  net : N;
  tokens : gmap (string * string) string;
  last_reported_pct : Z;
  progress : list PullProgress }.

Notation M := (M World RauhaError).

Definition on_disk {A} (c : StateError.M Content.Disk string A) (err : string -> RauhaError) : M A := fun w =>
  let '(r, d) := c (disk w) in (map_err err r, mkWorld d (net w) (tokens w) (last_reported_pct w) (progress w)).
Definition on_net {A} (f : N -> result A string * N) (err : string -> RauhaError) : M A := fun w =>
  let '(r, n) := f (net w) in (map_err err r, mkWorld (disk w) n (tokens w) (last_reported_pct w) (progress w)).
Definition on_progress (p : PullProgress) : M unit :=
  modify (fun w => mkWorld (disk w) (net w) (tokens w) (last_reported_pct w) (progress w ++ [p])%list).
Definition set_pct (pct : Z) : M unit :=
  modify (fun w => mkWorld (disk w) (net w) (tokens w) pct (progress w)).

(** [ContentStore::new(&root_path.join("content"))]. *)
Definition content_root : string := Shim.join_path root "content".

(** ** Requests *)

(** [for attempt in 0..4]. *)
Fixpoint send_attempts (attempts : list Z) (request : Request) (reference : string) : M Response :=
  match attempts with
  | [] => fail (Other "internal error: entered unreachable code")
  | attempt :: rest =>
      do response <- on_net (send request) (fun e => ImagePullError reference ("request failed: " ++ e));
      if negb (code response =? 429)%Z || (attempt =? 3)%Z then ret response
      else
        do _ <- on_net (fun n => (Ok tt, sleep_s (2 ^ attempt) n)) (fun e : string => Other e);
        send_attempts rest request reference
  end.

Definition send_with_rate_limit (request : Request) (reference : string) : M Response :=
  send_attempts [0; 1; 2; 3]%Z request reference.

Definition get_cached_token (registry scope : string) : M (option string) :=
  gets (fun w => tokens w !! (registry, scope)).
Definition cache_token (registry scope token : string) : M unit :=
  modify (fun w => mkWorld (disk w) (net w) (<[(registry, scope) := token]> (tokens w)) (last_reported_pct w) (progress w)).

Fixpoint body_of (cs : list (result string string)) : result string string :=
  match cs with
  | [] => Ok ""
  | c :: cs => let? a := c in let? b := body_of cs in Ok (a ++ b)
  end.

Definition extract_param (header key : string) : option string :=
  match Text.split_str_once (key ++ "=" ++ String "034" "") header with
  | Some (_, rest) => match Str.split_once "034" rest with Some (value, _) => Some value | None => None end
  | None => None
  end.

Definition fetch_token (www_authenticate scope : string) : M string :=
  let realm := default "" (extract_param www_authenticate "realm") in
  let service := default "" (extract_param www_authenticate "service") in
  if String.eqb realm "" then fail (ImagePullError "" "no realm in Www-Authenticate header")
  else
    let url := realm ++ "?service=" ++ service ++ "&scope=" ++ scope in
    do resp <- send_with_rate_limit (mkRequest url None None) url;
    do fields <- of_result (map_err (fun e => ImagePullError url ("invalid token response: " ++ e))
                   (let? body := body_of (chunks resp) in fields_of_json body));
    let value := match fields "token" with Some v => Some v | None => fields "access_token" end in
    match value with
    | Some (Some token) => ret token
    | _ => fail (ImagePullError "" "no token in auth response")
    end.

Definition is_success (r : Response) : bool := ((200 <=? code r) && (code r <? 300))%Z.
Definition http_error {A} (url : string) (r : Response) : M A := fail (ImagePullError url ("HTTP " ++ code_text (code r))).

(** The challenge flow: a cached token, no token, a fetched one. *)
Definition with_auth (url registry repository : string) (accept : option string) : M Response :=
  let scope := "repository:" ++ repository ++ ":pull" in
  do cached <- get_cached_token registry scope;
  do first <- (match cached with
               | Some token =>
                   do resp <- send_with_rate_limit (mkRequest url accept (Some token)) url;
                   ret (if is_success resp then Some resp else None)
               | None => ret None
               end);
  match first with
  | Some resp => ret resp
  | None =>
      do resp <- send_with_rate_limit (mkRequest url accept None) url;
      if (code resp =? 401)%Z then
        do token <- fetch_token (www_authenticate resp) scope;
        do _ <- cache_token registry scope token;
        do resp <- send_with_rate_limit (mkRequest url accept (Some token)) url;
        if negb (is_success resp) then http_error url resp else ret resp
      else if is_success resp then ret resp
      else http_error url resp
  end.

Definition authenticated_get (url registry repository : string) (accept : list string) : M string :=
  do resp <- with_auth url registry repository (Some (Str.join ", " accept));
  of_result (map_err (fun e => ImagePullError url ("read body failed: " ++ e)) (body_of (chunks resp))).

Definition authenticated_get_response (url registry repository : string) : M Response :=
  with_auth url registry repository None.

(** ** Manifests *)

Definition verify_manifest_digest (expected : option string) (body reference : string) : result unit RauhaError :=
  match expected with
  | None => Ok tt
  | Some expected =>
      let? digest := ok_or (Content.parse expected) (ImagePullError reference ("invalid manifest digest: " ++ expected)) in
      if Content.validate digest body then Ok tt
      else Err (ImagePullError reference ("manifest digest mismatch for " ++ Content.as_str digest))
  end.

Definition current_platform : string * string :=
  ("linux", if String.eqb target_arch "x86_64" then "amd64"
            else if String.eqb target_arch "aarch64" then "arm64" else "amd64").

Definition is_platform (os_ arch : string) (m : OciPlatformManifest) : bool :=
  match platform m with Some p => String.eqb (os p) os_ && String.eqb (architecture p) arch | None => false end.

Definition MANIFEST_TYPES : list string :=
  ["application/vnd.oci.image.manifest.v1+json"; "application/vnd.docker.distribution.manifest.v2+json"].
Definition INDEX_TYPES : list string :=
  ["application/vnd.oci.image.index.v1+json"; "application/vnd.docker.distribution.manifest.list.v2+json"].

Definition put_manifest (canonical body : string) : M Content.Digest :=
  on_disk (Content.put_manifest content_root canonical body)
    (fun e => ContentError ("failed to store manifest: " ++ e)).

Definition pick_platform (index : OciIndex) : option OciPlatformManifest :=
  let '(target_os, arch) := current_platform in
  match List.find (is_platform target_os arch) (manifests index) with
  | Some m => Some m
  | None => List.find (is_platform "linux" "amd64") (manifests index)
  end.

Definition manifest_url (r : Reference.ImageReference) (selector : string) : string :=
  "https://" ++ Reference.registry r ++ "/v2/" ++ Reference.repository r ++ "/manifests/" ++ selector.

Definition pull_manifest (reference : Reference.ImageReference) : M OciManifest :=
  let selector := default (Reference.tag reference) (Reference.digest reference) in
  do body <- authenticated_get (manifest_url reference selector) (Reference.registry reference)
               (Reference.repository reference) (MANIFEST_TYPES ++ INDEX_TYPES);
  let canonical := Reference.to_string_canonical reference in
  do _ <- of_result (verify_manifest_digest (Reference.digest reference) body canonical);
  match manifest_of_json body with
  | Ok manifest => do _ <- put_manifest canonical body; ret manifest
  | Err _ =>
      do index <- of_result (map_err (fun e => ImagePullError canonical
                     ("invalid manifest JSON (not a manifest or index): " ++ e)) (index_of_json body));
      do entry <- or_fail (pick_platform index)
                    (ImagePullError canonical ("no manifest for platform " ++ fst current_platform ++ "/"
                       ++ snd current_platform ++ " in index"));
      do manifest_body <- authenticated_get (manifest_url reference (pm_digest entry))
                            (Reference.registry reference) (Reference.repository reference) MANIFEST_TYPES;
      do _ <- of_result (verify_manifest_digest (Some (pm_digest entry)) manifest_body canonical);
      do _ <- put_manifest canonical manifest_body;
      of_result (map_err (fun e => ImagePullError canonical ("invalid platform manifest JSON: " ++ e))
                   (manifest_of_json manifest_body))
  end.

(** ** Blobs *)

(** The chunks as they arrive, each reported. *)
Fixpoint download (digest : Content.Digest) (on_chunk : Z -> Z -> M unit) (total downloaded : Z) (body : string)
    (cs : list (result string string)) : M string :=
  match cs with
  | [] => ret body
  | Err e :: _ => fail (ImagePullError (Content.as_str digest) ("download error: " ++ e))
  | Ok chunk :: cs =>
      let downloaded := wrap 64 (downloaded + Z.of_nat (String.length chunk)) in
      do _ <- on_chunk downloaded total;
      download digest on_chunk total downloaded (body ++ chunk) cs
  end.

Definition pull_blob (registry repository : string) (digest : Content.Digest) (on_chunk : Z -> Z -> M unit) : M unit :=
  do there <- on_disk (Content.has_blob content_root digest) (fun e => ContentError e);
  if there : bool then ret tt
  else
    let url := "https://" ++ registry ++ "/v2/" ++ repository ++ "/blobs/" ++ Content.as_str digest in
    do resp <- authenticated_get_response url registry repository;
    let total := default 0%Z (content_length resp) in
    do bytes <- download digest on_chunk total 0 "" (chunks resp);
    if negb (Content.validate digest bytes)
    then fail (ContentError ("digest mismatch for " ++ Content.as_str digest))
    else
      do _ <- on_disk (Content.put_blob content_root bytes) (fun e => ContentError ("failed to store blob: " ++ e));
      ret tt.

(** ** The image service *)

Definition canonical_of (reference_str : string) : M string :=
  do reference <- of_result (map_err (ImagePullError reference_str) (Reference.parse reference_str));
  ret (Reference.to_string_canonical reference).

Fixpoint all_present (entries : list OciDescriptor) : M bool :=
  match entries with
  | [] => ret true
  | entry :: rest =>
      match Content.parse (digest entry) with
      | None => ret false
      | Some d =>
          do there <- on_disk (Content.has_blob content_root d) (fun e => ContentError e);
          if there : bool then all_present rest else ret false
      end
  end.

Definition manifest_blobs_present (manifest : OciManifest) : M bool := all_present (config manifest :: layers manifest).

Definition cached_manifest (canonical : string) : M (option OciManifest) :=
  do bytes <- on_disk (Content.get_manifest content_root canonical)
                (fun e => ContentError ("failed to read cached manifest: " ++ e));
  match bytes with
  | Some bytes =>
      match manifest_of_json bytes with
      | Ok manifest => do complete <- manifest_blobs_present manifest; ret (if complete : bool then Some manifest else None)
      | Err _ => ret None
      end
  | None => ret None
  end.

(** Every five per cent, and at the end. *)
Definition report_layer (status_prefix layer : string) (manifest_size current total : Z) : M unit :=
  let effective_total := (if 0 <? total then total else manifest_size)%Z in
  if (effective_total =? 0)%Z then ret tt
  else
    let pct := as_signed 64 (wrap 64 (current * 100) / effective_total) in
    do last <- gets last_reported_pct;
    if ((last + 5 <=? pct) || (pct =? 100) && negb (last =? 100))%Z
    then do _ <- set_pct pct; on_progress (mkProgress status_prefix layer current effective_total false)
    else ret tt.

Fixpoint pull_layers (reference_str : string) (reference : Reference.ImageReference) (count i : Z)
    (ls : list OciDescriptor) : M unit :=
  match ls with
  | [] => ret tt
  | l :: rest =>
      do layer_digest <- or_fail (Content.parse (digest l))
                           (ImagePullError reference_str ("invalid layer digest: " ++ digest l));
      let layer_num := Str.show (i + 1) ++ "/" ++ Str.show count in
      do _ <- on_progress (mkProgress ("pulling layer " ++ layer_num) (Content.as_str layer_digest) 0 (size l) false);
      do _ <- set_pct (-1);
      do _ <- pull_blob (Reference.registry reference) (Reference.repository reference) layer_digest
                (report_layer ("pulling layer " ++ layer_num) (Content.as_str layer_digest) (size l));
      pull_layers reference_str reference count (i + 1) rest
  end.

Definition told (text : string) (is_done : bool) : M unit := on_progress (mkProgress text "" 0 0 is_done).

Definition pull_blobs (reference_str : string) (reference : Reference.ImageReference) (manifest : OciManifest)
  : M OciManifest :=
  do config_digest <- or_fail (Content.parse (digest (config manifest)))
                        (ImagePullError reference_str ("invalid config digest: " ++ digest (config manifest)));
  do _ <- on_progress (mkProgress "pulling config" (Content.as_str config_digest) 0 (size (config manifest)) false);
  do _ <- pull_blob (Reference.registry reference) (Reference.repository reference) config_digest (fun _ _ => ret tt);
  do _ <- pull_layers reference_str reference (Z.of_nat (List.length (layers manifest))) 0 (layers manifest);
  do _ <- told "pull complete" true;
  ret manifest.

Definition pull (reference_str : string) : M OciManifest :=
  do reference <- of_result (map_err (ImagePullError reference_str) (Reference.parse reference_str));
  do cached <- cached_manifest (Reference.to_string_canonical reference);
  match Reference.digest reference, cached with
  | Some _, Some manifest => do _ <- told "pull complete (cached)" true; ret manifest
  | _, _ =>
      do _ <- told "pulling manifest" false;
      do pulled <- attempt (pull_manifest reference);
      match pulled, cached with
      | Ok manifest, _ => pull_blobs reference_str reference manifest
      | Err error, None => fail error
      | Err error, Some manifest => do _ <- told "pull complete (cached; registry unreachable)" true; ret manifest
      end
  end.

(** The stored manifest of a reference. *)
Definition load_manifest (reference_str : string) (missing : RauhaError) : M (string * OciManifest) :=
  do canonical <- canonical_of reference_str;
  do bytes <- on_disk (Content.get_manifest content_root canonical) (fun e => ContentError ("failed to read manifest: " ++ e));
  do bytes <- or_fail bytes missing;
  do manifest <- of_result (map_err (fun e => ContentError ("corrupt manifest: " ++ e)) (manifest_of_json bytes));
  ret (bytes, manifest).

Definition not_pulled (reference_str : string) : RauhaError :=
  ImagePullError reference_str "image not pulled — run `rauha image pull` first".

Definition layer_digests (reference_str : string) : M (list string * string) :=
  do (_, manifest) <- load_manifest reference_str (not_pulled reference_str);
  ret (map digest (layers manifest), Shim.join_path root "content").

Definition image_safe_name (reference_str : string) : M string :=
  do canonical <- canonical_of reference_str; ret (Content.safe_name canonical).

Definition load_config (manifest : OciManifest) : M (string * OciImageConfig) :=
  do config_digest <- or_fail (Content.parse (digest (config manifest)))
                        (ContentError ("invalid config digest: " ++ digest (config manifest)));
  do config_bytes <- on_disk (Content.get_blob content_root config_digest)
                       (fun e => ContentError ("failed to read config blob: " ++ e));
  do c <- of_result (map_err (fun e => ContentError ("corrupt image config: " ++ e)) (config_of_json config_bytes));
  ret (config_bytes, c).

Definition inspect (reference_str : string) : M OciImageConfig :=
  do (_, manifest) <- load_manifest reference_str (ImageNotFound reference_str);
  do (_, c) <- load_config manifest;
  ret c.

(** The sum of the sizes is unchecked. *)
Definition inspect_full (reference_str : string) : M ImageInspection :=
  do (manifest_bytes, manifest) <- load_manifest reference_str (ImageNotFound reference_str);
  do (config_bytes, c) <- load_config manifest;
  ret (mkInspection (Content.as_str (Content.from_data manifest_bytes)) c (utf8_lossy config_bytes)
         (map digest (layers manifest)) (wrap 64 (foldr (fun l s => size l + s)%Z 0%Z (layers manifest)))).

Definition remove_image (reference_str : string) : M unit :=
  do canonical <- canonical_of reference_str;
  let ref_path := Content.manifest_ref_path (Shim.join_path root "content") canonical in
  do there <- on_disk (Content.exists_ ref_path) (fun e => ContentError e);
  if there : bool
  then on_disk (Content.remove_file ref_path) (fun e => ContentError ("failed to remove manifest ref: " ++ e))
  else ret tt.

End Images.

(** ** Names of stored references *)

Lemma safe_app a b : Content.safe_name (a ++ b) = Content.safe_name a ++ Content.safe_name b.
Proof. unfold Content.safe_name. by rewrite !Text.replace_app. Qed.

Lemma safe_at s : Str.contains_char "@" (Content.safe_name s) = Str.contains_char "@" s.
Proof. unfold Content.safe_name. by rewrite !Text.replace_contains by done. Qed.

(** A name without an underscore is the name of nothing else. *)
Lemma safe_exact s : Str.contains_char "_" (Content.safe_name s) = false -> Content.safe_name s = s.
Proof.
  unfold Content.safe_name. intros H. pose proof (Text.replace_none _ _ _ H) as Heq. rewrite Heq in H |- *.
  by apply Text.replace_none.
Qed.

Lemma safe_digest h h' :
  Text.all_chars Content.is_hexdigit h = true ->
  Content.safe_name ("sha256:" ++ h) = Content.safe_name ("sha256:" ++ h') -> h = h'.
Proof.
  intros Hh H. rewrite !safe_app in H. apply Text.app_cancel in H.
  assert (Hu : Str.contains_char "_" h = false /\ Content.safe_name h = h).
  { clear H. induction h as [|c h IH]; [done|]. simpl in Hh. apply andb_true_iff in Hh as [Hc Hh].
    destruct (IH Hh) as [IH1 IH2]. change (String c h) with (String c "" ++ h). rewrite Text.contains_char_app, safe_app, IH1, IH2.
    by destruct c as [[] [] [] [] [] [] [] []]. }
  destruct Hu as [Hu He]. rewrite He in H. rewrite H in Hu |- *. by apply safe_exact.
Qed.

Section Pinned.
Context `{Sha : Sha256} `{ShaL : !Sha256Laws} `{Json : OciJson} {N : Type} `{Net : Http N}.
Context (root target_arch : string) (T : Prop).

(** [D] names the bytes digested as [dg]: itself, or through an index. *)
Definition chain (D dg : Content.Digest) : Prop :=
  exists body, Content.from_data body = D /\
    (dg = D \/ exists index entry, index_of_json body = Ok index /\ entry ∈ manifests index /\
                Content.parse (pm_digest entry) = Some dg).

Definition names (D : Content.Digest) (m : OciManifest) : Prop :=
  exists dg c, chain D dg /\ Content.blob_ok T dg c /\ manifest_of_json c = Ok m.

Definition link (safe : string) (dg : Content.Digest) : Prop := forall n d,
  Str.contains_char "@" n = false -> Str.starts_with "sha256:" d = true -> safe = Content.safe_name (n ++ "@" ++ d) ->
  exists D, Content.parse d = Some D /\ chain D dg.

Notation store_ok := (Content.store_ok (content_root root) T link).
Notation retains := (Content.retains (content_root root)).
Notation present := (Content.present (content_root root)).

Definition steps {A} (c : M (World (N := N)) RauhaError A) (Q : A -> World (N := N) -> Prop) : Prop :=
  forall w, store_ok (disk w) ->
  wp c (fun r w' => store_ok (disk w') /\ retains (disk w) (disk w') /\ match r with Ok a => Q a w' | Err _ => True end) w.

Lemma steps_disk {A} (c : M Content.Disk string A) err Q :
  Content.steps (content_root root) T link c Q -> steps (on_disk c err) (fun a w => Q a (disk w)).
Proof.
  intros Hc w Hw. specialize (Hc (disk w) Hw). unfold wp, on_disk in *. destruct (c (disk w)) as [[a|e] d]; exact Hc.
Qed.

Lemma pull_bind {A B} (c : M World RauhaError A) (k : A -> M World RauhaError B) Q R :
  steps c Q -> (forall a w, Q a w -> store_ok (disk w) ->
    wp (k a) (fun r w' => store_ok (disk w') /\ retains (disk w) (disk w') /\ match r with Ok b => R b w' | Err _ => True end) w) ->
  steps (bind c k) R.
Proof.
  intros Hc Hk w Hw. apply wp_bind. eapply wp_mono; [by apply Hc|]. intros [a|e] w' (Hw' & Hr & Hq); [|done].
  eapply wp_mono; [by apply Hk|]. intros r w'' (? & ? & ?). split_and!; [done|by etrans|done].
Qed.

Lemma pull_weaken {A} (c : M World RauhaError A) (Q Q' : A -> World -> Prop) :
  steps c Q -> (forall a w, Q a w -> Q' a w) -> steps c Q'.
Proof. intros H HQ w Hw. eapply wp_mono; [by apply H|]. intros [a|e] w' (?&?&?); split_and!; auto. Qed.

Definition same_disk (w w' : World (N := N)) : Prop := disk w' = disk w.
#[local] Instance same_disk_preorder : PreOrder same_disk.
Proof. split; [done|]. unfold same_disk. congruence. Qed.

Lemma steps_keeps {A} (c : M World RauhaError A) : keeps same_disk c -> steps c (fun _ _ => True).
Proof.
  intros Hc w Hw. eapply wp_mono; [apply Hc|]. intros r w' Hs. unfold same_disk in Hs. rewrite Hs.
  split_and!; [done|reflexivity|by destruct r].
Qed.

Lemma net_keeps {A} (f : N -> result A string * N) err : keeps same_disk (on_net f err).
Proof. intros w. unfold wp, on_net. by destruct (f (net w)). Qed.

Lemma send_keeps attempts req reference : keeps same_disk (send_attempts attempts req reference).
Proof.
  induction attempts as [|a rest IH]; [apply keeps_fail; apply _|]. simpl.
  apply keeps_bind; [apply _|apply net_keeps|]. intros resp. case_match; [apply keeps_ret; apply _|].
  apply keeps_bind; [apply _|apply net_keeps|auto].
Qed.

Lemma tell_keeps p : keeps same_disk (on_progress (N := N) p).
Proof. by intros w. Qed.
Lemma pct_keeps p : keeps same_disk (set_pct (N := N) p).
Proof. by intros w. Qed.
Lemma cache_keeps a b t : keeps same_disk (cache_token (N := N) a b t).
Proof. by intros w. Qed.
#[local] Hint Resolve net_keeps send_keeps tell_keeps pct_keeps cache_keeps : keeps.

Lemma auth_keeps url a b accept : keeps same_disk (with_auth url a b accept).
Proof.
  unfold with_auth, get_cached_token, send_with_rate_limit, fetch_token, http_error.
  repeat first [keeps_step | solve [eauto 2 with keeps] | case_match]. 
Qed.

Lemma link_reference s r dg :
  Reference.parse s = Ok r ->
  (forall d0, Reference.digest r = Some d0 -> exists D, Content.parse d0 = Some D /\ chain D dg) ->
  link (Content.safe_name (Reference.to_string_canonical r)) dg.
Proof.
  intros Hp Hd n d Hn Hs Heq. apply Reference.parse_shape in Hp as (Hat & Htag & _).
  unfold Reference.to_string_canonical in Heq. destruct (Reference.digest r) as [d0|] eqn:E.
  - destruct (Hd d0 eq_refl) as (D & HD & Hc). rewrite Text.string_app_assoc3, !(safe_app _ ("@" ++ _)) in Heq.
    change (Content.safe_name ("@" ++ d0)) with (String "@" (Content.safe_name d0)) in Heq.
    change (Content.safe_name ("@" ++ d)) with (String "@" (Content.safe_name d)) in Heq.
    assert (Hsafe : Content.safe_name d0 = Content.safe_name d).
    { rewrite <- safe_at in Hat, Hn. apply (f_equal (Str.split_once "@")) in Heq.
      rewrite !Text.split_once_app in Heq by done. by injection Heq. }
    destruct (Content.parse_Some _ _ HD) as (_ & h & -> & _ & Hh & _). apply Text.starts_with_Some in Hs as [h' ->].
    apply safe_digest in Hsafe as <-; [|done]. by exists D.
  - apply (f_equal (Str.contains_char "@")) in Heq. rewrite !safe_at, !Text.contains_char_app in Heq.
    cbn in Heq. rewrite !orb_true_r, Htag, orb_false_r in Heq.
    rewrite !Text.contains_char_app in Hat. cbn in Hat. congruence.
Qed.

Lemma verified D body r : verify_manifest_digest (Some D) body r = Ok tt ->
  exists dg, Content.parse D = Some dg /\ Content.from_data body = dg.
Proof.
  unfold verify_manifest_digest. destruct (Content.parse D) as [dg|]; simpl; [|done].
  destruct (Content.validate dg body) eqn:E; [|done]. intros _. exists dg. split; [done|]. by apply bool_decide_eq_true in E.
Qed.

Lemma steps_get url a b accept : steps (authenticated_get url a b accept) (fun _ _ => True).
Proof. apply steps_keeps. unfold authenticated_get. apply keeps_bind; [apply _|apply auth_keeps|]. intros ?. keeps_step. Qed.

Lemma steps_put s r body :
  Reference.parse s = Ok r ->
  (forall d0, Reference.digest r = Some d0 -> exists D, Content.parse d0 = Some D /\ chain D (Content.from_data body)) ->
  steps (put_manifest root (Reference.to_string_canonical r) body) (fun _ _ => True).
Proof.
  intros Hp Hd. unfold put_manifest. eapply pull_weaken; [apply steps_disk, Content.steps_put_manifest|done].
  intros r' ->. by eapply link_reference.
Qed.

Lemma whole data : Content.blob_ok T (Content.from_data data) data.
Proof. exists data, "". split_and!; [done|by rewrite Text.app_nil|by right]. Qed.

Definition as_named (r : Reference.ImageReference) (m : OciManifest) : Prop :=
  forall d0, Reference.digest r = Some d0 -> exists D, Content.parse d0 = Some D /\ names D m.

Lemma steps_pull_manifest s r :
  Reference.parse s = Ok r -> steps (pull_manifest root target_arch r) (fun m _ => as_named r m).
Proof.
  intros Hp. eapply pull_bind; [apply steps_get|]. intros body w _ Hw. apply wp_bind, wp_of_result.
  2: { intros e _. split_and!; [done|reflexivity|done]. }
  intros [] Hv.
  assert (HD : forall d0, Reference.digest r = Some d0 -> exists D, Content.parse d0 = Some D /\ Content.from_data body = D).
  { intros d0 Hd0. rewrite Hd0 in Hv. by apply verified in Hv. }
  destruct (manifest_of_json body) as [m|e] eqn:Hm.
  - revert w Hw. eapply pull_bind; [apply (steps_put s); [done|]|].
    + intros d0 Hd0. destruct (HD d0 Hd0) as (D & HpD & <-). exists (Content.from_data body). split; [done|].
      exists body. by split; [|left].
    + intros _ w _ Hw. apply wp_ret. split_and!; [done|reflexivity|]. intros d0 Hd0.
      destruct (HD d0 Hd0) as (D & HpD & <-). exists (Content.from_data body). split; [done|].
      exists (Content.from_data body), body. split_and!; [exists body; by split; [|left]|apply whole|done].
  - apply wp_bind, wp_of_result; [|intros e' _; split_and!; [done|reflexivity|done]]. intros index Hi.
    apply wp_bind, wp_or_fail; [|intros _; split_and!; [done|reflexivity|done]]. intros entry He.
    assert (Hin : entry ∈ manifests index).
    { unfold pick_platform in He. destruct (current_platform target_arch). apply list_elem_of_In.
      destruct (List.find (is_platform s0 s1) (manifests index)) eqn:F; [injection He as <-; by apply List.find_some in F as [F _]|].
      by apply List.find_some in He as [He _]. }
    revert w Hw. eapply pull_bind; [apply steps_get|]. intros mbody w _ Hw. apply wp_bind, wp_of_result.
    2: { intros e' _. split_and!; [done|reflexivity|done]. }
    intros [] Hv'. apply verified in Hv' as (dg & Hdg & Hmb).
    assert (Hch : forall d0, Reference.digest r = Some d0 -> exists D, Content.parse d0 = Some D /\ chain D dg).
    { intros d0 Hd0. destruct (HD d0 Hd0) as (D & HpD & HbD). exists D. split; [done|]. exists body. split; [done|]. right.
      destruct (index_of_json body) as [i|] eqn:Ei; [|done]. injection Hi as ->. by exists index, entry. }
    revert w Hw. eapply pull_bind; [apply (steps_put s); [done|by rewrite Hmb]|]. intros _ w _ Hw. apply wp_of_result.
    2: { intros e' _. split_and!; [done|reflexivity|done]. }
    intros m Hm'. split_and!; [done|reflexivity|]. intros d0 Hd0. destruct (Hch d0 Hd0) as (D & HpD & HcD).
    exists D. split; [done|]. exists dg, mbody. split_and!; [done|rewrite <- Hmb; apply whole|].
    by destruct (manifest_of_json mbody); [injection Hm' as ->|].
Qed.

(** ** Blobs *)

Definition here (e : OciDescriptor) (d : Content.Disk) : Prop :=
  exists dg, Content.parse (digest e) = Some dg /\ present dg d.

Lemma parsed_well_formed s dg : Content.parse s = Some dg -> Content.well_formed dg.
Proof. intros H. pose proof H as (-> & _)%Content.parse_Some. exact H. Qed.

Lemma here_retains e d d' : retains d d' -> here e d -> here e d'.
Proof. intros Hr (dg & Hp & Hd). exists dg. split; [done|]. apply Hr; [by eapply parsed_well_formed|done]. Qed.

Lemma download_keeps dg on_chunk total cs :
  (forall a b, keeps same_disk (on_chunk a b)) ->
  forall n body, keeps same_disk (download dg on_chunk total n body cs).
Proof.
  intros Ho. induction cs as [|[c|e] cs IH]; intros n body; simpl.
  - apply keeps_ret; apply _.
  - apply keeps_bind; [apply _|done|]. intros _. apply IH.
  - apply keeps_fail; apply _.
Qed.

Lemma steps_pull_blob a b dg on_chunk :
  Content.well_formed dg -> (forall x y, keeps same_disk (on_chunk x y)) ->
  steps (pull_blob root a b dg on_chunk) (fun _ w => present dg (disk w)).
Proof.
  intros Hdg Ho. eapply pull_bind; [apply steps_disk, Content.steps_has_blob|]. intros there w Ht Hw.
  destruct there; [apply wp_ret; split_and!; [done|reflexivity|by apply Ht]|]. clear Ht. revert w Hw.
  eapply pull_bind; [apply steps_keeps; unfold authenticated_get_response; apply auth_keeps|]. intros resp w _ Hw. revert w Hw.
  eapply pull_bind; [by apply steps_keeps, download_keeps|]. intros bytes w _ Hw.
  destruct (Content.validate dg bytes) eqn:Hv; simpl; [|by apply wp_fail; split_and!; [|reflexivity|]].
  apply bool_decide_eq_true in Hv as <-. revert w Hw.
  eapply pull_bind; [apply steps_disk, Content.steps_put_blob|]. intros d w [-> Hp] Hw. apply wp_ret. split_and!; [done|reflexivity|done].
Qed.

Lemma steps_all_present entries : steps (all_present root entries)
  (fun b w => b = true -> forall e, e ∈ entries -> here e (disk w)).
Proof.
  induction entries as [|e rest IH]; simpl.
  - intros w Hw. apply wp_ret. split_and!; [done|reflexivity|]. intros _ e He. by apply not_elem_of_nil in He.
  - destruct (Content.parse (digest e)) as [dg|] eqn:Hdg.
    2: { intros w Hw. by apply wp_ret; split_and!; [|reflexivity|]. }
    eapply pull_bind; [apply steps_disk, Content.steps_has_blob|]. intros there w Ht Hw.
    destruct there; [|by apply wp_ret; split_and!; [|reflexivity|]].
    eapply wp_mono; [by apply IH|]. intros [b|err] w' (Hw' & Hr & Hb); split_and!; try done.
    intros Htrue e' [->|He']%elem_of_cons; [|by apply Hb].
    apply (here_retains _ (disk w)); [done|]. exists dg. split; [done|]. by apply Ht.
Qed.

(** ** Pulling *)

Definition complete (m : OciManifest) (d : Content.Disk) : Prop := forall e, e ∈ config m :: layers m -> here e d.

Lemma complete_retains m d d' : retains d d' -> complete m d -> complete m d'.
Proof. intros Hr Hc e He. eapply here_retains; [done|by apply Hc]. Qed.

Lemma steps_cached s r :
  Reference.parse s = Ok r ->
  steps (cached_manifest root (Reference.to_string_canonical r))
    (fun o w => forall m, o = Some m -> as_named r m /\ complete m (disk w)).
Proof.
  intros Hp. eapply pull_bind; [apply steps_disk, Content.steps_get_manifest|]. intros o w Ho Hw.
  destruct o as [bytes|]; [|by apply wp_ret; split_and!; [|reflexivity|]].
  destruct (manifest_of_json bytes) as [m|] eqn:Hm; [|by apply wp_ret; split_and!; [|reflexivity|]].
  apply wp_bind. eapply wp_mono; [by apply steps_all_present|]. intros [b|err] w' (Hw' & Hr & Hb); [|done].
  apply wp_ret. split_and!; [done|done|]. destruct b; [|done]. intros m' [= <-]. split; [|exact (Hb eq_refl)].
  intros d0 Hd0. destruct (Ho bytes eq_refl) as (dg & Hl & Hok).
  apply Reference.parse_shape in Hp as (Hat & _ & _ & _ & _ & Hsha).
  destruct (Hl (Reference.registry r ++ "/" ++ Reference.repository r) d0) as (D & HD & Hc); [done|by apply Hsha| |].
  { unfold Reference.to_string_canonical. by rewrite Hd0, Text.string_app_assoc3. }
  exists D. split; [done|]. by exists dg, bytes.
Qed.

Lemma report_keeps a b c x y : keeps same_disk (report_layer (N := N) a b c x y).
Proof. unfold report_layer. repeat first [keeps_step | solve [eauto 2 with keeps] | case_match]. Qed.

Lemma steps_layers s r count ls : forall i,
  steps (pull_layers root s r count i ls) (fun _ w => forall e, e ∈ ls -> here e (disk w)).
Proof.
  induction ls as [|l rest IH]; intros i; simpl.
  - intros w Hw. apply wp_ret. split_and!; [done|reflexivity|]. intros e He. by apply not_elem_of_nil in He.
  - intros w Hw. apply wp_bind, wp_or_fail; [|by intros _; split_and!; [|reflexivity|]]. intros dg Hdg. revert w Hw.
    eapply pull_bind; [by apply steps_keeps, tell_keeps|]. intros _ w _ Hw. revert w Hw.
    eapply pull_bind; [by apply steps_keeps, pct_keeps|]. intros _ w _ Hw. revert w Hw.
    eapply pull_bind; [apply steps_pull_blob; [by eapply parsed_well_formed|intros; apply report_keeps]|].
    intros u w Hdone Hw. eapply wp_mono; [by apply IH|]. intros [[]|err] w' (Hw' & Hr & Hb); split_and!; try done.
    intros e [->|He]%elem_of_cons; [|by apply Hb]. apply (here_retains _ (disk w)); [done|]. by exists dg.
Qed.

Lemma steps_pull_blobs s r m : steps (pull_blobs root s r m) (fun m' w => m' = m /\ complete m (disk w)).
Proof.
  intros w Hw. apply wp_bind, wp_or_fail; [|by intros _; split_and!; [|reflexivity|]]. intros dg Hdg. revert w Hw.
  eapply pull_bind; [by apply steps_keeps, tell_keeps|]. intros _ w _ Hw. revert w Hw.
  eapply pull_bind; [apply steps_pull_blob; [by eapply parsed_well_formed|intros; apply keeps_ret; apply _]|].
  intros u w Hc Hw. apply wp_bind. eapply wp_mono; [by apply steps_layers|]. intros [[]|err] w' (Hw' & Hr & Hl); [|done].
  apply wp_bind, wp_modify, wp_ret. split_and!; [done|done|done|].
  intros e [->|He]%elem_of_cons; [|by apply Hl]. apply (here_retains _ (disk w)); [done|]. by exists dg.
Qed.

Lemma steps_pull s r :
  Reference.parse s = Ok r -> steps (pull root target_arch s) (fun m w => as_named r m /\ complete m (disk w)).
Proof.
  intros Hp w Hw. apply wp_bind. rewrite Hp. apply wp_ret. revert w Hw.
  eapply pull_bind; [by apply (steps_cached s)|]. intros cached w Hc Hw.
  assert (Hnet : wp (do _ <- told "pulling manifest" false;
      do pulled <- attempt (pull_manifest root target_arch r);
      match pulled, cached with
      | Ok manifest, _ => pull_blobs root s r manifest
      | Err error, None => fail error
      | Err error, Some manifest => do _ <- told "pull complete (cached; registry unreachable)" true; ret manifest
      end)
    (fun res w' => store_ok (disk w') /\ retains (disk w) (disk w') /\
       match res with Ok m => as_named r m /\ complete m (disk w') | Err _ => True end) w).
  { apply wp_bind, wp_modify, wp_bind, wp_attempt. cbn [disk].
    eapply wp_mono; [by apply (steps_pull_manifest s)|]. intros [m|e] w' (Hw' & Hr & Hn).
    - eapply wp_mono; [by apply steps_pull_blobs|]. intros [m'|e] w'' (Hw'' & Hr' & Hm); [destruct Hm as [-> Hm]|];
        split_and!; (done || by etrans).
    - destruct cached as [m|]; [|apply wp_fail; by split_and!]. destruct (Hc m eq_refl) as [Hn1 Hcm].
      apply wp_bind, wp_modify, wp_ret. split_and!; [done|done|done|]. by eapply complete_retains. }
  destruct (Reference.digest r) as [d0|]; [|exact Hnet]. destruct cached as [m|]; [|exact Hnet].
  apply wp_bind, wp_modify, wp_ret. split_and!; [done|reflexivity|by apply Hc..].
Qed.

Lemma steps_remove_image s : steps (remove_image root s) (fun _ _ => True).
Proof.
  intros w Hw. unfold remove_image, canonical_of. apply wp_bind, wp_bind, wp_of_result; [|by intros e _; split_and!; [|reflexivity|]].
  intros r _. apply wp_ret. revert w Hw. eapply pull_bind; [apply steps_disk, Content.steps_exists|].
  intros there w _ Hw. destruct there; [|by apply wp_ret; split_and!; [|reflexivity|]].
  revert w Hw. eapply pull_weaken; [apply steps_disk, Content.steps_remove|done].
Qed.

End Pinned.

(** ** Any use of the service *)
Section Run.
Context `{Sha : Sha256} `{ShaL : !Sha256Laws} `{Json : OciJson} {N : Type} `{Net : Http N}.
Context (root target_arch : string).

Inductive Op := OPull (reference : string) | ORemove (reference : string).

Definition run_op (w : World (N := N)) (o : Op) : World :=
  match o with
  | OPull s => snd (pull root target_arch s w)
  | ORemove s => snd (remove_image root s w)
  end.
Definition run (w : World (N := N)) (ops : list Op) : World := fold_left run_op ops w.

Definition start (faults : list Content.Fault) (n : N) : World := mkWorld (Content.mkDisk ∅ faults) n ∅ 0 [].

Definition torn (faults : list Content.Fault) : Prop := existsb Content.is_torn faults = true.

Lemma run_ok faults n ops :
  Content.store_ok (content_root root) (torn faults) link (disk (run (start faults n) ops)).
Proof.
  assert (Hstart : Content.store_ok (content_root root) (torn faults) link (disk (start faults n))).
  { split; [|done..]. unfold Content.calm, torn. simpl. by destruct (existsb Content.is_torn faults); [left|right]. }
  revert Hstart. unfold run. generalize (start faults n). induction ops as [|o ops IH]; intros w Hw; [done|]. simpl. apply IH.
  destruct o as [s|s]; simpl.
  - destruct (Reference.parse s) as [r|e] eqn:Hp.
    + by apply (steps_pull root target_arch (torn faults) s r Hp w Hw).
    + unfold pull, bind. by rewrite Hp.
  - by apply (steps_remove_image root (torn faults) s w Hw).
Qed.

(** C7. After any pulls and removals, whatever the registry answers and whatever
    operations of the disk fail, a pull that succeeds yields the image it was asked
    for: for a reference with a digest, a manifest read from bytes with that digest or
    with a digest listed by an index with it; and the blobs the manifest lists are
    in the store, each the data its digest names - of which a torn write can have
    kept the beginning only. *)
Theorem pull_yields_what_was_pinned faults n ops s r m w' :
  Reference.parse s = Ok r ->
  pull root target_arch s (run (start faults n) ops) = (Ok m, w') ->
  as_named (torn faults) r m /\
  forall e, e ∈ config m :: layers m ->
    exists dg c, Content.parse (digest e) = Some dg /\
      Content.files (disk w') !! Content.blob_path (content_root root) dg = Some c /\
      Content.blob_ok (torn faults) dg c.
Proof.
  intros Hp Hpull. pose proof (run_ok faults n ops) as Hok.
  pose proof (steps_pull root target_arch (torn faults) s r Hp _ Hok) as Hw. unfold wp in Hw. rewrite Hpull in Hw.
  destruct Hw as (Hok' & _ & Hn & Hc). split; [done|]. intros e He. destruct (Hc e He) as (dg & Hdg & c & Hfile).
  exists dg, c. split_and!; [done|done|]. eapply Content.ok_blobs; [exact Hok'|by eapply parsed_well_formed|done].
Qed.

End Run.
(** ** A registry with one image *)
Module Demo.

Definition zeros : string := "000000000000000000000000000000000000000000000000000000000000000".

#[local] Instance sha : Sha256 := {| sha256_hex data := zeros ++ String (Text.hex_digit (Z.of_nat (String.length data) mod 16)) "" |}.
#[local] Instance sha_laws : Sha256Laws.
Proof.
  assert (Hd : forall z, (0 <= z < 16)%Z -> exists n, (n < 16)%nat /\ z = Z.of_nat n) by (intros z Hz; exists (Z.to_nat z); lia).
  split; intros data; cbn [sha256_hex sha]; [by rewrite Str.string_length_app|].
  rewrite Text.all_chars_app. apply andb_true_iff. split; [vm_compute; reflexivity|].
  destruct (Hd (Z.of_nat (String.length data) mod 16)%Z) as (n & Hn & ->); [by apply Z.mod_pos_bound|].
  do 16 (destruct n as [|n]; [vm_compute; reflexivity|]). lia.
Qed.

Definition digest_of (data : string) : string := Content.as_str (Content.from_data data).
Definition manifest : OciManifest :=
  mkManifest 2 "" (mkDescriptor "" (digest_of "{}") 2) [mkDescriptor "" (digest_of "layer") 5].

#[local] Instance json : OciJson := {|
  manifest_of_json s := if String.eqb s "manifest" then Ok manifest else Err "expected value";
  index_of_json s := Err "expected value";
  config_of_json s := Ok (mkImageConfig None);
  fields_of_json s := Err "expected value";
  utf8_lossy s := s |}.

Definition ok (body : string) : result Response string := Ok (mkResponse 200 "" None [Ok body]).

(** The answers to come. *)
#[local] Instance http : Http (list (result Response string)) := {|
  send _ n := match n with r :: rest => (r, rest) | [] => (Err "connection refused", []) end;
  sleep_s _ n := n;
  code_text c := Str.show c |}.

Definition answers : list (result Response string) := [ok "manifest"; ok "{}"; ok "layer"].
Definition reference : string := "ghcr.io/owner/app@" ++ digest_of "manifest".
Definition parsed : Reference.ImageReference :=
  Reference.mkRef "ghcr.io" "owner/app" "latest" (Some (digest_of "manifest")).

Definition pulled := pull "/var/lib/rauha" "x86_64" reference (run "/var/lib/rauha" "x86_64" (start [] answers) []).

Lemma pulled_ok : fst pulled = Ok manifest.
Proof. vm_compute. reflexivity. Qed.

Lemma pull_yields_what_was_pinned_witness :
  Reference.parse reference = Ok parsed /\ as_named (torn []) parsed manifest.
Proof.
  assert (Hp : Reference.parse reference = Ok parsed) by (vm_compute; reflexivity).
  split; [exact Hp|].
  exact (proj1 (pull_yields_what_was_pinned "/var/lib/rauha" "x86_64" [] answers [] reference parsed manifest (snd pulled) Hp
    (eq_trans (surjective_pairing pulled) (f_equal (fun r => (r, snd pulled)) pulled_ok)))).
Defined.

(** The disk fills up while a layer is stored: the pull fails, the beginning of the
    layer stays under its digest, and the next pull finds the image complete. *)
Definition full_disk : list Content.Fault :=
  (replicate 9 Content.Fine ++ [Content.Torn 2 "No space left on device (os error 28)"])%list.
Definition interrupted := pull "/var/lib/rauha" "x86_64" reference (start full_disk answers).
Definition retried := pull "/var/lib/rauha" "x86_64" reference (snd interrupted).

Lemma torn_layer_is_trusted :
  is_ok (fst interrupted) = false /\ fst retried = Ok manifest /\
  Content.files (disk (snd retried)) !! Content.blob_path "/var/lib/rauha/content" (Content.from_data "layer") = Some "la".
Proof. split_and!; vm_compute; reflexivity. Qed.

(** A torn reference file stops every later pull of the reference. *)
Definition torn_reference : list Content.Fault :=
  (replicate 3 Content.Fine ++ [Content.Torn 5 "No space left on device (os error 28)"])%list.
Definition blocked := pull "/var/lib/rauha" "x86_64" reference
  (mkWorld (disk (snd (pull "/var/lib/rauha" "x86_64" reference (start torn_reference answers)))) answers ∅ 0 []).

Lemma torn_reference_blocks_pulls :
  fst blocked = Err (ContentError "failed to read cached manifest: corrupt manifest reference").
Proof. vm_compute. reflexivity. Qed.

(** Repositories that differ in a slash and an underscore share a file. *)
Lemma references_collide :
  Content.manifest_ref_path "/c" "ghcr.io/owner/app:v1" = Content.manifest_ref_path "/c" "ghcr.io/owner_app:v1".
Proof. vm_compute. reflexivity. Qed.

End Demo.
End Images.
