(* ===== verification/Vfs.v ===== *)
(** * A file system with symbolic links

    What the layer code uses of [std::fs]: paths resolved by the kernel through
    symbolic links, operations that any fault can refuse or stop part-way.  The
    lemmas are about a directory reached without links and what lies beneath it. *)

From stdpp Require Import base gmap strings list.
From Stdlib Require Import ZArith Ascii String Lia.
From S2P Require Import Prelude.
From S2P Require Import RustStr.
From S2P Require Import RustText.
From S2P Require Import StateError.
Open Scope string_scope.

Module Vfs.
Import Text.

(** ** Trees *)

Inductive Node := File (content : string) | Symlink (target : string) | Dir.
#[global] Instance Node_eq_dec : EqDecision Node.
Proof. solve_decision. Defined.

(** A place: the names from the root. *)
Notation Place := (list string).
Notation Tree := (gmap Place Node).
(** A path as the program has it. *)
Notation Path := (list Component).

Inductive IoError := Enoent | Enotdir | Eexist | Eisdir | Eloop | Enotempty | Eother (text : string).
Definition io_text (e : IoError) : string :=
  match e with
  | Enoent => "No such file or directory (os error 2)"
  | Enotdir => "Not a directory (os error 20)"
  | Eexist => "File exists (os error 17)"
  | Eisdir => "Is a directory (os error 21)"
  | Eloop => "Too many levels of symbolic links (os error 40)"
  | Enotempty => "Directory not empty (os error 39)"
  | Eother text => text
  end.

Definition node (t : Tree) (p : Place) : option Node := match p with [] => Some Dir | _ => t !! p end.

Lemma node_lookup t p : p <> [] -> node t p = t !! p.
Proof. by destruct p. Qed.

Definition is_nil {A} (l : list A) : bool := match l with [] => true | _ => false end.

(** Where a path leads: [follow] says whether a link in the last place counts, and
    the last place may be empty.  Linux follows at most 40 links. *)
Fixpoint walk (t : Tree) (links : nat) (follow : bool) : Place -> Path -> result Place IoError :=
  fix go (cur : Place) (todo : Path) :=
    match todo with
    | [] => Ok cur
    | c :: rest =>
        match node t cur with
        | Some Dir =>
            match c with
            | RootDir => go [] rest
            | CurDir => go cur rest
            | ParentDir => go (take (List.length cur - 1) cur) rest
            | Normal name =>
                let child := (cur ++ [name])%list in
                match node t child with
                | Some (Symlink target) =>
                    if is_nil rest && negb follow then Ok child
                    else match links with
                         | O => Err Eloop
                         | S links' => walk t links' follow cur (components target ++ rest)%list
                         end
                | Some _ => go child rest
                | None => if is_nil rest then Ok child else Err Enoent
                end
            end
        | Some _ => Err Enotdir
        | None => Err Enoent
        end
    end.

Definition locate (t : Tree) (follow : bool) (p : Path) : result Place IoError := walk t 40 follow [] p.

(** The node a path leads to. *)
Definition stat (t : Tree) (follow : bool) (p : Path) : result (Place * Node) IoError :=
  let? at_ := locate t follow p in ok_or (option_map (pair at_) (node t at_)) Enoent.

Definition is_dir (t : Tree) (p : Path) : bool :=
  match stat t true p with Ok (_, Dir) => true | _ => false end.

(** [q] lies at [p] or beneath it. *)
Definition within (p q : Place) : Prop := p `prefix_of` q.
#[global] Instance within_dec p q : Decision (within p q).
Proof. unfold within. apply _. Defined.

Definition erase (p : Place) (t : Tree) : Tree := filter (fun kn => ~ within p (fst kn)) t.
(** The names in a directory. *)
Definition name_in (p q : Place) : option string :=
  if decide (p `prefix_of` q) then match drop (List.length p) q with [name] => Some name | _ => None end else None.
Definition names (t : Tree) (p : Place) : list string := omap (fun kn => name_in p (fst kn)) (map_to_list t).
Definition subtree (p : Place) (t : Tree) : Tree := filter (fun kn => within p (fst kn)) t.

(** Part of a change was made: at the places of [kept] the old node stands. *)
Definition blend (kept : Place -> bool) (old new : Tree) : Tree :=
  filter (fun kn => kept (fst kn) = true) old ∪ filter (fun kn => kept (fst kn) = false) new.

(** ** The operations *)

Inductive Fault := Fine | Refused (e : string) | Partial (kept : Place -> bool) (e : string).
Record Fs := mkFs { tree : Tree; faults : list Fault }.

Notation M := (M Fs IoError).

Definition next_fault : M Fault := fun w =>
  match faults w with
  | f :: fs => (Ok f, mkFs (tree w) fs)
  | [] => (Ok Fine, w)
  end.

(** An operation that reads. *)
Definition reads {A} (f : Tree -> result A IoError) : M A :=
  do fault <- next_fault;
  match fault with
  | Fine => do t <- gets tree; of_result (f t)
  | Refused e | Partial _ e => fail (Eother e)
  end.

(** An operation that changes the tree, and fails with part of its work done. *)
Definition changes {A} (f : Tree -> result A IoError * Tree) : M A :=
  do fault <- next_fault;
  match fault with
  | Fine => fun w => let '(r, t) := f (tree w) in (r, mkFs t (faults w))
  | Refused e => fail (Eother e)
  | Partial kept e =>
      do _ <- modify (fun w => mkFs (blend kept (tree w) (snd (f (tree w)))) (faults w));
      fail (Eother e)
  end.

Definition symlink_metadata (p : Path) : M Node := reads (fun t => let? (_, n) := stat t false p in Ok n).
Definition canonicalize (p : Path) : M Path :=
  reads (fun t => let? (at_, _) := stat t true p in Ok (RootDir :: map Normal at_)).
Definition exists_ (p : Path) : M bool :=
  do r <- attempt (reads (fun t => stat t true p)); ret (match r with Ok _ => true | Err _ => false end).
Definition read_dir (p : Path) : M (list string) :=
  reads (fun t => let? (at_, n) := stat t true p in match n with Dir => Ok (names t at_) | _ => Err Enotdir end).

Definition on_tree {A} (f : Tree -> result (A * Tree) IoError) : M A :=
  changes (fun t => match f t with Ok (a, t') => (Ok a, t') | Err e => (Err e, t) end).

Definition remove_file (p : Path) : M unit :=
  on_tree (fun t => let? (at_, n) := stat t false p in
                    match n with Dir => Err Eisdir | _ => Ok (tt, base.delete at_ t) end).
(** A link is removed, not followed. *)
Definition remove_dir_all (p : Path) : M unit :=
  on_tree (fun t => let? (at_, n) := stat t false p in
                    match n with
                    | Dir => Ok (tt, erase at_ t)
                    | Symlink _ => Ok (tt, base.delete at_ t)
                    | File _ => Err Enotdir
                    end).
Definition write (p : Path) (content : string) : M unit :=
  on_tree (fun t => let? at_ := locate t true p in
                    match node t at_ with
                    | Some Dir => Err Eisdir
                    | _ => Ok (tt, <[at_ := File content]> t)
                    end).
Definition symlink (target : string) (p : Path) : M unit :=
  on_tree (fun t => let? at_ := locate t false p in
                    match node t at_ with
                    | Some _ => Err Eexist
                    | None => Ok (tt, <[at_ := Symlink target]> t)
                    end).
Definition read_link (p : Path) : M string :=
  reads (fun t => let? (_, n) := stat t false p in
                  match n with Symlink target => Ok target | _ => Err (Eother "Invalid argument (os error 22)") end).
Definition copy (src dst : Path) : M unit :=
  on_tree (fun t => let? (_, n) := stat t true src in
                    let? at_ := locate t true dst in
                    match n, node t at_ with
                    | File content, Some Dir => Err Eisdir
                    | File content, _ => Ok (tt, <[at_ := File content]> t)
                    | _, _ => Err (Eother "the source path is neither a regular file nor a symlink to a regular file")
                    end).

Definition mkdir (t : Tree) (p : Path) : result Tree IoError :=
  let? at_ := locate t false p in
  match node t at_ with Some _ => Err Eexist | None => Ok (<[at_ := Dir]> t) end.
(** Each prefix of the path in turn; a directory that is there already will do. *)
Fixpoint mkdirs (t : Tree) (base rest : Path) : result unit IoError * Tree :=
  match rest with
  | [] => (Ok tt, t)
  | c :: rest' =>
      let p := (base ++ [c])%list in
      match mkdir t p with
      | Ok t' => mkdirs t' p rest'
      | Err e => if is_dir t p then mkdirs t p rest' else (Err e, t)
      end
  end.
Definition create_dir_all (p : Path) : M unit := changes (fun t => mkdirs t [] p).

(** The subtree moves; an empty directory may be replaced. *)
Definition move (from to : Place) (t : Tree) : Tree :=
  erase from t ∪ kmap (fun q => to ++ drop (List.length from) q)%list (subtree from t).
Definition rename (from to : Path) : M unit :=
  on_tree (fun t =>
    let? (f, n) := stat t false from in
    let? d := locate t false to in
    if decide (within f d) then Err (Eother "Invalid argument (os error 22)") else
    match n, node t d with
    | Dir, Some Dir => if is_nil (names t d) then Ok (tt, move f d t) else Err Enotempty
    | Dir, Some _ => Err Enotdir
    | _, Some Dir => Err Eisdir
    | _, _ => Ok (tt, move f d (base.delete d t))
    end).

(** ** Rules *)

Lemma wp_fs_reads {A} (f : Tree -> result A IoError) (Q : result A IoError -> Fs -> Prop) w :
  (forall r fs, f (tree w) = r \/ (exists text, r = Err (Eother text)) -> Q r (mkFs (tree w) fs)) -> wp (reads f) Q w.
Proof.
  intros HQ. unfold reads, next_fault. apply wp_bind. unfold wp at 1. destruct w as [t [|[|e|kept e] fs]]; simpl in *;
    try (apply wp_fail, HQ; eauto); apply wp_bind, wp_gets; (apply wp_of_result; intros ? Hr; apply HQ; eauto).
Qed.

Lemma wp_changes {A} (f : Tree -> result A IoError * Tree) (Q : result A IoError -> Fs -> Prop) w :
  (forall fs, Q (fst (f (tree w))) (mkFs (snd (f (tree w))) fs)) ->
  (forall text t' fs, (exists kept, t' = blend kept (tree w) (snd (f (tree w)))) \/ t' = tree w ->
     Q (Err (Eother text)) (mkFs t' fs)) ->
  wp (changes f) Q w.
Proof.
  intros Hok Hbad. unfold changes, next_fault. apply wp_bind. unfold wp at 1. destruct w as [t [|[|e|kept e] fs]]; simpl in *.
  - unfold wp. simpl. specialize (Hok []). revert Hok. by destruct (f t).
  - unfold wp. simpl. specialize (Hok fs). revert Hok. by destruct (f t).
  - apply wp_fail. eauto.
  - apply wp_bind, wp_modify, wp_fail. simpl. eauto.
Qed.

Lemma blend_lookup kept t t' q : blend kept t t' !! q = if kept q then t !! q else t' !! q.
Proof.
  unfold blend. apply option_eq. intros n.
  rewrite lookup_union_Some_raw, !map_lookup_filter_Some, map_lookup_filter_None. simpl.
  destruct (kept q) eqn:E; split; [intros [[? _]|[_ [_ ?]]]; done|auto|intros [[_ ?]|[_ [? _]]]; done|].
  intros H. right. split_and!; [|done|done]. right. intros m _. congruence.
Qed.

(** The changes of [on_tree]: what the function does, none of it or part of it. *)
Lemma wp_on_tree {A} (f : Tree -> result (A * Tree) IoError) (Q : result A IoError -> Fs -> Prop) w :
  (forall a t' fs, f (tree w) = Ok (a, t') -> Q (Ok a) (mkFs t' fs)) ->
  (forall e t' fs, t' = tree w \/ (exists kept a t, f (tree w) = Ok (a, t) /\ t' = blend kept (tree w) t) ->
     Q (Err e) (mkFs t' fs)) ->
  wp (on_tree f) Q w.
Proof.
  intros Hok Hbad.
  assert (Hblend : forall kept t, blend kept t t = t).
  { intros kept t. apply map_eq. intros q. rewrite blend_lookup. by destruct (kept q). }
  apply wp_changes.
  - intros fs. destruct (f (tree w)) as [[a t']|e] eqn:E; simpl; [by apply Hok|]. apply Hbad. by left.
  - intros text t' fs [(kept & ->)| ->]; apply Hbad; [|by left].
    destruct (f (tree w)) as [[a t]|e] eqn:E; simpl; [right; by eexists _, _, _|left; apply Hblend].
Qed.

(** ** A directory and what lies beneath it *)

Definition beneath (d p : Place) : Prop := exists name q, p = (d ++ name :: q)%list.

#[global] Instance beneath_dec d p : Decision (beneath d p).
Proof.
  refine (cast_if (decide (within d p /\ p <> d))).
  - abstract (destruct a as [([|name q] & ->) Hne]; [by rewrite app_nil_r in Hne|by exists name, q]).
  - abstract (intros (name & q & ->); apply n; split; [by exists (name :: q)|];
      intros H%(f_equal List.length); rewrite length_app in H; simpl in H; lia).
Defined.

(** The directory without what is in it. *)
Definition emptied (d : Place) (t : Tree) : Tree := filter (fun kn => ~ beneath d (fst kn)) t.

(** Nothing but what lies beneath [d] differs. *)
Definition same_outside (d : Place) (t t' : Tree) : Prop := forall p, ~ beneath d p -> t' !! p = t !! p.
#[global] Instance same_outside_preorder d : PreOrder (same_outside d).
Proof. split; [by intros t p|]. intros t1 t2 t3 H1 H2 p Hp. by rewrite H2, H1. Qed.

(** Every prefix of the place is a directory: no link leads there. *)
Definition real (t : Tree) (d : Place) : Prop := forall k, node t (take k d) = Some Dir.

Lemma beneath_app d rel p : beneath (d ++ rel) p -> beneath d p.
Proof.
  intros (name & q & ->). rewrite <- app_assoc. destruct rel as [|n rel]; simpl; by eexists _, _.
Qed.
Lemma beneath_child d rel name p : within (d ++ rel ++ [name]) p -> beneath d p.
Proof.
  intros (q & ->). rewrite <- app_assoc. destruct rel as [|n rel]; simpl; by eexists _, _.
Qed.
Lemma beneath_take d k : ~ beneath d (take k d).
Proof. intros (name & q & H). apply (f_equal List.length) in H. rewrite length_take, length_app in H. simpl in H. lia. Qed.

Lemma same_outside_weaken d rel t t' : same_outside (d ++ rel) t t' -> same_outside d t t'.
Proof. intros H p Hp. apply H. by intros Hb%beneath_app. Qed.

Lemma same_outside_blend d kept t t' : same_outside d t t' -> same_outside d t (blend kept t t').
Proof.
  intros H p Hp. rewrite blend_lookup. destruct (kept p); [done|by apply H].
Qed.

Lemma same_outside_erase d rel name t : same_outside d t (erase (d ++ rel ++ [name]) t).
Proof.
  intros p Hp. unfold erase. apply option_eq. intros n. rewrite map_lookup_filter_Some. simpl. split; [by intros []|].
  intros Hn. split; [done|]. by intros Hb%beneath_child.
Qed.
Lemma same_outside_delete d rel name t : same_outside d t (base.delete (d ++ rel ++ [name])%list t).
Proof. intros p Hp. apply lookup_delete_ne. intros <-. apply Hp. by apply (beneath_child d rel name). Qed.

Lemma real_same d t t' : real t d -> same_outside d t t' -> real t' d.
Proof.
  intros Hr Hs k. specialize (Hr k). unfold node in *. destruct (take k d) eqn:E; [done|].
  rewrite Hs; [done|]. rewrite <- E. apply beneath_take.
Qed.
Lemma real_here t d : real t d -> node t d = Some Dir.
Proof. intros H. specialize (H (List.length d)). by rewrite firstn_all in H. Qed.
Lemma real_prefix t d rel : real t (d ++ rel) -> real t d.
Proof.
  intros H k. specialize (H (Nat.min k (List.length d))). rewrite take_app_le in H by lia.
  destruct (Nat.le_ge_cases k (List.length d)); [by replace (Nat.min k (List.length d)) with k in H by lia|].
  rewrite take_ge by lia. rewrite Nat.min_r, firstn_all in H by lia. done.
Qed.
Lemma real_snoc t d name : real t d -> node t (d ++ [name]) = Some Dir -> real t (d ++ [name]).
Proof.
  intros H Hn k. destruct (Nat.le_gt_cases k (List.length d)).
  - by rewrite take_app_le.
  - by rewrite take_ge by (rewrite length_app; simpl; lia).
Qed.

(** Directories in a row are walked through. *)
Lemma walk_plain t links follow rel cur name :
  (forall k, node t (cur ++ take k rel) = Some Dir) ->
  match node t (cur ++ rel ++ [name]) with Some (Symlink _) => follow = false | _ => True end ->
  walk t links follow cur (map Normal (rel ++ [name])) = Ok (cur ++ rel ++ [name])%list.
Proof.
  revert cur. induction rel as [|n rel IH]; intros cur Hd Hl.
  - simpl in *. specialize (Hd O). rewrite app_nil_r in Hd. destruct links; simpl; rewrite Hd;
      destruct (node t (cur ++ [name])) as [[]|]; subst; done.
  - assert (Hd' : forall k, node t ((cur ++ [n]) ++ take k rel) = Some Dir)
      by (intros k; rewrite <- app_assoc; exact (Hd (S k))).
    specialize (IH (cur ++ [n])%list Hd'). rewrite <- !app_assoc in IH. specialize (IH Hl).
    pose proof (Hd O) as H0. pose proof (Hd' O) as H1. simpl in H0, H1. rewrite app_nil_r in H0, H1.
    destruct links; simpl in *; rewrite H0, H1; exact IH.
Qed.

Definition abs (p : Place) : Path := RootDir :: map Normal p.

Lemma locate_nil t follow : locate t follow (abs []) = Ok [].
Proof. done. Qed.
Lemma locate_plain t follow d name :
  real t d -> match node t (d ++ [name]) with Some (Symlink _) => follow = false | _ => True end ->
  locate t follow (abs (d ++ [name])) = Ok (d ++ [name])%list.
Proof. intros Hd Hl. by apply (walk_plain t 40 follow d [] name). Qed.
Lemma locate_real t follow d : real t d -> locate t follow (abs d) = Ok d.
Proof.
  destruct d as [|name d] using rev_ind; [done|]. intros H. apply locate_plain; [by eapply real_prefix|].
  by rewrite (real_here _ _ H).
Qed.

(** ** Trees whose nodes lie in directories *)

Definition wf (t : Tree) : Prop :=
  t !! [] = None /\ forall p name n, t !! (p ++ [name])%list = Some n -> node t p = Some Dir.

Definition wf_check (t : Tree) : bool :=
  forallb (fun kn => negb (is_nil (fst kn)) && bool_decide (node t (removelast (fst kn)) = Some Dir)) (map_to_list t).
Lemma wf_check_sound t : wf_check t = true -> wf t.
Proof.
  unfold wf_check. rewrite forallb_forall. intros H. split.
  - destruct (t !! []) as [n|] eqn:E; [|done]. specialize (H ([], n)). rewrite <- list_elem_of_In, elem_of_map_to_list in H.
    by apply H in E.
  - intros p name n E. specialize (H ((p ++ [name])%list, n)). rewrite <- list_elem_of_In, elem_of_map_to_list in H.
    apply H, andb_true_iff in E as [_ E%bool_decide_eq_true]. simpl in E. by rewrite removelast_last in E.
Qed.

Lemma wf_beneath t p q n : wf t -> t !! (p ++ q)%list = Some n -> q <> [] -> node t p = Some Dir.
Proof.
  intros [_ Hw]. revert n. induction q as [|name q IH] using rev_ind; intros n Hn Hq; [done|].
  rewrite app_assoc in Hn. apply Hw in Hn. destruct (decide (q = [])) as [->|Hne]; [by rewrite app_nil_r in Hn|].
  rewrite node_lookup in Hn by (by destruct p, q). by apply (IH Dir).
Qed.

Lemma erase_wf p t : wf t -> p <> [] -> wf (erase p t).
Proof.
  intros [H0 Hw] Hp. split; [unfold erase; rewrite map_lookup_filter, H0; done|].
  intros q name n Hn. unfold erase in *. rewrite map_lookup_filter_Some in Hn. destruct Hn as [Hn Hout]. simpl in Hout.
  pose proof (Hw _ _ _ Hn) as Hq. unfold node in *. destruct q as [|x q]; [done|].
  rewrite map_lookup_filter_Some. split; [done|]. simpl. intros Hin. apply Hout. unfold within in *. by apply prefix_app_r.
Qed.

(** Nothing is there to erase. *)
Lemma erase_absent t p : wf t -> node t p = None -> erase p t = t.
Proof.
  intros Hw Hp. apply map_filter_id. intros q n Hn. simpl. intros (r & ->).
  destruct (decide (r = [])) as [->|Hr].
  - rewrite app_nil_r in Hn. unfold node in Hp. destruct p; [done|congruence].
  - by rewrite (wf_beneath t p r n Hw Hn Hr) in Hp.
Qed.

Lemma erase_leaf t p n : wf t -> t !! p = Some n -> n <> Dir -> erase p t = base.delete p t.
Proof.
  intros Hw Hp Hn. apply map_eq. intros q. apply option_eq. intros m. unfold erase.
  rewrite map_lookup_filter_Some, lookup_delete_Some. simpl. split.
  - intros [Hm Hq]. split; [|done]. intros <-. by apply Hq.
  - intros [Hq Hm]. split; [done|]. intros (r & ->). destruct (decide (r = [])) as [->|Hr]; [by rewrite app_nil_r in Hq|].
    pose proof (wf_beneath t p r m Hw Hm Hr) as Hd. unfold node in Hd. destruct p; [by destruct Hw; congruence|congruence].
Qed.

Lemma same_outside_emptied d t : same_outside d t (emptied d t).
Proof.
  intros p Hp. unfold emptied. apply option_eq. intros n. rewrite map_lookup_filter_Some. simpl. naive_solver.
Qed.

Lemma erase_below_absent t p q : wf t -> node t p = None -> within p q -> erase q t = t.
Proof.
  intros Hw Hp Hq. apply map_filter_id. intros k n Hn. simpl. intros Hk. pose proof (erase_absent t p Hw Hp) as He.
  rewrite <- He in Hn. unfold erase in Hn. rewrite map_lookup_filter_Some in Hn. apply Hn. simpl.
  unfold within in *. by transitivity q.
Qed.
Lemma emptied_below_absent t p q : wf t -> node t p = None -> within p q -> emptied q t = t.
Proof.
  intros Hw Hp Hq. apply map_filter_id. intros k n Hn. simpl. intros (name & r & ->).
  pose proof (erase_below_absent t p q Hw Hp Hq) as He. rewrite <- He in Hn. unfold erase in Hn.
  rewrite map_lookup_filter_Some in Hn. apply Hn. simpl. by exists (name :: r).
Qed.

Lemma emptied_wf d t : wf t -> wf (emptied d t).
Proof.
  intros [H0 Hw]. split; [unfold emptied; rewrite map_lookup_filter, H0; done|].
  intros q name n Hn. unfold emptied in *. rewrite map_lookup_filter_Some in Hn. destruct Hn as [Hn Hout]. simpl in Hout.
  pose proof (Hw _ _ _ Hn) as Hq. unfold node in *. destruct q as [|x q]; [done|].
  rewrite map_lookup_filter_Some. split; [done|]. simpl. intros (name' & r & Hr). apply Hout. rewrite Hr.
  exists name', (r ++ [name])%list. by rewrite <- app_assoc.
Qed.

(** A directory is emptied by erasing each name in it. *)
Definition erase_names (p : Place) (found : list string) (t : Tree) : Tree :=
  foldl (fun t name => erase (p ++ [name]) t) t found.

Lemma erase_lookup p t q : erase p t !! q = if decide (within p q) then None else t !! q.
Proof.
  unfold erase. apply option_eq. intros n. rewrite map_lookup_filter_Some. simpl.
  destruct (decide (within p q)); split; naive_solver.
Qed.

Lemma erase_names_lookup p found t q :
  erase_names p found t !! q = if decide (Exists (fun name => within (p ++ [name]) q) found) then None else t !! q.
Proof.
  revert t. induction found as [|name found IH]; intros t; simpl; [done|].
  rewrite IH, erase_lookup. repeat case_decide; rewrite ?Exists_cons in *; naive_solver.
Qed.

Lemma name_in_spec p q name : name_in p q = Some name <-> q = (p ++ [name])%list.
Proof.
  unfold name_in. split.
  - case_decide as H; [|done]. destruct H as (r & ->). rewrite drop_app_length. destruct r as [|x [|]]; [done| |done].
    by intros [= ->].
  - intros ->. rewrite decide_True by by eexists. by rewrite drop_app_length.
Qed.

Lemma names_spec t p name : name ∈ names t p <-> is_Some (t !! (p ++ [name])%list).
Proof.
  unfold names. rewrite list_elem_of_omap. split.
  - intros ([q n] & Hq%elem_of_map_to_list & Hn). simpl in Hn. apply name_in_spec in Hn as ->. by exists n.
  - intros [n Hn]. exists ((p ++ [name])%list, n). split; [by apply elem_of_map_to_list|]. by apply name_in_spec.
Qed.

Lemma erase_names_emptied t p : wf t -> erase_names p (names t p) t = emptied p t.
Proof.
  intros Hw. apply map_eq. intros q. apply option_eq. intros n. rewrite erase_names_lookup. unfold emptied.
  rewrite map_lookup_filter_Some. simpl. case_decide as He.
  - split; [done|]. intros [_ Hq]. apply Exists_exists in He as (name & _ & r & ->). destruct Hq. exists name, r. by rewrite <- app_assoc.
  - split; [|by intros []]. intros Hn. split; [done|]. intros (name & r & ->). apply He, Exists_exists. exists name. split.
    + apply names_spec. destruct (decide (r = [])) as [->|Hr]; [by exists n|].
      replace (p ++ name :: r)%list with ((p ++ [name]) ++ r)%list in Hn by by rewrite <- app_assoc.
      pose proof (wf_beneath t _ r n Hw Hn Hr) as Hd. rewrite node_lookup in Hd by by destruct p. by eexists.
    + exists r. by rewrite <- app_assoc.
Qed.
End Vfs.
