(* ===== verification/Utf8.v ===== *)
(** * UTF-8

    What the code uses of [str]: validity, character boundaries and
    [String::from_utf8_lossy], over the bytes of a string. *)

From stdpp Require Import base strings list.
From Stdlib Require Import ZArith Ascii String Lia.
From S2P Require Import Prelude.
From S2P Require Import RustStr.

Module Utf8.
Open Scope list_scope.

Notation bytes := (list ascii).

Definition byte_in (lo hi : Z) (c : ascii) : bool := ((lo <=? Str.code c) && (Str.code c <=? hi))%Z.
(** A continuation byte. *)
Definition cont (c : ascii) : bool := byte_in 0x80 0xBF c.

(** The second byte a leading one of three or four bytes allows. *)
Definition second (a b : ascii) : bool :=
  if byte_in 0xE0 0xE0 a then byte_in 0xA0 0xBF b
  else if byte_in 0xED 0xED a then byte_in 0x80 0x9F b
  else if byte_in 0xF0 0xF0 a then byte_in 0x90 0xBF b
  else if byte_in 0xF4 0xF4 a then byte_in 0x80 0x8F b
  else cont b.

Definition width (a : ascii) : nat :=
  if byte_in 0 0x7F a then 1
  else if byte_in 0xC2 0xDF a then 2
  else if byte_in 0xE0 0xEF a then 3
  else if byte_in 0xF0 0xF4 a then 4
  else 0.

(** The character at the start, or the bytes a decoder gives up on. *)
Definition step (l : bytes) : nat * bool :=
  match l with
  | [] => (O, false)
  | a :: l =>
      match width a, l with
      | 1, _ => (1, true)
      | 2, b :: _ => if cont b then (2, true) else (1, false)
      | 3, b :: l =>
          if second a b then match l with c :: _ => if cont c then (3, true) else (2, false) | [] => (2, false) end
          else (1, false)
      | 4, b :: l =>
          if second a b then
            match l with
            | c :: l =>
                if cont c then match l with d :: _ => if cont d then (4, true) else (3, false) | [] => (3, false) end
                else (2, false)
            | [] => (2, false)
            end
          else (1, false)
      | _, _ => (1, false)
      end
  end.

Definition REPLACEMENT : bytes := map ascii_of_N [0xEF; 0xBF; 0xBD]%N.

Fixpoint valid_from (fuel : nat) (l : bytes) : bool :=
  match fuel, l with
  | _, [] => true
  | S fuel, _ => snd (step l) && valid_from fuel (drop (fst (step l)) l)
  | O, _ => false
  end.
Definition valid (l : bytes) : bool := valid_from (List.length l) l.

Fixpoint lossy_from (fuel : nat) (l : bytes) : bytes :=
  match fuel, l with
  | S fuel, _ :: _ =>
      let '(n, ok) := step l in
      (if ok : bool then take n l else REPLACEMENT) ++ lossy_from fuel (drop n l)
  | _, _ => []
  end.
Definition lossy (l : bytes) : bytes := lossy_from (List.length l) l.

(** [str::is_char_boundary]. *)
Definition is_char_boundary (l : bytes) (n : nat) : bool :=
  match n with
  | O => true
  | _ => match l !! n with Some c => negb (cont c) | None => Nat.eqb n (List.length l) end
  end.

(** [while !text.is_char_boundary(end) { end -= 1; }]. *)
Fixpoint floor_boundary (l : bytes) (n : nat) : nat :=
  match n with
  | O => O
  | S m => if is_char_boundary l n then n else floor_boundary l m
  end.
Definition truncate_utf8 (l : bytes) (max_bytes : nat) : bytes :=
  take (floor_boundary l (Nat.min (List.length l) max_bytes)) l.

(** On strings. *)
Definition of_string : string -> bytes := list_ascii_of_string.
Definition to_string : bytes -> string := string_of_list_ascii.
Definition is_utf8 (s : string) : bool := valid (of_string s).

(** ** Lemmas *)

#[local] Arguments step : simpl never.

Lemma step_bounds a l : (1 <= fst (step (a :: l)) <= S (List.length l))%nat.
Proof.
  unfold step. destruct (width a) as [|[|[|[|[|]]]]]; simpl; try lia.
  all: destruct l as [|b l]; simpl; try lia; try (destruct (cont b); simpl; lia).
  all: destruct (second a b); simpl; try lia; destruct l as [|c l]; simpl; try lia; destruct (cont c); simpl; try lia.
  destruct l as [|d l]; simpl; try lia. destruct (cont d); simpl; lia.
Qed.

Lemma valid_fuel f g l : (List.length l <= f)%nat -> (List.length l <= g)%nat -> valid_from f l = valid_from g l.
Proof.
  revert g l. induction f as [|f IH]; intros [|g] [|a l] Hf Hg; cbn [valid_from]; try done; simpl in Hf, Hg; try lia.
  f_equal. pose proof (step_bounds a l). apply IH; rewrite length_drop; simpl; lia.
Qed.
Lemma lossy_fuel f g l : (List.length l <= f)%nat -> (List.length l <= g)%nat -> lossy_from f l = lossy_from g l.
Proof.
  revert g l. induction f as [|f IH]; intros [|g] [|a l] Hf Hg; cbn [lossy_from]; try done; simpl in Hf, Hg; try lia.
  pose proof (step_bounds a l). destruct (step (a :: l)) as [n ok]. simpl in *. f_equal. apply IH; rewrite length_drop; simpl; lia.
Qed.

Lemma valid_cons a l : valid (a :: l) = snd (step (a :: l)) && valid (drop (fst (step (a :: l))) (a :: l)).
Proof.
  unfold valid at 1. cbn [List.length valid_from]. f_equal. pose proof (step_bounds a l).
  apply valid_fuel; rewrite length_drop; simpl; lia.
Qed.
Lemma lossy_cons a l : lossy (a :: l) =
  (if snd (step (a :: l)) then take (fst (step (a :: l))) (a :: l) else REPLACEMENT) ++ lossy (drop (fst (step (a :: l))) (a :: l)).
Proof.
  unfold lossy at 1. cbn [List.length lossy_from]. pose proof (step_bounds a l). destruct (step (a :: l)) as [n ok]. simpl in *.
  f_equal. apply lossy_fuel; rewrite length_drop; simpl; lia.
Qed.

(** A character: what [step] accepts whole. *)
Definition char (c : bytes) : Prop := c <> [] /\ step c = (List.length c, true).

(** What follows a character does not matter to it. *)
Lemma step_char c l : char c -> step (c ++ l) = (List.length c, true).
Proof.
  intros [Hne Hs]. destruct c as [|a c]; [done|]. revert Hs. unfold step. cbn [app].
  destruct (width a) as [|[|[|[|[|]]]]].
  all: destruct c as [|b c]; cbn [app List.length]; try (intros [= ?]; done); try (intros [= ?]; by destruct l); try done.
  - destruct (second a b); [|intros [= ?]]. destruct c as [|x c]; cbn [app List.length]; [intros [= ?]|].
    destruct (cont x); intros [= Hl]. by rewrite <- Hl.
  - destruct (second a b); [|intros [= ?]]. destruct c as [|x c]; cbn [app List.length]; [intros [= ?]|].
    destruct (cont x); [|intros [= ?]]. destruct c as [|y c]; cbn [app List.length]; [intros [= ?]|].
    destruct (cont y); intros [= Hl]. by rewrite <- Hl.
Qed.

Lemma valid_char c l : char c -> valid (c ++ l) = valid l.
Proof.
  intros Hc. pose proof (step_char c l Hc) as Hs. destruct c as [|a c]; [by destruct Hc|]. cbn [app] in *.
  rewrite valid_cons, Hs. cbn [fst snd andb]. change (a :: c ++ l) with ((a :: c) ++ l). by rewrite drop_app_length.
Qed.

(** A valid text starts with a character. *)
Lemma step_take a l n : step (a :: l) = (n, true) -> char (take n (a :: l)).
Proof.
  intros H. pose proof (step_bounds a l) as Hb. rewrite H in Hb. simpl in Hb. destruct n as [|n]; [lia|].
  split; [done|]. rewrite length_take_le by (simpl; lia). revert H. cbn [take]. unfold step.
  destruct (width a) as [|[|[|[|[|]]]]]; try (intros [= <-]; try done; by destruct l).
  all: destruct l as [|b l]; [done|].
  - destruct (cont b) eqn:E; [|done]. intros [= <-]. cbn. by rewrite E.
  - destruct (second a b) eqn:E; [|done]. destruct l as [|c l]; [done|]. destruct (cont c) eqn:E2; [|done].
    intros [= <-]. cbn. by rewrite E, E2.
  - destruct (second a b) eqn:E; [|done]. destruct l as [|c l]; [done|]. destruct (cont c) eqn:E2; [|done].
    destruct l as [|d l]; [done|]. destruct (cont d) eqn:E3; [|done]. intros [= <-]. cbn. by rewrite E, E2, E3.
Qed.

(** Texts are sequences of characters. *)
Lemma valid_ind (P : bytes -> Prop) :
  P [] -> (forall c l, char c -> valid l = true -> P l -> P (c ++ l)) -> forall l, valid l = true -> P l.
Proof.
  intros H0 Hc l. induction l as [l IH] using (induction_ltof1 _ (@List.length ascii)); intros Hv.
  destruct l as [|a l]; [done|]. rewrite valid_cons in Hv. apply andb_true_iff in Hv as [Hs Hv].
  destruct (step (a :: l)) as [n ok] eqn:E. simpl in Hs, Hv. subst ok. rewrite <- (take_drop n (a :: l)).
  apply Hc; [by apply step_take|done|]. apply IH; [|done]. unfold ltof. rewrite length_drop.
  pose proof (step_bounds a l) as Hb. rewrite E in Hb. simpl in *. lia.
Qed.

Lemma valid_app a b : valid a = true -> valid b = true -> valid (a ++ b) = true.
Proof.
  intros Ha Hb. revert a Ha. apply valid_ind; [done|]. intros c l Hc _ IH. rewrite <- app_assoc, valid_char by done. exact IH.
Qed.

Lemma lossy_valid l : valid (lossy l) = true.
Proof.
  induction l as [l IH] using (induction_ltof1 _ (@List.length ascii)). destruct l as [|a l]; [done|].
  rewrite lossy_cons. apply valid_app.
  - destruct (step (a :: l)) as [n ok] eqn:E. cbn [fst snd]. destruct ok; [|done]. apply step_take in E.
    rewrite <- (app_nil_r (take n _)). by rewrite valid_char.
  - apply IH. unfold ltof. rewrite length_drop. pose proof (step_bounds a l). simpl. lia.
Qed.

Lemma lossy_id l : valid l = true -> lossy l = l.
Proof.
  revert l. apply valid_ind; [done|]. intros c l Hc _ IH. pose proof (step_char c l Hc) as Hs.
  destruct c as [|a c]; [by destruct Hc|]. cbn [app] in *. rewrite lossy_cons, Hs. cbn [fst snd].
  change (a :: c ++ l) with ((a :: c) ++ l). by rewrite take_app_length, drop_app_length, IH.
Qed.

(** Inside a character there is no boundary. *)
Lemma char_conts c k : char c -> (0 < k < List.length c)%nat -> exists x, c !! k = Some x /\ cont x = true.
Proof.
  intros [Hne Hs] Hk. destruct c as [|a c]; [done|].
  assert (Hsec : forall b, second a b = true -> cont b = true).
  { intros b. unfold second, cont, byte_in. repeat case_match; rewrite !andb_true_iff, !Z.leb_le; lia. }
  revert Hs Hk. unfold step. destruct (width a) as [|[|[|[|[|]]]]].
  all: destruct c as [|b c]; cbn [List.length]; try (intros [= ?]; done); try (intros; lia).
  - destruct (cont b) eqn:E; intros [= Hl] Hk. rewrite <- Hl in Hk. assert (k = 1)%nat as -> by lia. by exists b.
  - destruct (second a b) eqn:E; [|intros [= ?]]. destruct c as [|x c]; cbn [List.length]; [intros [= ?]|].
    destruct (cont x) eqn:E2; intros [= Hl] Hk. rewrite <- Hl in Hk.
    destruct k as [|[|[|k]]]; [lia| | |lia]; [exists b|exists x]; auto.
  - destruct (second a b) eqn:E; [|intros [= ?]]. destruct c as [|x c]; cbn [List.length]; [intros [= ?]|].
    destruct (cont x) eqn:E2; [|intros [= ?]]. destruct c as [|y c]; cbn [List.length]; [intros [= ?]|].
    destruct (cont y) eqn:E3; intros [= Hl] Hk. rewrite <- Hl in Hk.
    destruct k as [|[|[|[|k]]]]; [lia| | | |lia]; [exists b|exists x|exists y]; auto.
Qed.

Lemma take_boundary_valid l n : valid l = true -> is_char_boundary l n = true -> valid (take n l) = true.
Proof.
  intros Hv. revert n. revert l Hv. apply (valid_ind (fun l => forall n, is_char_boundary l n = true -> valid (take n l) = true));
    [by intros []|].
  intros c l Hc Hl IH n Hb. destruct (Nat.le_gt_cases (List.length c) n) as [Hn|Hn].
  - rewrite take_app_ge by done. rewrite valid_char by done. apply IH.
    destruct (n - List.length c)%nat as [|m] eqn:E; [done|]. unfold is_char_boundary in *.
    destruct n as [|n]; [lia|]. rewrite lookup_app_r in Hb by lia. rewrite E in Hb. destruct (l !! S m); [done|].
    rewrite length_app in Hb. apply Nat.eqb_eq in Hb. apply Nat.eqb_eq. lia.
  - destruct n as [|n]; [done|]. exfalso. destruct (char_conts c (S n) Hc) as (x & Hx & Hxc); [lia|].
    unfold is_char_boundary in Hb. rewrite lookup_app_l, Hx, Hxc in Hb by lia. done.
Qed.

Lemma floor_boundary_spec l n : (n <= List.length l)%nat ->
  (floor_boundary l n <= n)%nat /\ is_char_boundary l (floor_boundary l n) = true.
Proof.
  induction n as [|n IH]; intros Hn; [done|]. cbn [floor_boundary]. destruct (is_char_boundary l (S n)) eqn:E; [done|].
  destruct IH; [lia|]. split; [lia|done].
Qed.

Lemma truncate_valid l n : valid l = true -> valid (truncate_utf8 l n) = true.
Proof. intros Hv. apply take_boundary_valid; [done|]. apply floor_boundary_spec. lia. Qed.
Lemma truncate_length l n : (List.length (truncate_utf8 l n) <= Nat.min (List.length l) n)%nat.
Proof.
  unfold truncate_utf8. rewrite length_take. destruct (floor_boundary_spec l (Nat.min (List.length l) n)) as [H _]; [lia|]. lia.
Qed.

Lemma ascii_valid l : forallb (byte_in 0 0x7F) l = true -> valid l = true.
Proof.
  induction l as [|a l IH]; [done|]. simpl. intros [Ha Hl]%andb_true_iff. change (a :: l) with ([a] ++ l).
  rewrite valid_char; [by apply IH|]. split; [done|]. unfold step, width. by rewrite Ha.
Qed.
End Utf8.
