(* ===== verification/Layers.v ===== *)
(** * Unpacking layers

    The extraction half of [rauha-oci/src/image.rs] and
    [rauha-oci/src/snapshotter.rs]: archives from a registry are unpacked on the
    host's file system, with the markers that delete files of lower layers.  The
    archive reader is a parameter; what it may write is its documented promise. *)

From stdpp Require Import base gmap strings list.
From Stdlib Require Import ZArith Ascii String Lia.
From S2P Require Import Prelude.
From S2P Require Import RustStr.
From S2P Require Import RustText.
From S2P Require Import Utf8.
From S2P Require Import Zone.
From S2P Require Import StateError.
From S2P Require Import Shim.
From S2P Require Import Reference.
From S2P Require Import Content.
From S2P Require Import Images.
From S2P Require Import Vfs.
Open Scope string_scope.

(** The tar and gzip readers.  [unpack_in] is given the place its destination
    resolved to. *)
Class Tar := {
  Entry : Type;
  entries : string -> result (list (result Entry string)) string;
  entry_path : Entry -> result string string;
  unpack_in : Entry -> list string -> gmap (list string) Vfs.Node -> result unit string * gmap (list string) Vfs.Node }.
Class TarLaws `{!Tar} := {
  unpack_in_inside : forall e d t, Vfs.real t d -> Vfs.same_outside d t (snd (unpack_in e d t));
  unpack_in_wf : forall e d t, Vfs.real t d -> Vfs.wf t -> Vfs.wf (snd (unpack_in e d t)) }.

Module Layers.
Import Text.
Notation Path := (list Component).

(** ** Names *)

Definition component_text (c : Component) : string :=
  match c with RootDir => "" | CurDir => "." | ParentDir => ".." | Normal name => name end.
Definition display (p : Path) : string := Str.join "/" (map component_text p).

Definition invalid_layer_path (path reason : string) : RauhaError :=
  RootfsError ("unsafe layer path " ++ path ++ ": " ++ reason).

Fixpoint clean_components (path : string) (cs : Path) (clean : list string) : result (list string) RauhaError :=
  match cs with
  | [] => Ok clean
  | Normal part :: cs => clean_components path cs (clean ++ [part])
  | CurDir :: cs => clean_components path cs clean
  | (ParentDir | RootDir) :: _ => Err (invalid_layer_path path "path escapes the rootfs")
  end.

Definition clean_layer_path (path : string) : result (list string) RauhaError :=
  let? clean := clean_components path (components path) [] in
  if Vfs.is_nil clean then Err (invalid_layer_path path "path is empty") else Ok clean.

(** ** Whiteouts *)

Notation M := (M Vfs.Fs RauhaError).

(** A system call, its error told as [context: error]. *)
Definition os {A} (c : StateError.M Vfs.Fs Vfs.IoError A) (context : string) : M A := fun w =>
  let '(r, w') := c w in (map_err (fun e => RootfsError (context ++ ": " ++ Vfs.io_text e)) r, w').
(** A system call whose error the caller looks at. *)
Definition try {A} (c : StateError.M Vfs.Fs Vfs.IoError A) : M (result A Vfs.IoError) := fun w =>
  let '(r, w') := c w in (Ok r, w').

Fixpoint descend (relative : Path) (current : Path) (cs : Path) : M (option Path) :=
  match cs with
  | [] => ret (Some current)
  | Normal part :: cs =>
      let current := (current ++ [Normal part])%list in
      do metadata <- try (Vfs.symlink_metadata current);
      match metadata with
      | Ok (Vfs.Symlink _) => fail (invalid_layer_path (display relative) "whiteout parent is a symlink")
      | Ok (Vfs.File _) => fail (invalid_layer_path (display relative) "whiteout parent is not a directory")
      | Ok Vfs.Dir => descend relative current cs
      | Err Vfs.Enoent => ret None
      | Err error =>
          fail (RootfsError ("failed to inspect whiteout parent " ++ display current ++ ": " ++ Vfs.io_text error))
      end
  | _ => fail (invalid_layer_path (display relative) "invalid whiteout parent")
  end.

Definition whiteout_parent (target relative : Path) : M (option Path) :=
  do current <- os (Vfs.canonicalize target) ("failed to resolve rootfs " ++ display target);
  descend relative current relative.

Definition remove_path (path : Path) : M unit :=
  do metadata <- try (Vfs.symlink_metadata path);
  match metadata with
  | Err Vfs.Enoent => ret tt
  | Err error =>
      fail (RootfsError ("failed to inspect whiteout target " ++ display path ++ ": " ++ Vfs.io_text error))
  | Ok Vfs.Dir => os (Vfs.remove_dir_all path) ("failed to apply whiteout to " ++ display path)
  | Ok _ => os (Vfs.remove_file path) ("failed to apply whiteout to " ++ display path)
  end.

Fixpoint clear_entries (path : Path) (found : list string) : M unit :=
  match found with
  | [] => ret tt
  | name :: found =>
      do name <- os (Vfs.reads (fun _ => Ok name)) "failed to read opaque whiteout entry";
      do _ <- remove_path (path ++ [Normal name])%list;
      clear_entries path found
  end.

Definition clear_directory (path : Path) : M unit :=
  do found <- os (Vfs.read_dir path) ("failed to read opaque whiteout directory " ++ display path);
  clear_entries path found.

(** ** Layers *)

Section Layers.
Context `{TarI : Tar}.

(** What a name means: an opaque marker, a whiteout of another name, or itself. *)
Definition OPAQUE : string := ".wh..wh..opq".
Definition whiteout_target (name : string) : option string :=
  if Utf8.is_utf8 name then Str.strip_prefix ".wh." name else None.
Definition bad_target (original : string) : bool :=
  (String.eqb original "" || String.eqb original "." || String.eqb original ".." || Str.contains_char "/" original)%bool.

Definition unpack_entry (target : Path) (entry : Entry) : M unit :=
  do path <- of_result (map_err (fun e => RootfsError ("invalid tar entry path: " ++ e)) (entry_path entry));
  do path <- of_result (clean_layer_path path);
  let name := List.last path "" in
  let parent := map Normal (removelast path) in
  let unpack :=
    do r <- os (Vfs.changes (fun t =>
               match Vfs.locate t true target with
               | Ok place => let '(r, t') := unpack_in entry place t in (Ok r, t')
               | Err e => (Err e, t)
               end)) ("failed to unpack " ++ Str.join "/" path);
    of_result (map_err (fun e => RootfsError ("failed to unpack " ++ Str.join "/" path ++ ": " ++ e)) r) in
  if String.eqb name OPAQUE then
    do full_parent <- whiteout_parent target parent;
    match full_parent with Some full_parent => clear_directory full_parent | None => ret tt end
  else
    match whiteout_target name with
    | Some original =>
        if bad_target original then fail (invalid_layer_path (Str.join "/" path) "invalid whiteout target")
        else
          do full_parent <- whiteout_parent target parent;
          match full_parent with
          | Some full_parent => remove_path (full_parent ++ [Normal original])%list
          | None => ret tt
          end
    | None => unpack
    end.

(** Reading on in the archive can fail at every entry. *)
Fixpoint unpack_entries (target : Path) (es : list (result Entry string)) : M unit :=
  match es with
  | [] => ret tt
  | entry :: es =>
      do entry <- os (Vfs.reads (fun _ => map_err Vfs.Eother entry)) "corrupt tar entry";
      do _ <- unpack_entry target entry;
      unpack_entries target es
  end.

Definition unpack_layer (archive : string) (target : Path) : M unit :=
  do es <- of_result (map_err (fun e => RootfsError ("failed to read tar entries: " ++ e)) (entries archive));
  unpack_entries target es.
End Layers.

(** ** What the operations do *)

Lemma wp_context {A} (c : StateError.M Vfs.Fs Vfs.IoError A) context (Q : result A RauhaError -> Vfs.Fs -> Prop) w :
  wp c (fun r w' => match r with Ok a => Q (Ok a) w' | Err _ => forall text, Q (Err (RootfsError text)) w' end) w ->
  wp (os c context) Q w.
Proof. unfold wp, os. destruct (c w) as [[a|e] w']; simpl; auto. Qed.
Lemma wp_try {A} (c : StateError.M Vfs.Fs Vfs.IoError A) (Q : result (result A Vfs.IoError) RauhaError -> Vfs.Fs -> Prop) w :
  wp c (fun r w' => Q (Ok r) w') w -> wp (try c) Q w.
Proof. unfold wp, try. by destruct (c w). Qed.

Lemma abs_snoc p name : (Vfs.abs p ++ [Normal name])%list = Vfs.abs (p ++ [name]).
Proof. unfold Vfs.abs. by rewrite map_app. Qed.

(** A place in a directory is inspected without leaving it. *)
Lemma wp_symlink_metadata base name (Q : result Vfs.Node Vfs.IoError -> Vfs.Fs -> Prop) w :
  Vfs.real (Vfs.tree w) base ->
  (forall r fs, match r with
                | Ok n => Vfs.tree w !! (base ++ [name])%list = Some n
                | Err Vfs.Enoent => Vfs.node (Vfs.tree w) (base ++ [name]) = None
                | Err _ => True
                end -> Q r (Vfs.mkFs (Vfs.tree w) fs)) ->
  wp (Vfs.symlink_metadata (Vfs.abs (base ++ [name]))) Q w.
Proof.
  intros Hr HQ. apply Vfs.wp_fs_reads. intros r fs Hf. apply HQ. unfold Vfs.stat in Hf.
  rewrite Vfs.locate_plain in Hf; [|done|by destruct (Vfs.node _ _) as [[]|]]. cbn in Hf.
  destruct Hf as [<-|(text & ->)]; [|done]. rewrite Vfs.node_lookup by by destruct base.
  by destruct (Vfs.tree w !! (base ++ [name])%list).
Qed.

Section Applied.
Context (d : list string).

(** The walk to the parent of a whiteout: what it finds is reached without links,
    and a parent that is not there has nothing in it. *)
Lemma descend_spec relative rel done w :
  Vfs.real (Vfs.tree w) (d ++ done) ->
  wp (descend relative (Vfs.abs (d ++ done)) (map Normal rel)) (fun r w' =>
    Vfs.tree w' = Vfs.tree w /\
    match r with
    | Ok (Some p) => p = Vfs.abs (d ++ done ++ rel) /\ Vfs.real (Vfs.tree w) (d ++ done ++ rel)
    | Ok None => exists p, Vfs.within p (d ++ done ++ rel) /\ Vfs.node (Vfs.tree w) p = None
    | Err _ => True
    end) w.
Proof.
  revert done w. induction rel as [|name rel IH]; intros done w Hr; cbn [descend map].
  - apply wp_ret. by rewrite app_nil_r.
  - rewrite abs_snoc. apply wp_bind, wp_try, wp_symlink_metadata; [done|]. intros [n|e] fs Hn.
    + destruct n; try (apply wp_fail; done).
      assert (Hr' : Vfs.real (Vfs.tree w) ((d ++ done) ++ [name])).
      { apply Vfs.real_snoc; [done|]. rewrite Vfs.node_lookup; [done|]. by destruct (d ++ done)%list. }
      rewrite <- app_assoc in Hr' |- *. pose proof (IH (done ++ [name])%list (Vfs.mkFs (Vfs.tree w) fs) Hr') as Hd.
      by rewrite <- (app_assoc done) in Hd.
    + destruct e; try (apply wp_fail; done). apply wp_ret. split; [done|]. eexists. split; [|exact Hn].
      exists rel. by rewrite <- !app_assoc.
Qed.

Lemma whiteout_parent_spec rel w :
  Vfs.real (Vfs.tree w) d ->
  wp (whiteout_parent (Vfs.abs d) (map Normal rel)) (fun r w' =>
    Vfs.tree w' = Vfs.tree w /\
    match r with
    | Ok (Some p) => p = Vfs.abs (d ++ rel) /\ Vfs.real (Vfs.tree w) (d ++ rel)
    | Ok None => exists p, Vfs.within p (d ++ rel) /\ Vfs.node (Vfs.tree w) p = None
    | Err _ => True
    end) w.
Proof.
  intros Hr. apply wp_bind, wp_context. unfold Vfs.canonicalize. apply Vfs.wp_fs_reads. intros r fs Hf.
  unfold Vfs.stat in Hf. rewrite Vfs.locate_real in Hf by done. cbn in Hf. rewrite (Vfs.real_here _ _ Hr) in Hf.
  destruct Hf as [<-|(text & ->)]; [|done]. cbn. pose proof (descend_spec (map Normal rel) rel [] (Vfs.mkFs (Vfs.tree w) fs)) as Hd.
  rewrite app_nil_r in Hd. by apply Hd.
Qed.

End Applied.

(** [c] changes nothing but what lies beneath [base], and when it succeeds it has
    made the change [f]. *)
Definition does (base : list string) (f : gmap (list string) Vfs.Node -> gmap (list string) Vfs.Node) {A} (c : M A) : Prop :=
  forall w, Vfs.real (Vfs.tree w) base ->
  wp c (fun r w' => Vfs.same_outside base (Vfs.tree w) (Vfs.tree w') /\
                    (is_ok r = true -> Vfs.wf (Vfs.tree w) -> Vfs.tree w' = f (Vfs.tree w))) w.

Lemma remove_path_does base name : does base (Vfs.erase (base ++ [name])) (remove_path (Vfs.abs (base ++ [name]))).
Proof.
  intros w Hr. unfold remove_path. apply wp_bind, wp_try, wp_symlink_metadata; [done|]. intros [n|e] fs Hn.
  - assert (Hs : Vfs.stat (Vfs.tree w) false (Vfs.abs (base ++ [name])) = Ok ((base ++ [name])%list, n)).
    { unfold Vfs.stat. rewrite Vfs.locate_plain; [|done|by destruct (Vfs.node _ _) as [[]|]]. cbn.
      rewrite Vfs.node_lookup by by destruct base. by rewrite Hn. }
    destruct n; apply wp_context, Vfs.wp_on_tree; cbn [Vfs.tree]; rewrite Hs; cbn.
    all: try (intros [] t' fs' [= <-]; split; [|intros _ Hw]).
    all: try (intros e t' fs' [->|(kept & a & t & [= <- <-] & ->)] text; (split; [|done]);
              [reflexivity|apply Vfs.same_outside_blend]).
    all: try apply (Vfs.same_outside_delete base []); try apply (Vfs.same_outside_erase base []); try done.
    all: symmetry; by eapply Vfs.erase_leaf.
  - destruct e; try (apply wp_fail; by split; [reflexivity|]). apply wp_ret. split; [reflexivity|]. intros _ Hw.
    symmetry. by apply Vfs.erase_absent.
Qed.

Lemma does_weaken d rel f {A} (c : M A) : does (d ++ rel) f c -> forall w, Vfs.real (Vfs.tree w) (d ++ rel) ->
  wp c (fun r w' => Vfs.same_outside d (Vfs.tree w) (Vfs.tree w') /\
                    (is_ok r = true -> Vfs.wf (Vfs.tree w) -> Vfs.tree w' = f (Vfs.tree w))) w.
Proof.
  intros Hc w Hr. eapply wp_mono; [by apply Hc|]. intros r w' [Hs Hf]. split; [|done]. by eapply Vfs.same_outside_weaken.
Qed.

Lemma does_ext base f g {A} (c : M A) : (forall t, g t = f t) -> does base f c -> does base g c.
Proof. intros H Hc w Hr. eapply wp_mono; [by apply Hc|]. intros r w' [Hs Hf]. split; [done|]. rewrite H. exact Hf. Qed.

Lemma clear_entries_does base found : does base (Vfs.erase_names base found) (clear_entries (Vfs.abs base) found).
Proof.
  induction found as [|name found IH]; intros w Hr; cbn [clear_entries]; [by apply wp_ret|].
  apply wp_bind, wp_context, Vfs.wp_fs_reads. intros r fs Hname. destruct Hname as [<-|(text & ->)]; [|by split; [reflexivity|]].
  rewrite abs_snoc. apply wp_bind. eapply wp_mono; [by apply remove_path_does|]. cbn [Vfs.tree].
  intros [[]|e] w' [Hs Hf]; [|by split]. specialize (IH w' (Vfs.real_same _ _ _ Hr Hs)).
  eapply wp_mono; [exact IH|]. intros r' w'' [Hs' Hf']. split; [by etransitivity|]. intros Hok Hw.
  rewrite Hf in Hf' by done. cbn. apply Hf'; [done|]. apply Vfs.erase_wf; [done|]. by destruct base.
Qed.

Lemma clear_directory_does base : does base (Vfs.emptied base) (clear_directory (Vfs.abs base)).
Proof.
  intros w Hr. apply wp_bind, wp_context, Vfs.wp_fs_reads. intros r fs Hf. unfold Vfs.stat in Hf.
  rewrite Vfs.locate_real in Hf by done. cbn in Hf. rewrite (Vfs.real_here _ _ Hr) in Hf. cbn in Hf.
  destruct Hf as [<-|(text & ->)]; [|by split; [reflexivity|]].
  eapply wp_mono; [by apply clear_entries_does|]. cbn [Vfs.tree]. intros r w' [Hs Hf]. split; [done|].
  intros Hok Hw. rewrite Hf by done. by apply Vfs.erase_names_emptied.
Qed.

(** ** Applying a layer *)

Section Apply.
Context `{TarI : Tar} `{TarL : !TarLaws}.

(** What an entry does to the tree at [d], by the image specification: a marker
    hides what the lower layers have, anything else is unpacked. *)
Definition apply_entry (d : list string) (t : gmap (list string) Vfs.Node) (entry : Entry) : gmap (list string) Vfs.Node :=
  match entry_path entry with
  | Err _ => t
  | Ok path =>
      match clean_layer_path path with
      | Err _ => t
      | Ok path =>
          let parent := (d ++ removelast path)%list in
          let name := List.last path "" in
          if String.eqb name OPAQUE then Vfs.emptied parent t
          else match whiteout_target name with
               | Some original => Vfs.erase (parent ++ [original]) t
               | None => snd (unpack_in entry d t)
               end
      end
  end.

Definition apply_layer (d : list string) (t : gmap (list string) Vfs.Node) (es : list (result Entry string)) :=
  foldl (fun t e => match e with Ok entry => apply_entry d t entry | Err _ => t end) t es.

(** A whiteout is applied in its parent, or its parent is not there and it has
    nothing to hide. *)
Lemma whiteout_does (d rel : list string) (f : gmap (list string) Vfs.Node -> gmap (list string) Vfs.Node) (act : Path -> M unit) :
  does (d ++ rel) f (act (Vfs.abs (d ++ rel))) ->
  (forall t p, Vfs.wf t -> Vfs.node t p = None -> Vfs.within p (d ++ rel) -> f t = t) ->
  does d f (do full_parent <- whiteout_parent (Vfs.abs d) (map Normal rel);
            match full_parent with Some full_parent => act full_parent | None => ret tt end).
Proof.
  intros Hact Hnone w Hr. apply wp_bind. eapply wp_mono; [by apply whiteout_parent_spec|].
  intros [[p|]|e] w' [Ht Hp].
  - destruct Hp as [-> Hp]. rewrite <- Ht in Hp |- *. by apply (does_weaken d rel).
  - apply wp_ret. rewrite Ht. split; [reflexivity|]. intros _ Hw. destruct Hp as (q & Hq & Hn). symmetry. by eapply Hnone.
  - by rewrite Ht; split; [reflexivity|].
Qed.

Lemma unpack_entry_does d entry : does d (fun t => apply_entry d t entry) (unpack_entry (Vfs.abs d) entry).
Proof.
  destruct (entry_path entry) as [path|e] eqn:Hpath.
  2: { intros w Hr. unfold unpack_entry. rewrite Hpath. by apply wp_bind, wp_fail; split; [reflexivity|]. }
  destruct (clean_layer_path path) as [names|e] eqn:Hnames.
  2: { intros w Hr. unfold unpack_entry. rewrite Hpath. apply wp_bind, wp_ret. rewrite Hnames.
       by apply wp_bind, wp_fail; split; [reflexivity|]. }
  eapply does_ext; [intros t; unfold apply_entry; rewrite Hpath, Hnames; reflexivity|].
  intros w Hr. unfold unpack_entry. rewrite Hpath. apply wp_bind, wp_ret. rewrite Hnames. apply wp_bind, wp_ret.
  destruct (String.eqb (List.last names "") OPAQUE).
  - revert w Hr. apply whiteout_does; [apply clear_directory_does|]. intros t p. apply Vfs.emptied_below_absent.
  - destruct (whiteout_target (List.last names "")) as [original|].
    + destruct (bad_target original); [by apply wp_fail; split; [reflexivity|]|].
      revert w Hr. apply (whiteout_does d _ _ (fun full_parent => remove_path (full_parent ++ [Normal original])%list)).
      * rewrite abs_snoc. apply remove_path_does.
      * intros t p Hw Hn Hin. eapply Vfs.erase_below_absent; [done..|]. by apply prefix_app_r.
    + apply wp_bind, wp_context, Vfs.wp_changes; rewrite Vfs.locate_real by done.
      all: pose proof (unpack_in_inside entry d (Vfs.tree w) Hr) as Hin; destruct (unpack_in entry d (Vfs.tree w)) as [r t]; cbn in *.
      * intros fs. apply wp_of_result; [by split|by intros e He; split].
      * intros _ t' fs [(kept & ->)| ->] text'; (split; [|done]); [by apply Vfs.same_outside_blend|reflexivity].
Qed.

Lemma apply_entry_wf d t entry : Vfs.real t d -> Vfs.wf t -> Vfs.wf (apply_entry d t entry).
Proof.
  intros Hr Hw. unfold apply_entry. destruct (entry_path entry) as [path|]; [|done].
  destruct (clean_layer_path path) as [names|]; [|done]. destruct (String.eqb _ _); [by apply Vfs.emptied_wf|].
  destruct (whiteout_target _); [|by apply unpack_in_wf]. apply Vfs.erase_wf; [done|]. by destruct (d ++ removelast names)%list.
Qed.

Lemma unpack_entries_does d es : does d (fun t => apply_layer d t es) (unpack_entries (Vfs.abs d) es).
Proof.
  induction es as [|e es IH]; intros w Hr; cbn [unpack_entries]; [by apply wp_ret|].
  apply wp_bind, wp_context, Vfs.wp_fs_reads. intros r fs He.
  destruct r as [entry|e']; [|by split; [reflexivity|]]. destruct e as [entry'|e]; [|by destruct He as [He|(? & He)]].
  assert (entry' = entry) as -> by (by destruct He as [[= ->]|(? & He)]). clear He.
  apply wp_bind. eapply wp_mono; [by apply unpack_entry_does|]. cbn [Vfs.tree].
  intros [[]|e] w' [Hs Hf]; [|by split]. eapply wp_mono; [by apply IH, (Vfs.real_same _ _ _ Hr Hs)|].
  intros r w'' [Hs' Hf']. split; [by etransitivity|]. intros Hok Hw. cbn.
  rewrite Hf in Hf' by done. apply Hf'; [done|]. by apply apply_entry_wf.
Qed.

Lemma unpack_layer_does d archive es : entries archive = Ok es ->
  does d (fun t => apply_layer d t es) (unpack_layer archive (Vfs.abs d)).
Proof. intros He w Hr. unfold unpack_layer. rewrite He. apply wp_bind, wp_ret. by apply unpack_entries_does. Qed.

(** C6. Unpacking any archive in a directory reached without links changes nothing
    but what lies beneath the directory - whatever names and links the archive and the
    directory hold, and whichever operation of the file system fails. *)
Theorem unpacking_stays_inside archive d w p :
  Vfs.real (Vfs.tree w) d -> ~ Vfs.beneath d p ->
  Vfs.tree (snd (unpack_layer archive (Vfs.abs d) w)) !! p = Vfs.tree w !! p.
Proof.
  intros Hr Hp. destruct (entries archive) as [es|e] eqn:He.
  - destruct (unpack_layer_does d archive es He w Hr) as [Hs _]. by apply Hs.
  - unfold unpack_layer, bind. by rewrite He.
Qed.

(** C26. A layer that was unpacked without an error was applied as the image
    specification says: in the order of the archive, each whiteout has removed the
    name it hides with all beneath it, each opaque marker what its directory held,
    and everything else was unpacked. *)
Theorem unpacked_layer_is_applied archive es d w w' :
  entries archive = Ok es -> Vfs.real (Vfs.tree w) d -> Vfs.wf (Vfs.tree w) ->
  unpack_layer archive (Vfs.abs d) w = (Ok tt, w') ->
  Vfs.tree w' = apply_layer d (Vfs.tree w) es.
Proof.
  intros He Hr Hw Hu. pose proof (unpack_layer_does d archive es He w Hr) as H. unfold wp in H. rewrite Hu in H.
  by apply H.
Qed.

End Apply.

(** ** Images on the disk *)

Record Mount := mkMount { mount_target : string; mount_data : string; private : bool }.

Section Prepare.
Context `{Sha : Sha256} `{Json : Images.OciJson} `{TarI : Tar} {N : Type}.

Record World := mkWorld { fs : Vfs.Fs; images : Images.World (N := N); mounts : list Mount }.

Notation MW := (StateError.M World RauhaError).

Definition on_fs {A} (c : M A) : MW A := fun w =>
  let '(r, f) := c (fs w) in (r, mkWorld f (images w) (mounts w)).
Definition on_images {A} (c : StateError.M (Images.World (N := N)) RauhaError A) : MW A := fun w =>
  let '(r, i) := c (images w) in (r, mkWorld (fs w) i (mounts w)).
Definition on_os {A} (c : StateError.M Vfs.Fs Vfs.IoError A) (context : string) : MW A := on_fs (os c context).

Definition open_blob (path : string) (context : string) : MW string :=
  on_images (Images.on_disk (Content.read path) (fun e => RootfsError (context ++ ": " ++ e))).

(** ** [image.rs]: one tree of all the layers *)

Section Image.
Context (root : string).

Fixpoint unpack_layers (target : string) (layers : list Images.OciDescriptor) : MW unit :=
  match layers with
  | [] => ret tt
  | layer :: rest =>
      do digest <- or_fail (Content.parse (Images.digest layer)) (RootfsError ("invalid layer digest: " ++ Images.digest layer));
      do archive <- open_blob (Content.blob_path (Images.content_root root) digest)
                      ("failed to open layer blob " ++ Content.as_str digest);
      do _ <- on_fs (unpack_layer archive (components target));
      unpack_layers target rest
  end.

Definition prepare_rootfs (reference_str target : string) : MW unit :=
  do (_, manifest) <- on_images (Images.load_manifest root reference_str (Images.not_pulled reference_str));
  do _ <- on_os (Vfs.create_dir_all (components target)) "failed to create rootfs dir";
  unpack_layers target (Images.layers manifest).

Definition image_dir (safe_name : string) : string := Shim.join_path (Shim.join_path root "images") safe_name.
Definition exists_ (path : string) : MW bool := on_os (Vfs.exists_ (components path)) "".

(** The work of [prepare_base_rootfs] in the order it is done: under the lock of the
    name, then - the lock released - the tree is put in its place. *)
Definition extract_base (reference_str safe_name : string) : MW unit :=
  let temp := Shim.join_path (image_dir safe_name) ".rootfs-extracting" in
  do there <- exists_ temp;
  do _ <- (if there : bool then do _ <- attempt (on_os (Vfs.remove_dir_all (components temp)) ""); ret tt else ret tt);
  prepare_rootfs reference_str temp.

Definition publish_base (safe_name : string) : MW string :=
  let temp := Shim.join_path (image_dir safe_name) ".rootfs-extracting" in
  let rootfs_path := Shim.join_path (image_dir safe_name) "rootfs" in
  do there <- exists_ rootfs_path;
  do _ <- (if there : bool then on_os (Vfs.remove_dir_all (components rootfs_path)) "failed to remove stale rootfs" else ret tt);
  do _ <- on_os (Vfs.rename (components temp) (components rootfs_path)) "failed to rename rootfs into place";
  do _ <- on_os (Vfs.write (components (Shim.join_path (image_dir safe_name) ".complete")) "") "failed to write completion marker";
  ret rootfs_path.

(** A call that nobody else's is at work with: the marker is looked for before and
    after the lock is taken. *)
Definition prepare_base_rootfs (reference_str : string) : MW string :=
  do canonical <- on_images (Images.canonical_of reference_str);
  let safe_name := Content.safe_name canonical in
  let rootfs_path := Shim.join_path (image_dir safe_name) "rootfs" in
  let marker := Shim.join_path (image_dir safe_name) ".complete" in
  do prepared <- exists_ marker;
  if prepared : bool then ret rootfs_path
  else
    do prepared <- exists_ marker;
    if prepared : bool then ret rootfs_path
    else
      do _ <- extract_base reference_str safe_name;
      publish_base safe_name.
End Image.

(** ** [snapshotter.rs]: a directory for each layer *)

(** [&s[..n]]: a panic inside a character. *)
Definition slice_to (n : nat) (s : string) : option string :=
  match String.get n s with
  | Some c => if Utf8.cont c then None else Some (String.substring 0 n s)
  | None => Some s
  end.

Definition digest_key (digest_str : string) : option string :=
  slice_to 12 (default digest_str (Str.strip_prefix "sha256:" digest_str)).

Section Snapshotter.
Context (root : string).

Definition layers_dir (image_safe_name : string) : string :=
  Shim.join_path (Shim.join_path (Shim.join_path root "images") image_safe_name) "layers".

Definition extract_layer (content_root layer_dir marker digest_str key : string) : MW unit :=
  do digest <- or_fail (Content.parse digest_str) (RootfsError ("invalid layer digest: " ++ digest_str));
  do there <- exists_ layer_dir;
  do _ <- (if there : bool then do _ <- attempt (on_os (Vfs.remove_dir_all (components layer_dir)) ""); ret tt else ret tt);
  do _ <- on_os (Vfs.create_dir_all (components layer_dir)) ("failed to create layer dir " ++ key);
  do archive <- open_blob (Content.blob_path content_root digest) ("failed to open layer blob " ++ Content.as_str digest);
  do _ <- on_fs (unpack_layer archive (components layer_dir));
  on_os (Vfs.write (components marker) "") "failed to write layer marker".

Fixpoint each_layer (layers_dir content_root : string) (digests : list string) : MW (list string) :=
  match digests with
  | [] => ret []
  | digest_str :: rest =>
      do key <- or_fail (digest_key digest_str) (BackendError "rootfs task panicked: byte index 12 is not a char boundary");
      let layer_dir := Shim.join_path layers_dir key in
      let marker := Shim.join_path layers_dir (key ++ ".complete") in
      do done <- exists_ marker;
      do _ <- (if done : bool then ret tt else extract_layer content_root layer_dir marker digest_str key);
      do paths <- each_layer layers_dir content_root rest;
      ret (layer_dir :: paths)
  end.

Definition prepare_layers (image_safe_name : string) (layer_digests : list string) (content_root : string)
  : MW (list string) :=
  do _ <- on_os (Vfs.create_dir_all (components (layers_dir image_safe_name))) "failed to create layers dir";
  each_layer (layers_dir image_safe_name) content_root layer_digests.

(** Mounts fail as the faults say. *)
Definition syscall : StateError.M Vfs.Fs Vfs.IoError unit := Vfs.reads (fun _ => Ok tt).
Definition set_mounts (f : list Mount -> list Mount) : MW unit := modify (fun w => mkWorld (fs w) (images w) (f (mounts w))).

Fixpoint unmount_top (target : string) (ms : list Mount) : option (list Mount) :=
  match ms with
  | [] => None
  | m :: ms => if String.eqb (mount_target m) target then Some ms else option_map (cons m) (unmount_top target ms)
  end.
Definition umount2 (target context : string) : MW unit :=
  do _ <- on_os syscall context;
  do ms <- gets mounts;
  do ms <- or_fail (unmount_top target ms) (RootfsError (context ++ ": EINVAL: Invalid argument"));
  set_mounts (fun _ => ms).
Definition make_private (target : string) (ms : list Mount) : list Mount :=
  match ms with
  | m :: ms => (if String.eqb (mount_target m) target then mkMount target (mount_data m) true else m) :: ms
  | [] => []
  end.

Definition do_overlay_mount (layer_paths : list string) (upper work merged : string) : MW unit :=
  if Vfs.is_nil layer_paths then fail (RootfsError "no layers to mount")
  else
    let lowerdir := Str.join ":" (rev layer_paths) in
    let data := "lowerdir=" ++ lowerdir ++ ",upperdir=" ++ upper ++ ",workdir=" ++ work in
    do mounted <- on_fs (try syscall);
    do _ <- of_result (map_err (fun e => RootfsError ("overlayfs mount failed: " ++ Vfs.io_text e
              ++ " — try: modprobe overlay; or check that /proc/filesystems contains overlay")) mounted);
    do _ <- set_mounts (cons (mkMount merged data false));
    do r <- attempt (on_os syscall "failed to make overlay rootfs private");
    match r with
    | Ok _ => set_mounts (make_private merged)
    | Err error => do _ <- attempt (umount2 merged ""); fail error
    end.

Definition mount_overlay (layer_paths : list string) (container_root : string) : MW string :=
  let upper := Shim.join_path container_root "upper" in
  let work := Shim.join_path container_root "work" in
  let merged := Shim.join_path container_root "merged" in
  do _ <- on_os (Vfs.create_dir_all (components upper)) "failed to create upper dir";
  do _ <- on_os (Vfs.create_dir_all (components work)) "failed to create work dir";
  do _ <- on_os (Vfs.create_dir_all (components merged)) "failed to create merged dir";
  do _ <- do_overlay_mount layer_paths upper work merged;
  ret merged.

Definition unmount_overlay (container_root : string) : MW unit :=
  let merged := Shim.join_path container_root "merged" in
  do there <- exists_ merged;
  if there : bool then umount2 merged "failed to unmount overlay" else ret tt.
End Snapshotter.
End Prepare.

(** ** Copying a tree, merging into what is there *)

Fixpoint copy_entries (copy_dir : Path -> Path -> M unit) (src dst : Path) (found : list string) : M unit :=
  match found with
  | [] => ret tt
  | name :: found =>
      do name <- os (Vfs.reads (fun _ => Ok name)) "failed to read entry";
      let src_path := (src ++ [Normal name])%list in
      let dst_path := (dst ++ [Normal name])%list in
      do meta <- os (Vfs.symlink_metadata src_path) ("failed to stat " ++ display src_path);
      do _ <- (match meta with
               | Vfs.Symlink _ =>
                   do link_target <- os (Vfs.read_link src_path) ("failed to read symlink " ++ display src_path);
                   do _ <- try (Vfs.remove_file dst_path);
                   os (Vfs.symlink link_target dst_path)
                      ("failed to create symlink " ++ display dst_path ++ " -> " ++ link_target)
               | Vfs.Dir => copy_dir src_path dst_path
               | Vfs.File _ => os (Vfs.copy src_path dst_path) ("failed to copy " ++ display src_path ++ " -> " ++ display dst_path)
               end);
      copy_entries copy_dir src dst found
  end.

(** [depth] bounds the directories within each other. *)
Fixpoint copy_dir_recursive (depth : nat) (src dst : Path) : M unit :=
  match depth with
  | O => fail (RootfsError "stack overflow")
  | S depth =>
      do _ <- os (Vfs.create_dir_all dst) ("failed to create dir " ++ display dst);
      do found <- os (Vfs.read_dir src) ("failed to read dir " ++ display src);
      copy_entries (copy_dir_recursive depth) src dst found
  end.

(** Off Linux the layers are copied over each other instead of mounted. *)
Fixpoint fallback_copy (depth : nat) (layer_paths : list Path) (merged : Path) : M unit :=
  match layer_paths with
  | [] => ret tt
  | layer_path :: rest =>
      do there <- os (Vfs.exists_ layer_path) "";
      do _ <- (if there : bool then copy_dir_recursive depth layer_path merged else ret tt);
      fallback_copy depth rest merged
  end.


(** ** Archives of files, links and directories *)
Module Demo.

Definition demo_entry : Type := string * Vfs.Node.

Definition demo_unpack_in (e : demo_entry) (d : list string) (t : gmap (list string) Vfs.Node)
  : result unit string * gmap (list string) Vfs.Node :=
  match clean_layer_path (fst e) with
  | Ok names =>
      if decide (Vfs.node t (d ++ removelast names) = Some Vfs.Dir /\ names <> [] /\ Vfs.node t (d ++ names) <> Some Vfs.Dir)
      then (Ok tt, <[(d ++ names)%list := snd e]> t) else (Err "no such directory", t)
  | Err _ => (Err "bad path", t)
  end.

Definition demo_entries (archive : string) : result (list (result demo_entry string)) string :=
  if String.eqb archive "base" then
    Ok [Ok ("etc", Vfs.Dir); Ok ("etc/config.txt", Vfs.File "original"); Ok ("escape", Vfs.Symlink "/host")]
  else if String.eqb archive "upper" then Ok [Ok ("etc", Vfs.Dir); Ok ("etc/.wh.config.txt", Vfs.File "")]
  else if String.eqb archive "whiteout" then Ok [Ok ("./etc/.wh.config.txt", Vfs.File ""); Ok ("new", Vfs.File "data")]
  else if String.eqb archive "evil" then Ok [Ok ("escape/.wh.victim", Vfs.File "")]
  else if String.eqb archive "layer" then Ok [Ok ("etc", Vfs.Dir); Ok ("etc/config.txt", Vfs.File "original")]
  else Err "not an archive".

#[local] Instance tar : Tar := {|
  Entry := demo_entry; entries := demo_entries; entry_path e := Ok (fst e); unpack_in := demo_unpack_in |}.

#[local] Instance tar_laws : TarLaws.
Proof.
  split; intros e d t Hr; cbn [unpack_in tar]; unfold demo_unpack_in.
  - destruct (clean_layer_path (fst e)) as [names|]; [|reflexivity]. case_decide as H; [|reflexivity]. intros p Hp. cbn.
    apply lookup_insert_ne. intros <-. apply Hp. destruct names as [|n names]; [by destruct H as (_ & ? & _)|by eexists _, _].
  - intros Hw. destruct (clean_layer_path (fst e)) as [names|]; [|done]. case_decide as H; [|done]. cbn.
    destruct H as (Hp & Hne & Hn). set (q := (d ++ names)%list) in *.
    assert (Hq : q <> []) by (subst q; by destruct d, names).
    assert (Hkeep : forall p, Vfs.node t p = Some Vfs.Dir -> Vfs.node (<[q := snd e]> t) p = Some Vfs.Dir).
    { intros p H. unfold Vfs.node in *. destruct p; [done|]. rewrite lookup_insert_ne; [done|]. intros E. apply Hn. by rewrite E. }
    destruct Hw as [H0 Hw]. split; [by rewrite lookup_insert_ne|]. intros p name n Hl. apply Hkeep.
    apply lookup_insert_Some in Hl as [[Hl _]|[_ Hl]]; [|by eapply Hw].
    destruct names as [|x names _] using rev_ind; [done|]. rewrite removelast_last in Hp. subst q.
    rewrite app_assoc in Hl. by apply app_inj_tail in Hl as [<- _].
Qed.

Definition rootfs : list string := ["rootfs"].
Definition target : Path := Vfs.abs rootfs.
Definition host : gmap (list string) Vfs.Node :=
  <[["rootfs"] := Vfs.Dir]> (<[["host"] := Vfs.Dir]> (<[["host"; "victim"] := Vfs.File "host data"]> ∅)).
Definition start : Vfs.Fs := Vfs.mkFs host [].

Lemma host_real : Vfs.real host rootfs.
Proof. intros [|[|k]]; vm_compute; reflexivity. Qed.

Definition based := unpack_layer "base" target start.
Definition whited := unpack_layer "whiteout" target (snd based).
Definition attacked := unpack_layer "evil" target (snd based).

(** A whiteout through a link of the image is refused. *)
Lemma attack_refused : fst attacked = Err (invalid_layer_path "escape" "whiteout parent is a symlink").
Proof. vm_compute. reflexivity. Qed.

Lemma unpacking_stays_inside_witness :
  Vfs.tree (snd attacked) !! ["host"; "victim"] = Vfs.tree (snd based) !! ["host"; "victim"].
Proof.
  apply (unpacking_stays_inside (TarI := tar) "evil" rootfs (snd based) ["host"; "victim"]).
  - intros [|[|k]]; vm_compute; reflexivity.
  - intros (name & q & H). discriminate.
Defined.

Definition whiteout_archive : list (result demo_entry string) :=
  [Ok ("./etc/.wh.config.txt", Vfs.File ""); Ok ("new", Vfs.File "data")].
Lemma unpacked_layer_is_applied_witness :
  fst whited = Ok tt /\
  Vfs.tree (snd whited) = apply_layer rootfs (Vfs.tree (snd based)) whiteout_archive.
Proof.
  assert (Hok : fst whited = Ok tt) by (vm_compute; reflexivity). split; [exact Hok|].
  apply (unpacked_layer_is_applied (TarI := tar) "whiteout" whiteout_archive
           rootfs (snd based) (snd whited)).
  - reflexivity.
  - intros [|[|k]]; vm_compute; reflexivity.
  - apply Vfs.wf_check_sound. vm_compute. reflexivity.
  - exact (eq_trans (surjective_pairing whited) (f_equal (fun r => (r, snd whited)) Hok)).
Defined.

Lemma whiteout_removes :
  Vfs.tree (snd based) !! ["rootfs"; "etc"; "config.txt"] = Some (Vfs.File "original") /\
  Vfs.tree (snd whited) !! ["rootfs"; "etc"; "config.txt"] = None.
Proof. split; vm_compute; reflexivity. Qed.

(** What overlayfs shows of trees without its own whiteouts: the topmost node. *)
Definition overlay (t : gmap (list string) Vfs.Node) (top_first : list (list string)) (p : list string) : option Vfs.Node :=
  foldr (fun d below => match t !! (d ++ p)%list with Some n => Some n | None => below end) None top_first.

(** Each layer in a directory of its own: the marker of the upper layer is applied
    where there is nothing to hide, and the mounted image still has the file that
    the same layers in one tree have not. *)
Definition apart := unpack_layer "upper" (Vfs.abs ["l2"])
  (snd (unpack_layer "base" (Vfs.abs ["l1"]) (Vfs.mkFs (<[["l1"] := Vfs.Dir]> (<[["l2"] := Vfs.Dir]> ∅)) []))).
Lemma overlay_loses_whiteouts :
  fst apart = Ok tt /\ overlay (Vfs.tree (snd apart)) [["l2"]; ["l1"]] ["etc"; "config.txt"] = Some (Vfs.File "original").
Proof. split; vm_compute; reflexivity. Qed.

(** Off Linux, a file of an upper layer is copied through a link of a lower one. *)
Definition links : gmap (list string) Vfs.Node :=
  <[["l1"] := Vfs.Dir]> (<[["l1"; "escape"] := Vfs.Symlink "/host/victim"]>
  (<[["l2"] := Vfs.Dir]> (<[["l2"; "escape"] := Vfs.File "overwritten"]> host))).
Lemma merged_copy_follows_links :
  Vfs.tree (snd (fallback_copy 3 [Vfs.abs ["l1"]; Vfs.abs ["l2"]] (Vfs.abs ["merged"]) (Vfs.mkFs links []))) !! ["host"; "victim"]
  = Some (Vfs.File "overwritten").
Proof. vm_compute. reflexivity. Qed.

(** ** Images in the store *)
#[local] Existing Instance Images.Demo.sha.
#[local] Existing Instance Images.Demo.json.

Definition root : string := "/var/lib/rauha".
Definition reference : string := Images.Demo.reference.
Definition safe_name : string := Content.safe_name (Reference.to_string_canonical Images.Demo.parsed).
Definition pulled (faults : list Vfs.Fault) (t : gmap (list string) Vfs.Node) :=
  mkWorld (Vfs.mkFs t faults) (snd Images.Demo.pulled) [].
Definition resumed {N} (faults : list Vfs.Fault) (w : World (N := N)) :=
  mkWorld (Vfs.mkFs (Vfs.tree (fs w)) faults) (images w) (mounts w).
Definition base_place (p : list string) : list string := (["var"; "lib"; "rauha"; "images"; safe_name] ++ p)%list.

(** Two calls for one image: the first has unpacked it and let the lock go, the
    second begins, and the first puts in place - complete, it says - what the second
    has unpacked so far. *)
Definition first_unpacked := extract_base root reference safe_name (pulled [] ∅).
Definition second_begins := extract_base root reference safe_name
  (resumed (replicate 5 Vfs.Fine ++ [Vfs.Refused "not yet"]) (snd first_unpacked)).
Definition first_publishes := publish_base root safe_name (resumed [] (snd second_begins)).

Lemma base_rootfs_race :
  fst first_unpacked = Ok tt /\ is_ok (fst first_publishes) = true /\
  Vfs.tree (fs (snd first_publishes)) !! base_place [".complete"] = Some (Vfs.File "") /\
  Vfs.tree (fs (snd first_publishes)) !! base_place ["rootfs"; "etc"; "config.txt"] = None.
Proof. split_and!; vm_compute; reflexivity. Qed.

(** Alone, the call puts the whole image in place. *)
Definition prepared := prepare_base_rootfs root reference (pulled [] ∅).
Lemma base_rootfs_alone :
  fst prepared = Ok (root ++ "/images/" ++ safe_name ++ "/rootfs") /\
  Vfs.tree (fs (snd prepared)) !! base_place ["rootfs"; "etc"; "config.txt"] = Some (Vfs.File "original").
Proof. split; vm_compute; reflexivity. Qed.

(** The rest of an interrupted extraction that cannot be removed is part of the
    layer that is then called complete. *)
Definition layer_place (p : list string) : list string := base_place (["layers"; "000000000000"] ++ p)%list.
Definition stale : gmap (list string) Vfs.Node :=
  list_to_map (map (fun k => (take k (layer_place []), Vfs.Dir)) (seq 1 7)) ∪ {[ layer_place ["stale"] := Vfs.File "" ]}.
Definition prepared_over := prepare_layers root safe_name [Images.Demo.digest_of "layer"]
  (Images.content_root root) (pulled (replicate 3 Vfs.Fine ++ [Vfs.Refused "Input/output error (os error 5)"]) stale).
Lemma stale_files_become_part :
  is_ok (fst prepared_over) = true /\
  Vfs.tree (fs (snd prepared_over)) !! base_place ["layers"; "000000000000.complete"] = Some (Vfs.File "") /\
  Vfs.tree (fs (snd prepared_over)) !! layer_place ["stale"] = Some (Vfs.File "") /\
  Vfs.tree (fs (snd prepared_over)) !! layer_place ["etc"; "config.txt"] = Some (Vfs.File "original").
Proof. split_and!; vm_compute; reflexivity. Qed.

(** A digest is only looked at when its marker is not there: with the marker of
    another directory, text that is no digest names that directory as a layer. *)
Lemma unchecked_digest_names_a_directory :
  fst (prepare_layers root safe_name ["/tmp/x"] (Images.content_root root)
         (pulled [] (<[["tmp"] := Vfs.Dir]> {[ ["tmp"; "x.complete"] := Vfs.File "" ]}))) = Ok ["/tmp/x"].
Proof. vm_compute. reflexivity. Qed.
End Demo.
End Layers.
