(* ===== verification/Receipts.v ===== *)
(** * Signed receipts

    [rauha-evidence/src/receipt.rs] and [rauha-evidence/src/dsse.rs]: what a task
    did, signed in two forms with one key - the receipt's JSON, and a DSSE envelope
    over an in-toto statement.  The signature scheme, the text encodings and the
    JSON of the documents are parameters. *)

From stdpp Require Import base gmap strings list countable.
From Stdlib Require Import ZArith Ascii String Lia.
From S2P Require Import Prelude.
From S2P Require Import RustStr.
From S2P Require Import RustText.
From S2P Require Import StateError.
From S2P Require Import Content.
From S2P Require Import Results.
Open Scope string_scope.

Module Receipts.
Import Str Text.
Import Results(ImageAdmission(..), reference, manifest_digest, digest_verified,
  EnforcementTotals(..), allow, deny, error, dropped,
  ExecutionReceiptPayload(..), schema, task_id, zone_id, image, policy_sha256, inputs_sha256, outputs_sha256,
  status, exit_code, started_at, finished_at, enforcement, unavailable_controls, capture_issues).

(** ** Documents

    The payload of a receipt is declared with the recovery records ([Results]). *)

Definition EXECUTION_RECEIPT_SCHEMA : string := "rauha.execution-receipt.v1".
Definition DSSE_PAYLOAD_TYPE : string := "application/vnd.in-toto+json".
Definition STATEMENT_TYPE : string := "https://in-toto.io/Statement/v1".
Definition PREDICATE_TYPE : string := "https://rauha.dev/execution/v0".

Record SignedExecutionReceipt := mkSigned { payload : ExecutionReceiptPayload; public_key : string; signature : string }.

Record StatementSubject := mkSubject { name : string; digest : gmap string string }.
Record InTotoStatement := mkStatement {
  type_ : string; subject : list StatementSubject; predicate_type : string; predicate : ExecutionReceiptPayload }.
Record DsseSignature := mkSignature { keyid_ : string; sig : string }.
Record DsseEnvelope := mkEnvelope { payload_type : string; payload64 : string; signatures : list DsseSignature }.

(** ** The libraries *)

(** Ed25519, a signing key being its seed.  [verify_strict] refuses more. *)
Class Ed25519 := {
  verifying_key : string -> string;
  sign_bytes : string -> string -> string;
  valid_key : string -> bool;
  verify_bytes : string -> string -> string -> bool;
  verify_strict : string -> string -> string -> bool }.

Class Encodings := {
  hex_encode : string -> string;
  hex_decode : string -> option string;
  base64_encode : string -> string;
  base64_decode : string -> result string string }.

Class ReceiptJson := {
  payload_json : ExecutionReceiptPayload -> string;
  statement_json : InTotoStatement -> string;
  statement_of_json : string -> result InTotoStatement string;
  receipt_json : SignedExecutionReceipt -> string }.

Class Ed25519Laws `{!Ed25519} := {
  verifying_key_length : forall k, String.length (verifying_key k) = 32%nat;
  verifying_key_valid : forall k, valid_key (verifying_key k) = true;
  signature_length : forall k m, String.length (sign_bytes k m) = 64%nat;
  signed_verifies : forall k m, verify_bytes (verifying_key k) m (sign_bytes k m) = true;
  signed_verifies_strict : forall k m, verify_strict (verifying_key k) m (sign_bytes k m) = true }.

Class EncodingsLaws `{!Encodings} := {
  hex_round : forall b, hex_decode (hex_encode b) = Some b;
  hex_graphic : forall b, all_chars graphic (hex_encode b) = true;
  base64_round : forall b, base64_decode (base64_encode b) = Ok b }.

(** A document is written as a JSON object and read back; different payloads are
    different texts. *)
Class ReceiptJsonLaws `{!ReceiptJson} := {
  statement_round : forall s, statement_of_json (statement_json s) = Ok s;
  payload_json_inj : forall p q, payload_json p = payload_json q -> p = q;
  payload_json_object : forall p, starts_with "{" (payload_json p) = true }.

Section Receipts.
Context `{Ed : Ed25519} `{Enc : Encodings} `{RJson : ReceiptJson} `{Sha : Sha256}.

(** ** Receipts *)

Definition sign (key : string) (p : ExecutionReceiptPayload) : SignedExecutionReceipt :=
  let bytes := payload_json p in
  mkSigned p (hex_encode (verifying_key key)) (hex_encode (sign_bytes key bytes)).

(** [try_into::<[u8; 32]>] and [Signature::from_slice]. *)
Definition exactly (n : nat) (b : string) : option string := if Nat.eqb (String.length b) n then Some b else None.

Definition verify (r : SignedExecutionReceipt) : result unit string :=
  if negb (String.eqb (schema (payload r)) EXECUTION_RECEIPT_SCHEMA)
  then Err ("unsupported receipt schema: " ++ schema (payload r))
  else
    let? key := ok_or (hex_decode (public_key r)) "receipt public key is not hexadecimal" in
    let? key := ok_or (exactly 32 key) "receipt public key must be 32 bytes" in
    let? sig := ok_or (hex_decode (signature r)) "receipt signature is not hexadecimal" in
    let? sig := ok_or (exactly 64 sig) "receipt signature must be 64 bytes" in
    let bytes := payload_json (payload r) in
    if negb (valid_key key) then Err "receipt public key is invalid"
    else if verify_strict key bytes sig then Ok tt else Err "receipt signature verification failed".

Definition verify_trusted (r : SignedExecutionReceipt) (trusted_public_key : string) : result unit string :=
  if negb (String.eqb (public_key r) (trim trusted_public_key))
  then Err "receipt signer does not match the trusted public key" else verify r.

Definition sha256_bytes (b : string) : string := "sha256:" ++ sha256_hex b.
Definition sha256 (r : SignedExecutionReceipt) : string := sha256_bytes (receipt_json r).

(** The decisions, counted by name; other names are not reported. *)
Definition count_decision (counts : gmap string Z) (decision : string) : gmap string Z :=
  <[decision := (default 0 (counts !! decision) + 1)%Z]> counts.
Definition enforcement_totals (decisions : list string) (dropped : Z) : EnforcementTotals :=
  let counts := foldl count_decision ∅ decisions in
  mkTotals (default 0%Z (counts !! "allow")) (default 0%Z (counts !! "deny")) (default 0%Z (counts !! "error")) dropped.

(** ** Envelopes *)

Definition statement_from_payload (p : ExecutionReceiptPayload) : InTotoStatement :=
  let digest_hex := default (manifest_digest (image p)) (strip_prefix "sha256:" (manifest_digest (image p))) in
  mkStatement STATEMENT_TYPE [mkSubject (reference (image p)) {[ "sha256" := digest_hex ]}] PREDICATE_TYPE p.

Definition len (s : string) : string := show (Z.of_nat (String.length s)).
Definition pae (payload_type payload : string) : string :=
  "DSSEv1 " ++ len payload_type ++ " " ++ payload_type ++ " " ++ len payload ++ " " ++ payload.

Definition keyid (vk : string) : string := "sha256:" ++ sha256_hex vk.

Definition sign_dsse (key : string) (p : ExecutionReceiptPayload) : DsseEnvelope :=
  let raw := statement_json (statement_from_payload p) in
  let s := sign_bytes key (pae DSSE_PAYLOAD_TYPE raw) in
  mkEnvelope DSSE_PAYLOAD_TYPE (base64_encode raw) [mkSignature (keyid (verifying_key key)) (base64_encode s)].

Definition verify_dsse (e : DsseEnvelope) (vk : string) : result InTotoStatement string :=
  if negb (String.eqb (payload_type e) DSSE_PAYLOAD_TYPE)
  then Err ("unexpected DSSE payload type: " ++ payload_type e ++ " (expected " ++ DSSE_PAYLOAD_TYPE ++ ")")
  else
    let? raw := map_err (fun err => "DSSE payload is not valid base64: " ++ err) (base64_decode (payload64 e)) in
    let message := pae (payload_type e) raw in
    let? s := ok_or (head (signatures e)) "DSSE envelope has no signatures" in
    let? sig_bytes := map_err (fun err => "DSSE signature is not valid base64: " ++ err) (base64_decode (sig s)) in
    let? sig_bytes := ok_or (exactly 64 sig_bytes) "DSSE signature must be 64 bytes" in
    if negb (verify_bytes vk message sig_bytes) then Err "DSSE signature verification failed"
    else
      let? st := map_err (fun err => "DSSE payload is not a valid in-toto statement: " ++ err) (statement_of_json raw) in
      if negb (String.eqb (type_ st) STATEMENT_TYPE)
      then Err ("unexpected statement type: " ++ type_ st ++ " (expected " ++ STATEMENT_TYPE ++ ")")
      else if negb (String.eqb (predicate_type st) PREDICATE_TYPE)
      then Err ("unexpected predicate type: " ++ predicate_type st ++ " (expected " ++ PREDICATE_TYPE ++ ")")
      else if negb (String.eqb (schema (predicate st)) EXECUTION_RECEIPT_SCHEMA)
      then Err ("unexpected predicate schema: " ++ schema (predicate st))
      else Ok st.

Definition verify_public_hex (e : DsseEnvelope) (public_key_hex : string) : result InTotoStatement string :=
  let? key := ok_or (hex_decode (trim public_key_hex)) "receipt public key is not hexadecimal" in
  let? key := ok_or (exactly 32 key) "receipt public key must be 32 bytes" in
  if negb (valid_key key) then Err "receipt public key is invalid" else verify_dsse e key.

(** The DER of the key, and its text in lines of 64. *)
Definition byte (n : N) : ascii := ascii_of_N n.
Definition SPKI_PREFIX : string :=
  string_of_list_ascii (map byte [0x30; 0x2a; 0x30; 0x05; 0x06; 0x03; 0x2b; 0x65; 0x70; 0x03; 0x21; 0x00])%N.
Fixpoint chunks (fuel n : nat) (s : string) : list string :=
  match fuel with
  | O => []
  | S fuel => if String.eqb s "" then [] else String.substring 0 n s :: chunks fuel n (String.substring n (String.length s - n) s)
  end.
Definition verifying_key_spki_pem (vk : string) : string :=
  let b64 := base64_encode (SPKI_PREFIX ++ vk) in
  "-----BEGIN PUBLIC KEY-----" ++ nl ++ unlines (chunks (String.length b64) 64 b64) ++ "-----END PUBLIC KEY-----" ++ nl.

End Receipts.

(** ** The encoding that is signed *)

Lemma show_no_space n : contains_char " " (show n) = false.
Proof.
  pose proof (all_alnum_show n) as H. induction (show n) as [|c s IH]; [done|]. simpl in H. apply andb_true_iff in H as [Hc Hs].
  cbn [contains_char]. rewrite IH by done. destruct (Ascii.eqb_spec " " c) as [<-|]; [|done]. vm_compute in Hc. discriminate.
Qed.

Lemma app_length_inj a a' b b' : String.length a = String.length a' -> a ++ b = a' ++ b' -> a = a' /\ b = b'.
Proof.
  revert a'. induction a as [|c a IH]; intros [|c' a'] Hl H; try done. cbn in Hl. injection Hl as Hl.
  rewrite !app_cons in H. injection H as -> H. by destruct (IH a' Hl H) as [-> ->].
Qed.

(** What is after a number and a space, and the number. *)
Lemma len_inj a a' b b' : len a ++ " " ++ b = len a' ++ " " ++ b' -> len a = len a' /\ b = b'.
Proof.
  intros H. assert (Hs : split_once " " (len a ++ " " ++ b) = split_once " " (len a' ++ " " ++ b')) by by rewrite H.
  change (" " ++ b) with (String " " b) in Hs. change (" " ++ b') with (String " " b') in Hs.
  rewrite !split_once_app in Hs by apply show_no_space. by injection Hs.
Qed.

Definition fits (s : string) : Prop := (Z.of_nat (String.length s) < 2 ^ 64)%Z.

Lemma len_length a a' : fits a -> fits a' -> len a = len a' -> String.length a = String.length a'.
Proof.
  intros Ha Ha' H. unfold len in H. apply (f_equal (parse_uint 64)) in H. unfold fits in *.
  rewrite !parse_uint_show in H by lia. injection H. lia.
Qed.

(** Of payloads of one type, the encoding tells which. *)
Lemma pae_payload t p p' : pae t p = pae t p' -> p = p'.
Proof.
  unfold pae. intros H. apply app_cancel, app_cancel in H. change (" " ++ t ++ ?x) with ((" " ++ t) ++ x) in H.
  rewrite !string_app_assoc in H. apply app_cancel, app_cancel in H.
  change (" " ++ len p ++ " " ++ p) with (String " " (len p ++ " " ++ p)) in H.
  change (" " ++ len p' ++ " " ++ p') with (String " " (len p' ++ " " ++ p')) in H. injection H as H.
  by apply len_inj in H as [_ ?].
Qed.

(** Of any, where lengths fit a machine word. *)
Lemma pae_injective t t' p p' : fits t -> fits t' -> pae t p = pae t' p' -> t = t' /\ p = p'.
Proof.
  unfold pae. intros Ht Ht' H. apply app_cancel in H. apply len_inj in H as [Hl H].
  apply app_length_inj in H as [-> H]; [|by apply len_length]. split; [done|].
  change (" " ++ ?x) with (String " " x) in H. injection H as H. by apply len_inj in H as [_ ?].
Qed.


(** A key is published as a line. *)
Lemma trim_start_head c s : graphic c = true -> trim_start (String c s) = String c s.
Proof.
  unfold graphic. intros [H1%Z.leb_le H2%Z.leb_le]%andb_true_iff. cbn [trim_start].
  assert (ws1 c = false) as ->.
  { unfold ws1. apply orb_false_iff. split; [apply andb_false_iff; right; apply Z.leb_gt; lia|apply Z.eqb_neq; lia]. }
  destruct s as [|d s]; [done|].
  assert (ws2 c d = false) as -> by (unfold ws2; apply andb_false_iff; left; apply Z.eqb_neq; lia).
  destruct s as [|e s]; [done|].
  assert (ws3 c d e = false) as -> by (unfold ws3; by rewrite !(proj2 (Z.eqb_neq (code c) _)) by lia). done.
Qed.

Lemma trim_line s : all_chars graphic s = true -> trim (s ++ nl) = s.
Proof.
  intros H. unfold trim. destruct s as [|c s]; [done|]. rewrite app_cons, trim_start_head by by apply andb_true_iff in H as [? _].
  rewrite <- app_cons. induction (String c s) as [|x r IH]; [done|]. simpl in H. apply andb_true_iff in H as [Hx Hr].
  rewrite app_cons. cbn [trim_end]. rewrite trim_start_head by done. cbn [String.eqb]. by rewrite IH.
Qed.

(** ** Signing and verifying *)
Section Verified.
Context `{Ed : Ed25519} `{EdL : !Ed25519Laws} `{Enc : Encodings} `{EncL : !EncodingsLaws}.
Context `{RJson : ReceiptJson} `{RJsonL : !ReceiptJsonLaws} `{Sha : Sha256}.

(** What the signer signs verifies, in both forms, against the line it
    publishes - where the payload names the schema - and the envelope's statement is
    about the image's manifest and carries the payload. *)
Theorem own_receipts_verify key p :
  schema p = EXECUTION_RECEIPT_SCHEMA ->
  let published := hex_encode (verifying_key key) ++ nl in
  verify_trusted (sign key p) published = Ok tt /\
  verify_public_hex (sign_dsse key p) published = Ok (statement_from_payload p).
Proof.
  intros Hs published. subst published. unfold verify_trusted, verify_public_hex, verify, verify_dsse, exactly.
  rewrite trim_line by apply hex_graphic. cbn. rewrite String.eqb_refl, Hs. cbn.
  rewrite !hex_round. cbn. rewrite !verifying_key_length. cbn. rewrite signature_length. cbn.
  rewrite verifying_key_valid. cbn. rewrite signed_verifies_strict, !base64_round. cbn.
  rewrite signature_length. cbn. rewrite signed_verifies. cbn. rewrite statement_round. cbn. by rewrite Hs.
Qed.

(** What a key signed: receipts and envelopes. *)
Inductive Signed := AsReceipt (p : ExecutionReceiptPayload) | AsEnvelope (p : ExecutionReceiptPayload).
Definition message (s : Signed) : string :=
  match s with
  | AsReceipt p => payload_json p
  | AsEnvelope p => pae DSSE_PAYLOAD_TYPE (statement_json (statement_from_payload p))
  end.

(** Nobody else can sign: the signatures there are - [known] - that verify under the
    key are over what its holder signed. *)
Definition unforgeable (vk : string) (history : list Signed) (known : string -> Prop) : Prop :=
  forall m s, known s -> verify_bytes vk m s = true \/ verify_strict vk m s = true -> exists x, x ∈ history /\ m = message x.

(** C25. A receipt or an envelope that verifies under a key is one the key's holder
    signed, and in that form: the signature of a receipt is never taken for an
    envelope's, nor an envelope's for a receipt's. *)
Theorem verified_in_the_form_it_was_signed vk history known :
  unforgeable vk history known ->
  (forall e st, (forall s b, s ∈ signatures e -> base64_decode (sig s) = Ok b -> known b) ->
     verify_dsse e vk = Ok st -> exists p, AsEnvelope p ∈ history /\ st = statement_from_payload p) /\
  (forall r, (forall b, hex_decode (signature r) = Some b -> known b) ->
     public_key r = hex_encode vk -> verify r = Ok tt -> AsReceipt (payload r) ∈ history).
Proof.
  intros Hu.
  assert (Hforms : forall p raw, payload_json p <> pae DSSE_PAYLOAD_TYPE raw).
  { intros p raw H. pose proof (payload_json_object p) as Ho. by rewrite H in Ho. }
  split.
  - intros e st Hknown. unfold verify_dsse. destruct (String.eqb_spec (payload_type e) DSSE_PAYLOAD_TYPE) as [Ht|]; [|done]. cbn.
    destruct (base64_decode (payload64 e)) as [raw|]; [|done]. cbn. destruct (signatures e) as [|s ss]; [done|]. cbn.
    destruct (base64_decode (sig s)) as [b|] eqn:Hb; [|done]. cbn. unfold exactly. destruct (Nat.eqb _ 64); [|done]. cbn.
    destruct (verify_bytes vk _ b) eqn:Hv; [|done]. cbn. destruct (statement_of_json raw) as [st'|] eqn:Hraw; [|done]. cbn.
    destruct (String.eqb _ _); [|done]. cbn. destruct (String.eqb _ _); [|done]. cbn. destruct (String.eqb _ _); [|done].
    intros [= <-]. destruct (Hu _ b (Hknown s b ltac:(left) Hb) (or_introl Hv)) as ([p|p] & Hp & Hm); rewrite Ht in Hm; [by apply eq_sym, Hforms in Hm|].
    apply pae_payload in Hm as ->. rewrite statement_round in Hraw. injection Hraw as <-. by exists p.
  - intros r Hknown Hk. unfold verify. destruct (String.eqb (schema (payload r)) _); [|done]. cbn. rewrite Hk, hex_round. cbn.
    unfold exactly at 1. destruct (Nat.eqb _ _); [|done]. cbn. destruct (hex_decode (signature r)) as [s|]; [|done]. cbn.
    unfold exactly. destruct (Nat.eqb _ 64); [|done]. cbn. destruct (valid_key vk); [|done]. cbn.
    destruct (verify_strict vk _ s) eqn:Hv; [|done]. intros _.
    destruct (Hu _ s (Hknown s eq_refl) (or_intror Hv)) as ([p|p] & Hp & Hm); cbn in Hm; [|by apply Hforms in Hm].
    by apply payload_json_inj in Hm as ->.
Qed.
End Verified.

(** The totals count the decisions with a name of theirs. *)
Lemma counted decisions counts d :
  default 0%Z (foldl count_decision counts decisions !! d)
  = (default 0 (counts !! d) + Z.of_nat (List.length (List.filter (String.eqb d) decisions)))%Z.
Proof.
  revert counts. induction decisions as [|x decisions IH]; intros counts; cbn [foldl List.filter List.length]; [cbn; lia|].
  rewrite IH. unfold count_decision. destruct (String.eqb_spec d x) as [->|Hd].
  - rewrite lookup_insert_eq. cbn [List.length]. rewrite Nat2Z.inj_succ. cbn. lia.
  - by rewrite lookup_insert_ne.
Qed.

(** ** The files of the key *)

Inductive KeyFile := Link | Regular (mode : Z) (content : string).

(** What an operation meets; [Meanwhile] is another process that has created a file
    just before - if there was none. *)
Inductive Fault := Fine | Refused (e : string) | Torn (bytes : nat) (e : string) | Meanwhile (path : string) (f : KeyFile).

Record Disk := mkDisk { files : gmap string KeyFile; faults : list Fault; random : list string }.

Inductive ErrorKind := NotFound | AlreadyExists | OtherKind.
Record IoError := mkIo { kind : ErrorKind; text : string }.

Notation M := (M Disk IoError).

Definition other (e : string) : IoError := mkIo OtherKind e.

Definition next_fault : M Fault := fun w =>
  match faults w with
  | f :: fs =>
      let w := mkDisk (files w) fs (random w) in
      match f with
      | Meanwhile path file =>
          (Ok Fine, mkDisk (match files w !! path with Some _ => files w | None => <[path := file]> (files w) end) fs (random w))
      | _ => (Ok f, w)
      end
  | [] => (Ok Fine, w)
  end.

Definition set_file (path : string) (f : KeyFile) : M unit :=
  modify (fun w => mkDisk (<[path := f]> (files w)) (faults w) (random w)).

(** An operation: refused, or done. *)
Definition operation {A} (c : M A) : M A :=
  do f <- next_fault;
  match f with Refused e | Torn _ e => fail (other e) | _ => c end.

(** [O_NOFOLLOW]. *)
Definition open_read (path : string) : M (Z * string) :=
  operation (do f <- gets (fun w => files w !! path);
             match f with
             | None => fail (mkIo NotFound "No such file or directory (os error 2)")
             | Some Link => fail (other "Too many levels of symbolic links (os error 40)")
             | Some (Regular mode content) => ret (mode, content)
             end).

Definition create_new (path : string) (mode : Z) : M unit :=
  operation (do f <- gets (fun w => files w !! path);
             match f with
             | Some _ => fail (mkIo AlreadyExists "File exists (os error 17)")
             | None => set_file path (Regular mode "")
             end).

(** [write_all] and [sync_all] on the file just created. *)
Definition write_all (path : string) (mode : Z) (data : string) : M unit :=
  do f <- next_fault;
  match f with
  | Refused e => fail (other e)
  | Torn n e => do _ <- set_file path (Regular mode (String.substring 0 n data)); fail (other e)
  | _ => set_file path (Regular mode data)
  end.
Definition sync_all : M unit := operation (ret tt).
Definition create_dir_all : M unit := operation (ret tt).

Definition read_random : M string :=
  operation (do r <- gets random;
             match r with
             | key :: rest =>
                 do _ <- modify (fun w => mkDisk (files w) (faults w) rest);
                 if Nat.eqb (String.length key) 32 then ret key else fail (other "failed to fill whole buffer")
             | [] => fail (other "failed to fill whole buffer")
             end).

(** [0o077], [0o600], [0o644]. *)
Definition GROUP_OTHERS : Z := 63.
Definition OWNER_RW : Z := 384.
Definition WORLD_READABLE : Z := 420.

Definition read_key (path : string) : M string :=
  do (mode, content) <- open_read path;
  if negb (Z.land mode GROUP_OTHERS =? 0)%Z
  then fail (other "receipt signing key must not be accessible by group or others")
  else if Nat.ltb (String.length content) 32 then fail (other "failed to fill whole buffer")
  else if negb (Nat.eqb (String.length content) 32) then fail (other "receipt signing key must be exactly 32 bytes")
  else ret content.

Definition read_public_key (path : string) : M string :=
  do (_, content) <- open_read path; ret (trim content).

Definition told {A} (context : string) (c : M A) : StateError.M Disk string A := fun w =>
  let '(r, w') := c w in (map_err (fun e => context ++ ": " ++ text e) r, w').

(** An operation whose error the caller looks at. *)
Definition tried {A} (c : M A) : StateError.M Disk string (result A IoError) := fun w =>
  let '(r, w') := c w in (Ok r, w').

(** [Path::parent]. *)
Definition has_parent (path : string) : bool :=
  match components path with [] | [RootDir] => false | _ => true end.

Section KeyFiles.
Context `{Ed : Ed25519} `{Enc : Encodings}.

Definition create_key (path : string) : StateError.M Disk string string :=
  do _ <- (if has_parent path then ret tt else fail "receipt signing key path has no parent");
  do _ <- told "failed to create receipt key directory" create_dir_all;
  do key <- told "failed to generate receipt signing key" read_random;
  do created <- tried (create_new path OWNER_RW);
  match created with
  | Ok _ =>
      do _ <- told "failed to persist receipt signing key" (do _ <- write_all path OWNER_RW key; sync_all);
      ret key
  | Err e =>
      match kind e with
      | AlreadyExists => told "failed to read concurrent receipt key" (read_key path)
      | _ => fail ("failed to create receipt signing key: " ++ text e)
      end
  end.

(** A signer is its key. *)
Definition load_or_create (path : string) : StateError.M Disk string string :=
  do found <- tried (read_key path);
  match found with
  | Ok key => ret key
  | Err e => match kind e with
             | NotFound => create_key path
             | _ => fail ("failed to read receipt signing key: " ++ text e)
             end
  end.

Definition publish_public_key (key path : string) : StateError.M Disk string unit :=
  let expected := hex_encode (verifying_key key) ++ nl in
  do created <- tried (create_new path WORLD_READABLE);
  match created with
  | Ok _ => told "failed to publish receipt public key" (do _ <- write_all path WORLD_READABLE expected; sync_all)
  | Err e =>
      match kind e with
      | AlreadyExists =>
          do actual <- told "failed to read receipt public key" (read_public_key path);
          if String.eqb actual (trim expected) then ret tt
          else fail "receipt public key does not match the signing key"
      | _ => fail ("failed to publish receipt public key: " ++ text e)
      end
  end.

(** The daemon starts: with a signer, or with none. *)
Definition start (path public : string) : StateError.M Disk string string :=
  do key <- load_or_create path;
  do _ <- publish_public_key key public;
  ret key.
End KeyFiles.


(** ** A file that is there stays as it is *)
Section Kept.
Context `{Ed : Ed25519} `{Enc : Encodings}.
Context (path : string).

Definition same (w w' : Disk) : Prop := forall f, files w !! path = Some f -> files w' !! path = Some f.
#[local] Instance same_preorder : PreOrder same.
Proof. split; [by intros w f|]. intros w1 w2 w3 H1 H2 f Hf. by apply H2, H1. Qed.

(** After the operation the file holds the key, for its owner only. *)
Definition holds (key : string) (w : Disk) : Prop :=
  exists mode, files w !! path = Some (Regular mode key) /\ Z.land mode GROUP_OTHERS = 0%Z /\ String.length key = 32%nat.

Lemma next_fault_same w : wp next_fault (fun r w' => same w w' /\ is_ok r = true) w.
Proof.
  unfold wp, next_fault. destruct w as [fs [|[|e|n e|q f] l] rnd]; simpl; split; try done; try exact (fun g Hg => Hg).
  destruct (fs !! q) eqn:E; [exact (fun g Hg => Hg)|]. intros g Hg. simpl in *. rewrite lookup_insert_ne; [done|]. intros ->. congruence.
Qed.

(** An operation does what its body does, or nothing. *)
Lemma wp_operation {A} (c : M A) (Q : result A IoError -> Disk -> Prop) w :
  (forall w', same w w' -> wp c Q w') -> (forall e w', same w w' -> Q (Err (other e)) w') -> wp (operation c) Q w.
Proof.
  intros Hc He. unfold operation. apply wp_bind. eapply wp_mono; [apply next_fault_same|]. intros [f|e] w' [Hs Hok]; [|done].
  destruct f; try (apply wp_fail; by apply He); by apply Hc.
Qed.

Lemma wp_told {A} context (c : M A) (Q : result A string -> Disk -> Prop) w :
  wp c (fun r w' => match r with Ok a => Q (Ok a) w' | Err _ => forall e, Q (Err e) w' end) w -> wp (told context c) Q w.
Proof. unfold wp, told. destruct (c w) as [[a|e] w']; simpl; auto. Qed.

Lemma wp_tried {A} (c : M A) (Q : result (result A IoError) string -> Disk -> Prop) w :
  wp c (fun r w' => Q (Ok r) w') w -> wp (tried c) Q w.
Proof. unfold wp, tried. by destruct (c w). Qed.

Lemma open_read_spec p w :
  wp (open_read p) (fun r w' => same w w' /\ forall m c, r = Ok (m, c) -> files w' !! p = Some (Regular m c)) w.
Proof.
  apply wp_operation; [|by intros]. intros w' Hs. apply wp_bind, wp_gets.
  destruct (files w' !! p) as [[|m c]|] eqn:E; [by apply wp_fail| |by apply wp_fail]. apply wp_ret. split; [done|].
  by intros ? ? [= <- <-].
Qed.

Lemma read_key_spec w : wp (read_key path) (fun r w' => same w w' /\ forall key, r = Ok key -> holds key w') w.
Proof.
  apply wp_bind. eapply wp_mono; [apply open_read_spec|]. intros [[m c]|e] w' [Hs Hf]; [|by split].
  destruct (Z.eqb_spec (Z.land m GROUP_OTHERS) 0) as [Hm|]; [|by apply wp_fail]. cbn [negb].
  destruct (Nat.ltb (String.length c) 32); [by apply wp_fail|]. destruct (Nat.eqb_spec (String.length c) 32) as [Hc|]; [|by apply wp_fail]. cbn [negb].
  apply wp_ret. split; [done|]. intros key [= <-]. exists m. split_and!; [by apply Hf|done|done].
Qed.

(** A file is created where there was none. *)
Lemma create_new_spec p mode w :
  wp (create_new p mode) (fun r w' => same w w' /\
    (r = Ok tt -> p = path -> files w !! path = None)) w.
Proof.
  apply wp_operation; [|by intros]. intros w' Hs. apply wp_bind, wp_gets.
  destruct (files w' !! p) eqn:E; [by apply wp_fail|]. apply wp_modify. split.
  - intros f Hf. simpl. apply Hs in Hf. rewrite lookup_insert_ne; [done|]. intros ->. congruence.
  - intros _ ->. destruct (files w !! path) eqn:E'; [|done]. apply Hs in E'. congruence.
Qed.

Lemma write_all_spec p mode data w :
  wp (write_all p mode data) (fun r w' =>
    (p <> path -> same w w') /\ (r = Ok tt -> files w' !! p = Some (Regular mode data))) w.
Proof.
  apply wp_bind. eapply wp_mono; [apply next_fault_same|]. intros [f|e] w' [Hs Hok]; [|done].
  assert (Hset : forall g, p <> path -> same w (mkDisk (<[p := g]> (files w')) (faults w') (random w'))).
  { intros g Hp h Hh. simpl. rewrite lookup_insert_ne by done. by apply Hs. }
  destruct f; try (apply wp_fail; by split); try (apply wp_modify; split; [auto|]; intros _; by apply lookup_insert_eq).
  apply wp_bind, wp_modify, wp_fail. split; [auto|done].
Qed.

Lemma write_and_sync_spec context p mode data w :
  wp (told context (do _ <- write_all p mode data; sync_all)) (fun r w' =>
    (p <> path -> same w w') /\ (r = Ok tt -> p = path -> files w' !! path = Some (Regular mode data))) w.
Proof.
  apply wp_told, wp_bind. eapply wp_mono; [apply write_all_spec|]. intros [[]|e] w' [Hs Hf]; [|by intros e'; split].
  apply wp_operation.
  - intros w2 Hs2. apply wp_ret. split; [intros Hp; transitivity w'; auto|]. intros _ ->. by apply Hs2, Hf.
  - intros e w2 Hs2 e'. split; [intros Hp; transitivity w'; auto|done].
Qed.

Lemma silent_spec {A} (c : M A) context w :
  (forall w, wp c (fun _ w' => same w w') w) -> wp (told context c) (fun _ w' => same w w') w.
Proof. intros Hc. apply wp_told. eapply wp_mono; [apply Hc|]. intros [a|e] w' Hs; [done|]. by intros. Qed.

Lemma read_random_spec w : wp read_random (fun r w' => same w w' /\ forall key, r = Ok key -> String.length key = 32%nat) w.
Proof.
  apply wp_operation; [|by intros]. intros w' Hs. apply wp_bind, wp_gets. destruct (random w') as [|key rest]; [by apply wp_fail|].
  apply wp_bind, wp_modify. destruct (Nat.eqb_spec (String.length key) 32); [|by apply wp_fail]. apply wp_ret.
  split; [done|]. by intros ? [= <-].
Qed.

Lemma create_key_spec w :
  wp (create_key path) (fun r w' => same w w' /\ forall key, r = Ok key -> holds key w') w.
Proof.
  unfold create_key. apply wp_bind. destruct (has_parent path); [|by apply wp_fail]. apply wp_ret.
  apply wp_bind. eapply wp_mono.
  { apply silent_spec. intros w0. apply wp_operation; [|done]. intros w' Hs. by apply wp_ret. }
  intros [[]|e] w1 Hs1; [|by split]. apply wp_bind, wp_told. eapply wp_mono; [apply read_random_spec|].
  intros [key|e] w2 [Hs2 Hk]; [|intros e'; split; [by transitivity w1|done]]. apply wp_bind, wp_tried. eapply wp_mono; [apply create_new_spec|].
  intros r w3 [Hs3 Hnew]. assert (Hs : same w w3) by (transitivity w1; [done|by transitivity w2]).
  destruct r as [[]|e].
  - apply wp_bind. eapply wp_mono; [apply write_and_sync_spec|].
    assert (Hnone : files w !! path = None).
    { destruct (files w !! path) as [f|] eqn:E; [|done]. specialize (Hnew eq_refl eq_refl).
      apply Hs1, Hs2 in E. congruence. }
    assert (Hvac : forall w', same w w') by (intros w' f Hf; congruence).
    intros [[]|e] w4 [_ Hf]; [|by split]. apply wp_ret. split; [done|]. intros ? [= <-]. exists OWNER_RW. split_and!; [auto|done|auto].
  - destruct (kind e); try (apply wp_fail; by split). apply wp_told. eapply wp_mono; [apply read_key_spec|].
    intros [k|e'] w4 [Hs4 Hh]; [|intros e''; split; [by transitivity w3|done]]. split; [by transitivity w3|].
    intros ? [= <-]. by apply Hh.
Qed.

Lemma load_or_create_spec w :
  wp (load_or_create path) (fun r w' => same w w' /\ forall key, r = Ok key -> holds key w') w.
Proof.
  unfold load_or_create. apply wp_bind, wp_tried. eapply wp_mono; [apply read_key_spec|]. intros r w1 [Hs Hh].
  destruct r as [key|e]; [apply wp_ret; split; [done|]; intros ? [= <-]; by apply Hh|].
  destruct (kind e); try (apply wp_fail; by split). eapply wp_mono; [apply create_key_spec|].
  intros r w2 [Hs2 Hh2]. split; [by transitivity w1|done].
Qed.

Lemma publish_public_key_same key public w : public <> path -> wp (publish_public_key key public) (fun _ w' => same w w') w.
Proof.
  intros Hp. unfold publish_public_key. apply wp_bind, wp_tried. eapply wp_mono; [apply create_new_spec|].
  intros r w1 [Hs _]. destruct r as [[]|e].
  - eapply wp_mono; [apply write_and_sync_spec|]. intros r w2 [Hs2 _]. transitivity w1; auto.
  - destruct (kind e); try (by apply wp_fail). apply wp_bind, wp_told, wp_bind. eapply wp_mono; [apply open_read_spec|].
    intros [[m c]|e'] w2 [Hs2 _]; [|intros; by transitivity w1]. apply wp_ret.
    destruct (String.eqb _ _); [apply wp_ret|apply wp_fail]; by transitivity w1.
Qed.

(** C27. The key that signed is the key that will sign: after a start of the daemon
    that had a signer, every later start that has one has the same key, whatever
    failed or raced in between - the file is never written a second time, and only
    its owner can read it. *)
Theorem signing_key_is_stable publics w key w1 key' w2 :
  Forall (fun public => public <> path) publics ->
  load_or_create path w = (Ok key, w1) ->
  load_or_create path (foldl (fun w public => snd (start path public w)) w1 publics) = (Ok key', w2) ->
  key' = key /\ holds key w2.
Proof.
  intros Hp Hl Hl2. pose proof (load_or_create_spec w) as H. unfold wp in H. rewrite Hl in H. destruct H as [_ Hh].
  destruct (Hh key eq_refl) as (mode & Hf & Hm & Hlen). clear Hl Hh. simpl in *.
  assert (Hkeep : forall w0, files w0 !! path = Some (Regular mode key) ->
    files (foldl (fun w public => snd (start path public w)) w0 publics) !! path = Some (Regular mode key)).
  { clear Hl2 Hf w1. induction Hp as [|public publics Hne Hp IH]; intros w0 Hw0; [done|]. simpl. apply IH.
    assert (Hst : wp (start path public) (fun _ w' => same w0 w') w0).
    { apply wp_bind. eapply wp_mono; [apply load_or_create_spec|]. intros [k|e] w3 [Hs _]; [|done].
      apply wp_bind. eapply wp_mono; [by apply publish_public_key_same|]. intros [[]|e] w4 Hs4; [apply wp_ret|]; by transitivity w3. }
    by apply Hst. }
  apply Hkeep in Hf. pose proof (load_or_create_spec (foldl (fun w public => snd (start path public w)) w1 publics)) as H.
  unfold wp in H. rewrite Hl2 in H. destruct H as [Hs Hh]. apply Hs in Hf. destruct (Hh key' eq_refl) as (mode' & Hf' & Hm' & Hl').
  simpl in *. rewrite Hf in Hf'. injection Hf' as <- <-. split; [done|]. by exists mode.
Qed.
End Kept.

(** ** A signer and its documents *)
Module Demo.

(** The texts of values: the bits of their codes. *)
Fixpoint bits (p : positive) : string :=
  match p with xH => "" | xO p => String "0" (bits p) | xI p => String "1" (bits p) end.
Fixpoint unbits (s : string) : positive :=
  match s with "" => xH | String "0" s => xO (unbits s) | String _ s => xI (unbits s) end.
Lemma unbits_bits p : unbits (bits p) = p.
Proof. induction p; simpl; congruence. Qed.

#[local] Instance image_dec : EqDecision ImageAdmission. Proof. solve_decision. Defined.
#[local] Instance totals_dec : EqDecision EnforcementTotals. Proof. solve_decision. Defined.
#[local] Instance payload_dec : EqDecision ExecutionReceiptPayload. Proof. solve_decision. Defined.
#[local] Instance subject_dec : EqDecision StatementSubject. Proof. solve_decision. Defined.
#[local] Instance statement_dec : EqDecision InTotoStatement. Proof. solve_decision. Defined.

#[local] Instance image_countable : Countable ImageAdmission.
Proof.
  apply (inj_countable' (fun i => (reference i, manifest_digest i, digest_verified i)) (fun '(r, m, d) => mkImage r m d)).
  by intros [].
Defined.
#[local] Instance totals_countable : Countable EnforcementTotals.
Proof.
  apply (inj_countable' (fun t => (allow t, deny t, error t, dropped t)) (fun '(a, d, e, x) => mkTotals a d e x)). by intros [].
Defined.
#[local] Instance payload_countable : Countable ExecutionReceiptPayload.
Proof.
  apply (inj_countable' (fun p => ((schema p, task_id p, zone_id p, image p, policy_sha256 p, inputs_sha256 p, outputs_sha256 p),
      (status p, exit_code p, started_at p, finished_at p, enforcement p, unavailable_controls p, capture_issues p)))
    (fun '((a, b, c, d, e, f, g), (h, i, j, k, l, m, n)) => mkReceipt a b c d e f g h i j k l m n)).
  by intros [].
Defined.
#[local] Instance subject_countable : Countable StatementSubject.
Proof. apply (inj_countable' (fun s => (name s, digest s)) (fun '(n, d) => mkSubject n d)). by intros []. Defined.
#[local] Instance statement_countable : Countable InTotoStatement.
Proof.
  apply (inj_countable' (fun s => (type_ s, subject s, predicate_type s, predicate s)) (fun '(t, s, y, p) => mkStatement t s y p)).
  by intros [].
Defined.

#[local] Instance json : ReceiptJson := {|
  payload_json p := String "{" (bits (encode p));
  statement_json s := String "{" (bits (encode s));
  statement_of_json s :=
    match s with
    | String _ s => ok_or (decode (unbits s)) "expected value"
    | "" => Err "EOF while parsing a value"
    end;
  receipt_json r := String "{" (bits (encode (payload r))) |}.
#[local] Instance json_laws : ReceiptJsonLaws.
Proof.
  split.
  - intros s. cbn. by rewrite unbits_bits, decode_encode.
  - intros p q H. cbn in H. injection H as H. apply (f_equal unbits) in H. rewrite !unbits_bits in H. by apply (inj encode).
  - intros p. cbn. by destruct (bits _).
Qed.

(** Texts two letters a byte. *)
Fixpoint letters (s : string) : string :=
  match s with
  | "" => ""
  | String c s => String (Text.hex_digit (code c / 16)) (String (Text.hex_digit (code c mod 16)) (letters s))
  end.
Definition value (c : ascii) : N := let n := N_of_ascii c in (if 97 <=? n then n - 87 else n - 48)%N.
Fixpoint unletters (s : string) : option string :=
  match s with
  | "" => Some ""
  | String a (String b s) => option_map (String (ascii_of_N (16 * value a + value b))) (unletters s)
  | _ => None
  end.
Lemma unletters_letters s : unletters (letters s) = Some s.
Proof.
  induction s as [|c s IH]; [done|]. cbn [letters unletters]. rewrite IH. cbn [option_map]. do 2 f_equal.
  destruct c as [[] [] [] [] [] [] [] []]; vm_compute; reflexivity.
Qed.
#[local] Instance encodings : Encodings := {|
  hex_encode := letters; hex_decode := unletters;
  base64_encode := letters; base64_decode s := ok_or (unletters s) "Invalid byte" |}.
#[local] Instance encodings_laws : EncodingsLaws.
Proof.
  split; [exact unletters_letters| |by intros b; cbn; rewrite unletters_letters].
  intros b. cbn. induction b as [|c b IH]; [done|]. cbn [letters all_chars]. rewrite IH.
  destruct c as [[] [] [] [] [] [] [] []]; vm_compute; reflexivity.
Qed.
#[local] Instance sha : Sha256 := {| sha256_hex _ := "00" |}.

Definition zeros (n : nat) : string := string_of_list_ascii (replicate n "0"%char).

Definition receipt : ExecutionReceiptPayload :=
  mkReceipt EXECUTION_RECEIPT_SCHEMA "task-1" "zone-1" (mkImage "alpine@sha256:abc" "sha256:abc" true) "sha256:1" "sha256:2"
    "sha256:3" "succeeded" (Some 0%Z) None None (mkTotals 1 0 0 0) [] [].

Section Anyone.
#[local] Instance ed : Ed25519 := {|
  verifying_key _ := zeros 32; sign_bytes _ _ := zeros 64; valid_key _ := true;
  verify_bytes _ _ _ := true; verify_strict _ _ _ := true |}.
#[local] Instance ed_laws : Ed25519Laws.
Proof. by split. Qed.

Lemma own_receipts_verify_witness :
  verify_public_hex (sign_dsse "key" receipt) (hex_encode (verifying_key "key") ++ nl) = Ok (statement_from_payload receipt).
Proof. exact (proj2 (own_receipts_verify "key" receipt eq_refl)). Defined.
End Anyone.

(** A key that signed one envelope. *)
Section One.
Definition history : list Signed := [AsEnvelope receipt].
#[local] Instance ed1 : Ed25519 := {|
  verifying_key _ := zeros 32; sign_bytes _ _ := zeros 64; valid_key _ := true;
  verify_bytes _ m _ := String.eqb m (message (AsEnvelope receipt)); verify_strict _ m _ := String.eqb m (message (AsEnvelope receipt)) |}.

Lemma history_unforgeable : unforgeable (zeros 32) history (fun _ => True).
Proof.
  intros m s _ H. exists (AsEnvelope receipt). split; [by left|]. cbn [verify_bytes verify_strict ed1] in H.
  destruct H as [H|H]; by apply String.eqb_eq in H.
Qed.

Lemma verified_in_the_form_it_was_signed_witness :
  unforgeable (zeros 32) history (fun _ => True) /\
  forall r, public_key r = hex_encode (zeros 32) -> verify r = Ok tt -> AsReceipt (payload r) ∈ history.
Proof.
  split; [exact history_unforgeable|]. intros r.
  exact (proj2 (verified_in_the_form_it_was_signed (zeros 32) history (fun _ => True) history_unforgeable) r (fun _ _ => I)).
Defined.

(** Two daemons start at once; the other's key is the one both have. *)
Definition others : string := string_of_list_ascii (replicate 32 "b"%char).
Definition disk : Disk :=
  mkDisk ∅ [Fine; Fine; Fine; Meanwhile "/k" (Regular OWNER_RW others); Fine] [zeros 32; zeros 32].
Definition first := load_or_create "/k" disk.
Definition again := load_or_create "/k" (foldl (fun w public => snd (start "/k" public w)) (snd first) ["/k.pub"]).

Lemma signing_key_is_stable_witness : fst first = Ok others /\ holds "/k" others (snd again).
Proof.
  assert (H1 : fst first = Ok others) by (vm_compute; reflexivity).
  assert (H2 : fst again = Ok others) by (vm_compute; reflexivity).
  split; [exact H1|].
  refine (proj2 (signing_key_is_stable "/k" ["/k.pub"] disk others (snd first) others (snd again) _ _ _)).
  - by constructor.
  - exact (eq_trans (surjective_pairing first) (f_equal (fun r => (r, snd first)) H1)).
  - exact (eq_trans (surjective_pairing again) (f_equal (fun r => (r, snd again)) H2)).
Defined.

(** The daemon dies while the key is written: no later start has a signer. *)
Definition torn := load_or_create "/k" (mkDisk ∅ [Fine; Fine; Fine; Fine; Torn 16 "killed"] [zeros 32; zeros 32]).
Lemma torn_key_blocks_every_start :
  is_ok (fst torn) = false /\
  fst (load_or_create "/k" (snd torn)) = Err "failed to read receipt signing key: failed to fill whole buffer".
Proof. split; vm_compute; reflexivity. Qed.
End One.
End Demo.
End Receipts.
