(* ===== verification/Logs.v ===== *)
(** * Captured output

    [rauhad/src/logs.rs] and the one-shot half of [rauhad/src/broker_events.rs]: a
    task's output and the broker's decisions are read back from the files the shim
    wrote, bounded, with every loss told. *)

From stdpp Require Import base strings list.
From Stdlib Require Import ZArith Ascii String Lia.
From S2P Require Import Prelude.
From S2P Require Import EnforcerApi.
From S2P Require Import RustStr.
From S2P Require Import RustText.
From S2P Require Import Utf8.
From S2P Require Import Shim.
Open Scope string_scope.

Module Logs.

(** A file when it is looked at: whether the shim's marker of a loss is beside it,
    and what opening and reading it gives. *)
Record LogFile := mkFile { incomplete : bool; opened : option (result string unit) }.
Definition Files := string -> LogFile.

Record CapturedLogs := mkCaptured { stdout : string; stderr : string; issues : list string }.

Definition log_path (run_dir container_id stream : string) : string :=
  Shim.join_path (Shim.join_path (Shim.join_path run_dir "containers") container_id) (stream ++ ".log").

Definition add_one (max_bytes : Z) : Z := saturating_add 64 max_bytes 1.

(** [file.take(n).read_to_end()]. *)
Definition read_limited (file : string) (n : Z) : string := String.substring 0 (Z.to_nat n) file.

Definition lossy (bytes : string) : string := Utf8.to_string (Utf8.lossy (Utf8.of_string bytes)).
Definition truncate_utf8 (text : string) (max_bytes : Z) : string :=
  Utf8.to_string (Utf8.truncate_utf8 (Utf8.of_string text) (Z.to_nat max_bytes)).

Definition len (s : string) : Z := Z.of_nat (String.length s).
Definition nl : string := Text.nl.

Definition marker (stream : string) (max_bytes : Z) : string :=
  nl ++ "[rauha: " ++ stream ++ " truncated after " ++ Str.show max_bytes ++ " bytes]" ++ nl.

Definition read_text_capped (f : LogFile) (stream : string) (max_bytes : Z) : string * list string :=
  let marked := if incomplete f then [(stream ++ ".storage_incomplete")%string] else [] in
  match opened f with
  | None => ("", (marked ++ [(stream ++ ".unavailable")%string])%list)
  | Some (Err _) => ("", (marked ++ [(stream ++ ".read_failed")%string])%list)
  | Some (Ok file) =>
      let bytes := read_limited file (add_one max_bytes) in
      let truncated := (max_bytes <? len bytes)%Z in
      let bytes := if truncated then String.substring 0 (Z.to_nat max_bytes) bytes else bytes in
      let invalid := if Utf8.is_utf8 bytes then [] else [(stream ++ ".invalid_utf8")%string] in
      let text := lossy bytes in
      if truncated || (max_bytes <? len text)%Z then
        let m := marker stream max_bytes in
        let text := truncate_utf8 text (saturating_sub max_bytes (len m)) in
        (if (len m <=? max_bytes)%Z then text ++ m else text,
         (marked ++ invalid ++ [(stream ++ ".preview_truncated")%string])%list)
      else (text, (marked ++ invalid)%list)
  end.

Definition read_all_capped (files : Files) (container_id run_dir : string) (max_bytes_per_stream : Z) : CapturedLogs :=
  let '(out, i1) := read_text_capped (files (log_path run_dir container_id "stdout")) "stdout" max_bytes_per_stream in
  let '(err, i2) := read_text_capped (files (log_path run_dir container_id "stderr")) "stderr" max_bytes_per_stream in
  mkCaptured out err (i1 ++ i2).

(** ** Decisions of the broker *)

Record BrokerDecision := mkDecision {
  seq : Z; ts_ms : Z; notif_id : Z; tid : Z; syscall : string; path : string;
  decision : string; errno : Z; reason : option string }.
Definition granted (d : BrokerDecision) : bool := String.eqb (decision d) "granted".

Class DecisionJson := { decision_of_json : string -> result BrokerDecision string }.

Section Decisions.
Context `{DJ : DecisionJson}.

Fixpoint parse_lines (ls : list string) : list BrokerDecision * Z :=
  match ls with
  | [] => ([], 0%Z)
  | l :: ls =>
      let '(ds, malformed) := parse_lines ls in
      if String.eqb l "" then (ds, malformed)
      else match decision_of_json l with
           | Ok d => (d :: ds, malformed)
           | Err _ => (ds, (malformed + 1)%Z)
           end
  end.

Definition read_decisions_capped (f : LogFile) (max_bytes : Z) : list BrokerDecision * list string :=
  let marked := if incomplete f then ["broker.storage_incomplete"] else [] in
  match opened f with
  | None => ([], marked)
  | Some (Err _) => ([], (marked ++ ["broker.read_failed"])%list)
  | Some (Ok file) =>
      let bytes := read_limited file (add_one max_bytes) in
      let truncated := (max_bytes <? len bytes)%Z in
      let bytes := if truncated then String.substring 0 (Z.to_nat max_bytes) bytes else bytes in
      let '(decisions, malformed) := parse_lines (Text.lines (lossy bytes)) in
      (decisions, (marked ++ (if truncated then ["broker.preview_truncated"] else [])
                   ++ (if 0 <? malformed then ["broker.malformed_records"] else [])%Z)%list)
  end.
End Decisions.

(** ** The last lines of a log *)

Definition CHUNK : nat := Z.to_nat 65536.
Definition WINDOW : Z := 1048576.

(** [reader.take(64 * 1024).read_until(b'\n')]: a line, or as much of it. *)
Fixpoint read_until (n : nat) (s : string) : string * string :=
  match n, s with
  | O, _ | _, "" => ("", s)
  | S n, String c s => if Ascii.eqb c "010" then (String c "", s) else let '(a, b) := read_until n s in (String c a, b)
  end.

Definition push_bounded (tail : Z) (ring : list string) (line : string) : list string :=
  let ring := if (0 <? tail)%Z && (Z.of_nat (List.length ring) =? tail)%Z then List.tl ring else ring in
  (ring ++ [line])%list.

Fixpoint ring_lines (fuel : nat) (tail : Z) (ring : list string) (s : string) : list string :=
  match fuel with
  | O => ring
  | S fuel =>
      let '(chunk, rest) := read_until CHUNK s in
      if String.eqb chunk "" then ring
      else
        let line := default (lossy chunk) (Str.strip_suffix nl (lossy chunk)) in
        ring_lines fuel tail (if String.eqb line "" then ring else push_bounded tail ring line) rest
  end.

(** A file that cannot be read ends where reading it fails. *)
Definition read_tail_lines (f : LogFile) (tail : Z) : list string :=
  match opened f with
  | Some (Ok file) =>
      let size := len file in
      let from := saturating_sub size WINDOW in
      let window := read_limited (String.substring (Z.to_nat from) (String.length file - Z.to_nat from) file) WINDOW in
      let ring := ring_lines (S (String.length window)) tail [] window in
      if (WINDOW <? size)%Z then "[rauha: log preview limited to last 1 MiB]" :: ring else ring
  | _ => []
  end.

(** ** Lemmas *)

Lemma of_to l : Utf8.of_string (Utf8.to_string l) = l.
Proof. apply list_ascii_of_string_of_list_ascii. Qed.
Lemma to_of s : Utf8.to_string (Utf8.of_string s) = s.
Proof. apply string_of_list_ascii_of_string. Qed.
Lemma length_to l : String.length (Utf8.to_string l) = List.length l.
Proof. unfold Utf8.to_string. induction l as [|c l IH]; simpl; [done|by rewrite IH]. Qed.
Lemma length_of s : List.length (Utf8.of_string s) = String.length s.
Proof. unfold Utf8.of_string. induction s as [|c s IH]; simpl; [done|by rewrite IH]. Qed.
Lemma of_app a b : Utf8.of_string (a ++ b) = (Utf8.of_string a ++ Utf8.of_string b)%list.
Proof. unfold Utf8.of_string. induction a as [|c a IH]; simpl; [done|by rewrite IH]. Qed.

Lemma lossy_utf8 b : Utf8.is_utf8 (lossy b) = true.
Proof. unfold Utf8.is_utf8, lossy. rewrite of_to. apply Utf8.lossy_valid. Qed.
Lemma lossy_text_id b : Utf8.is_utf8 b = true -> lossy b = b.
Proof. unfold Utf8.is_utf8, lossy. intros H. by rewrite Utf8.lossy_id, to_of. Qed.
Lemma truncate_utf8_utf8 t n : Utf8.is_utf8 t = true -> Utf8.is_utf8 (truncate_utf8 t n) = true.
Proof. unfold Utf8.is_utf8, truncate_utf8. rewrite of_to. apply Utf8.truncate_valid. Qed.
Lemma truncate_utf8_len t n : (0 <= n)%Z -> (len (truncate_utf8 t n) <= Z.min (len t) n)%Z.
Proof.
  intros Hn. unfold len, truncate_utf8. rewrite length_to.
  pose proof (Utf8.truncate_length (Utf8.of_string t) (Z.to_nat n)) as H. rewrite length_of in H. lia.
Qed.
Lemma utf8_app a b : Utf8.is_utf8 a = true -> Utf8.is_utf8 b = true -> Utf8.is_utf8 (a ++ b) = true.
Proof. unfold Utf8.is_utf8. rewrite of_app. apply Utf8.valid_app. Qed.

Lemma alnum_utf8 s : Str.all_alnum s = true -> Utf8.is_utf8 s = true.
Proof.
  intros H. apply Utf8.ascii_valid. unfold Utf8.of_string. induction s as [|c s IH]; [done|]. simpl in *.
  apply andb_true_iff in H as [Hc Hs]. rewrite IH, andb_true_r by done.
  destruct c as [[] [] [] [] [] [] [] []]; vm_compute in Hc |- *; done.
Qed.

Lemma marker_utf8 stream n : Utf8.is_utf8 stream = true -> Utf8.is_utf8 (marker stream n) = true.
Proof.
  intros Hs. unfold marker.
  apply utf8_app; [vm_compute; reflexivity|]. apply utf8_app; [vm_compute; reflexivity|]. apply utf8_app; [exact Hs|].
  apply utf8_app; [vm_compute; reflexivity|]. apply utf8_app; [apply alnum_utf8, Str.all_alnum_show|].
  apply utf8_app; vm_compute; reflexivity.
Qed.

Lemma substring_length n s : (String.length (String.substring 0 n s) <= n)%nat.
Proof. revert s. induction n as [|n IH]; intros [|c s]; simpl; try lia. specialize (IH s). lia. Qed.
Lemma substring_whole n s : (String.length (String.substring 0 n s) < n)%nat -> String.substring 0 n s = s.
Proof. revert s. induction n as [|n IH]; intros [|c s]; simpl; try done; try lia. intros H. by rewrite IH by lia. Qed.

(** A captured stream fits its cap and is text, whatever is in the file; and when
    no issue is reported it is the whole file, byte for byte. *)
Theorem captured_text_is_bounded f stream max :
  (0 <= max < 2 ^ 64 - 1)%Z -> Utf8.is_utf8 stream = true ->
  let '(text, told) := read_text_capped f stream max in
  (len text <= max)%Z /\ Utf8.is_utf8 text = true /\
  (told = [] -> opened f = Some (Ok text) /\ incomplete f = false).
Proof.
  intros Hmax Hs. unfold read_text_capped.
  destruct (opened f) as [[file|[]]|]; [|split_and!; [unfold len; simpl; lia|done|by destruct (incomplete f)]..].
  set (bytes := read_limited file (add_one max)). set (kept := if (max <? len bytes)%Z then _ else bytes).
  destruct (_ || _) eqn:Hcut.
  - set (text := truncate_utf8 _ _). assert (Hu : Utf8.is_utf8 text = true) by apply truncate_utf8_utf8, lossy_utf8.
    assert (Hl : (len text <= saturating_sub max (len (marker stream max)))%Z).
    { etransitivity; [apply truncate_utf8_len; unfold saturating_sub; lia|lia]. }
    split_and!; [| |by destruct (incomplete f), (Utf8.is_utf8 kept)].
    + destruct (Z.leb_spec (len (marker stream max)) max) as [Hm|Hm]; unfold saturating_sub in Hl.
      * unfold len in *. rewrite Str.string_length_app. lia.
      * lia.
    + destruct (_ <=? _)%Z; [|done]. apply utf8_app; [done|by apply marker_utf8].
  - apply orb_false_iff in Hcut as [Ht Hlen]. apply Z.ltb_ge in Hlen. split_and!; [done|apply lossy_utf8|].
    destruct (incomplete f); [done|]. destruct (Utf8.is_utf8 kept) eqn:Hv; [|done]. intros _. split; [|done].
    rewrite lossy_text_id by done. subst kept. rewrite Ht. apply Z.ltb_ge in Ht. subst bytes. unfold read_limited in *.
    rewrite substring_whole; [done|]. unfold len, add_one, saturating_add in *. lia.
Qed.

Lemma captured_text_is_bounded_witness :
  (len (fst (read_text_capped (mkFile false (Some (Ok "abcdef"))) "stdout" 3)) <= 3)%Z.
Proof. exact (proj1 (captured_text_is_bounded (mkFile false (Some (Ok "abcdef"))) "stdout" 3 ltac:(lia) eq_refl)). Defined.

Example truncated_in_a_character :
  read_text_capped (mkFile true (Some (Ok (Utf8.to_string (map ascii_of_N [0x61; 0xC3; 0xA9; 0x62])%N)))) "stdout" 2
  = ("", ["stdout.storage_incomplete"; "stdout.invalid_utf8"; "stdout.preview_truncated"]).
Proof. vm_compute. reflexivity. Qed.

(** A tail is as long as was asked for, and the line that says there was more. *)
Lemma ring_bounded fuel tail ring s : (0 < tail)%Z -> (Z.of_nat (List.length ring) <= tail)%Z ->
  (Z.of_nat (List.length (ring_lines fuel tail ring s)) <= tail)%Z.
Proof.
  intros Ht. revert ring s. induction fuel as [|fuel IH]; intros ring s Hr; cbn [ring_lines]; [done|].
  destruct (read_until CHUNK s) as [chunk rest]. destruct (String.eqb chunk ""); [done|]. apply IH.
  destruct (String.eqb _ ""); [done|]. unfold push_bounded. rewrite (proj2 (Z.ltb_lt _ _)) by done. cbn [andb].
  rewrite length_app. destruct (Z.eqb_spec (Z.of_nat (List.length ring)) tail); cbn [List.length]; [|lia].
  destruct ring; simpl in *; lia.
Qed.
End Logs.
