(* ===== verification/Evidence.v ===== *)
(** * Evidence events

    The event builder of [rauha-evidence/src/lib.rs]: names, narratives, bounded and
    redacted fields, and the event a decision of the syscall broker becomes.  The
    clock and the host's name are parameters; sinks and tracing are left out. *)

From stdpp Require Import base gmap strings list sorting.
From Stdlib Require Import ZArith Ascii String Lia.
From S2P Require Import Prelude.
From S2P Require Import RustStr.
From S2P Require Import RustText.
From S2P Require Import Utf8.
From S2P Require Import Results.
From S2P Require Import Logs.
Open Scope string_scope.

Module Evidence.

Definition BACKEND_LINUX_EBPF : string := "linux-ebpf".
Definition BACKEND_SECCOMP_BROKER : string := "linux-seccomp-broker".
Definition PIPELINE_SHED : string := "pipeline.shed".
Definition ZONE_SYSCALL_BROKERED_DENIED : string := "zone.syscall.brokered.denied".
Definition ZONE_SYSCALL_BROKERED_GRANTED : string := "zone.syscall.brokered.granted".

Inductive Severity := Trace | Info | Warn | Error.
Definition severity_str (s : Severity) : string :=
  match s with Trace => "TRACE" | Info => "INFO" | Warn => "WARN" | Error => "ERROR" end.

Inductive FieldValue :=
| FString (s : string) | FU64 (n : Z) | FI64 (n : Z) | FBool (b : bool) | FStrings (l : list string).

Record ZoneIdentity := mkZoneIdentity { z_id : string; z_name : option string }.
Record ActorIdentity := mkActor { a_id : string; delegation : list string }.
Record ResourceAttrs := mkAttrs {
  ra_backend : string; host : option string; node : option string; ra_container_id : option string; kernel_version : option string }.
Record FalseNarrative := mkNarrative { n_what_failed : string; n_why_it_matters : string; n_possible_causes : list string }.
Record OTelMapping := mkOTel {
  log_body : string; severity_text : string; otel_resource_attributes : list string; event_attributes : list string }.
Record FalseEvent := mkEvent {
  ts : string; level : Severity; event : string; zone : ZoneIdentity; actor : option ActorIdentity;
  resource : option string; backend : string; trace_id : option string; what_failed : string; why_it_matters : string;
  possible_causes : list string; resource_attributes : ResourceAttrs; fields : gmap string FieldValue; otel : OTelMapping }.

Inductive EvidenceError := MissingField (name : string) | HighCardinalityMetricLabel (label : string).

(** The clock's text, the variable HOSTNAME, and a time in milliseconds as text. *)
Class EventHost := { now_rfc3339 : string; hostname : option string; rfc3339_millis : Z -> option string }.

(** ** Text that may leave the daemon *)

Definition MAX_FIELD_CHARS : nat := Z.to_nat 4096.

(** [chars()] of a UTF-8 text: the bytes that start a character. *)
Fixpoint char_count (s : string) : nat :=
  match s with "" => O | String c s => ((if Utf8.cont c then 0 else 1) + char_count s)%nat end.
Fixpoint take_chars (n : nat) (s : string) : string :=
  match s with
  | "" => ""
  | String c s' =>
      if Utf8.cont c then String c (take_chars n s')
      else match n with O => "" | S n => String c (take_chars n s') end
  end.

Definition bound_string (value : string) : string :=
  if Nat.leb (char_count value) MAX_FIELD_CHARS then value
  else take_chars MAX_FIELD_CHARS value ++ "...[truncated]".

Definition ascii_lower (c : ascii) : ascii :=
  if ((65 <=? Str.code c) && (Str.code c <=? 90))%Z then ascii_of_N (Z.to_N (Str.code c + 32)) else c.
Fixpoint to_ascii_lowercase (s : string) : string :=
  match s with "" => "" | String c s => String (ascii_lower c) (to_ascii_lowercase s) end.

Definition secretive (value : string) : bool :=
  let lower := to_ascii_lowercase value in
  Text.contains_str "secret" lower || Text.contains_str "password" lower || Text.contains_str "token" lower.
Definition redact_and_bound (value : string) : string := if secretive value then "[redacted]" else bound_string value.

Definition bounded (v : FieldValue) : FieldValue :=
  match v with FString s => FString (bound_string s) | FStrings l => FStrings (map bound_string l) | other => other end.

Definition display_field (v : FieldValue) : string :=
  match v with
  | FString s => s
  | FU64 n => Str.show n
  | FI64 n => if (n <? 0)%Z then "-" ++ Str.show (- n) else Str.show n
  | FBool b => if b then "true" else "false"
  | FStrings l => Str.join "," l
  end.

(** Strings in the order of their bytes: [sort] and [dedup]. *)
Definition str_le (a b : string) : Prop := String.leb a b = true.
#[global] Instance str_le_dec : RelDecision str_le.
Proof. intros a b. unfold str_le. apply _. Defined.
Definition sort (l : list string) : list string := merge_sort str_le l.
Fixpoint dedup (l : list string) : list string :=
  match l with
  | a :: ((b :: _) as l') => if String.eqb a b then dedup l' else a :: dedup l'
  | _ => l
  end.

(** ** What an event means *)

Definition narrative_for (event : string) : FalseNarrative :=
  if String.eqb event "zone.file.denied" then mkNarrative "cross-zone file_open" "file inode belongs to a different zone than the caller" ["policy drift"; "mislabeled mount"; "escape attempt"] else
  if String.eqb event "zone.exec.denied" then mkNarrative "cross-zone exec" "executable inode belongs to a different zone than the caller" ["policy drift"; "mislabeled image layer"; "escape attempt"] else
  if String.eqb event "zone.ptrace.denied" then mkNarrative "cross-zone ptrace" "caller attempted to inspect or control a process outside its zone" ["debug tool in wrong zone"; "credential misuse"; "escape attempt"] else
  if String.eqb event "zone.signal.denied" then mkNarrative "cross-zone signal" "caller attempted to signal a process outside its zone" ["stale process target"; "orchestrator drift"; "escape attempt"] else
  if String.eqb event "zone.escape.cgroup_attach" then mkNarrative "cross-zone cgroup attach" "moving tasks across zone cgroups would break the isolation boundary" ["runtime bug"; "manual cgroup mutation"; "escape attempt"] else
  if String.eqb event "zone.net.denied" then mkNarrative "cross-zone network access" "network policy does not allow this zone-to-zone path" ["policy drift"; "unexpected service dependency"; "escape attempt"] else
  if String.eqb event "zone.syscall.brokered.denied" then mkNarrative "brokered syscall denied" "the workload asked for authority the broker does not grant (or the kernel returned an error the broker answered honestly)" ["write attempt under a read-only broker policy"; "argument shape the kernel would reject"; "path outside the confined root"] else
  if String.eqb event "zone.syscall.brokered.granted" then mkNarrative "brokered syscall granted" "the broker opened a confined read-only handle on the workload's behalf — the workload never exercised ambient authority" ["normal brokered access"] else
  if String.eqb event "zone.mount.denied" then mkNarrative "zone mount denied" "mount operations can change the filesystem boundary" ["unexpected privilege"; "bad OCI spec"; "escape attempt"] else
  if String.eqb event "zone.ipc.denied" then mkNarrative "cross-zone IPC denied" "IPC target belongs to a different zone than the caller" ["shared namespace drift"; "bad workload placement"; "escape attempt"] else
  if String.eqb event "zone.proc.filtered" then mkNarrative "proc entry filtered" "process listing was restricted to preserve zone visibility" ["normal isolation behavior"] else
  if String.eqb event "ringbuf.drop" then mkNarrative "ring buffer event dropped" "evidence may be incomplete for the affected interval" ["burst exceeded ring buffer"; "userspace reader lagged"] else
  if String.eqb event "pipeline.shed" then mkNarrative "evidence pipeline shed event" "downstream consumers may be missing telemetry" ["slow sink"; "subscriber lag"; "bounded queue full"] else
  mkNarrative (Text.replace_char "." " " event) "event records a zone lifecycle or evidence state transition"
    ["normal runtime activity"].

Definition is_one_of (names : list string) (event : string) : bool := existsb (String.eqb event) names.
Definition default_severity (event : string) : Severity :=
  if is_one_of ["zone.escape.cgroup_attach"; "ringbuf.drop"] event then Error
  else if is_one_of ["zone.file.denied"; "zone.exec.denied"; "zone.ptrace.denied"; "zone.signal.denied"; "zone.mount.denied";
                     "zone.ipc.denied"; "zone.net.denied"; "zone.syscall.brokered.denied"; "pipeline.shed"] event then Warn
  else if is_one_of ["zone.file.allowed"; "zone.proc.filtered"] event then Trace
  else Info.

(** ** Building events *)

Section Build.
Context `{Host : EventHost}.

Record FalseEventBuilder := mkBuilder {
  b_event : option string; b_level : option Severity; b_zone : option ZoneIdentity; b_actor : option ActorIdentity;
  b_resource : option string; b_resource_attributes : option ResourceAttrs; b_trace_id : option string;
  b_fields : gmap string FieldValue }.

Definition new (event : string) : FalseEventBuilder := mkBuilder (Some event) None None None None None None ∅.
Definition set_level (l : Severity) (b : FalseEventBuilder) : FalseEventBuilder :=
  mkBuilder (b_event b) (Some l) (b_zone b) (b_actor b) (b_resource b) (b_resource_attributes b) (b_trace_id b) (b_fields b).
Definition set_zone (id : string) (name : option string) (b : FalseEventBuilder) : FalseEventBuilder :=
  mkBuilder (b_event b) (b_level b) (Some (mkZoneIdentity id (option_map bound_string name))) (b_actor b) (b_resource b)
    (b_resource_attributes b) (b_trace_id b) (b_fields b).
Definition set_actor (id : string) (del : list string) (b : FalseEventBuilder) : FalseEventBuilder :=
  mkBuilder (b_event b) (b_level b) (b_zone b) (Some (mkActor (bound_string id) (map bound_string del))) (b_resource b)
    (b_resource_attributes b) (b_trace_id b) (b_fields b).
Definition set_resource (r : string) (b : FalseEventBuilder) : FalseEventBuilder :=
  mkBuilder (b_event b) (b_level b) (b_zone b) (b_actor b) (Some (redact_and_bound r)) (b_resource_attributes b)
    (b_trace_id b) (b_fields b).
Definition set_resource_attributes (a : ResourceAttrs) (b : FalseEventBuilder) : FalseEventBuilder :=
  mkBuilder (b_event b) (b_level b) (b_zone b) (b_actor b) (b_resource b) (Some a) (b_trace_id b) (b_fields b).
Definition set_trace_id (t : string) (b : FalseEventBuilder) : FalseEventBuilder :=
  mkBuilder (b_event b) (b_level b) (b_zone b) (b_actor b) (b_resource b) (b_resource_attributes b) (Some (bound_string t)) (b_fields b).
Definition field (key : string) (v : FieldValue) (b : FalseEventBuilder) : FalseEventBuilder :=
  mkBuilder (b_event b) (b_level b) (b_zone b) (b_actor b) (b_resource b) (b_resource_attributes b) (b_trace_id b)
    (<[key := bounded v]> (b_fields b)).

Definition new_attrs (backend : string) : ResourceAttrs := mkAttrs backend hostname None None None.

Definition RESOURCE_ATTRIBUTES : list string :=
  ["service.name=rauhad"; "backend"; "host"; "node"; "container.id"; "kernel.version"].

(** Keys in their order. *)
Definition keys (fs : gmap string FieldValue) : list string := sort (map fst (map_to_list fs)).

Definition build (b : FalseEventBuilder) : result FalseEvent EvidenceError :=
  let? event := ok_or (b_event b) (MissingField "event") in
  let level := default (default_severity event) (b_level b) in
  let? zone := ok_or (b_zone b) (MissingField "zone") in
  let attrs := default (new_attrs BACKEND_LINUX_EBPF) (b_resource_attributes b) in
  let n := narrative_for event in
  Ok (mkEvent now_rfc3339 level event zone (b_actor b) (b_resource b) (ra_backend attrs) (b_trace_id b)
        (n_what_failed n) (n_why_it_matters n) (n_possible_causes n) attrs (b_fields b)
        (mkOTel event (severity_str level) RESOURCE_ATTRIBUTES (keys (b_fields b)))).

Definition pipeline_shed_event (reason backend : string) : FalseEvent :=
  let attrs := new_attrs backend in
  let n := narrative_for PIPELINE_SHED in
  mkEvent now_rfc3339 Warn PIPELINE_SHED (mkZoneIdentity "zone-unknown" None) None None (ra_backend attrs) None
    (n_what_failed n) (n_why_it_matters n) (n_possible_causes n) attrs {[ "reason" := FString (bound_string reason) ]}
    (mkOTel PIPELINE_SHED "WARN" RESOURCE_ATTRIBUTES ["reason"]).

Definition at_time (t : string) (e : FalseEvent) : FalseEvent :=
  mkEvent t (level e) (event e) (zone e) (actor e) (resource e) (backend e) (trace_id e) (what_failed e) (why_it_matters e)
    (possible_causes e) (resource_attributes e) (fields e) (otel e).

Definition broker_decision_event (d : Logs.BrokerDecision) (zone_label : string) (caller_zone : Z) : FalseEvent :=
  let name := if Logs.granted d then ZONE_SYSCALL_BROKERED_GRANTED else ZONE_SYSCALL_BROKERED_DENIED in
  let b := new name in
  let b := set_zone zone_label None b in
  let b := set_actor ("tid:" ++ Str.show (Logs.tid d)) [] b in
  let b := set_resource ("path:" ++ Logs.path d) b in
  let b := set_resource_attributes (new_attrs BACKEND_SECCOMP_BROKER) b in
  let b := field "pid" (FU64 (Logs.tid d)) b in
  let b := field "hook" (FString "seccomp_notify") b in
  let b := field "decision" (FString (if Logs.granted d then "allow" else "deny")) b in
  let b := field "caller_zone" (FU64 caller_zone) b in
  let b := field "syscall" (FString (Logs.syscall d)) b in
  let b := field "errno" (FI64 (Logs.errno d)) b in
  let b := field "seq" (FU64 (Logs.seq d)) b in
  let b := field "reason" (FString (default "" (Logs.reason d))) b in
  let b := field "ts_ms" (FU64 (Logs.ts_ms d)) b in
  let e := match build b with Ok e => e | Err _ => pipeline_shed_event "normalization_failed" BACKEND_SECCOMP_BROKER end in
  match rfc3339_millis (as_signed 64 (Logs.ts_ms d)) with Some t => at_time t e | None => e end.
End Build.

(** ** What a reader is shown *)

(** [ts.get(11..19)]; timestamps are ASCII. *)
Definition clock_time (t : string) : string :=
  if Nat.leb 19 (String.length t) then String.substring 11 8 t else t.
Definition pad (n : nat) (s : string) : string :=
  s ++ Utf8.to_string (replicate (n - char_count s) " "%char).
Definition nl : string := Text.nl.

Definition compact_human (e : FalseEvent) : string :=
  clock_time (ts e) ++ "  " ++ pad 5 (severity_str (level e)) ++ "  " ++ pad 26 (event e) ++ " " ++ z_id (zone e) ++ "/"
  ++ default "unknown-actor" (option_map a_id (actor e)) ++ " -> " ++ default "-" (resource e) ++ nl
  ++ "                " ++ what_failed e ++ " · " ++ why_it_matters e.

Definition line (s : string) : string := s ++ nl.
Definition expanded_human (e : FalseEvent) : string :=
  line (clock_time (ts e) ++ "  " ++ severity_str (level e) ++ "  " ++ event e)
  ++ line ("  zone          " ++ z_id (zone e))
  ++ match actor e with
     | Some a =>
         line ("  actor         " ++ a_id a)
         ++ (if Nat.eqb (List.length (delegation a)) 0 then "" else line ("  delegation    " ++ Str.join " -> " (delegation a)))
     | None => ""
     end
  ++ match resource e with
     | Some r => line ("  resource      " ++ r ++ "   backend  " ++ backend e)
     | None => line ("  backend       " ++ backend e)
     end
  ++ line ("  why           " ++ why_it_matters e)
  ++ String.concat "" (map (fun key => line ("  " ++ pad 13 key ++ " "
        ++ default "" (option_map display_field (fields e !! key)))) (keys (fields e))).

(** ** Labels *)

Definition FORBIDDEN_LABELS : list string :=
  ["zone.id"; "container.id"; "actor.id"; "inode"; "pid"; "connection.id"; "trace_id"].
Fixpoint validate_metric_labels (labels : list string) : result unit EvidenceError :=
  match labels with
  | [] => Ok tt
  | label :: labels =>
      if is_one_of FORBIDDEN_LABELS label then Err (HighCardinalityMetricLabel label) else validate_metric_labels labels
  end.
End Evidence.
