(* ===== verification/Seal.v ===== *)
(** * Sealing a task's result

    The end of [rauhad/src/server.rs]'s sandbox service: a result is cut down until
    it fits the wire together with the receipts that are signed over what is left,
    and every cut is told in the signed payload. *)

From stdpp Require Import base gmap strings list sorting.
From Stdlib Require Import ZArith Ascii String Lia.
From S2P Require Import Prelude.
From S2P Require Import EnforcerApi.
From S2P Require Import RustStr.
From S2P Require Import RustText.
From S2P Require Import Zone.
From S2P Require Import Utf8.
From S2P Require Import Content.
From S2P Require Import Results.
From S2P Require Import Receipts.
From S2P Require Import Logs.
From S2P Require Import Evidence.
Open Scope string_scope.

Module Seal.
Import Results(MAX_RESULT_BYTES, RecoveryRecord(..), ExecutionReceiptPayload(..)).

(** ** Messages *)

Record SandboxEventSummary := mkSummary { e_timestamp : string; e_kind : string; e_message : string }.
Record EnforcementEventSummary := mkEnforcement {
  ee_timestamp : string; ee_hook : string; ee_action : string; ee_decision : string; ee_message : string;
  ee_pid : option Z; ee_source_zone : string; ee_target_zone : string; ee_object : string }.
Record SandboxResult := mkResult {
  task_id : string; zone_id : string; command : list string; status : string; exit_code : option Z;
  stdout : string; stderr : string; duration_ms : Z; started_at : string; finished_at : string;
  events : list SandboxEventSummary; enforcement_events : list EnforcementEventSummary;
  admission : string; unavailable_controls : list string; receipt_json : string; receipt_dsse_json : string;
  capture_issues : list string }.
Record RunSandboxRequest := mkRequest {
  rq_image : string; rq_command : list string; rq_name : string; rq_repo_path : string; rq_workdir : string;
  rq_keep_zone : bool; rq_timeout_seconds : Z; rq_env : list (string * string); rq_audit : bool; rq_task_id : string }.

Class Wire := {
  encoded_len : SandboxResult -> Z;
  encode_to_vec : SandboxResult -> list Z;
  decode : list Z -> result SandboxResult string;
  request_len : RunSandboxRequest -> Z }.

(** [serde_json::json!] of the digests. *)
Inductive JsonField := JString (s : string) | JNumber (n : Z) | JNull | JStrings (l : list string) | JMap (l : list (string * string)).
Class ResultJson := {
  sha256_json : list (string * JsonField) -> result string string;
  policy_sha256 : Zone.ZonePolicy -> result string string;
  envelope_json : Receipts.DsseEnvelope -> string }.

Definition admission_str (a : Zone.PolicyAdmission) : string :=
  match a with Zone.Strict => "strict" | Zone.Audit => "audit" end.

Section Seal.
Context `{Ed : Receipts.Ed25519} `{Enc : Receipts.Encodings} `{RJson : Receipts.ReceiptJson} `{Sha : Sha256}.
Context `{W : Wire} `{J : ResultJson}.

(** ** Setters *)

Definition with_issues (issues : list string) (r : SandboxResult) : SandboxResult :=
  mkResult (task_id r) (zone_id r) (command r) (status r) (exit_code r) (stdout r) (stderr r) (duration_ms r) (started_at r)
    (finished_at r) (events r) (enforcement_events r) (admission r) (unavailable_controls r) (receipt_json r)
    (receipt_dsse_json r) issues.
Definition with_receipts (json dsse : string) (r : SandboxResult) : SandboxResult :=
  mkResult (task_id r) (zone_id r) (command r) (status r) (exit_code r) (stdout r) (stderr r) (duration_ms r) (started_at r)
    (finished_at r) (events r) (enforcement_events r) (admission r) (unavailable_controls r) json dsse (capture_issues r).
Definition with_enforcement (es : list EnforcementEventSummary) (r : SandboxResult) : SandboxResult :=
  mkResult (task_id r) (zone_id r) (command r) (status r) (exit_code r) (stdout r) (stderr r) (duration_ms r) (started_at r)
    (finished_at r) (events r) es (admission r) (unavailable_controls r) (receipt_json r) (receipt_dsse_json r) (capture_issues r).
Definition with_output (out err : string) (r : SandboxResult) : SandboxResult :=
  mkResult (task_id r) (zone_id r) (command r) (status r) (exit_code r) out err (duration_ms r) (started_at r)
    (finished_at r) (events r) (enforcement_events r) (admission r) (unavailable_controls r) (receipt_json r)
    (receipt_dsse_json r) (capture_issues r).
Definition add_issue (issue : string) (r : SandboxResult) : SandboxResult := with_issues (capture_issues r ++ [issue])%list r.

Definition some_text (s : string) : option string := if String.eqb s "" then None else Some s.

(** The outcome in the payload. *)
Definition with_outcome (r : SandboxResult) (p : ExecutionReceiptPayload) : ExecutionReceiptPayload :=
  Results.mkReceipt (Results.schema p) (Results.task_id p) (Results.zone_id p) (Results.image p) (Results.policy_sha256 p)
    (Results.inputs_sha256 p) (Results.outputs_sha256 p) (status r) (exit_code r) (some_text (started_at r))
    (some_text (finished_at r)) (Results.enforcement p) (unavailable_controls r) (Results.capture_issues p).
Definition with_delivery (issues : list string) (outputs : string) (p : ExecutionReceiptPayload) : ExecutionReceiptPayload :=
  Results.mkReceipt (Results.schema p) (Results.task_id p) (Results.zone_id p) (Results.image p) (Results.policy_sha256 p)
    (Results.inputs_sha256 p) outputs (Results.status p) (Results.exit_code p) (Results.started_at p) (Results.finished_at p)
    (Results.enforcement p) (Results.unavailable_controls p) issues.

Definition outputs_digest (r : SandboxResult) : result string string :=
  sha256_json [("salt", JString (task_id r)); ("status", JString (status r));
               ("exit_code", match exit_code r with Some n => JNumber n | None => JNull end);
               ("stdout", JString (stdout r)); ("stderr", JString (stderr r))].

(** ** The loop *)

(** One round: the result as it is, told and signed. *)
Definition signed (key : string) (r : SandboxResult) (p : ExecutionReceiptPayload)
  : result (SandboxResult * ExecutionReceiptPayload) string :=
  let r := with_issues (Evidence.dedup (Evidence.sort (capture_issues r))) r in
  let? outputs := outputs_digest r in
  let p := with_delivery (capture_issues r) outputs p in
  let receipt := Receipts.sign key p in
  let? _ := Receipts.verify receipt in
  Ok (with_receipts (Receipts.receipt_json receipt) (envelope_json (Receipts.sign_dsse key p)) r, p).

Definition half (s : string) : Z := (Logs.len s / 2)%Z.

(** What is cut when it does not fit. *)
Definition cut (r : SandboxResult) : option SandboxResult :=
  if negb (Nat.eqb (List.length (enforcement_events r)) 0) then
    let es := take (Nat.div2 (List.length (enforcement_events r))) (enforcement_events r) in
    Some (add_issue "enforcement_events.preview_truncated" (with_enforcement es r))
  else if negb (String.eqb (stdout r) "") || negb (String.eqb (stderr r) "") then
    if (Logs.len (stderr r) <=? Logs.len (stdout r))%Z
    then Some (add_issue "stdout.preview_truncated" (with_output (Logs.truncate_utf8 (stdout r) (half (stdout r))) (stderr r) r))
    else Some (add_issue "stderr.preview_truncated" (with_output (stdout r) (Logs.truncate_utf8 (stderr r) (half (stderr r))) r))
  else None.

(** [None]: still cutting when the fuel is gone. *)
Fixpoint seal_loop (fuel : nat) (key : string) (r : SandboxResult) (p : ExecutionReceiptPayload)
  : option (result SandboxResult string) :=
  match fuel with
  | O => None
  | S fuel =>
      match signed key r p with
      | Err e => Some (Err e)
      | Ok (r, p) =>
          if (encoded_len r <=? MAX_RESULT_BYTES)%Z then Some (Ok r)
          else match cut r with
               | Some r => seal_loop fuel key r p
               | None => Some (Err "sandbox result metadata exceeds the wire budget")
               end
      end
  end.

(** How much there is to cut. *)
Definition bulk (r : SandboxResult) : nat :=
  (List.length (enforcement_events r) + String.length (stdout r) + String.length (stderr r))%nat.

Definition seal_bounded_result (r : SandboxResult) (p : ExecutionReceiptPayload) (key : string)
  : option (result SandboxResult string) := seal_loop (S (bulk r)) key r (with_outcome r p).

(** ** Lemmas *)

Lemma len_pos s : s <> "" -> (0 < String.length s)%nat.
Proof. destruct s; simpl; [done|lia]. Qed.

Lemma half_shorter s : s <> "" -> (String.length (Logs.truncate_utf8 s (half s)) < String.length s)%nat.
Proof.
  intros Hs. pose proof (len_pos s Hs). pose proof (Logs.truncate_utf8_len s (half s)) as Hl. unfold half, Logs.len in *.
  assert (0 <= Z.of_nat (String.length s) / 2 < Z.of_nat (String.length s))%Z by (split; [apply Z.div_pos; lia|apply Z.div_lt; lia]).
  lia.
Qed.

Lemma cut_shrinks r r' : cut r = Some r' -> (bulk r' < bulk r)%nat.
Proof.
  unfold cut, bulk. destruct (Nat.eqb_spec (List.length (enforcement_events r)) 0) as [|Hn]; cbn [negb].
  - destruct (String.eqb_spec (stdout r) "") as [Ho|Ho], (String.eqb_spec (stderr r) "") as [He|He]; cbn [negb orb]; [done| | |].
    all: destruct (Z.leb_spec (Logs.len (stderr r)) (Logs.len (stdout r))) as [Hl|Hl]; intros [= <-]; cbn.
    all: unfold Logs.len in Hl.
    1: { rewrite Ho in Hl. simpl in Hl. pose proof (len_pos _ He). lia. }
    all: try (pose proof (half_shorter (stdout r))); try (pose proof (half_shorter (stderr r))).
    all: try (rewrite He in Hl; simpl in Hl); try lia.
    all: try specialize (H Ho); try specialize (H0 He); lia.
  - intros [= <-]. cbn. rewrite length_take. pose proof (Nat.lt_div2 (List.length (enforcement_events r))). lia.
Qed.

Lemma seal_loop_ends fuel key r p : (bulk r < fuel)%nat -> is_Some (seal_loop fuel key r p).
Proof.
  revert r p. induction fuel as [|fuel IH]; intros r p Hf; [lia|]. cbn [seal_loop].
  destruct (signed key r p) as [[r1 p1]|e] eqn:Hs; [|by eexists]. destruct (_ <=? _)%Z; [by eexists|].
  destruct (cut r1) as [r2|] eqn:Hc; [|by eexists]. apply IH. apply cut_shrinks in Hc.
  assert (bulk r1 = bulk r); [|lia]. unfold signed in Hs. destruct (outputs_digest _); [|done]. cbn in Hs.
  destruct (Receipts.verify _); [|done]. cbn in Hs. by injection Hs as <- <-.
Qed.

(** ** What is left of a result *)

Record cut_of (r0 r : SandboxResult) : Prop := {
  co_same : task_id r = task_id r0 /\ zone_id r = zone_id r0 /\ command r = command r0 /\ status r = status r0 /\
    exit_code r = exit_code r0 /\ duration_ms r = duration_ms r0 /\ started_at r = started_at r0 /\
    finished_at r = finished_at r0 /\ events r = events r0 /\ admission r = admission r0 /\
    unavailable_controls r = unavailable_controls r0;
  co_enforcement : exists rest, enforcement_events r0 = (enforcement_events r ++ rest)%list /\
    (rest = [] \/ "enforcement_events.preview_truncated" ∈ capture_issues r);
  co_stdout : exists rest, stdout r0 = stdout r ++ rest /\ (rest = "" \/ "stdout.preview_truncated" ∈ capture_issues r);
  co_stderr : exists rest, stderr r0 = stderr r ++ rest /\ (rest = "" \/ "stderr.preview_truncated" ∈ capture_issues r);
  co_issues : forall i, i ∈ capture_issues r0 -> i ∈ capture_issues r }.

Lemma cut_of_refl r : cut_of r r.
Proof. split; [done|exists []; rewrite app_nil_r; auto|exists ""; rewrite Text.app_nil; auto..|done]. Qed.

Lemma cut_of_trans r1 r2 r3 : cut_of r1 r2 -> cut_of r2 r3 -> cut_of r1 r3.
Proof.
  intros [S1 (e1 & E1 & T1) (o1 & O1 & U1) (x1 & X1 & V1) I1] [S2 (e2 & E2 & T2) (o2 & O2 & U2) (x2 & X2 & V2) I2].
  split; [intuition congruence|..|auto].
  - exists (e2 ++ e1)%list. rewrite E1, E2, app_assoc. split; [done|].
    destruct T1 as [->|T1]; [|by right; apply I2]. rewrite app_nil_r. destruct T2; auto.
  - exists (o2 ++ o1). rewrite O1, O2, Text.string_app_assoc. split; [done|].
    destruct U1 as [->|U1]; [|by right; apply I2]. rewrite Text.app_nil. destruct U2; auto.
  - exists (x2 ++ x1). rewrite X1, X2, Text.string_app_assoc. split; [done|].
    destruct V1 as [->|V1]; [|by right; apply I2]. rewrite Text.app_nil. destruct V2; auto.
Qed.

Lemma dedup_elem x l : x ∈ Evidence.dedup l <-> x ∈ l.
Proof.
  induction l as [|a l IH]; [done|]. destruct l as [|b l]; [done|]. cbn [Evidence.dedup].
  destruct (String.eqb_spec a b) as [->|Hne]; [rewrite IH, !elem_of_cons; naive_solver|].
  rewrite !elem_of_cons in *. naive_solver.
Qed.
Lemma sort_elem x l : x ∈ Evidence.sort l <-> x ∈ l.
Proof. unfold Evidence.sort. by rewrite merge_sort_Permutation. Qed.

Lemma to_string_app a b : Utf8.to_string (a ++ b)%list = Utf8.to_string a ++ Utf8.to_string b.
Proof. unfold Utf8.to_string. induction a as [|c a IH]; simpl; [done|by rewrite IH]. Qed.
Lemma truncate_prefix s n : exists rest, s = Logs.truncate_utf8 s n ++ rest.
Proof.
  eexists. rewrite <- (Logs.to_of s) at 1. unfold Logs.truncate_utf8, Utf8.truncate_utf8.
  rewrite <- to_string_app, take_drop. reflexivity.
Qed.

Lemma cut_cut_of r r' : cut r = Some r' -> cut_of r r'.
Proof.
  assert (Hnew : forall i x, i ∈ capture_issues r -> i ∈ (capture_issues r ++ [x])%list) by (intros; apply elem_of_app; by left).
  assert (Hlast : forall x, x ∈ (capture_issues r ++ [x])%list) by (intros; apply elem_of_app; right; by left).
  unfold cut. destruct (negb (Nat.eqb _ _)).
  - intros [= <-]. split; cbn; [done| |exists ""; rewrite Text.app_nil; auto..|auto].
    eexists. rewrite take_drop. auto.
  - destruct (_ || _); [|done]. destruct (_ <=? _)%Z; intros [= <-]; split; cbn; try done; try (by auto);
      try (exists []; rewrite app_nil_r; by auto); try (exists ""; rewrite Text.app_nil; by auto).
    + destruct (truncate_prefix (stdout r) (half (stdout r))) as (rest & Hr). exists rest. auto.
    + destruct (truncate_prefix (stderr r) (half (stderr r))) as (rest & Hr). exists rest. auto.
Qed.

(** The receipts in a result are signed over it: its text, its issues, its outcome. *)
Definition covers (key : string) (r : SandboxResult) (p : ExecutionReceiptPayload) : Prop :=
  Receipts.verify (Receipts.sign key p) = Ok tt /\
  receipt_json r = Receipts.receipt_json (Receipts.sign key p) /\
  receipt_dsse_json r = envelope_json (Receipts.sign_dsse key p) /\
  outputs_digest r = Ok (Results.outputs_sha256 p) /\
  Results.capture_issues p = capture_issues r /\ Results.status p = status r /\ Results.exit_code p = exit_code r /\
  Results.unavailable_controls p = unavailable_controls r.

(** What identifies a task in a payload. *)
Definition same_task (p q : ExecutionReceiptPayload) : Prop :=
  Results.schema p = Results.schema q /\ Results.task_id p = Results.task_id q /\ Results.zone_id p = Results.zone_id q /\
  Results.image p = Results.image q /\ Results.policy_sha256 p = Results.policy_sha256 q /\
  Results.inputs_sha256 p = Results.inputs_sha256 q /\ Results.enforcement p = Results.enforcement q.

(** The payload carries the outcome while the result is cut. *)
Definition told (r : SandboxResult) (p : ExecutionReceiptPayload) : Prop :=
  Results.status p = status r /\ Results.exit_code p = exit_code r /\ Results.unavailable_controls p = unavailable_controls r.

Lemma signed_spec key r p r1 p1 : signed key r p = Ok (r1, p1) -> told r p ->
  cut_of r r1 /\ covers key r1 p1 /\ same_task p1 p /\ told r1 p1.
Proof.
  unfold signed. destruct (outputs_digest _) as [outputs|] eqn:Ho; [|done]. cbn.
  destruct (Receipts.verify _) as [[]|] eqn:Hv; [|done]. cbn. intros [= <- <-] (T1 & T2 & T3).
  split_and!; [|by split_and!..]. split; cbn; [done|exists []; rewrite app_nil_r; auto|exists ""; rewrite Text.app_nil; auto..|].
  intros i Hi. by apply dedup_elem, sort_elem.
Qed.

Lemma seal_loop_spec fuel key r p r' : told r p -> seal_loop fuel key r p = Some (Ok r') ->
  cut_of r r' /\ (encoded_len r' <= MAX_RESULT_BYTES)%Z /\ exists p', covers key r' p' /\ same_task p' p.
Proof.
  revert r p. induction fuel as [|fuel IH]; intros r p Ht; [done|]. cbn [seal_loop].
  destruct (signed key r p) as [[r1 p1]|e] eqn:Hs; [|done]. destruct (signed_spec _ _ _ _ _ Hs Ht) as (Hcut & Hcov & Hsame & Ht1).
  destruct (Z.leb_spec (encoded_len r1) MAX_RESULT_BYTES) as [Hl|Hl]; [intros [= <-]; eauto|].
  destruct (cut r1) as [r2|] eqn:Hc; [|done]. apply cut_cut_of in Hc. intros Hseal.
  destruct (IH r2 p1) as (Hcut2 & Hl2 & p' & Hcov' & Hsame'); [|done|].
  - destruct Hc as [(_ & _ & _ & E1 & E2 & _ & _ & _ & _ & _ & E3) _ _ _ _]. unfold told in *. by rewrite E1, E2, E3.
  - split_and!; [by do 2 (eapply cut_of_trans; [done|])|done|]. exists p'. split; [done|]. unfold same_task in *. intuition congruence.
Qed.

(** C8. Sealing a result always ends, and a sealed result fits the wire with its
    receipts: it is the result that was given but for events and output cut at the
    end, each cut told, and both receipts verify and are signed over the very text,
    issues and outcome that are delivered, for the task, image and policy given. *)
Theorem sealed_result_is_covered r p key :
  exists x, seal_bounded_result r p key = Some x /\
  forall r', x = Ok r' ->
    cut_of r r' /\ (encoded_len r' <= MAX_RESULT_BYTES)%Z /\ exists p', covers key r' p' /\ same_task p' p.
Proof.
  destruct (seal_loop_ends (S (bulk r)) key r (with_outcome r p)) as [x Hx]; [lia|]. exists x. split; [exact Hx|].
  intros r' ->. by apply (seal_loop_spec (S (bulk r)) key r (with_outcome r p)).
Qed.

(** The record of a task is refused while its receipts alone take a quarter. *)
Definition bare_result (record : RecoveryRecord) : SandboxResult :=
  mkResult (Results.task_id (Results.receipt record)) (Results.zone_id (Results.receipt record)) (Results.command record)
    "runtime_error" None "" "" 0 "" "" [] [] (admission_str (Results.admission record))
    (Results.unavailable_controls (Results.receipt record)) "" "" [].
Definition validate_recovery_budget (record : RecoveryRecord) (key : string) : option (result unit string) :=
  r ← seal_bounded_result (bare_result record) (Results.receipt record) key;
  Some (let? r := r in
        if (MAX_RESULT_BYTES / 4 <? encoded_len r)%Z
        then Err "sandbox receipt metadata exceeds the metadata budget (1 MiB)" else Ok tt).

Definition recovery_receipt (task_id zone_id : string) (req : RunSandboxRequest) (policy : Zone.ZonePolicy)
    (unavailable_controls : list string) : result ExecutionReceiptPayload string :=
  let? policy_digest := policy_sha256 policy in
  let? inputs := sha256_json [("salt", JString task_id); ("image", JString (rq_image req)); ("command", JStrings (rq_command req));
                   ("repo_path", JString (rq_repo_path req)); ("workdir", JString (rq_workdir req));
                   ("timeout_seconds", JNumber (rq_timeout_seconds req)); ("env", JMap (rq_env req));
                   ("admission", JString (admission_str (Zone.admission policy)))] in
  Ok (Results.mkReceipt Receipts.EXECUTION_RECEIPT_SCHEMA task_id zone_id (Results.mkImage (rq_image req) "" false)
        policy_digest inputs "" "" None None None (Results.mkTotals 0 0 0 0) unavailable_controls []).

End Seal.

(** ** A result of eight mebibytes *)
Module Demo.
#[local] Existing Instance Receipts.Demo.ed.
#[local] Existing Instance Receipts.Demo.encodings.
#[local] Existing Instance Receipts.Demo.sha.
#[local] Instance rjson : Receipts.ReceiptJson := {|
  Receipts.payload_json p := "{" ++ Results.outputs_sha256 p;
  Receipts.statement_json _ := "{";
  Receipts.statement_of_json _ := Err "expected value";
  Receipts.receipt_json r := "{" ++ Results.outputs_sha256 (Receipts.payload r) |}.
#[local] Instance wire : Wire := {|
  encoded_len r := (1048576 * Logs.len (stdout r))%Z;
  encode_to_vec _ := [1%Z]; decode _ := Err "truncated"; request_len _ := 0%Z |}.
#[local] Instance result_json : ResultJson := {|
  sha256_json fields := Ok (String.concat "," (map (fun kv => match snd kv with JString s => s | _ => "" end) fields));
  policy_sha256 _ := Ok ""; envelope_json _ := "{}" |}.

Definition result0 : SandboxResult :=
  mkResult "task-1" "zone-1" ["true"] "succeeded" (Some 0%Z) "12345678" "" 0 "" "" [] [] "strict" [] "" "" [].

Lemma sealed_result_is_covered_witness :
  exists r p, seal_bounded_result result0 Receipts.Demo.receipt "key" = Some (Ok r) /\
    stdout r = "1234" /\ capture_issues r = ["stdout.preview_truncated"] /\ covers "key" r p.
Proof.
  destruct (sealed_result_is_covered result0 Receipts.Demo.receipt "key") as (x & Hx & Hr).
  destruct x as [r|e]; [|vm_compute in Hx; discriminate].
  destruct (Hr r eq_refl) as (_ & _ & p & Hp & _). exists r, p. split; [exact Hx|]. split; [|split; [|exact Hp]].
  - vm_compute in Hx. injection Hx as <-. reflexivity.
  - vm_compute in Hx. injection Hx as <-. reflexivity.
Defined.
End Demo.
End Seal.
