(* ===== verification/Tasks.v ===== *)
(** * Sandbox tasks

    The sandbox service of [rauhad/src/server.rs] and its [server/recovery.rs]: a task
    is reserved, recorded, run in a zone, its result sealed and committed, and what it
    left cleaned up - or recovered, never replayed, after the daemon was killed.

    The registry and the result store are those of [Registry] and [Results]; a
    transaction fails when the environment says so.  A kill can fall between any two
    steps: from then on no step has an effect until the daemon starts again.
    Telemetry is left out. *)

From stdpp Require Import base gmap strings list sorting.
From Stdlib Require Import ZArith Ascii String Lia.
From S2P Require Import Prelude.
From S2P Require Import StateError.
From S2P Require Import EnforcerApi.
From S2P Require Import RustStr.
From S2P Require Import RustText.
From S2P Require Import Zone.
From S2P Require Import Shim.
From S2P Require Import Backend.
From S2P Require Import Metadata.
From S2P Require Import BpfMaps.
From S2P Require Import LinuxEnforcer.
From S2P Require Import Registry.
From S2P Require Import Reference.
From S2P Require Import Content.
From S2P Require Import Results.
From S2P Require Import Receipts.
From S2P Require Import Logs.
From S2P Require Import Evidence.
From S2P Require Import Seal.
Import Zone Backend.
Open Scope string_scope.

Module Tasks.
Import Seal(SandboxResult(..), RunSandboxRequest(..),
  rq_image, rq_command, rq_name, rq_repo_path, rq_workdir, rq_keep_zone, rq_timeout_seconds, rq_env, rq_audit, rq_task_id).
Import Results(RecoveryRecord(..), zone_name, container_id, cleanup_zone, command, admission, receipt).

(** ** Statuses *)

Inductive Code := InvalidArgument | NotFound | AlreadyExists | FailedPrecondition | ResourceExhausted | PermissionDenied | Internal.
Record Status := mkStatus { code : Code; message : string }.

Definition to_internal_status (text : string) : Status := mkStatus Internal text.

(** ** Results before they are told *)

Inductive SandboxStatus := Succeeded | Failed | TimedOut | RuntimeError.
Definition sandbox_status_str (s : SandboxStatus) : string :=
  match s with
  | Succeeded => "succeeded" | Failed => "failed" | TimedOut => "timed_out" | RuntimeError => "runtime_error"
  end.

Record EventSummary := mkEventSummary { s_timestamp : option Z; s_kind : string; s_message : string }.
Record EnforcementSummary := mkEnforcementSummary {
  timestamp : option Z; hook : string; action : string; decision : string; m_message : string; pid : option Z;
  source_zone : option string; target_zone : option string; object : option string }.
Record SandboxExecResult := mkExec {
  x_task_id : string; x_zone_id : string; x_command : list string; x_status : SandboxStatus; x_exit_code : option Z;
  x_stdout : string; x_stderr : string; x_duration_ms : Z; x_started_at : option Z; x_finished_at : option Z;
  x_events : list EventSummary; x_enforcement_events : list EnforcementSummary; x_enforcement_drop_count : Z;
  x_capture_issues : list string }.

Definition runtime_error (task_id zone_id : string) (command : list string) (message : string) : SandboxExecResult :=
  mkExec task_id zone_id command RuntimeError None "" message 0 None None [] [] 0 [].

(** What [try_recv] gives until the channel is empty or closed. *)
Inductive Received := Event (e : Evidence.FalseEvent) | Lagged (count : Z).

Class TaskHost (E : Type) := {
  (** The daemon is killed before its next step. *)
  killed : E -> bool * E;
  new_uuid : E -> string * E;
  parse_uuid : string -> option string;
  image_digest : string -> E -> result string RauhaError * E;
  log_files : E -> Logs.Files * E;
  (** The monotonic clock, in milliseconds. *)
  instant : E -> Z * E;
  sleep : Z -> E -> E;
  received : E -> list Received * E;
  rfc3339 : Z -> string;
  parse_rfc3339 : string -> option Z }.

Section Tasks.
Context {HB : BpfHost}.
Context {B E : Type} {I : IsolationBackend B} {V : Registry.Env E} {P : Metadata.Postcard} {T : TaskHost E}.
Context {C : Results.RecordCodec} `{Ed : Receipts.Ed25519} `{Enc : Receipts.Encodings} `{RJson : Receipts.ReceiptJson}.
Context `{Sha : Sha256} `{W : Seal.Wire} `{J : Seal.ResultJson} `{DJ : Logs.DecisionJson} `{EH : Evidence.EventHost}.

(** What the service is made with: its paths, caps, the receipt key and whether there
    is a broadcast of enforcement events. *)
Context (paths : Registry.Paths) (results_max_bytes sandbox_log_max_bytes : Z) (key : string) (broadcast : bool).

(** What is left of a registry call the daemon was killed in. *)
Context (midway : Registry.World (B := B) (E := E) -> Registry.World (B := B) (E := E)).

(** [attempted] and [cleanup] are the running call's [ActiveTask] and
    [ZoneCleanupGuard]; [executed] is a ghost: the tasks whose execution was begun and
    whose result was not deleted since. *)
Record World := mkWorld {
  reg : Registry.World (B := B) (E := E); store : Results.MetadataStore; active : gset string;
  attempted : bool; cleanup : option string; dead : bool; executed : list string }.

Notation M := (StateError.M World).

Definition set_reg (r : Registry.World) (w : World) : World :=
  mkWorld r (store w) (active w) (attempted w) (cleanup w) (dead w) (executed w).
Definition set_store (s : Results.MetadataStore) (w : World) : World :=
  mkWorld (reg w) s (active w) (attempted w) (cleanup w) (dead w) (executed w).
Definition set_active (a : gset string) (w : World) : World :=
  mkWorld (reg w) (store w) a (attempted w) (cleanup w) (dead w) (executed w).
Definition set_attempted (b : bool) (w : World) : World :=
  mkWorld (reg w) (store w) (active w) b (cleanup w) (dead w) (executed w).
Definition set_cleanup (g : option string) (w : World) : World :=
  mkWorld (reg w) (store w) (active w) (attempted w) g (dead w) (executed w).
Definition set_dead (b : bool) (w : World) : World :=
  mkWorld (reg w) (store w) (active w) (attempted w) (cleanup w) b (executed w).
Definition set_executed (l : list string) (w : World) : World :=
  mkWorld (reg w) (store w) (active w) (attempted w) (cleanup w) (dead w) l.

(** A step: nothing once the daemon is dead, and it may die in it, which leaves
    [torn]. *)
Definition step {A X} (f : World -> result A X * World) (torn : World -> World) (gone : X) : M X A := fun w =>
  if dead w then (Err gone, w)
  else
    let '(k, e) := killed (Registry.env (reg w)) in
    let w := set_reg (Registry.set_env e (reg w)) w in
    if k : bool then (Err gone, set_dead true (torn w)) else f w.

Definition KILLED : string := "daemon killed".

(** Calls of the registry, transactions on the result tables, and the host. *)
Definition on_reg {A X} (c : StateError.M (Registry.World (B := B) (E := E)) RauhaError A) (err : RauhaError -> X) : M X A :=
  step (fun w => let '(r, g) := c (reg w) in (map_err err r, set_reg g w)) (fun w => set_reg (midway (reg w)) w) (err (Other KILLED)).
Definition tx {A X} (f : Results.MetadataStore -> result A string * Results.MetadataStore) (err : string -> X) : M X A :=
  step (fun w =>
    let '(fault, e) := Registry.redb (Registry.env (reg w)) in
    let w := set_reg (Registry.set_env e (reg w)) w in
    match fault with
    | Some text => (Err (err text), w)
    | None => let '(r, s) := f (store w) in (map_err err r, set_store s w)
    end) id (err KILLED).
Definition read_tx {A X} (f : Results.MetadataStore -> result A string) (err : string -> X) : M X A :=
  tx (fun s => (f s, s)) err.
Definition host {A X} (f : E -> A * E) (err : string -> X) : M X A :=
  step (fun w => let '(a, e) := f (Registry.env (reg w)) in (Ok a, set_reg (Registry.set_env e (reg w)) w)) id (err KILLED).
(** What the process has in memory is gone with it. *)
Definition memory {X} (f : World -> World) (err : string -> X) : M X unit := fun w =>
  if dead w then (Err (err KILLED), w) else (Ok tt, f w).

Definition to_status (e : RauhaError) : Status :=
  let text := Linux.display e in
  match e with
  | ZoneNotFound _ | ContainerNotFound _ | ImageNotFound _ => mkStatus NotFound text
  | ZoneAlreadyExists _ | ContainerAlreadyExists _ _ => mkStatus AlreadyExists text
  | InvalidInput _ | InvalidPolicy _ => mkStatus InvalidArgument text
  | Zone.PermissionDenied _ | CrossZoneAccessDenied _ _ => mkStatus PermissionDenied text
  | ZoneNotEmpty _ => mkStatus FailedPrecondition text
  | _ => mkStatus Internal text
  end.
Definition text_of (e : RauhaError) : string := Linux.display e.

(** ** Requests *)

Definition valid_task_id (id : string) : bool :=
  match Str.strip_prefix "task-" id with
  | Some s => match parse_uuid s with Some uuid => String.eqb id ("task-" ++ uuid) | None => false end
  | None => false
  end.

Definition image_byte (c : ascii) : bool :=
  Str.alnum c || Text.contains_str (String c "") "./:_-@[]".

Definition validate_sandbox_request (req : RunSandboxRequest) : result unit Status :=
  if (Results.MAX_RESULT_BYTES / 4 <? Seal.request_len req)%Z
  then Err (mkStatus InvalidArgument "sandbox request exceeds the metadata budget (1 MiB)")
  else if String.eqb (Str.trim (rq_image req)) "" then Err (mkStatus InvalidArgument "image is required")
  else if negb (Text.all_chars image_byte (rq_image req)) || negb (is_ok (Reference.parse (rq_image req)))
  then Err (mkStatus InvalidArgument "invalid image reference")
  else if Nat.eqb (List.length (rq_command req)) 0 then Err (mkStatus InvalidArgument "command must not be empty")
  else Ok tt.

Definition image_digest_pinned (reference : string) (manifest_digest : option string) : bool :=
  match manifest_digest, Reference.parse reference with
  | Some d, Ok parsed => match Reference.digest parsed with Some pinned => String.eqb pinned d | None => false end
  | _, _ => false
  end.

(** ** Enforcement events *)

Definition string_field (e : Evidence.FalseEvent) (k : string) : option string :=
  match Evidence.fields e !! k with Some (Evidence.FString s) => Some s | _ => None end.
Definition u64_field (e : Evidence.FalseEvent) (k : string) : option Z :=
  match Evidence.fields e !! k with Some (Evidence.FU64 n) => Some n | _ => None end.

Definition enforcement_event_matches (e : Evidence.FalseEvent) (kernel_zone_id : option Z) : bool :=
  if bool_decide (string_field e "hook" = Some "seccomp_notify") then false
  else match kernel_zone_id with
       | None => false
       | Some zid => bool_decide (u64_field e "caller_zone" = Some zid)
       end.

Definition project_enforcement_event (e : Evidence.FalseEvent) : EnforcementSummary :=
  mkEnforcementSummary (parse_rfc3339 (Evidence.ts e)) (default "" (string_field e "hook")) (Evidence.event e)
    (default "" (string_field e "decision"))
    (if String.eqb (Evidence.what_failed e) "" then Evidence.event e else Evidence.what_failed e)
    (option_map (wrap 32) (u64_field e "pid")) (Some (Evidence.z_id (Evidence.zone e)))
    (match u64_field e "target_zone" with
     | Some z => if (z =? 0)%Z then None else Some ("zone-" ++ Str.show z)
     | None => None
     end)
    (Evidence.resource e).

Fixpoint drain (rs : list Received) (kernel_zone_id : option Z) : list EnforcementSummary * Z :=
  match rs with
  | [] => ([], 0%Z)
  | Event e :: rs =>
      let '(out, dropped) := drain rs kernel_zone_id in
      ((if enforcement_event_matches e kernel_zone_id then [project_enforcement_event e] else []) ++ out, dropped)%list
  | Lagged count :: rs => let '(out, dropped) := drain rs kernel_zone_id in (out, (count + dropped)%Z)
  end.

(** [None] where there is no broadcast. *)
Definition drain_enforcement_capture (capture : option (list Received * option Z)) : list EnforcementSummary * Z :=
  match capture with Some (rs, kernel_zone_id) => drain rs kernel_zone_id | None => ([], 0%Z) end.

(** ** Telling a result *)

Definition rfc (t : option Z) : string := match t with Some t => rfc3339 t | None => "" end.
Definition to_proto_result (exec : SandboxExecResult) (admission : Zone.PolicyAdmission) (unavailable_controls : list string)
    (receipt_json receipt_dsse_json : string) : SandboxResult :=
  Seal.mkResult (x_task_id exec) (x_zone_id exec) (x_command exec) (sandbox_status_str (x_status exec)) (x_exit_code exec)
    (x_stdout exec) (x_stderr exec) (x_duration_ms exec) (rfc (x_started_at exec)) (rfc (x_finished_at exec))
    (map (fun e => Seal.mkSummary (rfc (s_timestamp e)) (s_kind e) (s_message e)) (x_events exec))
    (map (fun e => Seal.mkEnforcement (rfc (timestamp e)) (hook e) (action e) (decision e) (m_message e) (pid e)
                     (default "" (source_zone e)) (default "" (target_zone e)) (default "" (object e)))
       (x_enforcement_events exec))
    (Seal.admission_str admission) unavailable_controls receipt_json receipt_dsse_json (x_capture_issues exec).

(** Sealing always ends ([Seal.sealed_result_is_covered]). *)
Definition seal (r : SandboxResult) (p : Results.ExecutionReceiptPayload) : result SandboxResult string :=
  match Seal.seal_bounded_result r p key with Some x => x | None => Err "unreachable" end.
Definition recovery_budget (record : RecoveryRecord) : result unit string :=
  match Seal.validate_recovery_budget record key with Some x => x | None => Err "unreachable" end.

(** ** Effects with another error *)

Definition rescue {A X Y} (c : M X A) : M Y (result A X) := fun w => let '(r, w') := c w in (Ok r, w').
Definition or_else {A X Y} (f : X -> Y) (c : M X A) : M Y A := fun w => let '(r, w') := c w in (map_err f r, w').
Definition ensure {X} (b : bool) (x : X) : M X unit := if b then ret tt else fail x.
Definition ident (text : string) : string := text.

(** ** Running a task *)

Definition spec_of (task_id : string) (req : RunSandboxRequest) : ContainerSpec :=
  mkSpec (task_id ++ "-task") (rq_image req) (rq_command req) (rq_env req) (Seal.some_text (rq_workdir req)) None None.

Definition event (kind message : string) : M string EventSummary :=
  do t <- host Registry.now ident; ret (mkEventSummary (Some t) kind message).

(** The state is polled every 200 ms: forever where there is no timeout.  A wait that
    is not over after [polls] rounds is one the daemon is killed in. *)
Fixpoint wait_for_exit (polls : nat) (container_id : string) (deadline : option Z) : M string (option Z * bool) :=
  match polls with
  | O => fun w => (Err KILLED, set_dead true w)
  | S polls =>
      do state <- rescue (on_reg (Registry.get_container_state paths container_id) text_of);
      let again := (do _ <- host (fun e => (tt, sleep 200 e)) ident; wait_for_exit polls container_id deadline) in
      let overdue :=
        match deadline with
        | Some d => do t <- host instant ident; if (d <=? t)%Z then ret (None, true) else again
        | None => again
        end in
      match state with
      | Ok (status, exit_code) => if String.eqb status "stopped" then ret (exit_code, false) else overdue
      | Err _ => overdue
      end
  end.

Definition deadline_of (timeout_seconds : Z) : M string (option Z) :=
  if (0 <? timeout_seconds)%Z
  then do t <- host instant ident; ret (Some (t + timeout_seconds * 1000)%Z)
  else ret None.

Definition broker_log (container_id : string) : string :=
  Registry.container_logs paths container_id ++ "/broker.log".

Definition status_of (timed_out : bool) (exit_code : option Z) : SandboxStatus :=
  if timed_out then TimedOut else if bool_decide (exit_code = Some 0%Z) then Succeeded else Failed.

Definition run_started_container (polls : nat) (task_id zone_name zone_id container_id : string) (req : RunSandboxRequest)
  : M string SandboxExecResult :=
  do created <- event "container.created" "sandbox container created";
  do kernel_zone <- on_reg (gets (Registry.kernel_zone_id zone_name)) text_of;
  do started_at <- host Registry.now ident;
  do _ <- on_reg (Registry.start_container container_id) (fun e => "failed to start container: " ++ text_of e);
  do started <- event "container.started" "sandbox container started";
  do deadline <- deadline_of (rq_timeout_seconds req);
  do outcome <- wait_for_exit polls container_id deadline;
  let '(exit_code, timed_out) := outcome in
  do ended <- (if timed_out : bool then
                 do _ <- rescue (on_reg (Registry.stop_container container_id) text_of);
                 event "container.timed_out" "sandbox task exceeded timeout"
               else event "container.exited" "sandbox container exited");
  do finished_at <- host Registry.now ident;
  do files <- host log_files ident;
  let captured := Logs.read_all_capped files container_id (Registry.run_dir paths) sandbox_log_max_bytes in
  let '(decisions, broker_issues) := Logs.read_decisions_capped (files (broker_log container_id)) sandbox_log_max_bytes in
  do zone <- on_reg (Registry.get_zone zone_name) text_of;
  do there <- (if Nat.eqb (List.length (Zone.broker (Zone.syscalls (z_policy zone)))) 0 then ret true
               else host (Registry.path_exists (broker_log container_id)) ident);
  let issues := (Logs.issues captured ++ broker_issues ++ (if there : bool then [] else ["broker.unavailable"]))%list in
  do rs <- host received ident;
  let '(kernel_events, dropped) := drain_enforcement_capture (if broadcast then Some (rs, kernel_zone) else None) in
  do kernel_zone_id <- on_reg (gets (Registry.kernel_zone_id zone_name)) text_of;
  let zone_label := match kernel_zone_id with Some id => "zone-" ++ Str.show id | None => zone_id end in
  let brokered := map (fun d => project_enforcement_event (Evidence.broker_decision_event d zone_label (default 0%Z kernel_zone_id)))
                    decisions in
  ret (mkExec task_id zone_id (rq_command req) (status_of timed_out exit_code) exit_code (Logs.stdout captured)
         (Logs.stderr captured) (Z.max 0 (finished_at - started_at)) (Some started_at) (Some finished_at)
         [created; started; ended] (kernel_events ++ brokered)%list dropped issues).

Definition with_container (id : string) (digest : option string) (req : RunSandboxRequest) (r : RecoveryRecord) : RecoveryRecord :=
  let p := receipt r in
  Results.mkRecovery (zone_name r) (Some id) (cleanup_zone r) (command r) (admission r)
    (Results.mkReceipt (Results.schema p) (Results.task_id p) (Results.zone_id p)
       (Results.mkImage (Results.reference (Results.image p)) (default "" digest) (image_digest_pinned (rq_image req) digest))
       (Results.policy_sha256 p) (Results.inputs_sha256 p) (Results.outputs_sha256 p) (Results.status p) (Results.exit_code p)
       (Results.started_at p) (Results.finished_at p) (Results.enforcement p) (Results.unavailable_controls p)
       (Results.capture_issues p)).

(** The outcome, and the record as it was left. *)
Definition execute_task (polls : nat) (task_id zone_name zone_id : string) (req : RunSandboxRequest) (recovery : RecoveryRecord)
  : M string (result SandboxExecResult string * RecoveryRecord) :=
  do _ <- memory (fun w => set_executed (executed w ++ [task_id])%list w) ident;
  do created <- rescue (on_reg (Registry.create_container paths zone_name (spec_of task_id req)) text_of);
  match created with
  | Err e => ret (Err ("failed to create container (is the image pulled? `rauha image pull " ++ rq_image req ++ "`): " ++ e), recovery)
  | Ok container =>
      do digest <- host (image_digest (rq_image req)) ident;
      let recovery := with_container (c_id container) (match digest with Ok d => Some d | Err _ => None end) req recovery in
      do r <- rescue (do _ <- tx (fun s => Results.put_recovery s recovery) ident;
                      run_started_container polls task_id zone_name zone_id (c_id container) req);
      ret (r, recovery)
  end.

(** ** Recovery *)

Definition task_containers (record : RecoveryRecord) : M string (list Container) :=
  do zone_id <- or_fail (parse_uuid (Results.zone_id (receipt record))) "invalid zone identifier";
  do cs <- on_reg (Registry.meta_list_containers (Some zone_id)) text_of;
  let mine := List.filter (fun c => match container_id record with
                                    | Some id => String.eqb (c_id c) id
                                    | None => String.eqb (c_name c) (Results.task_of record ++ "-task")
                                    end) cs in
  do _ <- ensure (Nat.leb (List.length mine) 1) "ambiguous task container ownership";
  ret mine.

Definition state_of (id : string) : M string (string * option Z) := on_reg (Registry.get_container_state paths id) text_of.

Definition cleanup_recovered_task (record : RecoveryRecord) : M string unit :=
  do _ <- (if cleanup_zone record then
             do found <- on_reg (Registry.meta_get_zone (zone_name record)) text_of;
             match found with
             | Some zone =>
                 do _ <- ensure (String.eqb (z_id zone) (Results.zone_id (receipt record))) "recovery zone identity changed";
                 on_reg (Registry.delete_zone paths (zone_name record) true) text_of
             | None => ret tt
             end
           else
             do cs <- task_containers record;
             for_each (fun c => do _ <- rescue (state_of (c_id c));
                                on_reg (Registry.delete_container paths (c_id c) true) text_of) cs);
  do kept <- task_containers record;
  do _ <- ensure (Nat.eqb (List.length kept) 0) "task container cleanup is incomplete";
  tx (fun s => Results.finish_recovery s (Results.task_of record)) ident.

(** A container that is still running is stopped; only the shim's word that it is
    stopped excuses a stop that failed. *)
Definition settle (id : string) : M string unit :=
  do st <- state_of id;
  let '(state, _) := st in
  if String.eqb state "running" then
    do stopped <- rescue (on_reg (Registry.stop_container id) text_of);
    match stopped with
    | Ok _ => ret tt
    | Err e =>
        do again <- rescue (state_of id);
        match again with
        | Ok (state, _) => if String.eqb state "stopped" then ret tt else fail e
        | Err _ => fail e
        end
    end
  else ensure (String.eqb state "stopped" || String.eqb state "created") ("unknown recovered container state: " ++ state).

Definition RECOVERED : string :=
  "daemon interrupted before result commit; command was not replayed; effects may have occurred".

(** What is told of an interrupted task: nothing is claimed of its outcome. *)
Definition interrupted (record : RecoveryRecord) (t : Z) (out err : string) (issues : list string) : SandboxResult :=
  Seal.mkResult (Results.task_of record) (Results.zone_id (receipt record)) (command record) "runtime_error" None out err 0 "" ""
    [Seal.mkSummary (rfc3339 t) "task.recovered" RECOVERED] [] (Seal.admission_str (admission record))
    (Results.unavailable_controls (receipt record)) "" ""
    (["runtime.interrupted"; "execution.outcome_unknown"; "enforcement_events.recovery_gap"] ++ issues)%list.

Definition recover_result (record : RecoveryRecord) : M string unit :=
  do cs <- task_containers record;
  do t <- host Registry.now ident;
  do r <- (match cs with
           | c :: _ =>
               do _ <- settle (c_id c);
               do files <- host log_files ident;
               let logs := Logs.read_all_capped files (c_id c) (Registry.run_dir paths) sandbox_log_max_bytes in
               ret (interrupted record t (Logs.stdout logs) (Logs.stderr logs) (Logs.issues logs ++ ["broker.recovery_gap"])%list)
           | [] => ret (interrupted record t "" "" ["output.unavailable_after_interruption"])
           end);
  do r <- of_result (seal r (receipt record));
  tx (fun s => Results.save_result s (Results.task_of record) (Seal.encode_to_vec r)) ident.

Definition recover_task (record : RecoveryRecord) : M string unit :=
  let id := Results.task_of record in
  do stored <- read_tx (fun s => Ok (Results.get_result s id)) ident;
  do stored <- or_fail stored ("recovery record without reserved result: " ++ id);
  do _ <- (if Nat.eqb (List.length stored) 0 then recover_result record else ret tt);
  cleanup_recovered_task record.

Definition recover_tasks : M string unit :=
  do records <- read_tx Results.recovery_records ident;
  for_each recover_task records.

(** ** The service *)

Definition internal {A} (c : M string A) : M Status A := or_else to_internal_status c.

Definition get_sandbox_result (id : string) : M Status SandboxResult :=
  do _ <- ensure (valid_task_id id) (mkStatus InvalidArgument "expected task-<UUID>");
  do found <- internal (read_tx (fun s => Ok (Results.get_result s id)) ident);
  do b <- or_fail found (mkStatus NotFound "task result not found");
  do _ <- ensure (negb (Nat.eqb (List.length b) 0)) (mkStatus FailedPrecondition
            "task has no completed result: still running or interrupted; do not assume it had no effects");
  of_result (map_err to_internal_status (Seal.decode b)).

Definition delete_sandbox_result (id : string) : M Status bool :=
  do _ <- ensure (valid_task_id id) (mkStatus InvalidArgument "expected task-<UUID>");
  do tasks <- gets active;
  do _ <- ensure (negb (bool_decide (id ∈ tasks))) (mkStatus FailedPrecondition "task is still active");
  do pending <- internal (read_tx (fun s => Ok (Results.has_recovery s id)) ident);
  do _ <- ensure (negb pending) (mkStatus FailedPrecondition "task still requires recovery or cleanup");
  do cs <- on_reg (Registry.meta_list_containers None) (fun e => to_internal_status (text_of e));
  do _ <- ensure (negb (List.existsb (fun c => String.eqb (c_name c) (id ++ "-task")) cs))
            (mkStatus FailedPrecondition "task container still requires cleanup");
  do deleted <- internal (tx (fun s => Results.delete_result s id) ident);
  do _ <- memory (fun w => set_executed (List.filter (fun t => negb (String.eqb t id)) (executed w)) w) to_internal_status;
  ret deleted.

(** The call's guards as they are dropped: the zone's (its deletion is a task of its
    own, run here at once), then the reservation's. *)
Definition drops (task_id : string) : M Status unit :=
  do zone <- gets cleanup;
  do _ <- (match zone with
           | Some name => void (rescue (on_reg (Registry.delete_zone paths name true) text_of))
           | None => ret tt
           end);
  do _ <- memory (set_cleanup None) to_internal_status;
  do begun <- gets attempted;
  do _ <- (if begun : bool then ret tt
           else void (rescue (tx (fun s => Results.delete_result s task_id) ident)));
  memory (fun w => set_attempted false (set_active (active w ∖ {[task_id]}) w)) to_internal_status.

Definition no_hyphens (s : string) : string := Str.join "" (Str.split "-" s).
Definition failed_checks (report : IsolationReport) : list string :=
  map ck_name (List.filter (fun c => negb (ck_passed c)) (checks report)).
Definition with_admission (a : Zone.PolicyAdmission) (p : Zone.ZonePolicy) : Zone.ZonePolicy :=
  Zone.mkZonePolicy a (capabilities p) (resources p) (network p) (filesystem p) (devices p) (syscalls p).

(** The zone a task runs in, and whether it is the task's own. *)
Definition resolve_zone (req : RunSandboxRequest) : M Status (Zone * bool) :=
  if String.eqb (Str.trim (rq_name req)) "" then
    do uuid <- host new_uuid to_internal_status;
    let name := "sandbox-" ++ String.substring 0 12 (no_hyphens uuid) in
    let policy := if rq_audit req then with_admission Zone.Audit Zone.ZonePolicy_default else Zone.ZonePolicy_default in
    do zone <- on_reg (Registry.create_zone name NonGlobal policy) to_status;
    ret (zone, true)
  else do zone <- on_reg (Registry.get_zone (rq_name req)) to_status; ret (zone, false).

Definition reserve (task_id : string) : M Status unit :=
  do fresh <- tx (fun s => Results.reserve_result s task_id results_max_bytes) (mkStatus ResourceExhausted);
  do _ <- ensure fresh (mkStatus AlreadyExists "task identifier already used; retrieve its result instead of re-executing");
  memory (fun w => set_active ({[task_id]} ∪ active w) w) to_internal_status.

Definition with_enforcement (t : Results.EnforcementTotals) (p : Results.ExecutionReceiptPayload) : Results.ExecutionReceiptPayload :=
  Results.mkReceipt (Results.schema p) (Results.task_id p) (Results.zone_id p) (Results.image p) (Results.policy_sha256 p)
    (Results.inputs_sha256 p) (Results.outputs_sha256 p) (Results.status p) (Results.exit_code p) (Results.started_at p)
    (Results.finished_at p) t (Results.unavailable_controls p) (Results.capture_issues p).

(** After execution: the zone is judged again, the result sealed, stored and told, and
    what is left of the task cleaned up, or kept for recovery where that fails. *)
Definition conclude (task_id zone_name zone_id : string) (admission : Zone.PolicyAdmission) (req : RunSandboxRequest)
    (controls : list string) (outcome : result SandboxExecResult string) (recovery : RecoveryRecord) : M Status SandboxResult :=
  do postflight <- rescue (on_reg (Registry.verify_isolation zone_name) text_of);
  let more := match postflight with Ok report => failed_checks report | Err _ => ["isolation:postflight"] end in
  let controls := Evidence.dedup (Evidence.sort (controls ++ more)%list) in
  let exec := match outcome with
              | Ok exec => exec
              | Err message => runtime_error task_id zone_id (rq_command req) message
              end in
  let payload := with_enforcement (Receipts.enforcement_totals (map decision (x_enforcement_events exec))
                                     (x_enforcement_drop_count exec)) (receipt recovery) in
  do r <- of_result (map_err to_internal_status (seal (to_proto_result exec admission controls "" "") payload));
  do _ <- internal (tx (fun s => Results.save_result s task_id (Seal.encode_to_vec r)) ident);
  do _ <- rescue (cleanup_recovered_task recovery);
  ret r.

Definition run_reserved (polls : nat) (task_id : string) (req : RunSandboxRequest) : M Status SandboxResult :=
  do zt <- resolve_zone req;
  let '(zone, temp_zone) := zt in
  let owned := temp_zone && negb (rq_keep_zone req) in
  let admission := Zone.admission (z_policy zone) in
  do _ <- memory (set_cleanup (if owned then Some (z_name zone) else None)) to_internal_status;
  do report <- on_reg (Registry.verify_isolation (z_name zone)) to_status;
  let controls := failed_checks report in
  do _ <- ensure (negb (bool_decide (admission = Zone.Strict)) || is_isolated report)
            (mkStatus FailedPrecondition ("strict sandbox isolation verification failed: " ++ Str.join ", " controls));
  do payload <- of_result (map_err to_internal_status (Seal.recovery_receipt task_id (z_id zone) req (z_policy zone) controls));
  let recovery := Results.mkRecovery (z_name zone) None owned (rq_command req) admission payload in
  do _ <- of_result (map_err (mkStatus InvalidArgument) (recovery_budget recovery));
  do _ <- internal (tx (fun s => Results.put_recovery s recovery) ident);
  do _ <- memory (fun w => set_cleanup None (set_attempted true w)) to_internal_status;
  do outcome <- internal (execute_task polls task_id (z_name zone) (z_id zone) req recovery);
  let '(outcome, recovery) := outcome in
  conclude task_id (z_name zone) (z_id zone) admission req controls outcome recovery.

Definition run_owned (polls : nat) (req : RunSandboxRequest) : M Status SandboxResult :=
  do task_id <- (if String.eqb (rq_task_id req) ""
                 then do uuid <- host new_uuid to_internal_status; ret ("task-" ++ uuid)
                 else ret (rq_task_id req));
  do _ <- of_result (validate_sandbox_request req);
  do _ <- ensure (valid_task_id task_id) (mkStatus InvalidArgument "expected task-<UUID>");
  do _ <- reserve task_id;
  do r <- rescue (run_reserved polls task_id req);
  do _ <- rescue (drops task_id);
  of_result r.

(** ** The daemon over time *)

Inductive Request := Run (polls : nat) (req : RunSandboxRequest) | GetResult (id : string) | DeleteResult (id : string).

Definition serve (q : Request) : M Status unit :=
  match q with
  | Run polls req => void (run_owned polls req)
  | GetResult id => void (get_sandbox_result id)
  | DeleteResult id => void (delete_sandbox_result id)
  end.

(** The daemon is started, on what the last one left: the registry's caches and the
    service's memory are gone.  It serves only where recovery succeeds. *)
Definition fresh (b : B) (e : E) (w : World) : World :=
  mkWorld (Registry.reboot b e (reg w)) (store w) ∅ false None false (executed w).
Definition start : M string unit :=
  do _ <- on_reg (Registry.reconcile) text_of;
  recover_tasks.

Inductive reachable : World -> bool -> Prop :=
| reach_init g : reachable (mkWorld g Results.empty_store ∅ false None true []) false
| reach_start w up b e : reachable w up -> reachable (snd (start (fresh b e w))) (is_ok (fst (start (fresh b e w))))
| reach_serve w q : reachable w true -> reachable (snd (serve q w)) true.

(** ** What the steps leave alone *)

(** Every field the claims are about is the same. *)
Definition still (w w' : World) : Prop :=
  store w' = store w /\ executed w' = executed w /\ attempted w' = attempted w.
#[local] Instance still_preorder : PreOrder still.
Proof. split; [by intros w|]. intros w1 w2 w3 (A1 & A2 & A3) (B1 & B2 & B3). unfold still. by rewrite B1, B2, B3. Qed.

Lemma keeps_mono (R R' : relation World) {A X} (c : M X A) :
  keeps R c -> (forall w w', R w w' -> R' w w') -> keeps R' c.
Proof. intros Hc HR w. eapply wp_mono; [apply Hc|]. auto. Qed.

Lemma keeps_rescue (R : relation World) {A X Y} (c : M X A) : keeps R c -> keeps R (rescue (Y := Y) c).
Proof. intros Hc w. specialize (Hc w). unfold wp, rescue in *. by destruct (c w). Qed.
Lemma keeps_or_else (R : relation World) {A X Y} (f : X -> Y) (c : M X A) : keeps R c -> keeps R (or_else f c).
Proof. intros Hc w. specialize (Hc w). unfold wp, or_else in *. by destruct (c w). Qed.
Lemma keeps_ensure (R : relation World) `{!PreOrder R} {X} b (x : X) : keeps R (ensure b x).
Proof. destruct b; [apply keeps_ret|apply keeps_fail]; apply _. Qed.

Lemma step_still {A X} (f : World -> result A X * World) torn gone :
  (forall w, still w (snd (f w))) -> (forall w, still w (torn w)) -> keeps still (step f torn gone).
Proof.
  intros Hf Ht w. unfold wp, step. destruct (dead w); [done|]. destruct (killed _) as [k e].
  destruct k; cbn; [exact (Ht (set_reg (Registry.set_env e (reg w)) w))|exact (Hf (set_reg (Registry.set_env e (reg w)) w))].
Qed.

Lemma on_reg_still {A X} (c : StateError.M (Registry.World (B := B) (E := E)) RauhaError A) (err : RauhaError -> X) :
  keeps still (on_reg c err).
Proof. apply step_still; intros w; [by destruct (c (reg w))|done]. Qed.
Lemma host_still {A X} (f : E -> A * E) (err : string -> X) : keeps still (host f err).
Proof. apply step_still; intros w; [by destruct (f _)|done]. Qed.
Lemma memory_still {X} (f : World -> World) (err : string -> X) : (forall w, still w (f w)) -> keeps still (memory f err).
Proof. intros Hf w. unfold wp, memory. destruct (dead w); [done|]. apply Hf. Qed.
Lemma tx_fault {A X} (f : Results.MetadataStore -> result A string * Results.MetadataStore) (err : string -> X) (R : relation World) :
  (forall w w', still w w' -> R w w') ->
  (forall w e, R w (set_store (snd (f (store w))) (set_reg e w))) -> keeps R (tx f err).
Proof.
  intros HR Hf w. unfold wp, tx, step. destruct (dead w); [by apply HR|]. destruct (killed _) as [k e]. destruct k; [by apply HR|].
  destruct (Registry.redb _) as [[text|] e']; [by apply HR|]. cbn.
  destruct (f (store w)) as [r s'] eqn:Hfw. specialize (Hf w (Registry.set_env e' (Registry.set_env e (reg w)))). by rewrite Hfw in Hf.
Qed.
Lemma read_tx_still {A X} (f : Results.MetadataStore -> result A string) (err : string -> X) : keeps still (read_tx f err).
Proof. apply tx_fault; [done|]. by intros w e. Qed.

#[local] Hint Resolve keeps_rescue keeps_or_else keeps_ensure on_reg_still host_still read_tx_still still_preorder : keeps.

Ltac kept_step :=
  lazymatch goal with
  | |- keeps _ (rescue _) => apply keeps_rescue
  | |- keeps _ (or_else _ _) => apply keeps_or_else
  | |- keeps _ (ensure _ _) => apply keeps_ensure; apply _
  | |- keeps still (memory _ _) => apply memory_still; intros ?; done
  | |- keeps still (on_reg _ _) => apply on_reg_still
  | |- keeps still (host _ _) => apply host_still
  | |- keeps still (read_tx _ _) => apply read_tx_still
  | _ => keeps_step
  end.
Ltac kept := repeat first [solve [eauto 2 with keeps] | kept_step].

Lemma wait_still polls id deadline : keeps still (wait_for_exit polls id deadline).
Proof.
  induction polls as [|polls IH]; cbn [wait_for_exit]; [by intros w|]. unfold deadline_of. kept; cbv zeta; kept.
Qed.

Lemma run_started_still polls tid zn zid cid req : keeps still (run_started_container polls tid zn zid cid req).
Proof. unfold run_started_container, event, deadline_of. kept; cbv zeta; kept; try apply wait_still. Qed.

Lemma task_containers_still r : keeps still (task_containers r).
Proof. unfold task_containers. kept. Qed.
Lemma settle_still id : keeps still (settle id).
Proof. unfold settle, state_of. kept. Qed.
Lemma resolve_zone_still req : keeps still (resolve_zone req).
Proof. unfold resolve_zone. kept. Qed.
#[local] Hint Resolve wait_still run_started_still task_containers_still settle_still resolve_zone_still : keeps.

(** ** How the result tables go on *)

Context {CL : Results.RecordCodecLaws C}.

Definition committed (s : Results.MetadataStore) (id : string) : Prop := exists x b, Results.results s !! id = Some (x :: b).
Definition recorded (s : Results.MetadataStore) (id : string) : Prop :=
  exists b r, Results.recovery s !! id = Some b /\ Results.from_slice b = Ok r /\ Results.task_of r = id.

(** A task is safe: its result is committed, or its reservation is still there with a
    record to recover it by. *)
Definition safe (s : Results.MetadataStore) (id : string) : Prop :=
  committed s id \/ (Results.results s !! id = Some [] /\ recorded s id).
Definition owned (s : Results.MetadataStore) : Prop :=
  forall id b, Results.recovery s !! id = Some b -> recorded s id /\ is_Some (Results.results s !! id).

Record onward (s s' : Results.MetadataStore) : Prop := {
  on_results : forall id x b, Results.results s !! id = Some (x :: b) -> Results.results s' !! id = Some (x :: b);
  on_safe : forall id, safe s id -> safe s' id;
  on_owned : owned s -> owned s' }.
#[local] Instance onward_preorder : PreOrder onward.
Proof. split; [by split|]. intros s1 s2 s3 [] []. split; auto. Qed.

Lemma put_onward s r : onward s (snd (Results.put_recovery s r)).
Proof.
  unfold Results.put_recovery. destruct (Results.to_vec r) as [b|] eqn:Hb; [|done]. destruct (negb _); [done|].
  destruct (Results.results s !! Results.task_of r) as [[|]|] eqn:Hr; [|done..]. apply CL in Hb. cbn.
  assert (Hrec : recorded (Results.mkStore (Results.results s) (<[Results.task_of r := b]> (Results.recovery s))) (Results.task_of r))
    by (exists b, r; cbn; by rewrite lookup_insert_eq).
  assert (Hold : forall id, recorded s id ->
    recorded (Results.mkStore (Results.results s) (<[Results.task_of r := b]> (Results.recovery s))) id).
  { intros id (b1 & r1 & H1 & H2 & H3). destruct (decide (id = Results.task_of r)) as [->|Hne]; [done|].
    exists b1, r1. cbn. by rewrite lookup_insert_ne. }
  split; [done|..].
  - intros id [Hc|[H1 H2]]; [by left|right]. auto.
  - intros Ho id b1. cbn. destruct (decide (id = Results.task_of r)) as [->|Hne]; [intros _; split; [done|by rewrite Hr]|].
    rewrite lookup_insert_ne by done. intros Hb1. destruct (Ho _ _ Hb1). auto.
Qed.

Lemma save_onward s id b : onward s (snd (Results.save_result s id b)).
Proof.
  unfold Results.save_result. destruct b as [|x b]; [done|]. cbn [negb Nat.eqb List.length andb].
  destruct (negb _); [done|]. destruct (Results.results s !! id) as [[|]|] eqn:Hr; [|done..]. cbn.
  split; cbn.
  - intros id1 x1 b1 H1. destruct (decide (id1 = id)) as [->|Hne]; [by rewrite Hr in H1|by rewrite lookup_insert_ne].
  - intros id1 Hs. destruct (decide (id1 = id)) as [->|Hne]; [left; exists x, b; cbn; by rewrite lookup_insert_eq|].
    destruct Hs as [(x1 & b1 & H1)|[H1 H2]]; [left; exists x1, b1|right; split; [|done]]; cbn; by rewrite lookup_insert_ne.
  - intros Ho id1 b1 H1. destruct (Ho id1 b1 H1) as [Hrec [y Hy]]. split; [done|]. cbn.
    destruct (decide (id1 = id)) as [->|Hne]; [by rewrite lookup_insert_eq|rewrite lookup_insert_ne by done; eauto].
Qed.

Lemma finish_onward s id : onward s (snd (Results.finish_recovery s id)).
Proof.
  unfold Results.finish_recovery. destruct (Results.results s !! id) as [[|x b]|] eqn:Hr; [done| |done]. cbn.
  assert (Hold : forall id1, id1 <> id -> recorded s id1 -> recorded (Results.mkStore (Results.results s) (delete id (Results.recovery s))) id1).
  { intros id1 Hne (b1 & r1 & H1 & H2). exists b1, r1. cbn. by rewrite lookup_delete_ne. }
  split; cbn; [done|..].
  - intros id1 [Hc|[H1 H2]]; [by left|]. destruct (decide (id1 = id)) as [->|Hne]; [by rewrite Hr in H1|right; auto].
  - intros Ho id1 b1. cbn. destruct (decide (id1 = id)) as [->|Hne]; [by rewrite lookup_delete_eq|].
    rewrite lookup_delete_ne by done. intros H1. destruct (Ho _ _ H1). auto.
Qed.

Definition evolves (w w' : World) : Prop :=
  executed w' = executed w /\ attempted w' = attempted w /\ onward (store w) (store w').
#[local] Instance evolves_preorder : PreOrder evolves.
Proof.
  split; [by intros w|]. intros w1 w2 w3 (A1 & A2 & A3) (B1 & B2 & B3). unfold evolves. rewrite B1, B2.
  split_and!; [done..|by etransitivity].
Qed.
Lemma still_evolves w w' : still w w' -> evolves w w'.
Proof. intros (A1 & A2 & A3). unfold evolves. by rewrite A1. Qed.
Lemma keeps_evolves {A X} (c : M X A) : keeps still c -> keeps evolves c.
Proof. intros Hc. by eapply keeps_mono; [done|apply still_evolves]. Qed.

Lemma put_evolves {X} r (err : string -> X) : keeps evolves (tx (fun s => Results.put_recovery s r) err).
Proof. apply tx_fault; [apply still_evolves|]. intros w e. split_and!; [done..|apply put_onward]. Qed.
Lemma save_evolves {X} id b (err : string -> X) : keeps evolves (tx (fun s => Results.save_result s id b) err).
Proof. apply tx_fault; [apply still_evolves|]. intros w e. split_and!; [done..|apply save_onward]. Qed.
Lemma finish_evolves {X} id (err : string -> X) : keeps evolves (tx (fun s => Results.finish_recovery s id) err).
Proof. apply tx_fault; [apply still_evolves|]. intros w e. split_and!; [done..|apply finish_onward]. Qed.
#[local] Hint Resolve put_evolves save_evolves finish_evolves evolves_preorder : keeps.
#[local] Hint Extern 3 (keeps evolves _) => apply keeps_evolves; solve [kept] : keeps.

Lemma cleanup_evolves r : keeps evolves (cleanup_recovered_task r).
Proof. unfold cleanup_recovered_task, state_of. kept. Qed.
#[local] Hint Resolve cleanup_evolves : keeps.

Lemma conclude_evolves tid zn zid a req controls outcome r :
  keeps evolves (conclude tid zn zid a req controls outcome r).
Proof. unfold conclude, internal. kept; cbv zeta; kept. Qed.

(** ** The invariant *)

Record core (w : World) : Prop := {
  core_once : NoDup (executed w);
  core_safe : forall id, id ∈ executed w -> safe (store w) id;
  core_owned : owned (store w) }.
Definition idle (w : World) : Prop := dead w = true \/ attempted w = false.

Lemma core_evolves w w' : core w -> evolves w w' -> core w'.
Proof.
  intros [H1 H2 H3] (E1 & _ & [_ S1 S2]). split; rewrite ?E1; auto.
Qed.

(** A transaction: it fails and changes nothing, or does what it does to a daemon that
    is alive. *)
Lemma wp_tx {A X} (f : Results.MetadataStore -> result A string * Results.MetadataStore) (err : string -> X) Q w :
  (forall x w', still w w' -> Q (Err x) w') ->
  (forall g, dead w = false -> Q (map_err err (fst (f (store w)))) (set_store (snd (f (store w))) (set_reg g w))) ->
  wp (tx f err) Q w.
Proof.
  intros He Hf. unfold wp, tx, step. destruct (dead w) eqn:Hd; [by apply He|]. destruct (killed _) as [k e]. destruct k; [by apply He|].
  destruct (Registry.redb _) as [[text|] e']; [by apply He|]. cbn.
  specialize (Hf (Registry.set_env e' (Registry.set_env e (reg w))) eq_refl). destruct (f (store w)) as [r s'] eqn:Hfw. exact Hf.
Qed.
Lemma wp_memory {X} (f : World -> World) (err : string -> X) Q w :
  (dead w = true -> Q (Err (err KILLED)) w) -> (dead w = false -> Q (Ok tt) (f w)) -> wp (memory f err) Q w.
Proof. intros Hd Hf. unfold wp, memory. destruct (dead w); auto. Qed.
Lemma wp_rescue {A X Y} (c : M X A) Q w : wp c (fun r w' => Q (Ok r) w') w -> wp (rescue (Y := Y) c) Q w.
Proof. unfold wp, rescue. by destruct (c w). Qed.
Lemma wp_or_else {A X Y} (f : X -> Y) (c : M X A) Q w : wp c (fun r w' => Q (map_err f r) w') w -> wp (or_else f c) Q w.
Proof. unfold wp, or_else. by destruct (c w). Qed.

Lemma wp_and {A X} (c : M X A) (Q Q' : result A X -> World -> Prop) w :
  wp c Q w -> wp c Q' w -> wp c (fun r w' => Q r w' /\ Q' r w') w.
Proof. by split. Qed.

(** The first part of a run that keeps [R], and then. *)
Lemma wp_keeps (R : relation World) {A X} (c : M X A) (Q : result A X -> World -> Prop) w :
  keeps R c -> (forall r w', R w w' -> Q r w') -> wp c Q w.
Proof. intros Hc HQ. eapply wp_mono; [apply Hc|]. auto. Qed.

Lemma still_core w w' : still w w' -> core w -> core w'.
Proof. intros Hs Hc. eapply core_evolves; [done|by apply still_evolves]. Qed.

(** Whatever is reserved anew was not executed. *)
Lemma reserve_spec id w : core w -> attempted w = false ->
  wp (reserve id) (fun r w' => core w' /\ attempted w' = false /\ (is_ok r = true -> id ∉ executed w' /\ Results.results (store w') !! id = Some [])) w.
Proof.
  intros Hc Ha. unfold reserve. wp_step. apply wp_tx.
  { intros x w' Hs. destruct (Hs) as (_ & _ & Ea). rewrite Ea. split; [by apply (still_core w)|done]. }
  intros g Hd. unfold Results.reserve_result. destruct (Results.results (store w) !! id) as [b|] eqn:Hid; cbn [fst snd map_err].
  - apply wp_bind. apply wp_fail. split; [by apply (still_core w)|done].
  - destruct (_ <=? _)%Z; cbn [fst snd map_err]; [|by split; [apply (still_core w)|]].
    apply wp_bind, wp_ret, wp_memory; [cbn; congruence|]. intros _. cbn.
    assert (Hne : id ∉ executed w).
    { intros Hin. destruct (core_safe w Hc id Hin) as [(x & b' & Hx)|[Hx _]]; by rewrite Hid in Hx. }
    split; [|split; [done|intros _; by rewrite lookup_insert_eq]]. destruct Hc as [H1 H2 H3]. split; cbn; [done|..].
    + intros id1 Hin. assert (id1 <> id) by (by intros ->).
      destruct (H2 id1 Hin) as [(x & b' & Hx)|[Hx Hr]]; [left; exists x, b'|right; split; [|done]]; cbn; by rewrite lookup_insert_ne.
    + intros id1 b1 Hx. destruct (H3 id1 b1 Hx) as [Hr [y Hy]]. split; [done|]. cbn.
      destruct (decide (id1 = id)) as [->|]; [by rewrite lookup_insert_eq|rewrite lookup_insert_ne by done; eauto].
Qed.

(** A result that is deleted is one of a task that is not owed anything. *)
Lemma delete_core w id g : core w -> id ∉ executed w ->
  core (set_store (snd (Results.delete_result (store w) id)) (set_reg g w)).
Proof.
  intros [H1 H2 H3] Hne. unfold Results.delete_result. destruct (Results.recovery (store w) !! id) eqn:Hr; cbn; [by split|].
  split; cbn; [done|..].
  - intros id1 Hin. assert (id1 <> id) by (by intros ->).
    destruct (H2 id1 Hin) as [(x & b' & Hx)|[Hx Hrec]]; [left; exists x, b'|right; split; [|done]]; cbn; by rewrite lookup_delete_ne.
  - intros id1 b1 Hx. destruct (H3 id1 b1 Hx) as [Hrec [y Hy]]. split; [done|]. cbn in *.
    destruct (decide (id1 = id)) as [->|]; [congruence|rewrite lookup_delete_ne by done; eauto].
Qed.

(** ** Requests keep it *)

(** What the caller is told is what is stored, and the receipts are signed over it. *)
Definition told (w : World) (id : string) (r : SandboxResult) : Prop :=
  Results.results (store w) !! id = Some (Seal.encode_to_vec r) /\ Seal.encode_to_vec r <> [] /\
  exists p, Seal.covers key r p /\ Results.task_id p = id.
Lemma told_evolves w w' id r : told w id r -> evolves w w' -> told w' id r.
Proof.
  intros (H1 & H2 & H3) (_ & _ & Ho). split_and!; [|done..]. destruct (Seal.encode_to_vec r) as [|x b] eqn:He; [done|].
  by apply (on_results _ _ Ho).
Qed.

Lemma seal_spec r p r' : seal r p = Ok r' ->
  Seal.cut_of r r' /\ exists p', Seal.covers key r' p' /\ Results.task_id p' = Results.task_id p.
Proof.
  unfold seal, Seal.seal_bounded_result. destruct (Seal.seal_loop _ _ _ _) as [x|] eqn:Hs; [|done]. intros ->.
  assert (Ht : Seal.told r (Seal.with_outcome r p)) by done.
  destruct (Seal.seal_loop_spec _ _ _ _ _ Ht Hs) as (Hc & _ & p' & Hp & Hsame). split; [done|]. exists p'. by split; [|apply Hsame].
Qed.

Lemma put_safe s r : is_ok (fst (Results.put_recovery s r)) = true -> safe (snd (Results.put_recovery s r)) (Results.task_of r).
Proof.
  unfold Results.put_recovery. destruct (Results.to_vec r) as [b|] eqn:Hb; [|done]. destruct (negb _); [done|].
  destruct (Results.results s !! Results.task_of r) as [[|]|] eqn:Hr; [|done..]. intros _. right. split; [done|].
  exists b, r. cbn. rewrite lookup_insert_eq. apply CL in Hb. done.
Qed.

Lemma save_stored s id b : is_ok (fst (Results.save_result s id b)) = true ->
  b <> [] /\ Results.results (snd (Results.save_result s id b)) !! id = Some b.
Proof.
  unfold Results.save_result. destruct b as [|x b]; [done|]. destruct (negb _); [done|].
  destruct (Results.results s !! id) as [[|]|]; [|done..]. intros _. split; [done|]. cbn. by rewrite lookup_insert_eq.
Qed.

Lemma conclude_told tid zn zid a req controls outcome rec w : Results.task_of rec = tid ->
  wp (conclude tid zn zid a req controls outcome rec) (fun r w' => forall x, r = Ok x -> told w' tid x) w.
Proof.
  intros Ht. unfold conclude. apply wp_bind. eapply wp_keeps; [kept|]. intros [pf|x] w1 _; [|done]. cbv zeta.
  apply wp_bind, wp_of_result; [intros r Hr|by intros]. destruct (seal _ _) as [r0|] eqn:Hs; [|done]. injection Hr as ->.
  apply seal_spec in Hs as [_ Hp]. cbn in Hp. setoid_rewrite Ht in Hp. apply wp_bind, wp_or_else, wp_tx; [done|]. intros g _.
  destruct (Results.save_result _ _ _) as [[[]|x] s'] eqn:Hv; [|done]. cbn [fst snd map_err].
  assert (H1 : told (set_store s' (set_reg g w1)) tid r).
  { destruct (save_stored (store w1) tid (Seal.encode_to_vec r)) as [H1 H2]; [by rewrite Hv|]. rewrite Hv in H2. done. }
  apply wp_bind. eapply (wp_keeps evolves); [kept|]. intros [?|?] w2 He; [|done]. apply wp_ret. intros ? [= <-]. by eapply told_evolves.
Qed.

Lemma recovery_receipt_task tid zid req policy controls p :
  Seal.recovery_receipt tid zid req policy controls = Ok p -> Results.task_id p = tid.
Proof.
  unfold Seal.recovery_receipt. destruct (Seal.policy_sha256 _); [|done]. cbn. destruct (Seal.sha256_json _); [|done]. cbn. by intros [= <-].
Qed.

(** Before execution, and from then on. *)
Definition before (id : string) (w : World) : Prop := core w /\ attempted w = false /\ id ∉ executed w.
Definition begun (id : string) (w : World) : Prop := core w /\ attempted w = true /\ id ∈ executed w.
Lemma before_still id w w' : still w w' -> before id w -> before id w'.
Proof. intros Hs (H1 & H2 & H3). split; [by eapply still_core|]. destruct Hs as (_ & E1 & E2). by rewrite E1, E2. Qed.
Lemma begun_evolves id w w' : evolves w w' -> begun id w -> begun id w'.
Proof. intros Hs [H1 H2]. split; [by eapply core_evolves|]. destruct Hs as (E1 & E2 & _). by rewrite E1, E2. Qed.

(** The record that is left is the task's. *)
Lemma execute_record polls tid zn zid req rec w :
  wp (execute_task polls tid zn zid req rec) (fun r _ => forall o rec', r = Ok (o, rec') -> Results.task_of rec' = Results.task_of rec) w.
Proof.
  unfold execute_task. apply wp_bind, (wp_keeps (fun _ _ => True)); [by intros ?|]. intros [[]|x] w1 _; [|done].
  apply wp_bind, (wp_keeps (fun _ _ => True)); [by intros ?|]. intros [[c|e]|x] w2 _; [|by apply wp_ret; intros ? ? [= _ <-]|done].
  apply wp_bind, (wp_keeps (fun _ _ => True)); [by intros ?|]. intros [d|x] w3 _; [|done]. cbv zeta.
  apply wp_bind, (wp_keeps (fun _ _ => True)); [by intros ?|]. intros [r|x] w4 _; [|done]. apply wp_ret. by intros ? ? [= _ <-].
Qed.

Lemma execute_spec polls tid zn zid req rec w : core w -> attempted w = true -> safe (store w) tid -> tid ∉ executed w ->
  wp (execute_task polls tid zn zid req rec) (fun r w' => core w' /\ attempted w' = true /\ (is_ok r = true -> tid ∈ executed w')) w.
Proof.
  intros Hc Ha Hs Hn. unfold execute_task. apply wp_bind, wp_memory; [done|]. intros _.
  apply (wp_keeps evolves); [kept; cbv zeta; kept|]. intros r w' He.
  assert (Hb : begun tid w'); [|by destruct Hb as (? & ? & ?)].
  eapply begun_evolves; [exact He|]. split_and!; [|done|apply elem_of_app; right; by apply list_elem_of_singleton].
  destruct Hc as [H1 H2 H3]. split; cbn; [|intros id [Hin|Hin]%elem_of_app; [auto|apply list_elem_of_singleton in Hin as ->; done]|done].
  apply NoDup_app. split_and!; [done| |apply NoDup_singleton]. intros x Hx ->%list_elem_of_singleton. done.
Qed.

(** Where a run ends: its task was begun, or it never will be, or the daemon is dead. *)
Definition ended (id : string) (w : World) : Prop := core w /\ (dead w = true \/ attempted w = true \/ before id w).
Lemma before_ended id w : before id w -> ended id w.
Proof. intros Hb. split; [apply Hb|auto]. Qed.
Lemma begun_ended id w : begun id w -> ended id w.
Proof. intros Hb. split; [apply Hb|right; left; apply Hb]. Qed.

Lemma run_reserved_spec polls id req w : before id w ->
  wp (run_reserved polls id req) (fun r w' => ended id w' /\ forall x, r = Ok x -> begun id w' /\ told w' id x) w.
Proof.
  intros Hb. unfold run_reserved.
  assert (Hfail : forall e w w', still w w' -> before id w ->
    ended id w' /\ forall x, Err e = (Ok x : result SandboxResult Status) -> begun id w' /\ told w' id x)
    by (intros e w1 w2 H1 H2; split; [by apply before_ended, (before_still _ w1)|done]).
  apply wp_bind. apply (wp_keeps still); [kept|]. intros [[zone temp]|x] w1 H1; [|by apply (Hfail _ w)].
  apply (before_still _ _ _ H1) in Hb. cbv zeta. clear w H1.
  apply wp_bind. apply (wp_keeps still); [kept|]. intros [[]|x] w2 H2; [|by apply (Hfail _ w1)].
  apply (before_still _ _ _ H2) in Hb. clear w1 H2.
  apply wp_bind. apply (wp_keeps still); [kept|]. intros [report|x] w3 H3; [|by apply (Hfail _ w2)].
  apply (before_still _ _ _ H3) in Hb. clear w2 H3.
  apply wp_bind. apply (wp_keeps still); [kept|]. intros [[]|x] w4 H4; [|by apply (Hfail _ w3)].
  apply (before_still _ _ _ H4) in Hb. clear w3 H4.
  apply wp_bind, wp_of_result; [intros payload Hp|intros e _; by apply (Hfail _ w4)].
  apply wp_bind, wp_of_result; [intros [] _|intros e _; by apply (Hfail _ w4)].
  destruct (Seal.recovery_receipt _ _ _ _ _) as [p|] eqn:Hr; [|done]. injection Hp as ->. apply recovery_receipt_task in Hr.
  set (rec := Results.mkRecovery _ _ _ _ _ _). assert (Ht : Results.task_of rec = id) by exact Hr.
  apply wp_bind, wp_or_else, wp_tx; [intros x w' Hs; by apply (Hfail _ w4)|]. intros g Hd.
  pose proof (put_onward (store w4) rec) as Hon. pose proof (put_safe (store w4) rec) as Hsafe. rewrite Ht in Hsafe.
  set (w5 := set_store _ _).
  assert (He : evolves w4 w5) by done. destruct Hb as (Hc & Ha & Hn). pose proof (core_evolves _ _ Hc He) as Hc5.
  assert (Hb5 : before id w5) by done.
  destruct (fst (Results.put_recovery (store w4) rec)) as [[]|e]; cbn [map_err]; [|split; [by apply before_ended|done]].
  apply wp_bind, wp_memory; [intros Hdead; split; [by apply before_ended|done]|]. intros _.
  apply wp_bind, wp_or_else.
  eapply wp_mono; [apply wp_and; [apply execute_spec; [by destruct Hc5|done|by apply Hsafe|done]|apply execute_record]|].
  intros [[outcome rec']|x] w6 [(Hc6 & Ha6 & Hin6) Hrec6]; cbn [map_err]; [|split; [split; [done|auto]|done]]. cbv iota.
  pose proof (conj Hc6 (conj Ha6 (Hin6 eq_refl)) : begun id w6) as H6. specialize (Hrec6 _ _ eq_refl). rewrite Ht in Hrec6.
  pose proof (conclude_evolves id (z_name zone) (z_id zone) (Zone.admission (z_policy zone)) req (failed_checks report) outcome rec' w6) as H7.
  pose proof (conclude_told id (z_name zone) (z_id zone) (Zone.admission (z_policy zone)) req (failed_checks report) outcome rec' w6 Hrec6) as H8.
  unfold wp in H7, H8 |- *. pose proof (begun_evolves _ _ _ H7 H6) as H9. split; [by apply begun_ended|]. intros x Hx. auto.
Qed.

Lemma wp_ignored (R : relation World) {A X Y} (c : M X A) w : keeps R c ->
  wp (void (rescue (Y := Y) c)) (fun r w' => r = Ok tt /\ R w w') w.
Proof. intros Hc. unfold void. apply wp_bind, wp_rescue. apply (wp_keeps R); [done|]. intros r w' Hs. by apply wp_ret. Qed.

Lemma dead_drops id w : dead w = true -> snd (drops id w) = w.
Proof.
  intros Hd. unfold drops, gets, bind. destruct (cleanup w) as [z|]; unfold void, rescue, on_reg, step, memory, ret, bind;
    repeat (rewrite Hd; cbn); done.
Qed.

Lemma drops_spec id w : ended id w ->
  wp (drops id) (fun _ w' => core w' /\ idle w' /\ (attempted w = true -> onward (store w) (store w'))) w.
Proof.
  intros [Hc He]. destruct (dead w) eqn:Hd.
  { unfold wp. rewrite dead_drops by done. split_and!; [done|by left|done]. }
  assert (Hb : attempted w = true \/ before id w) by intuition congruence. clear He.
  assert (Hgone : forall w', still w w' -> dead w' = true -> core w' /\ idle w' /\ (attempted w = true -> onward (store w) (store w')))
    by (intros w' H1 H2; split_and!; [by eapply still_core|by left|by destruct H1 as (-> & _)]).
  unfold drops. apply wp_bind, wp_gets. cbv beta zeta. apply wp_bind.
  eapply wp_mono with (Q := fun r w' => r = Ok tt /\ still w w').
  { destruct (cleanup w); [apply wp_ignored; kept|by apply wp_ret]. }
  intros ? w1 [-> H1]. apply wp_bind, wp_memory; [by apply Hgone|]. intros _. set (w2 := set_cleanup None w1).
  assert (H2 : still w w2) by (destruct H1 as (? & ? & ?); done). clearbody w2. clear w1 H1.
  apply wp_bind, wp_gets. apply wp_bind.
  eapply wp_mono with (Q := fun r w' => r = Ok tt /\ core w' /\ (attempted w = true -> onward (store w) (store w'))).
  { destruct (attempted w2) eqn:Ha.
    - apply wp_ret. split_and!; [done|by eapply still_core|by destruct H2 as (-> & _)].
    - destruct Hb as [Hb|Hb]; [destruct H2 as (_ & _ & H2); congruence|]. apply (before_still _ _ _ H2) in Hb.
      unfold void. apply wp_bind, wp_rescue, wp_tx.
      + intros x w' H3. apply wp_ret. split_and!; [done|eapply still_core; [done|apply Hb]|].
        intros Ha'. destruct H2 as (_ & _ & H2). congruence.
      + intros g _. apply wp_ret. split_and!; [done|apply delete_core; apply Hb|].
        intros Ha'. destruct H2 as (_ & _ & H2). congruence. }
  intros ? w3 (-> & H3 & H4). apply wp_memory; [intros Hd3; split_and!; [done|by left|done]|]. intros _.
  split_and!; [|by right|done]. by destruct H3.
Qed.

(** ** The claims *)

Definition sound (w : World) : Prop := core w /\ idle w.
Lemma sound_still w w' : still w w' -> dead w = false \/ w' = w -> sound w -> sound w'.
Proof.
  intros Hs Hd [H1 H2]. destruct Hd as [Hd| ->]; [|by split]. split; [by eapply still_core|].
  destruct H2 as [H2|H2]; [congruence|]. right. by destruct Hs as (_ & _ & ->).
Qed.

Definition listed (w w' : World) : Prop := executed w' = executed w.
#[local] Instance listed_preorder : PreOrder listed.
Proof. unfold listed. split; [by intros w|]. intros w1 w2 w3 H1 H2. congruence. Qed.
Lemma drops_listed id : keeps listed (drops id).
Proof.
  assert (Hs : forall A X (c : M X A), keeps still c -> keeps listed c)
    by (intros A X c Hc; eapply keeps_mono; [exact Hc|]; by intros w w' (_ & ? & _)).
  assert (Hm : forall X f (err : string -> X), (forall w, listed w (f w)) -> keeps listed (memory f err))
    by (intros X f err Hf w; unfold wp, memory; destruct (dead w); [done|apply Hf]).
  unfold drops. apply keeps_bind; [apply _|kept|]. intros zone. apply keeps_bind; [apply _|apply Hs; unfold void; kept|]. intros _.
  apply keeps_bind; [apply _|by apply Hm|]. intros _. apply keeps_bind; [apply _|kept|]. intros b.
  apply keeps_bind; [apply _| |intros _; by apply Hm].
  destruct b; [kept|]. unfold void. apply keeps_bind; [apply _| |intros ?; kept].
  apply keeps_rescue, tx_fault; [by intros w w' (_ & ? & _)|done].
Qed.

(** A daemon that is dead answers nothing. *)
Lemma dead_run polls req w : dead w = true -> snd (run_owned polls req w) = w /\ is_ok (fst (run_owned polls req w)) = false.
Proof.
  intros Hd. unfold run_owned, bind. destruct (String.eqb _ _); unfold host, step; rewrite ?Hd; [done|]. cbn.
  destruct (validate_sandbox_request req); [|done]. cbn. unfold ensure. destruct (valid_task_id _); [|done]. cbn.
  unfold reserve, tx, bind, step. by rewrite Hd.
Qed.

Lemma run_owned_spec polls req w : sound w ->
  wp (run_owned polls req) (fun r w' => sound w' /\ forall x, r = Ok x ->
    exists id, (rq_task_id req <> "" -> id = rq_task_id req) /\ id ∈ executed w' /\ told w' id x) w.
Proof.
  intros Hw. destruct (dead w) eqn:Hd.
  { unfold wp. destruct (dead_run polls req w Hd) as [-> Hr]. split; [done|]. intros x Hx. by rewrite Hx in Hr. }
  assert (Ha : attempted w = false) by (destruct Hw as [_ [?|?]]; congruence).
  assert (Hok : forall w', still w w' -> sound w') by (intros w' H1; eapply sound_still; eauto).
  unfold run_owned. apply wp_bind.
  eapply wp_mono with (Q := fun r w' => still w w' /\ forall id, r = Ok id -> rq_task_id req <> "" -> id = rq_task_id req).
  { destruct (String.eqb_spec (rq_task_id req) "") as [Hid|Hid]; [|apply wp_ret; split; [done|by intros ? [= <-]]].
    apply (wp_keeps still); [kept|]. by intros r w'. }
  intros [id|e] w1 [H1 Hid]; [|by split; [apply Hok|]]. specialize (Hid _ eq_refl).
  apply wp_bind, wp_of_result; [intros [] _|by split; [apply Hok|]].
  apply wp_bind. unfold ensure. destruct (valid_task_id id); [apply wp_ret|by apply wp_fail; split; [apply Hok|]].
  assert (Ha1 : attempted w1 = false) by (by destruct H1 as (_ & _ & ->)).
  apply wp_bind. eapply wp_mono; [apply reserve_spec; [apply (Hok _ H1)|done]|]. clear dependent w.
  intros [[]|e] w2 (H2 & Ha2 & Hn2); [|by split; [split; [|right]|]]. destruct (Hn2 eq_refl) as [Hn _].
  apply wp_bind, wp_rescue. eapply wp_mono; [by apply run_reserved_spec|]. cbv beta. intros r w3 [H3 Hr].
  apply wp_bind, wp_rescue. eapply wp_mono; [apply wp_and; [by apply (drops_spec id)|apply (drops_listed id)]|]. cbv beta.
  intros r4 w4 [(H4 & H5 & H6) H7]. destruct r as [x|e]; [apply wp_ret|by apply wp_fail; split; [split|]]. split; [by split|].
  intros ? [= <-]. destruct (Hr x eq_refl) as [(_ & Hat & Hin) Ht]. exists id. rewrite H7. split_and!; [done..|].
  destruct Ht as (T1 & T2 & T3). split_and!; [|done..]. specialize (H6 Hat). destruct (Seal.encode_to_vec x) as [|y b]; [done|].
  by apply (on_results _ _ H6).
Qed.

Lemma core_forget id w : core w ->
  core (set_executed (List.filter (fun t => negb (String.eqb t id)) (executed w)) w) /\
  id ∉ executed (set_executed (List.filter (fun t => negb (String.eqb t id)) (executed w)) w).
Proof.
  intros [H1 H2 H3]. split; [split; cbn; [|intros x Hx; apply H2|done]|cbn]. 
  - apply NoDup_ListNoDup, List.NoDup_filter. by apply NoDup_ListNoDup.
  - apply list_elem_of_In, filter_In in Hx as [Hx _]. by apply list_elem_of_In.
  - intros Hx%list_elem_of_In%filter_In. destruct Hx as [_ Hx]. by rewrite String.eqb_refl in Hx.
Qed.

Lemma delete_spec id w : sound w -> wp (delete_sandbox_result id) (fun _ w' => sound w') w.
Proof.
  intros Hw. unfold delete_sandbox_result. apply wp_bind. unfold ensure at 1. destruct (valid_task_id id); [apply wp_ret|by apply wp_fail].
  apply wp_bind, wp_gets. apply wp_bind. unfold ensure at 1. destruct (negb _); [apply wp_ret|by apply wp_fail].
  destruct (dead w) eqn:Hd.
  { unfold wp, bind, internal, or_else, read_tx, tx, step. by rewrite Hd. }
  assert (Hok : forall w', still w w' -> sound w') by (intros w' H1; eapply sound_still; eauto).
  assert (Hcont : forall A (c : M Status A) (k : A -> M Status bool),
    keeps still c -> (forall a w', still w w' -> wp (k a) (fun _ w'' => sound w'') w') ->
    forall w', still w w' -> wp (bind c k) (fun _ w'' => sound w'') w').
  { intros A c k Hc Hk w' H1. apply wp_bind, (wp_keeps still); [done|]. intros [a|e] w'' H2; [apply Hk|apply Hok]; by etransitivity. }
  unfold internal. apply Hcont; [kept| |done]. intros pending w1 H1. apply Hcont; [kept| |done]. clear w1 H1. intros [] w1 H1.
  apply Hcont; [kept| |done]. clear w1 H1. intros cs w1 H1. apply Hcont; [kept| |done]. clear w1 H1. intros [] w1 H1.
  apply wp_bind, wp_or_else, wp_tx; [intros x w2 H2; apply Hok; by etransitivity|]. intros g Hd1. destruct (Hok w1 H1) as [Hc Hi].
  destruct (core_forget id w1 Hc) as [Hc' Hn]. pose proof (delete_core _ id g Hc' Hn) as Hdel. cbn in Hdel.
  unfold Results.delete_result in *. destruct (Results.recovery (store w1) !! id); cbn [fst snd map_err] in *;
    [by apply (sound_still w1); [done|left|split]|].
  apply wp_bind, wp_memory; [cbn; congruence|]. intros _. apply wp_ret. split; [done|]. right.
  destruct Hi as [Hi|Hi]; [congruence|done].
Qed.

Lemma get_spec id w : sound w -> wp (get_sandbox_result id) (fun _ w' => sound w') w.
Proof.
  intros Hw. destruct (dead w) eqn:Hd.
  { unfold wp, get_sandbox_result, bind, ensure. destruct (valid_task_id id); [|done]. cbn.
    unfold internal, or_else, read_tx, tx, step. by rewrite Hd. }
  apply (wp_keeps still); [unfold get_sandbox_result, internal; kept|]. intros r w' H1. eapply sound_still; eauto.
Qed.

Lemma serve_sound q w : sound w -> sound (snd (serve q w)).
Proof.
  intros Hw. destruct q as [polls req|id|id]; unfold serve, void; apply (wp_bind _ _ (fun _ w' => sound w')).
  - eapply wp_mono; [by apply run_owned_spec|]. by intros [?|?] w' [? _].
  - eapply wp_mono; [by apply get_spec|]. by intros [?|?] w' ?.
  - eapply wp_mono; [by apply delete_spec|]. by intros [?|?] w' ?.
Qed.

(** ** Recovery *)

(** What is told of an interrupted task. *)
Definition uncertain (id : string) (r : SandboxResult) : Prop :=
  Seal.task_id r = id /\ Seal.status r = "runtime_error" /\ Seal.exit_code r = None /\
  "execution.outcome_unknown" ∈ Seal.capture_issues r /\ exists p, Seal.covers key r p.

Definition recovered (s : Results.MetadataStore) (id : string) : Prop :=
  exists r, Results.results s !! id = Some (Seal.encode_to_vec r) /\ Seal.encode_to_vec r <> [] /\ uncertain id r.

(** Recovery leaves a result alone, or commits one that claims nothing for a
    reservation; it writes no record. *)
Definition settles (w w' : World) : Prop :=
  executed w' = executed w /\ attempted w' = attempted w /\
  (forall id, Results.results (store w') !! id = Results.results (store w) !! id \/
     (Results.results (store w) !! id = Some [] /\ recovered (store w') id)) /\
  (forall id b, Results.recovery (store w') !! id = Some b -> Results.recovery (store w) !! id = Some b) /\
  (forall id, safe (store w) id -> safe (store w') id).
#[local] Instance settles_preorder : PreOrder settles.
Proof.
  split; [intros w; split_and!; auto|]. intros w1 w2 w3 (A1 & A2 & A3 & A4 & A5) (B1 & B2 & B3 & B4 & B5).
  split_and!; [congruence|congruence| |auto|auto]. intros id.
  destruct (A3 id) as [HA|[HA HA']], (B3 id) as [HB'|[HB' HB'']]; [left; congruence|right; split; congruence|right; split; [done|]|].
  - destruct HA' as (r & Hr & ?). exists r. by rewrite HB'.
  - destruct HA' as (r & Hr & Hne & _). congruence.
Qed.
Lemma still_settles w w' : still w w' -> settles w w'.
Proof. intros (H1 & H2 & H3). unfold settles. rewrite H1. split_and!; auto. Qed.
Lemma keeps_settles {A X} (c : M X A) : keeps still c -> keeps settles c.
Proof. intros Hc. by eapply keeps_mono; [done|apply still_settles]. Qed.
Lemma finish_settles {X} id (err : string -> X) : keeps settles (tx (fun s => Results.finish_recovery s id) err).
Proof.
  apply tx_fault; [apply still_settles|]. intros w e. pose proof (on_safe _ _ (finish_onward (store w) id)) as Hs.
  unfold Results.finish_recovery in *. destruct (Results.results (store w) !! id) as [[|]|]; cbn in *; split_and!; cbn; auto.
  intros id1 b1. destruct (decide (id1 = id)) as [->|]; [by rewrite lookup_delete_eq|by rewrite lookup_delete_ne].
Qed.
#[local] Hint Resolve finish_settles settles_preorder : keeps.
#[local] Hint Extern 3 (keeps settles _) => apply keeps_settles; solve [kept] : keeps.

Lemma cleanup_settles r : keeps settles (cleanup_recovered_task r).
Proof. unfold cleanup_recovered_task, state_of. kept. Qed.

Lemma save_settles {X} r id (err : string -> X) : uncertain id r ->
  keeps settles (tx (fun s => Results.save_result s id (Seal.encode_to_vec r)) err).
Proof.
  intros Hu. apply tx_fault; [apply still_settles|]. intros w e.
  pose proof (on_safe _ _ (save_onward (store w) id (Seal.encode_to_vec r))) as Hs.
  pose proof (save_stored (store w) id (Seal.encode_to_vec r)) as Hv.
  unfold Results.save_result in *. destruct (negb _); [apply still_settles; done|].
  destruct (Results.results (store w) !! id) as [[|]|] eqn:Hr; [|apply still_settles; done..]. cbn in *. destruct (Hv eq_refl) as [Hne Hv'].
  split_and!; cbn; auto. intros id1. destruct (decide (id1 = id)) as [->|]; [|left; by rewrite lookup_insert_ne].
  right. split; [done|]. by exists r.
Qed.

Lemma sealed_uncertain record t out err issues p r :
  seal (interrupted record t out err issues) p = Ok r -> uncertain (Results.task_of record) r.
Proof.
  intros [[Hs _ _ _ Hi] (p' & Hp & _)]%seal_spec. destruct Hs as (E1 & _ & _ & E4 & E5 & _).
  split_and!; [done..| |by exists p']. apply Hi. cbn. right. left.
Qed.

Lemma recover_result_settles record : keeps settles (recover_result record).
Proof.
  intros w. unfold recover_result. apply wp_bind, (wp_keeps settles); [apply keeps_settles; kept|]. intros [cs|x] w1 H1; [|done].
  apply wp_bind, (wp_keeps settles); [apply keeps_settles; kept|]. intros [t|x] w2 H2; [|by etransitivity].
  assert (H02 : settles w w2) by (by etransitivity). clear w1 H1 H2. apply wp_bind.
  eapply wp_mono with (Q := fun r w' => settles w w' /\ forall x, r = Ok x -> exists out err issues, x = interrupted record t out err issues).
  { destruct cs as [|c cs].
    - apply wp_ret. split; [done|]. intros ? [= <-]. eauto.
    - apply wp_bind, (wp_keeps settles); [apply keeps_settles; kept|]. intros [[]|x] w3 H3; [|split; [by etransitivity|done]].
      apply wp_bind, (wp_keeps settles); [apply keeps_settles; kept|]. intros [files|x] w4 H4; [|split; [etransitivity; [done|by etransitivity]|done]].
      cbv zeta. apply wp_ret. split; [etransitivity; [done|by etransitivity]|]. intros ? [= <-]. eauto. }
  intros [r|x] w3 [H3 Hr]; [|done]. destruct (Hr r eq_refl) as (out & err & issues & ->).
  apply wp_bind, wp_of_result; [|done]. intros r Hs. apply (wp_keeps settles); [by apply save_settles, (sealed_uncertain _ _ _ _ _ _ _ Hs)|].
  intros _ w4 H4. by etransitivity.
Qed.
#[local] Hint Resolve cleanup_settles recover_result_settles : keeps.

Lemma recover_task_settles record : keeps settles (recover_task record).
Proof. unfold recover_task. cbv zeta. kept. Qed.

(** Once its record is gone through, a task has none. *)
Lemma recover_task_done record w :
  wp (recover_task record) (fun r w' => r = Ok tt -> Results.recovery (store w') !! Results.task_of record = None) w.
Proof.
  unfold recover_task. cbv zeta. do 3 (apply wp_bind, (wp_keeps (fun _ _ => True)); [by intros ?|]; intros [?|?] ? _; [|done]).
  unfold cleanup_recovered_task. do 3 (apply wp_bind, (wp_keeps (fun _ _ => True)); [by intros ?|]; intros [?|?] ? _; [|done]).
  apply wp_tx; [done|]. intros g _. unfold Results.finish_recovery. destruct (Results.results _ !! _) as [[|]|]; cbn; [done| |done].
  intros _. by rewrite lookup_delete_eq.
Qed.

(** The records that are read are the table's. *)
Lemma decode_records_of es rs : Results.decode_records es = Ok rs ->
  forall id b, (id, b) ∈ es -> exists r, r ∈ rs /\ Results.task_of r = id.
Proof.
  revert rs. induction es as [|[id0 b0] es IH]; intros rs Hd id b Hin; [by apply elem_of_nil in Hin|]. cbn in Hd.
  destruct (Results.from_slice b0) as [r0|]; [|done]. cbn in Hd. destruct (String.eqb_spec id0 (Results.task_of r0)) as [Hid|]; [|done].
  cbn in Hd. destruct (Results.decode_records es) as [rs'|]; [|done]. cbn in Hd. injection Hd as <-.
  apply elem_of_cons in Hin as [[= -> ->]|Hin]; [exists r0; split; [by left|done]|].
  destruct (IH rs' eq_refl id b Hin) as (r & Hr & ?). exists r. split; [by right|done].
Qed.
Lemma recovery_records_of s rs id b : Results.recovery_records s = Ok rs -> Results.recovery s !! id = Some b ->
  exists r, r ∈ rs /\ Results.task_of r = id.
Proof.
  intros Hd Hb. apply (decode_records_of _ _ Hd id b). rewrite Results.entries_perm. by apply elem_of_map_to_list.
Qed.

Lemma for_each_spec rs w :
  wp (for_each recover_task rs) (fun x w' => settles w w' /\
    (x = Ok tt -> forall r, r ∈ rs -> Results.recovery (store w') !! Results.task_of r = None)) w.
Proof.
  apply wp_and; [by apply (keeps_for_each settles), recover_task_settles|].
  revert w. induction rs as [|r rs IH]; intros w; cbn [for_each]; [by apply wp_ret; intros _ r ?%elem_of_nil|].
  apply wp_bind. eapply wp_mono; [apply recover_task_done|]. intros [[]|x] w1 H1; [|done].
  eapply wp_mono; [apply wp_and; [apply IH|by apply (keeps_for_each settles), recover_task_settles]|].
  intros x w2 [H2 (_ & _ & _ & H3 & _)] Hx r1 [->|Hr]%elem_of_cons; [|by apply H2].
  destruct (Results.recovery (store w2) !! Results.task_of r) as [b|] eqn:Hb; [|done]. rewrite (H3 _ _ Hb) in H1. by specialize (H1 eq_refl).
Qed.

Lemma recover_tasks_evolves : keeps evolves recover_tasks.
Proof.
  unfold recover_tasks. kept. unfold recover_task. cbv zeta. kept.
  unfold recover_result. kept; cbv zeta; kept.
Qed.

Lemma start_settles w : settles w (snd (start w)).
Proof.
  apply (wp_keeps settles start (fun _ w' => settles w w')); [|auto]. unfold start, recover_tasks. kept. apply recover_task_settles.
Qed.

Lemma reachable_sound w up : reachable w up -> sound w.
Proof.
  induction 1 as [g|w up b e _ [IH _]|w q _ IH]; [|..|by apply serve_sound].
  - split; [|by left]. split; cbn; [constructor|by intros id ?%elem_of_nil|by intros id b].
  - assert (He : evolves (fresh b e w) (snd (start (fresh b e w)))).
    { apply (wp_keeps evolves start (fun _ w' => evolves (fresh b e w) w')); [|auto]. unfold start. kept. apply recover_tasks_evolves. }
    split; [|right; by destruct He as (_ & -> & _)]. eapply core_evolves; [|exact He]. by destruct IH.
Qed.

(** C4. Whenever the daemon is killed and whatever the database refuses, a task whose
    execution was begun was begun once, and is not lost: its result is committed, or
    its reservation is still there with a record of it to recover from - until its
    result is deleted. *)
Theorem executed_task_is_never_lost w up : reachable w up ->
  NoDup (executed w) /\ forall id, id ∈ executed w -> safe (store w) id.
Proof. by intros [[H1 H2 _] _]%reachable_sound. Qed.

(** A run that answers answers what is stored: under the task's id the very bytes
    of the result that is returned, with receipts of that task signed over it, and the
    task among those that were executed. *)
Theorem answered_result_is_stored w polls req r w' : reachable w true -> run_owned polls req w = (Ok r, w') ->
  exists id, (rq_task_id req <> "" -> id = rq_task_id req) /\ id ∈ executed w' /\
    Results.get_result (store w') id = Some (Seal.encode_to_vec r) /\
    exists p, Seal.covers key r p /\ Results.task_id p = id.
Proof.
  intros Hw%reachable_sound Hr. pose proof (run_owned_spec polls req w Hw) as H1. unfold wp in H1. rewrite Hr in H1.
  destruct (proj2 H1 r eq_refl) as (id & H2 & H3 & H4 & _ & H5). by exists id.
Qed.

(** C5. When a daemon starts after whatever happened to the last one, and recovery
    succeeds, nothing is left to recover and nothing was executed again: every result
    that was committed is untouched, and a task that was executed without one has one
    now, that says it is a runtime error of unknown outcome and is signed as such. *)
Theorem recovery_settles_every_task w up b e w' : reachable w up -> start (fresh b e w) = (Ok tt, w') ->
  Results.recovery (store w') = ∅ /\ executed w' = executed w /\
  (forall id x bs, Results.get_result (store w) id = Some (x :: bs) -> Results.get_result (store w') id = Some (x :: bs)) /\
  (forall id, id ∈ executed w ->
     committed (store w') id /\ (Results.get_result (store w) id = Some [] -> recovered (store w') id)).
Proof.
  intros [Hc _]%reachable_sound Hst. pose proof (start_settles (fresh b e w)) as Hset. rewrite Hst in Hset. cbn [snd] in Hset.
  assert (Hempty : Results.recovery (store w') = ∅).
  { apply map_empty. intros id.
    assert (Hw : wp start (fun x w2 => x = Ok tt -> Results.recovery (store w2) !! id = None) (fresh b e w));
      [|unfold wp in Hw; rewrite Hst in Hw; by apply Hw].
    unfold start. apply wp_bind, (wp_keeps still); [kept|]. intros [[]|x] w1 _; [|done]. unfold recover_tasks.
    apply wp_bind. unfold read_tx. apply wp_tx; [done|]. intros g _. cbn [fst snd].
    destruct (Results.recovery_records (store w1)) as [rs|x] eqn:Hrs; [|done]. cbn [map_err].
    eapply wp_mono; [apply for_each_spec|]. intros x w2 [(_ & _ & _ & Hsub & _) Hdone] Hx.
    destruct (Results.recovery (store w2) !! id) as [b2|] eqn:Hb2; [|done]. exfalso.
    destruct (recovery_records_of _ _ id b2 Hrs (Hsub _ _ Hb2)) as (r & Hr & Hid).
    specialize (Hdone Hx r Hr). rewrite Hid in Hdone. congruence. }
  destruct Hset as (H1 & _ & H2 & _ & H3). cbn in H1, H2, H3. unfold Results.get_result. split_and!; [done..| |].
  - intros id x bs Hb. destruct (H2 id) as [->|[H4 _]]; congruence.
  - intros id Hin. destruct (H3 id (core_safe _ Hc id Hin)) as [Hcom|[_ (b1 & r1 & Hb1 & _)]]; [|by rewrite Hempty in Hb1].
    split; [done|]. intros Hr. destruct (H2 id) as [H4|[_ H4]]; [|done]. destruct Hcom as (x & bs & Hcom). congruence.
Qed.

End Tasks.

(** ** A task that is killed, and recovered

    The host is a number: how many steps the daemon has left.  Its tables know the
    zone and the container of one task. *)
Module Demo.
#[local] Existing Instance Receipts.Demo.ed.
#[local] Existing Instance Receipts.Demo.encodings.
#[local] Existing Instance Receipts.Demo.sha.
#[local] Existing Instance Seal.Demo.rjson.
#[local] Existing Instance Seal.Demo.wire.
#[local] Existing Instance Seal.Demo.result_json.
#[local] Existing Instance MapManager.ideal_host.

Definition zone : Zone := mkZone "i" "sandbox-one" NonGlobal Ready Zone.ZonePolicy_default 0 0 None.
Definition container (k : Z) : Container :=
  mkContainer "c" "task-1-task" "i" "alpine" (if (k =? 0)%Z then Created else if (k =? 1)%Z then Running else Stopped)
    (Some 42%Z) 0 None None (if (k =? 2)%Z then Some 0%Z else None).
#[local] Instance codec : Metadata.Postcard := {|
  Metadata.zone_to_vec _ := Ok [0%Z]; Metadata.zone_from_bytes _ := Ok zone;
  Metadata.container_to_vec c := Ok [match c_state c with Created => 0 | Running => 1 | _ => 2 end%Z];
  Metadata.container_from_bytes b := match b with [k] => Ok (container k) | _ => Err "bad container" end |}.

#[local] Instance backend : IsolationBackend unit := {|
  Backend.create_zone c b := (Ok (mkHandle "i" (cf_name c) 7 None), b);
  Backend.destroy_zone h b := (Ok tt, b); Backend.enforce_policy h p b := (Ok tt, b);
  Backend.hot_reload_policy h p b := (Ok tt, b); Backend.create_container h s b := (Ok (mkCHandle "c" (h_id h) 0 0), b);
  Backend.start_container h b := (Ok 42%Z, b); Backend.stop_container h b := (Ok tt, b);
  Backend.zone_stats h b := (Err (BackendError "none"), b);
  Backend.verify_isolation h b := (Ok (mkReport (h_id h) Backend.SyscallPolicy true []), b);
  Backend.recover_zone h t p b := (Ok tt, b); Backend.cleanup_orphans hs b := (Ok tt, b);
  isolation_model := Backend.SyscallPolicy; name := "demo"; enforcement_degraded_reason b := None;
  Backend.kernel_zone_id h b := None; Backend.shim_request n r b := (Ok ROk, b) |}.

#[local] Instance env : Registry.Env nat := {|
  Registry.redb e := (None, e); Registry.now e := (0%Z, e); Registry.remove_dir_all _ e := (Ok tt, e);
  Registry.unmount_overlay _ _ e := (Ok tt, e); Registry.kill0 _ e := (None, e); Registry.read_to_string _ e := (None, e);
  Registry.stat_ino _ e := (Ok 7%Z, e); Registry.path_exists _ e := (true, e); Registry.connect _ e := (Ok tt, e);
  Registry.write_all _ _ e := (Ok tt, e); Registry.flush _ e := (Ok tt, e);
  Registry.read_stream _ e := ([1; 0; 0; 0; 0]%Z, e); Registry.to_allocvec _ := Ok [];
  Registry.from_bytes _ := Ok (RState 42 "stopped" (Some 0%Z)); Registry.shim_io_text _ := ""; Registry.debug_response _ := "";
  Registry.image_safe_name _ e := (Ok "", e); Registry.layer_digests _ e := (Ok ([], ""), e);
  Registry.prepare_layers _ _ _ _ e := (Ok [], e) |}.
#[local] Instance task_host : TaskHost nat := {|
  killed e := match e with S e => (false, e) | O => (true, O) end;
  new_uuid e := ("one", e); parse_uuid s := Some s; image_digest _ e := (Ok "sha256:abc", e);
  log_files e := (fun _ => Logs.mkFile false None, e); instant e := (0%Z, e); sleep _ e := e; received e := ([], e);
  rfc3339 _ := "now"; parse_rfc3339 _ := None |}.
#[local] Instance decisions : Logs.DecisionJson := {| Logs.decision_of_json _ := Err "bad" |}.
#[local] Instance event_host : Evidence.EventHost :=
  {| Evidence.now_rfc3339 := "now"; Evidence.hostname := None; Evidence.rfc3339_millis _ := None |}.

Definition req : RunSandboxRequest := Seal.mkRequest "alpine" ["true"] "" "" "" false 0 [] false "task-1".


#[local] Instance image_eq_dec : EqDecision Results.ImageAdmission.
Proof. solve_decision. Defined.
#[local] Instance totals_eq_dec : EqDecision Results.EnforcementTotals.
Proof. solve_decision. Defined.
#[local] Instance receipt_eq_dec : EqDecision Results.ExecutionReceiptPayload.
Proof. solve_decision. Defined.
#[local] Instance record_eq_dec : EqDecision RecoveryRecord.
Proof. solve_decision. Defined.

(** The record before the container is there, and after. *)
Definition record (cid : option string) (digest : string) : RecoveryRecord :=
  Results.mkRecovery "sandbox-one" cid true ["true"] Zone.Strict
    (Results.mkReceipt Receipts.EXECUTION_RECEIPT_SCHEMA "task-1" "i" (Results.mkImage "alpine" digest false) ""
       "task-1,alpine,,,,,,strict" "" "" None None None (Results.mkTotals 0 0 0 0) [] []).
#[local] Instance record_codec : Results.RecordCodec := {|
  Results.to_vec r := if bool_decide (r = record None "") then Ok [0%Z]
                      else if bool_decide (r = record (Some "c") "sha256:abc") then Ok [1%Z] else Err "unsupported";
  Results.from_slice b := match b with [0%Z] => Ok (record None "") | [1%Z] => Ok (record (Some "c") "sha256:abc") | _ => Err "bad" end |}.
#[local] Instance record_laws : Results.RecordCodecLaws record_codec.
Proof. intros r b. cbn. do 2 (case_bool_decide; [intros [= <-]; by subst|]). done. Qed.

Definition paths : Registry.Paths := Registry.mkPaths "/var/lib/rauha" "/run/rauha".
Notation start := (start paths 1024 "key" id).
Notation serve := (serve paths Results.MAX_RESULT_BYTES 1024 "key" true id).
Notation reachable := (reachable paths Results.MAX_RESULT_BYTES 1024 "key" true id).
Notation run_owned := (run_owned paths Results.MAX_RESULT_BYTES 1024 "key" true id).

Definition w0 : World (B := unit) (E := nat) :=
  mkWorld (Registry.mkWorld ∅ ∅ ∅ ∅ tt 0%nat) Results.empty_store ∅ false None true [].
(** Started, with [n] steps to live; then the task. *)
Notation up n := (snd (start (fresh tt n%nat w0))).
Notation after n := (snd (serve (Run 1 req) (up n))).

Lemma up_reachable n : is_ok (fst (start (fresh tt n w0))) = true -> reachable (up n) true.
Proof.
  intros H. pose proof (reach_start paths Results.MAX_RESULT_BYTES 1024 "key" true id w0 false tt n (reach_init _ _ _ _ _ _ _)) as Hs.
  rewrite H in Hs. exact Hs.
Qed.

(** Killed while the container ran. *)
Lemma executed_task_is_never_lost_witness :
  executed (after 15) = ["task-1"] /\ safe (store (after 15)) "task-1".
Proof.
  assert (H : executed (after 15) = ["task-1"]) by (vm_compute; reflexivity). split; [exact H|].
  apply (executed_task_is_never_lost (CL := record_laws) paths Results.MAX_RESULT_BYTES 1024 "key" true id (after 15) true).
  - apply reach_serve. apply up_reachable. vm_compute. reflexivity.
  - rewrite H. left.
Defined.

Lemma answered_result_is_stored_witness :
  exists r, fst (run_owned 1 req (up 100)) = Ok r /\ Seal.status r = "succeeded" /\
    Results.get_result (store (snd (run_owned 1 req (up 100)))) "task-1" = Some (Seal.encode_to_vec r).
Proof.
  destruct (run_owned 1 req (up 100)) as [x w'] eqn:Hr. destruct x as [r|e]; [|exfalso; vm_compute in Hr; discriminate Hr].
  exists r. split; [reflexivity|]. split; [vm_compute in Hr; injection Hr as <- _; reflexivity|].
  destruct (answered_result_is_stored (CL := record_laws) paths Results.MAX_RESULT_BYTES 1024 "key" true id (up 100) 1 req r w')
    as (i & Hi & _ & Hg & _); [apply up_reachable; vm_compute; reflexivity|exact Hr|].
  rewrite Hi in Hg by (intros H; discriminate H). exact Hg.
Defined.

(** The next daemon finds the reservation and its record. *)
Lemma recovery_settles_every_task_witness :
  exists w', start (fresh tt 100%nat (after 15)) = (Ok tt, w') /\ Results.recovery (store w') = ∅ /\
    recovered "key" (store w') "task-1".
Proof.
  destruct (start (fresh tt 100%nat (after 15))) as [x w'] eqn:Hr.
  destruct x as [[]|e]; [|exfalso; vm_compute in Hr; discriminate Hr].
  assert (Hw : reachable (after 15) true) by (apply reach_serve, up_reachable; vm_compute; reflexivity).
  destruct (recovery_settles_every_task (CL := record_laws) paths Results.MAX_RESULT_BYTES 1024 "key" true id (after 15) true tt 100%nat w' Hw Hr)
    as (H1 & _ & _ & H2).
  exists w'. split; [reflexivity|]. split; [exact H1|]. apply (H2 "task-1").
  - assert (H : executed (after 15) = ["task-1"]) by (vm_compute; reflexivity). rewrite H. left.
  - vm_compute. reflexivity.
Defined.
End Demo.
End Tasks.
