(* ===== verification/Events.v ===== *)
(** * Enforcement events, from the kernel to the reader of a result

    [rauhad/src/backend/linux/events.rs]: the records the LSM programs leave in the ring
    buffer, read back from their bytes, become evidence events and are broadcast; and
    [watch_events] of [rauhad/src/server.rs], which tells them to a client.  A task's
    result takes them from the same broadcast ([Tasks.drain_enforcement_capture]).

    The broadcast channel is a library; [delivers] is what it documents: a receiver gets
    what was sent, in order, and is told the number of the oldest ones it missed. *)

From stdpp Require Import base gmap strings list.
From Stdlib Require Import ZArith Ascii String Lia.
From S2P Require Import Prelude.
From S2P Require Import RustStr.
From S2P Require Import Zone.
From S2P Require Import Kernel.
From S2P Require Import Broker.
From S2P Require Import Logs.
From S2P Require Import Evidence.
From S2P Require Import Tasks.
Open Scope string_scope.

Module Events.
Import Evidence.

Definition HOOK_NAMES : list string :=
  ["file_open"; "bprm_check"; "ptrace_access_check"; "task_kill"; "cgroup_attach_task"; "capable"; "socket_connect"].

Definition DECISION_ALLOW : Z := 0.

(** ** Records in the ring ([#[repr(C)] EnforcementEvent]) *)

Fixpoint le_of (n : nat) (x : Z) : list Z :=
  match n with O => [] | S n => wrap 8 x :: le_of n (Z.shiftr x 8) end.

Definition record_bytes (ev : Kernel.EnforcementEvent) : list Z :=
  le_of 8 (Kernel.timestamp_ns ev) ++ le_of 4 (Kernel.pid ev) ++ le_of 1 (Kernel.ev_hook ev)
  ++ le_of 1 (Kernel.ev_decision ev) ++ le_of 2 0 ++ le_of 4 (Kernel.caller_zone ev)
  ++ le_of 4 (Kernel.target_zone ev) ++ le_of 8 (Kernel.context ev) ++ le_of 16 0.

(** [size_of::<EnforcementEvent>()]. *)
Definition EVENT_SIZE : nat := 48.

Definition at_offset (off n : nat) (item : list Z) : Z := Broker.le_bytes (take n (drop off item)).
Definition read_unaligned (item : list Z) : Kernel.EnforcementEvent :=
  Kernel.mkEvent (at_offset 0 8 item) (at_offset 8 4 item) (at_offset 12 1 item) (at_offset 13 1 item)
    (at_offset 16 4 item) (at_offset 20 4 item) (at_offset 24 8 item).

(** ** What a record means *)

Definition event_name_for (hook decision : Z) : string :=
  if (decision =? Kernel.DECISION_ERROR)%Z then PIPELINE_SHED
  else if (hook =? Kernel.PROG_FILE_OPEN)%Z then "zone.file.denied"
  else if (hook =? Kernel.PROG_BPRM_CHECK)%Z then "zone.exec.denied"
  else if (hook =? Kernel.PROG_PTRACE_CHECK)%Z then "zone.ptrace.denied"
  else if (hook =? Kernel.PROG_TASK_KILL)%Z then "zone.signal.denied"
  else if (hook =? Kernel.PROG_CGROUP_ATTACH)%Z then "zone.escape.cgroup_attach"
  else if (hook =? Kernel.PROG_SOCKET_CONNECT)%Z then "zone.net.denied"
  else if (hook =? Kernel.PROG_CAPABLE)%Z then "zone.mount.denied"
  else PIPELINE_SHED.

Definition severity_for_event (event_name : string) : Severity :=
  if String.eqb event_name "zone.escape.cgroup_attach" then Error
  else if is_one_of ["zone.file.denied"; "zone.exec.denied"; "zone.ptrace.denied"; "zone.signal.denied";
                     "zone.mount.denied"; "zone.ipc.denied"; "zone.net.denied"] event_name then Warn
  else Info.

Definition resource_for (hook context : Z) : string :=
  if (hook =? Kernel.PROG_FILE_OPEN)%Z || (hook =? Kernel.PROG_BPRM_CHECK)%Z then "inode:" ++ Str.show context
  else if (hook =? Kernel.PROG_CGROUP_ATTACH)%Z then "cgroup:" ++ Str.show context
  else if (hook =? Kernel.PROG_SOCKET_CONNECT)%Z then "socket:" ++ Str.show context
  else "kernel-object:unknown".

Definition decision_name (decision : Z) : string :=
  if (decision =? DECISION_ALLOW)%Z then "allow"
  else if (decision =? Kernel.DECISION_DENY)%Z then "deny"
  else if (decision =? Kernel.DECISION_ERROR)%Z then "error"
  else "unknown".

Definition zone_text (caller_zone : Z) : string :=
  if (caller_zone =? 0)%Z then "zone-unassigned" else "zone-" ++ Str.show caller_zone.

Section Reader.
Context `{Host : EventHost}.

Definition normalize_enforcement_event (ev : Kernel.EnforcementEvent) : FalseEvent :=
  let hook := default "unknown" (nth_error HOOK_NAMES (Z.to_nat (Kernel.ev_hook ev))) in
  let event_name := event_name_for (Kernel.ev_hook ev) (Kernel.ev_decision ev) in
  let level := if (Kernel.ev_decision ev =? Kernel.DECISION_ERROR)%Z then Error else severity_for_event event_name in
  let b := new event_name in
  let b := set_level level b in
  let b := set_zone (zone_text (Kernel.caller_zone ev)) None b in
  let b := set_actor ("pid:" ++ Str.show (Kernel.pid ev)) [] b in
  let b := set_resource (resource_for (Kernel.ev_hook ev) (Kernel.context ev)) b in
  let b := set_resource_attributes (new_attrs BACKEND_LINUX_EBPF) b in
  let b := field "pid" (FU64 (Kernel.pid ev)) b in
  let b := field "hook" (FString hook) b in
  let b := field "decision" (FString (decision_name (Kernel.ev_decision ev))) b in
  let b := field "caller_zone" (FU64 (Kernel.caller_zone ev)) b in
  let b := field "target_zone" (FU64 (Kernel.target_zone ev)) b in
  let b := field "source_timestamp_ns" (FU64 (Kernel.timestamp_ns ev)) b in
  let b := field "context" (FU64 (Kernel.context ev)) b in
  match build b with Ok e => e | Err _ => pipeline_shed_event "normalization_failed" BACKEND_LINUX_EBPF end.

(** What an item shorter than a record becomes. *)
Definition undersized (item : list Z) : list FalseEvent :=
  let b := new PIPELINE_SHED in
  let b := set_level Warn b in
  let b := set_zone "zone-unknown" None b in
  let b := set_resource_attributes (new_attrs BACKEND_LINUX_EBPF) b in
  let b := field "reason" (FString "undersized_enforcement_event") b in
  let b := field "bytes" (FU64 (Z.of_nat (List.length item))) b in
  match build b with Ok e => [e] | Err _ => [] end.

(** The events sent for the items of the ring, which is empty afterwards. *)
Fixpoint drain_events (items : list (list Z)) : list FalseEvent :=
  match items with
  | [] => []
  | item :: items =>
      (if Nat.ltb (List.length item) EVENT_SIZE then undersized item
       else [normalize_enforcement_event (read_unaligned item)]) ++ drain_events items
  end%list.

(** ** Telling a client ([watch_events]) *)

Record ZoneEvent := mkZoneEvent { ze_zone_name : string; ze_event_type : string; ze_message : string; ze_timestamp : string }.

Context (machine_json : FalseEvent -> result string string).

Definition matches_zone (zone_filter : string) (e : FalseEvent) : bool :=
  bool_decide (Evidence.z_name (zone e) = Some zone_filter) || String.eqb (Evidence.z_id (zone e)) zone_filter.

Definition message_of (e : FalseEvent) : string :=
  match machine_json e with
  | Ok text => text
  | Err x => "{" ++ String "034" "event" ++ String "034" ":" ++ String "034" (event e) ++ String "034" ","
             ++ String "034" "serialization_error" ++ String "034" ":" ++ String "034" x ++ String "034" "}"
  end.

Definition told_event (e : FalseEvent) : ZoneEvent :=
  mkZoneEvent (default (Evidence.z_id (zone e)) (Evidence.z_name (zone e))) (event e) (message_of e) (ts e).

Definition lag_event (zone_filter : string) (n : Z) : list ZoneEvent :=
  let b := new PIPELINE_SHED in
  let b := set_level Warn b in
  let b := set_zone (if String.eqb zone_filter "" then "zone-unknown" else zone_filter) None b in
  let b := set_resource_attributes (new_attrs BACKEND_LINUX_EBPF) b in
  let b := field "shed_events" (FU64 n) b in
  let b := field "reason" (FString "watch_subscriber_lagged") b in
  match build b with
  | Ok shed => [mkZoneEvent (Evidence.z_id (zone shed)) (event shed) (message_of shed) (ts shed)]
  | Err _ => []
  end.

(** [room]: how many events the client takes before it is gone. *)
Fixpoint watch (zone_filter : string) (room : nat) (rs : list Tasks.Received) : list ZoneEvent :=
  match rs with
  | [] => []
  | r :: rs =>
      let told := match r with
                  | Tasks.Event e => if negb (String.eqb zone_filter "") && negb (matches_zone zone_filter e) then [] else [told_event e]
                  | Tasks.Lagged n => lag_event zone_filter n
                  end in
      match told, room with
      | [], _ => watch zone_filter room rs
      | _ :: _, O => []
      | _ :: _, S room => told ++ watch zone_filter room rs
      end
  end%list.

End Reader.

(** ** The broadcast *)


(** ** The kernel, the reader and the brokers, over time *)

Section Life.
Context `{Host : EventHost} (offsets : Kernel.Offsets).

Record Life := mkLife { kmaps : Kernel.Maps; sent : list FalseEvent }.

(** A system call of some task, a change of the tables by the daemon, a round of the
    reader, a decision of a broker told by its tailer. *)
Inductive Step :=
| Call (h : Kernel.LsmHook) (ctx : Kernel.Ctx)
| Update (m : Kernel.Maps)
| Drain
| Decide (d : Logs.BrokerDecision) (zone_label : string) (caller_zone : Z).

Definition ring (m : Kernel.Maps) : list (list Z) := map record_bytes (Kernel.ENFORCEMENT_EVENTS m).

Definition take_step (s : Life) (x : Step) : Life :=
  match x with
  | Call h ctx => mkLife (snd (Kernel.run_hook offsets h ctx (kmaps s))) (sent s)
  | Update m => mkLife (Kernel.set_events m (Kernel.ENFORCEMENT_EVENTS (kmaps s))) (sent s)
  | Drain => mkLife (Kernel.set_events (kmaps s) []) (sent s ++ drain_events (ring (kmaps s)))%list
  | Decide d zone_label caller_zone => mkLife (kmaps s) (sent s ++ [broker_decision_event d zone_label caller_zone])%list
  end.

Definition live (steps : list Step) (s : Life) : Life := fold_left take_step steps s.

(** ** What should be told *)

Definition hook_name (h : Kernel.LsmHook) : string :=
  match h with
  | Kernel.HFileOpen => "file_open" | Kernel.HBprmCheck => "bprm_check" | Kernel.HPtraceCheck => "ptrace_access_check"
  | Kernel.HTaskKill => "task_kill" | Kernel.HCgroupAttach => "cgroup_attach_task" | Kernel.HCapable => "capable"
  | Kernel.HSocketConnect => "socket_connect"
  end.

Definition denial_name (h : Kernel.LsmHook) : string :=
  match h with
  | Kernel.HFileOpen => "zone.file.denied" | Kernel.HBprmCheck => "zone.exec.denied" | Kernel.HPtraceCheck => "zone.ptrace.denied"
  | Kernel.HTaskKill => "zone.signal.denied" | Kernel.HCgroupAttach => "zone.escape.cgroup_attach"
  | Kernel.HCapable => "zone.mount.denied" | Kernel.HSocketConnect => "zone.net.denied"
  end.

(** A call of a task of zone [z] that the kernel refuses, or that the audit of connections
    reports, and what becomes of its record: it is in the ring under the zone; the ring had
    no room for it; or the object of the call could not be read and it names no zone. *)
Inductive Fate := InRing | RingFull | Nameless.
#[export] Instance Fate_eq_dec : EqDecision Fate. Proof. solve_decision. Defined.
Definition fate (z : Z) (h : Kernel.LsmHook) (ctx : Kernel.Ctx) (m : Kernel.Maps) : option Fate :=
  if bool_decide (Kernel.confined ctx m = Some z)
     && (bool_decide (h = Kernel.HSocketConnect) || (fst (Kernel.run_hook offsets h ctx m) =? -1)%Z)
  then Some (if negb (Kernel.ring_has_room ctx) then RingFull
             else if negb (bool_decide (h = Kernel.HSocketConnect)) && Kernel.unreadable offsets h ctx m then Nameless
             else InRing)
  else None.

(** One whose record is in the ring. *)
Definition told (z : Z) (h : Kernel.LsmHook) (ctx : Kernel.Ctx) (m : Kernel.Maps) : bool :=
  bool_decide (Kernel.confined ctx m = Some z) && Kernel.ring_has_room ctx
  && (bool_decide (h = Kernel.HSocketConnect)
      || (fst (Kernel.run_hook offsets h ctx m) =? -1)%Z && negb (Kernel.unreadable offsets h ctx m)).

(** What is said of it. *)
Notation Brief := (string * string * string * option Z * option string)%type.
Definition brief_of (z : Z) (h : Kernel.LsmHook) (ctx : Kernel.Ctx) : Brief :=
  (hook_name h, denial_name h, "deny", Some (wrap 32 (Z.shiftr (Kernel.current_pid_tgid ctx) 32)), Some ("zone-" ++ Str.show z)).

(** Everything the kernel refused zone [z], in order, with the fate of its record. *)
Fixpoint refusals (z : Z) (steps : list Step) (s : Life) : list (Fate * Brief) :=
  match steps with
  | [] => []
  | x :: steps =>
      match x with
      | Call h ctx => match fate z h ctx (kmaps s) with Some f => [(f, brief_of z h ctx)] | None => [] end
      | _ => []
      end ++ refusals z steps (take_step s x)
  end%list.
(** Those whose record is in the ring under the zone. *)
Definition on_record (l : list (Fate * Brief)) : list Brief :=
  map snd (List.filter (fun fb => bool_decide (fst fb = InRing)) l).





(** ** Reading back what was written *)



(** A record as its fields fit the bytes. *)
Definition clip (ev : Kernel.EnforcementEvent) : Kernel.EnforcementEvent :=
  Kernel.mkEvent (wrap 64 (Kernel.timestamp_ns ev)) (wrap 32 (Kernel.pid ev)) (wrap 8 (Kernel.ev_hook ev))
    (wrap 8 (Kernel.ev_decision ev)) (wrap 32 (Kernel.caller_zone ev)) (wrap 32 (Kernel.target_zone ev))
    (wrap 64 (Kernel.context ev)).




(** ** What a call leaves in the ring *)






(** ** What a result says of it *)

Section Result.
Context {E : Type} {T : Tasks.TaskHost E}.

Definition of_zone (z : Z) (es : list FalseEvent) : list Tasks.EnforcementSummary :=
  map Tasks.project_enforcement_event (List.filter (fun e => Tasks.enforcement_event_matches e (Some z)) es).


Lemma fields_of_record ev : let e := normalize_enforcement_event ev in
  Tasks.string_field e "hook" = Some (bound_string (default "unknown" (nth_error HOOK_NAMES (Z.to_nat (Kernel.ev_hook ev))))) /\
  Tasks.string_field e "decision" = Some (bound_string (decision_name (Kernel.ev_decision ev))) /\
  Tasks.u64_field e "caller_zone" = Some (Kernel.caller_zone ev) /\
  Tasks.u64_field e "pid" = Some (Kernel.pid ev) /\
  event e = event_name_for (Kernel.ev_hook ev) (Kernel.ev_decision ev) /\
  Evidence.z_id (zone e) = zone_text (Kernel.caller_zone ev).
Proof.
  cbv zeta. unfold Tasks.string_field, Tasks.u64_field, normalize_enforcement_event. cbn -[bound_string nth_error].
  repeat split; repeat (rewrite lookup_insert_eq || rewrite lookup_insert_ne by done); reflexivity.
Qed.










(** ** Over time *)

















End Result.

(** Records name a zone by its kernel id only, so a client that watches a zone by the name
    it was created with is told none of them. *)
Lemma named_watch_misses_denials machine_json zone_filter room ev rs :
  zone_filter <> "" -> zone_filter <> zone_text (wrap 32 (Kernel.caller_zone ev)) ->
  watch machine_json zone_filter room (Tasks.Event (normalize_enforcement_event (clip ev)) :: rs) =
  watch machine_json zone_filter room rs.
Proof.
  intros Hne Hz. cbn [watch]. destruct (fields_of_record (clip ev)) as (_ & _ & _ & _ & _ & Hid).
  assert (Hm : matches_zone zone_filter (normalize_enforcement_event (clip ev)) = false).
  { unfold matches_zone. rewrite Hid. apply orb_false_iff. split; [by apply bool_decide_eq_false_2|].
    apply String.eqb_neq. intros E. by apply Hz. }
  rewrite Hm. by destruct (String.eqb_spec zone_filter "").
Qed.

End Life.

(** ** Two zones, and a receiver that lost an event *)
Module Demo.
#[local] Existing Instance Tasks.Demo.event_host.
#[local] Existing Instance Tasks.Demo.task_host.

Definition other_ctx : Kernel.Ctx :=
  Kernel.mkCtx 200 0 (Z.shiftl 43 32) 5 0 (fun _ => 4096%Z) Kernel.sample_memory true.
Definition decided : Logs.BrokerDecision := Logs.mkDecision 1 0 7 42 "openat" "/etc/passwd" "denied" 1 None.
(** A file of zone 2 opened by zone 1, by zone 2 itself, a connection of each, a broker
    decision, and zone 1 tries once more. *)
Definition steps : list Step :=
  [Call Kernel.HFileOpen Kernel.sample_ctx; Call Kernel.HFileOpen other_ctx; Drain;
   Call Kernel.HSocketConnect other_ctx; Decide decided "zone-1" 1; Call Kernel.HSocketConnect Kernel.sample_ctx;
   Call Kernel.HFileOpen Kernel.sample_ctx].
Definition start : Life := mkLife Kernel.sample_maps [].





(** The record of a refused call whose object could not be read names no zone: it is in no
    task's result, and watchers are told of a loss in the pipeline. *)
Definition blind_ctx : Kernel.Ctx :=
  Kernel.mkCtx 100 0 (Z.shiftl 42 32) 5 0 (fun _ => 4096%Z) (fun _ => Err (-14)%Z) true.
Example unreadable_denial_has_no_zone :
  let s := live Kernel.offsets_default [Call Kernel.HFileOpen blind_ctx; Drain] start in
  fst (Kernel.run_hook Kernel.offsets_default Kernel.HFileOpen blind_ctx Kernel.sample_maps) = (-1)%Z /\
  map (fun e => (event e, Evidence.z_id (zone e))) (sent s) = [("pipeline.shed", "zone-unassigned")] /\
  of_zone 1 (sent s) = [].
Proof. vm_compute. auto. Qed.

(** The result is put together without waiting for the reader's next round. *)
Example late_denial_is_missed :
  let s := live Kernel.offsets_default [Call Kernel.HFileOpen Kernel.sample_ctx] start in
  sent s = [] /\ on_record (refusals Kernel.offsets_default 1 [Call Kernel.HFileOpen Kernel.sample_ctx] start) <> [] /\
  Tasks.drain_enforcement_capture (Some ([], Some 1%Z)) = ([], 0%Z).
Proof. vm_compute. repeat split; discriminate. Qed.
End Demo.
End Events.
