(* ===== verification/Follow.v ===== *)
(** * Following a log

    [tail_logs] of [rauhad/src/logs.rs]: the last lines of a container's two logs, and
    then, every 200 ms, what was appended to them since, until the client is gone.  The
    clock and the time stamps of the lines are left out. *)

From stdpp Require Import base strings list.
From Stdlib Require Import ZArith Ascii String Lia.
From S2P Require Import Prelude.
From S2P Require Import RustStr.
From S2P Require Import RustText.
From S2P Require Import Logs.
Open Scope string_scope.

Module Follow.
Import Logs.

Inductive Source := Stdout | Stderr.
#[global] Instance Source_eq_dec : EqDecision Source.
Proof. solve_decision. Defined.
Notation LogLine := (Source * string)%type.

(** What the follower finds when it acts: whether it is cancelled, what opening and
    reading each log gives, and whether [on_line] still takes a line. *)
Record View := mkView { cancelled : bool; content : Source -> option string; takes : bool }.

(** Where the follower is in its loop, its position in each log it has open, and what
    it has told. *)
Inductive Phase := Top | At (s : Source) | Gone.
Record Follower := mkFollower { phase : Phase; at_ : Source -> option nat; told : list LogLine }.

Definition set_phase (p : Phase) (f : Follower) : Follower := mkFollower p (at_ f) (told f).
Definition set_at (s : Source) (p : option nat) (f : Follower) : Follower :=
  mkFollower (phase f) (fun s' => if bool_decide (s' = s) then p else at_ f s') (told f).
Definition tell (l : LogLine) (f : Follower) : Follower := mkFollower (phase f) (at_ f) (told f ++ [l])%list.

Definition open_at_end (c : option string) : option nat := option_map String.length c.

(** What is left of a file from a position. *)
Fixpoint rest_from (p : nat) (c : string) : string :=
  match p, c with
  | S p, String _ c => rest_from p c
  | _, _ => c
  end.

(** [read_log_chunk], before it is decoded: empty at the end of the file. *)
Definition read_chunk (n p : nat) (c : string) : string := fst (read_until n (rest_from p c)).
Definition read_log_chunk : nat -> string -> string := read_chunk CHUNK.

Definition line_of (chunk : string) : string := default (lossy chunk) (Str.strip_suffix nl (lossy chunk)).

Definition next (s : Source) : Phase := match s with Stdout => At Stderr | Stderr => Top end.

(** One action of the loop: the check at its head, a read of a log, or an attempt to
    open one that was not there. *)
Definition act (v : View) (f : Follower) : Follower :=
  match phase f with
  | Gone => f
  | Top => if cancelled v then set_phase Gone f else set_phase (At Stdout) f
  | At s =>
      match at_ f s with
      | None => set_phase (next s) (set_at s (open_at_end (content v s)) f)
      | Some p =>
          let chunk := read_log_chunk p (default "" (content v s)) in
          if String.eqb chunk "" then set_phase (next s) f
          else
            let f := set_at s (Some (p + String.length chunk)%nat) f in
            if cancelled v then set_phase Gone f
            else if String.eqb (line_of chunk) "" then f
            else if takes v then tell (s, line_of chunk) f
            else set_phase Gone f
      end
  end.
Definition run (vs : list View) (f : Follower) : Follower := fold_left (fun f v => act v f) vs f.

(** The lines there were, the first [accepted] of which the client takes. *)
Definition first_lines (logs : Source -> LogFile) (tail : Z) : list LogLine :=
  (map (pair Stdout) (read_tail_lines (logs Stdout) tail) ++ map (pair Stderr) (read_tail_lines (logs Stderr) tail))%list.

Definition tail_logs (logs : Source -> LogFile) (follow : bool) (tail : Z) (accepted : nat) (opening : View) (vs : list View)
  : list LogLine :=
  let lines := first_lines logs tail in
  if Nat.ltb accepted (List.length lines) then take accepted lines
  else if negb follow then lines
  else told (run vs (mkFollower Top (fun s => open_at_end (content opening s)) lines)).

(** ** Chunks *)

Lemma read_until_split n s : fst (read_until n s) ++ snd (read_until n s) = s.
Proof.
  revert s. induction n as [|n IH]; intros [|c s]; [done..|]. cbn [read_until]. destruct (Ascii.eqb c "010"); [done|].
  specialize (IH s). destruct (read_until n s) as [a b]. cbn [fst snd] in *. rewrite <- IH. done.
Qed.

Lemma read_until_empty n s : (0 < n)%nat -> fst (read_until n s) = "" -> s = "".
Proof. destruct n as [|n], s as [|c s]; intros Hn; [lia..|done|]. cbn [read_until]. destruct (Ascii.eqb c "010"); [done|]. by destruct (read_until n s). Qed.

Lemma rest_from_app p a b : (p <= String.length a)%nat -> rest_from p (a ++ b) = rest_from p a ++ b.
Proof. revert a. induction p as [|p IH]; intros [|c a]; cbn; [done..|lia|]. intros H. apply IH. lia. Qed.

Lemma rest_from_plus p q c : (p + q <= String.length c)%nat -> rest_from (p + q) c = rest_from q (rest_from p c).
Proof. revert c. induction p as [|p IH]; intros [|d c]; cbn; intros H; [done|done|lia|]. apply IH. lia. Qed.

Lemma rest_from_length p c : String.length (rest_from p c) = (String.length c - p)%nat.
Proof. revert c. induction p as [|p IH]; intros [|d c]; cbn; [done..|]. apply IH. Qed.

Lemma rest_from_self a b : rest_from (String.length a) (a ++ b) = b.
Proof. induction a as [|c a IH]; [by destruct b|done]. Qed.

(** ** What a follower tells *)

(** Logs only grow. *)
Fixpoint grows (s : Source) (c : string) (vs : list View) : Prop :=
  match vs with
  | [] => True
  | v :: vs => exists more, content v s = Some (c ++ more) /\ grows s (c ++ more) vs
  end.
Definition last_content (s : Source) (c : string) (vs : list View) : string :=
  fold_left (fun c v => default c (content v s)) vs c.

Definition lines_of (chunks : list string) : list string := filter (fun l => l <> "") (map line_of chunks).
Definition told_of (s : Source) (f : Follower) : list string := map snd (filter (fun l => fst l = s) (told f)).

(** A follower that has a log open at [p]: what it told of it since [p0] are the lines
    of successive pieces of the log, which together are all of it up to [p]; if the
    client left, the last piece may be untold. *)
Definition faithful (s : Source) (p0 : nat) (already : list string) (c : string) (f : Follower) : Prop :=
  exists p chunks, at_ f s = Some p /\ (p <= String.length c)%nat /\
    rest_from p0 c = foldr String.append (rest_from p c) chunks /\
    Forall (fun k => k <> "") chunks /\
    (told_of s f = (already ++ lines_of chunks)%list \/
     phase f = Gone /\ exists untold, told_of s f = (already ++ lines_of untold)%list /\ exists k, chunks = (untold ++ [k])%list).

Lemma foldr_append_app a b ks : foldr String.append (a ++ b) ks = foldr String.append a ks ++ b.
Proof. induction ks as [|k ks IH]; [done|]. cbn. by rewrite IH, Text.string_app_assoc. Qed.

Lemma faithful_grows s p0 already c more f : (p0 <= String.length c)%nat ->
  faithful s p0 already c f -> faithful s p0 already (c ++ more) f.
Proof.
  intros H0 (p & chunks & Hp & Hle & Hc & Hne & Ht). exists p, chunks. split; [done|].
  rewrite Str.string_length_app. split; [lia|]. rewrite !rest_from_app by done. rewrite Hc, <- foldr_append_app. done.
Qed.

Lemma read_chunk_split n p c : (p <= String.length c)%nat ->
  (p + String.length (read_chunk n p c) <= String.length c)%nat /\
  rest_from p c = read_chunk n p c ++ rest_from (p + String.length (read_chunk n p c)) c.
Proof.
  intros Hp. unfold read_chunk. pose proof (read_until_split n (rest_from p c)) as Hs.
  set (a := fst _) in *. set (b := snd _) in *.
  assert (Hl : (p + String.length a <= String.length c)%nat).
  { pose proof (f_equal String.length Hs) as H. rewrite Str.string_length_app, rest_from_length in H. lia. }
  split; [done|]. rewrite rest_from_plus by done. rewrite <- Hs at 2. rewrite rest_from_self. by rewrite Hs.
Qed.
Lemma read_log_chunk_split p c : (p <= String.length c)%nat ->
  (p + String.length (read_log_chunk p c) <= String.length c)%nat /\
  rest_from p c = read_log_chunk p c ++ rest_from (p + String.length (read_log_chunk p c)) c.
Proof. exact (read_chunk_split CHUNK p c). Qed.

Lemma CHUNK_pos : (0 < CHUNK)%nat.
Proof. apply Nat.ltb_lt. vm_compute. reflexivity. Qed.

Lemma read_chunk_end n p c : (0 < n)%nat -> (p <= String.length c)%nat -> read_chunk n p c = "" -> p = String.length c.
Proof.
  intros Hn Hp He. apply read_until_empty in He; [|done].
  apply (f_equal String.length) in He. rewrite rest_from_length in He. cbn in He. lia.
Qed.
Lemma read_log_chunk_end p c : (p <= String.length c)%nat -> read_log_chunk p c = "" -> p = String.length c.
Proof. exact (read_chunk_end CHUNK p c CHUNK_pos). Qed.

#[local] Opaque read_log_chunk CHUNK.

Lemma lines_of_snoc ks k : lines_of (ks ++ [k]) = (lines_of ks ++ if String.eqb (line_of k) "" then [] else [line_of k])%list.
Proof.
  unfold lines_of. rewrite map_app, filter_app. cbn [map]. f_equal. rewrite filter_cons, filter_nil.
  destruct (String.eqb_spec (line_of k) ""); case_decide; done.
Qed.

Lemma told_of_tell s s' l f : told_of s (tell (s', l) f) = (told_of s f ++ if bool_decide (s' = s) then [l] else [])%list.
Proof.
  unfold told_of, tell. cbn [told]. rewrite filter_app, map_app. f_equal. rewrite filter_cons, filter_nil. cbn [fst].
  case_decide; case_bool_decide; done.
Qed.

Lemma at_set s q f : at_ (set_at s q f) s = q.
Proof. cbn. by rewrite bool_decide_true. Qed.
Lemma at_set_ne s s' q f : s <> s' -> at_ (set_at s' q f) s = at_ f s.
Proof. intros H. cbn. by rewrite bool_decide_false. Qed.

Lemma act_faithful s p0 already c v f : content v s = Some c ->
  faithful s p0 already c f -> faithful s p0 already c (act v f).
Proof.
  intros Hv (p & chunks & Hp & Hle & Hc & Hne & Ht). unfold act.
  destruct Ht as [Ht|[Hg Hu]]; [|rewrite Hg; exists p, chunks; split_and!; auto].
  assert (Hsame : forall ph, faithful s p0 already c (set_phase ph f)).
  { intros ph. exists p, chunks. by split_and!; [..|left]. }
  destruct (phase f) as [|s'|] eqn:Hph; [case_match; apply Hsame| |exists p, chunks; split_and!; auto].
  destruct (decide (s' = s)) as [->|Hs'].
  - rewrite Hp, Hv. change (default "" (Some c)) with c. cbv zeta. destruct (String.eqb_spec (read_log_chunk p c) "") as [_|Hk]; [apply Hsame|].
    destruct (read_log_chunk_split p c Hle) as [Hle' Hsp]. cbv zeta. revert Hk Hle' Hsp.
    generalize (read_log_chunk p c) as k. intros k. generalize (p + String.length k)%nat as p'. intros p' Hk Hle' Hsp.
    assert (Hc' : rest_from p0 c = foldr String.append (rest_from p' c) (chunks ++ [k])) by (rewrite foldr_app, Hc, Hsp; done).
    assert (Hne' : Forall (fun k => k <> "") (chunks ++ [k])) by (apply Forall_app; by split; [|constructor]).
    assert (Hold : told_of s f = (already ++ lines_of chunks)%list /\ exists k0, (chunks ++ [k])%list = (chunks ++ [k0])%list)
      by (split; [done|by exists k]).
    destruct (cancelled v).
    { exists p', (chunks ++ [k])%list. split_and!; [apply at_set|done..|]. right. split; [done|by exists chunks]. }
    destruct (String.eqb_spec (line_of k) "") as [He|He].
    { exists p', (chunks ++ [k])%list. split_and!; [apply at_set|done..|]. left. rewrite lines_of_snoc, He, app_nil_r. done. }
    destruct (takes v); exists p', (chunks ++ [k])%list.
    + split_and!; [apply at_set|done..|]. left. rewrite told_of_tell, lines_of_snoc, bool_decide_true by done.
      destruct (String.eqb_spec (line_of k) ""); [done|]. rewrite app_assoc. by rewrite <- Ht.
    + split_and!; [apply at_set|done..|]. right. split; [done|by exists chunks].
  - assert (Hset : forall q, faithful s p0 already c (set_at s' q f)).
    { intros q. exists p, chunks. split_and!; [by rewrite at_set_ne by congruence|done..|by left]. }
    assert (Hph' : forall g ph, faithful s p0 already c g -> phase g <> Gone -> faithful s p0 already c (set_phase ph g)).
    { intros g ph (p1 & ks & H1 & H2 & H3 & H4 & [H5|[H5 _]]) Hg; [|done]. exists p1, ks. by split_and!; [..|left]. }
    assert (Hg : forall q, phase (set_at s' q f) <> Gone) by (intros q; cbn; by rewrite Hph).
    destruct (at_ f s') as [q|]; [|by apply Hph']. cbv zeta.
    destruct (String.eqb _ ""); [by apply Hsame|]. destruct (cancelled v); [by apply Hph'|].
    destruct (String.eqb _ ""); [done|]. destruct (takes v); [|by apply Hph'].
    destruct (Hset (Some (q + String.length (read_log_chunk q (default "" (content v s'))))%nat)) as (p1 & ks & H1 & H2 & H3 & H4 & [H5|[H5 _]]).
    + exists p1, ks. split_and!; [done..|]. left. rewrite told_of_tell, bool_decide_false by done. by rewrite app_nil_r.
    + by apply Hg in H5.
Qed.

Lemma run_faithful s p0 already vs : forall c f, (p0 <= String.length c)%nat -> grows s c vs ->
  faithful s p0 already c f -> faithful s p0 already (last_content s c vs) (run vs f).
Proof.
  induction vs as [|v vs IH]; intros c f H0 Hg Hf; [done|]. destruct Hg as (more & Hv & Hg).
  unfold last_content. cbn [fold_left run]. rewrite Hv. change (default c (Some (c ++ more))) with (c ++ more). apply IH.
  - rewrite Str.string_length_app. lia.
  - done.
  - apply act_faithful; [done|]. by apply faithful_grows.
Qed.

(** A log that stays as it is is read to its end before the follower turns away from it. *)
Lemma catches_up s v c n : content v s = Some c -> cancelled v = false -> takes v = true ->
  forall f p, phase f = At s -> at_ f s = Some p -> (p <= String.length c)%nat -> (String.length c - p < n)%nat ->
  exists m, (m <= n)%nat /\ phase (run (replicate m v) f) = next s /\ at_ (run (replicate m v) f) s = Some (String.length c).
Proof.
  intros Hv Hc Ht. induction n as [|n IH]; intros f p Hph Hp Hle Hn; [lia|].
  destruct (read_log_chunk_split p c Hle) as [Hle' Hsp].
  assert (Hact : act v f = if String.eqb (read_log_chunk p c) "" then set_phase (next s) f
    else let f := set_at s (Some (p + String.length (read_log_chunk p c))%nat) f in
         if String.eqb (line_of (read_log_chunk p c)) "" then f else tell (s, line_of (read_log_chunk p c)) f)
    by (unfold act; rewrite Hph, Hp, Hv, Hc, Ht; done).
  destruct (String.eqb_spec (read_log_chunk p c) "") as [He|He].
  - exists 1%nat. cbn. rewrite Hact. split_and!; [lia|done|]. cbn. rewrite Hp. f_equal.
    by apply read_log_chunk_end.
  - assert (Hpos : (0 < String.length (read_log_chunk p c))%nat) by (destruct (read_log_chunk p c); [done|cbn; lia]).
    destruct (IH (act v f) (p + String.length (read_log_chunk p c))%nat) as (m & Hm & H).
    + rewrite Hact. by destruct (String.eqb _ "").
    + rewrite Hact. destruct (String.eqb _ ""); [apply at_set|]. exact (at_set s _ f).
    + done.
    + lia.
    + exists (S m). split; [lia|exact H].
Qed.

(** Whatever two logs that only grow are given, and whenever the client leaves: what a
    follower tells of a log it found at its start are the lines of successive pieces of
    it, without a gap from where it was opened to where the follower has read, in order;
    and a log that stays as it is while the client is there is read to its end before the
    follower turns to the next. *)
Theorem followed_log_is_told_without_a_gap s opening c vs lines :
  content opening s = Some c -> grows s c vs ->
  let f0 := mkFollower Top (fun s => open_at_end (content opening s)) lines in
  let c' := last_content s c vs in
  faithful s (String.length c) (told_of s f0) c' (run vs f0) /\
  forall v, phase (run vs f0) = At s -> content v s = Some c' -> cancelled v = false -> takes v = true ->
    exists m, phase (run (replicate m v) (run vs f0)) = next s /\
              at_ (run (replicate m v) (run vs f0)) s = Some (String.length c').
Proof.
  intros Hc Hg f0 c'.
  assert (Hf : faithful s (String.length c) (told_of s f0) c' (run vs f0)).
  { apply run_faithful; [done..|]. exists (String.length c), []. cbn. rewrite Hc. split_and!; [done..|].
    left. unfold lines_of. cbn. by rewrite app_nil_r. }
  split; [done|]. intros v Hph Hv Hcan Ht. destruct Hf as (p & chunks & Hp & Hle & _).
  destruct (catches_up s v c' (S (String.length c' - p)) Hv Hcan Ht _ p Hph Hp Hle) as (m & _ & H); [lia|]. by exists m.
Qed.

(** ** What a follower misses *)

Module Demo.
Definition file (c : string) : LogFile := mkFile false (Some (Ok c)).
Definition quiet : Source -> option string := fun _ => Some "".
Definition only (c : option string) (s : Source) : option string := match s with Stdout => c | Stderr => Some "" end.
Definition see (c : option string) : View := mkView false (only c) true.
Definition logs (c : string) (s : Source) : LogFile := match s with Stdout => file c | Stderr => file "" end.
Definition one : string := "one" ++ nl.
Definition two : string := one ++ "two" ++ nl.
Definition three : string := two ++ "three" ++ nl.

(** A line written between the read of the last lines and the opening of the log is not told. *)
Example line_before_opening_is_missed :
  tail_logs (logs one) true 0 9 (see (Some two)) (replicate 9 (see (Some three))) = [(Stdout, "one"); (Stdout, "three")].
Proof. vm_compute. reflexivity. Qed.

(** A log that is there only later is opened at its end: its first lines are not told. *)
Example late_log_is_cut :
  tail_logs (fun _ => mkFile false None) true 0 9 (see None) (replicate 3 (see None) ++ replicate 3 (see (Some two)) ++ replicate 9 (see (Some three)))
  = [(Stdout, "three")].
Proof. vm_compute. reflexivity. Qed.

(** A line written in two parts is told as two. *)
Example split_line_is_told_twice :
  tail_logs (logs "") true 0 9 (see (Some "")) (replicate 4 (see (Some "on")) ++ replicate 9 (see (Some one))) = [(Stdout, "on"); (Stdout, "e")].
Proof. vm_compute. reflexivity. Qed.

Lemma followed_log_is_told_without_a_gap_witness :
  faithful Stdout 4 [] three (run (replicate 9 (see (Some three))) (mkFollower Top (fun s => open_at_end (only (Some one) s)) [])).
Proof.
  refine (proj1 (followed_log_is_told_without_a_gap Stdout (see (Some one)) one (replicate 9 (see (Some three))) [] eq_refl _)).
  cbn. exists ("two" ++ nl ++ "three" ++ nl). split; [reflexivity|].
  do 8 (exists ""; split; [reflexivity|]). exact Logic.I.
Defined.
End Demo.
End Follow.
