(* ===== verification/Tailer.v ===== *)
(** * The live tailer of broker decisions

    [spawn_broker_tailer] of [rauhad/src/broker_events.rs]: a task per container of a
    brokering zone that reads what was added to the broker's log every 200 ms and
    broadcasts each decision, until the container is gone.  Other tasks of the daemon may
    run between any two rounds; log lines are left out. *)

From stdpp Require Import base gmap strings list.
From Stdlib Require Import ZArith Ascii String Lia.
From S2P Require Import Prelude.
From S2P Require Import StateError.
From S2P Require Import RustStr.
From S2P Require Import RustText.
From S2P Require Import Utf8.
From S2P Require Import Zone.
From S2P Require Import Backend.
From S2P Require Import Metadata.
From S2P Require Import Registry.
From S2P Require Import Logs.
From S2P Require Import Follow.
From S2P Require Import Evidence.
Open Scope string_scope.

Module Tailer.
Import Zone Backend.
Import Follow(rest_from).

Definition CHUNK_BYTES : nat := Z.to_nat 1048576.
Definition CONTAINER_CHECK_INTERVAL : Z := 25.

(** What a tailer labels its events with: the zone's kernel id, or its UUID and 0. *)
Record Labels := mkLabels { label : string; kernel_id : Z }.

(** [reader]'s offset, once the log is open, and what was broadcast. *)
Record Tailer := mkTailer { offset : option nat; tick : Z; sent : list Evidence.FalseEvent }.
Definition started : Tailer := mkTailer None 0 [].

(** ** Starting one *)

Section Spawn.
Context {B E : Type} {I : IsolationBackend B} {V : Registry.Env E} {P : Metadata.Postcard}.
Notation World := (Registry.World (B := B) (E := E)).

(** The containers that have a live tailer, before and after. *)
Definition claim_tailer (id : string) (tailed : gset string) : bool * gset string :=
  (bool_decide (id ∉ tailed), {[id]} ∪ tailed).
Definition release_tailer (id : string) (tailed : gset string) : gset string := tailed ∖ {[id]}.

Definition tailed_zone (id : string) : StateError.M World RauhaError (option Labels) :=
  do container <- Registry.get_container id;
  do found <- gets (Registry.zone_name_for_container (c_zone_id container));
  match found with
  | None => ret None
  | Some zone_name =>
      do zone <- Registry.get_zone zone_name;
      match broker (syscalls (z_policy zone)) with
      | [] => ret None
      | _ => do k <- gets (Registry.kernel_zone_id zone_name);
             ret (Some (mkLabels (match k with Some id => "zone-" ++ Str.show id | None => z_id zone end) (default 0%Z k)))
      end
  end.

Definition spawn_broker_tailer (id : string) (tailed : gset string) (w : World) : option Labels * gset string * World :=
  let '(free, tailed) := claim_tailer id tailed in
  if free then
    let '(r, w) := tailed_zone id w in
    match r with Ok (Some z) => (Some z, tailed, w) | _ => (None, release_tailer id tailed, w) end
  else (None, tailed, w).

(** A start leaves a container with a tailer exactly when it has one: a repeated start
    adds none, one that finds nothing to follow gives its claim back. *)
Lemma spawn_claims id tailed w :
  let '(z, tailed', _) := spawn_broker_tailer id tailed w in
  match z with
  | Some _ => id ∉ tailed /\ tailed' = {[id]} ∪ tailed
  | None => tailed' = tailed
  end.
Proof.
  unfold spawn_broker_tailer, claim_tailer, release_tailer. case_bool_decide as Hid.
  - destruct (tailed_zone id w) as [[[z|]|e] w']; [done|set_solver..].
  - set_solver.
Qed.
End Spawn.

(** ** Its rounds *)

Section Rounds.
Context `{DJ : Logs.DecisionJson} `{EH : Evidence.EventHost}.
Context (zone : Labels).

Definition event_of (d : Logs.BrokerDecision) : Evidence.FalseEvent :=
  Evidence.broker_decision_event d (label zone) (kernel_id zone).
Definition events_of (text : string) : list Evidence.FalseEvent := map event_of (fst (Logs.parse_lines (Text.lines text))).

(** [chunk[..=chunk.rfind('\n')]]. *)
Definition whole_lines (chunk : string) : option string :=
  option_map (fun ab => fst ab ++ Text.nl) (Str.rsplit_once "010" chunk).

Definition read_chunk (o : nat) (log : string) : string := String.substring 0 CHUNK_BYTES (rest_from o log).

(** A read of a log with some content: [read_to_string] fails on what is no UTF-8. *)
Definition poll_at (o : nat) (log : string) (t : Tailer) : Tailer :=
  let chunk := read_chunk o log in
  if Utf8.is_utf8 chunk then
    match whole_lines chunk with
    | Some text => mkTailer (Some (o + String.length text)%nat) (tick t) (sent t ++ events_of text)
    | None => mkTailer (Some o) (tick t) (sent t)
    end
  else mkTailer (Some o) (tick t) (sent t).

Definition poll (log : option string) (t : Tailer) : Tailer :=
  match offset t, log with
  | Some o, _ => poll_at o (default "" log) t
  | None, Some log => poll_at 0 log t
  | None, None => t
  end.

(** One round: the log as it is, and whether the registry finds the container; [None]
    when the task ends. *)
Record Round := mkRound { log : option string; found : bool }.

Definition round (r : Round) (t : Tailer) : Tailer * bool :=
  let t := poll (log r) t in
  let tick := wrap 32 (tick t + 1) in
  let t := mkTailer (offset t) tick (sent t) in
  (t, (tick mod CONTAINER_CHECK_INTERVAL =? 0)%Z && negb (found r)).

Fixpoint follow (rs : list Round) (t : Tailer) : Tailer :=
  match rs with
  | [] => t
  | r :: rs => let '(t, ended) := round r t in if ended then t else follow rs t
  end.

(** ** Lines *)

Definition ends_line (s : string) : Prop := s = "" \/ exists s', s = s' ++ Text.nl.

Lemma split_cons c d s : Str.split c (String d s) =
  if Ascii.eqb c d then "" :: Str.split c s
  else match Str.split c s with p :: ps => String d p :: ps | [] => [String d ""] end.
Proof. done. Qed.

Lemma split_nonempty c s : Str.split c s <> [].
Proof. destruct s as [|d s]; [done|]. rewrite split_cons. destruct (Ascii.eqb c d); [done|]. by destruct (Str.split c s). Qed.

Lemma split_app_nl a b : Str.split "010" (a ++ Text.nl ++ b) = (Str.split "010" a ++ Str.split "010" b)%list.
Proof.
  induction a as [|c a IH]; [done|]. change (String c a ++ Text.nl ++ b) with (String c (a ++ Text.nl ++ b)).
  rewrite !split_cons, IH. destruct (Ascii.eqb "010" c); [done|].
  pose proof (split_nonempty "010" a). by destruct (Str.split "010" a).
Qed.

Lemma split_nl a : Str.split "010" (a ++ Text.nl) = (Str.split "010" a ++ [""])%list.
Proof. rewrite <- (Text.app_nil Text.nl). by rewrite split_app_nl. Qed.

Lemma last_app_nonempty {A} (d : A) a b : b <> [] -> List.last (a ++ b) d = List.last b d.
Proof. intros Hb. induction a as [|x a IH]; [done|]. cbn. destruct (a ++ b)%list eqn:E; [by apply app_eq_nil in E as [_ ?]|done]. Qed.

Lemma lines_app a b : ends_line a -> Text.lines (a ++ b) = (Text.lines a ++ Text.lines b)%list.
Proof.
  intros [->|[s ->]]; [done|]. rewrite Text.string_app_assoc. unfold Text.lines. rewrite split_app_nl, split_nl.
  rewrite !last_app_nonempty by (done || apply split_nonempty). cbn [List.last String.eqb].
  rewrite removelast_last, removelast_app by apply split_nonempty. by destruct (String.eqb _ ""); rewrite map_app.
Qed.

Lemma parse_lines_app a b : fst (Logs.parse_lines (a ++ b)) = (fst (Logs.parse_lines a) ++ fst (Logs.parse_lines b))%list.
Proof.
  induction a as [|l a IH]; [done|]. cbn [app Logs.parse_lines]. destruct (Logs.parse_lines (a ++ b)), (Logs.parse_lines a).
  cbn [fst] in *. subst. destruct (String.eqb l ""); [done|]. by destruct (Logs.decision_of_json l).
Qed.

Lemma events_app a b : ends_line a -> events_of (a ++ b) = (events_of a ++ events_of b)%list.
Proof. intros Ha. unfold events_of. by rewrite lines_app, parse_lines_app, map_app by done. Qed.

#[local] Opaque CHUNK_BYTES.

(** ** What a tailer broadcasts *)

(** What was broadcast are the events of the lines before the offset, which is at the
    end of a line. *)
Definition faithful (c : string) (t : Tailer) : Prop :=
  match offset t with
  | None => sent t = []
  | Some o => exists a b, c = a ++ b /\ String.length a = o /\ ends_line a /\ sent t = events_of a
  end.

Lemma tailed_grows c more t : faithful c t -> faithful (c ++ more) t.
Proof.
  unfold faithful. destruct (offset t); [|done]. intros (a & b & -> & H). exists a, (b ++ more).
  by rewrite Text.string_app_assoc.
Qed.

Lemma poll_at_faithful a b t : ends_line a -> sent t = events_of a ->
  faithful (a ++ b) (poll_at (String.length a) (a ++ b) t).
Proof.
  intros Ha Hs. unfold poll_at, read_chunk. rewrite Follow.rest_from_self.
  assert (Hold : faithful (a ++ b) (mkTailer (Some (String.length a)) (tick t) (sent t))) by by exists a, b.
  destruct (Text.substring_prefix CHUNK_BYTES b) as [rest Hb]. revert Hb. generalize (String.substring 0 CHUNK_BYTES b) as k.
  intros k Hb. destruct (Utf8.is_utf8 k); [|done]. unfold whole_lines.
  destruct (Str.rsplit_once "010" k) as [[x y]|] eqn:Hk; [|done]. apply Text.rsplit_once_Some in Hk as [Hk _].
  cbn [option_map fst faithful offset sent]. exists (a ++ (x ++ Text.nl)), (y ++ rest). split_and!.
  - rewrite Hb, Hk. change (String "010" y) with (Text.nl ++ y). by rewrite !Text.string_app_assoc.
  - apply Str.string_length_app.
  - right. exists (a ++ x). by rewrite Text.string_app_assoc.
  - by rewrite Hs, (events_app a).
Qed.

Lemma poll_faithful c t : faithful c t -> faithful c (poll (Some c) t).
Proof.
  unfold faithful at 1, poll. destruct (offset t) as [o|].
  - intros (a & b & -> & <- & Ha & Hs). by apply poll_at_faithful.
  - intros Hs. apply (poll_at_faithful "" c); [by left|done].
Qed.

(** A log that is there stays and grows. *)
Fixpoint grows (c : string) (rs : list Round) : Prop :=
  match rs with
  | [] => True
  | r :: rs => (log r = None /\ c = "" /\ grows "" rs) \/ exists more, log r = Some (c ++ more) /\ grows (c ++ more) rs
  end.
Definition last_log (c : string) (rs : list Round) : string := fold_left (fun c r => default c (log r)) rs c.

Lemma last_log_grows rs : forall c, grows c rs -> exists more, last_log c rs = c ++ more.
Proof.
  induction rs as [|r rs IH]; intros c Hg; [exists ""; by rewrite Text.app_nil|]. unfold last_log. cbn [fold_left].
  destruct Hg as [(-> & -> & Hg)|(more & -> & Hg)]; [by apply IH|].
  destruct (IH _ Hg) as [m Hm]. exists (more ++ m). rewrite <- Text.string_app_assoc. exact Hm.
Qed.

Lemma follow_faithful rs : forall c t, grows c rs -> faithful c t -> faithful (last_log c rs) (follow rs t).
Proof.
  induction rs as [|r rs IH]; intros c t Hg Hf; [done|].
  destruct (last_log_grows (r :: rs) c Hg) as [m Hm]. cbn [follow round].
  assert (exists c', faithful c' (poll (log r) t) /\ grows c' rs /\ last_log c (r :: rs) = last_log c' rs) as (c' & Hp & Hg' & ->).
  { unfold last_log. cbn [fold_left]. destruct Hg as [(-> & -> & Hg)|(more & -> & Hg)].
    - exists "". split; [|done]. unfold poll. destruct (offset t) as [o|] eqn:Ho; [|done]. unfold faithful in Hf. rewrite Ho in Hf.
      destruct Hf as (a & b & Hab & <- & Ha & Hs). destruct a as [|x a]; [|done]. destruct b as [|]; [|done].
      by apply (poll_at_faithful "" "").
    - exists (c ++ more). split; [|done]. apply poll_faithful. by apply tailed_grows. }
  case_match; [|by apply IH]. destruct (last_log_grows rs c' Hg') as [m' ->]. by apply tailed_grows.
Qed.

(** Whatever a log that only grows looks like in each round: what its tailer has
    broadcast are the events of the decisions in the complete lines before its offset,
    each once and in order, however the lines were written in parts; and a round that
    finds no more than one read of intact text leaves nothing of it behind but a line that
    is not complete. *)
Theorem tailer_tells_each_decision_once rs : grows "" rs ->
  let c := last_log "" rs in let t := follow rs started in
  faithful c t /\
  forall o, offset t = Some o -> (String.length c - o < CHUNK_BYTES)%nat -> Utf8.is_utf8 (rest_from o c) = true ->
    exists a b, c = a ++ b /\ Str.contains_char "010" b = false /\ sent (poll (Some c) t) = events_of a.
Proof.
  intros Hg c t. assert (Hf : faithful c t) by (by apply follow_faithful). split; [done|].
  intros o Ho Hlen Hu. unfold faithful, poll in *. rewrite Ho in *. destruct Hf as (a & b & -> & <- & Ha & Hs).
  change (default "" (Some (a ++ b))) with (a ++ b). rewrite Follow.rest_from_self in Hu.
  unfold poll_at, read_chunk. rewrite Follow.rest_from_self.
  rewrite Logs.substring_whole by (rewrite Str.string_length_app in Hlen; destruct (Text.substring_prefix CHUNK_BYTES b) as [r Hr]; apply (f_equal String.length) in Hr; rewrite Str.string_length_app in Hr; lia).
  rewrite Hu. unfold whole_lines. destruct (Str.rsplit_once "010" b) as [[x y]|] eqn:Hk.
  - apply Text.rsplit_once_Some in Hk as [-> Hy]. exists (a ++ (x ++ Text.nl)), y. split_and!; [|done|].
    + change (String "010" y) with (Text.nl ++ y). by rewrite !Text.string_app_assoc.
    + cbn [option_map fst sent]. by rewrite Hs, (events_app a).
  - exists a, b. split_and!; [done|by apply Text.rsplit_once_None|done].
Qed.

(** A full read that is no text, because it ends within a character, or that has no end
    of line, is read again in every round: the tailer is stuck. *)
Theorem full_read_stalls a b o t : offset t = Some o -> o = String.length a ->
  (CHUNK_BYTES <= String.length b)%nat ->
  Utf8.is_utf8 (String.substring 0 CHUNK_BYTES b) = false \/ Str.rsplit_once "010" (String.substring 0 CHUNK_BYTES b) = None ->
  forall more, poll (Some (a ++ b ++ more)) t = t.
Proof.
  intros Ho -> Hlen Hbad more. unfold poll. rewrite Ho. change (default "" (Some (a ++ b ++ more))) with (a ++ b ++ more).
  unfold poll_at, read_chunk. rewrite Follow.rest_from_self.
  assert (String.substring 0 CHUNK_BYTES (b ++ more) = String.substring 0 CHUNK_BYTES b) as ->.
  { revert Hlen. generalize CHUNK_BYTES as n. intros n. clear. revert b. induction n as [|n IH]; intros [|c b] Hl; cbn in *; [by destruct more|done|lia|].
    change (String c b ++ more) with (String c (b ++ more)). cbn. f_equal. apply IH. lia. }
  destruct Hbad as [->| Hn]; [by destruct t; cbn in *; subst|]. unfold whole_lines. rewrite Hn. cbn [option_map].
  destruct (Utf8.is_utf8 _); by destruct t; cbn in *; subst.
Qed.

End Rounds.

(** ** A log written in parts *)

Module Demo.
#[local] Instance json : Logs.DecisionJson := {|
  Logs.decision_of_json l := Ok (Logs.mkDecision 0 0 0 (Z.of_nat (String.length l)) "openat" l "granted" 0 None) |}.
#[local] Instance host : Evidence.EventHost := {|
  Evidence.now_rfc3339 := ""; Evidence.hostname := None; Evidence.rfc3339_millis _ := None |}.
Definition zone : Labels := mkLabels "zone-7" 7.
Definition see (c : string) : Round := mkRound (Some c) true.
Definition rounds : list Round := [mkRound None true; see "a"; see ("ab" ++ Text.nl ++ "c"); see ("ab" ++ Text.nl ++ "cd" ++ Text.nl)].

Lemma tailer_tells_each_decision_once_witness :
  (offset (follow zone rounds started) = Some 6%nat) /\ faithful zone ("ab" ++ Text.nl ++ "cd" ++ Text.nl) (follow zone rounds started) /\
  List.length (sent (follow zone rounds started)) = 2%nat.
Proof.
  split; [vm_compute; reflexivity|]. split; [|vm_compute; reflexivity].
  assert (Hg : grows "" rounds).
  { left. split_and!; [done..|]. right. exists "a". split; [done|]. right. exists ("b" ++ Text.nl ++ "c"). split; [done|].
    right. exists ("d" ++ Text.nl). by split. }
  exact (proj1 (tailer_tells_each_decision_once zone rounds Hg)).
Defined.

(** A registry that fails to answer once, when it is asked, ends the tailer of a container
    that is still there. *)
Example failed_lookup_ends_it :
  List.length (sent (follow zone (replicate 24 (see "") ++ [mkRound (Some "") false; see ("ab" ++ Text.nl)]) started)) = 0%nat.
Proof. vm_compute. reflexivity. Qed.
End Demo.
End Tailer.
