(* ===== verification/Services.v ===== *)
(** * The zone and container services

    The gRPC handlers of [rauhad/src/server.rs] over the registry: what a request is
    turned into, what the registry's answers and errors become, and interactive exec with
    the relays of its stream.  Messages are records of the fields the handlers read and
    write; the policy text goes through [Policy], the events of [watch_events] are in
    [Events], tasks in [Tasks], the image service in
    [ImageService], the tailer a start spawns in [Tailer].  Spans and log lines are left
    out. *)

From stdpp Require Import base gmap strings list.
From Stdlib Require Import ZArith Ascii String Lia.
From S2P Require Import Prelude.
From S2P Require Import StateError.
From S2P Require Import RustStr.
From S2P Require Import EnforcerApi.
From S2P Require Import Zone.
From S2P Require Import Policy.
From S2P Require Import Backend.
From S2P Require Import Metadata.
From S2P Require Import BpfMaps.
From S2P Require Import Registry.
From S2P Require Import Logs.
From S2P Require Import Follow.
From S2P Require Import Tailer.
From S2P Require Import Tasks.
Open Scope string_scope.

Module Services.
Import Zone Backend.
Import Tasks(Status(..), Code(..), to_status, to_internal_status).

(** ** Messages *)

Record CreateZoneResponse := mkCreated { cz_zone_id : string; cz_name : string; cz_state : string }.
Record ZoneInfo := mkZoneInfo {
  zi_id : string; zi_name : string; zi_zone_type : string; zi_state : string; zi_container_count : Z; zi_created_at : string }.
Record ContainerInfo := mkContainerInfo {
  ci_id : string; ci_name : string; ci_zone_id : string; ci_zone_name : string; ci_image : string; ci_state : string;
  ci_pid : Z; ci_created_at : string; ci_started_at : string }.
Record CreateContainerRequest := mkCreateContainer {
  cr_zone_name : string; cr_name : string; cr_image : string; cr_command : list string; cr_env : gmap string string;
  cr_working_dir : string }.
Record ExecStreamStart := mkExecStart { es_container_id : string; es_command : list string; es_env : gmap string string; es_tty : bool }.
Inductive ExecMessage := ExecStart (s : ExecStreamStart) | StdinData (data : list Z) | Resize (rows cols : Z).
Inductive AttachMessage := AttachStart (container_id : string) | AttachStdin (data : list Z) | AttachResize (rows cols : Z).
(** A stream yields messages, possibly without a content, or a failure. *)
Notation Stream A := (list (result (option A) string)).

(** The texts of [Debug]. *)
Definition zone_type_debug (t : ZoneType) : string :=
  match t with Global => "Global" | NonGlobal => "NonGlobal" | Privileged => "Privileged" end.
Definition zone_state_debug (s : ZoneState) : string :=
  match s with
  | Zone.Creating => "Creating" | Zone.Ready => "Ready" | Zone.Running => "Running" | Zone.Stopping => "Stopping"
  | Zone.Stopped => "Stopped" | Zone.Destroying => "Destroying"
  end.
Definition container_state_debug (s : ContainerState) : string :=
  match s with
  | Backend.Created => "Created" | Backend.Running => "Running" | Backend.Stopped => "Stopped" | Backend.Paused => "Paused"
  end.

Section Services.
Context {HB : BpfHost} {B E : Type} {I : IsolationBackend B} {V : Registry.Env E} {P : Metadata.Postcard}.
(** The paths and the limit of the configuration, the TOML and UUID readers and the time format. *)
Context (paths : Registry.Paths) (policy_max_bytes : Z).
Context (from_str : string -> result PolicyFile string) (parse_uuid : string -> result string string) (to_rfc3339 : Z -> string).

Notation World := (Registry.World (B := B) (E := E)).
Notation M := (StateError.M World Status).

(** A registry call with its error as a status. *)
Definition rg {A} (c : StateError.M World RauhaError A) : M A := fun w => let '(r, w') := c w in (map_err to_status r, w').
Definition invalid {A} (message : string) : M A := fail (mkStatus InvalidArgument message).
Definition internal {A} (message : string) : M A := fail (mkStatus Internal message).

(** ** Zones *)

Definition zone_type_of (t : string) : ZoneType :=
  if String.eqb t "privileged" then Privileged else if String.eqb t "global" then Global else NonGlobal.

Definition check_policy_size (policy_toml : string) : M unit :=
  if (policy_max_bytes <? Z.of_nat (String.length policy_toml))%Z
  then invalid ("policy_toml exceeds maximum size of " ++ Str.show policy_max_bytes ++ " bytes") else ret tt.

Definition read_policy (policy_toml : string) : M ZonePolicy :=
  match Policy.parse_policy from_str policy_toml (Registry.root paths) with
  | Ok (_, policy) => ret policy
  | Err e => invalid (Tasks.text_of e)
  end.

Definition create_zone (name zone_type policy_toml : string) : M CreateZoneResponse :=
  do _ <- check_policy_size policy_toml;
  do policy <- (if String.eqb policy_toml "" then ret ZonePolicy_default else read_policy policy_toml);
  do zone <- rg (Registry.create_zone name (zone_type_of zone_type) policy);
  ret (mkCreated (z_id zone) (z_name zone) (zone_state_debug (z_state zone))).

Definition delete_zone (name : string) (force : bool) : M unit := rg (Registry.delete_zone paths name force).

Definition zone_info (z : Zone) (container_count : Z) : ZoneInfo :=
  mkZoneInfo (z_id z) (z_name z) (zone_type_debug (z_zone_type z)) (zone_state_debug (z_state z)) container_count
    (to_rfc3339 (z_created_at z)).

Definition count {A} (l : list A) : Z := wrap 32 (Z.of_nat (List.length l)).

Definition get_zone (name : string) : M ZoneInfo :=
  do zone <- rg (Registry.get_zone name);
  do cs <- rg (Registry.list_containers (Some name));
  ret (zone_info zone (count cs)).

Fixpoint zone_infos (zs : list Zone) : M (list ZoneInfo) :=
  match zs with
  | [] => ret []
  | z :: zs =>
      do r <- attempt (rg (Registry.list_containers (Some (z_name z))));
      do rest <- zone_infos zs;
      ret (zone_info z (match r with Ok cs => count cs | Err _ => 0%Z end) :: rest)
  end.
Definition list_zones : M (list ZoneInfo) :=
  do zs <- rg Registry.meta_list_zones;
  zone_infos zs.

Definition apply_policy (zone_name policy_toml : string) : M unit :=
  do _ <- check_policy_size policy_toml;
  do policy <- read_policy policy_toml;
  rg (Registry.apply_policy zone_name policy).

Definition get_policy (zone_name : string) : M string :=
  do zone <- rg (Registry.get_zone zone_name);
  ret (Policy.policy_to_toml (z_name zone) (z_zone_type zone) (z_policy zone)).

Definition zone_stats (zone_name : string) : M ZoneStats := rg (Registry.zone_stats zone_name).

Definition verify_isolation (zone_name : string) : M (bool * list IsolationCheck) :=
  do report <- rg (Registry.verify_isolation zone_name);
  ret (is_isolated report, checks report).

(** ** Containers *)

Definition container_id (id : string) : M string :=
  match parse_uuid id with Ok u => ret u | Err e => invalid ("invalid container ID: " ++ e) end.

(** [req.env.into_iter()]: in any order. *)
Definition create_container (req : CreateContainerRequest) : M (string * string * string) :=
  let spec := mkSpec (cr_name req) (cr_image req) (cr_command req) (map_to_list (cr_env req))
                (if String.eqb (cr_working_dir req) "" then None else Some (cr_working_dir req)) None None in
  do c <- rg (Registry.create_container paths (cr_zone_name req) spec);
  ret (c_id c, c_name c, container_state_debug (c_state c)).

(** A start also has the broker's decisions followed, when there is a broadcast for them:
    [tailed] are the containers that already are. *)
Definition start_container (broadcast : bool) (id : string) (tailed : gset string) : M (option Tailer.Labels * gset string) :=
  do id <- container_id id;
  do _ <- rg (Registry.start_container id);
  if broadcast then fun w =>
    let '(zone, tailed, w) := Tailer.spawn_broker_tailer id tailed w in (Ok (zone, tailed), w)
  else ret (None, tailed).
Definition stop_container (id : string) : M unit := do id <- container_id id; rg (Registry.stop_container id).
Definition delete_container (id : string) (force : bool) : M unit :=
  do id <- container_id id; rg (Registry.delete_container paths id force).

(** The zone's name, or an internal error. *)
Definition zone_of (c : Container) : M string :=
  do found <- gets (Registry.zone_name_for_container (c_zone_id c));
  or_fail found (mkStatus Internal "zone not found for container").

Definition container_info (c : Container) (zone_name : string) : ContainerInfo :=
  mkContainerInfo (c_id c) (c_name c) (c_zone_id c) zone_name (c_image c) (container_state_debug (c_state c))
    (default 0%Z (c_pid c)) (to_rfc3339 (c_created_at c)) (default "" (option_map to_rfc3339 (c_started_at c))).

Definition get_container (id : string) : M ContainerInfo :=
  do id <- container_id id;
  do c <- rg (Registry.get_container id);
  do zone_name <- zone_of c;
  ret (container_info c zone_name).

Fixpoint container_infos (cs : list Container) : M (list ContainerInfo) :=
  match cs with
  | [] => ret []
  | c :: cs => do zone_name <- zone_of c; do rest <- container_infos cs; ret (container_info c zone_name :: rest)
  end.
Definition list_containers (zone_name : string) : M (list ContainerInfo) :=
  do cs <- rg (Registry.list_containers (if String.eqb zone_name "" then None else Some zone_name));
  container_infos cs.

(** The stream of a container's output, of whatever its logs are like: it is made only
    for a container on record. *)
Definition source_name (s : Follow.Source) : string := match s with Follow.Stdout => "stdout" | Follow.Stderr => "stderr" end.
Definition container_logs (files : Logs.Files) (id : string) (follow : bool) (tail : Z)
  : M (nat -> Follow.View -> list Follow.View -> list Follow.LogLine) :=
  do id <- container_id id;
  do _ <- rg (Registry.get_container id);
  ret (Follow.tail_logs (fun s => files (Logs.log_path (Registry.run_dir paths) id (source_name s))) follow tail).

(** ** Interactive sessions *)

(** [PtyResizeTarget], with the socket of its session. *)
Record Target := mkTarget { t_zone_name : string; t_container_id : string; t_session_id : option string; t_socket : string }.

(** The container of a session and its zone. *)
Definition session_container (id : string) : M (string * string) :=
  do id <- container_id id;
  do c <- rg (Registry.get_container id);
  do zone_name <- zone_of c;
  ret (id, zone_name).

Definition ask_shim (what zone_name : string) (request : ShimRequest) : M ShimResponse := fun w =>
  let '(r, w') := Registry.shim_request paths zone_name request w in
  (map_err (fun e => mkStatus Internal ("shim " ++ what ++ " failed: " ++ Tasks.text_of e)) r, w').

Definition connect_session (what socket_path : string) : M unit := fun w =>
  let '(r, e) := Registry.connect socket_path (Registry.env w) in
  (map_err (fun x => mkStatus Internal ("failed to connect to " ++ what ++ " socket: " ++ x)) r, Registry.set_env e w).

Definition env_text (kv : string * string) : string := fst kv ++ "=" ++ snd kv.

(** The session [exec_stream] sets up for the first message of its stream. *)
Definition exec_stream (stream : Stream ExecMessage) : M Target :=
  match stream with
  | Ok (Some (ExecStart start)) :: _ =>
      do (id, zone_name) <- session_container (es_container_id start);
      do response <- ask_shim "exec" zone_name
        (Exec id (es_command start) (map env_text (map_to_list (es_env start))) (es_tty start));
      match response with
      | RExecReady session_id socket_path =>
          do _ <- connect_session "exec" socket_path; ret (mkTarget zone_name id session_id socket_path)
      | RAttachReady socket_path session_id =>
          do _ <- connect_session "attach" socket_path; ret (mkTarget zone_name id session_id socket_path)
      | RError message => internal ("exec failed: " ++ message)
      | _ => internal "unexpected shim response"
      end
  | Ok _ :: _ => invalid "first message must be ExecStreamStart"
  | _ => invalid "empty stream"
  end.

Definition attach (stream : Stream AttachMessage) : M Target :=
  match stream with
  | Ok (Some (AttachStart id)) :: _ =>
      do (id, zone_name) <- session_container id;
      do response <- ask_shim "attach" zone_name (Attach id true);
      match response with
      | RAttachReady socket_path session_id =>
          do _ <- connect_session "attach" socket_path; ret (mkTarget zone_name id session_id socket_path)
      | RError message => internal ("attach failed: " ++ message)
      | _ => internal "unexpected shim response"
      end
  | Ok _ :: _ => invalid "first message must be AttachStart"
  | _ => invalid "empty stream"
  end.

(** [PtyResizeTarget::resize]: a failure is only logged. *)
Definition resize (t : Target) (rows cols : Z) : M unit :=
  do _ <- attempt (ask_shim "resize" (t_zone_name t) (ResizePty (t_container_id t) (t_session_id t) rows cols));
  ret tt.

(** What a client's messages after the first do to the session: until the stream ends or
    fails, or the session's socket does. *)
Fixpoint relay_in (t : Target) (stream : Stream ExecMessage) : M unit :=
  match stream with
  | Ok (Some (StdinData data)) :: stream =>
      do r <- (fun w => let '(r, e) := Registry.write_all (t_socket t) data (Registry.env w) in (Ok r, Registry.set_env e w));
      match r with Err _ => ret tt | Ok _ => relay_in t stream end
  | Ok (Some (Resize rows cols)) :: stream => do _ <- resize t rows cols; relay_in t stream
  | Ok _ :: stream => relay_in t stream
  | Err _ :: _ | [] => ret tt
  end.

(** What the client is sent of the session's output: every read of at most 4096 bytes is
    one message, until the session ends or the client is gone, which takes [room]. *)
Fixpoint relay_out (room : nat) (reads : list (result (list Z) string)) : list (list Z) :=
  match reads, room with
  | Ok (x :: data) :: reads, S room => (x :: data) :: relay_out room reads
  | _, _ => []
  end.

(** ** Policies *)

Lemma wp_rg {A} (c : StateError.M World RauhaError A) (Q : result A Status -> World -> Prop) w :
  wp c (fun r w' => Q (map_err to_status r) w') w -> wp (rg c) Q w.
Proof. unfold wp, rg. by destruct (c w). Qed.

(** A policy that was read is one that can be printed and read again. *)
Lemma memory_size_width text n : parse_memory_size text = Ok n -> in_width 64 n.
Proof.
  assert (Hw : forall z, in_width 64 (wrap 64 z)) by (intros z; apply Z.mod_pos_bound; done).
  unfold parse_memory_size, scaled, mul64.
  repeat break_match; try done; intros [= <-]; try apply Hw; eapply parse_uint_width; done || eassumption.
Qed.

Lemma read_policy_wf toml root t p : Policy.parse_policy from_str toml root = Ok (t, p) -> Policy.policy_wf p.
Proof.
  unfold Policy.parse_policy. destruct (from_str toml) as [file|]; [|done]. cbn [map_err].
  destruct (zone_type_of_str _); [|done]. unfold to_zone_policy. destruct (zone_type_of_str _); [|done].
  destruct (admission_of _); [|done]. destruct (capabilities_of _) as [caps|] eqn:Hc; [|done].
  destruct (resources_of _) as [res|] eqn:Hr; [|done]. destruct (network_of _) as [net|] eqn:Hn; [|done].
  intros [= _ <-]. unfold Policy.policy_wf. cbn. split_and!.
  - destruct (capabilities_of_mask _ _ Hc) as [m ->]. done.
  - apply Forall_forall. intros x Hx. destruct (network_of_targets _ _ Hn x Hx) as (e & He & _). unfold check_target. by rewrite He.
  - revert Hr. unfold resources_of. destruct (pf_resources file) as [r|]; [|intros [= <-]; unfold in_width; simpl; lia].
    destruct (fr_memory_limit r) as [m|].
    + destruct (parse_memory_size m) as [n|] eqn:Hm; [|done]. intros [= <-]. by eapply memory_size_width.
    + intros [= <-]. unfold in_width. simpl. lia.
Qed.

Context {CT : BackendContract B I} {PL : Metadata.PostcardLaws P}.
Notation stored := Metadata.stored_zone.

Lemma apply_policy_spec n p w : Registry.wf w ->
  wp (Registry.apply_policy n p) (fun r w' => forall u, r = Ok u ->
    exists h z z', Registry.handles w !! n = Some h /\ stored (Registry.zones w) n = Some z /\
      stored (Registry.zones w') n = Some z' /\ z_id z' = z_id z /\ z_name z' = n /\ z_policy z' = p /\
      Registry.handles w' = Registry.handles w /\ view (Registry.backend w') !! h_id h = Some (Some p)) w.
Proof.
  intros W. unfold Registry.apply_policy, Registry.get_zone. wp_step. wp_step.
  apply Registry.wp_get_zone; [done|]. intros e. wp_step; [|done]. rename a into z, H into Hz.
  eapply wp_mono; [apply Registry.apply_policy_locked_spec|]. intros r w' (_ & EH & _ & _ & Hr) u ->.
  destruct Hr as (h & z' & b & Hh & Hid & Hnm & Hp & Hb & EZ & Hv & _).
  destruct (Registry.wf_stored _ _ _ _ _ W n z Hz) as [Hn _]. exists h, z, z'. cbn in *.
  rewrite EZ, Hn, (Registry.stored_insert _ _ _ z') by done. split_and!; done || congruence.
Qed.

Lemma apply_policy_steps n text w w' : apply_policy n text w = (Ok tt, w') ->
  exists t p, Policy.parse_policy from_str text (Registry.root paths) = Ok (t, p) /\
    Registry.apply_policy n p w = (Ok tt, w').
Proof.
  unfold apply_policy, check_policy_size, read_policy, rg, bind, invalid. destruct (policy_max_bytes <? _)%Z; [done|]. cbn.
  destruct (Policy.parse_policy _ _ _) as [[t p]|]; [|done]. cbn. intros H. exists t, p. split; [done|].
  destruct (Registry.apply_policy n p w) as [[[]|] ?]; cbn in H; by simplify_eq.
Qed.

Lemma get_policy_steps n w toml w' : get_policy n w = (Ok toml, w') ->
  exists z e, stored (Registry.zones w) n = Some z /\ w' = Registry.set_env e w /\
    toml = Policy.policy_to_toml (z_name z) (z_zone_type z) (z_policy z).
Proof.
  revert toml w'. enough (wp (get_policy n) (fun r w' => forall toml, r = Ok toml -> exists z e,
    stored (Registry.zones w) n = Some z /\ w' = Registry.set_env e w /\
    toml = Policy.policy_to_toml (z_name z) (z_zone_type z) (z_policy z)) w) as H.
  { intros toml w' Hg. unfold wp in H. rewrite Hg in H. by apply H. }
  unfold get_policy, Registry.get_zone. wp_step. apply wp_rg. wp_step. apply Registry.wp_get_zone; [done|].
  intros e. wp_step; [|done]. cbn [map_err]. wp_step. intros toml Ht. injection Ht as Ht. by exists a, e.
Qed.

(** C38. A policy text the API accepts is what the zone runs under and what its record says;
    the API then prints that policy for it.  Where no string of the policy needs escaping in
    TOML, the printed text is read back, by any reader that reads plain TOML, as the same
    policy but for the brokered system calls, and applying it leaves the zone with that:
    the zone's broker is gone without an error.  Where one does, the text can be that of
    another policy: [Policy.quotes_forge_entries]. *)
Theorem policy_survives_the_api `{!Policy.PolicyReader from_str} n text w T w1 :
  Registry.reachable paths w T -> apply_policy n text w = (Ok tt, w1) ->
  exists t p h z, Policy.parse_policy from_str text (Registry.root paths) = Ok (t, p) /\
    Registry.handles w1 !! n = Some h /\ view (Registry.backend w1) !! h_id h = Some (Some p) /\
    stored (Registry.zones w1) n = Some z /\ z_policy z = p /\
    forall toml w2, get_policy n w1 = (Ok toml, w2) ->
      toml = Policy.policy_to_toml n (z_zone_type z) p /\
      (Policy.printable n p = true ->
        Policy.parse_policy from_str toml (Registry.root paths) = Ok (z_zone_type z, Policy.drop_broker p) /\
        forall w3, apply_policy n toml w2 = (Ok tt, w3) ->
          view (Registry.backend w3) !! h_id h = Some (Some (Policy.drop_broker p)) /\
          exists z3, stored (Registry.zones w3) n = Some z3 /\ z_policy z3 = Policy.drop_broker p).
Proof.
  intros HR (t & p & Hp & Ha)%apply_policy_steps. pose proof (Registry.registry_wf_of _ _ _ HR) as W.
  pose proof (apply_policy_spec n p w W) as S1. unfold wp in S1. rewrite Ha in S1. cbn [fst snd] in S1.
  destruct (S1 tt eq_refl) as (h & _ & z & Hh & _ & Hz & _ & Hn & Hpol & EH & Hv).
  pose proof (Registry.registry_wf_of _ _ _ (Registry.reach_op paths (Registry.OApply n p) w T HR)) as W1.
  cbn [Registry.exec] in W1. rewrite Ha in W1. cbn [snd] in W1.
  exists t, p, h, z. split_and!; [done|by rewrite EH|done..|]. clear S1.
  intros toml w2 (z1 & e & Hz1 & -> & ->)%get_policy_steps. rewrite Hz in Hz1. injection Hz1 as <-. rewrite Hn, Hpol.
  split; [done|]. intros Hprint. apply read_policy_wf in Hp.
  assert (Hback : Policy.parse_policy from_str (Policy.policy_to_toml n (z_zone_type z) p) (Registry.root paths) = Ok (z_zone_type z, Policy.drop_broker p)).
  { unfold Policy.parse_policy. rewrite Policy.printed_text_reads by done. cbn.
    by rewrite Policy.zone_type_of_type_str, Policy.to_zone_policy_printed. }
  split; [done|]. intros w3 (t3 & p3 & Hp3 & Ha3)%apply_policy_steps. rewrite Hback in Hp3. injection Hp3 as <- <-.
  pose proof (apply_policy_spec n (Policy.drop_broker p) (Registry.set_env e w1) W1) as S3. unfold wp in S3. rewrite Ha3 in S3. cbn [fst snd] in S3.
  destruct (S3 tt eq_refl) as (h3 & _ & z3 & Hh3 & _ & Hz3 & _ & _ & Hp3 & _ & Hv3).
  cbn in Hh3. rewrite EH, Hh in Hh3. injection Hh3 as <-. split; [done|]. by exists z3.
Qed.

(** ** Sessions *)

(** The zone a container is looked up in is one whose handle carries its zone's id. *)
Lemma zone_name_for_container_handle id n (w : World) : Registry.zone_name_for_container id w = Some n ->
  exists h, Registry.handles w !! n = Some h /\ h_id h = id.
Proof.
  unfold Registry.zone_name_for_container. destruct (List.find _ _) as [[m h]|] eqn:Hf; [|done]. intros [= <-].
  apply find_some in Hf as [Hin Hid]. apply String.eqb_eq in Hid. exists h. split; [|done].
  apply elem_of_map_to_list. by apply list_elem_of_In.
Qed.

Lemma maybe_reap_zone c (w : World) :
  wp (Registry.maybe_reap_container c) (fun r _ => forall c', r = Ok c' -> c_zone_id c' = c_zone_id c) w.
Proof.
  assert (Hsame : forall c', Ok (A := Container) (E := RauhaError) c = Ok c' -> c_zone_id c' = c_zone_id c) by by intros ? [= <-].
  unfold Registry.maybe_reap_container. case_bool_decide; [|done]. destruct (_ ≫= _) as [pid|]; [|done].
  wp_step. unfold wp at 1. destruct (Registry.is_process_dead pid w) as [[[]|] ?]; cbn [fst snd]; [|by apply wp_ret|done].
  apply wp_bind, Registry.wp_sys. intros t e. wp_step. apply wp_attempt. unfold wp at 1.
  destruct (Registry.meta_put_container _ _). cbn [fst snd]. apply wp_ret. by intros ? [= <-].
Qed.

Lemma session_container_spec text w : Registry.wf w ->
  wp (session_container text) (fun r w' => forall id n, r = Ok (id, n) -> parse_uuid text = Ok id /\ Registry.tends w w' /\
    exists c z, Metadata.stored_container (Registry.containers w) id = Some c /\ stored (Registry.zones w) n = Some z /\
      z_id z = c_zone_id c) w.
Proof.
  intros W. unfold session_container, container_id. wp_step. destruct (parse_uuid text) as [u|]; [|done].
  wp_step. wp_step. apply wp_rg. unfold Registry.get_container. wp_step.
  apply Registry.find_container_wp; [done..|]. intros c e _ Hc Hhome.
  pose proof (Registry.maybe_reap_tends c (Registry.set_env e w) W Hhome) as Ht.
  pose proof (maybe_reap_zone c (Registry.set_env e w)) as Hz. unfold wp in Ht, Hz |- *.
  destruct (Registry.maybe_reap_container c _) as [[c'|] w1]; cbn [fst snd map_err] in *; [|done].
  specialize (Hz c' eq_refl). unfold zone_of. apply wp_bind, wp_bind, wp_gets, wp_or_fail; [|done].
  intros n (h & Hh & Hid)%zone_name_for_container_handle. wp_step. intros id m [= <- <-]. split; [done|].
  split; [exact Ht|]. destruct Ht as (W1 & EZ & EH & _). destruct (Registry.wf_handle _ _ _ _ _ W1 n h Hh) as (z & Hsz & Hzid).
  exists c, z. rewrite EZ in Hsz. split_and!; [done..|congruence].
Qed.

(** A session [exec_stream] opens belongs to the container the client named: the
    container is on record, the zone is the one it was created in, it is this zone's shim
    that was asked to run the client's command in this container, and the socket relayed
    to is the one that shim answered with; zones, their handles and their enforcement are
    untouched. *)
Theorem exec_reaches_its_zone stream w T t w' : Registry.reachable paths w T -> exec_stream stream w = (Ok t, w') ->
  exists start rest c z (w1 w2 : World) response,
    stream = Ok (Some (ExecStart start)) :: rest /\ parse_uuid (es_container_id start) = Ok (t_container_id t) /\
    Metadata.stored_container (Registry.containers w) (t_container_id t) = Some c /\
    stored (Registry.zones w) (t_zone_name t) = Some z /\ z_id z = c_zone_id c /\
    Registry.shim_request paths (t_zone_name t)
      (Exec (t_container_id t) (es_command start) (map env_text (map_to_list (es_env start))) (es_tty start)) w1 = (Ok response, w2) /\
    (response = RExecReady (t_session_id t) (t_socket t) \/ response = RAttachReady (t_socket t) (t_session_id t)) /\
    Registry.tends w w'.
Proof.
  intros HR0 He. pose proof (Registry.registry_wf_of _ _ _ HR0) as HR.
  destruct stream as [|[[[start| |]|]|] rest]; try done. cbn [exec_stream] in He.
  pose proof (session_container_spec (es_container_id start) w HR) as Hs. unfold bind at 1 in He. unfold wp in Hs.
  destruct (session_container _ w) as [[[id n]|] w1]; [|done]. cbn [fst snd] in Hs.
  destruct (Hs id n eq_refl) as (Hid & Ht & c & z & Hc & Hz & Hzc). clear Hs.
  unfold bind at 1 in He. unfold ask_shim in He.
  pose proof (Registry.quiet_tending _ (Registry.shim_request_quiet paths n (Exec id (es_command start) (map env_text (map_to_list (es_env start)))
    (es_tty start))) w1 (proj1 Ht)) as Hq. unfold wp in Hq.
  destruct (Registry.shim_request paths n _ w1) as [[response|] w2] eqn:Hsh; [|done]. cbn [fst snd map_err] in Hq, He.
  assert (forall what socket u w3, connect_session what socket w2 = (Ok u, w3) -> Registry.tends w2 w3) as Hcon.
  { unfold connect_session. intros what socket u w3. destruct (Registry.connect _ _) as [r e]. intros [= _ <-].
    destruct Hq as (W2 & _). by apply Registry.same_tends; [split_and!|]. }
  destruct response; try done; unfold bind in He;
    (destruct (connect_session _ _ w2) as [[[]|] w3] eqn:Hcn; [|done]); injection He as <- <-;
    pose proof (Registry.tends_trans _ _ _ Ht (Registry.tends_trans _ _ _ Hq (Hcon _ _ _ _ Hcn))) as Hall;
    exists start, rest, c, z, w1, w2; eexists; cbn; split_and!; try done; eauto.
Qed.

End Services.

(** ** On a concrete registry *)

Module Demo.
Import Registry.Demo.
#[local] Existing Instance MapManager.ideal_host.
#[local] Existing Instance Registry.Demo.backend.
#[local] Existing Instance Registry.Demo.contract.
#[local] Existing Instance Registry.Demo.env.
#[local] Existing Instance Registry.Demo.codec.
#[local] Existing Instance Registry.Demo.codec_laws.

Notation reader := Policy.fragment_reader.
Definition text := Policy.policy_to_toml "z" NonGlobal (policy 1).
Definition created := snd (Registry.exec paths (Registry.OCreate "z" NonGlobal (policy 0)) w0).
Definition applied := snd (apply_policy paths 65536 reader "z" text created).
Definition printed := snd (get_policy "z" applied).
Definition again := snd (apply_policy paths 65536 reader "z" text printed).

Lemma policy_survives_the_api_witness :
  exists h z, Registry.handles applied !! "z" = Some h /\
    view (Registry.backend applied) !! h_id h = Some (Some (policy 1)) /\
    fst (get_policy "z" applied) = Ok text /\
    Metadata.stored_zone (Registry.zones again) "z" = Some z /\ z_policy z = Policy.drop_broker (policy 1).
Proof.
  assert (Ha : apply_policy paths 65536 reader "z" text created = (Ok tt, applied)) by (vm_compute; reflexivity).
  destruct (policy_survives_the_api paths 65536 reader "z" text created ∅ applied w1_reachable Ha)
    as (t & p & h & z & Hp & Hh & Hv & Hz & _ & Hg).
  assert (p = policy 1) as -> by (vm_compute in Hp; by injection Hp).
  assert (z_zone_type z = NonGlobal) as Hn by (vm_compute in Hz; by injection Hz as <-).
  assert (He : get_policy "z" applied = (Ok text, printed)) by (vm_compute; reflexivity).
  destruct (Hg _ _ He) as [_ H3]. rewrite Hn in H3.
  assert (Hplain : Policy.printable "z" (policy 1) = true) by (vm_compute; reflexivity).
  assert (Hag : apply_policy paths 65536 reader "z" text printed = (Ok tt, again)) by (vm_compute; reflexivity).
  destruct (proj2 (H3 Hplain) again Hag) as (_ & z3 & Hz3 & Hp3).
  exists h, z3. rewrite He. split_and!; [exact Hh|exact Hv|reflexivity|exact Hz3|exact Hp3].
Defined.

(** A host whose shim answers with a session. *)
#[local] Instance sessions : Registry.Env (list (option string)) := {|
  Registry.redb := Registry.redb; Registry.now := Registry.now; Registry.remove_dir_all := Registry.remove_dir_all;
  Registry.unmount_overlay := Registry.unmount_overlay; Registry.kill0 := Registry.kill0;
  Registry.read_to_string := Registry.read_to_string; Registry.stat_ino := Registry.stat_ino;
  Registry.path_exists := Registry.path_exists; Registry.connect := Registry.connect; Registry.write_all := Registry.write_all;
  Registry.flush := Registry.flush; Registry.read_stream := Registry.read_stream; Registry.to_allocvec := Registry.to_allocvec;
  Registry.from_bytes _ := Ok (RExecReady (Some "s1") "/run/rauha/exec-s1.sock");
  Registry.shim_io_text := Registry.shim_io_text; Registry.debug_response := Registry.debug_response;
  Registry.image_safe_name := Registry.image_safe_name; Registry.layer_digests := Registry.layer_digests;
  Registry.prepare_layers := Registry.prepare_layers |}.

Definition spec : ContainerSpec := mkSpec "c" "" [] [] None None None.
Definition held := snd (Registry.exec paths (Registry.OCreateContainer "z" spec) (snd (Registry.exec paths (Registry.OCreate "z" NonGlobal (policy 0)) w0))).
Definition shell : Stream ExecMessage := [Ok (Some (ExecStart (mkExecStart "c" ["sh"] ∅ true)))].

Lemma exec_reaches_its_zone_witness :
  exists z, fst (exec_stream paths Ok shell held) = Ok (mkTarget "z" "c" (Some "s1") "/run/rauha/exec-s1.sock") /\
    Metadata.stored_zone (Registry.zones held) "z" = Some z.
Proof.
  assert (Hr : Registry.reachable paths held ∅).
  { refine (Registry.reach_op paths (Registry.OCreateContainer "z" spec) _ ∅ _).
    exact (Registry.reach_op paths (Registry.OCreate "z" NonGlobal (policy 0)) w0 ∅ (Registry.reach_init paths (mkB ∅ 0) [])). }
  assert (He : exec_stream paths Ok shell held =
    (Ok (mkTarget "z" "c" (Some "s1") "/run/rauha/exec-s1.sock"), snd (exec_stream paths Ok shell held))) by (vm_compute; reflexivity).
  destruct (exec_reaches_its_zone paths Ok shell held ∅ _ _ Hr He) as (_ & _ & _ & z & _ & _ & _ & _ & _ & _ & Hz & _).
  exists z. split; [rewrite He; reflexivity|exact Hz].
Defined.
End Demo.
End Services.
