(* ===== verification/ImageService.v ===== *)
(** * The image service

    The gRPC handlers [ImageServiceImpl] of [rauhad/src/server.rs] over [Images], and
    [list_images] of [rauha-oci/src/image.rs].  A pull reports its progress through a
    bounded channel that refuses a message when it is full. *)

From stdpp Require Import base gmap strings list.
From Stdlib Require Import ZArith Ascii String Lia.
From S2P Require Import Prelude.
From S2P Require Import RustStr.
From S2P Require Import RustText.
From S2P Require Import Zone.
From S2P Require Import StateError.
From S2P Require Import Shim.
From S2P Require Import BpfMaps.
From S2P Require Import Reference.
From S2P Require Import Content.
From S2P Require Import Images.
From S2P Require Import Tasks.
Open Scope string_scope.

Module ImageService.
Import Images.
Import Tasks(Status(..), to_status, to_internal_status, text_of).

(** [rauha_oci::image::ImageInfo]. *)
Record StoredImage := mkStored { si_reference : string; si_digest : string; si_layers : Z; si_size : Z }.
(** [pb::image::ImageInfo] and [pb::image::InspectImageResponse]. *)
Record ImageInfo := mkInfo { im_digest : string; im_tags : list string; im_size : Z; im_created_at : string }.
Record InspectImageResponse := mkInspected {
  in_digest : string; in_tags : list string; in_size : Z; in_config_json : string; in_layers : list string }.

(** [Path::extension] and [Path::file_stem] of a file name. *)
Definition extension (file_name : string) : option string :=
  match Str.rsplit_once "." file_name with
  | Some (EmptyString, _) | None => None
  | Some (_, ext) => Some ext
  end.
Definition file_stem (file_name : string) : string :=
  match Str.rsplit_once "." file_name with
  | Some (EmptyString, _) | None => file_name
  | Some (stem, _) => stem
  end.

Section Service.
Context {HB : BpfHost} `{Sha : Sha256} `{Json : OciJson} {N : Type} `{Net : Http N}.
Context (root target_arch : string).
Notation World := (Images.World (N := N)).

(** ** The images of the store *)

Definition manifests_dir : string := Content.manifests_dir (content_root root).

(** The names of the files in the directory, in any order. *)
Definition names_in (dir : string) (files : gmap string string) : list string :=
  omap (fun kv => match Str.strip_prefix (dir ++ "/") (fst kv) with
                  | Some name => if Str.contains_char "/" name then None else Some name
                  | None => None
                  end) (map_to_list files).
(** The directory is there since the store was opened; looking at it can still fail. *)
Definition dir_exists : Content.M bool :=
  do f <- Content.next_fault; ret (match f with Content.Fine => true | _ => false end).
Definition read_dir (dir : string) : Content.M (list string) :=
  do f <- Content.next_fault;
  match f with
  | Content.Fine => gets (fun d => names_in dir (Content.files d))
  | Content.Refused e | Content.Torn _ e => fail e
  end.

(** The sum of the sizes is unchecked. *)
Definition layers_and_size (digest_str : string) : StateError.M World RauhaError (Z * Z) :=
  match Content.parse digest_str with
  | None => ret (0, 0)%Z
  | Some digest =>
      do data <- attempt (on_disk (Content.get_blob (content_root root) digest) (fun e => ContentError e));
      ret (match data with
           | Err _ => (0, 0)%Z
           | Ok data =>
               match manifest_of_json data with
               | Ok m => (Z.of_nat (List.length (layers m)), wrap 64 (foldr (fun l s => size l + s)%Z 0%Z (layers m)))
               | Err _ => (0, 0)%Z
               end
           end)
  end.

Fixpoint list_entries (file_names : list string) : StateError.M World RauhaError (list StoredImage) :=
  match file_names with
  | [] => ret []
  | name :: rest =>
      if bool_decide (extension name = Some "json") then
        do text <- attempt (on_disk (Content.read (Shim.join_path manifests_dir name)) (fun e => ContentError e));
        let digest_str := Str.trim (match text with Ok t => t | Err _ => "" end) in
        do (layers, size) <- layers_and_size digest_str;
        do images <- list_entries rest;
        ret (mkStored (file_stem name) digest_str layers size :: images)
      else list_entries rest
  end.

Definition list_images : StateError.M World RauhaError (list StoredImage) :=
  do there <- on_disk dir_exists (fun e => ContentError e);
  if there : bool then
    do entries <- on_disk (read_dir manifests_dir) (fun e => ContentError ("failed to read manifests dir: " ++ e));
    list_entries entries
  else ret [].

(** ** Handlers *)

Notation M := (StateError.M World Status).
Definition svc {A} (c : StateError.M World RauhaError A) : M A := fun w => let '(r, w') := c w in (map_err to_status r, w').

(** [try_send] on the channel: whether it takes each message, which it does not when the
    client lags or is gone. *)
Fixpoint taken (room : list bool) (ps : list PullProgress) : list PullProgress :=
  match ps with
  | [] => []
  | p :: ps => (if match room with b :: _ => b | [] => true end then [p] else []) ++ taken (tail room) ps
  end.

(** The stream of a pull. *)
Definition pull_stream (room : list bool) (reference : string) (w : World) : list (result PullProgress Status) * World :=
  let '(r, w') := Images.pull root target_arch reference w in
  ((map Ok (taken room (drop (List.length (progress w)) (progress w'))) ++
   match r with Ok _ => [] | Err e => [Err (to_internal_status (text_of e))] end)%list, w').

Definition list_service : M (list ImageInfo) :=
  do images <- svc list_images;
  ret (map (fun i => mkInfo (si_digest i) [si_reference i] (si_size i) "") images).

Definition remove (reference : string) : M unit := svc (Images.remove_image root reference).

Definition inspect_service (reference : string) : M InspectImageResponse :=
  do i <- svc (Images.inspect_full root reference);
  ret (mkInspected (ii_digest i) [reference] (ii_size i) (ii_config_json i) (ii_layers i)).

(** ** What a pull tells *)

(** Progress is only ever added, and none of it is the last. *)
Definition adds (w w' : World) : Prop :=
  exists ps, progress w' = (progress w ++ ps)%list /\ Forall (fun p => Images.done p = false) ps.

#[local] Instance adds_preorder : PreOrder adds.
Proof.
  split; [intros w; exists []; by rewrite app_nil_r|].
  intros w1 w2 w3 (p & E1 & F1) (q & E2 & F2). exists (p ++ q)%list. rewrite E2, E1, app_assoc. split; [done|by apply Forall_app].
Qed.

Lemma adds_same {A} (c : StateError.M World RauhaError A) : (forall w, progress (snd (c w)) = progress w) -> keeps adds c.
Proof.
  intros Hc w. unfold wp. specialize (Hc w). destruct (c w) as [r w']; simpl in *. exists []. by rewrite app_nil_r.
Qed.

Lemma adds_disk {A} (c : StateError.M Content.Disk string A) err : keeps adds (on_disk c err).
Proof. apply adds_same. intros w. unfold on_disk. by destruct (c (disk w)). Qed.
Lemma adds_net {A} (f : N -> result A string * N) err : keeps adds (on_net f err).
Proof. apply adds_same. intros w. unfold on_net. by destruct (f (net w)). Qed.
Lemma adds_progress p : Images.done p = false -> keeps adds (on_progress p).
Proof. intros Hp w. unfold on_progress. wp_step. exists [p]. split; [done|by constructor]. Qed.
Lemma adds_pct p : keeps adds (set_pct p).
Proof. by apply adds_same. Qed.
Lemma adds_cache a b t : keeps adds (cache_token a b t).
Proof. by apply adds_same. Qed.
#[local] Hint Resolve adds_disk adds_net adds_progress adds_pct adds_cache : keeps.

Ltac adds_auto := repeat first [solve [eauto 3 with keeps] | keeps_step | case_match].

Lemma adds_send attempts req reference : keeps adds (send_attempts attempts req reference).
Proof.
  induction attempts as [|a rest IH]; [apply keeps_fail; apply _|]. cbn [send_attempts].
  apply keeps_bind; [apply _|apply adds_net|]. intros resp. case_match; [apply keeps_ret; apply _|].
  apply keeps_bind; [apply _|apply adds_net|auto].
Qed.
#[local] Hint Resolve adds_send : keeps.

Lemma adds_auth url a b accept : keeps adds (with_auth url a b accept).
Proof. unfold with_auth, get_cached_token, send_with_rate_limit, fetch_token, http_error. adds_auto. Qed.
#[local] Hint Resolve adds_auth : keeps.

Lemma adds_manifest r : keeps adds (pull_manifest root target_arch r).
Proof. unfold pull_manifest, authenticated_get, put_manifest. adds_auto. Qed.

Lemma adds_download dg (on_chunk : Z -> Z -> StateError.M World RauhaError unit) total cs : forall n body,
  (forall a b, keeps adds (on_chunk a b)) -> keeps adds (download dg on_chunk total n body cs).
Proof.
  induction cs as [|[c|e] cs IH]; intros n body Hc; cbn [download]; [apply keeps_ret; apply _| |apply keeps_fail; apply _].
  apply keeps_bind; [apply _|apply Hc|]. intros _. by apply IH.
Qed.

Lemma adds_blob a b dg (on_chunk : Z -> Z -> StateError.M World RauhaError unit) :
  (forall a b, keeps adds (on_chunk a b)) -> keeps adds (pull_blob root a b dg on_chunk).
Proof.
  intros Hc. unfold pull_blob, authenticated_get_response.
  repeat first [solve [eauto 3 with keeps] | apply adds_download; exact Hc | keeps_step | case_match].
Qed.

Lemma adds_layers s r count ls : forall i, keeps adds (pull_layers root s r count i ls).
Proof.
  induction ls as [|l ls IH]; intros i; cbn [pull_layers]; [apply keeps_ret; apply _|].
  apply keeps_bind; [apply _|apply keeps_or_fail; apply _|]. intros dg.
  apply keeps_bind; [apply _|by apply adds_progress|]. intros _.
  apply keeps_bind; [apply _|apply adds_pct|]. intros _.
  apply keeps_bind; [apply _|apply adds_blob; intros; unfold report_layer; adds_auto|]. intros _. apply IH.
Qed.

Lemma adds_present entries : keeps adds (all_present root entries).
Proof. induction entries as [|e rest IH]; cbn [all_present]; adds_auto. Qed.
#[local] Hint Resolve adds_present adds_manifest adds_layers : keeps.

Lemma adds_cached c : keeps adds (cached_manifest root c).
Proof. unfold cached_manifest, manifest_blobs_present. adds_auto. Qed.

(** A computation that ends, when it succeeds, with the one message that says so. *)
Definition ends {A} (c : StateError.M World RauhaError A) : Prop := forall w,
  wp c (fun r w' => match r with
                    | Err _ => adds w w'
                    | Ok _ => exists w1 p, adds w w1 /\ progress w' = (progress w1 ++ [p])%list /\ Images.done p = true
                    end) w.

Lemma ends_bind {A B} (c : StateError.M World RauhaError A) (k : A -> StateError.M World RauhaError B) :
  keeps adds c -> (forall a, ends (k a)) -> ends (bind c k).
Proof.
  intros Hc Hk w. apply wp_bind. eapply wp_mono; [apply Hc|]. intros [a|e] w1 H1; [|done].
  eapply wp_mono; [apply Hk|]. intros [b|e] w2; [|by etransitivity].
  intros (w3 & p & H2 & E & Hp). exists w3, p. split; [by etransitivity|done].
Qed.
Lemma ends_told {A} text (a : A) : ends (do _ <- told text true; ret a).
Proof. intros w. unfold told, on_progress. wp_step. wp_step. wp_step. eexists w, _. split; [reflexivity|]. done. Qed.
Lemma ends_fail {A} e : ends (A := A) (fail e).
Proof. intros w. wp_step. reflexivity. Qed.

Lemma pull_ends s : ends (Images.pull root target_arch s).
Proof.
  unfold Images.pull, pull_blobs.
  apply ends_bind; [apply keeps_of_result; apply _|]. intros r. apply ends_bind; [apply adds_cached|]. intros cached.
  assert (H : forall t, keeps adds (told (N := N) t false)) by (intros t; by apply adds_progress).
  repeat first
    [ apply ends_told | apply ends_fail
    | apply ends_bind; [first [apply H|apply adds_layers|apply adds_blob; intros; apply keeps_ret; apply _|solve [adds_auto]]|intros ?]
    | case_match ].
Qed.

Lemma taken_all ps : taken [] ps = ps.
Proof. induction ps as [|p ps IH]; [done|]. cbn. by rewrite IH. Qed.

(** The stream of a pull, to a client whose channel takes every message, ends with the
    one message that tells how the pull went: reports none of which claims to be the
    last, and then one that says the pull is done exactly when the pull succeeded, or
    the pull's error. *)
Theorem pull_stream_tells_the_outcome s w :
  exists ps, Forall (fun p => Images.done p = false) ps /\
    match fst (Images.pull root target_arch s w) with
    | Ok _ => exists p, Images.done p = true /\ fst (pull_stream [] s w) = (map Ok ps ++ [Ok p])%list
    | Err e => fst (pull_stream [] s w) = (map Ok ps ++ [Err (to_internal_status (text_of e))])%list
    end.
Proof.
  pose proof (pull_ends s w) as H. unfold wp, pull_stream in *. destruct (Images.pull root target_arch s w) as [[m|e] w']; cbn [fst snd] in *.
  - destruct H as (w1 & p & (ps & E1 & F) & E2 & Hp). exists ps. split; [done|]. exists p. split; [done|].
    rewrite E2, E1, taken_all, <- app_assoc, drop_app_length, app_nil_r, map_app. done.
  - destruct H as (ps & E1 & F). exists ps. split; [done|]. by rewrite E1, taken_all, drop_app_length.
Qed.

End Service.

(** ** What clients meet *)

Module Demo.
Import Images.Demo.
#[local] Existing Instance MapManager.ideal_host.
#[local] Existing Instance Images.Demo.sha.
#[local] Existing Instance Images.Demo.json.
#[local] Existing Instance Images.Demo.http.

Definition root : string := "/var/lib/rauha".
Definition tagged : string := "docker.io/library/alpine:3".
Definition held := snd (Images.pull root "x86_64" tagged (Images.start [] answers)).
Definition listed : list ImageInfo := match fst (list_service root held) with Ok l => l | Err _ => [] end.

(** The name an image is listed under is its file's, which is another reference: removing
    the image by it reports success and removes nothing. *)
Example listed_name_removes_nothing :
  map im_tags listed = [["registry-1.docker.io_library_alpine_3"]] /\
  fst (remove root "registry-1.docker.io_library_alpine_3" held) = Ok tt /\
  fst (list_service root (snd (remove root "registry-1.docker.io_library_alpine_3" held))) = Ok listed /\
  fst (list_service root (snd (remove root tagged held))) = Ok [].
Proof. split_and!; vm_compute; reflexivity. Qed.

(** A client that does not keep up with a pull that succeeds is never told it is done. *)
Example slow_client_is_not_told :
  forallb (fun m => match m with Ok p => negb (Images.done p) | Err _ => false end)
    (fst (pull_stream root "x86_64" (replicate 3 true ++ replicate 5 false) tagged (Images.start [] answers))) = true /\
  is_ok (fst (Images.pull root "x86_64" tagged (Images.start [] answers))) = true.
Proof. split; vm_compute; reflexivity. Qed.

End Demo.
End ImageService.
