(* ===== verification/RuntimeSpec.v ===== *)
(** * OCI runtime specs

    [generate_spec] of [rauha-oci/src/runtime.rs]: an image's configuration, the spec of a
    container and the fixed mounts and namespaces as one OCI runtime spec.  The builders of
    [oci_spec] are given every field they require and are read as records. *)

From stdpp Require Import base gmap list strings.
From Stdlib Require Import Ascii String.
From S2P Require Import Prelude.
From S2P Require Import RustStr.
From S2P Require Import RustText.
From S2P Require Import Zone.
From S2P Require Import Backend.
From S2P Require Import Images.
Open Scope string_scope.

Module RuntimeSpec.
Import Str Text Backend(ContainerSpec(..), sp_name, sp_command, sp_env, sp_working_dir).
Import Images(OciImageConfig(..), inner_config, OciImageConfigInner(..), cmd, entrypoint, working_dir).

Record Process := mkProcess { args : list string; env : list string; cwd : string; terminal : bool }.
Record Root := mkRoot { path : string; readonly : bool }.
Record Mount := mkMount { destination : string; typ : string; source : string; options : list string }.
Inductive LinuxNamespaceType := Pid | Mnt | Network | Uts | Ipc | User | CgroupNs | TimeNs.
Record RtSpec := mkRtSpec {
  version : string; root : Root; process : Process; mounts : list Mount; namespaces : list LinuxNamespaceType;
  hostname : string }.

(** What the image says, if it has a configuration. *)
Definition of_image {A} (img : option OciImageConfigInner) (f : OciImageConfigInner -> option A) : option A :=
  match img with Some c => f c | None => None end.

Definition command_args (img : option OciImageConfigInner) (spec : ContainerSpec) : list string :=
  match sp_command spec with
  | [] =>
      match (default [] (of_image img entrypoint) ++ default [] (of_image img cmd))%list with
      | [] => ["/bin/sh"]
      | args => args
      end
  | args => args
  end.

(** The first entry of a key is replaced, or one is added. *)
Fixpoint set_env (k v : string) (env : list string) : list string :=
  match env with
  | [] => [k ++ "=" ++ v]
  | e :: env => if starts_with (k ++ "=") e then (k ++ "=" ++ v) :: env else e :: set_env k v env
  end.

Definition DEFAULT_PATH : string := "PATH=/usr/local/sbin:/usr/local/bin:/usr/sbin:/usr/bin:/sbin:/bin".

(** The overrides come in the order the map of the container gives them. *)
Definition merged_env (image_env : list string) (overrides : list (string * string)) : list string :=
  let env := foldl (fun env kv => set_env kv.1 kv.2 env) image_env overrides in
  if existsb (starts_with "PATH=") env then env else (env ++ [DEFAULT_PATH])%list.

Definition STANDARD_MOUNTS : list Mount :=
  [mkMount "/proc" "proc" "proc" [];
   mkMount "/sys" "sysfs" "sysfs" ["nosuid"; "noexec"; "nodev"; "ro"];
   mkMount "/dev" "tmpfs" "tmpfs" ["nosuid"; "strictatime"; "mode=755"; "size=65536k"];
   mkMount "/dev/pts" "devpts" "devpts" ["nosuid"; "noexec"; "newinstance"; "ptmxmode=0666"; "mode=0620"];
   mkMount "/dev/shm" "tmpfs" "shm" ["nosuid"; "noexec"; "nodev"; "mode=1777"; "size=65536k"]].
Definition ns_types : list LinuxNamespaceType := [Pid; Mnt; Network; Uts; Ipc].

Definition generate_spec (image : OciImageConfig) (spec : ContainerSpec) (policy : Zone.ZonePolicy) (rootfs_path : string) : RtSpec :=
  let img := inner_config image in
  mkRtSpec "1.0.2" (mkRoot rootfs_path false)
    (mkProcess (command_args img spec) (merged_env (default [] (of_image img Images.env)) (sp_env spec))
       (default "/" (match sp_working_dir spec with Some d => Some d | None => of_image img working_dir end)) false)
    STANDARD_MOUNTS ns_types (sp_name spec).

(** ** The environment *)

(** What a program reads for a key: its first entry. *)
Fixpoint getenv (k : string) (env : list string) : option string :=
  match env with
  | [] => None
  | e :: env => match strip_prefix (k ++ "=") e with Some v => Some v | None => getenv k env end
  end.

Definition plain (k : string) : Prop := all_chars (fun c => negb (Ascii.eqb c "=")) k = true.

Lemma starts_String a p s : starts_with (String a p) s = true -> exists s', s = String a s' /\ starts_with p s' = true.
Proof.
  unfold starts_with. destruct s as [|c s]; [done|]. cbn [String.prefix]. destruct (ascii_dec a c) as [->|]; [|done]. eauto.
Qed.

Lemma key_unique k k' s : plain k -> plain k' -> starts_with (k ++ "=") s = true -> starts_with (k' ++ "=") s = true -> k = k'.
Proof.
  unfold plain. revert k' s. induction k as [|a k IH]; intros [|b k'] s Hk Hk'; [done|..];
    intros (x & -> & H1)%starts_String (y & Hy & H2)%starts_String; injection Hy as Ha ->; subst; [done|done|].
  f_equal. cbn in Hk, Hk'. apply andb_true_iff in Hk as [_ Hk], Hk' as [_ Hk']. by apply (IH k' y).
Qed.

Lemma strip_starts p s : starts_with p s = true <-> is_Some (strip_prefix p s).
Proof.
  unfold starts_with. revert s. induction p as [|a p IH]; intros s; [split; [by eexists|by destruct s]|].
  destruct s as [|b s]; [split; [done|by intros []]|]. cbn.
  destruct (ascii_dec a b) as [->|Hn]; [by rewrite Ascii.eqb_refl|].
  destruct (Ascii.eqb_spec a b) as [->|]; [done|]. split; [done|by intros []].
Qed.

Lemma strip_entry k v : strip_prefix (k ++ "=") (k ++ "=" ++ v) = Some v.
Proof. rewrite <- string_app_assoc. apply strip_prefix_app. Qed.
Lemma entry_starts k v : starts_with (k ++ "=") (k ++ "=" ++ v) = true.
Proof. apply strip_starts. rewrite strip_entry. by eexists. Qed.

(** An entry is of one key. *)
Lemma other_key k k' e : plain k -> plain k' -> k <> k' -> starts_with (k' ++ "=") e = true -> strip_prefix (k ++ "=") e = None.
Proof.
  intros Hk Hk' Hne He. destruct (strip_prefix (k ++ "=") e) eqn:E; [|done]. destruct Hne.
  apply (key_unique k k' e); [done..| |done]. apply strip_starts. by eexists.
Qed.

Lemma getenv_set k v env : getenv k (set_env k v env) = Some v.
Proof.
  induction env as [|e env IH]; cbn [set_env]; [cbn [getenv]; by rewrite strip_entry|].
  destruct (starts_with (k ++ "=") e) eqn:E; cbn [getenv]; [by rewrite strip_entry|].
  destruct (strip_prefix (k ++ "=") e) eqn:Hs; [|done]. exfalso.
  enough (starts_with (k ++ "=") e = true) by congruence. apply strip_starts. by eexists.
Qed.

Lemma getenv_set_other k k' v env : plain k -> plain k' -> k <> k' -> getenv k (set_env k' v env) = getenv k env.
Proof.
  intros Hk Hk' Hne. induction env as [|e env IH]; cbn [set_env].
  - cbn [getenv]. by rewrite (other_key k k' _ Hk Hk' Hne (entry_starts k' v)).
  - destruct (starts_with (k' ++ "=") e) eqn:E; cbn [getenv]; [|by rewrite IH].
    by rewrite (other_key k k' _ Hk Hk' Hne (entry_starts k' v)), (other_key k k' e).
Qed.

Lemma getenv_overrides k overrides env : plain k -> Forall (fun kv => plain kv.1) overrides -> NoDup (overrides.*1) ->
  getenv k (foldl (fun env kv => set_env kv.1 kv.2 env) env overrides) =
  match (list_to_map overrides : gmap string string) !! k with Some v => Some v | None => getenv k env end.
Proof.
  intros Hk. revert env. induction overrides as [|[k' v] os IH]; intros env Hp Hnd; [done|].
  apply Forall_cons in Hp as [Hp Hps]. cbn in Hp, Hnd. apply NoDup_cons in Hnd as [Hnin Hnd]. cbn [foldl fst snd]. rewrite list_to_map_cons.
  rewrite IH by done. destruct (decide (k' = k)) as [->|Hne].
  - rewrite lookup_insert_eq, (not_elem_of_list_to_map_1 _ _ Hnin). apply getenv_set.
  - rewrite lookup_insert_ne by done. by rewrite getenv_set_other by done.
Qed.

Lemma getenv_app k e env : getenv k (env ++ e)%list = match getenv k env with Some v => Some v | None => getenv k e end.
Proof. induction env as [|x env IH]; [done|]. cbn. by destruct (strip_prefix _ x). Qed.

Lemma getenv_some k e env : e ∈ env -> starts_with (k ++ "=") e = true -> is_Some (getenv k env).
Proof.
  intros He Hs%strip_starts. induction He as [|? x env0 Hin IH]; cbn [getenv].
  - destruct Hs as [v ->]. by eexists.
  - destruct (strip_prefix _ x); [by eexists|by apply IH].
Qed.

(** What a program of the container reads for a key is what the container's spec gives it,
    or else the image, in whatever order the map of the spec is walked; and it always reads
    a PATH. *)
Theorem container_environment image spec policy rootfs k :
  plain k -> Forall (fun kv => plain kv.1) (sp_env spec) -> NoDup ((sp_env spec).*1) ->
  let image_env := default [] (of_image (inner_config image) Images.env) in
  let read := getenv k (env (process (generate_spec image spec policy rootfs))) in
  (forall v, (k, v) ∈ sp_env spec -> read = Some v) /\
  (k ∉ (sp_env spec).*1 -> forall v, getenv k image_env = Some v -> read = Some v) /\
  (k ∉ (sp_env spec).*1 -> k <> "PATH" -> getenv k image_env = None -> read = None) /\
  (k = "PATH" -> is_Some read).
Proof.
  intros Hk Hp Hnd image_env. cbn [generate_spec process env]. fold image_env. unfold merged_env.
  pose proof (getenv_overrides k (sp_env spec) image_env Hk Hp Hnd) as Hg.
  set (env0 := foldl _ image_env (sp_env spec)) in *.
  assert (Hread : forall v, getenv k env0 = Some v -> getenv k (if existsb (starts_with "PATH=") env0 then env0 else env0 ++ [DEFAULT_PATH])%list = Some v).
  { intros v Hv. destruct (existsb _ env0); [done|]. by rewrite getenv_app, Hv. }
  split_and!.
  - intros v Hv. apply Hread. by rewrite Hg, (elem_of_list_to_map_1 _ _ _ Hnd Hv).
  - intros Hn v Hv. apply Hread. by rewrite Hg, (not_elem_of_list_to_map_1 _ _ Hn).
  - intros Hn Hne Hv. rewrite (not_elem_of_list_to_map_1 _ _ Hn), Hv in Hg. destruct (existsb _ env0); [done|].
    rewrite getenv_app, Hg. cbn [getenv]. by rewrite (other_key k "PATH").
  - intros ->. destruct (existsb _ env0) eqn:E.
    + apply existsb_exists in E as (e & He & Hs). apply list_elem_of_In in He. by apply (getenv_some _ e).
    + rewrite getenv_app. destruct (getenv _ env0); by eexists.
Qed.
End RuntimeSpec.
