(* ===== verification/Client.v ===== *)
(** * What a client believes

    The checks of the command line on what the daemon answers: [rauha sandbox] and
    [rauha sandbox-result] ([rauha-cli/src/commands/sandbox.rs]) show a receipt only when
    it verifies and is about the very result shown, [rauha receipt verify]
    ([receipt.rs]) checks a kept receipt against a trusted key.  Printing, the gRPC
    connection and the argument parser are left out. *)

From stdpp Require Import base gmap strings list.
From Stdlib Require Import ZArith Ascii String Lia.
From S2P Require Import Prelude.
From S2P Require Import RustStr.
From S2P Require Import RustText.
From S2P Require Import Content.
From S2P Require Import Results.
From S2P Require Import Receipts.
From S2P Require Import Seal.
From S2P Require Import Tasks.
From S2P Require Import Images.
Open Scope string_scope.

Module Client.
Import Receipts Seal.

#[export] Instance image_dec : EqDecision Results.ImageAdmission. Proof. solve_decision. Defined.
#[export] Instance totals_dec : EqDecision Results.EnforcementTotals. Proof. solve_decision. Defined.
#[export] Instance payload_dec : EqDecision Results.ExecutionReceiptPayload. Proof. solve_decision. Defined.
#[export] Instance subject_dec : EqDecision StatementSubject. Proof. solve_decision. Defined.
#[export] Instance statement_dec : EqDecision InTotoStatement. Proof. solve_decision. Defined.

(** The reader of the documents the daemon writes. *)
Class DocumentJson := {
  receipt_of_json : string -> result SignedExecutionReceipt string;
  envelope_of_json : string -> result DsseEnvelope string }.
Class DocumentJsonLaws `{!DocumentJson} `{!ReceiptJson} `{!ResultJson} := {
  receipt_round : forall r, receipt_of_json (Receipts.receipt_json r) = Ok r;
  envelope_round : forall e, envelope_of_json (envelope_json e) = Ok e;
  envelope_not_empty : forall e, envelope_json e <> "" }.

(** [parse_env_pair]. *)
Definition parse_env_pair (value : string) : result (string * string) string :=
  match Str.split_once "=" value with
  | None => Err "environment variables must use KEY=VALUE"
  | Some (key, value) => if String.eqb key "" then Err "environment variable key must not be empty" else Ok (key, value)
  end.

(** What [print_result] exits with. *)
Definition exit_status (r : SandboxResult) : Z :=
  match exit_code r with
  | Some code => code
  | None => if String.eqb (status r) "timed_out" then 137 else 1
  end.

Section Client.
Context `{Ed : Receipts.Ed25519} `{Enc : Receipts.Encodings} `{RJson : Receipts.ReceiptJson} `{Sha : Sha256}.
Context `{J : ResultJson} `{DJ : !DocumentJson}.

(** The comparison of [verify_receipts]. *)
Definition matches (p : Results.ExecutionReceiptPayload) (r : SandboxResult) : bool :=
  negb (negb (String.eqb (Results.task_id p) (task_id r))
        || negb (String.eqb (Results.zone_id p) (zone_id r))
        || negb (String.eqb (Results.status p) (status r))
        || negb (bool_decide (Results.exit_code p = exit_code r))
        || negb (String.eqb (default "" (Results.started_at p)) (started_at r))
        || negb (String.eqb (default "" (Results.finished_at p)) (finished_at r))
        || negb (bool_decide (Results.unavailable_controls p = unavailable_controls r))
        || negb (bool_decide (Results.capture_issues p = capture_issues r))
        || negb (match outputs_digest r with Ok d => String.eqb d (Results.outputs_sha256 p) | Err _ => false end)).

(** The receipts that verified, and the first problem. *)
Definition verify_receipts (r : SandboxResult) : option SignedExecutionReceipt * option DsseEnvelope * option string :=
  match receipt_of_json (receipt_json r) with
  | Err error => (None, None, Some ("daemon returned an invalid receipt: " ++ error))
  | Ok receipt =>
      match verify receipt with
      | Err error => (None, None, Some ("daemon returned an unverifiable receipt: " ++ error))
      | Ok _ =>
          if negb (matches (payload receipt) r) then (None, None, Some "signed receipt does not match the task result")
          else if String.eqb (receipt_dsse_json r) "" then (Some receipt, None, None)
          else
            match envelope_of_json (receipt_dsse_json r) with
            | Err error => (Some receipt, None, Some ("daemon returned an invalid DSSE envelope: " ++ error))
            | Ok envelope =>
                match verify_public_hex envelope (public_key receipt) with
                | Err error => (Some receipt, None, Some ("DSSE envelope verification failed: " ++ error))
                | Ok statement =>
                    if bool_decide (statement = statement_from_payload (payload receipt))
                    then (Some receipt, Some envelope, None)
                    else (Some receipt, None, Some "DSSE statement does not match the signed receipt")
                end
            end
      end
  end.

(** ** Soundness *)

(** A payload tells a result: who ran, how it ended, what was lost, and the digest of its
    output. *)
Definition tells (p : Results.ExecutionReceiptPayload) (r : SandboxResult) : Prop :=
  Results.task_id p = task_id r /\ Results.zone_id p = zone_id r /\ Results.status p = status r /\
  Results.exit_code p = exit_code r /\ default "" (Results.started_at p) = started_at r /\
  default "" (Results.finished_at p) = finished_at r /\ Results.unavailable_controls p = unavailable_controls r /\
  Results.capture_issues p = capture_issues r /\ outputs_digest r = Ok (Results.outputs_sha256 p).

Lemma matches_tells p r : matches p r = true <-> tells p r.
Proof.
  unfold matches, tells. rewrite negb_true_iff, !orb_false_iff, !negb_false_iff, !String.eqb_eq, !bool_decide_eq_true.
  destruct (outputs_digest r) as [d|e]; [rewrite String.eqb_eq|]; intuition (congruence || done).
Qed.

Lemma verify_receipts_sound r receipt envelope problem : verify_receipts r = (Some receipt, envelope, problem) ->
  receipt_of_json (receipt_json r) = Ok receipt /\ verify receipt = Ok tt /\ tells (payload receipt) r /\
  forall e, envelope = Some e -> problem = None /\ envelope_of_json (receipt_dsse_json r) = Ok e /\
    verify_public_hex e (public_key receipt) = Ok (statement_from_payload (payload receipt)).
Proof.
  unfold verify_receipts. destruct (receipt_of_json (receipt_json r)) as [rc|]; [|done].
  destruct (verify rc) as [[]|] eqn:Hv; [|done]. destruct (matches (payload rc) r) eqn:Hm; cbn [negb]; [|done].
  apply matches_tells in Hm. destruct (String.eqb _ ""); [by intros [= <- <- <-]|].
  destruct (envelope_of_json _) as [e|]; [|by intros [= <- <- <-]].
  destruct (verify_public_hex e _) as [st|] eqn:Hd; [|by intros [= <- <- <-]].
  case_bool_decide as Hst; intros [= <- <- <-]; split_and!; try done. intros e' [= <-]. by rewrite Hd, Hst.
Qed.

End Client.

(** ** What the daemon seals is believed *)

Section Believed.
Context `{Ed : Receipts.Ed25519} `{EdL : !Ed25519Laws} `{Enc : Receipts.Encodings} `{EncL : !EncodingsLaws}.
Context `{RJson : Receipts.ReceiptJson} `{RJsonL : !ReceiptJsonLaws} `{Sha : Sha256} `{W : Wire}.
Context `{J : ResultJson} `{DJ : !DocumentJson} `{DJL : !DocumentJsonLaws}.

(** What the payload says of the run that the loop of [seal_bounded_result] leaves alone. *)
Definition about (r : SandboxResult) (p : Results.ExecutionReceiptPayload) : Prop :=
  Results.schema p = EXECUTION_RECEIPT_SCHEMA /\ Results.task_id p = task_id r /\ Results.zone_id p = zone_id r /\
  default "" (Results.started_at p) = started_at r /\ default "" (Results.finished_at p) = finished_at r.

Lemma seal_loop_about fuel key r p r' : about r p -> told r p -> seal_loop fuel key r p = Some (Ok r') ->
  exists p', covers key r' p' /\ about r' p' /\ same_task p' p.
Proof.
  revert r p. induction fuel as [|fuel IH]; intros r p Ha Ht; [done|]. cbn [seal_loop].
  destruct (signed key r p) as [[r1 p1]|e] eqn:Hs; [|done]. destruct (signed_spec _ _ _ _ _ Hs Ht) as (_ & Hcov & Hsame & Ht1).
  assert (Ha1 : about r1 p1).
  { unfold signed in Hs. destruct (outputs_digest _); [|done]. cbn in Hs. destruct (verify _); [|done]. cbn in Hs.
    by injection Hs as <- <-. }
  destruct (_ <=? _)%Z; [intros [= <-]; by exists p1|].
  destruct (cut r1) as [r2|] eqn:Hc; [|done]. apply cut_cut_of in Hc. intros Hseal.
  destruct Hc as [(E1 & E2 & _ & E3 & E4 & _ & E5 & E6 & _ & _ & E7) _ _ _ _].
  destruct (IH r2 p1) as (p' & Hcov' & Ha' & Hsame'); [..|done|].
  - unfold about in *. by rewrite E1, E2, E5, E6.
  - unfold told in *. by rewrite E3, E4, E7.
  - exists p'. split_and!; [done..|]. unfold same_task in *. intuition congruence.
Qed.

Lemma some_text_default s : default "" (some_text s) = s.
Proof. unfold some_text. by destruct (String.eqb_spec s "") as [->|]. Qed.

Lemma own_dsse_verifies key p : Results.schema p = EXECUTION_RECEIPT_SCHEMA ->
  verify_public_hex (sign_dsse key p) (public_key (sign key p)) = Ok (statement_from_payload p).
Proof.
  intros Hs. destruct (own_receipts_verify key p Hs) as [_ H]. revert H. unfold verify_public_hex. cbn [sign public_key].
  by rewrite trim_line, Text.trim_graphic by apply hex_graphic.
Qed.

Lemma covered_result_is_believed key r p : covers key r p -> about r p ->
  verify_receipts r = (Some (sign key p), Some (sign_dsse key p), None).
Proof.
  intros (Hv & Hr & Hd & Ho & Hi & Hs & Hx & Hu) (Hsc & Ht & Hz & Hst & Hf). unfold verify_receipts.
  rewrite Hr, receipt_round, Hv. cbn [payload sign public_key].
  rewrite (proj2 (matches_tells p r)) by by split_and!. cbn [negb].
  rewrite Hd, envelope_round. destruct (String.eqb_spec (envelope_json (sign_dsse key p)) ""); [by apply envelope_not_empty in e|].
  rewrite own_dsse_verifies by done. by rewrite bool_decide_true.
Qed.

(** C29. A result the daemon seals for a task is believed by the client, with both receipts,
    and they are about that task, image and policy; and whoever carries the same receipt
    past the client's check carries the same run: the same task, status, exit code, output
    and issues, as long as the digest has no collision on outputs. *)
Theorem sealed_result_is_believed r p key r' : Results.schema p = EXECUTION_RECEIPT_SCHEMA ->
  Results.task_id p = task_id r -> Results.zone_id p = zone_id r -> seal_bounded_result r p key = Some (Ok r') ->
  exists p', verify_receipts r' = (Some (sign key p'), Some (sign_dsse key p'), None) /\ same_task p' p /\
    forall r2 receipt envelope problem, receipt_json r2 = receipt_json r' ->
      verify_receipts r2 = (Some receipt, envelope, problem) ->
      (forall d, outputs_digest r2 = Ok d -> outputs_digest r' = Ok d -> stdout r2 = stdout r' /\ stderr r2 = stderr r') ->
      receipt = sign key p' /\ task_id r2 = task_id r' /\ status r2 = status r' /\ exit_code r2 = exit_code r' /\
      stdout r2 = stdout r' /\ stderr r2 = stderr r' /\ capture_issues r2 = capture_issues r'.
Proof.
  intros Hsc Ht Hz Hseal.
  destruct (seal_loop_about (S (bulk r)) key r (with_outcome r p) r') as (p' & Hcov & Hab & Hsame); [|done|exact Hseal|].
  { unfold about, with_outcome. cbn. by rewrite !some_text_default. }
  exists p'. split_and!; [by apply covered_result_is_believed|exact Hsame|].
  intros r2 receipt envelope problem Hr (Hj & _ & Htell & _)%verify_receipts_sound Hnc.
  destruct Hcov as (_ & Hr' & _ & Ho & Hi & Hs & Hx & _), Hab as (_ & Ht' & _). rewrite Hr, Hr', receipt_round in Hj.
  injection Hj as <-. destruct Htell as (T1 & _ & T2 & T3 & _ & _ & _ & T4 & T5). cbn [payload sign] in *.
  destruct (Hnc _ T5 Ho) as [-> ->]. split_and!; congruence.
Qed.
End Believed.

(** ** [rauha sandbox] and [rauha sandbox-result] *)

Section Command.
Context `{Ed : Receipts.Ed25519} `{Enc : Receipts.Encodings} `{RJson : Receipts.ReceiptJson} `{Sha : Sha256}.
Context `{J : ResultJson} `{DJ : !DocumentJson}.

Record SandboxArgs := mkArgs {
  a_task_id : option string; a_image : string; a_name : option string; a_repo_path : option string;
  a_workdir : option string; a_keep_zone : bool; a_audit : bool; a_timeout : Z; a_env : list (string * string);
  a_command : list string }.

(** What is asked of the daemon, and the daemon: what it answers after what it was asked. *)
Inductive Asked := Inspect (reference : string) | Pull (reference : string) | Run (rq : RunSandboxRequest)
  | GetResult (task_id : string) | DeleteResult (task_id : string).
Record Daemon := mkDaemon {
  inspect : list Asked -> result unit Tasks.Status;
  pull : list Asked -> result (list (result Images.PullProgress Tasks.Status)) Tasks.Status;
  run_sandbox : list Asked -> result SandboxResult Tasks.Status;
  get_sandbox_result : list Asked -> result SandboxResult Tasks.Status;
  delete_sandbox_result : list Asked -> result bool Tasks.Status }.
Context (daemon : Daemon).

(** A command: what it has asked, and what comes of it. *)
Definition C (A : Type) : Type := list Asked -> list Asked * result A string.
Definition done {A} (a : A) : C A := fun t => (t, Ok a).
Definition bail {A} (e : string) : C A := fun t => (t, Err e).
Definition andThen {A B} (m : C A) (f : A -> C B) : C B :=
  fun t => match m t with (t, Ok a) => f a t | (t, Err e) => (t, Err e) end.
Definition ask {A} (q : Asked) (answer : list Asked -> A) : C A := fun t => (t ++ [q], Ok (answer t))%list.
Notation "'do' x '<-' m ';' k" := (andThen m (fun x => k)) (at level 60, x pattern, m at next level, right associativity).
Definition or_message {A} (r : result A Tasks.Status) : C A :=
  match r with Ok a => done a | Err s => bail (Tasks.message s) end.

(** How an error of tonic reads when it is not stripped to its message. *)
Context (display : Tasks.Status -> string).

Fixpoint consume_pull_progress (stream : list (result Images.PullProgress Tasks.Status)) : C unit :=
  match stream with
  | [] => done tt
  | Ok _ :: stream => consume_pull_progress stream
  | Err s :: _ => bail (display s)
  end.

Definition pull_if_absent (reference : string) : C unit :=
  do there <- ask (Inspect reference) (inspect daemon);
  match there with
  | Ok _ => done tt
  | Err (Tasks.mkStatus Tasks.NotFound _) =>
      do stream <- ask (Pull reference) (pull daemon);
      match stream with Err s => bail (display s) | Ok stream => consume_pull_progress stream end
  | Err s => bail (Tasks.message s)
  end.

(** [collect] into the map of the request. *)
Definition env_map (env : list (string * string)) : gmap string string := foldl (fun m kv => <[kv.1 := kv.2]> m) ∅ env.

Definition run_request (task_id : string) (a : SandboxArgs) : RunSandboxRequest :=
  mkRequest (a_image a) (a_command a) (default "" (a_name a)) (default "" (a_repo_path a)) (default "" (a_workdir a))
    (a_keep_zone a) (a_timeout a) (map_to_list (env_map (a_env a))) (a_audit a) task_id.

(** What is shown: the result, the receipts that verified, and the status to exit with. *)
Record Shown := mkShown { shown : SandboxResult; receipt : option SignedExecutionReceipt; receipt_dsse : option DsseEnvelope; exits : Z }.
Definition print_result (r : SandboxResult) : Shown :=
  let '(receipt, dsse, _) := verify_receipts r in mkShown r receipt dsse (exit_status r).

Definition handle_sandbox (new_v4 : string) (a : SandboxArgs) : C Shown :=
  do _ <- pull_if_absent (a_image a);
  let task_id := default ("task-" ++ new_v4) (a_task_id a) in
  do r <- ask (Run (run_request task_id a)) (run_sandbox daemon);
  do r <- or_message r;
  done (print_result r).

(** [None]: the deletion was told. *)
Definition handle_result (task_id : string) (delete : bool) : C (option Shown) :=
  if delete then
    do r <- ask (DeleteResult task_id) (delete_sandbox_result daemon);
    do _ <- or_message r;
    done None
  else
    do r <- ask (GetResult task_id) (get_sandbox_result daemon);
    do r <- or_message r;
    done (Some (print_result r)).

(** The end of [main]. *)
Definition main_exit (r : result Shown string) : Z := match r with Ok s => exits s | Err _ => 1 end.

(** ** What the command does *)

(** The image is there: the daemon has it, or its pull came to its end. *)
Definition image_there (image : string) (t : list Asked) : Prop :=
  (t = [Inspect image] /\ exists u, inspect daemon [] = Ok u) \/
  (t = [Inspect image; Pull image] /\ exists ps, pull daemon [Inspect image] = Ok ps /\ Forall is_ok ps).

Lemma consume_asks ps t : consume_pull_progress ps t =
  (t, match list_find (fun p => is_ok p = false) ps with Some (_, Err s) => Err (display s) | _ => Ok tt end).
Proof.
  induction ps as [|[p|s] ps IH]; [done| |done]. cbn [consume_pull_progress]. rewrite IH. cbn.
  by destruct (list_find _ ps) as [[i [|]]|].
Qed.

Lemma pull_if_absent_spec image :
  exists t r, pull_if_absent image [] = (t, r) /\
    (r = Ok tt -> image_there image t) /\ (t = [Inspect image] \/ t = [Inspect image; Pull image]).
Proof.
  unfold pull_if_absent, andThen, ask. cbn. destruct (inspect daemon []) as [u|[c m]] eqn:Hi.
  { eexists _, _. split_and!; [done|intros _; left; eauto|by left]. }
  destruct c; try by eexists _, _; split_and!; [done| |left].
  destruct (pull daemon _) as [ps|s] eqn:Hp; [|by eexists _, _; split_and!; [done| |right]].
  rewrite consume_asks. eexists _, _. split_and!; [done| |by right].
  intros H. right. split; [done|]. exists ps. split; [done|]. apply Forall_forall. intros p Hin.
  destruct (list_find _ ps) as [[i q]|] eqn:Hf.
  - apply list_find_Some in Hf as (_ & Hq & _). by destruct q.
  - apply list_find_None in Hf. rewrite Forall_forall in Hf. specialize (Hf p Hin). by destruct (is_ok p).
Qed.

(** [rauha sandbox] asks for one execution at most, last, and only with the image in the
    store; and it exits with what the daemon says the task exited with, or 1. *)
Theorem sandbox_mirrors_the_task new_v4 a t r : handle_sandbox new_v4 a [] = (t, r) ->
  (forall rq, Run rq ∈ t -> exists t0, t = (t0 ++ [Run rq])%list /\ image_there (a_image a) t0 /\
     rq = run_request (default ("task-" ++ new_v4)%string (a_task_id a)) a /\
     main_exit r = match run_sandbox daemon t0 with Ok res => exit_status res | Err _ => 1%Z end) /\
  ((forall rq, Run rq ∉ t) -> main_exit r = 1%Z).
Proof.
  unfold handle_sandbox, andThen at 1. destruct (pull_if_absent_spec (a_image a)) as (t0 & r0 & -> & Hok & Ht).
  assert (Hno : forall rq, Run rq ∉ t0).
  { intros rq. destruct Ht as [-> | ->]; rewrite !elem_of_cons, elem_of_nil; naive_solver. }
  destruct r0 as [[]|e]; [|intros [= <- <-]; split; [intros rq Hrq; by apply Hno in Hrq|by intros _]].
  unfold andThen, ask, or_message. intros H. assert (Htr : t = (t0 ++ [Run (run_request (default ("task-" ++ new_v4)%string (a_task_id a)) a)])%list).
  { destruct (run_sandbox daemon t0) in H; by injection H. }
  split.
  - intros rq Hrq. rewrite Htr, elem_of_app, list_elem_of_singleton in Hrq. destruct Hrq as [Hrq|[= ->]]; [by apply Hno in Hrq|].
    exists t0. split_and!; [done|by apply Hok|done|]. destruct (run_sandbox daemon t0); injection H as _ <-; [|done].
    cbn. unfold print_result. by destruct (verify_receipts _) as [[? ?] ?].
  - intros Hrq. exfalso. apply (Hrq (run_request (default ("task-" ++ new_v4)%string (a_task_id a)) a)). rewrite Htr, elem_of_app, list_elem_of_singleton. by right.
Qed.
End Command.

(** ** [rauha receipt verify] *)

Section Kept.
Context `{Ed : Receipts.Ed25519} `{Enc : Receipts.Encodings} `{RJson : Receipts.ReceiptJson} `{Sha : Sha256}.
(** JSON values, their fields, and what a value is read as. *)
Context {V : Type} (get : V -> string -> option V) (receipt_of : V -> result SignedExecutionReceipt string)
  (envelope_of : V -> result DsseEnvelope string).

Record ReceiptVerification := mkVerified { rv_schema : string; rv_task_id : string; rv_digest : string }.

Definition verify_legacy (value : V) (trusted_public_key : string) : result ReceiptVerification string :=
  let? receipt := receipt_of value in
  let? _ := verify_trusted receipt trusted_public_key in
  Ok (mkVerified (Results.schema (payload receipt)) (Results.task_id (payload receipt)) (sha256 receipt)).

Definition verify_dsse_file (value : V) (trusted_public_key : string) : result ReceiptVerification string :=
  let? envelope := envelope_of value in
  let? statement := verify_public_hex envelope trusted_public_key in
  Ok (mkVerified (Results.schema (predicate statement) ++ " (" ++ payload_type envelope ++ " dsse)")
        (Results.task_id (predicate statement)) ("sha256:" ++ sha256_hex (payload64 envelope))).

Definition candidate_of (value : V) : V :=
  match get value "result" with
  | Some v => v
  | None => match get value "receipt" with Some v => v | None => value end
  end.
Definition verify_file (value : V) (trusted_public_key : string) : result ReceiptVerification string :=
  let candidate := candidate_of value in
  if bool_decide (is_Some (get candidate "payloadType")) && bool_decide (is_Some (get candidate "signatures"))
  then verify_dsse_file candidate trusted_public_key
  else verify_legacy candidate trusted_public_key.

(** A kept receipt is called verified only when it verifies under the trusted key. *)
Lemma kept_receipt_is_trusted value trusted v : verify_file value trusted = Ok v ->
  (exists r, receipt_of (candidate_of value) = Ok r /\ verify_trusted r trusted = Ok tt /\ rv_task_id v = Results.task_id (payload r)) \/
  (exists e st, envelope_of (candidate_of value) = Ok e /\ verify_public_hex e trusted = Ok st /\ rv_task_id v = Results.task_id (predicate st)).
Proof.
  unfold verify_file. destruct (_ && _); [unfold verify_dsse_file|unfold verify_legacy].
  - destruct (envelope_of _) as [e|]; [|done]. cbn. destruct (verify_public_hex e trusted) as [st|] eqn:Hv; [|done]. cbn. intros [= <-].
    right. by exists e, st.
  - destruct (receipt_of _) as [r|]; [|done]. cbn. destruct (verify_trusted r trusted) as [[]|] eqn:Hv; [|done]. cbn. intros [= <-].
    left. by exists r.
Qed.
End Kept.

Module Demo.
#[local] Existing Instance Receipts.Demo.ed.
#[local] Existing Instance Receipts.Demo.ed_laws.
#[local] Existing Instance Receipts.Demo.encodings.
#[local] Existing Instance Receipts.Demo.encodings_laws.
#[local] Existing Instance Receipts.Demo.sha.
#[local] Existing Instance Receipts.Demo.payload_countable.

(** Receipts and envelopes as the codes of their values. *)
#[local] Instance signed_dec : EqDecision SignedExecutionReceipt. Proof. solve_decision. Defined.
#[local] Instance signed_countable : Countable SignedExecutionReceipt.
Proof. apply (inj_countable' (fun r => (payload r, public_key r, signature r)) (fun '(p, k, s) => mkSigned p k s)). by intros []. Defined.
#[local] Instance signature_dec : EqDecision DsseSignature. Proof. solve_decision. Defined.
#[local] Instance signature_countable : Countable DsseSignature.
Proof. apply (inj_countable' (fun s => (keyid_ s, sig s)) (fun '(k, s) => mkSignature k s)). by intros []. Defined.
#[local] Instance envelope_dec : EqDecision DsseEnvelope. Proof. solve_decision. Defined.
#[local] Instance envelope_countable : Countable DsseEnvelope.
Proof. apply (inj_countable' (fun e => (payload_type e, payload64 e, signatures e)) (fun '(t, p, s) => mkEnvelope t p s)). by intros []. Defined.

Definition text {A} `{Countable A} (x : A) : string := String "{" (Receipts.Demo.bits (encode x)).
Definition read {A} `{Countable A} (s : string) : result A string :=
  match s with String _ s => ok_or (countable.decode (Receipts.Demo.unbits s)) "expected value" | "" => Err "EOF while parsing a value" end.
Lemma read_text {A} `{Countable A} (x : A) : read (text x) = Ok x.
Proof. cbn. by rewrite Receipts.Demo.unbits_bits, decode_encode. Qed.

#[local] Instance json : ReceiptJson := {|
  Receipts.payload_json p := text p; Receipts.statement_json s := @text _ _ Receipts.Demo.statement_countable s;
  Receipts.statement_of_json s := @read _ _ Receipts.Demo.statement_countable s; Receipts.receipt_json r := text r |}.
#[local] Instance json_laws : ReceiptJsonLaws.
Proof.
  split; [intros s; exact (@read_text _ _ Receipts.Demo.statement_countable s)| |intros p; cbn; by destruct (Receipts.Demo.bits _)].
  intros p q [= H]. apply (f_equal Receipts.Demo.unbits) in H. rewrite !Receipts.Demo.unbits_bits in H. by apply (inj encode).
Qed.
#[local] Instance result_json : ResultJson := {|
  sha256_json fields := Ok (String.concat "," (map (fun kv => match snd kv with JString s => s | _ => "" end) fields));
  policy_sha256 _ := Ok ""; envelope_json e := text e |}.
#[local] Instance documents : DocumentJson := {| receipt_of_json := read; envelope_of_json := read |}.
#[local] Instance documents_laws : DocumentJsonLaws.
Proof. split; [intros; apply read_text|intros; apply read_text|done]. Qed.
#[local] Instance wire : Wire := {|
  encoded_len _ := 0%Z; encode_to_vec _ := [1%Z]; decode _ := Err "truncated"; request_len _ := 0%Z |}.

Definition result0 : SandboxResult :=
  mkResult "task-1" "zone-1" ["true"] "succeeded" (Some 0%Z) "hello" "" 0 "t0" "t1" [] [] "strict" [] "" "" [].

(** The first round fits. *)
Definition told0 := with_delivery [] "task-1,succeeded,,hello," (with_outcome result0 Receipts.Demo.receipt).
Definition sealed0 : SandboxResult :=
  with_receipts (Receipts.receipt_json (sign "key" told0)) (envelope_json (sign_dsse "key" told0)) result0.
Lemma seals : seal_bounded_result result0 Receipts.Demo.receipt "key" = Some (Ok sealed0).
Proof.
  assert (Hv : verify (sign "key" told0) = Ok tt).
  { destruct (own_receipts_verify "key" told0 eq_refl) as [H _]. unfold verify_trusted in H. case_match; [done|exact H]. }
  assert (Hs : signed "key" result0 (with_outcome result0 Receipts.Demo.receipt) = Ok (sealed0, told0)).
  { unfold signed. replace (with_issues _ result0) with result0 by reflexivity.
    change (outputs_digest result0) with (@Ok string string "task-1,succeeded,,hello,"). cbv iota. replace (with_delivery _ _ _) with told0 by reflexivity. by rewrite Hv. }
  unfold seal_bounded_result. cbn [seal_loop]. by rewrite Hs.
Qed.

(** The client believes it; a result of the same receipt with another output is not. *)
Definition forged : SandboxResult := with_output "bye" "" sealed0.
Lemma sealed_result_is_believed_witness :
  (exists p', verify_receipts sealed0 = (Some (sign "key" p'), Some (sign_dsse "key" p'), None) /\ Results.task_id p' = "task-1") /\
  forall receipt envelope problem, verify_receipts forged <> (Some receipt, envelope, problem).
Proof.
  destruct (sealed_result_is_believed result0 Receipts.Demo.receipt "key" sealed0 eq_refl eq_refl eq_refl seals)
    as (p' & Hv & (_ & Ht & _) & Hf).
  split; [exists p'; split; [exact Hv|exact Ht]|]. intros receipt envelope problem H.
  destruct (Hf forged receipt envelope problem eq_refl H) as (_ & _ & _ & _ & Hout & _); [|discriminate Hout].
  intros d. vm_compute. intros [= <-] H2. discriminate H2.
Defined.
End Demo.
End Client.
