(* ===== verification/Offsets.v ===== *)
(** * Kernel structure offsets

    [rauha-ebpf-common/src/offsets.rs]: the offsets of kernel structures are read
    from pahole's report of the running kernel, compiled into the eBPF object and
    recorded in a sidecar beside it; with the parts of [xtask/src/main.rs] that
    write the sidecar and of [rauhad/src/backend/linux/ebpf.rs] that read it back
    and hold it against the kernel the daemon runs on.

    Reading files, running pahole and SHA-256 are the machine's. *)

From stdpp Require Import base gmap strings list.
From Stdlib Require Import ZArith Ascii String Lia.
From S2P Require Import Prelude.
From S2P Require Import RustStr.
From S2P Require Import RustText.
From S2P Require Import EnforcerApi.
From S2P Require Import Zone.
From S2P Require Import Utf8.
From S2P Require Import Content.
Open Scope string_scope.

Module Offsets.
Import Str Text.

(** ** The offsets in question *)

Record OffsetDef := mkDef {
  type_name : string; field_names : list string; rust_const : string; manifest_key : string }.
Record ResolvedOffset := mkResolved {
  ro_rust_const : string; ro_manifest_key : string; ro_offset : Z }.
Record OffsetManifest := mkManifest { object_sha256_of : string; offsets_of : gmap string Z }.

Definition OBJECT_SHA256_KEY : string := "OBJECT_SHA256".

Definition OFFSET_DEFS : list OffsetDef := [
  mkDef "task_struct" ["cgroups"] "TASK_CGROUPS" "TASK_CGROUPS_OFFSET";
  mkDef "css_set" ["dfl_cgrp"] "CSS_SET_DFL_CGRP" "CSS_SET_DFL_CGRP_OFFSET";
  mkDef "cgroup" ["kn"] "CGROUP_KN" "CGROUP_KN_OFFSET";
  mkDef "kernfs_node" ["id"] "KERNFS_NODE_ID" "KERNFS_NODE_ID_OFFSET";
  mkDef "file" ["f_inode"] "FILE_F_INODE" "FILE_F_INODE_OFFSET";
  mkDef "inode" ["i_ino"] "INODE_I_INO" "INODE_I_INO_OFFSET";
  mkDef "linux_binprm" ["file"; "executable"] "BPRM_FILE" "BPRM_FILE_OFFSET"
].

(** ** What pahole reports *)

(** [s.rfind(pat)]: the text before the last occurrence and after it. *)
Fixpoint rsplit_str_once (pat s : string) : option (string * string) :=
  match s with
  | "" => pair "" <$> strip_prefix pat ""
  | String c s' =>
      match rsplit_str_once pat s' with
      | Some (a, b) => Some (String c a, b)
      | None => pair "" <$> strip_prefix pat s
      end
  end.

Definition before (c : ascii) (s : string) : string :=
  match split_once c s with Some (a, _) => a | None => s end.

(** The offset a line of the report gives for a field, if it is that field's. *)
Definition line_offset (field_name line : string) : option Z :=
  match rsplit_str_once "/*" (trim line) with
  | None => None
  | Some (declaration, comment) =>
      match List.last (map Some (split_whitespace (before ";" (trim declaration)))) None with
      | None => None
      | Some identifier =>
          if String.eqb (before ":" (trim_start_matches "*" identifier)) field_name then
            match split_str_once "*/" comment with
            | None => None
            | Some (nums, _) =>
                match split_whitespace (trim nums) with
                | [] => None
                | offset_str :: _ =>
                    match parse_uint 64 offset_str with Ok offset => Some offset | Err _ => None end
                end
            end
          else None
      end
  end.

Fixpoint find_map {A B} (f : A -> option B) (l : list A) : option B :=
  match l with
  | [] => None
  | x :: l' => match f x with Some b => Some b | None => find_map f l' end
  end.

Definition parse_pahole_field_offset (output field_name : string) : result Z string :=
  ok_or (find_map (line_offset field_name) (lines output))
    ("field '" ++ field_name ++ "' not found in pahole output").

(** The samples of the unit tests. *)
Example sample_task_struct : parse_pahole_field_offset (unlines [""; "struct task_struct {";
  "        int                        unrelated;            /*    12     4 */";
  "        struct css_set *           cgroups;              /*  2608     8 */"; "};"]) "cgroups" = Ok 2608%Z.
Proof. vm_compute. reflexivity. Qed.
Example sample_pointer : parse_pahole_field_offset "struct file *executable; /* 48 8 */" "executable" = Ok 48%Z.
Proof. vm_compute. reflexivity. Qed.
Example sample_bitfield : is_ok (parse_pahole_field_offset "unsigned int flag:1; /* 12: 3 4 */" "flag") = false.
Proof. vm_compute. reflexivity. Qed.

(** ** The machine *)

Notation Path := (list Component).

(** [fs::read] and [exists]; [pahole_run] runs a program with
    [-C <type> /sys/kernel/btf/vmlinux] and gives the success of its exit status,
    its standard output and its standard error. *)
Record Machine := mkMachine {
  content : Path -> result string string;
  present : Path -> bool;
  path_var : option string;
  pahole_run : Path -> string -> result (bool * string * string) string;
  write_fault : Path -> option string
}.

Definition lossy (s : string) : string := Utf8.to_string (Utf8.lossy (Utf8.of_string s)).

Definition read_to_string (m : Machine) (p : Path) : result string string :=
  let? data := content m p in
  if Utf8.is_utf8 data then Ok data else Err "stream did not contain valid UTF-8".

Definition write (m : Machine) (p : Path) (data : string) : result Machine string :=
  match write_fault m p with
  | Some e => Err e
  | None => Ok (mkMachine (fun q => if decide (q = p) then Ok data else content m q)
                  (fun q => if decide (q = p) then true else present m q)
                  (path_var m) (pahole_run m) (write_fault m))
  end.

Section Machine.
Context {sha256 : Sha256} (display : Path -> string).

Definition which_pahole (m : Machine) : option Path :=
  match List.find (present m) (map components ["/usr/bin/pahole"; "/usr/local/bin/pahole"]) with
  | Some p => Some p
  | None =>
      match path_var m with
      | None => None
      | Some dirs => List.find (present m) (map (fun dir => components dir ++ [Normal "pahole"])%list (split ":" dirs))
      end
  end.

Definition pahole_field_offset (m : Machine) (pahole : Path) (type_name field_name : string) : result Z string :=
  let? (success, stdout, stderr) := map_err (fun e => "failed to run " ++ display pahole ++ ": " ++ e)
                                       (pahole_run m pahole type_name) in
  if negb success then Err ("pahole failed for " ++ type_name ++ ": " ++ trim (lossy stderr))
  else parse_pahole_field_offset (lossy stdout) field_name.

Definition pahole_field_offset_any (m : Machine) (pahole : Path) (type_name : string) (field_names : list string)
  : result Z string :=
  ok_or (find_map (fun f => match pahole_field_offset m pahole type_name f with Ok o => Some o | Err _ => None end)
           field_names)
    ("none of fields [" ++ join ", " field_names ++ "] found in pahole output for '" ++ type_name ++ "'").

Fixpoint resolve_defs (m : Machine) (pahole : Path) (defs : list OffsetDef) : result (list ResolvedOffset) string :=
  match defs with
  | [] => Ok []
  | def :: defs' =>
      let? offset := pahole_field_offset_any m pahole (type_name def) (field_names def) in
      let? rest := resolve_defs m pahole defs' in
      Ok (mkResolved (rust_const def) (manifest_key def) offset :: rest)
  end.

Definition resolve_kernel_offsets (m : Machine) : result (list ResolvedOffset) string :=
  let? pahole := ok_or (which_pahole m) "pahole not found; install dwarves or put pahole on PATH" in
  resolve_defs m pahole OFFSET_DEFS.

Definition offset_map (offs : list ResolvedOffset) : gmap string Z :=
  fold_left (fun acc o => <[ro_manifest_key o := ro_offset o]> acc) offs ∅.

Definition resolve_kernel_offsets_map (m : Machine) : result (gmap string Z) string :=
  let? offs := resolve_kernel_offsets m in Ok (offset_map offs).

(** ** The sidecar *)

Definition object_sha256 (m : Machine) (p : Path) : result string string :=
  let? data := map_err (fun e => "failed to read " ++ display p ++ ": " ++ e) (content m p) in
  Ok (sha256_hex data).

(** [path.file_name()] and [path.with_file_name(name)]. *)
Definition file_name (p : Path) : option string :=
  match List.last (map Some p) None with Some (Normal n) => Some n | _ => None end.
Definition with_file_name (p : Path) (name : string) : Path :=
  match file_name p with Some _ => removelast p | None => p end ++ [Normal name].

Definition offsets_sidecar_path (obj : Path) : Path :=
  with_file_name obj
    (default "rauha-ebpf" (match file_name obj with Some n => if Utf8.is_utf8 n then Some n else None | None => None end)
     ++ ".offsets").

Definition offset_line (o : ResolvedOffset) : string := ro_manifest_key o ++ "=" ++ show (ro_offset o).

Definition render_offsets_sidecar (object_sha256 : string) (offs : list ResolvedOffset) : string :=
  unlines (["# Generated by `cargo xtask build-ebpf`.";
            "# key=value byte offsets compiled into the eBPF object.";
            OBJECT_SHA256_KEY ++ "=" ++ object_sha256] ++ map offset_line offs).

(** The lines from [line_no] on, with what earlier ones gave. *)
Fixpoint parse_lines (line_no : Z) (ls : list string) (sha : option string) (offs : gmap string Z)
  : result (option string * gmap string Z) string :=
  match ls with
  | [] => Ok (sha, offs)
  | line :: ls' =>
      let trimmed := trim line in
      if String.eqb trimmed "" || starts_with "#" trimmed then parse_lines (line_no + 1) ls' sha offs
      else
        let? (key, value) := ok_or (split_once "=" trimmed) ("invalid offsets sidecar line " ++ show (line_no + 1)) in
        let key := trim key in
        let value := trim value in
        if String.eqb key OBJECT_SHA256_KEY then
          match sha with
          | Some _ => Err ("duplicate " ++ OBJECT_SHA256_KEY ++ " in offsets sidecar")
          | None => parse_lines (line_no + 1) ls' (Some value) offs
          end
        else
          let? offset := map_err (fun e => "invalid offset value for " ++ key ++ ": " ++ Zone.int_error_text e)
                           (parse_uint 64 value) in
          match offs !! key with
          | Some _ => Err ("duplicate offset key " ++ key ++ " in offsets sidecar")
          | None => parse_lines (line_no + 1) ls' sha (<[key := offset]> offs)
          end
  end.

Definition parse_offsets_sidecar (content : string) : result OffsetManifest string :=
  let? (sha, offs) := parse_lines 0 (lines content) None ∅ in
  let? sha := ok_or sha ("missing " ++ OBJECT_SHA256_KEY ++ " in offsets sidecar") in
  Ok (mkManifest sha offs).

(** The build's side. *)
Definition write_offsets_sidecar (m : Machine) (artifact : Path) (offs : list ResolvedOffset)
  : result (Path * Machine) string :=
  let sidecar := offsets_sidecar_path artifact in
  let? object_hash := object_sha256 m artifact in
  let manifest := render_offsets_sidecar object_hash offs in
  let? m' := map_err (fun _ => "failed to write " ++ display sidecar) (write m sidecar manifest) in
  Ok (sidecar, m').

(** ** The daemon's side *)

Definition build_hint : string := "run `cargo xtask build-ebpf` to regenerate the eBPF object and sidecar".
Definition sidecar_hint : string := "run `cargo xtask build-ebpf` to regenerate the sidecar".

Definition read_compiled_offsets (m : Machine) (obj : Path) : result (gmap string Z) RauhaError :=
  let sidecar := offsets_sidecar_path obj in
  let? text := map_err (fun e => EbpfError ("failed to read eBPF offsets sidecar " ++ display sidecar ++ ": " ++ e)
                                   build_hint) (read_to_string m sidecar) in
  let? manifest := map_err (fun e => EbpfError ("invalid eBPF offsets sidecar " ++ display sidecar ++ ": " ++ e)
                                       sidecar_hint) (parse_offsets_sidecar text) in
  let? actual_hash := map_err (fun e => EbpfError ("failed to hash eBPF object " ++ display obj ++ ": " ++ e)
                                          "check eBPF object permissions and rebuild if needed") (object_sha256 m obj) in
  if negb (String.eqb actual_hash (object_sha256_of manifest)) then
    Err (EbpfError ("eBPF object hash mismatch: sidecar has " ++ object_sha256_of manifest ++ " but object hashes to "
                      ++ actual_hash) sidecar_hint)
  else Ok (offsets_of manifest).

(** The loop over [OFFSET_DEFS] in [EbpfManager::load]. *)
Fixpoint compare_offsets (resolved compiled : gmap string Z) (defs : list OffsetDef) : result unit RauhaError :=
  match defs with
  | [] => Ok tt
  | def :: defs' =>
      let key := manifest_key def in
      let? r := ok_or (resolved !! key) (EbpfError ("resolved offset " ++ key ++ " is missing")
                                           "install dwarves/pahole and rebuild eBPF programs") in
      let? c := ok_or (compiled !! key) (EbpfError ("compiled offset " ++ key ++ " is missing from sidecar")
                                           build_hint) in
      if negb (r =? c)%Z then
        Err (EbpfError ("kernel struct offset mismatch for " ++ key ++ ": running kernel has " ++ show r
                          ++ " but eBPF object was compiled with " ++ show c)
               "rebuild eBPF on this kernel with `cargo xtask build-ebpf`")
      else compare_offsets resolved compiled defs'
  end.

Definition check_offsets (m : Machine) (obj : Path) : result unit RauhaError :=
  let? resolved := map_err (fun e => EbpfError ("failed to resolve kernel offsets: " ++ e)
                               "install dwarves/pahole and ensure /sys/kernel/btf/vmlinux is present")
                     (resolve_kernel_offsets_map m) in
  let? compiled := read_compiled_offsets m obj in
  compare_offsets resolved compiled OFFSET_DEFS.

(** ** Reading back what was written *)

(** Text a line holds: no line break in it. *)
Definition line_char (c : ascii) : bool := negb (Ascii.eqb "010" c) && negb (Ascii.eqb "013" c).

Lemma all_chars_contains p c s : all_chars p s = true -> p c = false -> contains_char c s = false.
Proof.
  intros Hs Hc. induction s as [|d s IH]; [done|]. simpl in *. apply andb_true_iff in Hs as [Hd Hs].
  rewrite IH by done. destruct (Ascii.eqb_spec c d) as [->|]; [congruence|done].
Qed.

Lemma lines_unlines ls : forallb (all_chars line_char) ls = true -> lines (unlines ls) = ls.
Proof.
  intros H. rewrite forallb_forall in H. unfold lines. rewrite split_unlines.
  2: { apply forallb_forall. intros l Hl. unfold one_line.
       by rewrite (all_chars_contains line_char) by (done || by apply H). }
  rewrite last_last. cbn [String.eqb]. rewrite removelast_last.
  rewrite (map_ext_in _ id); [apply map_id|]. intros l Hl. unfold id.
  destruct (strip_suffix _ l) as [t|] eqn:E; [|done]. apply strip_suffix_Some in E. specialize (H l Hl). subst l.
  rewrite all_chars_app, andb_true_iff in H. by destruct H.
Qed.

(** Keys as the table has them: printable, without an equals sign, not a comment. *)
Definition good_key (k : string) : bool :=
  all_chars graphic k && negb (contains_char "=" k) && negb (starts_with "#" k)
  && negb (String.eqb k "") && negb (String.eqb k OBJECT_SHA256_KEY).

Definition good (o : ResolvedOffset) : Prop := good_key (ro_manifest_key o) = true /\ in_width 64 (ro_offset o).

Lemma graphic_show n : all_chars graphic (show n) = true.
Proof.
  pose proof (all_alnum_show n) as H. induction (show n) as [|c s IH]; [done|]. simpl in *.
  apply andb_true_iff in H as [Hc H]. rewrite IH, andb_true_r by done. unfold alnum in Hc. unfold graphic.
  repeat (apply orb_true_iff in Hc as [Hc|Hc]); reflect_bools; apply andb_true_iff; split; apply Z.leb_le; lia.
Qed.

Lemma graphic_line s : all_chars graphic s = true -> all_chars line_char s = true.
Proof.
  apply all_chars_impl. intros c Hc. unfold line_char.
  destruct (Ascii.eqb_spec "010" c) as [<-|]; [done|]. by destruct (Ascii.eqb_spec "013" c) as [<-|].
Qed.

Lemma graphic_pair k v : all_chars graphic k = true -> all_chars graphic v = true ->
  all_chars graphic (k ++ "=" ++ v) = true.
Proof. intros Hk Hv. rewrite !all_chars_app, Hk, Hv. done. Qed.

Lemma starts_with_app c a b : a <> "" -> starts_with (String c "") (a ++ b) = starts_with (String c "") a.
Proof. destruct a as [|d a]; [done|]. intros _. unfold starts_with. simpl. destruct (ascii_dec c d); [|done]. by destruct a, b. Qed.

(** One pair of the sidecar. *)
Lemma parse_pair n k v ls sha offs :
  all_chars graphic k = true -> all_chars graphic v = true -> contains_char "=" k = false ->
  starts_with "#" k = false -> k <> "" ->
  parse_lines n ((k ++ "=" ++ v) :: ls) sha offs =
    if String.eqb k OBJECT_SHA256_KEY then
      match sha with
      | Some _ => Err ("duplicate " ++ OBJECT_SHA256_KEY ++ " in offsets sidecar")
      | None => parse_lines (n + 1) ls (Some v) offs
      end
    else
      let? offset := map_err (fun e => "invalid offset value for " ++ k ++ ": " ++ Zone.int_error_text e)
                       (parse_uint 64 v) in
      match offs !! k with
      | Some _ => Err ("duplicate offset key " ++ k ++ " in offsets sidecar")
      | None => parse_lines (n + 1) ls sha (<[k := offset]> offs)
      end.
Proof.
  intros Hk Hv Heq Hc Hne. cbn [parse_lines]. rewrite trim_graphic by by apply graphic_pair.
  rewrite starts_with_app, Hc by done. destruct (String.eqb_spec (k ++ "=" ++ v) "") as [E|_]; [by destruct k|].
  cbn [orb]. change (k ++ "=" ++ v) with (k ++ String "=" v). rewrite split_once_app by done. cbn [ok_or].
  by rewrite !trim_graphic by done.
Qed.

Lemma parse_offset_lines sha offs : Forall good offs -> forall n acc,
  NoDup (map ro_manifest_key offs) -> (forall o, o ∈ offs -> acc !! ro_manifest_key o = None) ->
  parse_lines n (map offset_line offs) (Some sha) acc =
    Ok (Some sha, fold_left (fun acc o => <[ro_manifest_key o := ro_offset o]> acc) offs acc).
Proof.
  induction 1 as [|o offs [Hk Hw] Hgood IH]; intros n acc Hnd Hfresh; [done|].
  unfold good_key in Hk. rewrite !andb_true_iff, !negb_true_iff, !String.eqb_neq in Hk.
  destruct Hk as [[[[Hg He] Hc] Hne] Hsha]. simpl in Hnd. apply NoDup_cons in Hnd as [Hnew Hnd].
  cbn [map fold_left]. unfold offset_line at 1. rewrite parse_pair by (done || apply graphic_show).
  destruct (String.eqb_spec (ro_manifest_key o) OBJECT_SHA256_KEY); [done|].
  rewrite parse_uint_show by (unfold in_width in Hw; lia). cbn [map_err].
  rewrite Hfresh by left. apply IH; [done|]. intros o' Ho'. rewrite lookup_insert_ne; [apply Hfresh; by right|].
  intros E. apply Hnew. rewrite E. apply list_elem_of_In, in_map. by apply list_elem_of_In.
Qed.

Lemma good_line o : good o -> all_chars line_char (offset_line o) = true.
Proof.
  intros [Hk _]. unfold good_key in Hk. rewrite !andb_true_iff in Hk.
  apply graphic_line, graphic_pair; [by destruct Hk as [[[[? _] _] _] _]|apply graphic_show].
Qed.

(** What is rendered is read back. *)
Lemma sidecar_roundtrip sha offs : all_chars graphic sha = true -> Forall good offs ->
  NoDup (map ro_manifest_key offs) ->
  parse_offsets_sidecar (render_offsets_sidecar sha offs) = Ok (mkManifest sha (offset_map offs)).
Proof.
  intros Hs Hg Hnd. unfold parse_offsets_sidecar, render_offsets_sidecar. rewrite lines_unlines.
  2: { rewrite forallb_app. apply andb_true_iff. split.
       - cbn [forallb]. rewrite (graphic_line (_ ++ _)) by by apply graphic_pair. done.
       - apply forallb_forall. intros l Hl. apply in_map_iff in Hl as (o & <- & Ho). apply good_line.
         rewrite List.Forall_forall in Hg. by apply Hg. }
  cbn [app]. change (parse_lines 0 (?a :: ?b :: ?ls) ?s ?o) with (parse_lines 2 ls s o).
  rewrite parse_pair by done. rewrite String.eqb_refl.
  rewrite parse_offset_lines by (done || intros ? _; apply lookup_empty). done.
Qed.

(** ** Resolving *)

Lemma find_map_Some {A B} (f : A -> option B) l b : find_map f l = Some b -> exists x, x ∈ l /\ f x = Some b.
Proof.
  induction l as [|x l IH]; [done|]. simpl. destruct (f x) eqn:E.
  - intros [= ->]. exists x. split; [left|done].
  - intros (y & Hy & Hf)%IH. exists y. split; [by right|done].
Qed.

Lemma pahole_width m p t f o : pahole_field_offset m p t f = Ok o -> in_width 64 o.
Proof.
  unfold pahole_field_offset. destruct (map_err _ _) as [[[ok out] err]|]; [|done]. destruct ok; [|done]. cbn [negb].
  unfold parse_pahole_field_offset. destruct (find_map _ _) as [b|] eqn:E; [|done]. intros [= <-].
  apply find_map_Some in E as (l & _ & E). revert E. unfold line_offset.
  destruct (rsplit_str_once _ _) as [[d c]|]; [|done]. destruct (List.last _ _) as [i|]; [|done].
  destruct (String.eqb _ _); [|done]. destruct (split_str_once _ _) as [[ns ?]|]; [|done].
  destruct (split_whitespace _) as [|w ?]; [done|]. destruct (parse_uint 64 w) as [v|] eqn:Ep; [|done].
  intros [= <-]. by eapply Zone.parse_uint_width.
Qed.

Lemma any_Ok m p t fs o : pahole_field_offset_any m p t fs = Ok o ->
  exists f, f ∈ fs /\ pahole_field_offset m p t f = Ok o.
Proof.
  unfold pahole_field_offset_any. destruct (find_map _ _) eqn:E; [|done]. intros [= ->].
  apply find_map_Some in E as (f & Hf & E). exists f. split; [done|]. by destruct (pahole_field_offset _ _ _ _); simplify_eq.
Qed.

(** An offset was found where its definition says. *)
Definition resolves (m : Machine) (pahole : Path) (def : OffsetDef) (o : ResolvedOffset) : Prop :=
  ro_manifest_key o = manifest_key def /\
  exists f, f ∈ field_names def /\ pahole_field_offset m pahole (type_name def) f = Ok (ro_offset o).

Lemma resolve_defs_spec m p defs offs : resolve_defs m p defs = Ok offs -> Forall2 (resolves m p) defs offs.
Proof.
  revert offs. induction defs as [|d defs IH]; intros offs; simpl; [by intros [= <-]|].
  destruct (pahole_field_offset_any _ _ _ _) as [o|] eqn:E; [|done].
  destruct (resolve_defs m p defs) as [rest|]; [|done]. intros [= <-]. constructor; [|by apply IH].
  split; [done|]. by apply any_Ok.
Qed.

Lemma resolved_keys m p defs offs : Forall2 (resolves m p) defs offs ->
  map ro_manifest_key offs = map manifest_key defs.
Proof. induction 1 as [|d o defs offs [Hk _] _ IH]; [done|]. simpl. by rewrite Hk, IH. Qed.

Lemma resolved_good m p defs offs : Forall2 (resolves m p) defs offs ->
  forallb good_key (map manifest_key defs) = true -> Forall good offs.
Proof.
  induction 1 as [|d o defs offs [Hk (f & _ & Ho)] _ IH]; intros Hd; [constructor|].
  simpl in Hd. apply andb_true_iff in Hd as [Hd Hds]. constructor; [|by apply IH].
  split; [by rewrite Hk|]. by eapply pahole_width.
Qed.

(** The pairs of the map are the offsets. *)
Lemma fold_insert_lookup offs : forall (acc : gmap string Z) k,
  fold_left (fun acc o => <[ro_manifest_key o := ro_offset o]> acc) offs acc !! k = None ->
  acc !! k = None /\ k ∉ map ro_manifest_key offs.
Proof.
  induction offs as [|o offs IH]; intros acc k; simpl; [intros ->; split; [done|apply not_elem_of_nil]|].
  intros [Ha Hk]%IH. destruct (decide (k = ro_manifest_key o)) as [->|Hne].
  - by rewrite lookup_insert_eq in Ha.
  - rewrite lookup_insert_ne in Ha by done. split; [done|]. by apply not_elem_of_cons.
Qed.

Lemma offset_map_has offs k : k ∈ map ro_manifest_key offs -> is_Some (offset_map offs !! k).
Proof.
  intros Hk. destruct (offset_map offs !! k) eqn:E; [by eexists|]. by apply fold_insert_lookup in E as [_ ?].
Qed.

Lemma offset_map_lookup offs o : NoDup (map ro_manifest_key offs) -> o ∈ offs ->
  offset_map offs !! ro_manifest_key o = Some (ro_offset o).
Proof.
  unfold offset_map. generalize (∅ : gmap string Z). induction offs as [|o' offs IH]; intros acc Hnd Ho.
  - by apply not_elem_of_nil in Ho.
  - simpl in *. apply NoDup_cons in Hnd as [Hnew Hnd]. apply elem_of_cons in Ho as [->|Ho]; [|by apply IH].
    clear IH Hnd. generalize (lookup_insert_eq acc (ro_manifest_key o') (ro_offset o')).
    generalize (<[ro_manifest_key o' := ro_offset o']> acc). revert Hnew.
    induction offs as [|x offs IH]; intros Hnew acc' Ha; [done|]. simpl in *. apply not_elem_of_cons in Hnew as [Hx Hnew].
    apply IH; [done|]. by rewrite lookup_insert_ne by done.
Qed.

Lemma defs_good : forallb good_key (map manifest_key OFFSET_DEFS) = true.
Proof. vm_compute. reflexivity. Qed.
Lemma defs_distinct : NoDup (map manifest_key OFFSET_DEFS).
Proof. apply (bool_decide_unpack _). vm_compute. exact I. Qed.

(** ** Comparing *)

Lemma compare_offsets_spec r c defs :
  compare_offsets r c defs = Ok tt <->
  Forall (fun def => exists o, r !! manifest_key def = Some o /\ c !! manifest_key def = Some o) defs.
Proof.
  induction defs as [|d defs IH]; simpl; [split; [constructor|done]|].
  rewrite Forall_cons, <- IH. destruct (r !! _) as [x|]; simpl; [|naive_solver].
  destruct (c !! _) as [y|]; simpl; [|naive_solver].
  destruct (Z.eqb_spec x y) as [->|Hne]; simpl; [naive_solver|]. split; [done|]. intros [(o & [= ->] & [= ->]) _]. done.
Qed.

(** ** The sidecar and the programs the machine has *)

Lemma app_nonempty (a b : string) : b <> "" -> a <> a ++ b.
Proof. intros Hb. induction a as [|c a IH]; simpl; [by destruct b|]. by intros [= ?]. Qed.

Lemma file_name_Some p n : file_name p = Some n -> p = (removelast p ++ [Normal n])%list.
Proof.
  unfold file_name. destruct p as [|c p _] using rev_ind; [done|].
  rewrite map_app. cbn [map]. rewrite last_last, removelast_last. by destruct c; intros; simplify_eq/=.
Qed.

Lemma sidecar_last obj : exists n, List.last (map Some (offsets_sidecar_path obj)) None = Some (Normal (n ++ ".offsets")).
Proof.
  unfold offsets_sidecar_path, with_file_name. rewrite map_app. cbn [map]. rewrite last_last. by eexists.
Qed.

Lemma sidecar_not_object obj : obj <> offsets_sidecar_path obj.
Proof.
  unfold offsets_sidecar_path, with_file_name. destruct (file_name obj) as [f|] eqn:E.
  - rewrite (file_name_Some _ _ E) at 1. intros [= Hf]%app_inv_head. revert Hf.
    destruct (Utf8.is_utf8 f) eqn:Eu; simpl; [by apply app_nonempty|]. intros ->. by vm_compute in Eu.
  - intros Hl%(f_equal (@List.length _)). rewrite length_app in Hl. simpl in Hl. lia.
Qed.

Lemma sidecar_not_pahole obj (dir : Path) : (dir ++ [Normal "pahole"])%list <> offsets_sidecar_path obj.
Proof.
  destruct (sidecar_last obj) as [n Hn]. intros E. rewrite <- E, map_app in Hn. cbn [map] in Hn. rewrite last_last in Hn.
  injection Hn as Hn. apply (f_equal (strip_suffix ".offsets")) in Hn. by rewrite strip_suffix_app in Hn.
Qed.

(** Writing the sidecar leaves the rest as it was. *)
Lemma find_present m m' ps : (forall p, p ∈ ps -> present m' p = present m p) ->
  List.find (present m') ps = List.find (present m) ps.
Proof.
  intros H. induction ps as [|p ps IH]; [done|]. simpl. rewrite H by left. destruct (present m p); [done|].
  apply IH. intros q Hq. apply H. by right.
Qed.

Lemma write_which m obj data m' : write m (offsets_sidecar_path obj) data = Ok m' ->
  which_pahole m' = which_pahole m.
Proof.
  unfold write. destruct (write_fault _ _); [done|]. intros [= <-]. unfold which_pahole. cbn [path_var].
  assert (Hp : forall dir, (if decide (dir ++ [Normal "pahole"] = offsets_sidecar_path obj)%list then true
    else present m (dir ++ [Normal "pahole"])%list) = present m (dir ++ [Normal "pahole"])%list).
  { intros dir. destruct (decide _) as [E|]; [|done]. by apply sidecar_not_pahole in E. }
  rewrite (find_present m). 2: { intros p Hin. cbn [present].
    repeat (apply elem_of_cons in Hin as [->|Hin]); [..|by apply not_elem_of_nil in Hin].
    - apply (Hp [RootDir; Normal "usr"; Normal "bin"]). - apply (Hp [RootDir; Normal "usr"; Normal "local"; Normal "bin"]). }
  destruct (List.find _ _); [done|]. destruct (path_var m) as [dirs|]; [|done]. apply find_present. intros p Hin.
  apply list_elem_of_In, in_map_iff in Hin as (dir & <- & _). apply Hp.
Qed.

Lemma write_resolve m obj data m' : write m (offsets_sidecar_path obj) data = Ok m' ->
  resolve_kernel_offsets_map m' = resolve_kernel_offsets_map m.
Proof.
  intros Hw. unfold resolve_kernel_offsets_map, resolve_kernel_offsets. rewrite (write_which _ _ _ _ Hw).
  assert (Hr : pahole_run m' = pahole_run m) by (revert Hw; unfold write; destruct (write_fault _ _); [done|by intros [= <-]]).
  assert (Hf : forall p t f, pahole_field_offset m' p t f = pahole_field_offset m p t f).
  { intros. unfold pahole_field_offset. by rewrite Hr. }
  destruct (which_pahole m) as [p|]; [|done]. cbn [ok_or].
  assert (forall defs, resolve_defs m' p defs = resolve_defs m p defs) as ->; [|done].
  induction defs as [|d defs IH]; [done|]. simpl. rewrite IH.
  assert (pahole_field_offset_any m' p (type_name d) (field_names d) =
          pahole_field_offset_any m p (type_name d) (field_names d)) as ->; [|done].
  unfold pahole_field_offset_any. f_equal. induction (field_names d) as [|f fs IHf]; [done|]. simpl. by rewrite Hf, IHf.
Qed.

Lemma ascii_utf8 s : all_chars (Utf8.byte_in 0 0x7F) s = true -> Utf8.is_utf8 s = true.
Proof.
  intros Hs. apply Utf8.ascii_valid. unfold Utf8.of_string. induction s as [|c s IH]; [done|]. simpl in *.
  apply andb_true_iff in Hs as [Hc Hs]. by rewrite Hc, IH.
Qed.
Lemma graphic_ascii s : all_chars graphic s = true -> all_chars (Utf8.byte_in 0 0x7F) s = true.
Proof.
  apply all_chars_impl. intros c Hc. unfold graphic in Hc. unfold Utf8.byte_in. reflect_bools.
  apply andb_true_iff. split; apply Z.leb_le; lia.
Qed.

Lemma unlines_chars p ls : p "010"%char = true -> forallb (all_chars p) ls = true -> all_chars p (unlines ls) = true.
Proof.
  intros Hp. induction ls as [|l ls IH]; [done|]. simpl. intros [Hl Hls]%andb_true_iff.
  rewrite !all_chars_app, Hl, IH by done. cbn. by rewrite Hp.
Qed.

Lemma rendered_utf8 sha offs : all_chars graphic sha = true -> Forall good offs ->
  Utf8.is_utf8 (render_offsets_sidecar sha offs) = true.
Proof.
  intros Hs Hg. apply ascii_utf8, unlines_chars; [done|]. rewrite forallb_app. apply andb_true_iff. split.
  - cbn [forallb]. rewrite (graphic_ascii (_ ++ _)) by by apply graphic_pair. done.
  - apply forallb_forall. intros l Hl. apply in_map_iff in Hl as (o & <- & Ho).
    rewrite List.Forall_forall in Hg. destruct (Hg o Ho) as [Hk _]. unfold good_key in Hk. rewrite !andb_true_iff in Hk.
    apply graphic_ascii, graphic_pair; [by destruct Hk as [[[[? _] _] _] _]|apply graphic_show].
Qed.

Lemma hash_graphic `{!Sha256Laws} data : all_chars graphic (sha256_hex data) = true.
Proof.
  eapply all_chars_impl; [|apply sha256_hex_digits]. intros c Hc. unfold graphic.
  apply Content.hex_digit_imp in Hc. unfold Content.is_hexdigit in Hc.
  destruct c as [[] [] [] [] [] [] [] []]; (done || by vm_compute in Hc).
Qed.

(** A resolved kernel has every offset of the table. *)
Lemma resolved_map m pahole offs : Forall2 (resolves m pahole) OFFSET_DEFS offs ->
  Forall (fun def => is_Some (offset_map offs !! manifest_key def)) OFFSET_DEFS.
Proof.
  intros Hr. apply Forall_forall. intros def Hd. apply offset_map_has. rewrite (resolved_keys _ _ _ _ Hr).
  apply list_elem_of_In, in_map. by apply list_elem_of_In.
Qed.

(** ** Properties *)

(** A sidecar built on a kernel passes the daemon's check on that kernel: when the
    offsets were resolved from the kernel's own pahole report and the sidecar could be
    written beside the object, the daemon started afterwards on the same machine reads
    the sidecar back (text, decimal numbers, object hash and all) and finds every offset
    of the table equal to the kernel's. *)
Theorem built_here_is_accepted `{!Sha256Laws} m obj offs sidecar m' :
  resolve_kernel_offsets m = Ok offs ->
  write_offsets_sidecar m obj offs = Ok (sidecar, m') ->
  check_offsets m' obj = Ok tt.
Proof.
  intros Hr Hw. assert (Hmap : resolve_kernel_offsets_map m = Ok (offset_map offs)).
  { unfold resolve_kernel_offsets_map. by rewrite Hr. }
  unfold resolve_kernel_offsets in Hr. destruct (which_pahole m) as [pahole|]; [|done]. cbn [ok_or] in Hr.
  apply resolve_defs_spec in Hr. pose proof (resolved_good _ _ _ _ Hr defs_good) as Hg.
  pose proof (resolved_keys _ _ _ _ Hr) as Hkeys. pose proof defs_distinct as Hnd. rewrite <- Hkeys in Hnd.
  unfold write_offsets_sidecar, object_sha256 in Hw. destruct (content m obj) as [data|] eqn:Ed; [|done]. cbn [map_err] in Hw.
  destruct (write m _ _) as [m1|] eqn:Em; [|done]. cbn [map_err] in Hw. injection Hw as <- <-.
  unfold check_offsets. rewrite (write_resolve _ _ _ _ Em), Hmap. cbn [map_err].
  unfold read_compiled_offsets, object_sha256, read_to_string.
  revert Em. unfold write. destruct (write_fault _ _); [done|]. intros [= <-]. cbn [content].
  rewrite decide_True by done. rewrite rendered_utf8 by (done || apply hash_graphic). cbn [map_err].
  rewrite sidecar_roundtrip by (done || apply hash_graphic). cbn [map_err].
  rewrite decide_False by apply sidecar_not_object. rewrite Ed. cbn [map_err object_sha256_of offsets_of].
  rewrite String.eqb_refl. cbn [negb]. apply compare_offsets_spec. eapply Forall_impl; [by eapply resolved_map|].
  intros def [o Ho]. by exists o.
Qed.

(** What the check establishes: the object is the one the sidecar was written for and
    every offset is one pahole reports for the running kernel. *)
Definition offsets_agree (m : Machine) (obj : Path) : Prop :=
  exists pahole text data manifest,
    which_pahole m = Some pahole /\
    read_to_string m (offsets_sidecar_path obj) = Ok text /\
    parse_offsets_sidecar text = Ok manifest /\
    content m obj = Ok data /\ object_sha256_of manifest = sha256_hex data /\
    Forall (fun def => exists f o, f ∈ field_names def /\
      pahole_field_offset m pahole (type_name def) f = Ok o /\
      offsets_of manifest !! manifest_key def = Some o) OFFSET_DEFS.

Lemma check_offsets_sound m obj : check_offsets m obj = Ok tt -> offsets_agree m obj.
Proof.
  unfold check_offsets, resolve_kernel_offsets_map, resolve_kernel_offsets.
  destruct (which_pahole m) as [pahole|] eqn:Ew; [|done]. cbn [ok_or].
  destruct (resolve_defs m pahole OFFSET_DEFS) as [offs|] eqn:Er; [|done]. cbn [map_err].
  apply resolve_defs_spec in Er. pose proof defs_distinct as Hnd. rewrite <- (resolved_keys _ _ _ _ Er) in Hnd.
  unfold read_compiled_offsets, object_sha256. destruct (read_to_string _ _) as [text|] eqn:Et; [|done]. cbn [map_err].
  destruct (parse_offsets_sidecar text) as [man|] eqn:Em; [|done]. cbn [map_err].
  destruct (content m obj) as [data|] eqn:Ed; [|done]. cbn [map_err].
  destruct (String.eqb_spec (sha256_hex data) (object_sha256_of man)) as [Hh|]; [|done]. cbn [negb].
  rewrite compare_offsets_spec. intros Hc. exists pahole, text, data, man. repeat (split; [done|]).
  apply Forall_forall. intros def Hd. rewrite Forall_forall in Hc. destruct (Hc def Hd) as (o & Ho & Hm).
  destruct (proj1 (list_elem_of_lookup _ _) Hd) as [i Hi].
  destruct (Forall2_lookup_l _ _ _ _ _ Er Hi) as (r & Hr & Hk & f & Hf & Hp).
  exists f, o. split; [done|]. split; [|done]. rewrite Hp. f_equal.
  apply list_elem_of_lookup_2 in Hr. pose proof (offset_map_lookup _ _ Hnd Hr) as Hl. rewrite Hk in Hl. congruence.
Qed.

End Machine.

(** ** A kernel and an object built on it *)
Module Demo.

Definition zeros : string := "0000000000000000000000000000000000000000000000000000000000000000".
#[local] Instance sha : Sha256 := {| sha256_hex _ := zeros |}.
#[local] Instance sha_laws : Sha256Laws.
Proof. split; intros; vm_compute; reflexivity. Qed.

Definition report (type_name : string) : string :=
  if String.eqb type_name "task_struct" then "struct css_set *           cgroups;              /*  2608     8 */"
  else if String.eqb type_name "css_set" then "struct cgroup * dfl_cgrp; /* 136 8 */"
  else if String.eqb type_name "cgroup" then "struct kernfs_node * kn; /* 256 8 */"
  else if String.eqb type_name "kernfs_node" then "u64 id; /* 96 8 */"
  else if String.eqb type_name "file" then "struct inode *f_inode; /* 32 8 */"
  else if String.eqb type_name "inode" then "long unsigned int i_ino; /* 64 8 */"
  else "struct file *              executable;           /*    48     8 */".

Definition obj : Path := components "/usr/lib/rauha/rauha-ebpf".
Definition machine : Machine := mkMachine
  (fun p => if decide (p = obj) then Ok "ELF"
            else if decide (p = components "/proc/sys/kernel/osrelease") then Ok ("6.8.0-rc1" ++ nl)
            else Err "No such file or directory (os error 2)")
  (fun p => bool_decide (p = obj) || bool_decide (p = components "/usr/local/bin/pahole"))
  None (fun _ t => Ok (true, report t, "")) (fun _ => None).

Definition display (p : Path) : string := "path".
Definition offs : list ResolvedOffset := match resolve_kernel_offsets display machine with Ok l => l | Err _ => [] end.
Definition built : Machine := match write_offsets_sidecar display machine obj offs with Ok (_, m) => m | Err _ => machine end.

Lemma built_here_is_accepted_witness :
  map ro_offset offs = [2608; 136; 256; 96; 32; 64; 48]%Z /\ check_offsets display built obj = Ok tt.
Proof.
  split; [vm_compute; reflexivity|].
  apply (built_here_is_accepted display machine obj offs (offsets_sidecar_path obj) built); vm_compute; reflexivity.
Defined.

End Demo.
End Offsets.
