(* ===== verification/Loader.v ===== *)
(** * Loading the eBPF object

    [EbpfManager::load] of [rauhad/src/backend/linux/ebpf.rs]: the kernel version,
    the stale pins, the structure offsets, the object, the LSM programs one by one and
    the self-test.  The effects are a log, so that a failed load can be asked what it
    had already put into the kernel.

    Aya and the BTF reader are an interface ([Aya]); the machine of [Offsets] answers
    for files and pahole.  The files do not change while an object is loaded: the code
    reads the object once to hash it and once to load it. *)

From stdpp Require Import base gmap strings list.
From Stdlib Require Import ZArith Ascii String Lia.
From S2P Require Import Prelude.
From S2P Require Import RustStr.
From S2P Require Import RustText.
From S2P Require Import EnforcerApi.
From S2P Require Import Zone.
From S2P Require Import Kernel.
From S2P Require Import BpfMaps.
From S2P Require Import LinuxEnforcer.
From S2P Require Import StateError.
From S2P Require Import Content.
From S2P Require Import Offsets.
Open Scope string_scope.

Module Loader.
Import Str Text Offsets.

(** ** The kernel's version *)

Fixpoint take_digits (s : string) : string :=
  match s with
  | "" => ""
  | String c s' => match to_digit c with Some _ => String c (take_digits s') | None => "" end
  end.

(** [s.parse().unwrap_or(0)]. *)
Definition number (s : string) : Z := match parse_uint 32 s with Ok n => n | Err _ => 0%Z end.

Definition check_kernel_version (m : Machine) : result unit RauhaError :=
  let? text := map_err (fun e => EbpfError ("cannot read kernel version: " ++ e) "is /proc mounted?")
                 (read_to_string m (components "/proc/sys/kernel/osrelease")) in
  let release := trim text in
  match split "." release with
  | major_part :: minor_part :: _ =>
      let major := number major_part in
      let minor := number (take_digits minor_part) in
      if ((major <? 6) || ((major =? 6) && (minor <? 1)))%Z then Err (KernelTooOld "6.1" release) else Ok tt
  | _ => Err (KernelTooOld "6.1" release)
  end.

(** [read_proc_self_cgroup_id]: only reported, never acted on. *)
Definition read_proc_self_cgroup_id (m : Machine) (ino : string -> result Z string) : result Z string :=
  let? text := map_err (fun e => "failed to read /proc/self/cgroup: " ++ e)
                 (read_to_string m (components "/proc/self/cgroup")) in
  match find_map (strip_prefix "0::") (lines text) with
  | Some path =>
      let dir := "/sys/fs/cgroup" ++ path in
      map_err (fun e => "failed to stat " ++ dir ++ ": " ++ e) (ino dir)
  | None => Err "no cgroup v2 entry found in /proc/self/cgroup"
  end.

(** ** What Aya and the kernel do *)

(** [pins]: the entries of the pin directory the daemon can list, [None] when there is
    no directory; [unpin name]: whether a pin can be removed.  [load_object data reused]
    gives the maps, where a map whose pin is still there is that pin's; [program] says
    whether the object has a program of that name and whether it is an LSM program.
    [after_trigger]: the maps once a file was opened. *)
Class Aya := {
  btf : result unit string;
  btf_has_func : string -> bool;
  pins : option (list string);
  unpin : string -> bool;
  create_pin_dir : result unit string;
  load_object : string -> list string -> result Kernel.Maps string;
  program : string -> option (result unit string);
  prog_load : string -> string -> result unit string;
  prog_attach : string -> result unit string;
  prog_fd : string -> result Z string;
  after_trigger : Kernel.Maps -> Kernel.Maps;
  self_test_map : option (result unit string);
  self_test_get : Kernel.Maps -> result Kernel.SelfTestResult string;
  (** [take_map("ENFORCEMENT_EVENTS")] and the ring buffer made of it. *)
  event_map : option (result unit string)
}.

(** Aya's documented behaviour: a map without a pin is created empty; and opening a file
    changes none of the tables the daemon fills. *)
Class AyaLaws `{!Aya} := {
  load_fresh data m : load_object data [] = Ok m -> Kernel.ZONE_MEMBERSHIP m = ∅ /\ Kernel.ZONE_POLICY m = ∅;
  trigger_tables m : Kernel.same_tables m (after_trigger m)
}.

(** Reflection of the calls that change the kernel. *)
Inductive Effect :=
| Unpinned (name : string)
| PinDir
| Loaded (object : string)
| ProgramLoaded (name hook : string)
| Attached (name : string).

(** The effects that put the object's code into the kernel. *)
Definition enters_kernel (e : Effect) : bool :=
  match e with Unpinned _ | PinDir => false | _ => true end.

Section Load.
Context {sha256 : Sha256} {aya : Aya} (display : Path -> string).

Notation M := (M (list Effect) RauhaError).

Definition emit (e : Effect) : M unit := modify (fun log => log ++ [e])%list.

(** A call that is logged when it succeeds. *)
Definition does {A} (r : result A RauhaError) (e : Effect) : M A :=
  do a <- of_result r; do _ <- emit e; ret a.

Definition unpin_all (names : list string) : M unit :=
  for_each (fun name => if unpin name then emit (Unpinned name) else ret tt) names.

Definition hooks_hint : string :=
  "check kernel has CONFIG_BPF_LSM=y, `lsm=bpf` in cmdline, and exposes every required hook".

(** The body of the loop over [LSM_PROGRAMS]: a hook this kernel does not have is
    skipped, anything else must work. *)
Definition attach_one (prog_name hook_name : string) (acc : gmap string Z * list string)
  : M (gmap string Z * list string) :=
  let '(program_fds, skipped_hooks) := acc in
  if negb (btf_has_func ("bpf_lsm_" ++ hook_name)) then ret (program_fds, skipped_hooks ++ [hook_name])%list
  else
    do lsm <- or_fail (program prog_name)
      (EbpfError ("required eBPF program " ++ prog_name ++ " not found in object")
         "rebuild eBPF programs with `cargo xtask build-ebpf`");
    do _ <- of_result (map_err (fun e => EbpfError ("eBPF program " ++ prog_name ++ " is not an LSM program: " ++ e)
         "rebuild eBPF programs with `cargo xtask build-ebpf`") lsm);
    do _ <- does (map_err (fun e => EbpfError ("failed to load required LSM program " ++ prog_name ++ " for hook "
                                          ++ hook_name ++ ": " ++ e) hooks_hint) (prog_load prog_name hook_name))
         (ProgramLoaded prog_name hook_name);
    do _ <- does (map_err (fun e => EbpfError ("failed to attach required LSM program " ++ prog_name ++ ": " ++ e)
                            "check kernel BPF-LSM support and process privileges") (prog_attach prog_name))
         (Attached prog_name);
    do fd <- of_result (map_err (fun e => EbpfError ("failed to record fd for required LSM program " ++ prog_name
                            ++ ": " ++ e) "restart rauhad to reload and reattach eBPF programs") (prog_fd prog_name));
    ret (<[prog_name := fd]> program_fds, skipped_hooks).

Fixpoint attach_all (progs : list (string * string)) (acc : gmap string Z * list string)
  : M (gmap string Z * list string) :=
  match progs with
  | [] => ret acc
  | (prog_name, hook_name) :: progs' => do acc' <- attach_one prog_name hook_name acc; attach_all progs' acc'
  end.

Definition verify_offset_self_test (maps : Kernel.Maps) : result unit RauhaError :=
  let? map := ok_or self_test_map (EbpfError "SELF_TEST map not found"
                                     "rebuild eBPF programs with `cargo xtask build-ebpf`") in
  let? _ := map_err (fun e => EbpfError ("failed to open SELF_TEST map: " ++ e)
                       "check eBPF object was built correctly") map in
  let? r := map_err (fun e => EbpfError ("failed to read SELF_TEST map: " ++ e)
                       "eBPF program may not have executed yet") (self_test_get maps) in
  if ((Kernel.helper_cgroup_id r =? 0) && (Kernel.offset_cgroup_id r =? 0))%Z then Ok tt
  else if negb (Kernel.helper_cgroup_id r =? Kernel.offset_cgroup_id r)%Z then
    Err (EbpfError ("offset self-test FAILED: bpf_get_current_cgroup_id()=" ++ show (Kernel.helper_cgroup_id r)
           ++ " but offset chain produced " ++ show (Kernel.offset_cgroup_id r)
           ++ ". Compiled struct offsets are wrong for this kernel.")
         "update offsets in rauha-ebpf/src/main.rs using `pahole -C task_struct /sys/kernel/btf/vmlinux` and rebuild")
  else Ok tt.

Definition remaining_pins : list string := List.filter (fun n => negb (unpin n)) (default [] pins).

Definition load (m : Machine) (obj : Path) : M Ebpf :=
  do _ <- of_result (check_kernel_version m);
  do _ <- (if present m obj then ret tt
           else fail (EbpfError ("eBPF object not found: " ++ display obj)
                        "run `cargo xtask build-ebpf` to compile the eBPF programs"));
  do _ <- (match pins with Some names => unpin_all names | None => ret tt end);
  do _ <- does (map_err (fun e => EbpfError ("failed to create BPF pin directory: " ++ e)
                   "run rauhad as root with BPF filesystem mounted") create_pin_dir) PinDir;
  do _ <- of_result (map_err (fun e => EbpfError ("failed to load BTF from sysfs: " ++ e)
                   "kernel must have CONFIG_DEBUG_INFO_BTF=y") btf);
  do _ <- of_result (check_offsets display m obj);
  do data <- of_result (map_err (fun e => EbpfError ("failed to read eBPF object: " ++ e)
                   ("check permissions on " ++ display obj)) (content m obj));
  do maps <- does (map_err (fun e => EbpfError ("failed to load eBPF programs: " ++ e)
                   "check kernel has CONFIG_BPF_LSM=y and `lsm=bpf` in cmdline") (load_object data remaining_pins))
               (Loaded data);
  do acc <- attach_all Linux.LSM_PROGRAMS (∅, []);
  let '(program_fds, skipped_hooks) := acc in
  let expected := (List.length Linux.LSM_PROGRAMS - List.length skipped_hooks)%nat in
  if negb (Nat.eqb (size program_fds) expected) then
    fail (EbpfError ("partial LSM attachment: attached " ++ show (Z.of_nat (size program_fds)) ++ " of "
            ++ show (Z.of_nat expected) ++ " attachable programs")
          "restart rauhad after fixing kernel BPF-LSM support")
  else if Nat.eqb (size program_fds) 0 then
    fail (EbpfError "no LSM hooks could be attached on this kernel"
          "kernel exposes none of Rauha's BPF-LSM hooks; check CONFIG_BPF_LSM=y and `lsm=bpf` in the kernel cmdline")
  else
    do _ <- of_result (verify_offset_self_test (after_trigger maps));
    ret (mkEbpf (after_trigger maps) program_fds skipped_hooks).

(** ** Starting and stopping the enforcer *)

Definition ebpf_candidates (root project_root : Path) : list Path :=
  [ (root ++ components "rauha-ebpf")%list;
    components "/usr/lib/rauha/rauha-ebpf";
    (project_root ++ components "rauha-ebpf/target/bpfel-unknown-none/debug/rauha-ebpf")%list;
    (project_root ++ components "rauha-ebpf/target/bpfel-unknown-none/release/rauha-ebpf")%list ].

Fixpoint load_first (m : Machine) (candidates : list Path) : M Ebpf :=
  match candidates with
  | [] => fail (EbpfError "eBPF object not found in any known location"
                  "run `cargo xtask build-ebpf` to compile eBPF programs")
  | path :: candidates => if present m path then load m path else load_first m candidates
  end.
Definition load_ebpf (m : Machine) (root project_root : Path) : M Ebpf := load_first m (ebpf_candidates root project_root).

Definition take_event_ring_buf : result unit RauhaError :=
  let? map := ok_or event_map (EbpfError "ENFORCEMENT_EVENTS map not found or already taken"
                                 "rebuild eBPF programs with `cargo xtask build-ebpf`") in
  map_err (fun e => EbpfError ("failed to create RingBuf from ENFORCEMENT_EVENTS: " ++ e)
             "check eBPF object was built correctly") map.

(** [LinuxEnforcer::new]; the reader it starts is in [Events]. *)
Definition new (m : Machine) (root project_root : Path) (text_of : RauhaError -> string) : M Ebpf :=
  do ebpf <- load_ebpf m root project_root;
  do _ <- of_result (map_err (fun e => EbpfError ("enforcement event ring buffer not available: " ++ text_of e)
                      "check the ENFORCEMENT_EVENTS ring buffer map was created") take_event_ring_buf);
  ret ebpf.

Definition MAP_NAMES : list string :=
  ["ZONE_MEMBERSHIP"; "ZONE_POLICY"; "INODE_ZONE_MAP"; "ZONE_ALLOWED_COMMS"; "SELF_TEST"; "ENFORCEMENT_COUNTERS"; "ENFORCEMENT_EVENTS"].

(** [EbpfManager::cleanup]: the pins that are there and can be removed. *)
Definition cleanup : M unit :=
  unpin_all (List.filter (fun name => existsb (String.eqb name) (default [] pins)) MAP_NAMES).

(** The object that is loaded is the first of the candidates that is there: one that is
    refused is not made up for by a later one. *)
Lemma load_first_decides m candidates before path after : candidates = (before ++ path :: after)%list ->
  forallb (fun p => negb (present m p)) before = true -> present m path = true ->
  load_first m candidates = load m path.
Proof.
  intros -> Hb Hp. induction before as [|b before IH]; cbn in *; [by rewrite Hp|].
  apply andb_true_iff in Hb as [Hn Hb]. apply negb_true_iff in Hn. rewrite Hn. by apply IH.
Qed.

(** ** The programs *)

Definition exposed (p : string * string) : bool := btf_has_func ("bpf_lsm_" ++ snd p).
Definition attachment (p : string * string) : list Effect :=
  if exposed p then [ProgramLoaded (fst p) (snd p); Attached (fst p)] else [].

Lemma attach_one_ok n h fds sk log fds' sk' log' :
  attach_one n h (fds, sk) log = (Ok (fds', sk'), log') ->
  log' = (log ++ attachment (n, h))%list /\
  if exposed (n, h) then sk' = sk /\ exists fd, fds' = <[n := fd]> fds else sk' = (sk ++ [h])%list /\ fds' = fds.
Proof.
  unfold attach_one, attachment, exposed. cbn [fst snd]. destruct (btf_has_func _); cbn [negb].
  2: { intros [= <- <- <-]. by rewrite app_nil_r. }
  unfold bind, does, or_fail. destruct (program n) as [[[]|]|]; cbn; [|done..].
  destruct (prog_load n h) as [[]|]; cbn; [|done]. destruct (prog_attach n) as [[]|]; cbn; [|done].
  destruct (prog_fd n) as [fd|]; cbn; [|done]. intros [= <- <- <-]. rewrite <- app_assoc. split; [done|]. split; [done|by exists fd].
Qed.

Lemma attach_all_ok progs : forall fds sk log fds' sk' log',
  attach_all progs (fds, sk) log = (Ok (fds', sk'), log') ->
  log' = (log ++ List.concat (map attachment progs))%list /\
  sk' = (sk ++ map snd (List.filter (fun p => negb (exposed p)) progs))%list /\
  (forall n, is_Some (fds' !! n) <-> is_Some (fds !! n) \/ n ∈ map fst (List.filter exposed progs)).
Proof.
  induction progs as [|[n h] progs IH]; intros fds sk log fds' sk' log'; cbn [attach_all].
  - intros [= <- <- <-]. rewrite !app_nil_r. split_and!; [done|done|]. intros n. rewrite elem_of_nil. tauto.
  - unfold bind. destruct (attach_one n h (fds, sk) log) as [[[fds1 sk1]|e] log1] eqn:E; [|done].
    intros (-> & -> & Hn)%IH. apply attach_one_ok in E as [-> E]. cbn [map List.concat List.filter].
    split; [by rewrite app_assoc|]. destruct (exposed (n, h)); cbn [negb map fst snd].
    + destruct E as [-> [fd ->]]. split; [done|]. intros k. rewrite Hn, elem_of_cons.
      destruct (decide (k = n)) as [->|Hne]; [rewrite lookup_insert_eq|rewrite lookup_insert_ne by done]; naive_solver.
    + destruct E as [-> ->]. split; [by rewrite <- app_assoc|done].
Qed.

(** ** Before the object is loaded *)

(** Nothing of the object is in the kernel yet. *)
Definition outside (log : list Effect) : Prop := Forall (fun e => enters_kernel e = false) log.

Lemma unpin_outside names log : outside log -> wp (unpin_all names) (fun r log' => r = Ok tt /\ outside log') log.
Proof.
  revert log. induction names as [|n names IH]; intros log Hl; [by apply wp_ret|]. cbn. apply wp_bind.
  destruct (unpin n).
  - apply wp_modify. apply IH. apply Forall_app. split; [done|]. by repeat constructor.
  - apply wp_ret. by apply IH.
Qed.

Lemma outside_enters log e : outside log -> e ∈ log -> enters_kernel e = true -> False.
Proof. intros Ho He Hk. unfold outside in Ho. rewrite Forall_forall in Ho. specialize (Ho e He). congruence. Qed.

(** The kernel is Linux 6.1 or later. *)
Definition kernel_supported (m : Machine) : Prop :=
  exists text major minor rest,
    read_to_string m (components "/proc/sys/kernel/osrelease") = Ok text /\
    split "." (trim text) = major :: minor :: rest /\
    (6 < number major \/ number major = 6 /\ 1 <= number (take_digits minor))%Z.

Lemma check_kernel_version_sound m : check_kernel_version m = Ok tt -> kernel_supported m.
Proof.
  unfold check_kernel_version. destruct (read_to_string _ _) as [text|] eqn:E; [|done]. cbn [map_err].
  destruct (split _ _) as [|major [|minor rest]] eqn:Es; [done|done|]. destruct (_ || _) eqn:Ev; [done|]. intros _.
  exists text, major, minor, rest. split_and!; [done|done|]. apply orb_false_iff in Ev as [E1%Z.ltb_ge E2].
  apply andb_false_iff in E2 as [E2%Z.eqb_neq|E2%Z.ltb_ge]; lia.
Qed.

(** What a finished load has done. *)
Definition finished (log : list Effect) (data : string) (b : Ebpf) : Prop :=
  (exists log0, outside log0 /\
     log = (log0 ++ [Loaded data] ++ List.concat (map attachment Linux.LSM_PROGRAMS))%list) /\
  (forall n, is_Some (program_fds b !! n) <-> n ∈ map fst (List.filter exposed Linux.LSM_PROGRAMS)) /\
  skipped_hooks b = map snd (List.filter (fun p => negb (exposed p)) Linux.LSM_PROGRAMS) /\
  program_fds b <> ∅ /\
  exists maps0, load_object data remaining_pins = Ok maps0 /\ maps b = after_trigger maps0 /\
                verify_offset_self_test (maps b) = Ok tt.

Definition load_post (m : Machine) (obj : Path) (r : result Ebpf RauhaError) (log : list Effect) : Prop :=
  (forall e, e ∈ log -> enters_kernel e = true -> kernel_supported m /\ offsets_agree display m obj) /\
  (forall b, r = Ok b -> exists data, content m obj = Ok data /\ finished log data b).

Lemma load_post_outside m obj e log : outside log -> load_post m obj (Err e) log.
Proof. intros Ho. split; [|done]. intros e' He Hk. by destruct (outside_enters _ _ Ho He Hk). Qed.

(** From the loaded object on. *)
Lemma load_tail_post m obj data maps0 log : outside log -> kernel_supported m -> offsets_agree display m obj ->
  content m obj = Ok data -> load_object data remaining_pins = Ok maps0 ->
  wp (do acc <- attach_all Linux.LSM_PROGRAMS (∅, []);
      let '(program_fds, skipped_hooks) := acc in
      let expected := (List.length Linux.LSM_PROGRAMS - List.length skipped_hooks)%nat in
      if negb (Nat.eqb (size program_fds) expected) then
        fail (EbpfError ("partial LSM attachment: attached " ++ show (Z.of_nat (size program_fds)) ++ " of "
                ++ show (Z.of_nat expected) ++ " attachable programs")
              "restart rauhad after fixing kernel BPF-LSM support")
      else if Nat.eqb (size program_fds) 0 then
        fail (EbpfError "no LSM hooks could be attached on this kernel"
              "kernel exposes none of Rauha's BPF-LSM hooks; check CONFIG_BPF_LSM=y and `lsm=bpf` in the kernel cmdline")
      else
        do _ <- of_result (verify_offset_self_test (after_trigger maps0));
        ret (mkEbpf (after_trigger maps0) program_fds skipped_hooks))
    (load_post m obj) (log ++ [Loaded data])%list.
Proof.
  intros Ho Hv Ha Hd Hm.
  assert (Hfail : forall e log', load_post m obj (Err e) log') by (intros; split; [done|]; intros; done).
  apply wp_bind. unfold wp at 1.
  destruct (attach_all _ _ _) as [[[fds sk]|e] log'] eqn:E; cbn [fst snd]; [|by apply Hfail].
  apply attach_all_ok in E as (-> & -> & Hn). cbv zeta. destruct (negb _); [by apply wp_fail|].
  destruct (Nat.eqb_spec (size fds) 0) as [|Hne]; [by apply wp_fail|].
  wp_step. wp_step; [|by apply Hfail]. wp_step. split; [by split|].
  intros b [= <-]. exists data. split; [done|]. destruct a. split_and!; cbn; [|..|done| |].
  - exists log. split; [done|]. by rewrite <- app_assoc.
  - intros n. rewrite Hn, lookup_empty. split; [|by right]. intros [[? ?]|]; done.
  - intros ->. by rewrite map_size_empty in Hne.
  - by exists maps0.
Qed.

Ltac early := wp_step; wp_step; [|by apply load_post_outside].

Lemma load_meets_post m obj : wp (load m obj) (load_post m obj) [].
Proof.
  assert (H0 : outside []) by constructor.
  (* A call that may fail before the object is loaded. *)
  unfold load, does. early. destruct a. pose proof (check_kernel_version_sound m ltac:(done)) as Hv.
  wp_step. destruct (present m obj); [apply wp_ret|by apply wp_fail, load_post_outside].
  wp_step. apply wp_mono with (Q := fun r log' => r = Ok tt /\ outside log').
  { destruct pins; [by apply unpin_outside|by apply wp_ret]. }
  intros r log [-> Ho]. wp_step. early. wp_step. apply wp_modify, wp_ret.
  assert (Ho' : outside (log ++ [PinDir])) by (apply Forall_app; split; [done|by repeat constructor]).
  early. early.
  lazymatch goal with Hc : check_offsets _ _ _ = Ok ?u |- _ => destruct u; apply check_offsets_sound in Hc end.
  early. wp_step. early. wp_step. apply wp_modify, wp_ret.
  eapply load_tail_post; [done..| |]; by eapply map_err_Ok.
Qed.

(** The maps of a loaded object are new when every stale pin could be removed: what the
    zone theorems ask of [host_load]. *)
Lemma loaded_maps_fresh `{!AyaLaws} m obj b log :
  forallb unpin (default [] pins) = true -> load m obj [] = (Ok b, log) ->
  Kernel.ZONE_MEMBERSHIP (maps b) = ∅ /\ Kernel.ZONE_POLICY (maps b) = ∅.
Proof.
  intros Hu Hl. pose proof (load_meets_post m obj) as Hpost. unfold wp in Hpost. rewrite Hl in Hpost.
  destruct Hpost as [_ Hpost]. destruct (Hpost b eq_refl) as (data & _ & _ & _ & _ & _ & maps0 & Hm & -> & _).
  assert (Hr : remaining_pins = []).
  { unfold remaining_pins. induction (default [] pins) as [|n ns IH]; [done|]. simpl in *.
    apply andb_true_iff in Hu as [-> Hu]. by apply IH. }
  rewrite Hr in Hm. apply load_fresh in Hm as [Hz Hp]. destruct (trigger_tables maps0) as (-> & -> & _). done.
Qed.

(** ** Properties *)

(** C18. No program enters the kernel unchecked: however loading the eBPF object goes, as
    soon as the object or one of its programs was handed to the kernel, the kernel is 6.1
    or later, the object hashes to what its sidecar says, and every structure offset
    compiled into it is one pahole reports for the running kernel.  When loading succeeds,
    the object in the kernel is that one, loaded before any program, the attached programs
    are those whose hook the kernel exposes, at least one, the other hooks are the reported
    degradation, and the self-test did not contradict the offsets. *)
Theorem loaded_object_is_checked m obj :
  let '(r, log) := load m obj [] in
  (forall e, e ∈ log -> enters_kernel e = true -> kernel_supported m /\ offsets_agree display m obj) /\
  (forall b, r = Ok b -> exists data, content m obj = Ok data /\ finished log data b).
Proof.
  pose proof (load_meets_post m obj) as H. unfold wp in H. destruct (load m obj []) as [r log]. exact H.
Qed.

End Load.

(** ** A load on the kernel the object was built on *)
Module Demo.
Import Offsets.Demo.

#[local] Existing Instance sha.
Definition maps0 : Kernel.Maps := Kernel.mkMaps ∅ ∅ ∅ ∅ (Kernel.mkSelfTest 0 0) ∅ [].
(** A kernel without the [cgroup_attach_task] hook. *)
#[local] Instance aya : Aya := {|
  btf := Ok tt;
  btf_has_func f := negb (String.eqb f "bpf_lsm_cgroup_attach_task");
  pins := Some ["ZONE_POLICY"];
  unpin _ := true;
  create_pin_dir := Ok tt;
  load_object _ _ := Ok maps0;
  program _ := Some (Ok tt);
  prog_load _ _ := Ok tt;
  prog_attach _ := Ok tt;
  prog_fd _ := Ok 7%Z;
  after_trigger m := m;
  self_test_map := Some (Ok tt);
  self_test_get _ := Ok (Kernel.mkSelfTest 42 42);
  event_map := Some (Ok tt) |}.

Definition run : result Ebpf RauhaError * list Effect := load display built obj [].

Lemma loaded_object_is_checked_witness :
  match fst run with Ok b => skipped_hooks b | Err _ => [] end = ["cgroup_attach_task"] /\
  offsets_agree display built obj /\ exists b data, fst run = Ok b /\ finished (snd run) data b.
Proof.
  pose proof (loaded_object_is_checked display built obj) as H. fold run in H.
  assert (Hin : existsb enters_kernel (snd run) = true) by (vm_compute; reflexivity).
  assert (Hr : is_ok (fst run) = true) by (vm_compute; reflexivity).
  split; [vm_compute; reflexivity|]. destruct run as [r log]. destruct H as [Hlog Hok].
  apply existsb_exists in Hin as (e & He & Hk). apply list_elem_of_In in He. split; [by apply (Hlog e)|].
  destruct r as [b|]; [|done]. destruct (Hok b eq_refl) as (data & _ & Hf). by exists b, data.
Defined.

End Demo.
End Loader.
