(* ===== verification/Attach.v ===== *)
(** * Interactive exec: the handshake and the relay

    [rauha-shim/src/attach.rs] and the [Exec] arm of [rauha-shim/src/main.rs].
    [Handshake]: the three processes of [fork_and_exec_pty] - the shim, the child that
    enters the container's namespaces and the process that becomes the command - and the
    three pipes between them, as a step relation over every interleaving, with deaths at
    any point, up to the shim's answer, which it gives after the command was let go.  [Relay]: the
    poll loop between the PTY and the attach socket, driven by the kernel's answers. *)

From stdpp Require Import base list relations.
From Stdlib Require Import ZArith Lia.
From S2P Require Import Prelude.

Module Handshake.

(** ** The processes

    What each process does next.  Descriptors it closes one after the other are closed
    in one step: nobody can see the difference. *)

(** What the [Exec] arm answers: a session, that the exec failed, or that the session could
    not be served. *)
Inductive Reply := ExecReady | ExecFailed | AttachFailed.

(** The shim, after [fork]. *)
Inductive Shim :=
| ShimForked                    (* drop(setup_wr), drop(go_rd), ... *)
| ShimReadSetup                 (* read(setup_rd) *)
| ShimEnroll                    (* write(cgroup.procs) *)
| ShimGo                        (* write(go_wr) *)
| ShimAbandon (go_open : bool)  (* kill(exec_pid) *)
| ShimReap (go_open : bool)     (* waitpid(child) *)
| ShimAttach                    (* fork_and_exec_pty has returned: serve_attach_session *)
| ShimDone (reply : Reply).

(** The first child. *)
Inductive Middle :=
| MiddleForked                  (* drop(setup_rd), drop(go_wr), namespaces.enter() *)
| MiddleClone                   (* clone_process(0) *)
| MiddleCloned                  (* drop(go_rd), drop(ready_wr), ... *)
| MiddleReadReady               (* read(ready_rd) *)
| MiddleWritePid                (* write(setup_wr, pid) *)
| MiddleReap                    (* drop(setup_wr), waitpid(exec_child) *)
| MiddleExited.

(** [exec_child]. *)
Inductive Child :=
| ChildUnborn
| ChildCloned                   (* drop(setup_wr) *)
| ChildSetup                    (* terminal, chroot, process security *)
| ChildReady                    (* write(ready_wr), drop(ready_wr) *)
| ChildReadGo                   (* read(go_rd) *)
| ChildExec                     (* execvp *)
| ChildRuns                     (* the workload *)
| ChildExited.

(** A pipe holds a message or none. [enrolled]: the child's pid was written to the
    zone's [cgroup.procs].  [executed], which nobody reads: the command was executed, even
    if it is gone by now. *)
Record State := mkState {
  shim : Shim; middle : Middle; child : Child;
  setup : bool; go : bool; ready : bool; enrolled : bool; executed : bool }.

Definition start : State := mkState ShimForked MiddleForked ChildUnborn false false false false false.

(** ** Who holds the write end of a pipe, and who the read end of [go] *)

Definition setup_writer (s : State) : bool :=
  match shim s with ShimForked => true | _ => false end
  || match middle s with MiddleReap | MiddleExited => false | _ => true end
  || match child s with ChildCloned => true | _ => false end.

Definition ready_writer (s : State) : bool :=
  match shim s with ShimForked => true | _ => false end
  || match middle s with MiddleForked | MiddleClone | MiddleCloned => true | _ => false end
  || match child s with ChildCloned | ChildSetup | ChildReady => true | _ => false end.

Definition go_writer (s : State) : bool :=
  match shim s with
  | ShimForked | ShimReadSetup | ShimEnroll | ShimGo => true
  | ShimAbandon o | ShimReap o => o
  | ShimAttach | ShimDone _ => false
  end || match middle s with MiddleForked => true | _ => false end.

Definition go_reader (s : State) : bool :=
  match shim s with ShimForked => true | _ => false end
  || match middle s with MiddleForked | MiddleClone | MiddleCloned => true | _ => false end
  || match child s with ChildCloned | ChildSetup | ChildReady | ChildReadGo => true | _ => false end.

Definition setup_reader (s : State) : bool :=
  match shim s with ShimForked | ShimReadSetup => true | _ => false end
  || match middle s with MiddleForked => true | _ => false end.

(** ** Steps *)

Definition at_shim (p : Shim) (s : State) : State :=
  mkState p (middle s) (child s) (setup s) (go s) (ready s) (enrolled s) (executed s).
Definition at_middle (p : Middle) (s : State) : State :=
  mkState (shim s) p (child s) (setup s) (go s) (ready s) (enrolled s) (executed s).
Definition at_child (p : Child) (s : State) : State :=
  mkState (shim s) (middle s) p (setup s) (go s) (ready s) (enrolled s) (executed s).
Definition with_setup (b : bool) (s : State) : State :=
  mkState (shim s) (middle s) (child s) b (go s) (ready s) (enrolled s) (executed s).
Definition with_go (b : bool) (s : State) : State :=
  mkState (shim s) (middle s) (child s) (setup s) b (ready s) (enrolled s) (executed s).
Definition with_ready (b : bool) (s : State) : State :=
  mkState (shim s) (middle s) (child s) (setup s) (go s) b (enrolled s) (executed s).
Definition with_enrolled (s : State) : State :=
  mkState (shim s) (middle s) (child s) (setup s) (go s) (ready s) true (executed s).
Definition with_executed (s : State) : State :=
  mkState (shim s) (middle s) (child s) (setup s) (go s) (ready s) (enrolled s) true.

(** A process that is there and has not exited can be killed. *)
Definition child_alive (s : State) : bool :=
  match child s with ChildUnborn | ChildExited => false | _ => true end.
Definition kill_child (s : State) : State := if child_alive s then at_child ChildExited s else s.

(** A read returns the message, the end of the file when nobody can write any more, and
    blocks otherwise; a write without a reader fails ([SIGPIPE] is ignored).  Each
    function gives the outcomes of a process's next action. *)
(** The session is served, or not, whatever the command does by now. *)
Definition attach_next (s : State) : list State :=
  [at_shim (ShimDone ExecReady) s; at_shim (ShimDone AttachFailed) s].

Definition shim_next (s : State) : list State :=
  match shim s with
  | ShimForked => [at_shim ShimReadSetup s]
  | ShimReadSetup =>
      if setup s then [at_shim ShimEnroll (with_setup false s)]
      else if setup_writer s then [] else [at_shim (ShimReap false) s]
  | ShimEnroll => [at_shim ShimGo (with_enrolled s); at_shim (ShimAbandon true) s]
  | ShimGo => if go_reader s then [at_shim ShimAttach (with_go true s)] else [at_shim (ShimAbandon false) s]
  | ShimAbandon o => [at_shim (ShimReap o) (kill_child s)]
  | ShimReap _ => match middle s with MiddleExited => [at_shim (ShimDone ExecFailed) s] | _ => [] end
  | ShimAttach => attach_next s
  | ShimDone _ => []
  end.

Definition middle_next (s : State) : list State :=
  match middle s with
  | MiddleForked => [at_middle MiddleClone s; at_middle MiddleExited s]
  | MiddleClone => [at_middle MiddleCloned (at_child ChildCloned s); at_middle MiddleExited s]
  | MiddleCloned => [at_middle MiddleReadReady s]
  | MiddleReadReady =>
      if ready s then [at_middle MiddleWritePid (with_ready false s)]
      else if ready_writer s then [] else [at_middle MiddleReap s]
  | MiddleWritePid => [at_middle MiddleReap (with_setup (setup_reader s) s)]
  | MiddleReap => match child s with ChildExited => [at_middle MiddleExited s] | _ => [] end
  | MiddleExited => []
  end.

Definition child_next (s : State) : list State :=
  match child s with
  | ChildCloned => [at_child ChildSetup s]
  | ChildSetup => [at_child ChildReady s; at_child ChildExited s]
  | ChildReady => [at_child ChildReadGo (with_ready true s)]
  | ChildReadGo =>
      if go s then [at_child ChildExec (with_go false s)]
      else if go_writer s then [] else [at_child ChildExited s]
  | ChildExec => [at_child ChildRuns (with_executed s); at_child ChildExited s]
  | ChildRuns => [at_child ChildExited s]
  | ChildUnborn | ChildExited => []
  end.

(** Killed from outside: by the kernel, an operator, another container. *)
Definition deaths (s : State) : list State :=
  (if child_alive s then [at_child ChildExited s] else [])
  ++ match middle s with MiddleExited => [] | _ => [at_middle MiddleExited s] end.

Inductive step (s s' : State) : Prop :=
| by_shim : s' ∈ shim_next s -> step s s'
| by_middle : s' ∈ middle_next s -> step s s'
| by_child : s' ∈ child_next s -> step s s'
| by_death : s' ∈ deaths s -> step s s'.

Definition reachable (s : State) : Prop := rtc step start s.

(** ** Every reachable state, by computation *)

#[global] Instance Reply_eq_dec : EqDecision Reply.
Proof. solve_decision. Defined.
#[global] Instance Shim_eq_dec : EqDecision Shim.
Proof. solve_decision. Defined.
#[global] Instance Middle_eq_dec : EqDecision Middle.
Proof. solve_decision. Defined.
#[global] Instance Child_eq_dec : EqDecision Child.
Proof. solve_decision. Defined.
#[global] Instance State_eq_dec : EqDecision State.
Proof. solve_decision. Defined.

(** What the processes do by themselves, and everything. *)
Definition acts (s : State) : list State := (shim_next s ++ middle_next s ++ child_next s)%list.
Definition next (s : State) : list State := (acts s ++ deaths s)%list.

Lemma step_next s s' : step s s' <-> s' ∈ next s.
Proof.
  unfold next, acts. rewrite !elem_of_app. split; [intros []; tauto|].
  intros [[?|[?|?]]|?]; [by apply by_shim|by apply by_middle|by apply by_child|by apply by_death].
Qed.

Fixpoint add_new (new seen : list State) : list State * list State :=
  match new with
  | [] => ([], seen)
  | s :: new' =>
      if decide (s ∈ seen) then add_new new' seen
      else let '(fresh, seen') := add_new new' (s :: seen) in (s :: fresh, seen')
  end.

(** [n] rounds of breadth-first search. *)
Fixpoint explore (n : nat) (frontier seen : list State) : list State :=
  match n with
  | O => seen
  | S n' => let '(fresh, seen') := add_new (flat_map next frontier) seen in explore n' fresh seen'
  end.

(** No run is longer than 19 steps, see [rank]. *)
Definition states : list State := Eval vm_compute in explore 23 [start] [start].
Definition closed (l : list State) : bool := forallb (fun s => forallb (fun s' => bool_decide (s' ∈ l)) (next s)) l.

Lemma states_closed : closed states = true.
Proof. vm_compute. reflexivity. Qed.

Lemma in_states s : reachable s -> s ∈ states.
Proof.
  intros Hr. assert (H0 : start ∈ states) by (apply (bool_decide_unpack _); vm_compute; exact I).
  unfold reachable in Hr. revert H0. induction Hr as [|x y z Hs _ IH]; [done|]. intros Hx. apply IH.
  pose proof states_closed as Hc. unfold closed in Hc. rewrite forallb_forall in Hc.
  specialize (Hc x (proj1 (list_elem_of_In _ _) Hx)). rewrite forallb_forall in Hc.
  apply (bool_decide_unpack _). apply Is_true_true. apply Hc. apply list_elem_of_In. by apply step_next.
Qed.

(** What holds of every state explored holds of every reachable one. *)
Lemma by_exploration (P : State -> bool) s : forallb P states = true -> reachable s -> P s = true.
Proof. rewrite forallb_forall. intros H Hr. apply H, list_elem_of_In. by apply in_states. Qed.

(** ** Every run ends *)

Definition shim_rank (p : Shim) : nat :=
  match p with
  | ShimForked => 6 | ShimReadSetup => 5 | ShimEnroll => 4 | ShimGo => 3 | ShimAbandon _ => 2 | ShimReap _ => 1
  | ShimAttach => 1 | ShimDone _ => 0
  end.
Definition middle_rank (p : Middle) : nat :=
  match p with
  | MiddleForked => 6 | MiddleClone => 5 | MiddleCloned => 4 | MiddleReadReady => 3 | MiddleWritePid => 2
  | MiddleReap => 1 | MiddleExited => 0
  end.
Definition child_rank (p : Child) : nat :=
  match p with
  | ChildUnborn => 7 | ChildCloned => 6 | ChildSetup => 5 | ChildReady => 4 | ChildReadGo => 3 | ChildExec => 2
  | ChildRuns => 1 | ChildExited => 0
  end.
Definition rank (s : State) : nat := (shim_rank (shim s) + middle_rank (middle s) + child_rank (child s))%nat.

Lemma ranks_decrease : forallb (fun s => forallb (fun s' => Nat.ltb (rank s') (rank s)) (next s)) states = true.
Proof. vm_compute. reflexivity. Qed.

Lemma step_rank s s' : reachable s -> step s s' -> (rank s' < rank s)%nat.
Proof.
  intros Hr Hs. pose proof (by_exploration _ _ ranks_decrease Hr) as H. cbv beta in H. rewrite forallb_forall in H.
  apply Nat.ltb_lt, H, list_elem_of_In. by apply step_next.
Qed.

(** ** Properties *)

(** The command has been or is about to be executed. *)
Definition runs (s : State) : bool := executed s || match child s with ChildExec | ChildRuns => true | _ => false end.

(** The shim has let the command go: it serves the session, or has answered after that. *)
Definition let_go (s : State) : bool :=
  match shim s with ShimAttach | ShimDone ExecReady | ShimDone AttachFailed => true | _ => false end.

Definition judged (s : State) : bool :=
  (negb (runs s) || (enrolled s && let_go s)) && (negb (let_go s) || enrolled s).

Lemma states_judged : forallb judged states = true.
Proof. vm_compute. reflexivity. Qed.

(** The reply is final. *)
Definition answered (s : State) : bool := match shim s with ShimDone _ => true | _ => false end.
Lemma answers_stay : forallb (fun s => forallb (fun s' => negb (answered s) || bool_decide (shim s' = shim s)) (next s)) states = true.
Proof. vm_compute. reflexivity. Qed.

Lemma done_stays s s' o : reachable s -> rtc step s s' -> shim s = ShimDone o -> shim s' = ShimDone o.
Proof.
  intros Hr Hss. revert Hr. induction Hss as [|x y z Hs _ IH]; [done|]. intros Hr Hx.
  apply IH; [by eapply rtc_r|]. pose proof (by_exploration _ _ answers_stay Hr) as H. cbv beta in H.
  rewrite forallb_forall in H. specialize (H y (proj1 (list_elem_of_In _ _) (proj1 (step_next _ _) Hs))).
  unfold answered in H. rewrite Hx in H. simpl in H. by apply bool_decide_eq_true in H.
Qed.

(** C16. An interactive command runs only inside its zone, and never behind an answer that
    the exec failed: in every interleaving of the shim, the child entering the namespaces
    and the exec process, with setup failures and deaths at any point, the command is
    executed only after its pid was written to the zone's cgroup and the shim has let it
    go; no session is answered for a process that was not enrolled; and once the shim has
    answered that the exec failed, the command was never executed and never will be.  The
    shim answers after it has let the command go, so the third answer - that the session
    could not be served - is about a command that may run. *)
Theorem exec_runs_only_enrolled s : reachable s ->
  (runs s = true -> enrolled s = true /\ (shim s = ShimAttach \/ shim s = ShimDone ExecReady \/ shim s = ShimDone AttachFailed)) /\
  (shim s = ShimDone ExecReady -> enrolled s = true) /\
  (shim s = ShimDone ExecFailed -> forall s', rtc step s s' -> runs s' = false).
Proof.
  assert (Hall : forall x, reachable x -> judged x = true) by (intros x; apply by_exploration, states_judged).
  intros Hr. pose proof (Hall s Hr) as Hs. unfold judged in Hs. apply andb_true_iff in Hs as [H1 H2].
  split_and!.
  - intros Hrun. rewrite Hrun in H1. simpl in H1. apply andb_true_iff in H1 as [-> H1]. split; [done|].
    unfold let_go in H1. destruct (shim s) as [| | | | | | |[]]; auto; done.
  - intros Hd. unfold let_go in H2. by rewrite Hd in H2.
  - intros Hd s' Hs'. pose proof (done_stays _ _ _ Hr Hs' Hd) as Hd'.
    assert (Hr' : reachable s') by (unfold reachable in *; by etrans). specialize (Hall s' Hr'). unfold judged, let_go in Hall.
    destruct (runs s'); [|done]. rewrite Hd' in Hall. by destruct (enrolled s').
Qed.

(** All is over: the shim has answered and every process is gone. *)
Definition over (s : State) : bool :=
  match shim s, middle s, child s with
  | ShimDone _, MiddleExited, (ChildExited | ChildUnborn) => true
  | _, _, _ => false
  end.

Lemma states_live : forallb (fun s => over s || negb (bool_decide (acts s = []))) states = true.
Proof. vm_compute. reflexivity. Qed.

(** C40. The handshake never hangs: from every reachable state all runs end, and as long as
    the shim has not answered, or a process of the three is left, one of them can go on
    by itself - no read waits for a pipe nobody will write or close, no [waitpid] for a
    process that waits in turn - so a run ends with an answer and no process left. *)
Theorem exec_handshake_ends s : reachable s ->
  Acc (fun y x => step x y) s /\ (over s = false -> exists s', s' ∈ acts s).
Proof.
  intros Hr. split.
  - remember (rank s) as n eqn:Hn. revert s Hr Hn. induction n as [n IH] using lt_wf_ind. intros s Hr ->.
    constructor. intros y Hy. eapply IH; [by apply step_rank| |done]. by eapply rtc_r.
  - intros Ho. pose proof (by_exploration _ _ states_live Hr) as H. cbv beta in H. rewrite Ho in H. simpl in H.
    apply negb_true_iff, bool_decide_eq_false in H. destruct (acts s) as [|s' l]; [done|]. exists s'. left.
Qed.

(** ** A run that executes the command *)
Module Demo.

Fixpoint follows (s : State) (path : list State) : bool :=
  match path with [] => true | s' :: path' => bool_decide (s' ∈ next s) && follows s' path' end.

Lemma follows_rtc path : forall s, follows s path = true -> rtc step s (List.last path s).
Proof.
  induction path as [|s' path IH]; intros s; [constructor|]. cbn [follows].
  intros [Hs%bool_decide_eq_true Hp]%andb_true_iff. apply IH in Hp.
  assert (E : List.last (s' :: path) s = List.last path s').
  { clear. destruct path as [|x path]; [done|]. change (List.last (s' :: x :: path) s) with (List.last (x :: path) s).
    revert x. induction path as [|y path IH]; intros x; [done|]. apply (IH y). }
  rewrite E. eapply rtc_l; [by apply step_next|done].
Qed.

(** Always the first outcome: the shim first, then the first child, then the exec process. *)
Fixpoint eager (n : nat) (s : State) : list State :=
  match n, acts s with
  | S n', s' :: _ => s' :: eager n' s'
  | _, _ => []
  end.

Definition running : State := List.last (eager 15 start) start.

Lemma executing_reachable : reachable running.
Proof. unfold reachable, running. apply follows_rtc. vm_compute. reflexivity. Qed.

Lemma exec_runs_only_enrolled_witness :
  child running = ChildRuns /\ enrolled running = true /\ shim running = ShimDone ExecReady.
Proof.
  split; [vm_compute; reflexivity|].
  split; [|vm_compute; reflexivity]. apply (exec_runs_only_enrolled running executing_reachable). vm_compute. reflexivity.
Defined.

(** The command may run before the shim has answered, and when it has answered that the
    session could not be served. *)
Definition unanswered : State :=
  mkState ShimAttach MiddleReap ChildRuns false false false true true.
Definition attach_failed : State :=
  mkState (ShimDone AttachFailed) MiddleReap ChildRuns false false false true true.
Example runs_before_the_answer : bool_decide (unanswered ∈ states) && bool_decide (attach_failed ∈ states) = true.
Proof. vm_compute. reflexivity. Qed.
Example runs_behind_an_error : step unanswered attach_failed.
Proof. apply by_shim. right. left. Qed.

Lemma exec_handshake_ends_witness : exists s', s' ∈ acts running.
Proof. apply (exec_handshake_ends running executing_reachable). vm_compute. reflexivity. Defined.

End Demo.
End Handshake.

(** ** The relay loop *)
Module Relay.

Notation bytes := (list Z).

(** What [revents] says of a descriptor: readable, and hung up or in error. *)
Record Revents := mkRevents { pollin : bool; hangup : bool }.

(** The answers of the kernel, in the order of the calls. *)
Inductive Answer :=
| Polled (pty socket : Revents)
| PollTimeout
| PollInterrupted
| PollFailed
| Read (data : bytes)         (* [Ok(n)]; nothing at the end of the file *)
| ReadFailed
| Wrote (n : nat)
| WriteFailed.

(** Where the loop is: the call whose answer it waits for, with the data still to be
    written and the [revents] of this round. *)
Inductive At :=
| Polling
| ReadingPty (pty socket : Revents)
| WritingSocket (pty socket : Revents) (data : bytes)
| Draining
| WritingDrained (data : bytes)
| ReadingSocket (socket : Revents)
| WritingPty (socket : Revents) (data : bytes)
| Ended.

(** [from_pty], [to_socket], [from_socket], [to_pty]: the bytes read and written so far. *)
Record State := mkState {
  at_ : At; from_pty : bytes; to_socket : bytes; from_socket : bytes; to_pty : bytes }.

Definition initial : State := mkState Polling [] [] [] [].

Definition goto (a : At) (s : State) : State :=
  mkState a (from_pty s) (to_socket s) (from_socket s) (to_pty s).

(** The rest of a round, from the check of the socket on. *)
Definition socket_end (socket : Revents) : At := if hangup socket then Ended else Polling.
Definition socket_side (socket : Revents) : At := if pollin socket then ReadingSocket socket else socket_end socket.
(** And from the check of [POLLHUP] on the PTY on. *)
Definition pty_end (pty socket : Revents) : At := if hangup pty then Draining else socket_side socket.

(** [write_all_fd] has written [n] more bytes of [data]. *)
Definition rest (n : nat) (data : bytes) (k : At) (more : bytes -> At) : At :=
  match drop n data with [] => k | data' => more data' end.

Definition respond (s : State) (a : Answer) : State :=
  match at_ s, a with
  | Polling, Polled pty socket => goto (if pollin pty then ReadingPty pty socket else pty_end pty socket) s
  | Polling, PollFailed => goto Ended s
  | ReadingPty pty socket, Read (x :: data) =>
      mkState (WritingSocket pty socket (x :: data)) (from_pty s ++ x :: data) (to_socket s) (from_socket s) (to_pty s)
  | ReadingPty _ _, (Read [] | ReadFailed) => goto Ended s
  | WritingSocket pty socket data, Wrote n =>
      mkState (rest n data (pty_end pty socket) (WritingSocket pty socket))
        (from_pty s) (to_socket s ++ take n data) (from_socket s) (to_pty s)
  | WritingSocket _ _ _, WriteFailed => goto Ended s
  | Draining, Read (x :: data) =>
      mkState (WritingDrained (x :: data)) (from_pty s ++ x :: data) (to_socket s) (from_socket s) (to_pty s)
  | Draining, (Read [] | ReadFailed) => goto Ended s
  | WritingDrained data, Wrote n =>
      mkState (rest n data Draining WritingDrained) (from_pty s) (to_socket s ++ take n data) (from_socket s) (to_pty s)
  | WritingDrained _, WriteFailed => goto Ended s
  | ReadingSocket socket, Read (x :: data) =>
      mkState (WritingPty socket (x :: data)) (from_pty s) (to_socket s) (from_socket s ++ x :: data) (to_pty s)
  | ReadingSocket _, (Read [] | ReadFailed) => goto Ended s
  | WritingPty socket data, Wrote n =>
      mkState (rest n data (socket_end socket) (WritingPty socket))
        (from_pty s) (to_socket s) (from_socket s) (to_pty s ++ take n data)
  | WritingPty _ _, WriteFailed => goto Ended s
  | _, _ => s
  end.

Definition relay (answers : list Answer) : State := fold_left respond answers initial.

(** Bytes read and not yet written. *)
Definition held_for_socket (a : At) : bytes :=
  match a with WritingSocket _ _ d | WritingDrained d => d | _ => [] end.
Definition held_for_pty (a : At) : bytes := match a with WritingPty _ d => d | _ => [] end.

(** Everything read is written or held. *)
Definition balanced (s : State) : Prop :=
  from_pty s = (to_socket s ++ held_for_socket (at_ s))%list /\
  from_socket s = (to_pty s ++ held_for_pty (at_ s))%list /\
  (length (held_for_socket (at_ s)) <= 4096)%nat /\ (length (held_for_pty (at_ s)) <= 4096)%nat.

(** The buffer holds 4096 bytes. *)
Definition answer_ok (a : Answer) : Prop := match a with Read d => (length d <= 4096)%nat | _ => True end.

Lemma rest_held n data k more (held : At -> bytes) :
  (forall d, held (more d) = d) -> held k = [] -> held (rest n data k more) = drop n data.
Proof. intros Hm Hk. unfold rest. by destruct (drop n data). Qed.

Lemma rest_none n data k more (held : At -> bytes) :
  (forall d, held (more d) = []) -> held k = [] -> held (rest n data k more) = [].
Proof. intros Hm Hk. unfold rest. by destruct (drop n data). Qed.

Lemma round_holds_nothing pty socket :
  held_for_socket (pty_end pty socket) = [] /\ held_for_pty (pty_end pty socket) = [] /\
  held_for_socket (socket_end socket) = [] /\ held_for_pty (socket_end socket) = [].
Proof. unfold pty_end, socket_side, socket_end. by destruct (hangup pty), (pollin socket), (hangup socket). Qed.

Lemma polled_holds_nothing pty socket (b : bool) :
  held_for_socket (if b then ReadingPty pty socket else pty_end pty socket) = [] /\
  held_for_pty (if b then ReadingPty pty socket else pty_end pty socket) = [].
Proof. destruct b; [done|]. split; apply (round_holds_nothing pty socket). Qed.

(** [n] bytes of [data] are written. *)
Lemma written_balance (read written data : bytes) n :
  read = (written ++ data)%list -> (length data <= 4096)%nat ->
  read = ((written ++ take n data) ++ drop n data)%list /\ (length (drop n data) <= 4096)%nat.
Proof. intros -> Hl. rewrite <- app_assoc, take_drop. split; [done|]. rewrite length_drop. lia. Qed.

(** Every answer but a failing write keeps the balance. *)
Lemma respond_balanced s a : balanced s -> answer_ok a -> a <> WriteFailed -> balanced (respond s a).
Proof.
  unfold balanced. destruct s as [p fp ts fs tp]. cbn [at_ from_pty to_socket from_socket to_pty].
  intros (Ho & Hi & Hlo & Hli) Ha Hw.
  destruct p as [|pty socket|pty socket d| |d|socket|socket d|], a as [pty' socket'| | | |[|x data]| |n|]; try done;
    cbn in *; rewrite ?app_nil_r in *; try done.
  - destruct (polled_holds_nothing pty' socket' (pollin pty')) as [-> ->]. rewrite !app_nil_r. simpl. auto with lia.
  - by subst.
  - rewrite (rest_held _ _ _ _ held_for_socket), (rest_none _ _ _ _ held_for_pty) by (done || apply (round_holds_nothing pty socket)).
    destruct (written_balance _ _ _ n Ho Hlo). rewrite app_nil_r. auto.
  - by subst.
  - rewrite (rest_held _ _ _ _ held_for_socket), (rest_none _ _ _ _ held_for_pty) by done.
    destruct (written_balance _ _ _ n Ho Hlo). rewrite app_nil_r. auto.
  - by subst.
  - rewrite (rest_none _ _ _ _ held_for_socket), (rest_held _ _ _ _ held_for_pty)
      by (done || apply (round_holds_nothing socket socket)).
    destruct (written_balance _ _ _ n Hi Hli). rewrite app_nil_r. auto.
Qed.

(** What was written is a beginning of what was read, short of at most one buffer. *)
Definition in_order (s : State) : Prop :=
  exists out inn, from_pty s = (to_socket s ++ out)%list /\ from_socket s = (to_pty s ++ inn)%list /\
    (length out <= 4096)%nat /\ (length inn <= 4096)%nat.

Lemma balanced_in_order s : balanced s -> in_order s.
Proof. intros (? & ? & ? & ?). by exists (held_for_socket (at_ s)), (held_for_pty (at_ s)). Qed.

(** A session that is over stays as it is. *)
Lemma ended_stays s a : at_ s = Ended -> respond s a = s.
Proof. destruct s as [p fp ts fs tp]. cbn. intros ->. done. Qed.

Lemma write_failed_ends s : balanced s -> balanced (respond s WriteFailed) \/ (in_order (respond s WriteFailed) /\ at_ (respond s WriteFailed) = Ended).
Proof.
  intros Hb. pose proof (balanced_in_order s Hb) as Ho. revert Hb Ho.
  destruct s as [p fp ts fs tp]. destruct p; cbn; auto.
Qed.

Lemma relay_invariant answers : Forall answer_ok answers ->
  balanced (relay answers) \/ (in_order (relay answers) /\ at_ (relay answers) = Ended).
Proof.
  unfold relay. intros Hall. assert (H0 : balanced initial) by (split_and!; cbn; lia || done).
  apply or_introl with (B := in_order initial /\ at_ initial = Ended) in H0. revert H0. generalize initial.
  induction Hall as [|a answers Ha _ IH]; intros s Hs; [done|]. cbn [fold_left]. apply IH. destruct Hs as [Hs|[Ho He]].
  - destruct a; try (left; by apply respond_balanced). by apply write_failed_ends.
  - right. by rewrite ended_stays.
Qed.

(** The relay of an interactive session keeps the bytes in order and loses none by
    itself: whatever the kernel answers, what the client was sent is a beginning of what
    the command printed and what the command was sent is a beginning of what the client
    typed, short of at most one 4096-byte buffer; and when the session ends other than by
    a failing write - the PTY hung up and was drained, or the client left - nothing that
    was read is missing on the other side. *)
Theorem relay_in_order answers : Forall answer_ok answers ->
  in_order (relay answers) /\
  forall a, answer_ok a -> a <> WriteFailed -> at_ (relay answers) <> Ended -> at_ (respond (relay answers) a) = Ended ->
    to_socket (respond (relay answers) a) = from_pty (respond (relay answers) a) /\
    to_pty (respond (relay answers) a) = from_socket (respond (relay answers) a).
Proof.
  intros Hall. pose proof (relay_invariant answers Hall) as Hinv.
  split; [destruct Hinv as [Hb|[Ho _]]; [by apply balanced_in_order|done]|].
  intros a Ha Hw Hn He. destruct Hinv as [Hb|[_ Hx]]; [|done].
  destruct (respond_balanced _ a Hb Ha Hw) as (Ho & Hi & _). rewrite He in Ho, Hi. cbn in Ho, Hi.
  rewrite app_nil_r in *. done.
Qed.

(** The attach socket is non-blocking: a client that does not keep up makes a write fail
    with [EAGAIN], and that ends its session with the output lost. *)
Lemma slow_client_loses_output socket x data :
  let s := relay [Polled (mkRevents true false) socket; Read (x :: data); WriteFailed] in
  at_ s = Ended /\ from_pty s = x :: data /\ to_socket s = [].
Proof. done. Qed.

Module Demo.

(** The command prints three bytes and hangs up, with one more in the PTY. *)
Definition answers : list Answer :=
  [Polled (mkRevents true true) (mkRevents false false); Read [1; 2; 3]%Z; Wrote 2; Wrote 1; Read [4]%Z; Wrote 1].

Lemma relay_in_order_witness :
  at_ (respond (relay answers) (Read [])) = Ended /\ to_socket (respond (relay answers) (Read [])) = [1; 2; 3; 4]%Z /\
  to_socket (respond (relay answers) (Read [])) = from_pty (respond (relay answers) (Read [])).
Proof.
  split; [reflexivity|]. split; [reflexivity|].
  assert (Hok : Forall answer_ok answers) by (unfold answers; forall_each; cbn; lia).
  destruct (relay_in_order answers Hok) as [_ H].
  refine (proj1 (H (Read []) _ _ _ _)); [cbn; lia|discriminate|vm_compute; discriminate|reflexivity].
Defined.

End Demo.
End Relay.
