(* ===== verification/ProcSec.v ===== *)
(** * Process security of an interactive exec

    [ProcessSecurity] and [apply_process_security] of [rauha-shim/src/container.rs]:
    the capability sets of the OCI spec as masks, and the system calls that put the exec
    process under them.  The system calls are the kernel's; [CapLaws] is what
    capabilities(7) and prctl(2) promise of one that succeeds. *)

From stdpp Require Import base strings list.
From Stdlib Require Import ZArith Lia.
From S2P Require Import Prelude.
From S2P Require Import RustStr.
From S2P Require Import EnforcerApi.
From S2P Require Import Zone.
From S2P Require Import StateError.
Open Scope Z_scope.

Module ProcSec.

(** The process of an OCI spec, as far as it is read here. *)
Record OciCapabilities := mkCaps {
  oci_bounding : option (list string); oci_effective : option (list string);
  oci_inheritable : option (list string); oci_permitted : option (list string);
  oci_ambient : option (list string) }.
Record OciProcess := mkProcess {
  oci_capabilities : option OciCapabilities; oci_no_new_privileges : option bool }.

Record ProcessSecurity := mkSecurity {
  bounding : Z; effective : Z; inheritable : Z; permitted : Z; ambient : Z; no_new_privileges : bool }.

Fixpoint capability_mask_from (caps : list string) (mask : Z) : result Z string :=
  match caps with
  | [] => Ok mask
  | name :: caps' =>
      let? bit := ok_or (Zone.linux_capability_bit name) ("unsupported OCI capability: " ++ name)%string in
      capability_mask_from caps' (Z.lor mask (Z.shiftl 1 bit))
  end.
Definition capability_mask (caps : option (list string)) : result Z string :=
  capability_mask_from (default [] caps) 0.

Definition from_process (p : OciProcess) : result ProcessSecurity string :=
  let? c := ok_or (oci_capabilities p) "process.capabilities is required"%string in
  let? b := capability_mask (oci_bounding c) in
  let? e := capability_mask (oci_effective c) in
  let? i := capability_mask (oci_inheritable c) in
  let? q := capability_mask (oci_permitted c) in
  let? a := capability_mask (oci_ambient c) in
  Ok (mkSecurity b e i q a (default false (oci_no_new_privileges p))).

(** ** The kernel's record of a process, and the calls *)

Record Task := mkTask {
  t_bounding : Z; t_effective : Z; t_inheritable : Z; t_permitted : Z; t_ambient : Z; t_nnp : bool }.

Notation M := (M Task string).

(** [struct __user_cap_data_struct]. *)
Record UserCapData := mkData { d_effective : Z; d_permitted : Z; d_inheritable : Z }.

Class CapCalls := {
  capbset_drop : Z -> M unit;
  capset : UserCapData -> UserCapData -> M unit;
  ambient_clear_all : M unit;
  ambient_raise : Z -> M unit;
  set_no_new_privs : M unit }.

(** Two words of a mask. *)
Definition wide (lo hi : Z) : Z := Z.lor lo (Z.shiftl hi 32).

Class CapLaws `{!CapCalls} := {
  capbset_drop_ok c t t' : capbset_drop c t = (Ok tt, t') ->
    t' = mkTask (Z.clearbit (t_bounding t) c) (t_effective t) (t_inheritable t) (t_permitted t) (t_ambient t) (t_nnp t);
  capset_ok lo hi t t' : capset lo hi t = (Ok tt, t') ->
    let e := wide (d_effective lo) (d_effective hi) in
    let p := wide (d_permitted lo) (d_permitted hi) in
    let i := wide (d_inheritable lo) (d_inheritable hi) in
    t' = mkTask (t_bounding t) e i p (Z.land (t_ambient t) (Z.land p i)) (t_nnp t);
  ambient_clear_ok t t' : ambient_clear_all t = (Ok tt, t') ->
    t' = mkTask (t_bounding t) (t_effective t) (t_inheritable t) (t_permitted t) 0 (t_nnp t);
  ambient_raise_ok c t t' : ambient_raise c t = (Ok tt, t') ->
    t' = mkTask (t_bounding t) (t_effective t) (t_inheritable t) (t_permitted t) (Z.setbit (t_ambient t) c) (t_nnp t);
  no_new_privs_ok t t' : set_no_new_privs t = (Ok tt, t') ->
    t' = mkTask (t_bounding t) (t_effective t) (t_inheritable t) (t_permitted t) (t_ambient t) true }.

Section Apply.
Context `{CC : CapCalls}.

Definition low (x : Z) : Z := wrap 32 x.
Definition high (x : Z) : Z := wrap 32 (Z.shiftr x 32).

(** [for capability in 0..=cap_last_cap]. *)
Definition all_caps (cap_last_cap : Z) : list Z := map Z.of_nat (seq 0 (S (Z.to_nat cap_last_cap))).

Definition drop_bounding (s : ProcessSecurity) (c : Z) : M unit :=
  if Z.land (bounding s) (Z.shiftl 1 c) =? 0 then capbset_drop c else ret tt.
Definition raise_ambient (s : ProcessSecurity) (c : Z) : M unit :=
  if negb (Z.land (ambient s) (Z.shiftl 1 c) =? 0) then ambient_raise c else ret tt.

Definition apply_process_security (s : ProcessSecurity) (cap_last_cap : Z) : M unit :=
  do _ <- for_each (drop_bounding s) (all_caps cap_last_cap);
  do _ <- capset (mkData (low (effective s)) (low (permitted s)) (low (inheritable s)))
                 (mkData (high (effective s)) (high (permitted s)) (high (inheritable s)));
  do _ <- ambient_clear_all;
  do _ <- for_each (raise_ambient s) (all_caps cap_last_cap);
  if no_new_privileges s then set_no_new_privs else ret tt.

(** ** Lemmas *)

Lemma wide_words x : in_width 64 x -> wide (low x) (high x) = x.
Proof.
  intros Hx. unfold in_width in Hx. unfold wide, low, high, wrap. apply Z.bits_inj'. intros n Hn.
  rewrite Z.lor_spec, Z.shiftl_spec by lia. destruct (Z.lt_ge_cases n 32).
  - rewrite Z.mod_pow2_bits_low by lia. rewrite (Z.testbit_neg_r _ (n - 32)) by lia. apply orb_false_r.
  - rewrite Z.mod_pow2_bits_high by lia. simpl. destruct (Z.lt_ge_cases n 64).
    + rewrite Z.mod_pow2_bits_low, Z.shiftr_spec by lia. f_equal. lia.
    + rewrite Z.mod_pow2_bits_high by lia. symmetry. apply Z.bits_above_log2; [lia|].
      destruct (Z.eq_dec x 0) as [->|]; [simpl; lia|]. apply Z.log2_lt_pow2; [lia|].
      apply Z.lt_le_trans with (2 ^ 64); [lia|]. apply Z.pow_le_mono_r; lia.
Qed.

Lemma bit_test x c : 0 <= c -> (Z.land x (Z.shiftl 1 c) =? 0) = negb (Z.testbit x c).
Proof.
  intros Hc. rewrite Z.shiftl_1_l. pose proof (has_flag_pow2 x c Hc) as H. unfold has_flag in H.
  rewrite <- H. by rewrite negb_involutive.
Qed.

Lemma elem_of_all_caps last c : 0 <= last -> c ∈ all_caps last <-> 0 <= c <= last.
Proof.
  intros Hl. unfold all_caps. rewrite list_elem_of_fmap. split.
  - intros (k & -> & Hk%elem_of_seq). lia.
  - intros Hc. exists (Z.to_nat c). split; [lia|]. apply elem_of_seq. lia.
Qed.

Lemma mask_agrees caps : forall m0 m, capability_mask_from caps m0 = Ok m -> Zone.capabilities_to_mask_from caps m0 = Ok m.
Proof.
  induction caps as [|c caps IH]; intros m0 m; simpl; [by intros [= ->]|]. destruct (Zone.linux_capability_bit c); simpl; [apply IH|done].
Qed.

(** A mask has the bits of the capabilities named. *)
Definition names (caps : option (list string)) (i : Z) : Prop :=
  exists name, name ∈ default [] caps /\ Zone.linux_capability_bit name = Some i.

Lemma mask_bits caps m i : capability_mask caps = Ok m -> Z.testbit m i = true <-> names caps i.
Proof.
  intros H%mask_agrees. rewrite (Zone.capabilities_to_mask_from_bits _ _ _ H), Z.bits_0. unfold names. naive_solver.
Qed.

Lemma mask_width caps m : capability_mask caps = Ok m -> in_width 64 m.
Proof. intros H%mask_agrees. apply (Zone.capabilities_to_mask_bound (default [] caps)) in H. unfold in_width. lia. Qed.

Context `{CL : !CapLaws}.

Definition same_but_bounding (t t' : Task) : Prop :=
  t_effective t' = t_effective t /\ t_inheritable t' = t_inheritable t /\ t_permitted t' = t_permitted t /\
  t_ambient t' = t_ambient t /\ t_nnp t' = t_nnp t.

Lemma drops s caps : Forall (fun c => 0 <= c) caps -> forall t t',
  for_each (drop_bounding s) caps t = (Ok tt, t') ->
  same_but_bounding t t' /\
  forall i, 0 <= i -> Z.testbit (t_bounding t') i = Z.testbit (t_bounding t) i && (negb (bool_decide (i ∈ caps)) || Z.testbit (bounding s) i).
Proof.
  induction 1 as [|c caps Hc _ IH]; intros t t'; cbn [for_each].
  - intros [= <-]. split; [done|]. intros i _. by rewrite bool_decide_eq_false_2, andb_true_r by apply not_elem_of_nil.
  - unfold bind, drop_bounding. rewrite bit_test by done.
    assert (Hi : forall i b, (negb (bool_decide (i ∈ c :: caps)) || b) = (negb (bool_decide (i ∈ caps)) || b) && (negb (bool_decide (i = c)) || b)).
    { intros i b. rewrite (bool_decide_ext (i ∈ c :: caps) (i = c \/ i ∈ caps)) by apply elem_of_cons.
      rewrite bool_decide_or. by destruct (bool_decide (i = c)), (bool_decide (i ∈ caps)), b. }
    destruct (Z.testbit (bounding s) c) eqn:Eb; cbn [negb].
    + cbn [ret]. intros [Hs Ht]%IH. split; [done|]. intros i Hn. rewrite Ht, Hi by done. destruct (decide (i = c)) as [->|].
      * rewrite Eb, !orb_true_r. done.
      * rewrite (bool_decide_eq_false_2 (i = c)) by done. by rewrite orb_true_l, andb_true_r.
    + destruct (capbset_drop c t) as [[[]|] t1] eqn:E; [|done]. apply capbset_drop_ok in E. subst t1.
      intros [Hs Ht]%IH. split; [exact Hs|]. intros i Hn. rewrite Ht, Hi by done. cbn [t_bounding].
      destruct (decide (i = c)) as [->|].
      * rewrite Z.clearbit_eq, Eb, (bool_decide_eq_true_2 (c = c)) by done. simpl. by rewrite andb_false_r, andb_false_r.
      * rewrite Z.clearbit_neq, (bool_decide_eq_false_2 (i = c)) by congruence. by rewrite orb_true_l, andb_true_r.
Qed.

Definition same_but_ambient (t t' : Task) : Prop :=
  t_effective t' = t_effective t /\ t_inheritable t' = t_inheritable t /\ t_permitted t' = t_permitted t /\
  t_bounding t' = t_bounding t /\ t_nnp t' = t_nnp t.

Lemma raises s caps : Forall (fun c => 0 <= c) caps -> forall t t',
  for_each (raise_ambient s) caps t = (Ok tt, t') ->
  same_but_ambient t t' /\
  forall i, 0 <= i -> Z.testbit (t_ambient t') i = Z.testbit (t_ambient t) i || (bool_decide (i ∈ caps) && Z.testbit (ambient s) i).
Proof.
  induction 1 as [|c caps Hc _ IH]; intros t t'; cbn [for_each].
  - intros [= <-]. split; [done|]. intros i _. by rewrite bool_decide_eq_false_2, orb_false_r by apply not_elem_of_nil.
  - unfold bind, raise_ambient. rewrite bit_test, negb_involutive by done.
    assert (Hi : forall i, bool_decide (i ∈ c :: caps) = bool_decide (i = c) || bool_decide (i ∈ caps)).
    { intros i. rewrite (bool_decide_ext (i ∈ c :: caps) (i = c \/ i ∈ caps)) by apply elem_of_cons. apply bool_decide_or. }
    destruct (Z.testbit (ambient s) c) eqn:Eb.
    + destruct (ambient_raise c t) as [[[]|] t1] eqn:E; [|done]. apply ambient_raise_ok in E. subst t1.
      intros [Hs Ht]%IH. split; [exact Hs|]. intros i Hn. rewrite Ht, Hi by done. cbn [t_ambient].
      rewrite Z.setbit_eqb by done. destruct (decide (i = c)) as [->|].
      * rewrite Z.eqb_refl, (bool_decide_eq_true_2 (c = c)), Eb by done. simpl. by rewrite orb_true_r.
      * rewrite (proj2 (Z.eqb_neq c i)), (bool_decide_eq_false_2 (i = c)) by congruence. done.
    + cbn [ret]. intros [Hs Ht]%IH. split; [done|]. intros i Hn. rewrite Ht, Hi by done. destruct (decide (i = c)) as [->|].
      * by rewrite Eb, !andb_false_r.
      * by rewrite (bool_decide_eq_false_2 (i = c)) by done.
Qed.

Lemma all_caps_nonneg last : Forall (fun c => 0 <= c) (all_caps last).
Proof. apply Forall_forall. intros c. unfold all_caps. rewrite list_elem_of_fmap. intros (k & -> & _). lia. Qed.

(** A finished setup leaves the process with the sets of the spec. *)
Lemma applied s last t t' : 0 <= last ->
  in_width 64 (effective s) -> in_width 64 (permitted s) -> in_width 64 (inheritable s) ->
  apply_process_security s last t = (Ok tt, t') ->
  t_effective t' = effective s /\ t_permitted t' = permitted s /\ t_inheritable t' = inheritable s /\
  (forall i, 0 <= i -> Z.testbit (t_ambient t') i = (i <=? last) && Z.testbit (ambient s) i) /\
  (forall i, 0 <= i -> Z.testbit (t_bounding t') i = Z.testbit (t_bounding t) i && ((last <? i) || Z.testbit (bounding s) i)) /\
  (no_new_privileges s = true -> t_nnp t' = true).
Proof.
  intros Hl He Hp Hi. unfold apply_process_security, bind.
  destruct (for_each (drop_bounding s) _ t) as [[[]|] t1] eqn:E1; [|done].
  destruct (drops _ _ (all_caps_nonneg last) _ _ E1) as [_ Hb].
  destruct (capset _ _ t1) as [[[]|] t2] eqn:E2; [|done]. apply capset_ok in E2. cbn [d_effective d_permitted d_inheritable] in E2.
  rewrite !wide_words in E2 by done.
  destruct (ambient_clear_all t2) as [[[]|] t3] eqn:E3; [|done]. apply ambient_clear_ok in E3.
  destruct (for_each (raise_ambient s) _ t3) as [[[]|] t4] eqn:E4; [|done].
  destruct (raises _ _ (all_caps_nonneg last) _ _ E4) as [(R1 & R2 & R3 & R4 & R5) Ha]. subst t2. subst t3. cbn in *.
  assert (Hin : forall i, 0 <= i -> bool_decide (i ∈ all_caps last) = (i <=? last)).
  { intros i Hn. rewrite (bool_decide_ext _ (i <= last)) by (rewrite elem_of_all_caps by done; lia).
    destruct (Z.leb_spec i last); [by apply bool_decide_eq_true|apply bool_decide_eq_false; lia]. }
  assert (Hfin : t_effective t4 = effective s /\ t_permitted t4 = permitted s /\ t_inheritable t4 = inheritable s /\
    (forall i, 0 <= i -> Z.testbit (t_ambient t4) i = (i <=? last) && Z.testbit (ambient s) i) /\
    (forall i, 0 <= i -> Z.testbit (t_bounding t4) i = Z.testbit (t_bounding t) i && ((last <? i) || Z.testbit (bounding s) i))).
  { split_and!; [done..| |].
    - intros i Hn. by rewrite Ha, Z.bits_0, Hin by done.
    - intros i Hn. rewrite R4, Hb, Hin by done. by rewrite Z.leb_antisym, negb_involutive. }
  destruct Hfin as (F1 & F2 & F3 & F4 & F5). destruct (no_new_privileges s).
  - intros E5%no_new_privs_ok. subst t'. cbn. by split_and!.
  - intros [= <-]. by split_and!.
Qed.

(** C20. What an interactive command may do is what the container's spec says: when the exec
    process has been put under its spec, a capability is effective, permitted or inheritable
    exactly when the spec's list names it, ambient exactly when that list names it and the
    kernel knows it, one the bounding list does not name can never be regained, and where the
    spec forbids new privileges the process has given them up.  A name the program does not
    know stops the setup before the first call. *)
Theorem exec_has_the_specs_capabilities p s last t t' c :
  oci_capabilities p = Some c -> from_process p = Ok s -> 0 <= last ->
  apply_process_security s last t = (Ok tt, t') ->
  forall i, 0 <= i ->
    (Z.testbit (t_effective t') i = true <-> names (oci_effective c) i) /\
    (Z.testbit (t_permitted t') i = true <-> names (oci_permitted c) i) /\
    (Z.testbit (t_inheritable t') i = true <-> names (oci_inheritable c) i) /\
    (Z.testbit (t_ambient t') i = true <-> i <= last /\ names (oci_ambient c) i) /\
    (i <= last -> Z.testbit (t_bounding t') i = true -> names (oci_bounding c) i) /\
    (oci_no_new_privileges p = Some true -> t_nnp t' = true).
Proof.
  intros Hc Hf Hl Ha i Hi. unfold from_process in Hf. rewrite Hc in Hf. cbn [ok_or] in Hf.
  destruct (capability_mask (oci_bounding c)) as [b|] eqn:Eb; [|done].
  destruct (capability_mask (oci_effective c)) as [e|] eqn:Ee; [|done].
  destruct (capability_mask (oci_inheritable c)) as [n|] eqn:En; [|done].
  destruct (capability_mask (oci_permitted c)) as [q|] eqn:Eq; [|done].
  destruct (capability_mask (oci_ambient c)) as [a|] eqn:Ea; [|done]. injection Hf as <-.
  apply applied in Ha; [|done|by eapply mask_width..]. destruct Ha as (H1 & H2 & H3 & H4 & H5 & H6). cbn in *.
  split_and!.
  - rewrite H1. by apply mask_bits.
  - rewrite H2. by apply mask_bits.
  - rewrite H3. by apply mask_bits.
  - rewrite H4, andb_true_iff, Z.leb_le by done. pose proof (mask_bits _ _ i Ea). tauto.
  - intros Hle Hb. rewrite H5, andb_true_iff, (proj2 (Z.ltb_ge _ _)) in Hb by done. apply (mask_bits _ _ i Eb). tauto.
  - intros Hnnp. apply H6. by rewrite Hnnp.
Qed.

End Apply.

(** ** A kernel that grants every call *)
Module Demo.

#[local] Instance calls : CapCalls := {|
  capbset_drop c t := (Ok tt, mkTask (Z.clearbit (t_bounding t) c) (t_effective t) (t_inheritable t) (t_permitted t) (t_ambient t) (t_nnp t));
  capset lo hi t :=
    let p := wide (d_permitted lo) (d_permitted hi) in
    let i := wide (d_inheritable lo) (d_inheritable hi) in
    (Ok tt, mkTask (t_bounding t) (wide (d_effective lo) (d_effective hi)) i p (Z.land (t_ambient t) (Z.land p i)) (t_nnp t));
  ambient_clear_all t := (Ok tt, mkTask (t_bounding t) (t_effective t) (t_inheritable t) (t_permitted t) 0 (t_nnp t));
  ambient_raise c t := (Ok tt, mkTask (t_bounding t) (t_effective t) (t_inheritable t) (t_permitted t) (Z.setbit (t_ambient t) c) (t_nnp t));
  set_no_new_privs t := (Ok tt, mkTask (t_bounding t) (t_effective t) (t_inheritable t) (t_permitted t) (t_ambient t) true) |}.
#[local] Instance laws : CapLaws.
Proof. split; intros; simplify_eq/=; done. Qed.

Definition caps : OciCapabilities :=
  mkCaps (Some ["CAP_KILL"; "CAP_CHOWN"]%string) (Some ["CAP_KILL"]%string) None (Some ["CAP_KILL"]%string) None.
Definition process : OciProcess := mkProcess (Some caps) (Some true).
Definition root : Task := mkTask (2 ^ 41 - 1) (2 ^ 41 - 1) 0 (2 ^ 41 - 1) 0 false.
Definition security : ProcessSecurity := mkSecurity 33 32 0 32 0 true.

Definition after : Task := Eval vm_compute in snd (apply_process_security security 40 root).

Lemma exec_has_the_specs_capabilities_witness :
  t_bounding after = 33 /\ t_nnp after = true /\ (Z.testbit (t_effective after) 5 = true <-> names (oci_effective caps) 5).
Proof.
  assert (Hf : from_process process = Ok security) by (vm_compute; reflexivity).
  assert (Ha : apply_process_security security 40 root = (Ok tt, after)) by (vm_compute; reflexivity).
  split; [reflexivity|]. split; [reflexivity|].
  exact (proj1 (exec_has_the_specs_capabilities process security 40 root after caps eq_refl Hf ltac:(lia) Ha 5 ltac:(lia))).
Defined.

End Demo.
End ProcSec.
