(* ===== verification/Session.v ===== *)
(** * The shim's request loop and its interactive sessions

    [rauha-shim/src/main.rs] (the loop over connections and [handle_request]) and the
    session side of [rauha-shim/src/attach.rs]: the registry of PTYs, opening a session,
    resizing it, ending it, and the checks [fork_and_exec_pty] makes before it forks (the
    handshake that follows is [Attach.Handshake], the relay [Attach.Relay]).

    A request is handled to its end before the next one is read; the ends of sessions,
    which happen on their own threads, are items of the same sequence. *)

From stdpp Require Import base gmap strings list fin_maps sets.
From Stdlib Require Import ZArith Lia Ascii.
From S2P Require Import Prelude.
From S2P Require Import RustStr.
From S2P Require Import StateError.
From S2P Require Import Backend.
From S2P Require Import Shim.
From S2P Require Import ProcSec.
Open Scope Z_scope.

Module Session.
Import Backend.

(** ** The system *)

(** An OCI spec, as far as an exec reads it. *)
Record ExecSpec := mkExecSpec { seccomp : bool; process : option ProcSec.OciProcess }.

(** [openpty fds]: a new PTY whose master is none of the descriptors in use.  [handshake]
    forks, and gives the pid of the enrolled exec process or an error. *)
Class SessionHost := {
  X : Type;
  new_v4 : X -> string * X;
  path_exists : string -> X -> bool;
  open_file : string -> X -> result unit string * X;
  openpty : gset Z -> X -> result Z string * X;
  spec_of_json : string -> result ExecSpec string;
  read_cap_last_cap : X -> result Z string;
  handshake : string -> list string -> list string -> ProcSec.ProcessSecurity -> Z -> X -> result Z string * X;
  create_dir_all : string -> X -> result unit string * X;
  bind_socket : string -> X -> result unit string * X;
  set_winsize : Z -> Z -> Z -> X -> result unit string * X }.

Class SessionHostLaws `{!SessionHost} := {
  openpty_fresh fds x fd x' : openpty fds x = (Ok fd, x') -> fd ∉ fds }.

Section Session.
Context {H : Shim.Host} {SH : SessionHost}.

(** The shim: its containers, the registry of sessions, the PTY masters it has open, and
    the system. *)
Record Desk := mkDesk {
  shim : Shim.ShimState; world : Shim.World; sessions : gmap string Z; ptys : gset Z; sys : X }.

Notation M := (M Desk string).

Definition with_shim (st : Shim.ShimState) (d : Desk) : Desk := mkDesk st (world d) (sessions d) (ptys d) (sys d).
Definition with_sys (x : X) (d : Desk) : Desk := mkDesk (shim d) (world d) (sessions d) (ptys d) x.
Definition with_sessions (f : gmap string Z -> gmap string Z) (d : Desk) : Desk :=
  mkDesk (shim d) (world d) (f (sessions d)) (ptys d) (sys d).
Definition with_ptys (f : gset Z -> gset Z) (d : Desk) : Desk :=
  mkDesk (shim d) (world d) (sessions d) (f (ptys d)) (sys d).

(** A call of the container code, and of the system. *)
Definition lift {A} (c : Shim.M A) : M A := fun d =>
  let '(a, w) := c (world d) in (Ok a, mkDesk (shim d) w (sessions d) (ptys d) (sys d)).
Definition os {A} (c : X -> result A string * X) : M A := fun d =>
  let '(r, x) := c (sys d) in (r, mkDesk (shim d) (world d) (sessions d) (ptys d) x).
(** An operation on the containers, with its result as a value. *)
Definition on_shim {A} (f : Shim.ShimState -> Shim.M (result A string * Shim.ShimState)) : M (result A string) :=
  do st <- gets shim;
  do (r, st') <- lift (f st);
  do _ <- modify (with_shim st');
  ret r.

(** ** Sessions *)

(** [ContainerNamespaces::open]. *)
Definition open_namespaces (pid : Z) : M unit :=
  for_each (fun f => os (open_file ("/proc/" ++ Str.show pid ++ "/" ++ f)%string))
    ["root"; "ns/mnt"; "ns/uts"; "ns/ipc"; "ns/net"; "ns/pid"]%string.

(** [cstring_vec]. *)
Fixpoint cstring_vec_from (idx : nat) (values : list string) (field : string) : result (list string) string :=
  match values with
  | [] => Ok []
  | value :: values' =>
      if Str.contains_char "000"%char value then
        Err (field ++ "[" ++ Str.show (Z.of_nat idx) ++ "] contains an interior NUL byte")%string
      else let? rest := cstring_vec_from (S idx) values' field in Ok (value :: rest)
  end.
Definition cstring_vec := cstring_vec_from 0.

(** What [fork_and_exec_pty] asks for before it takes a PTY. *)
Definition exec_checks (container_id : string) (init_pid : Z) (command : list string) (rootfs_root : string) : M unit :=
  if bool_decide (command = []) then fail "exec command is empty"%string
  else if init_pid =? 0 then fail ("container " ++ container_id ++ " is not running")%string
  else
    let container_dir := Shim.join_path (Shim.join_path rootfs_root "containers") container_id in
    do x <- gets sys;
    if negb (path_exists (Shim.join_path container_dir "merged") x)
       && negb (path_exists (Shim.join_path container_dir "rootfs") x)
    then fail ("rootfs not found for container " ++ container_id)%string
    else open_namespaces init_pid.

(** What it reads of the spec, and the handshake. *)
Definition launch (zone : string) (command env : list string) (spec_json : string) : M Z :=
  do c_args <- of_result (cstring_vec command "exec.command");
  do c_env <- of_result (cstring_vec env "exec.env");
  do spec <- of_result (spec_of_json spec_json);
  if seccomp spec then fail "interactive exec is disabled for seccomp-filtered containers"%string
  else
    do process <- or_fail (process spec) "spec missing process"%string;
    do security <- of_result (ProcSec.from_process process);
    do x <- gets sys;
    do last <- of_result (read_cap_last_cap x);
    os (handshake zone c_args c_env security (Z.min last 63)).

(** The PTY is closed again when anything fails; on success it is left open for the relay. *)
Definition fork_and_exec_pty (zone container_id : string) (init_pid : Z) (command env : list string)
    (spec_json rootfs_root : string) : M (Z * Z) :=
  do _ <- exec_checks container_id init_pid command rootfs_root;
  do fds <- gets ptys;
  do master_fd <- os (openpty fds);
  do pid <- launch zone command env spec_json;
  do _ <- modify (with_ptys (fun fds => {[master_fd]} ∪ fds));
  ret (master_fd, pid).

Definition serve_attach_session (container_id session_id : string) (pty_master_fd : Z) : M string :=
  do run_dir <- lift Shim.run_dir;
  let socket_dir := Shim.join_path (Shim.join_path run_dir "containers") container_id in
  do _ <- os (create_dir_all socket_dir);
  let socket_path := Shim.join_path socket_dir ("attach-" ++ session_id ++ ".sock") in
  do _ <- os (bind_socket socket_path);
  do _ <- modify (with_sessions (fun m => <[session_id := pty_master_fd]> m));
  ret socket_path.

(** The end of the session's thread: the registry first, the descriptor next. *)
Definition end_session (session_id : string) (pty_master_fd : Z) (d : Desk) : Desk :=
  with_ptys (fun fds => fds ∖ {[pty_master_fd]}) (with_sessions (base.delete session_id) d).

Definition bad_size (rows cols : Z) : bool := (rows =? 0) || (cols =? 0) || (65535 <? rows) || (65535 <? cols).

Definition resize_pty (session_id : string) (rows cols : Z) : M unit :=
  if bad_size rows cols then fail ("invalid PTY size " ++ Str.show rows ++ "x" ++ Str.show cols)%string
  else
    do m <- gets sessions;
    do fd <- or_fail (m !! session_id) ("PTY session " ++ session_id ++ " not found")%string;
    os (set_winsize fd (wrap 16 rows) (wrap 16 cols)).

(** ** Requests *)

Definition error_of {A} (ok : A -> ShimResponse) (r : result A string) : ShimResponse :=
  match r with Ok a => ok a | Err e => RError e end.

Definition not_found (id : string) : ShimResponse := RError ("container " ++ id ++ " not found")%string.

(** The [Exec] arm, for a PTY. *)
Definition exec (id : string) (command env : list string) : M ShimResponse :=
  do x <- gets sys;
  let '(session_id, x) := new_v4 x in
  do _ <- modify (with_sys x);
  do st <- gets shim;
  match Shim.spec_json <$> Shim.containers st !! id with
  | None => ret (not_found id)
  | Some spec_json =>
      match Shim.get_state st id with
      | None => ret (not_found id)
      | Some (init_pid, status, _) =>
          if negb (String.eqb status "running") || (init_pid =? 0) then
            ret (RError ("container " ++ id ++ " is not running")%string)
          else
            do r <- attempt (fork_and_exec_pty (Shim.zone_name st) id init_pid command env spec_json
                              (Shim.rootfs_root st));
            match r with
            | Err e => ret (RError ("exec failed: " ++ e)%string)
            | Ok (master_fd, _) =>
                do r <- attempt (serve_attach_session id session_id master_fd);
                ret (match r with
                     | Ok socket_path => RExecReady (Some session_id) socket_path
                     | Err e => RError ("failed to create attach session: " ++ e)%string
                     end)
            end
      end
  end.

Definition handle_request (request : ShimRequest) : M ShimResponse :=
  match request with
  | CreateContainer id spec_json =>
      do r <- on_shim (fun st => Shim.ret (Shim.create_container st id spec_json)); ret (error_of RCreated r)
  | StartContainer id => do r <- on_shim (fun st => Shim.start_container st id); ret (error_of RCreated r)
  | StopContainer id signal =>
      do r <- on_shim (fun st => Shim.stop_container st id signal); ret (error_of (fun _ => ROk) r)
  | Signal id signal =>
      do st <- gets shim; do r <- lift (Shim.signal_container st id signal); ret (error_of (fun _ => ROk) r)
  | GetState id =>
      do st <- gets shim;
      ret (match Shim.get_state st id with
           | Some (pid, status, exit_code) => RState pid status exit_code
           | None => not_found id
           end)
  | Shutdown =>
      do st <- gets shim; do st' <- lift (Shim.request_shutdown st); do _ <- modify (with_shim st'); ret ROk
  | DeleteContainer id => do r <- on_shim (fun st => Shim.delete_container st id); ret (error_of (fun _ => ROk) r)
  | GetStats =>
      do st <- gets shim;
      let '(pids, container_count) := Shim.container_summary st in
      ret (RStats 0 0 pids container_count 0 0)
  | ResizePty id session_id rows cols =>
      match session_id with
      | None => ret (RError ("missing PTY session id for container " ++ id)%string)
      | Some session_id => do r <- attempt (resize_pty session_id rows cols); ret (error_of (fun _ => ROk) r)
      end
  | Exec id command env pty =>
      if negb pty then ret (RError "non-PTY exec not yet supported"%string) else exec id command env
  | Attach _ _ => ret (RError "attach to non-PTY container not supported — use `exec -it` instead"%string)
  end.

(** ** The loop *)

(** What the listener yields, and the sessions that end meanwhile. *)
Inductive Item :=
| Request (r : ShimRequest)
| Undecodable
| AcceptError
| SessionEnds (session_id : string) (pty_master_fd : Z).

Definition reap : M unit :=
  do st <- gets shim; do st' <- lift (Shim.reap_children st); modify (with_shim st').

Definition is_ok_response (r : ShimResponse) : bool := match r with ROk => true | _ => false end.

(** One round: [true] when the loop ends. *)
Definition round (i : Item) : M bool :=
  match i with
  | Request r =>
      do response <- handle_request r;
      do st <- gets shim;
      if is_ok_response response && Shim.shutdown st then ret true
      else do _ <- reap; ret false
  | Undecodable | AcceptError => do _ <- reap; ret false
  | SessionEnds session_id fd =>
      (* Its own thread: only a registered session has one. *)
      do m <- gets sessions;
      if decide (m !! session_id = Some fd) then do _ <- modify (end_session session_id fd); ret false else ret false
  end.

Fixpoint serve (items : list Item) : M unit :=
  match items with
  | [] => ret tt
  | i :: items' => do over <- round i; if over : bool then ret tt else serve items'
  end.

Definition boot (zone root : string) (w : Shim.World) (x : X) : Desk :=
  mkDesk (Shim.new zone root) w ∅ ∅ x.

(** ** What a request leaves alone *)

(** The system moved on; containers, sessions and descriptors are as before. *)
Definition same (d d' : Desk) : Prop := shim d' = shim d /\ sessions d' = sessions d /\ ptys d' = ptys d.
#[local] Instance same_order : PreOrder same.
Proof. split; [by intros|]. intros x y z (A1 & A2 & A3) (B1 & B2 & B3). unfold same. by rewrite B1, B2, B3. Qed.

Lemma same_os {A} (c : X -> result A string * X) : keeps same (os c).
Proof. intros d. unfold wp, os. by destruct (c (sys d)). Qed.
Lemma same_lift {A} (c : Shim.M A) : keeps same (lift c).
Proof. intros d. unfold wp, lift. by destruct (c (world d)). Qed.
Hint Resolve same_os same_lift : keeps.

Lemma same_namespaces pid : keeps same (open_namespaces pid).
Proof. unfold open_namespaces. keeps_auto. Qed.
Hint Resolve same_namespaces : keeps.

Lemma wp_same {A} (c : M A) (Q : result A string -> Desk -> Prop) d :
  keeps same c -> (forall r d', same d d' -> Q r d') -> wp c Q d.
Proof. intros Hc HQ. eapply wp_mono; [apply Hc|]. auto. Qed.

Context {SHL : SessionHostLaws}.

Lemma same_checks id pid command root : keeps same (exec_checks id pid command root).
Proof. unfold exec_checks. keeps_auto. Qed.
Lemma same_launch zone command env spec : keeps same (launch zone command env spec).
Proof. unfold launch. keeps_auto. Qed.

Lemma checks_spec id pid command root d :
  wp (exec_checks id pid command root) (fun r d' => same d d' /\ (r = Ok tt -> command <> [])) d.
Proof.
  destruct (decide (command = [])) as [->|Hne]; [by apply wp_fail|]. eapply wp_mono; [apply same_checks|]. by intros.
Qed.

(** A forked exec has a new PTY and no session yet. *)
Definition forked (command : list string) (d : Desk) (r : result (Z * Z) string) (d' : Desk) : Prop :=
  shim d' = shim d /\ sessions d' = sessions d /\
  match r with Ok (fd, _) => command <> [] /\ fd ∉ ptys d /\ ptys d' = {[fd]} ∪ ptys d | Err _ => ptys d' = ptys d end.

Lemma fork_spec zone id pid command env spec root d :
  wp (fork_and_exec_pty zone id pid command env spec root) (forked command d) d.
Proof.
  assert (Herr : forall e d', same d d' -> forked command d (Err e) d') by (intros e d' Hs; exact Hs).
  unfold fork_and_exec_pty. wp_step. eapply wp_mono; [apply checks_spec|]. intros [[]|e] d1 [H1 Hc]; [|by apply Herr].
  specialize (Hc eq_refl).
  wp_step. wp_step. wp_step. unfold os at 1, wp at 1. destruct (openpty (ptys d1) (sys d1)) as [[fd|e] x1] eqn:E; cbn [fst snd].
  2: { by apply Herr. }
  apply openpty_fresh in E. set (d2 := mkDesk _ _ _ _ _). assert (H2 : same d d2) by exact H1.
  destruct H1 as (_ & _ & Hp). rewrite Hp in E. clearbody d2.
  wp_step. eapply wp_same; [apply same_launch|]. intros [q|e] d3 H3; [|apply Herr; by transitivity d2].
  assert (Hs : same d d3) by (by transitivity d2). wp_step. wp_step. wp_step. destruct Hs as (A1 & A2 & A3).
  unfold forked. cbn. by rewrite A1, A2, A3.
Qed.

(** ** The invariant *)

(** Every container's record is consistent, and every session has an open PTY of its own. *)
Record ok (d : Desk) : Prop := {
  ok_containers : Shim.all_wf (Shim.containers (shim d));
  ok_open : forall s fd, sessions d !! s = Some fd -> fd ∈ ptys d;
  ok_own : forall s s' fd, sessions d !! s = Some fd -> sessions d !! s' = Some fd -> s = s' }.

Lemma ok_same d d' : same d d' -> ok d -> ok d'.
Proof. intros (E1 & E2 & E3) [Hc Ho Hu]. split; rewrite ?E1, ?E2, ?E3; done. Qed.

Lemma ok_shim st d : ok d -> Shim.all_wf (Shim.containers st) -> ok (with_shim st d).
Proof. intros [_ Ho Hu] Hw. by split. Qed.

Lemma ok_ends s fd d : sessions d !! s = Some fd -> ok d -> ok (end_session s fd d).
Proof.
  intros Hs [Hc Ho Hu]. split; [done|..]; unfold end_session; cbn.
  - intros s' fd' [Hne Hs']%lookup_delete_Some. apply elem_of_difference. split; [by eapply Ho|].
    intros ->%elem_of_singleton. by apply Hne, (Hu _ _ fd).
  - intros s1 s2 f [_ H1]%lookup_delete_Some [_ H2]%lookup_delete_Some. by eapply Hu.
Qed.

Lemma ok_registers s fd d : ok d -> fd ∈ ptys d -> (forall s', sessions d !! s' <> Some fd) ->
  ok (with_sessions (fun m => <[s := fd]> m) d).
Proof.
  intros [Hc Ho Hu] Hfd Hnew. split; [done|..]; cbn.
  - intros s' f. rewrite lookup_insert_Some. intros [[_ <-]|[_ Hs']]; [done|by eapply Ho].
  - intros s1 s2 f. rewrite !lookup_insert_Some. intros [[<- <-]|[N1 H1]] [[E2 E]|[N2 H2]]; try done.
    + by apply Hnew in H2.
    + subst. by apply Hnew in H1.
    + by eapply Hu.
Qed.

(** ** What is true of a reply *)

(** The container a request removes. *)
Definition removes (r : ShimRequest) : option string := match r with DeleteContainer id => Some id | _ => None end.

Definition running_as (st : Shim.ShimState) (id : string) (pid : Z) : Prop :=
  exists p, Shim.containers st !! id = Some p /\ Shim.status p = Shim.Running /\ Shim.cpid p = pid.

Definition true_reply (r : ShimRequest) (a : ShimResponse) (d d' : Desk) : Prop :=
  match r, a with
  | CreateContainer id spec, RCreated pid =>
      pid = 0 /\ Shim.containers (shim d) !! id = None /\
      Shim.containers (shim d') !! id = Some (Shim.mkProc 0 Shim.Created None spec None)
  | StartContainer id, RCreated pid => running_as (shim d') id pid
  | StopContainer id _, ROk => exists p code, Shim.containers (shim d') !! id = Some p /\
      Shim.status p = Shim.Stopped /\ Shim.exit_code p = Some code
  | Signal id _, ROk => exists pid, running_as (shim d) id pid
  | GetState id, RState pid status code => exists p, Shim.containers (shim d') !! id = Some p /\
      pid = Shim.cpid p /\ status = Shim.status_text (Shim.status p) /\ code = Shim.exit_code p
  | DeleteContainer id, ROk => Shim.containers (shim d') !! id = None
  | Shutdown, ROk => Shim.shutdown (shim d') = true
  | Exec id command _ _, RExecReady session _ =>
      (exists pid, running_as (shim d) id pid /\ pid <> 0) /\ command <> [] /\
      exists s fd, session = Some s /\ sessions d' = <[s := fd]> (sessions d) /\ fd ∉ ptys d /\ fd ∈ ptys d'
  | ResizePty _ session rows cols, ROk =>
      (1 <= rows <= 65535 /\ 1 <= cols <= 65535) /\ exists s, session = Some s /\ is_Some (sessions d !! s)
  | Attach _ _, (RExecReady _ _ | RAttachReady _ _) => False
  | _, _ => True
  end.

(** A handled request: a reply that is true, and a desk that is still in order. *)
Definition handled (r : ShimRequest) (d : Desk) (a : result ShimResponse string) (d' : Desk) : Prop :=
  ok d' /\ Shim.step_ok (removes r) (shim d) (shim d') /\ exists a', a = Ok a' /\ true_reply r a' d d'.

Lemma handled_same r d a d' : ok d -> same d d' -> true_reply r a d d' -> handled r d (Ok a) d'.
Proof.
  intros Ho Hs Ht. split; [by eapply ok_same|]. split; [|by exists a]. destruct Hs as (-> & _). apply Shim.step_ok_refl, Ho.
Qed.

(** An operation on the containers that succeeds or fails as [P] says. *)
Lemma wp_on_shim {A} (f : Shim.ShimState -> Shim.M (result A string * Shim.ShimState)) g P (Q : result (result A string) string -> Desk -> Prop) d :
  ok d ->
  Shim.ensures (f (shim d)) (fun rs => Shim.step_ok g (shim d) (snd rs) /\ P (fst rs) (snd rs)) ->
  (forall r d', ok d' -> sessions d' = sessions d -> ptys d' = ptys d -> Shim.step_ok g (shim d) (shim d') -> P r (shim d') -> Q (Ok r) d') ->
  wp (on_shim f) Q d.
Proof.
  intros Ho Hf HQ. unfold on_shim. wp_step. wp_step. wp_step. unfold lift, wp at 1. specialize (Hf (world d)).
  destruct (f (shim d) (world d)) as [[r st'] w']. cbn [fst snd] in *. destruct Hf as [Hs HP].
  wp_step. wp_step. wp_step. apply HQ; cbn; try done. split; [apply Hs|apply Ho|apply Ho].
Qed.
Lemma get_state_Some st id pid status code : Shim.get_state st id = Some (pid, status, code) ->
  exists p, Shim.containers st !! id = Some p /\ pid = Shim.cpid p /\
            status = Shim.status_text (Shim.status p) /\ code = Shim.exit_code p.
Proof.
  unfold Shim.get_state. destruct (Shim.containers st !! id) as [p|]; [|done]. cbn. intros [= <- <- <-]. by exists p.
Qed.

Lemma status_running p : Shim.status_text (Shim.status p) = "running"%string -> Shim.status p = Shim.Running.
Proof. by destruct (Shim.status p). Qed.

Lemma serve_attach_spec id s fd d : ok d -> fd ∈ ptys d -> (forall s', sessions d !! s' <> Some fd) ->
  wp (serve_attach_session id s fd) (fun r d' => ok d' /\ shim d' = shim d /\ ptys d' = ptys d /\
    (forall path, r = Ok path -> sessions d' = <[s := fd]> (sessions d))) d.
Proof.
  intros Ho Hfd Hnew.
  assert (Herr : forall e d', same d d' -> ok d' /\ shim d' = shim d /\ ptys d' = ptys d /\
    (forall path, @Err string string e = Ok path -> sessions d' = <[s := fd]> (sessions d))).
  { intros e d' Hs. split; [by eapply ok_same|]. destruct Hs as (-> & _ & ->). done. }
  unfold serve_attach_session. wp_step. eapply wp_same; [apply same_lift|]. intros [dir|e] d1 H1; [|by apply Herr].
  wp_step. eapply wp_same; [apply same_os|]. intros [[]|e] d2 H2; [|by apply Herr; transitivity d1].
  wp_step. eapply wp_same; [apply same_os|]. intros [[]|e] d3 H3; [|by apply Herr; transitivity d1; [done|transitivity d2]].
  assert (Hs : same d d3) by (transitivity d1; [done|by transitivity d2]). clear Herr H1 H2 H3.
  pose proof (ok_same _ _ Hs Ho) as Ho3. destruct Hs as (E1 & E2 & E3). wp_step. wp_step. wp_step. split; [|by rewrite <- E2].
  apply ok_registers; [done|by rewrite E3|by rewrite E2].
Qed.

Lemma exec_spec id command env d : ok d -> wp (exec id command env) (handled (Exec id command env true) d) d.
Proof.
  intros Ho. unfold exec. wp_step. wp_step. destruct (new_v4 (sys d)) as [session x].
  wp_step. wp_step. set (d1 := with_sys x d). assert (H1 : same d d1) by done. wp_step. wp_step.
  assert (Herr : forall e, handled (Exec id command env true) d (Ok (RError e)) d1) by (intros; by apply handled_same).
  destruct (Shim.spec_json <$> _) as [spec|]; [|wp_step; apply Herr].
  destruct (Shim.get_state (shim d1) id) as [[[pid status] code]|] eqn:Eg; [|wp_step; apply Herr].
  destruct (negb (String.eqb status "running") || (pid =? 0)) eqn:Er; [wp_step; apply Herr|].
  apply orb_false_iff in Er as [Er%negb_false_iff Hpid%Z.eqb_neq]. apply String.eqb_eq in Er.
  apply get_state_Some in Eg as (p & Hp & -> & -> & _). apply status_running in Er.
  wp_step. wp_step. eapply wp_mono; [apply fork_spec|]. intros [[fd q]|e] d2 (E1 & E2 & E3).
  2: { wp_step. apply handled_same; [done| |done]. by split. }
  destruct E3 as (Hcommand & Hfresh & E3). assert (Hnew : forall s, sessions d2 !! s <> Some fd).
  { rewrite E2. intros s Hs. by apply Hfresh, (ok_open _ Ho s). }
  assert (Ho2 : ok d2).
  { split; rewrite ?E1, ?E2, ?E3; [apply Ho| |apply Ho]. intros s f Hs. apply elem_of_union_r, (ok_open _ Ho s f Hs). }
  wp_step. wp_step. eapply wp_mono; [apply serve_attach_spec; [done|rewrite E3; set_solver|done]|].
  intros r d3 (Ho3 & F1 & F2 & F3). wp_step. split; [done|].
  assert (Hsh : shim d3 = shim d) by (by rewrite F1, E1). rewrite Hsh. split; [apply Shim.step_ok_refl, Ho|].
  destruct r as [path|e]; [|by eexists]. eexists. split; [done|]. cbn.
  split; [by exists (Shim.cpid p); split; [exists p|]|]. split.
  - done.
  - exists session, fd. split; [done|]. rewrite (F3 path eq_refl), F2, E2, E3. split; [done|]. split; [done|set_solver].
Qed.
(** The size reaches the terminal as it was asked for. *)
Lemma size_fits rows cols : 0 <= rows -> 0 <= cols -> bad_size rows cols = false ->
  1 <= rows <= 65535 /\ 1 <= cols <= 65535 /\ wrap 16 rows = rows /\ wrap 16 cols = cols.
Proof.
  unfold bad_size, wrap. intros Hr Hc. rewrite !orb_false_iff, !Z.eqb_neq, !Z.ltb_ge. intros [[[? ?] ?] ?].
  rewrite !Z.mod_small by lia. lia.
Qed.

(** The sizes of a request are [u32]. *)
Definition request_ok (r : ShimRequest) : Prop :=
  match r with ResizePty _ _ rows cols => 0 <= rows /\ 0 <= cols | _ => True end.

Lemma resize_spec id session rows cols d : ok d -> 0 <= rows -> 0 <= cols ->
  wp (handle_request (ResizePty id session rows cols)) (handled (ResizePty id session rows cols) d) d.
Proof.
  intros Ho Hr Hc. cbn [handle_request]. destruct session as [s|]; [|wp_step; by apply handled_same].
  wp_step. wp_step. unfold resize_pty. destruct (bad_size rows cols) eqn:Eb; [wp_step; wp_step; by apply handled_same|].
  destruct (size_fits rows cols Hr Hc Eb) as (H1 & H2 & _).
  wp_step. wp_step. wp_step. wp_step; [|wp_step; by apply handled_same].
  eapply wp_same; [apply same_os|]. intros [[]|e] d1 Hs; wp_step; (apply handled_same; [done|done|]); [|done].
  split; [done|]. exists s. split; [done|by eexists].
Qed.

Lemma create_ensures st id spec : Shim.all_wf (Shim.containers st) ->
  Shim.ensures (Shim.ret (Shim.create_container st id spec)) (fun rs => Shim.step_ok None st (snd rs) /\
    (forall pid, fst rs = Ok pid -> pid = 0 /\ Shim.containers st !! id = None /\
       Shim.containers (snd rs) !! id = Some (Shim.mkProc 0 Shim.Created None spec None))).
Proof.
  intros Hw. apply Shim.ensures_ret. split; [by apply Shim.create_step|]. unfold Shim.create_container.
  destruct (Shim.containers st !! id); [done|]. intros pid [= <-]. cbn. by rewrite lookup_insert_eq.
Qed.

Lemma start_ensures st id : Shim.all_wf (Shim.containers st) ->
  Shim.ensures (Shim.start_container st id) (fun rs => Shim.step_ok None st (snd rs) /\
    (forall pid, fst rs = Ok pid -> running_as (snd rs) id pid)).
Proof.
  intros Hw. eapply Shim.ensures_mono; [|by apply Shim.start_step]. intros [r st'] [Hs Hr]. split; [done|].
  intros pid Hpid. cbn in *. subst r. destruct Hr as (p & p' & _ & _ & Hp' & Hst & Hc). by exists p'.
Qed.

Lemma delete_ensures st id : Shim.all_wf (Shim.containers st) ->
  Shim.ensures (Shim.delete_container st id) (fun rs => Shim.step_ok (Some id) st (snd rs) /\
    (fst rs = Ok tt -> Shim.containers (snd rs) !! id = None)).
Proof.
  intros Hw w. split; [by apply Shim.delete_step|]. revert w.
  change (Shim.ensures (Shim.delete_container st id) (fun rs => fst rs = Ok tt -> Shim.containers (snd rs) !! id = None)).
  unfold Shim.delete_container. eapply Shim.ensures_bind; [apply Shim.ensures_any|]. intros st1 _. apply Shim.ensures_ret.
  destruct (Shim.containers st1 !! id) as [p|]; [destruct (bool_decide _); [done|]|]; intros _; cbn; apply lookup_delete_eq.
Qed.

Lemma handle_spec r d : ok d -> request_ok r -> wp (handle_request r) (handled r d) d.
Proof.
  intros Ho Hr. pose proof (ok_containers d Ho) as Hw.
  destruct r as [id spec|id|id sig|id sig|id| | |id pty|id command env pty|id session rows cols|id]; cbn [handle_request].
  - wp_step. apply (wp_on_shim _ None (fun r st' => forall pid, r = Ok pid -> pid = 0 /\ Shim.containers (shim d) !! id = None /\
      Shim.containers st' !! id = Some (Shim.mkProc 0 Shim.Created None spec None))); [done|apply create_ensures, Hw|]. cbn. intros r d' Ho' _ _ Hs HP. wp_step.
    split; [done|]. split; [done|]. destruct r as [pid|e]; eexists; (split; [done|]); [|done]. by apply HP.
  - wp_step. apply (wp_on_shim _ None (fun r st' => forall pid, r = Ok pid -> running_as st' id pid)); [done|apply start_ensures, Hw|]. cbn. intros r d' Ho' _ _ Hs HP. wp_step.
    split; [done|]. split; [done|]. destruct r as [pid|e]; eexists; (split; [done|]); [|done]. by apply HP.
  - wp_step. apply (wp_on_shim _ None (fun r st' => r = Ok tt -> exists p c, Shim.containers st' !! id = Some p /\
      Shim.status p = Shim.Stopped /\ Shim.exit_code p = Some c)); [done|apply Shim.stop_step, Hw|]. cbn. intros r d' Ho' _ _ Hs HP. wp_step.
    split; [done|]. split; [done|]. destruct r as [[]|e]; eexists; (split; [done|]); [|done]. by apply HP.
  - wp_step. wp_step. wp_step. unfold lift, wp at 1.
    pose proof (Shim.signal_running (shim d) id sig (world d)) as Hsig.
    destruct (Shim.signal_container _ _ _ _) as [r w']. cbn [fst snd] in *. wp_step. apply handled_same; [done|done|].
    destruct r as [[]|e]; [|done]. destruct (Hsig eq_refl) as (p & Hp & Hst). exists (Shim.cpid p). by exists p.
  - wp_step. wp_step. wp_step. apply handled_same; [done|done|]. destruct (Shim.get_state _ _) as [[[pid status] code]|] eqn:E; [|done].
    by apply get_state_Some.
  - wp_step. wp_step. wp_step. unfold lift, wp at 1. pose proof (Shim.shutdown_step (shim d) Hw (world d)) as Hs.
    assert (Hflag : Shim.shutdown (fst (Shim.request_shutdown (shim d) (world d))) = true).
    { unfold Shim.request_shutdown, Shim.bind. by destruct (Shim.each _ _ _). }
    destruct (Shim.request_shutdown _ _) as [st' w']. cbn [fst snd] in *. wp_step. wp_step. wp_step.
    split; [split; [apply Hs|apply Ho|apply Ho]|]. split; [done|]. by eexists.
  - wp_step. wp_step. destruct (Shim.container_summary _). wp_step. by apply handled_same.
  - wp_step. by apply handled_same.
  - destruct pty; cbn [negb]; [by apply exec_spec|wp_step; by apply handled_same].
  - destruct Hr. by apply resize_spec.
  - wp_step. apply (wp_on_shim _ (Some id) (fun r st' => r = Ok tt -> Shim.containers st' !! id = None)); [done|apply delete_ensures, Hw|]. cbn. intros r d' Ho' _ _ Hs HP. wp_step.
    split; [done|]. split; [done|]. destruct r as [[]|e]; eexists; (split; [done|]); [|done]. by apply HP.
Qed.

(** ** Every sequence of requests *)

Definition item_ok (i : Item) : Prop := match i with Request r => request_ok r | _ => True end.
Definition item_removes (i : Item) : option string := match i with Request r => removes r | _ => None end.

(** The container [id], unless it is removed, goes on. *)
Definition goes_on (id : string) (d d' : Desk) : Prop :=
  ok d' /\ forall p, Shim.containers (shim d) !! id = Some p ->
    exists p', Shim.containers (shim d') !! id = Some p' /\ Shim.advances p p'.

Lemma goes_on_refl id d : ok d -> goes_on id d d.
Proof. intros Ho. split; [done|]. intros p Hp. exists p. split; [done|apply Shim.advances_refl]. Qed.

Lemma goes_on_trans id d d1 d2 : goes_on id d d1 -> goes_on id d1 d2 -> goes_on id d d2.
Proof.
  intros [_ H1] [Ho H2]. split; [done|]. intros p Hp. destruct (H1 p Hp) as (p1 & Hp1 & A1).
  destruct (H2 p1 Hp1) as (p2 & Hp2 & A2). exists p2. split; [done|by eapply Shim.advances_trans].
Qed.

Lemma goes_on_step id g d d' : ok d' -> g <> Some id -> Shim.step_ok g (shim d) (shim d') -> goes_on id d d'.
Proof. intros Ho Hg [_ Hs]. split; [done|]. intros p Hp. by apply Hs. Qed.

Lemma reap_goes_on id d : ok d -> wp reap (fun r d' => r = Ok tt /\ goes_on id d d') d.
Proof.
  intros Ho. unfold reap. wp_step. wp_step. wp_step. unfold lift, wp at 1.
  pose proof (Shim.reap_children_goes (shim d) (ok_containers d Ho) (world d)) as Hg.
  destruct (Shim.reap_children _ _) as [st' w']. cbn [fst snd] in *. wp_step. split; [done|].
  pose proof (Shim.step_ok_all_go None _ _ Hg) as Hs. apply (goes_on_step id None); [|done|done].
  split; [apply Hs|apply Ho|apply Ho].
Qed.

Lemma round_goes_on id i d : ok d -> item_ok i -> item_removes i <> Some id ->
  wp (round i) (fun r d' => is_ok r = true /\ goes_on id d d') d.
Proof.
  intros Ho Hi Hg.
  assert (Hreap : forall d1, goes_on id d d1 -> wp (do _ <- reap; ret false) (fun r d' => is_ok r = true /\ goes_on id d d') d1).
  { intros d1 H1. wp_step. eapply wp_mono; [apply (reap_goes_on id), H1|]. intros r d2 [-> H2]. wp_step.
    split; [done|by eapply goes_on_trans]. }
  destruct i as [r| | |s fd]; cbn [round].
  - wp_step. eapply wp_mono; [by apply handle_spec|]. intros a d1 (Ho1 & Hs & a' & -> & _).
    assert (H1 : goes_on id d d1) by by eapply goes_on_step. wp_step. wp_step.
    destruct (is_ok_response a' && _); [by wp_step|by apply Hreap].
  - by apply Hreap, goes_on_refl.
  - by apply Hreap, goes_on_refl.
  - wp_step. wp_step. destruct (decide _) as [Hs|]; [|wp_step; split; [done|by apply goes_on_refl]].
    wp_step. wp_step. wp_step. split; [done|]. apply (goes_on_step id None); [by apply ok_ends|done|].
    apply Shim.step_ok_refl, Ho.
Qed.

Lemma serve_goes_on id items : Forall item_ok items -> Forall (fun i => item_removes i <> Some id) items ->
  forall d, ok d -> wp (serve items) (fun r d' => r = Ok tt /\ goes_on id d d') d.
Proof.
  induction 1 as [|i items Hi _ IH]; intros Hg d Ho; cbn [serve]; [wp_step; split; [done|by apply goes_on_refl]|].
  apply Forall_cons in Hg as [Hgi Hg]. wp_step. eapply wp_mono; [by apply (round_goes_on id)|].
  intros [over|e] d1 [Hok H1]; [|done]. destruct over; [by wp_step|]. eapply wp_mono; [apply IH; [done|apply H1]|].
  intros r d2 [-> H2]. split; [done|by eapply goes_on_trans].
Qed.

Lemma serve_ok items : Forall item_ok items -> forall d, ok d -> ok (snd (serve items d)).
Proof.
  induction 1 as [|i items Hi _ IH]; intros d Ho; cbn [serve]; [done|].
  assert (exists id, item_removes i <> Some id) as [id Hid].
  { destruct (item_removes i) as [s|]; [exists (s ++ "x")%string|by exists ""%string]. intros [= E].
    apply (f_equal String.length) in E. rewrite Str.string_length_app in E. simpl in E. lia. }
  pose proof (round_goes_on id i d Ho Hi Hid) as H1. unfold wp in H1. unfold bind.
  destruct (round i d) as [[over|e] d1]; cbn in H1; [|by destruct H1]. destruct over; [apply H1|]. apply IH, H1.
Qed.

Lemma boot_ok zone root w x : ok (boot zone root w x).
Proof. split; cbn; [intros id p Hp; by rewrite lookup_empty in Hp|done|done]. Qed.

(** C17. Over any requests, lost connections and ends of sessions, and however the system
    answers: every request of the shim is answered, and the answer is true of the shim it
    leaves - a container said to be created, started, stopped or deleted is, a state read is
    the recorded one, an exec session was opened for a running container and under a PTY of
    its own, a resize went to a registered session at the size asked for.  Container records
    stay consistent, and a container that is not deleted is still there, its status only
    further along. *)
Theorem requests_are_served_truly zone root w x items r :
  Forall item_ok items -> request_ok r ->
  let d := snd (serve items (boot zone root w x)) in
  ok d /\
  (let '(a, d') := handle_request r d in handled r d a d') /\
  (forall id items', Forall item_ok items' -> Forall (fun i => item_removes i <> Some id) items' ->
     goes_on id d (snd (serve items' d))).
Proof.
  intros Hi Hr d. assert (Ho : ok d) by (apply serve_ok; [done|apply boot_ok]). split; [done|]. split.
  - pose proof (handle_spec r d Ho Hr) as H0. unfold wp in H0. by destruct (handle_request r d).
  - intros id items' Hi' Hg. pose proof (serve_goes_on id items' Hi' Hg d Ho) as H0. by destruct H0.
Qed.

End Session.

(** ** A shim with one container *)
Module Demo.

#[local] Instance shim_host : Shim.Host := Shim.demo_host.

(** The number of ids drawn so far, and whether the sockets can be bound. The kernel gives
    the lowest descriptor that is free from 7 on. *)
Fixpoint lowest (n : nat) (fds : gset Z) (fd : Z) : option Z :=
  match n with O => None | S n' => if decide (fd ∈ fds) then lowest n' fds (fd + 1) else Some fd end.

Lemma lowest_free n fds fd fd' : lowest n fds fd = Some fd' -> fd' ∉ fds.
Proof. revert fd. induction n as [|n IH]; intros fd; [done|]. simpl. destruct (decide _); [apply IH|by intros [= <-]]. Qed.

Definition security : ProcSec.OciProcess := ProcSec.mkProcess (Some (ProcSec.mkCaps None None None None None)) None.

#[local] Instance host : SessionHost := {|
  X := nat * bool;
  new_v4 x := (("session-" ++ Str.show (Z.of_nat (fst x)))%string, (S (fst x), snd x));
  path_exists _ _ := true;
  open_file _ x := (Ok tt, x);
  openpty fds x := (match lowest 8 fds 7 with Some fd => Ok fd | None => Err "EMFILE"%string end, x);
  spec_of_json _ := Ok (mkExecSpec false (Some security));
  read_cap_last_cap _ := Ok 40;
  handshake _ _ _ _ _ x := (Ok 43, x);
  create_dir_all _ x := (Ok tt, x);
  bind_socket _ x := (if snd x then Ok tt else Err "No space left on device"%string, x);
  set_winsize _ _ _ x := (Ok tt, x) |}.

#[local] Instance host_laws : SessionHostLaws.
Proof.
  split. intros fds x fd x'. cbn [openpty host]. destruct (lowest 8 fds 7) as [f|] eqn:E; [|done]. intros [= <- _].
  by eapply lowest_free.
Qed.

Definition world0 := Shim.mkWorld false [].
Definition x0 (binds : bool) : X := (0%nat, binds).
Definition started : list Item := [Request (CreateContainer "c" "{}"); Request (StartContainer "c")].
Definition sh : ShimRequest := Exec "c" ["/bin/sh"%string] [] true.
Definition desk (binds : bool) : Desk :=
  snd (serve started (boot "z" "/r" world0 (x0 binds))).

Lemma requests_are_served_truly_witness :
  fst (handle_request sh (desk true)) = Ok (RExecReady (Some "session-0"%string) "/run/rauha/containers/c/attach-session-0.sock") /\
  let '(a, d') := handle_request sh (desk true) in handled sh (desk true) a d'.
Proof.
  split; [vm_compute; reflexivity|]. assert (Hi : Forall item_ok started) by (unfold started; forall_each; exact I).
  destruct (requests_are_served_truly "z" "/r" world0 (x0 true) started sh Hi I) as (_ & Hr & _).
  exact Hr.
Defined.

(** When the attach socket cannot be made, the caller is told so but the command runs on and
    its PTY stays open: no session will ever end and close it. *)
Example failed_attach_leaks_the_pty :
  let '(a, d') := handle_request sh (desk false) in
  a = Ok (RError "failed to create attach session: No space left on device") /\ ptys d' = {[7]} /\ sessions d' = ∅.
Proof. vm_compute. split; [reflexivity|]. split; reflexivity. Qed.

(** [resize_pty] looks the descriptor up under the lock and uses it after: when the session
    ends in between and another exec opens its PTY, the descriptor is the other session's. *)
Example resize_reaches_another_session :
  let d := snd (handle_request sh (desk true)) in
  let looked_up := sessions d !! "session-0"%string in
  let d' := snd (handle_request sh (end_session "session-0" 7 d)) in
  looked_up = Some 7 /\ sessions d' !! "session-1"%string = Some 7 /\ sessions d' !! "session-0"%string = None.
Proof. vm_compute. split; [reflexivity|]. split; reflexivity. Qed.

End Demo.
End Session.
