(* ===== verification/Cri.v ===== *)
(** * The containerd shim

    [containerd-shim-rauha-v2/src/task.rs]: containerd's task calls, mapped to the gRPC
    interface of the daemon.  Calls are served concurrently; between two awaits a call
    holds a lock or touches only its own data, so a call is a program of atomic actions
    and the shim a pool of them, interleaved in any order, with any answers of the daemon
    and the file system.  The OCI bundle's JSON is a parameter. *)

From stdpp Require Import base gmap strings list.
From Stdlib Require Import ZArith Ascii String Lia.
From S2P Require Import Prelude.
From S2P Require Import RustStr.
From S2P Require Import RustText.
From S2P Require Import Utf8.
From S2P Require Import Shim.
Open Scope string_scope.

Module Cri.

Definition ANNOTATION_CONTAINER_TYPE : string := "io.kubernetes.cri.container-type".
Definition ANNOTATION_SANDBOX_ID : string := "io.kubernetes.cri.sandbox-id".

Record ContainerState := mkState {
  rauha_id : string; zone_name : string; pid : Z; is_sandbox : bool; exit_code : option Z }.

(** [RauhaShim]: the client is connected or not. *)
Record RauhaShim := mkShim {
  exit : bool; connected : bool; containers : gmap string ContainerState; sandbox_zone : option string }.

(** ** What the daemon is asked *)

Inductive Rpc : Type -> Type :=
| CreateZone (name zone_type policy_toml : string) : Rpc unit
| DeleteZone (name : string) (force : bool) : Rpc unit
| ZoneStats (zone_name : string) : Rpc unit
| CreateContainer (zone_name name image : string) (command : list string) (env : gmap string string) (working_dir : string) : Rpc string
| StartContainer (container_id : string) : Rpc unit
| StopContainer (container_id : string) (timeout_seconds : Z) : Rpc unit
| DeleteContainer (container_id : string) (force : bool) : Rpc unit
| GetContainer (container_id : string) : Rpc (option string).

(** ** Calls and answers *)

Inductive Call :=
| Create (id bundle : string) | Start (id : string) | Kill (id : string) | Delete (id : string) | State (id : string)
| Wait (id : string) | Connect (id : string) | Shutdown | Stats (id : string).

Inductive Status := CREATED | RUNNING | STOPPED.
(** [about], the id of the record a state was read from, is no part of the response: it says
    which container the status is told of. *)
Inductive Response :=
| RPid (pid : Z) | REmpty | RDeleted (exit_status : Z) | RState (about : string) (pid : Z) (status : Status) | RExited (exit_status : Z)
| RConnected (shim_pid task_pid : Z).
Inductive Error := NotFoundError (id : string) | Other (message : string).
Definition Answer : Type := result Response Error.

(** A call between its awaits: an action on the shim under a lock, a request to the
    daemon, a connection to it, a read of a bundle, a wait for the exit signal.
    [Unanswered]: not over after the rounds looked at. *)
Inductive Prog :=
| Ret (a : Answer)
| Panic
| Unanswered
| Atomic {B : Type} (f : RauhaShim -> B * RauhaShim) (k : B -> Prog)
| Send {B : Type} (c : Rpc B) (k : result B string -> Prog)
| Dial (k : result unit string -> Prog)
| Read (path : string) (k : result string string -> Prog)
| AwaitExit (k : Prog)
| Sleep (k : Prog).

Definition read_shim {B} (f : RauhaShim -> B) : RauhaShim -> B * RauhaShim := fun s => (f s, s).
Definition write_shim (f : RauhaShim -> RauhaShim) : RauhaShim -> unit * RauhaShim := fun s => (tt, f s).

Definition with_containers (f : gmap string ContainerState -> gmap string ContainerState) (s : RauhaShim) : RauhaShim :=
  mkShim (exit s) (connected s) (f (containers s)) (sandbox_zone s).
Definition with_zone (z : string) (s : RauhaShim) : RauhaShim := mkShim (exit s) (connected s) (containers s) (Some z).
Definition with_client (s : RauhaShim) : RauhaShim := mkShim (exit s) true (containers s) (sandbox_zone s).
Definition signal (s : RauhaShim) : RauhaShim := mkShim true (connected s) (containers s) (sandbox_zone s).

(** [containers.get_mut(id)], where it is there. *)
Definition update (id : string) (f : ContainerState -> ContainerState) : RauhaShim -> RauhaShim :=
  with_containers (fun m => match m !! id with Some st => <[id := f st]> m | None => m end).
Definition set_pid (p : Z) (st : ContainerState) : ContainerState :=
  mkState (rauha_id st) (zone_name st) p (is_sandbox st) (exit_code st).
Definition set_exit_code (c : Z) (st : ContainerState) : ContainerState :=
  mkState (rauha_id st) (zone_name st) (pid st) (is_sandbox st) (Some c).

(** The annotations of a bundle's [config.json], where the text is JSON; and its process. *)
Record Process := mkProcess { args : option (list string); env : option (list string); cwd : string }.
Class Bundles := {
  annotation : string -> string -> option string;
  process_of : string -> result (option Process) string }.

Section Shim.
Context {J : Bundles} (self_pid : Z).

(** [&sandbox_id[..12]] panics inside a character. *)
Definition zone_name_for_sandbox (sandbox_id : string) : option string :=
  if Nat.ltb 12 (String.length sandbox_id) then
    match String.get 12 sandbox_id with
    | Some c => if Utf8.cont c then None else Some ("k8s-" ++ String.substring 0 12 sandbox_id)
    | None => None
    end
  else Some ("k8s-" ++ sandbox_id).

Definition config_path (bundle : string) : string := Shim.join_path bundle "config.json".

Definition read_container_type (bundle : string) (k : bool * option string -> Prog) : Prog :=
  Read (config_path bundle) (fun data =>
    k match data with
      | Err _ => (false, None)
      | Ok text => (bool_decide (annotation text ANNOTATION_CONTAINER_TYPE = Some "sandbox"), annotation text ANNOTATION_SANDBOX_ID)
      end).

(** [client()?]. *)
Definition with_connection (k : Prog) : Prog :=
  Atomic (read_shim connected) (fun there =>
    if there : bool then k
    else Dial (fun r => match r with
                        | Ok _ => Atomic (write_shim with_client) (fun _ => k)
                        | Err e => Ret (Err (Other ("failed to connect to rauhad: " ++ e)))
                        end)).

(** [KEY=value] entries; the last of a key is kept. *)
Definition env_entry (m : gmap string string) (e : string) : gmap string string :=
  match Str.split_once "=" e with Some (k, v) => <[k := v]> m | None => m end.
Definition env_map (vars : list string) : gmap string string := fold_left env_entry vars ∅.

Definition insert_container (id : string) (st : ContainerState) (k : Prog) : Prog :=
  Atomic (write_shim (with_containers (fun m => <[id := st]> m))) (fun _ => k).

Definition create_sandbox (id : string) : Prog :=
  match zone_name_for_sandbox id with
  | None => Panic
  | Some zone =>
      Send (CreateZone zone "non-global" "") (fun r =>
        match r with
        | Err e => Ret (Err (Other ("zone create failed: " ++ e)))
        | Ok _ =>
            Atomic (write_shim (with_zone zone)) (fun _ =>
            insert_container id (mkState "" zone 0 true None) (Ret (Ok (RPid self_pid))))
        end)
  end.

Definition create_in (id bundle zone : string) : Prog :=
  Read (config_path bundle) (fun data =>
    match data with
    | Err e => Ret (Err (Other ("read config.json: " ++ e)))
    | Ok text =>
        match process_of text with
        | Err e => Ret (Err (Other ("parse config.json: " ++ e)))
        | Ok p =>
            let command := default [] (option_bind _ _ args p) in
            let vars := default [] (option_bind _ _ env p) in
            Send (CreateContainer zone id id command (env_map vars) (default "" (option_map cwd p))) (fun r =>
              match r with
              | Err e => Ret (Err (Other ("container create failed: " ++ e)))
              | Ok rid => insert_container id (mkState rid zone 0 false None) (Ret (Ok (RPid self_pid)))
              end)
        end
    end).

Definition create_container (id bundle : string) (sandbox_id : option string) : Prog :=
  match sandbox_id with
  | Some sid => match zone_name_for_sandbox sid with Some zone => create_in id bundle zone | None => Panic end
  | None =>
      Atomic (read_shim sandbox_zone) (fun z =>
        match z with
        | Some zone => create_in id bundle zone
        | None => Ret (Err (Other "no sandbox zone"))
        end)
  end.

Definition create (id bundle : string) : Prog :=
  with_connection (read_container_type bundle (fun '(sandbox, sandbox_id) =>
    if sandbox : bool then create_sandbox id else create_container id bundle sandbox_id)).

Definition find (id : string) (k : ContainerState -> Prog) : Prog :=
  Atomic (read_shim (fun s => containers s !! id)) (fun found =>
    match found with Some st => k st | None => Ret (Err (NotFoundError id)) end).

Definition start (id : string) : Prog :=
  find id (fun st =>
    if is_sandbox st then Ret (Ok (RPid self_pid))
    else
      with_connection (Send (StartContainer (rauha_id st)) (fun r =>
        match r with
        | Err e => Ret (Err (Other ("container start failed: " ++ e)))
        | Ok _ => Atomic (write_shim (update id (set_pid self_pid))) (fun _ => Ret (Ok (RPid self_pid)))
        end))).

Definition kill (id : string) : Prog :=
  find id (fun st =>
    if is_sandbox st then Ret (Ok REmpty)
    else with_connection (Send (StopContainer (rauha_id st) 10) (fun _ => Ret (Ok REmpty)))).

Definition take_container (id : string) (s : RauhaShim) : option ContainerState * RauhaShim :=
  (containers s !! id, with_containers (base.delete id) s).

Definition delete (id : string) : Prog :=
  Atomic (take_container id) (fun found =>
    match found with
    | None => Ret (Ok (RDeleted 0))
    | Some st =>
        let answer := Ret (Ok (RDeleted (wrap 32 (default 0%Z (exit_code st))))) in
        with_connection (
          if is_sandbox st then
            Send (DeleteZone (zone_name st) true) (fun _ => Atomic (write_shim signal) (fun _ => answer))
          else Send (DeleteContainer (rauha_id st) true) (fun _ => answer))
    end).

Definition status_of (st : ContainerState) : Status :=
  match exit_code st with Some _ => STOPPED | None => if (0 <? pid st)%Z then RUNNING else CREATED end.
Definition state (id : string) : Prog := find id (fun st => Ret (Ok (RState (rauha_id st) (pid st) (status_of st)))).

(** [self.client().await] where a failure is passed over. *)
Definition try_connection (ok failed : Prog) : Prog :=
  Atomic (read_shim connected) (fun there =>
    if there : bool then ok
    else Dial (fun r => match r with Ok _ => Atomic (write_shim with_client) (fun _ => ok) | Err _ => failed end)).

(** One round of [wait]'s loop; [again]: the next one. *)
Definition wait_round (id : string) (again : Prog) : Prog :=
  Atomic (read_shim (fun s => containers s !! id)) (fun found =>
    match found with
    | None => Ret (Ok (RExited 0))
    | Some st =>
        match exit_code st with
        | Some code => Ret (Ok (RExited (wrap 32 code)))
        | None =>
            if is_sandbox st then AwaitExit (Ret (Ok (RExited 0)))
            else
              try_connection
                (Send (GetContainer (rauha_id st)) (fun r =>
                   match r with
                   | Ok (Some s) =>
                       if String.eqb s "exited" || String.eqb s "stopped" then
                         Atomic (write_shim (update id (set_exit_code 0))) (fun _ => Ret (Ok (RExited 0)))
                       else Sleep again
                   | _ => Sleep again
                   end))
                (Sleep again)
        end
    end).

(** A wait of which at most [rounds] rounds are looked at; it may never answer. *)
Fixpoint wait (rounds : nat) (id : string) : Prog :=
  match rounds with O => Unanswered | S rounds => wait_round id (wait rounds id) end.

Definition connect (id : string) : Prog :=
  Atomic (read_shim (fun s => default self_pid (option_map pid (containers s !! id)))) (fun p =>
    Ret (Ok (RConnected self_pid p))).

Definition shutdown : Prog :=
  Atomic (write_shim (fun s => if decide (containers s = ∅) then signal s else s)) (fun _ => Ret (Ok REmpty)).

Definition stats (id : string) : Prog :=
  find id (fun st => with_connection (Send (ZoneStats (zone_name st)) (fun _ => Ret (Ok REmpty)))).

(** The method of a call. *)
Definition serve (rounds : nat) (c : Call) : Prog :=
  match c with
  | Create id bundle => create id bundle
  | Start id => start id
  | Kill id => kill id
  | Delete id => delete id
  | State id => state id
  | Wait id => wait rounds id
  | Connect id => connect id
  | Shutdown => shutdown
  | Stats id => stats id
  end.

Definition task_of (c : Call) : string :=
  match c with
  | Create id _ | Start id | Kill id | Delete id | State id | Wait id | Connect id | Stats id => id
  | Shutdown => ""
  end.

(** ** Calls side by side *)

(** What the daemon answered to a call's requests, in their order. *)
Inductive Event :=
| Sent {B : Type} (call : Call) (c : Rpc B) (r : result B string).

Record World := mkWorld { shim : RauhaShim; log : list Event; running : gmap nat (Call * Prog); answered : list (Call * Answer) }.

Definition after (w : World) (s : RauhaShim) (l : list Event) (n : nat) (c : Call) (p : Prog) : World :=
  mkWorld s (log w ++ l) (<[n := (c, p)]> (running w)) (answered w).

(** A new call, or the next action of a running one with any answer from outside. *)
Inductive step (w : World) : World -> Prop :=
| step_call n c rounds : running w !! n = None -> step w (after w (shim w) [] n c (serve rounds c))
| step_atomic n c B (f : RauhaShim -> B * RauhaShim) k : running w !! n = Some (c, Atomic f k) ->
    step w (after w (snd (f (shim w))) [] n c (k (fst (f (shim w)))))
| step_send n c B (rpc : Rpc B) k r : running w !! n = Some (c, Send rpc k) -> step w (after w (shim w) [Sent c rpc r] n c (k r))
| step_dial n c k r : running w !! n = Some (c, Dial k) -> step w (after w (shim w) [] n c (k r))
| step_read n c path k r : running w !! n = Some (c, Read path k) -> step w (after w (shim w) [] n c (k r))
| step_exit n c k : running w !! n = Some (c, AwaitExit k) -> exit (shim w) = true -> step w (after w (shim w) [] n c k)
| step_sleep n c k : running w !! n = Some (c, Sleep k) -> step w (after w (shim w) [] n c k)
| step_answer n c a : running w !! n = Some (c, Ret a) ->
    step w (mkWorld (shim w) (log w) (base.delete n (running w)) (answered w ++ [(c, a)])).

(** A shim as [create_task_service] makes it: connected to the daemon or not yet. *)
Definition boot (there : bool) : World := mkWorld (mkShim false there ∅ None) [] ∅ [].
Definition reachable (there : bool) (w : World) : Prop := rtc step (boot there) w.

(** ** What a request may be about *)

(** The daemon made container [rid] for task [t]; the zone [zone] for it. *)
Definition made (l : list Event) (t rid : string) : Prop :=
  exists c zone image command env dir, Sent c (CreateContainer zone t image command env dir) (Ok rid) ∈ l /\ task_of c = t.
Definition zone_made (l : list Event) (t zone : string) : Prop :=
  zone_name_for_sandbox t = Some zone /\
  exists c type policy, Sent c (CreateZone zone type policy) (Ok tt) ∈ l /\ task_of c = t.
(** The daemon started container [rid]; it said that [rid] has exited. *)
Definition started (l : list Event) (rid : string) : Prop := exists c, Sent c (StartContainer rid) (Ok tt) ∈ l.
Definition exited (l : list Event) (rid : string) : Prop :=
  exists c s, Sent c (GetContainer rid) (Ok (Some s)) ∈ l /\ (s = "exited" \/ s = "stopped").
(** So it did with container [rid], or with another one that was made for task [t]: a call
    that was overtaken by the deletion and a new creation of its task marks the new
    container with what the daemon said of the old one. *)
Definition or_overtaken (what : list Event -> string -> Prop) (l : list Event) (t rid : string) : Prop :=
  what l rid \/ exists other, other <> rid /\ made l t other /\ what l other.

Definition justified {B} (l : list Event) (t : string) (c : Rpc B) : Prop :=
  match c with
  | CreateZone zone _ _ => zone_name_for_sandbox t = Some zone
  | DeleteZone zone force => zone_made l t zone /\ force = true
  | CreateContainer _ name _ _ _ _ => name = t
  | StartContainer rid | StopContainer rid _ | GetContainer rid => made l t rid
  | DeleteContainer rid force => made l t rid /\ force = true
  | ZoneStats _ => True
  end.

Inductive all_justified : list Event -> Prop :=
| justified_nil : all_justified []
| justified_snoc B l c (rpc : Rpc B) r : all_justified l -> justified l (task_of c) rpc -> all_justified (l ++ [Sent c rpc r]).

Definition true_answer (l : list Event) (c : Call) (a : Answer) : Prop :=
  match c, a with
  | Create t _, Ok _ => (exists zone, zone_made l t zone) \/ (exists rid, made l t rid)
  | Start t, Ok _ => (exists zone, zone_made l t zone) \/ (exists rid, made l t rid /\ started l rid)
  | State t, Ok (RState rid _ STOPPED) => or_overtaken exited l t rid
  | State t, Ok (RState rid _ RUNNING) => or_overtaken started l t rid
  | _, _ => True
  end.

(** A record of the table. *)
Definition entry_ok (l : list Event) (t : string) (st : ContainerState) : Prop :=
  (if is_sandbox st then zone_made l t (zone_name st) else made l t (rauha_id st)) /\
  ((0 < pid st)%Z -> or_overtaken started l t (rauha_id st)) /\
  (exit_code st <> None -> or_overtaken exited l t (rauha_id st)).
Definition inv (l : list Event) (s : RauhaShim) : Prop :=
  forall t st, containers s !! t = Some st -> entry_ok l t st.

(** *** Where no creation overtakes a call *)

(** A start and a wait mark the record of their task with what the daemon said; a creation
    puts a new record there. *)
Definition marks (c : Call) : bool := match c with Start _ | Wait _ => true | _ => false end.
Definition makes (t : string) (c : Call) : bool := match c with Create t' _ => String.eqb t t' | _ => false end.

(** No creation of a task is in flight while a start of it or a wait for it is. *)
Definition calm (w : World) : Prop :=
  forall n c p n' c' p', running w !! n = Some (c, p) -> running w !! n' = Some (c', p') ->
    marks c = true -> makes (task_of c) c' = false.
Definition calm_step (w w' : World) : Prop := calm w /\ step w w'.
Definition calm_reachable (there : bool) (w : World) : Prop := rtc calm_step (boot there) w.

(** A record, and an answer, are true of the very container they name. *)
Definition entry_true (l : list Event) (st : ContainerState) : Prop :=
  ((0 < pid st)%Z -> started l (rauha_id st)) /\ (exit_code st <> None -> exited l (rauha_id st)).
Definition exact_answer (l : list Event) (c : Call) (a : Answer) : Prop :=
  match c, a with
  | State _, Ok (RState rid _ RUNNING) => started l rid
  | State _, Ok (RState rid _ STOPPED) => exited l rid
  | _, _ => True
  end.

(** ** A program keeps to it *)

Fixpoint safe (c : Call) (l : list Event) (p : Prog) : Prop :=
  match p with
  | Ret a => true_answer l c a
  | Panic | Unanswered => True
  | Atomic f k => forall l' s, l `prefix_of` l' -> inv l' s -> inv l' (snd (f s)) /\ safe c l' (k (fst (f s)))
  | Send rpc k => forall l', l `prefix_of` l' -> justified l' (task_of c) rpc /\ forall r, safe c (l' ++ [Sent c rpc r]) (k r)
  | Dial k | Read _ k => forall r, safe c l (k r)
  | AwaitExit k | Sleep k => safe c l k
  end.

(** ** It does *)

Lemma prefix_in {l l' : list Event} {e} : l `prefix_of` l' -> e ∈ l -> e ∈ l'.
Proof. intros [k ->] He. apply elem_of_app. by left. Qed.

Lemma made_mono l l' t rid : l `prefix_of` l' -> made l t rid -> made l' t rid.
Proof. intros Hp (c & z & i & cm & e & d & H & Ht). exists c, z, i, cm, e, d. split; [by eapply prefix_in|done]. Qed.
Lemma zone_made_mono l l' t z : l `prefix_of` l' -> zone_made l t z -> zone_made l' t z.
Proof. intros Hp [Hz (c & ty & po & H & Ht)]. split; [done|]. exists c, ty, po. split; [by eapply prefix_in|done]. Qed.
Lemma started_mono l l' rid : l `prefix_of` l' -> started l rid -> started l' rid.
Proof. intros Hp (c & H). exists c. by eapply prefix_in. Qed.
Lemma exited_mono l l' rid : l `prefix_of` l' -> exited l rid -> exited l' rid.
Proof. intros Hp (c & s & H & Hs). exists c, s. split; [by eapply prefix_in|done]. Qed.
Lemma overtaken_mono (what : list Event -> string -> Prop) l l' t rid :
  (forall rid, what l rid -> what l' rid) -> l `prefix_of` l' -> or_overtaken what l t rid -> or_overtaken what l' t rid.
Proof. intros Hw Hp [H|(o & Hne & Hm & H)]; [left; auto|]. right. exists o. split_and!; [done|by eapply made_mono|auto]. Qed.
Lemma overtakes (what : list Event -> string -> Prop) l t rid here : made l t rid -> what l rid -> or_overtaken what l t here.
Proof. intros Hm H. destruct (decide (rid = here)) as [->|Hne]; [by left|]. right. by exists rid. Qed.
Lemma overtaken_started l l' t rid : l `prefix_of` l' -> or_overtaken started l t rid -> or_overtaken started l' t rid.
Proof. intros Hp. apply overtaken_mono; [intros o; by apply started_mono|done]. Qed.
Lemma overtaken_exited l l' t rid : l `prefix_of` l' -> or_overtaken exited l t rid -> or_overtaken exited l' t rid.
Proof. intros Hp. apply overtaken_mono; [intros o; by apply exited_mono|done]. Qed.
#[local] Hint Resolve made_mono zone_made_mono started_mono exited_mono overtaken_started overtaken_exited : cri.

Lemma entry_mono l l' t st : l `prefix_of` l' -> entry_ok l t st -> entry_ok l' t st.
Proof. unfold entry_ok. intros Hp (H1 & H2 & H3). destruct (is_sandbox st); split_and!; eauto with cri. Qed.
Lemma inv_mono l l' s : l `prefix_of` l' -> inv l s -> inv l' s.
Proof. intros Hp Hi t st H. by eapply entry_mono, Hi. Qed.
Lemma true_answer_mono l l' c a : l `prefix_of` l' -> true_answer l c a -> true_answer l' c a.
Proof.
  intros Hp. destruct c, a as [[| | |about p st| |]|]; cbn; try done; try (intros [[z H]|H]; [left|right]; naive_solver eauto with cri).
  destruct st; eauto with cri.
Qed.

Lemma safe_longer c p : forall l l', l `prefix_of` l' -> safe c l p -> safe c l' p.
Proof.
  induction p as [a| | |B f k IH|B rpc k IH|k IH|path k IH|k IH|k IH]; intros l l' Hp Hs; cbn in *; try done; eauto using true_answer_mono.
  - intros l2 s H2. apply Hs. by etrans.
  - intros l2 H2. apply Hs. by etrans.
Qed.

Lemma inv_insert l s t st : inv l s -> entry_ok l t st -> inv l (with_containers (fun m => <[t := st]> m) s).
Proof. intros Hi He t' st'. cbn. rewrite lookup_insert_Some. intros [[<- <-]|[_ H]]; [done|by apply Hi]. Qed.

Lemma inv_update l s t f : inv l s -> (forall st, entry_ok l t st -> entry_ok l t (f st)) -> inv l (update t f s).
Proof.
  intros Hi Hf t' st'. unfold update. cbn. destruct (containers s !! t) as [st|] eqn:E; [|apply Hi].
  rewrite lookup_insert_Some. intros [[<- <-]|[_ H]]; [by apply Hf, Hi|by apply Hi].
Qed.

Lemma inv_delete l s t : inv l s -> inv l (with_containers (base.delete t) s).
Proof. intros Hi t' st'. cbn. rewrite lookup_delete_Some. intros [_ H]. by apply Hi. Qed.

Lemma safe_connection c l k : safe c l k ->
  (forall e, true_answer l c (Err e)) -> safe c l (with_connection k).
Proof.
  intros Hk He l' s Hp Hi. cbn. split; [done|]. destruct (connected s); [by eapply safe_longer|].
  intros [[]|e]; cbn; [|by eapply true_answer_mono]. intros l2 s2 Hp2 Hi2. split; [exact Hi2|].
  eapply safe_longer; [|exact Hk]. by etrans.
Qed.

Lemma safe_try c l ok failed : safe c l ok -> safe c l failed -> safe c l (try_connection ok failed).
Proof.
  intros Hk Hf l' s Hp Hi. cbn. split; [done|]. destruct (connected s); [by eapply safe_longer|].
  intros [[]|e]; cbn; [|by eapply safe_longer]. intros l2 s2 Hp2 Hi2. split; [exact Hi2|].
  eapply safe_longer; [|exact Hk]. by etrans.
Qed.

Lemma safe_find c l t k : (forall e, true_answer l c (Err e)) ->
  (forall l' st, l `prefix_of` l' -> entry_ok l' t st -> safe c l' (k st)) -> safe c l (find t k).
Proof.
  intros He Hk l' s Hp Hi. cbn. split; [done|]. destruct (containers s !! t) as [st|] eqn:E; [by apply Hk, Hi|].
  cbn. by eapply true_answer_mono.
Qed.

Lemma prefix_snoc (l : list Event) e : l `prefix_of` (l ++ [e])%list.
Proof. by exists [e]. Qed.
#[local] Hint Resolve prefix_snoc : cri.

Lemma in_snoc (l : list Event) e : e ∈ (l ++ [e])%list.
Proof. apply elem_of_app. right. by left. Qed.

Lemma safe_insert l c t st k : task_of c = t -> entry_ok l t st -> (forall l', l `prefix_of` l' -> safe c l' k) ->
  safe c l (insert_container t st k).
Proof.
  intros Ht He Hk l' s Hp Hi. cbn. split; [by eapply inv_insert, entry_mono|by apply Hk].
Qed.

Lemma create_safe t bundle l : safe (Create t bundle) l (create t bundle).
Proof.
  assert (Herr : forall l e, true_answer l (Create t bundle) (Err e)) by done.
  assert (Hin : forall zone l, safe (Create t bundle) l (create_in t bundle zone)).
  { intros zone l0 [text|e]; cbn; [|done]. destruct (process_of text) as [p|e]; [|done]. intros l' Hp. split; [done|].
    intros [rid|e]; cbv beta iota; [|done].
    assert (Hm : made (l' ++ [Sent (Create t bundle) (CreateContainer zone t t (default [] (option_bind _ _ args p))
                   (env_map (default [] (option_bind _ _ env p))) (default "" (option_map cwd p))) (Ok rid)]) t rid).
    { do 6 eexists. split; [apply in_snoc|done]. }
    apply (safe_insert _ (Create t bundle)); [done|split_and!; [exact Hm|cbn; lia|done]|]. intros l2 H2. right. eauto with cri. }
  apply safe_connection; [|done]. intros data. cbn.
  assert (Hboth : forall (sandbox : bool) sid, safe (Create t bundle) l (if sandbox then create_sandbox t else create_container t bundle sid)).
  { intros [|] sid.
    - unfold create_sandbox. destruct (zone_name_for_sandbox t) as [zone|] eqn:Ez; [|done]. intros l' Hp. split; [done|].
      intros [[]|e]; cbv beta iota; [|done].
      set (l2 := (l' ++ _)%list). assert (Hz : zone_made l2 t zone) by (split; [done|]; do 3 eexists; split; [apply in_snoc|done]).
      intros l3 s H3 Hi. split; [exact Hi|]. apply (safe_insert l3 (Create t bundle)); [done|..].
      + split_and!; [cbn; eauto with cri|cbn; lia|done].
      + intros l4 H4. left. exists zone. eapply zone_made_mono; [|exact Hz]. by etrans.
    - unfold create_container. destruct sid as [sid|]; [destruct (zone_name_for_sandbox sid); [apply Hin|done]|].
      intros l' s Hp Hi. cbn. split; [done|]. destruct (sandbox_zone s); [apply Hin|done]. }
  destruct data as [text|e]; [apply Hboth|exact (Hboth false None)].
Qed.

Lemma start_safe t l : safe (Start t) l (start t).
Proof.
  apply safe_find; [done|]. intros l1 st H1 (Hst & _). destruct (is_sandbox st).
  - left. by eexists.
  - apply safe_connection; [|done]. intros l2 H2. split; [cbn; eauto with cri|]. intros [[]|e]; cbn; [|done].
    set (l3 := (l2 ++ _)%list).
    assert (Hm : made l3 t (rauha_id st)) by (eapply made_mono; [|exact Hst]; etrans; [exact H2|apply prefix_snoc]).
    assert (Hs : started l3 (rauha_id st)) by (exists (Start t); apply in_snoc).
    intros l4 s H4 Hi. split; [|right; exists (rauha_id st); eauto with cri].
    apply inv_update; [done|]. intros st' (E1 & _ & E3). split_and!; [exact E1|intros _|exact E3].
    eapply overtakes; eauto with cri.
Qed.

Lemma state_safe t l : safe (State t) l (state t).
Proof.
  apply safe_find; [done|]. intros l1 st H1 (_ & Hs & He). cbn. unfold status_of.
  destruct (exit_code st); [by apply He|]. destruct (Z.ltb_spec 0 (pid st)); [by apply Hs|done].
Qed.

Lemma wait_safe t rounds : forall l, safe (Wait t) l (wait rounds t).
Proof.
  induction rounds as [|rounds IH]; intros l; [done|]. cbn [wait]. intros l1 s H1 Hi. cbn. split; [done|].
  destruct (containers s !! t) as [st|] eqn:E; [|done]. destruct (exit_code st); [done|].
  destruct (Hi _ _ E) as (Hst & _). destruct (is_sandbox st); [done|]. apply safe_try; [|exact (IH l1)].
  intros l2 H2. split; [cbn; eauto with cri|]. intros [[status|]|e]; cbn; try apply IH.
  destruct (String.eqb status "exited" || String.eqb status "stopped") eqn:Ex; [|exact (IH _)].
  intros l3 s3 H3 Hi3. split; [|done]. apply inv_update; [done|]. intros st' (E1 & E2 & _). split_and!; [exact E1|exact E2|].
  intros _. apply (overtaken_exited _ _ _ _ H3). apply (overtakes exited _ t (rauha_id st)).
  - eapply made_mono; [|exact Hst]. etrans; [exact H2|apply prefix_snoc].
  - exists (Wait t), status. split; [apply in_snoc|]. apply orb_true_iff in Ex as [->%String.eqb_eq| ->%String.eqb_eq]; auto.
Qed.

Lemma serve_safe rounds c l : safe c l (serve rounds c).
Proof.
  destruct c as [t bundle|t|t|t|t|t|t| |t]; cbn [serve].
  - apply create_safe.
  - apply start_safe.
  - apply safe_find; [done|]. intros l1 st H1 (Hst & _). destruct (is_sandbox st); [done|].
    apply safe_connection; [|done]. intros l2 H2. split; [cbn; eauto with cri|done].
  - intros l1 s H1 Hi. cbn. split; [by apply inv_delete|]. destruct (containers s !! t) as [st|] eqn:E; [|done].
    destruct (Hi _ _ E) as (Hst & _). apply safe_connection; [|done]. destruct (is_sandbox st); intros l2 H2.
    + split; [split; [eauto with cri|done]|]. intros r l3 s3 H3 Hi3. by split.
    + split; [split; [cbn; eauto with cri|done]|done].
  - apply state_safe.
  - apply wait_safe.
  - intros l1 s H1 Hi. by split.
  - intros l1 s H1 Hi. cbn. split; [|done]. by destruct (decide _).
  - apply safe_find; [done|]. intros l1 st H1 _. apply safe_connection; [|done]. intros l2 H2. by split.
Qed.

(** The pool keeps to it. *)
Record in_order (w : World) : Prop := {
  in_table : inv (log w) (shim w);
  in_log : all_justified (log w);
  in_calls : forall n c p, running w !! n = Some (c, p) -> safe c (log w) p;
  in_answers : forall c a, (c, a) ∈ answered w -> true_answer (log w) c a }.

Lemma in_order_after w s l n c p : in_order w ->
  inv (log w ++ l) s -> all_justified (log w ++ l) -> safe c (log w ++ l) p -> in_order (after w s l n c p).
Proof.
  intros [_ _ Hc Ha] Hi Hl Hs. assert (Hp : log w `prefix_of` (log w ++ l)%list) by (by exists l).
  split; cbn; [done|done|..].
  - intros n' c' p'. rewrite lookup_insert_Some. intros [[_ [= <- <-]]|[_ H]]; [done|by eapply safe_longer, Hc].
  - intros c' a H. by eapply true_answer_mono, Ha.
Qed.

Lemma in_order_on w n c p : in_order w -> safe c (log w) p -> in_order (after w (shim w) [] n c p).
Proof. intros Hw Hs. apply in_order_after; rewrite ?app_nil_r; [done|apply Hw|apply Hw|done]. Qed.

Lemma step_in_order w w' : step w w' -> in_order w -> in_order w'.
Proof.
  intros Hstep Hw. pose proof (in_calls w Hw) as Hc.
  destruct Hstep as [n c rounds Hn|n c B f k Hn|n c B rpc k r Hn|n c k r Hn|n c path k r Hn|n c k Hn He|n c k Hn|n c a Hn];
    try apply Hc in Hn.
  - apply in_order_on; [done|apply serve_safe].
  - destruct (Hn (log w) (shim w) ltac:(done) (in_table w Hw)) as [Hi Hs].
    apply in_order_after; rewrite ?app_nil_r; [done|exact Hi|apply Hw|exact Hs].
  - destruct (Hn (log w) ltac:(done)) as [Hj Hs]. apply in_order_after; [done|..].
    + eapply inv_mono; [apply prefix_snoc|apply Hw].
    + constructor; [apply Hw|done].
    + apply Hs.
  - apply in_order_on; [done|apply Hn].
  - apply in_order_on; [done|apply Hn].
  - apply in_order_on; [done|apply Hn].
  - apply in_order_on; [done|apply Hn].
  - split; cbn; [apply Hw|apply Hw|..].
    + intros n' c' p' [_ H]%lookup_delete_Some. by eapply Hc.
    + intros c' a'. rewrite elem_of_app, list_elem_of_singleton. intros [H|[= -> ->]]; [by apply Hw|exact Hn].
Qed.

(** *** Where no creation overtakes a call *)

Definition all_true (l : list Event) (s : RauhaShim) : Prop := forall t st, containers s !! t = Some st -> entry_true l st.

(** What a call has read of its task: a record of container [rid], which whatever record is
    there now is of. *)
Definition pinned (c : Call) (pin : option string) (s : RauhaShim) : Prop :=
  match pin with
  | None => True
  | Some rid => marks c = true /\ forall st, containers s !! task_of c = Some st -> rauha_id st = rid
  end.

(** An action of [c] leaves the containers of all tasks which it does not create. *)
Definition frame (c : Call) (s s' : RauhaShim) : Prop :=
  forall t st', containers s' !! t = Some st' -> makes t c = true \/ exists st, containers s !! t = Some st /\ rauha_id st' = rauha_id st.

Fixpoint exact (c : Call) (l : list Event) (pin : option string) (p : Prog) : Prop :=
  match p with
  | Ret a => exact_answer l c a
  | Panic | Unanswered => True
  | Atomic f k => forall l' s, l `prefix_of` l' -> all_true l' s -> pinned c pin s ->
      all_true l' (snd (f s)) /\ frame c s (snd (f s)) /\ exists pin', pinned c pin' (snd (f s)) /\ exact c l' pin' (k (fst (f s)))
  | Send rpc k => forall l' r, l `prefix_of` l' -> exact c (l' ++ [Sent c rpc r]) pin (k r)
  | Dial k | Read _ k => forall r, exact c l pin (k r)
  | AwaitExit k | Sleep k => exact c l pin k
  end.

Lemma entry_true_mono l l' st : l `prefix_of` l' -> entry_true l st -> entry_true l' st.
Proof. intros Hp [H1 H2]. split; eauto with cri. Qed.
Lemma all_true_mono l l' s : l `prefix_of` l' -> all_true l s -> all_true l' s.
Proof. intros Hp Hi t st H. by eapply entry_true_mono, Hi. Qed.
Lemma exact_answer_mono l l' c a : l `prefix_of` l' -> exact_answer l c a -> exact_answer l' c a.
Proof. intros Hp. destruct c, a as [[| | |rid p []| |]|]; cbn; eauto with cri. Qed.

Lemma exact_longer c p : forall l l' pin, l `prefix_of` l' -> exact c l pin p -> exact c l' pin p.
Proof.
  induction p as [a| | |B f k IH|B rpc k IH|k IH|path k IH|k IH|k IH]; intros l l' pin Hp Hs; cbn in *; try done; eauto using exact_answer_mono.
  - intros l2 s H2. apply Hs. by etrans.
  - intros l2 r H2. apply Hs. by etrans.
Qed.

(** Actions that leave the table of containers. *)
Lemma frame_same c s s' : containers s' = containers s -> frame c s s'.
Proof. intros E t st' H. right. exists st'. by rewrite <- E. Qed.
Lemma pinned_same c pin s s' : containers s' = containers s -> pinned c pin s -> pinned c pin s'.
Proof. intros E. destruct pin; [|done]. cbn. by rewrite E. Qed.
Lemma all_true_same l s s' : containers s' = containers s -> all_true l s -> all_true l s'.
Proof. intros E H t st. rewrite E. apply H. Qed.

Lemma exact_same c l pin {B} (f : RauhaShim -> B * RauhaShim) k : (forall s, containers (snd (f s)) = containers s) ->
  (forall s, exact c l pin (k (fst (f s)))) -> exact c l pin (Atomic f k).
Proof.
  intros Hf Hk l' s Hp Hi Hs. split; [exact (all_true_same _ _ _ (Hf s) Hi)|]. split; [by apply frame_same|].
  exists pin. split; [exact (pinned_same _ _ _ _ (Hf s) Hs)|by eapply exact_longer].
Qed.

Lemma exact_connection c l pin k : exact c l pin k -> (forall e, exact_answer l c (Err e)) -> exact c l pin (with_connection k).
Proof.
  intros Hk He. apply exact_same; [done|]. intros s. cbn. destruct (connected s); [done|].
  intros [[]|e]; [|apply He]. by apply exact_same.
Qed.

Lemma exact_try c l pin ok failed : exact c l pin ok -> exact c l pin failed -> exact c l pin (try_connection ok failed).
Proof.
  intros Hk Hf. apply exact_same; [done|]. intros s. cbn. destruct (connected s); [done|].
  intros [[]|e]; [|done]. by apply exact_same.
Qed.

(** A look at the record of its task: a call that marks it pins it. *)
Lemma exact_look c l pin (k : option ContainerState -> Prog) : exact c l pin (k None) ->
  (forall l' st, l `prefix_of` l' -> entry_true l' st -> exact c l' (if marks c then Some (rauha_id st) else None) (k (Some st))) ->
  exact c l pin (Atomic (read_shim (fun s => containers s !! task_of c)) k).
Proof.
  intros Hn Hk l' s Hp Hi Hs. cbn. split; [done|]. split; [by apply frame_same|].
  destruct (containers s !! task_of c) as [st|] eqn:E.
  - eexists. split; [|by apply Hk, (Hi _ _ E)]. destruct (marks c) eqn:Em; [|done]. split; [done|]. intros st'. by rewrite E; intros [= ->].
  - exists pin. split; [done|by eapply exact_longer].
Qed.

(** A new record: of a container that has not run. *)
Lemma exact_insert t bundle l pin st k : pid st = 0%Z -> exit_code st = None ->
  exact (Create t bundle) l None k -> exact (Create t bundle) l pin (insert_container t st k).
Proof.
  intros H0 Hn Hk l' s Hp Hi Hs. cbn. split_and!.
  - intros t' st'. cbn. rewrite lookup_insert_Some. intros [[<- <-]|[_ H]]; [|by eapply Hi]. split; [lia|congruence].
  - intros t' st'. cbn. rewrite lookup_insert_Some. intros [[<- <-]|[_ H]]; [left; apply String.eqb_refl|]. right. by exists st'.
  - exists None. split; [done|by eapply exact_longer].
Qed.

(** A mark on the pinned record. *)
Lemma exact_update c l rid f k : (forall st, rauha_id (f st) = rauha_id st) ->
  (forall l' st, l `prefix_of` l' -> rauha_id st = rid -> entry_true l' st -> entry_true l' (f st)) ->
  exact c l None k -> exact c l (Some rid) (Atomic (write_shim (update (task_of c) f)) (fun _ => k)).
Proof.
  intros Hid Hf Hk l' s Hp Hi [Hm Hs]. cbn. unfold update, with_containers.
  destruct (containers s !! task_of c) as [st|] eqn:E; cbn; split_and!.
  - intros t st'. cbn. rewrite lookup_insert_Some. intros [[_ <-]|[_ H]]; [|by eapply Hi]. apply Hf; [done|by apply Hs|by eapply Hi].
  - intros t st'. cbn. rewrite lookup_insert_Some. intros [[<- <-]|[_ H]]; right; [by exists st|by eexists].
  - exists None. split; [done|by eapply exact_longer].
  - exact Hi.
  - by apply frame_same.
  - exists None. split; [done|by eapply exact_longer].
Qed.

Lemma create_in_exact t bundle zone l pin : exact (Create t bundle) l pin (create_in t bundle zone).
Proof.
  intros [text|e]; cbn; [|done]. destruct (process_of text) as [p|e]; [|done]. intros l' [rid|e] Hp; cbv beta iota; [|done].
  by apply exact_insert.
Qed.

Lemma create_exact t bundle l : exact (Create t bundle) l None (create t bundle).
Proof.
  apply exact_connection; [|done]. intros data.
  assert (Hboth : forall (sandbox : bool) sid, exact (Create t bundle) l None (if sandbox then create_sandbox t else create_container t bundle sid)).
  { intros [|] sid.
    - unfold create_sandbox. destruct (zone_name_for_sandbox t); [|done]. intros l' [[]|e] Hp; cbv beta iota; [|done].
      apply exact_same; [done|]. intros _. by apply exact_insert.
    - unfold create_container. destruct sid as [sid|]; [destruct (zone_name_for_sandbox sid); [apply create_in_exact|done]|].
      apply exact_same; [done|]. intros s. cbn. destruct (sandbox_zone s); [apply create_in_exact|done]. }
  destruct data as [text|e]; [apply Hboth|exact (Hboth false None)].
Qed.

Lemma start_exact t l : exact (Start t) l None (start t).
Proof.
  apply (exact_look (Start t)); [done|]. intros l1 st H1 _. cbn [marks]. destruct (is_sandbox st); [done|].
  apply exact_connection; [|done]. intros l2 [[]|e] H2; cbv beta iota; [|done].
  apply (exact_update (Start t)); [done| |done]. intros l3 st' H3 E [_ Hx]. split; [intros _|exact Hx]. cbn. rewrite E.
  exists (Start t). eapply prefix_in; [exact H3|apply in_snoc].
Qed.

Lemma wait_exact t rounds : forall l pin, exact (Wait t) l pin (wait rounds t).
Proof.
  induction rounds as [|rounds IH]; intros l pin; [done|]. apply (exact_look (Wait t)); [done|]. intros l1 st H1 _. cbn [marks].
  destruct (exit_code st); [done|]. destruct (is_sandbox st); [done|]. apply exact_try; [|apply IH].
  intros l2 [[status|]|e] H2; cbn; try apply IH.
  destruct (String.eqb status "exited" || String.eqb status "stopped") eqn:Ex; [|exact (IH _ _)].
  apply (exact_update (Wait t)); [done| |done]. intros l3 st' H3 E [Hx _]. split; [exact Hx|intros _]. cbn. rewrite E.
  exists (Wait t), status. split; [eapply prefix_in; [exact H3|apply in_snoc]|].
  apply orb_true_iff in Ex as [->%String.eqb_eq| ->%String.eqb_eq]; auto.
Qed.

(** A lookup that fails with an error. *)
Lemma exact_find c l k : (forall e, exact_answer l c (Err e)) ->
  (forall l' st, l `prefix_of` l' -> entry_true l' st -> exact c l' (if marks c then Some (rauha_id st) else None) (k st)) ->
  exact c l None (find (task_of c) k).
Proof. intros He Hk. apply exact_look; [apply He|exact Hk]. Qed.

Lemma serve_exact rounds c l : exact c l None (serve rounds c).
Proof.
  destruct c as [t bundle|t|t|t|t|t|t| |t]; cbn [serve].
  - apply create_exact.
  - apply start_exact.
  - apply (exact_find (Kill t)); [done|]. intros l1 st H1 _. destruct (is_sandbox st); [done|]. by apply exact_connection.
  - intros l1 s H1 Hi Hs. cbn. split_and!.
    + intros t' st'. cbn. rewrite lookup_delete_Some. intros [_ H]. by eapply Hi.
    + intros t' st'. cbn. rewrite lookup_delete_Some. intros [_ H]. right. by exists st'.
    + exists None. split; [done|]. destruct (containers s !! t) as [st|]; [|done]. apply exact_connection; [|done].
      destruct (is_sandbox st); intros l2 r H2; [by apply exact_same|done].
  - apply (exact_find (State t)); [done|]. intros l1 st H1 [Hs He]. cbn. unfold status_of.
    destruct (exit_code st); [by apply He|]. destruct (Z.ltb_spec 0 (pid st)); [by apply Hs|done].
  - apply wait_exact.
  - by apply exact_same.
  - apply exact_same; [|done]. intros s. cbn. by destruct (decide _).
  - apply (exact_find (Stats t)); [done|]. intros l1 st H1 _. by apply exact_connection.
Qed.

(** The pool, as long as it is calm. *)
Definition holds_exactly (w : World) (c : Call) (p : Prog) : Prop := exists pin, pinned c pin (shim w) /\ exact c (log w) pin p.
Record exactly (w : World) : Prop := {
  ex_table : all_true (log w) (shim w);
  ex_calls : forall n c p, running w !! n = Some (c, p) -> holds_exactly w c p;
  ex_answers : forall c a, (c, a) ∈ answered w -> exact_answer (log w) c a }.

(** A call which an action of another one leaves its pin. *)
Lemma frame_pinned c c' pin s s' : frame c' s s' -> (marks c = true -> makes (task_of c) c' = false) -> pinned c pin s -> pinned c pin s'.
Proof.
  intros Hf Hm. destruct pin as [rid|]; [|done]. intros [Hc Hp]. split; [done|]. intros st' Hst'.
  destruct (Hf _ _ Hst') as [H|(st & Hst & ->)]; [by rewrite Hm in H|by apply Hp].
Qed.

Lemma exactly_after w s l n c p : exactly w ->
  (forall n' c' p' pin, running w !! n' = Some (c', p') -> pinned c' pin (shim w) -> pinned c' pin s) ->
  all_true (log w ++ l) s -> holds_exactly (after w s l n c p) c p -> exactly (after w s l n c p).
Proof.
  intros [_ Hc Ha] Hpin Hi Hs. assert (Hp : log w `prefix_of` (log w ++ l)%list) by (by exists l).
  split; cbn; [done|..].
  - intros n' c' p'. rewrite lookup_insert_Some. intros [[_ [= <- <-]]|[_ H]]; [done|].
    destruct (Hc _ _ _ H) as (pin & H1 & H2). exists pin. split; [by eapply Hpin|by eapply exact_longer].
  - intros c' a H. by eapply exact_answer_mono, Ha.
Qed.

Lemma exactly_on w n c p : exactly w -> holds_exactly w c p -> exactly (after w (shim w) [] n c p).
Proof.
  intros Hw (pin & H1 & H2). apply exactly_after; rewrite ?app_nil_r; [done|auto|apply Hw|]. exists pin. cbn. by rewrite app_nil_r.
Qed.

Lemma step_exactly w w' : calm_step w w' -> exactly w -> exactly w'.
Proof.
  intros [Hcalm Hstep] Hw. pose proof (ex_calls w Hw) as Hc.
  destruct Hstep as [n c rounds Hn|n c B f k Hn|n c B rpc k r Hn|n c k r Hn|n c path k r Hn|n c k Hn He|n c k Hn|n c a Hn];
    try (pose proof (Hc _ _ _ Hn) as (pin & Hpin & Hs)).
  - apply exactly_on; [done|]. exists None. split; [done|apply serve_exact].
  - destruct (Hs (log w) (shim w) ltac:(done) (ex_table w Hw) Hpin) as (Hi & Hf & pin' & Hp' & Hs').
    apply exactly_after; rewrite ?app_nil_r; [done| |done|exists pin'; cbn; by rewrite app_nil_r].
    intros n' c' p' q H. apply (frame_pinned _ c); [done|]. intros Hm. by eapply Hcalm.
  - apply exactly_after; [done|auto| |exists pin; split; [done|by apply Hs]]. eapply all_true_mono; [apply prefix_snoc|apply Hw].
  - apply exactly_on; [done|by exists pin].
  - apply exactly_on; [done|by exists pin].
  - apply exactly_on; [done|by exists pin].
  - apply exactly_on; [done|by exists pin].
  - split; cbn; [apply Hw| |].
    + intros n' c' p' [_ H]%lookup_delete_Some. by eapply Hc.
    + intros c' a'. rewrite elem_of_app, list_elem_of_singleton. intros [H|[= -> ->]]; [by apply Hw|exact Hs].
Qed.

Lemma boot_calm there : calm (boot there).
Proof. intros n c p n' c' p' H. cbn in H. by rewrite lookup_empty in H. Qed.

Lemma calm_exactly there w : calm_reachable there w -> exactly w.
Proof.
  intros Hr. assert (H0 : exactly (boot there)).
  { split; cbn [boot shim log running answered].
    - intros t st. cbn [containers]. by rewrite lookup_empty.
    - intros n c p. by rewrite lookup_empty.
    - intros c a H. by apply elem_of_nil in H. }
  revert H0. induction Hr as [|x y z Hs _ IH]; [done|]. intros Hx. by eapply IH, step_exactly.
Qed.

Lemma reachable_in_order there w : reachable there w -> in_order w.
Proof.
  intros Hr. assert (H0 : in_order (boot there)).
  { split; cbn [boot shim log running answered].
    - intros t st. cbn [containers]. by rewrite lookup_empty.
    - constructor.
    - intros n c p. by rewrite lookup_empty.
    - intros c a H. by apply elem_of_nil in H. }
  revert H0. induction Hr as [|x y z Hs _ IH]; [done|]. intros Hx. by eapply IH, step_in_order.
Qed.

(** C19. However containerd's calls interleave and whatever the daemon and the file system
    answer, the shim keeps every task to what was made for it: each request about a
    container - start, stop, delete, look-up - names a container the daemon made for that
    very task, a zone is deleted, by force, only by the task it was made for, and a task
    said to be created has its zone or container, of one said to be started a container made
    for it was started.  The container a task is said to be running in was started by the
    daemon, or another container made for the task was: a start that is overtaken by the deletion and a
    new creation of its task marks the new container, which [new_container_called_running]
    shows; likewise for stopped.  As long as no creation of a task is in flight together
    with a start of it or a wait for it, this does not happen: the very container a task is
    said to be running in was started by the daemon, the one it is said to have stopped in
    was reported as exited. *)
Theorem tasks_keep_to_their_own there w :
  (reachable there w ->
    all_justified (log w) /\
    (forall c a, (c, a) ∈ answered w -> true_answer (log w) c a) /\
    (forall t st, containers (shim w) !! t = Some st -> entry_ok (log w) t st)) /\
  (calm_reachable there w ->
    (forall c a, (c, a) ∈ answered w -> exact_answer (log w) c a) /\
    (forall t st, containers (shim w) !! t = Some st -> entry_true (log w) st)).
Proof.
  split.
  - intros Hw%reachable_in_order. split; [|split]; apply Hw.
  - intros Hw%calm_exactly. split; apply Hw.
Qed.

End Shim.

(** ** Runs *)
Module Demo.

(** The text of a bundle is its path; a sandbox's says so, a container's is its directory. *)
#[local] Instance bundles : Bundles := {|
  annotation text key :=
    if String.eqb key ANNOTATION_SANDBOX_ID then Some "sandbox"
    else if Text.contains_str "sandbox" text then Some "sandbox" else Some "container";
  process_of text := Ok (Some (mkProcess (Some ["/bin/sh"]) (Some ["A=1"; "A=2"; "B"]) text)) |}.

(** A daemon that names containers after their directory and fails to delete zones. *)
Definition daemon {B} (c : Rpc B) : result B string :=
  match c with
  | CreateContainer _ _ _ _ _ dir => Ok dir
  | GetContainer _ => Ok (Some "stopped")
  | DeleteZone _ _ => Err "unavailable"
  | CreateZone _ _ _ | ZoneStats _ | StartContainer _ | StopContainer _ _ | DeleteContainer _ _ => Ok tt
  end.

(** The next action of call [n]. *)
Definition advance (n : nat) (w : World) : World :=
  match running w !! n with
  | Some (c, Atomic f k) => after w (snd (f (shim w))) [] n c (k (fst (f (shim w))))
  | Some (c, Send rpc k) => after w (shim w) [Sent c rpc (daemon rpc)] n c (k (daemon rpc))
  | Some (c, Dial k) => after w (shim w) [] n c (k (Ok tt))
  | Some (c, Read path k) => after w (shim w) [] n c (k (Ok path))
  | Some (c, AwaitExit k) => if exit (shim w) then after w (shim w) [] n c k else w
  | Some (c, Sleep k) => after w (shim w) [] n c k
  | Some (c, Ret a) => mkWorld (shim w) (log w) (base.delete n (running w)) (answered w ++ [(c, a)])
  | _ => w
  end.
Definition begin (n : nat) (c : Call) (w : World) : World :=
  match running w !! n with None => after w (shim w) [] n c (serve 42 2 c) | Some _ => w end.

Inductive Move := Begin (n : nat) (c : Call) | Go (n k : nat).
Definition move (w : World) (m : Move) : World :=
  match m with Begin n c => begin n c w | Go n k => Nat.iter k (advance n) w end.

Definition calls (w : World) : list Call := (map_to_list (running w)).*2.*1.
Definition calm_now (w : World) : bool :=
  forallb (fun c => forallb (fun c' => negb (marks c && makes (task_of c) c')) (calls w)) (calls w).
(** The run is calm before every action of it. *)
Fixpoint calm_go (n k : nat) (w : World) : bool :=
  match k with O => true | S k => calm_go n k w && calm_now (Nat.iter k (advance n) w) end.
Fixpoint calm_moves (ms : list Move) (w : World) : bool :=
  match ms with
  | [] => true
  | m :: ms => (match m with Begin _ _ => calm_now w | Go n k => calm_go n k w end) && calm_moves ms (move w m)
  end.

Lemma call_running w n c p : running w !! n = Some (c, p) -> In c (calls w).
Proof.
  intros H. unfold calls. apply list_elem_of_In, list_elem_of_fmap. exists (c, p). split; [done|].
  apply list_elem_of_fmap. exists (n, (c, p)). split; [done|]. by apply elem_of_map_to_list.
Qed.

Lemma calm_now_calm w : calm_now w = true -> calm w.
Proof.
  intros H n c p n' c' p' H1%call_running H2%call_running Hm. unfold calm_now in H. rewrite forallb_forall in H.
  specialize (H c H1). rewrite forallb_forall in H. specialize (H c' H2). rewrite Hm in H. by destruct (makes _ c').
Qed.

(** An action or none. *)
Definition rc (w w' : World) : Prop := w' = w \/ step 42 w w'.
Lemma advance_step n w : rc w (advance n w).
Proof.
  unfold advance. destruct (running w !! n) as [[c p]|] eqn:E; [|by left].
  destruct p as [a| | |B f k|B rpc k|k|path k|k|k]; try (by left); try (right; by econstructor).
  destruct (exit (shim w)) eqn:Ee; [right; by econstructor|by left].
Qed.

Lemma begin_step n c w : rc w (begin n c w).
Proof. unfold begin. destruct (running w !! n) eqn:E; [by left|right; by apply step_call]. Qed.

Lemma rc_rtc w w' : rc w w' -> rtc (step 42) w w'.
Proof. intros [->|]; [done|by apply rtc_once]. Qed.

Lemma moves_reachable there ms : reachable 42 there (fold_left move ms (boot there)).
Proof.
  unfold reachable. generalize (boot there). induction ms as [|m ms IH]; intros w; [done|]. cbn [fold_left].
  etrans; [|apply IH]. destruct m as [n c|n k]; cbn [move]; [apply rc_rtc, begin_step|].
  induction k as [|k IHk]; [done|]. cbn [Nat.iter nat_rect]. etrans; [exact IHk|apply rc_rtc, advance_step].
Qed.

(** A calm run is one of calm steps. *)
Lemma calm_rc w w' : calm_now w = true -> rc w w' -> rtc (calm_step 42) w w'.
Proof. intros Hw%calm_now_calm [->|]; [done|by apply rtc_once]. Qed.

Lemma moves_calm there ms : calm_moves ms (boot there) = true -> calm_reachable 42 there (fold_left move ms (boot there)).
Proof.
  unfold calm_reachable. generalize (boot there). induction ms as [|m ms IH]; intros w; [done|]. cbn [fold_left calm_moves].
  intros [Hm Hr]%andb_prop. etrans; [|by apply IH]. destruct m as [n c|n k]; cbn [move]; [by apply calm_rc, begin_step|].
  clear Hr. induction k as [|k IHk]; [done|]. cbn [calm_go] in Hm. apply andb_prop in Hm as [Hg Hn].
  cbn [Nat.iter nat_rect]. etrans; [by apply IHk|by apply calm_rc, advance_step].
Qed.

(** A sandbox, a container in it, started, asked for and deleted. *)
Definition life : list Move :=
  [Begin 0 (Create "pod" "/sandbox"); Go 0 9; Begin 1 (Create "task" "/one"); Go 1 9; Begin 2 (Start "task"); Go 2 9;
   Begin 3 (State "task"); Go 3 9].
Definition told (w : World) : list (Call * Answer) := answered w.

Lemma tasks_keep_to_their_own_witness :
  told (fold_left move life (boot false)) =
    [(Create "pod" "/sandbox", Ok (RPid 42)); (Create "task" "/one", Ok (RPid 42)); (Start "task", Ok (RPid 42));
     (State "task", Ok (RState "/one/config.json" 42 RUNNING))] /\
  all_justified (log (fold_left move life (boot false))) /\
  started (log (fold_left move life (boot false))) "/one/config.json".
Proof.
  split; [vm_compute; reflexivity|].
  destruct (tasks_keep_to_their_own 42 false (fold_left move life (boot false))) as [Hr Hc].
  split; [apply Hr, moves_reachable|]. destruct Hc as [Ha _]; [apply moves_calm; vm_compute; reflexivity|].
  refine (Ha (State "task") (Ok (RState "/one/config.json" 42 RUNNING)) _). vm_compute. do 3 right. left.
Defined.

(** A start that is overtaken by a deletion and a new creation of its task marks the new
    container as running, which the daemon never started; such a run is not calm. *)
Definition overtaken : list Move :=
  [Begin 0 (Create "task" "/one"); Go 0 9; Begin 1 (Start "task"); Go 1 3; Begin 2 (Delete "task"); Go 2 9;
   Begin 3 (Create "task" "/two"); Go 3 9; Go 1 9; Begin 4 (State "task"); Go 4 9].
Example new_container_called_running :
  let w := fold_left move overtaken (boot true) in
  option_map rauha_id (containers (shim w) !! "task") = Some "/two/config.json" /\
  List.last (told w) (Shutdown, Ok REmpty) = (State "task", Ok (RState "/two/config.json" 42 RUNNING)) /\
  omap (fun e => match e with Sent _ (StartContainer rid) _ => Some rid | _ => None end) (log w) = ["/one/config.json"] /\
  calm_moves overtaken (boot true) = false.
Proof. vm_compute. auto. Qed.

(** A sandbox whose zone the daemon fails to delete is told to be deleted. *)
Example failed_zone_deletion_is_hidden :
  let w := fold_left move [Begin 0 (Create "pod" "/sandbox"); Go 0 9; Begin 1 (Delete "pod"); Go 1 9] (boot true) in
  List.last (told w) (Shutdown, Ok REmpty) = (Delete "pod", Ok (RDeleted 0)) /\ containers (shim w) = ∅ /\ exit (shim w) = true.
Proof. vm_compute. auto. Qed.

(** Two sandboxes whose ids agree in twelve characters ask for the same zone. *)
Example sandboxes_share_a_zone :
  zone_name_for_sandbox "0123456789abcdef" = zone_name_for_sandbox "0123456789ab" /\
  zone_name_for_sandbox "0123456789ab" = Some "k8s-0123456789ab".
Proof. vm_compute. auto. Qed.

End Demo.
End Cri.
