(* ===== verification/LinuxHost.v ===== *)
(** * The Linux system the daemon's backend drives

    Files, cgroup files, processes and the commands [ip], [nft] and [sysctl], as
    operations on an arbitrary environment: every theorem about the code that
    calls them holds whatever they answer.  The programs of [Cgroup], [Network]
    and [Nftables] are of type [IO], and [LinuxBackend] runs them on its own state. *)

From stdpp Require Import base gmap strings list.
From Stdlib Require Import ZArith Lia.
From S2P Require Import Prelude.
From S2P Require Import RustStr.
From S2P Require Import EnforcerApi.
From S2P Require Import Zone.
From S2P Require Import StateError.
Import Zone.

Module Host.
Open Scope string_scope.

(** [std::process::Output], its streams read with [from_utf8_lossy]. *)
Record Output := mkOutput { success : bool; stdout : string; stderr : string }.

(** Errors are their text.  [read_dir] gives the names of the entries, each of
    which can fail; [stat_mode] the kind and permission bits of a path, following
    symbolic links, and [lstat_kind] without following them. *)
Inductive FileKind := Directory | Symlink | Regular.

Class LinuxHost (E : Type) := {
  path_exists : string -> E -> bool * E;
  is_dir : string -> E -> bool * E;
  create_dir : string -> E -> result unit string * E;
  create_dir_all : string -> E -> result unit string * E;
  remove_dir : string -> E -> result unit string * E;
  remove_file : string -> E -> result unit string * E;
  write_file : string -> string -> E -> result unit string * E;
  read_to_string : string -> E -> result string string * E;
  stat_ino : string -> E -> result Z string * E;
  stat_mode : string -> E -> result (FileKind * Z) string * E;
  lstat_kind : string -> E -> result FileKind string * E;
  read_dir : string -> E -> result (list (result string string)) string * E;
  read_link : string -> E -> result string string * E;
  symlink : string -> string -> E -> result unit string * E;
  copy_file : string -> string -> E -> result unit string * E;
  (** The mode of the first path set on the second, failures ignored. *)
  copy_permissions : string -> string -> E -> unit * E;
  kill : Z -> Z -> E -> unit * E;
  sleep_ms : Z -> E -> unit * E;
  command : string -> list string -> E -> result Output string * E;
  (** A child with a piped standard input: start it, write its input, end it by
      closing the input, or kill it. *)
  spawn_piped : string -> list string -> E -> result unit string * E;
  write_stdin : string -> E -> result unit string * E;
  wait_with_output : E -> result Output string * E;
  kill_and_wait : E -> unit * E }.

Section IO.
Context {E : Type} {H : LinuxHost E}.

Definition IO (A : Type) : Type := M E RauhaError A.

Definition os {A} (f : E -> A * E) : IO A := fun e => let '(a, e') := f e in (Ok a, e').
Definition os_try {A X} (f : E -> result A X * E) (err : X -> RauhaError) : IO A := fun e =>
  let '(r, e') := f e in (map_err err r, e').

Lemma wp_os {A} (f : E -> A * E) Q e : (forall a e', f e = (a, e') -> Q (Ok a) e') -> wp (os f) Q e.
Proof. unfold wp, os. destruct (f e) as [a e'] eqn:Hf. intros HQ. by apply HQ. Qed.

Lemma wp_os_try {A X} (f : E -> result A X * E) err Q e :
  (forall a e', f e = (Ok a, e') -> Q (Ok a) e') ->
  (forall x e', f e = (Err x, e') -> Q (Err (err x)) e') ->
  wp (os_try f err) Q e.
Proof. unfold wp, os_try. destruct (f e) as [[a|x] e'] eqn:Hf; intros HO HE; [by apply HO|by apply HE]. Qed.

End IO.
End Host.
