(* ===== verification/Cgroup.v ===== *)
(** * Zone cgroups

    [rauhad/src/backend/linux/cgroup.rs]: creating, filling, reading, draining and
    removing the cgroup of a zone, over any cgroup file system ([LinuxHost]). *)

From stdpp Require Import base gmap strings list.
From Stdlib Require Import ZArith Ascii Lia.
From S2P Require Import Prelude.
From S2P Require Import RustStr.
From S2P Require Import RustText.
From S2P Require Import EnforcerApi.
From S2P Require Import Zone.
From S2P Require Import StateError.
From S2P Require Import Backend.
From S2P Require Import Shim.
From S2P Require Import LinuxHost.
Import Zone Backend Host.

Module Cgroup.
Open Scope string_scope.

Section Cgroup.
Context {E : Type} {H : LinuxHost E}.
(** [{}] of an [f64] number of seconds given in microseconds. *)
Context (seconds_of_usec : Z -> string).

Notation IO := (M E RauhaError).
Notation join_path := Shim.join_path.

Definition CGROUP_ROOT : string := "/sys/fs/cgroup".
Definition slice_path : string := join_path CGROUP_ROOT "rauha.slice".
Definition zone_path (zone_name : string) : string := join_path slice_path ("zone-" ++ zone_name).

Definition new : IO unit :=
  do v2 <- os (path_exists (join_path CGROUP_ROOT "cgroup.controllers"));
  if negb v2
  then fail (CgroupError "cgroup v2 not available"
         "mount cgroup2 at /sys/fs/cgroup or boot with systemd.unified_cgroup_hierarchy=1")
  else
    do there <- os (path_exists slice_path);
    do _ <- (if negb there
             then os_try (create_dir_all slice_path)
                    (fun e => CgroupError ("failed to create " ++ slice_path ++ ": " ++ e) "run rauhad as root")
             else ret tt);
    do _ <- os (write_file (join_path slice_path "cgroup.subtree_control") "+cpu +memory +pids +io");
    ret tt.

Definition cgroup_id (path : string) : IO Z :=
  os_try (stat_ino path) (fun e => CgroupError ("failed to stat " ++ path ++ ": " ++ e)
                                     "check cgroup filesystem is mounted").

Definition create_zone_cgroup (zone_name : string) : IO Z :=
  let path := zone_path zone_name in
  do there <- os (path_exists path);
  if there : bool
  then fail (CgroupError ("cgroup already exists: " ++ path) ("run: rmdir " ++ path))
  else
    do _ <- os_try (create_dir path)
              (fun e => CgroupError ("failed to create cgroup " ++ path ++ ": " ++ e) "run rauhad as root");
    cgroup_id path.

Definition destroy_zone_cgroup (zone_name : string) : IO unit :=
  let path := zone_path zone_name in
  do there <- os (path_exists path);
  if negb there then ret tt
  else
    do _ <- os_try (remove_dir path)
              (fun e => CgroupError ("failed to remove cgroup " ++ path ++ ": " ++ e)
                 "ensure no processes remain in the zone (check cgroup.procs)");
    ret tt.

(** Docker-style shares to a cgroup v2 weight; the product wraps in release
    builds. *)
Definition shares_to_weight (shares : Z) : Z :=
  if (shares =? 0)%Z then 100
  else
    let weight := (wrap 64 (shares * 100) / 1024)%Z in
    clamp 1 10000 weight.

Definition write_cgroup_file (cgroup_path filename value : string) : IO unit :=
  let file_path := join_path cgroup_path filename in
  os_try (write_file file_path value)
    (fun e => CgroupError ("failed to write " ++ value ++ " to " ++ file_path ++ ": " ++ e)
       ("check that " ++ default "unknown" (head (Str.split "."%char filename))
        ++ " controller is enabled in the parent cgroup")).

(** A limit of 0 or [u64::MAX] is written as [max]. *)
Definition limit_text (n : Z) : string :=
  if (n =? 0)%Z || (n =? 2 ^ 64 - 1)%Z then "max" else Str.show n.

Definition apply_resources (zone_name : string) (resources : ResourcePolicy) : IO unit :=
  let path := zone_path zone_name in
  do there <- os (path_exists path);
  if negb there
  then fail (CgroupError ("cgroup does not exist: " ++ path) "create the zone first")
  else
    do _ <- write_cgroup_file path "cpu.weight" (Str.show (shares_to_weight (cpu_shares resources)));
    do _ <- write_cgroup_file path "memory.max" (limit_text (memory_limit resources));
    do _ <- write_cgroup_file path "pids.max" (limit_text (pids_max resources));
    write_cgroup_file path "io.weight" ("default " ++ Str.show (clamp 1 10000 (io_weight resources))).

Definition read_cgroup_u64 (cgroup_path filename : string) : IO (option Z) :=
  do content <- os (read_to_string (join_path cgroup_path filename));
  ret (match content with
       | Err _ => None
       | Ok content =>
           let trimmed := Str.trim content in
           if String.eqb trimmed "max" then Some (2 ^ 64 - 1)%Z
           else match Str.parse_uint 64 trimmed with Ok n => Some n | Err _ => None end
       end).

Definition usage_line (content : string) : option string :=
  head (omap (Str.strip_prefix "usage_usec ") (Text.lines content)).

Definition read_cpu_usage (cgroup_path : string) : IO (option string) :=
  do content <- os (read_to_string (join_path cgroup_path "cpu.stat"));
  ret (match content with
       | Err _ => None
       | Ok content =>
           match usage_line content with
           | None => Some (seconds_of_usec 0)
           | Some value =>
               match Str.parse_uint 64 (Str.trim value) with
               | Ok usec => Some (seconds_of_usec usec)
               | Err _ => None
               end
           end
       end).

Definition read_stats (zone_name zone_id : string) : IO ZoneStats :=
  let path := zone_path zone_name in
  do there <- os (path_exists path);
  if negb there
  then fail (CgroupError ("cgroup does not exist: " ++ path) "create the zone first")
  else
    do memory_current <- read_cgroup_u64 path "memory.current";
    do memory_limit <- read_cgroup_u64 path "memory.max";
    do pids_current <- read_cgroup_u64 path "pids.current";
    do cpu_usage <- read_cpu_usage path;
    ret (mkStats zone_id 0 (default (seconds_of_usec 0) cpu_usage) (default 0%Z memory_current)
           (default 0%Z memory_limit) 0 0 (default 0%Z pids_current)).

Definition cgroup_id_for_zone (zone_name : string) : IO Z := cgroup_id (zone_path zone_name).
Definition zone_cgroup_exists (zone_name : string) : IO bool := os (path_exists (zone_path zone_name)).

Definition procs_path (zone_name : string) : string := join_path (zone_path zone_name) "cgroup.procs".

Definition zone_has_processes (zone_name : string) : IO bool :=
  do processes <- os_try (read_to_string (procs_path zone_name))
    (fun e => CgroupError ("failed to read " ++ procs_path zone_name ++ ": " ++ e)
       "retain kernel membership until cgroup state is readable");
  ret (negb (String.eqb (Str.trim processes) "")).

(** [pid.parse::<i32>()]: an optional sign, then digits that fit. *)
Definition parse_i32 (s : string) : option Z :=
  match s with
  | String "-" rest =>
      match Str.parse_digits 64 rest 0 with
      | Ok n => if String.eqb rest "" then None else if (n <=? 2 ^ 31)%Z then Some (- n)%Z else None
      | Err _ => None
      end
  | _ => match Str.parse_uint 31 s with Ok n => Some n | Err _ => None end
  end.

Definition SIGKILL : Z := 9.

(** One round of a kernel without [cgroup.kill]. *)
Definition kill_all (zone_name : string) : IO unit :=
  do procs <- os_try (read_to_string (procs_path zone_name))
    (fun e => CgroupError ("failed to read " ++ procs_path zone_name ++ ": " ++ e)
       "retain zone enforcement and retry teardown");
  for_each (fun pid => os (kill pid SIGKILL)) (omap parse_i32 (Text.lines procs)).

Fixpoint drain_rounds (rounds : nat) (native_kill : bool) (zone_name : string) : IO unit :=
  match rounds with
  | O => fail (CgroupError ("zone " ++ zone_name ++ " cgroup still contains live processes")
                "enforcement was retained; inspect cgroup.procs and retry teardown")
  | S rounds' =>
      do live <- zone_has_processes zone_name;
      if negb live then ret tt
      else
        do _ <- (if negb native_kill then kill_all zone_name else ret tt);
        do _ <- os (sleep_ms 10);
        drain_rounds rounds' native_kill zone_name
  end.

Definition drain_zone (zone_name : string) : IO unit :=
  let path := zone_path zone_name in
  do there <- os (path_exists path);
  do live <- (if there : bool then zone_has_processes zone_name else ret false);
  if negb live then ret tt
  else
    let kill_path := join_path path "cgroup.kill" in
    do native_kill <- os (path_exists kill_path);
    do _ <- (if native_kill : bool
             then os_try (write_file kill_path "1")
                    (fun e => CgroupError ("failed to kill processes through " ++ kill_path ++ ": " ++ e)
                       "retain zone enforcement and retry teardown")
             else ret tt);
    drain_rounds 100 native_kill zone_name.

(** ** Properties *)

Lemma shares_to_weight_range shares : (1 <= shares_to_weight shares <= 10000)%Z.
Proof.
  unfold shares_to_weight. destruct (shares =? 0)%Z; [lia|].
  apply (clamp_range 1 10000). lia.
Qed.

(** What draining has observed when it reports success: the cgroup is gone or
    holds no process. *)
Definition observed_empty (zone_name : string) (e' : E) : Prop :=
  exists e, path_exists (zone_path zone_name) e = (false, e') \/
    exists text, read_to_string (procs_path zone_name) e = (Ok text, e') /\ Str.trim text = "".

Lemma zone_has_processes_false zone_name e :
  wp (zone_has_processes zone_name) (fun r e' => r = Ok false -> observed_empty zone_name e') e.
Proof.
  unfold zone_has_processes. wp_step. apply wp_os_try; [|done].
  intros text e' Hr. wp_step. intros Hf. exists e. right. exists text. split; [done|].
  destruct (String.eqb_spec (Str.trim text) ""); [done|discriminate].
Qed.

Lemma drain_rounds_empty rounds native zone_name e :
  wp (drain_rounds rounds native zone_name) (fun r e' => r = Ok tt -> observed_empty zone_name e') e.
Proof.
  revert e. induction rounds as [|n IH]; intros e; [done|]. cbn [drain_rounds].
  wp_step. eapply wp_mono; [apply zone_has_processes_false|]. intros [live|x] e1 H1; [|done].
  destruct live; cbn [negb]; [|wp_step; auto]. wp_step.
  apply (wp_mono _ (fun _ _ => True)); [done|]. intros [[]|x] e2 _; [|done].
  wp_step. apply wp_os. intros [] e3 _. apply IH.
Qed.

Lemma drain_zone_empty zone_name e :
  wp (drain_zone zone_name) (fun r e' => r = Ok tt -> observed_empty zone_name e') e.
Proof.
  unfold drain_zone. cbv zeta. wp_step. apply wp_os. intros there e1 H1. wp_step.
  apply (wp_mono _ (fun r e' => r = Ok false -> observed_empty zone_name e')).
  { destruct there; [apply zone_has_processes_false|]. wp_step. intros _. exists e. by left. }
  intros [live|x] e2 H2; [|done]. destruct live; cbn [negb]; [|wp_step; auto].
  wp_step. apply wp_os. intros native e3 _. wp_step.
  apply (wp_mono _ (fun _ _ => True)); [done|]. intros [[]|x] e4 _; [|done].
  apply drain_rounds_empty.
Qed.

End Cgroup.

(** A limit written to a cgroup file is read back as itself, and 0 as no
    limit, for every 64-bit value; the weight written is always one the kernel
    accepts. *)
Theorem limits_read_back n shares :
  in_width 64 n ->
  (let text := limit_text n in
   (if String.eqb (Str.trim text) "max" then Ok (2 ^ 64 - 1)%Z else Str.parse_uint 64 (Str.trim text))
   = Ok (if (n =? 0)%Z then (2 ^ 64 - 1)%Z else n)) /\
  Str.parse_uint 64 (Str.show (shares_to_weight shares)) = Ok (shares_to_weight shares) /\
  (1 <= shares_to_weight shares <= 10000)%Z.
Proof.
  intros Hn. pose proof (shares_to_weight_range shares) as Hw. unfold in_width in Hn. split; [|split; [|done]].
  - unfold limit_text. destruct (n =? 0)%Z eqn:H0; [done|].
    destruct (n =? 2 ^ 64 - 1)%Z eqn:H1; [cbn; by apply Z.eqb_eq in H1 as ->|].
    cbn [orb]. rewrite Str.trim_alnum by apply Str.all_alnum_show.
    rewrite (Str.parse_uint_show 64 n) by lia.
    destruct (String.eqb_spec (Str.show n) "max") as [Hm|]; [|done].
    exfalso. pose proof (Str.parse_uint_show 64 n ltac:(lia) ltac:(lia)) as Hp. rewrite Hm in Hp. discriminate Hp.
  - apply Str.parse_uint_show; lia.
Qed.

Lemma limits_read_back_witness :
  in_width 64 536870912 /\
  Str.parse_uint 64 (Str.show (shares_to_weight 1024)) = Ok (shares_to_weight 1024).
Proof.
  assert (in_width 64 536870912) as Hn by (split; vm_compute; congruence).
  split; [exact Hn|]. exact (proj1 (proj2 (limits_read_back 536870912 1024 Hn))).
Defined.

End Cgroup.
