(* ===== verification/Network.v ===== *)
(** * Network namespaces, veth pairs and the bridge

    [rauhad/src/backend/linux/namespace.rs] and [network.rs]: the [ip] commands a
    zone's network is built and torn down with, over any system ([LinuxHost]).
    The SHA-256 of the sha2 crate is a parameter. *)

From stdpp Require Import base gmap strings list.
From Stdlib Require Import ZArith Ascii Lia.
From S2P Require Import Prelude.
From S2P Require Import RustStr.
From S2P Require Import RustText.
From S2P Require Import EnforcerApi.
From S2P Require Import Zone.
From S2P Require Import StateError.
From S2P Require Import Backend.
From S2P Require Import Shim.
From S2P Require Import LinuxHost.
Import Zone Backend Host.

Module Network.
Open Scope string_scope.

Section Network.
Context {E : Type} {H : LinuxHost E}.
Context (sha256 : string -> list Z).

Notation IO := (M E RauhaError).
Notation join_path := Shim.join_path.

(** ** Namespaces *)

Definition netns_name (zone_name : string) : string := "rauha-" ++ zone_name.
Definition netns_path (zone_name netns_dir : string) : string := join_path netns_dir (netns_name zone_name).
Definition netns_exists (zone_name netns_dir : string) : IO bool :=
  os (path_exists (netns_path zone_name netns_dir)).

Definition create_netns (zone_name netns_dir : string) : IO unit :=
  let ns_name := netns_name zone_name in
  do _ <- os_try (create_dir_all netns_dir)
            (fun e => NamespaceError ("failed to create " ++ netns_dir ++ ": " ++ e) "run rauhad as root");
  do output <- os_try (command "ip" ["netns"; "add"; ns_name])
                 (fun e => NamespaceError ("failed to run `ip netns add " ++ ns_name ++ "`: " ++ e)
                             "ensure iproute2 is installed");
  if negb (success output) && negb (Text.contains_str "File exists" (stderr output))
  then fail (NamespaceError ("ip netns add " ++ ns_name ++ " failed: " ++ stderr output) "run rauhad as root")
  else ret tt.

Definition destroy_netns (zone_name netns_dir : string) : IO unit :=
  let ns_name := netns_name zone_name in
  do there <- netns_exists zone_name netns_dir;
  if negb there then ret tt
  else
    do output <- os_try (command "ip" ["netns"; "delete"; ns_name])
                   (fun e => NamespaceError ("failed to run `ip netns delete " ++ ns_name ++ "`: " ++ e)
                               "ensure iproute2 is installed");
    if negb (success output) && negb (Text.contains_str "No such file" (stderr output))
    then fail (NamespaceError ("ip netns delete " ++ ns_name ++ " failed: " ++ stderr output)
                 "check if processes are still running in the namespace")
    else ret tt.

(** ** Running [ip] *)

Definition run_ip (args : list string) : IO unit :=
  do output <- os_try (command "ip" args)
                 (fun e => NetworkError ("failed to run `ip " ++ Str.join " " args ++ "`: " ++ e)
                             "ensure iproute2 is installed and rauhad runs as root");
  if negb (success output)
  then fail (NetworkError ("ip " ++ Str.join " " args ++ " failed: " ++ stderr output) "run rauhad as root")
  else ret tt.

Definition run_ip_netns (ns_name : string) (args : list string) : IO unit :=
  do output <- os_try (command "ip" (["netns"; "exec"; ns_name; "ip"] ++ args)%list)
                 (fun e => NetworkError ("failed to run `ip netns exec " ++ ns_name ++ " ip " ++ Str.join " " args
                                          ++ "`: " ++ e) "ensure iproute2 is installed");
  if negb (success output)
  then fail (NetworkError ("ip netns exec " ++ ns_name ++ " ip " ++ Str.join " " args ++ " failed: "
                             ++ stderr output) "check namespace exists")
  else ret tt.

Definition interface_exists (name : string) : IO bool :=
  do r <- os (command "ip" ["link"; "show"; name]);
  ret (match r with Ok output => success output | Err _ => false end).

(** ** Interface names *)

Definition veth_name (prefix zone_name : string) : string :=
  match sha256 zone_name with
  | a :: b :: c :: d :: e :: _ =>
      prefix ++ Text.show_hex2 a ++ Text.show_hex2 b ++ Text.show_hex2 c ++ Text.show_hex2 d ++ Text.show_hex2 e
  | _ => prefix
  end.
Definition veth_host_name (zone_name : string) : string := veth_name "veth" zone_name.
Definition veth_peer_name (zone_name : string) : string := veth_name "peer" zone_name.

(** [s.get(..s.len().min(10)).unwrap_or_default()]: nothing when byte 10 is
    inside a character. *)
Definition legacy_veth_host_name (zone_name : string) : string :=
  "veth-" ++ (if Nat.leb (String.length zone_name) 10 then zone_name
              else match String.get 10 zone_name with
                   | Some c => if ((0x80 <=? Str.code c) && (Str.code c <? 0xC0))%Z then ""
                               else String.substring 0 10 zone_name
                   | None => ""
                   end).

Definition resolve_veth_host_name (zone_name : string) (exists_ : string -> IO bool) : IO string :=
  let current := veth_host_name zone_name in
  do there <- exists_ current;
  if there : bool then ret current
  else
    let legacy := legacy_veth_host_name zone_name in
    do there <- exists_ legacy;
    ret (if there : bool then legacy else current).

Definition veth_host_name_for (zone_name : string) : IO string :=
  resolve_veth_host_name zone_name interface_exists.

Definition veth_exists (zone_name : string) : IO bool :=
  do current <- interface_exists (veth_host_name zone_name);
  if current : bool then ret true else interface_exists (legacy_veth_host_name zone_name).

(** ** Links *)

Definition cidr (s : ZoneNetworkState) : string :=
  Text.show_ipv4 (Backend.ip s) ++ "/" ++ Str.show (net_prefix_len s).

Definition configure_veth (zone_name : string) (net_state : option ZoneNetworkState) (bridge : string) : IO unit :=
  let host_if := veth_host_name zone_name in
  let zone_peer_if := veth_peer_name zone_name in
  let ns_name := "rauha-" ++ zone_name in
  do _ <- run_ip ["link"; "set"; zone_peer_if; "netns"; ns_name];
  do _ <- run_ip_netns ns_name ["link"; "set"; zone_peer_if; "name"; "eth0"];
  do _ <- run_ip ["link"; "set"; host_if; "master"; bridge];
  do _ <- run_ip ["link"; "set"; host_if; "up"];
  do _ <- run_ip_netns ns_name ["link"; "set"; "eth0"; "up"];
  do _ <- run_ip_netns ns_name ["link"; "set"; "lo"; "up"];
  match net_state with
  | Some state =>
      do _ <- run_ip_netns ns_name ["addr"; "add"; cidr state; "dev"; "eth0"];
      run_ip_netns ns_name ["route"; "add"; "default"; "via"; Text.show_ipv4 (Backend.gateway state)]
  | None => ret tt
  end.

Definition create_veth_pair (zone_name : string) (net_state : option ZoneNetworkState) (bridge : string)
  : IO unit :=
  let host_if := veth_host_name zone_name in
  do _ <- run_ip ["link"; "add"; host_if; "type"; "veth"; "peer"; "name"; veth_peer_name zone_name];
  do configured <- attempt (configure_veth zone_name net_state bridge);
  match configured with
  | Ok _ => ret tt
  | Err error => do _ <- attempt (run_ip ["link"; "delete"; host_if]); fail error
  end.

Definition destroy_veth_pair (zone_name : string) : IO unit :=
  do host_if <- veth_host_name_for zone_name;
  do output <- os_try (command "ip" ["link"; "show"; host_if])
                 (fun e => NetworkError ("failed to check veth: " ++ e) "ensure iproute2 is installed");
  if negb (success output) then ret tt
  else run_ip ["link"; "delete"; host_if].

(** ** The bridge *)

Definition bridge_has_addr (cidr bridge : string) : IO bool :=
  do output <- os_try (command "ip" ["addr"; "show"; "dev"; bridge])
                 (fun e => NetworkError ("failed to check bridge addresses: " ++ e) "ensure iproute2 is installed");
  ret (Text.contains_str cidr (stdout output)).

Definition enable_ip_forwarding : IO unit :=
  do output <- os_try (command "sysctl" ["-w"; "net.ipv4.ip_forward=1"])
                 (fun e => NetworkError ("failed to enable IP forwarding: " ++ e) "ensure rauhad runs as root");
  if negb (success output)
  then fail (NetworkError ("sysctl ip_forward failed: " ++ stderr output) "run rauhad as root")
  else ret tt.

Definition ensure_bridge (gateway : list Z) (prefix_len : Z) (bridge : string) : IO unit :=
  do output <- os_try (command "ip" ["link"; "show"; bridge])
                 (fun e => NetworkError ("failed to check bridge: " ++ e) "ensure iproute2 is installed");
  do _ <- (if negb (success output) then
             do _ <- run_ip ["link"; "add"; "name"; bridge; "type"; "bridge"];
             run_ip ["link"; "set"; bridge; "up"]
           else ret tt);
  let cidr := Text.show_ipv4 gateway ++ "/" ++ Str.show prefix_len in
  do has <- bridge_has_addr cidr bridge;
  do _ <- (if negb has then run_ip ["addr"; "add"; cidr; "dev"; bridge] else ret tt);
  enable_ip_forwarding.

Definition destroy_bridge (bridge : string) : IO unit :=
  do output <- os_try (command "ip" ["link"; "show"; bridge])
                 (fun e => NetworkError ("failed to check bridge: " ++ e) "ensure iproute2 is installed");
  if negb (success output) then ret tt
  else
    do _ <- run_ip ["link"; "set"; bridge; "down"];
    run_ip ["link"; "delete"; bridge; "type"; "bridge"].

(** ** Properties *)

(** Interface names fit the kernel's 15 characters, and the two ends of a pair
    never collide. *)
Lemma veth_names_fit zone_name :
  (String.length (veth_host_name zone_name) <= 14)%nat /\
  (String.length (veth_peer_name zone_name) <= 14)%nat /\
  veth_host_name zone_name <> veth_peer_name zone_name.
Proof.
  unfold veth_host_name, veth_peer_name, veth_name, Text.show_hex2.
  destruct (sha256 zone_name) as [|a [|b [|c [|d [|e l]]]]]; (split_and!; [apply Nat.leb_le; reflexivity..|discriminate]).
Qed.

End Network.
End Network.
