(* ===== verification/Nftables.v ===== *)
(** * Network filtering rules

    [rauhad/src/backend/linux/nftables.rs]: the base ruleset, a zone's chains and the
    jumps to them, their removal, and the check that they are installed as
    generated, over any system ([LinuxHost]). *)

From stdpp Require Import base gmap strings list.
From Stdlib Require Import ZArith Ascii Lia.
From S2P Require Import Prelude.
From S2P Require Import RustStr.
From S2P Require Import RustText.
From S2P Require Import EnforcerApi.
From S2P Require Import Zone.
From S2P Require Import StateError.
From S2P Require Import LinuxHost.
From S2P Require Import Kernel.
From S2P Require Import BpfMaps.
From S2P Require Import LinuxEnforcer.
From S2P Require Import Network.
Import Zone Host.

Module Nftables.
Open Scope string_scope.

Notation nl := Text.nl.
Definition quote (s : string) : string := String "034" (s ++ String "034" "").

Definition TABLE_NAME : string := "rauha".
Definition TABLE_FAMILY : string := "inet".
Definition BRIDGE_FAMILY : string := "bridge".

Definition zone_chain_name (zone_name : string) : string := "zone-" ++ zone_name.
Definition zone_input_chain_name (zone_name : string) : string := "input-" ++ zone_name.
Definition zone_output_chain_name (zone_name : string) : string := "output-" ++ zone_name.

(** ** Rule texts *)

(** [NetworkEndpoint::network]. *)
Definition network (e : NetworkEndpoint) : string :=
  (match address e with V4 o => Text.show_ipv4 o | V6 g => Text.show_ipv6 g end)
  ++ "/" ++ Str.show (prefix_len e).

Definition endpoint_rule (address_match : string) (e : NetworkEndpoint) : string :=
  nft_family e ++ " " ++ address_match ++ " " ++ network e
  ++ (match port e with Some p => " tcp dport " ++ Str.show p | None => "" end) ++ " accept".

(** The target without a legacy [:0] port. *)
Definition legacy_target (target : string) : string :=
  match Str.strip_suffix ":0" target with
  | Some network => if is_ok (parse_endpoint network) then network else target
  | None => target
  end.

Section Nftables.
(** [{:?}] of a string. *)
Context (debug : string -> string).
Context {E : Type} {H : LinuxHost E} {K : BpfHost} (sha256 : string -> list Z).
Notation IO := (M E RauhaError).

Fixpoint endpoint_rules (address_match : string) (targets : list string) : result (list string) RauhaError :=
  match targets with
  | [] => Ok []
  | target :: rest =>
      let target := legacy_target target in
      let? endpoint := map_err (fun error => InvalidPolicy ("invalid network target " ++ debug target ++ ": " ++ error))
                         (parse_endpoint target) in
      let? rules := endpoint_rules address_match rest in
      Ok (endpoint_rule address_match endpoint :: rules)
  end.

Definition is_bridged (policy : NetworkPolicy) : bool := bool_decide (mode policy = Bridged).

Definition base_rules : list string :=
  ["ether type arp accept"; "meta l4proto ipv6-icmp accept"; "ct state established,related accept"].

Definition bridge_input_chain_rules (policy : NetworkPolicy) : result (list string) RauhaError :=
  if negb (is_bridged policy) then Ok ["drop"]
  else
    let? rules := endpoint_rules "daddr" (allowed_egress policy) in
    Ok (base_rules ++ rules ++ ["drop"])%list.

Definition bridge_output_chain_rules (policy : NetworkPolicy) : result (list string) RauhaError :=
  if negb (is_bridged policy) then Ok ["drop"]
  else
    let? rules := endpoint_rules "saddr" (allowed_ingress policy) in
    Ok (base_rules ++ rules ++ ["drop"])%list.

Definition peer_rules (veth_name peer : string) : list string :=
  ["iifname " ++ quote veth_name ++ " oifname " ++ quote peer ++ " accept";
   "iifname " ++ quote peer ++ " oifname " ++ quote veth_name ++ " accept"].

Fixpoint peers_rules (veth_name : string) (zones : list string) : IO (list string) :=
  match zones with
  | [] => ret []
  | zone :: rest =>
      do peer <- Network.veth_host_name_for sha256 zone;
      do rules <- peers_rules veth_name rest;
      ret (peer_rules veth_name peer ++ rules)%list
  end.

Definition bridge_zone_chain_rules (veth_name : string) (policy : NetworkPolicy) : IO (list string) :=
  if negb (is_bridged policy) then ret ["return"]
  else
    do rules <- peers_rules veth_name (allowed_zones policy);
    ret (rules ++ ["return"])%list.

(** ** Scripts *)

Definition inet_ruleset (subnet_cidr bridge : string) (replace : bool) : string :=
  (if replace then "delete table inet rauha" ++ nl else "") ++ "add table inet rauha" ++ nl
  ++ "add chain inet rauha postrouting { type nat hook postrouting priority srcnat; }" ++ nl
  ++ "add rule inet rauha postrouting ip saddr " ++ subnet_cidr ++ " oifname != " ++ quote bridge
  ++ " masquerade" ++ nl
  ++ "add chain inet rauha forward { type filter hook forward priority filter; policy drop; }" ++ nl
  ++ "add rule inet rauha forward ct state established,related accept" ++ nl
  ++ "add rule inet rauha forward iifname " ++ quote bridge ++ " accept" ++ nl
  ++ "add rule inet rauha forward oifname " ++ quote bridge ++ " accept" ++ nl
  ++ "add chain inet rauha input { type filter hook input priority filter; policy accept; }" ++ nl
  ++ "add rule inet rauha input ct state established,related accept" ++ nl
  ++ "add rule inet rauha input iifname " ++ quote bridge ++ " drop" ++ nl.

Definition bridge_ruleset (replace : bool) : string :=
  (if replace then "delete table bridge rauha" ++ nl else "") ++ "add table bridge rauha" ++ nl
  ++ "add chain bridge rauha forward { type filter hook forward priority filter; policy drop; }" ++ nl
  ++ "add chain bridge rauha input { type filter hook input priority filter; policy drop; }" ++ nl
  ++ "add chain bridge rauha output { type filter hook output priority filter; policy drop; }" ++ nl.

Definition rule_lines (chain : string) (rules : list string) : string :=
  foldr (fun rule acc => "add rule bridge rauha " ++ chain ++ " " ++ rule ++ nl ++ acc) "" rules.

Definition zone_script (zone_name veth_name : string) (rules input_rules output_rules : list string) : string :=
  let chain_name := zone_chain_name zone_name in
  let input_chain_name := zone_input_chain_name zone_name in
  let output_chain_name := zone_output_chain_name zone_name in
  "add chain bridge rauha " ++ chain_name ++ nl
  ++ "add chain bridge rauha " ++ input_chain_name ++ nl
  ++ "add chain bridge rauha " ++ output_chain_name ++ nl
  ++ rule_lines chain_name rules ++ rule_lines input_chain_name input_rules
  ++ rule_lines output_chain_name output_rules
  ++ "add rule bridge rauha forward iifname " ++ quote veth_name ++ " jump " ++ chain_name ++ nl
  ++ "add rule bridge rauha forward oifname " ++ quote veth_name ++ " jump " ++ chain_name ++ nl
  ++ "add rule bridge rauha input iifname " ++ quote veth_name ++ " jump " ++ input_chain_name ++ nl
  ++ "add rule bridge rauha output oifname " ++ quote veth_name ++ " jump " ++ output_chain_name ++ nl.

(** ** Running [nft] *)

Definition table_exists (family : string) : IO bool :=
  do output <- os_try (command "nft" ["list"; "table"; family; TABLE_NAME])
                 (fun e => NetworkError ("failed to check nftables table: " ++ e)
                             "ensure nftables is installed (nft command)");
  ret (success output).

Definition run_nft (args : list string) : IO unit :=
  do output <- os_try (command "nft" args)
                 (fun e => NetworkError ("failed to run `nft " ++ Str.join " " args ++ "`: " ++ e)
                             "ensure nftables is installed and rauhad runs as root");
  if negb (success output)
  then fail (NetworkError ("nft " ++ Str.join " " args ++ " failed: " ++ stderr output) "run rauhad as root")
  else ret tt.

Definition run_nft_script (script : string) : IO unit :=
  do _ <- os_try (spawn_piped "nft" ["-f"; "-"])
            (fun e => NetworkError ("failed to start nftables transaction: " ++ e)
                        "ensure nftables is installed and rauhad runs as root");
  do written <- os (write_stdin script);
  match written with
  | Err e =>
      do _ <- os kill_and_wait;
      fail (NetworkError ("failed to write nftables transaction: " ++ e) "restart rauhad")
  | Ok _ =>
      do output <- os_try wait_with_output
                     (fun e => NetworkError ("failed to wait for nftables transaction: " ++ e) "restart rauhad");
      if negb (success output)
      then fail (NetworkError ("nftables transaction failed: " ++ stderr output)
                   "check nftables support and run rauhad as root")
      else ret tt
  end.

Definition ensure_nat (subnet_cidr bridge : string) : IO unit :=
  do replace <- table_exists TABLE_FAMILY;
  do applied <- attempt (run_nft_script (inet_ruleset subnet_cidr bridge replace));
  match applied with
  | Err error =>
      fail (BackendError ("cannot create the inet nftables table (NAT + forward filtering): "
              ++ Linux.display error
              ++ " — the kernel needs nf_tables and nf_nat; this is a hard requirement"))
  | Ok _ =>
      do bridge_exists <- attempt (table_exists BRIDGE_FAMILY);
      do _ <- attempt (run_nft_script (bridge_ruleset (match bridge_exists with Ok b => b | Err _ => false end)));
      ret tt
  end.

Definition cleanup_nat : IO unit :=
  do inet <- table_exists TABLE_FAMILY;
  do _ <- (if inet : bool then run_nft ["delete"; "table"; TABLE_FAMILY; TABLE_NAME] else ret tt);
  do bridge <- table_exists BRIDGE_FAMILY;
  if bridge : bool then run_nft ["delete"; "table"; BRIDGE_FAMILY; TABLE_NAME] else ret tt.

(** The handle of a listed rule that mentions [jump] and the chain. *)
Definition jump_handle (chain_name line : string) : option string :=
  if Text.contains_str "jump" line && Text.contains_str chain_name line then
    match Text.split_str_once "# handle " line with
    | Some (_, after) => let handle := Str.trim after in
                         if String.eqb handle "" then None else Some handle
    | None => None
    end
  else None.

Definition remove_chain_jumps (family base_chain chain_name : string) : IO unit :=
  do output <- os_try (command "nft" ["-a"; "list"; "chain"; family; TABLE_NAME; base_chain])
                 (fun e => NetworkError ("failed to list nftables " ++ family ++ " " ++ base_chain ++ " chain: " ++ e)
                             "ensure nftables is installed (nft command)");
  if negb (success output) then ret tt
  else
    for_each (fun handle =>
        do _ <- attempt (run_nft ["delete"; "rule"; family; TABLE_NAME; base_chain; "handle"; handle]);
        ret tt)
      (omap (jump_handle chain_name) (Text.lines (stdout output))).

Definition drop_chain (chain : string) : IO unit :=
  do _ <- attempt (run_nft ["flush"; "chain"; BRIDGE_FAMILY; TABLE_NAME; chain]);
  do _ <- attempt (run_nft ["delete"; "chain"; BRIDGE_FAMILY; TABLE_NAME; chain]);
  ret tt.

Definition remove_zone_rules (zone_name : string) : IO unit :=
  let chain_name := zone_chain_name zone_name in
  let input_chain_name := zone_input_chain_name zone_name in
  let output_chain_name := zone_output_chain_name zone_name in
  do _ <- attempt (remove_chain_jumps BRIDGE_FAMILY "forward" chain_name);
  do _ <- attempt (remove_chain_jumps BRIDGE_FAMILY "input" input_chain_name);
  do _ <- attempt (remove_chain_jumps BRIDGE_FAMILY "output" output_chain_name);
  for_each drop_chain [chain_name; input_chain_name; output_chain_name].

Definition apply_zone_rules (zone_name veth_name : string) (policy : NetworkPolicy) : IO unit :=
  do bridge_rules <- bridge_zone_chain_rules veth_name policy;
  do bridge_input_rules <- of_result (bridge_input_chain_rules policy);
  do bridge_output_rules <- of_result (bridge_output_chain_rules policy);
  do _ <- attempt (remove_zone_rules zone_name);
  if bool_decide (mode policy = Host) then ret tt
  else run_nft_script (zone_script zone_name veth_name bridge_rules bridge_input_rules bridge_output_rules).

(** ** Checking what is installed *)

(** The lines of the chain in a listing, with single spaces and no handles. *)
Fixpoint chain_lines (chain_name : string) (in_chain : bool) (ls : list string) : list string :=
  match ls with
  | [] => []
  | line :: rest =>
      let line := Str.trim line in
      if String.eqb line ("chain " ++ chain_name ++ " {") then chain_lines chain_name true rest
      else if negb in_chain then chain_lines chain_name in_chain rest
      else if String.eqb line "}" then chain_lines chain_name false rest
      else
        let rule := Str.trim (match Text.split_str_once "# handle " line with
                              | Some (before, _) => before | None => line end) in
        if String.eqb rule "" then chain_lines chain_name in_chain rest
        else Str.join " " (Text.split_whitespace rule) :: chain_lines chain_name in_chain rest
  end.
Definition nft_chain_rules (output chain_name : string) : list string :=
  chain_lines chain_name false (Text.lines output).

Definition jump_text (interface_match veth_name chain_name : string) : string :=
  interface_match ++ " " ++ quote veth_name ++ " jump " ++ chain_name.

Definition chain_has_jump (output : Output) (interface_match veth_name chain_name : string) : bool :=
  success output && Text.contains_str (jump_text interface_match veth_name chain_name) (stdout output).
Definition forward_has_jumps (output : Output) (veth_name chain_name : string) : bool :=
  success output && Text.contains_str (jump_text "iifname" veth_name chain_name) (stdout output)
  && Text.contains_str (jump_text "oifname" veth_name chain_name) (stdout output).

Definition list_chain (chain : string) : IO (option Output) :=
  do r <- os (command "nft" ["list"; "chain"; BRIDGE_FAMILY; TABLE_NAME; chain]);
  ret (match r with Ok output => Some output | Err _ => None end).

(** [r.is_ok_and(f)]. *)
Definition is_ok_and (r : option Output) (f : Output -> bool) : bool :=
  match r with Some output => f output | None => false end.
Definition has_rules (output : Output) (chain_name : string) (rules : result (list string) RauhaError) : bool :=
  success output && match rules with
                    | Ok rules => bool_decide (nft_chain_rules (stdout output) chain_name = rules)
                    | Err _ => false
                    end.

Definition zone_rules_exist (zone_name veth_name : string) (policy : NetworkPolicy) : IO bool :=
  if bool_decide (mode policy = Host) then ret true
  else
    let chain_name := zone_chain_name zone_name in
    let input_chain_name := zone_input_chain_name zone_name in
    let output_chain_name := zone_output_chain_name zone_name in
    do bridge_chain <- list_chain chain_name;
    do bridge_input_chain <- list_chain input_chain_name;
    do bridge_output_chain <- list_chain output_chain_name;
    do bridge_forward <- list_chain "forward";
    do bridge_input <- list_chain "input";
    do bridge_output <- list_chain "output";
    do zone_ok <- (match bridge_chain with
                   | Some output =>
                       if success output then
                         do rules <- bridge_zone_chain_rules veth_name policy;
                         ret (has_rules output chain_name (Ok rules))
                       else ret false
                   | None => ret false
                   end);
    ret (zone_ok
         && is_ok_and bridge_input_chain
              (fun output => has_rules output input_chain_name (bridge_input_chain_rules policy))
         && is_ok_and bridge_output_chain
              (fun output => has_rules output output_chain_name (bridge_output_chain_rules policy))
         && is_ok_and bridge_forward (fun output => forward_has_jumps output veth_name chain_name)
         && is_ok_and bridge_input (fun output => chain_has_jump output "iifname" veth_name input_chain_name)
         && is_ok_and bridge_output (fun output => chain_has_jump output "oifname" veth_name output_chain_name)).

(** ** What a zone's transaction says *)

(** The commands it is meant to consist of. *)
Definition rule_commands (chain : string) (rules : list string) : list string :=
  map (fun rule => "add rule bridge rauha " ++ chain ++ " " ++ rule) rules.
Definition jump_command (base interface_match veth_name chain : string) : string :=
  "add rule bridge rauha " ++ base ++ " " ++ jump_text interface_match veth_name chain.

Definition zone_commands (zone_name veth_name : string) (rules input_rules output_rules : list string) : list string :=
  (map (fun chain => "add chain bridge rauha " ++ chain)%string
     [zone_chain_name zone_name; zone_input_chain_name zone_name; zone_output_chain_name zone_name]
   ++ rule_commands (zone_chain_name zone_name) rules
   ++ rule_commands (zone_input_chain_name zone_name) input_rules
   ++ rule_commands (zone_output_chain_name zone_name) output_rules
   ++ [jump_command "forward" "iifname" veth_name (zone_chain_name zone_name);
       jump_command "forward" "oifname" veth_name (zone_chain_name zone_name);
       jump_command "input" "iifname" veth_name (zone_input_chain_name zone_name);
       jump_command "output" "oifname" veth_name (zone_output_chain_name zone_name)])%list.

Lemma rule_lines_unlines chain rules : rule_lines chain rules = Text.unlines (rule_commands chain rules).
Proof.
  induction rules as [|r rules IH]; [done|].
  change (rule_lines chain (r :: rules)) with ("add rule bridge rauha " ++ chain ++ " " ++ r ++ nl ++ rule_lines chain rules).
  change (Text.unlines (rule_commands chain (r :: rules))) with
    (("add rule bridge rauha " ++ chain ++ " " ++ r) ++ nl ++ Text.unlines (rule_commands chain rules)).
  by rewrite IH, !Text.string_app_assoc.
Qed.

Lemma zone_script_unlines zone_name veth_name rules input_rules output_rules :
  zone_script zone_name veth_name rules input_rules output_rules
  = Text.unlines (zone_commands zone_name veth_name rules input_rules output_rules).
Proof.
  unfold zone_script, zone_commands. rewrite !rule_lines_unlines, !Text.unlines_app.
  unfold jump_command, jump_text. cbn [Text.unlines map foldr]. rewrite !Text.string_app_assoc. reflexivity.
Qed.

(** Rules generated from targets fit on a line whatever the targets are. *)
Lemma one_line_endpoint address_match e : Text.one_line address_match = true ->
  Text.one_line (endpoint_rule address_match e) = true.
Proof.
  intros Ha. unfold endpoint_rule, network, nft_family. rewrite !Text.one_line_app, Ha, Text.one_line_show.
  assert (Text.one_line (match address e with V4 o => Text.show_ipv4 o | V6 g => Text.show_ipv6 g end) = true) as ->
    by (destruct (address e); [apply Text.one_line_ipv4|apply Text.one_line_ipv6]).
  destruct (is_ipv4 (address e)); destruct (port e) as [p|]; rewrite ?Text.one_line_app, ?Text.one_line_show; reflexivity.
Qed.

(** One accept rule per target, in order. *)
Lemma endpoint_rules_spec address_match targets rules :
  endpoint_rules address_match targets = Ok rules ->
  exists es, Forall2 (fun t e => parse_endpoint (legacy_target t) = Ok e) targets es /\
    rules = map (endpoint_rule address_match) es.
Proof.
  revert rules. induction targets as [|t ts IH]; intros rules; cbn [endpoint_rules].
  - intros [= <-]. by exists [].
  - destruct (parse_endpoint (legacy_target t)) as [e|] eqn:He; [|done]. cbn [map_err].
    destruct (endpoint_rules address_match ts) as [rs|]; [|done]. intros [= <-].
    destruct (IH rs eq_refl) as (es & Hes & ->). exists (e :: es). split; [by constructor|done].
Qed.

(** The chain a policy asks for: everything dropped but the base traffic and the
    targets, and everything but those two when the zone is not bridged. *)
Definition filter_chain (address_match : string) (policy : NetworkPolicy) (targets : list string) (rules : list string) : Prop :=
  if is_bridged policy then
    exists es, Forall2 (fun t e => parse_endpoint (legacy_target t) = Ok e) targets es /\
      rules = (base_rules ++ map (endpoint_rule address_match) es ++ ["drop"])%list
  else rules = ["drop"].

Lemma input_chain policy rules : bridge_input_chain_rules policy = Ok rules -> filter_chain "daddr" policy (allowed_egress policy) rules.
Proof.
  unfold bridge_input_chain_rules, filter_chain. destruct (is_bridged policy); cbn [negb]; [|by intros [= <-]].
  destruct (endpoint_rules _ _) as [rs|] eqn:Hr; [|done]. intros [= <-].
  destruct (endpoint_rules_spec _ _ _ Hr) as (es & Hes & ->). by exists es.
Qed.
Lemma output_chain policy rules : bridge_output_chain_rules policy = Ok rules -> filter_chain "saddr" policy (allowed_ingress policy) rules.
Proof.
  unfold bridge_output_chain_rules, filter_chain. destruct (is_bridged policy); cbn [negb]; [|by intros [= <-]].
  destruct (endpoint_rules _ _) as [rs|] eqn:Hr; [|done]. intros [= <-].
  destruct (endpoint_rules_spec _ _ _ Hr) as (es & Hes & ->). by exists es.
Qed.

Lemma filter_chain_lines address_match policy targets rules : Text.one_line address_match = true ->
  filter_chain address_match policy targets rules -> forallb Text.one_line rules = true.
Proof.
  intros Ha. unfold filter_chain. destruct (is_bridged policy); [|by intros ->]. intros (es & _ & ->).
  rewrite !forallb_app. rewrite (Text.one_line_map (endpoint_rule address_match) es); [reflexivity|].
  intros e. by apply one_line_endpoint.
Qed.

Lemma one_line_commands chain rules : Text.one_line chain = true -> forallb Text.one_line rules = true ->
  forallb Text.one_line (rule_commands chain rules) = true.
Proof.
  intros Hc. unfold rule_commands. induction rules as [|r rules IH]; [done|]. cbn [forallb map]. rewrite !andb_true_iff.
  intros [Hr Hrs]. split; [|by apply IH]. by rewrite !Text.one_line_app, Hc, Hr.
Qed.

Lemma one_line_prefixed p zone_name : Text.one_line p = true -> Text.one_line zone_name = true ->
  Text.one_line (p ++ zone_name) = true.
Proof. intros Hp Hz. by rewrite Text.one_line_app, Hp, Hz. Qed.

Lemma one_line_jump base interface_match veth_name chain :
  Text.one_line base = true -> Text.one_line interface_match = true -> Text.one_line veth_name = true ->
  Text.one_line chain = true -> Text.one_line (jump_command base interface_match veth_name chain) = true.
Proof.
  intros Hb Hm Hv Hc. unfold jump_command, jump_text, quote.
  change (String "034" (veth_name ++ String "034" "")) with (String "034" "" ++ veth_name ++ String "034" "").
  by rewrite !Text.one_line_app, Hb, Hm, Hv, Hc.
Qed.

(** The transaction that installs a zone's filter is exactly the intended
    commands, whatever the policy's network targets are: three chains named for the
    zone, its rules in them, four jumps; and the two chains of the zone's own
    traffic end in a drop after one accept per allowed target.  The names must be on
    one line, which [validate_zone_name] does not check. *)
Theorem zone_transaction_is_as_intended zone_name veth_name policy rules input_rules output_rules :
  Text.one_line zone_name = true -> Text.one_line veth_name = true -> forallb Text.one_line rules = true ->
  bridge_input_chain_rules policy = Ok input_rules -> bridge_output_chain_rules policy = Ok output_rules ->
  Str.split "010" (zone_script zone_name veth_name rules input_rules output_rules)
    = (zone_commands zone_name veth_name rules input_rules output_rules ++ [""])%list /\
  filter_chain "daddr" policy (allowed_egress policy) input_rules /\
  filter_chain "saddr" policy (allowed_ingress policy) output_rules.
Proof.
  intros Hz Hv Hr Hi Ho. apply input_chain in Hi. apply output_chain in Ho. split; [|done].
  rewrite zone_script_unlines. apply Text.split_unlines.
  assert (Text.one_line (zone_chain_name zone_name) = true) as H1 by by apply one_line_prefixed.
  assert (Text.one_line (zone_input_chain_name zone_name) = true) as H2 by by apply one_line_prefixed.
  assert (Text.one_line (zone_output_chain_name zone_name) = true) as H3 by by apply one_line_prefixed.
  unfold zone_commands. rewrite !forallb_app, (one_line_commands _ rules H1 Hr),
    (one_line_commands _ input_rules H2 (filter_chain_lines "daddr" _ _ _ eq_refl Hi)),
    (one_line_commands _ output_rules H3 (filter_chain_lines "saddr" _ _ _ eq_refl Ho)).
  cbn [map forallb]. rewrite !one_line_jump by done. by rewrite !Text.one_line_app, H1, H2, H3.
Qed.

End Nftables.

(** A chain is recognised by its name anywhere in a line: removing the rules of
    zone [a] also removes the jumps of zone [ab]. *)
Lemma jump_of_another_zone :
  jump_handle (zone_chain_name "a") ("iifname " ++ quote "veth1" ++ " jump " ++ zone_chain_name "ab" ++ " # handle 7")
  = Some "7".
Proof. reflexivity. Qed.

Lemma zone_transaction_is_as_intended_witness :
  exists input_rules, bridge_input_chain_rules id (mkNetwork Bridged [] ["10.0.0.0/8:443"] []) = Ok input_rules /\
    Str.split "010" (zone_script "web" "veth1" ["return"] input_rules (base_rules ++ ["drop"])%list)
      = (zone_commands "web" "veth1" ["return"] input_rules (base_rules ++ ["drop"]) ++ [""])%list.
Proof.
  destruct (bridge_input_chain_rules id (mkNetwork Bridged [] ["10.0.0.0/8:443"] [])) as [rules|e] eqn:Hr;
    [|vm_compute in Hr; discriminate].
  exists rules. split; [reflexivity|].
  exact (proj1 (zone_transaction_is_as_intended id "web" "veth1" (mkNetwork Bridged [] ["10.0.0.0/8:443"] []) ["return"] rules
    (base_rules ++ ["drop"])%list eq_refl eq_refl eq_refl Hr eq_refl)).
Defined.

End Nftables.
