(* ===== verification/LinuxPolicy.v ===== *)
(** * Admission of policies and their OCI runtime form

    The part of [rauhad/src/backend/linux/mod.rs] that decides what a policy means
    on Linux: which controls are unsupported and whether the policy is admitted,
    the capabilities, seccomp profile, devices and mounts of a container, and the
    plan of the inode ownership check.  The types of the oci-spec crate are records
    of the fields the source sets; its builders fail only on a missing field, and
    the source sets the required ones. *)

From stdpp Require Import base gmap strings list sets.
From Stdlib Require Import ZArith Ascii Lia.
From S2P Require Import Prelude.
From S2P Require Import RustStr.
From S2P Require Import RustText.
From S2P Require Import EnforcerApi.
From S2P Require Import Zone.
From S2P Require Import StateError.
From S2P Require Import Shim.
From S2P Require Import Broker.
From S2P Require Import LinuxHost.
Import Zone.

Module LinuxPolicy.
Open Scope string_scope.

(** ** Admission *)

Definition only_normal (c : Text.Component) : bool :=
  match c with Text.RootDir | Text.Normal _ => true | Text.CurDir | Text.ParentDir => false end.

Definition safe_writable_path (path : string) (safe_writable_roots : list string) : bool :=
  Text.is_absolute path && negb (Text.path_eqb path "/")
  && negb (existsb (Text.path_starts_with path) safe_writable_roots)
  && forallb only_normal (Text.components path).

Definition device_numbers (path : string) : option (Z * Z) :=
  if String.eqb path "/dev/null" then Some (1, 3)%Z
  else if String.eqb path "/dev/zero" then Some (1, 5)%Z
  else if String.eqb path "/dev/full" then Some (1, 7)%Z
  else if String.eqb path "/dev/random" then Some (1, 8)%Z
  else if String.eqb path "/dev/urandom" then Some (1, 9)%Z
  else None.

Definition unsupported_linux_controls (policy : ZonePolicy) (safe_writable_roots : list string) : list string :=
  ((if existsb (fun path => negb (safe_writable_path path safe_writable_roots)) (writable_paths (filesystem policy))
    then ["filesystem.writable_paths"] else [])
   ++ (if existsb (fun path => negb (bool_decide (is_Some (device_numbers path)))) (dev_allowed (devices policy))
       then ["devices.allowed"] else []))%list.

Definition admit_linux_policy (policy : ZonePolicy) (skipped_hooks safe_writable_roots : list string)
  : result unit RauhaError :=
  let unsupported := (unsupported_linux_controls policy safe_writable_roots
                      ++ map (fun hook => ("lsm." ++ hook)%string) skipped_hooks)%list in
  match unsupported with
  | [] => Ok tt
  | _ =>
      let controls := Str.join ", " unsupported in
      match admission policy with
      | Strict => Err (InvalidPolicy
                         ("strict policy requests unsupported or unavailable Linux controls: " ++ controls))
      | Audit => Ok tt
      end
  end.

(** ** The OCI runtime specification *)

Record LinuxCapabilities := mkOciCaps {
  bounding : gset string; effective : gset string; inheritable : gset string;
  permitted : gset string; ambient : gset string }.

Inductive LinuxSeccompAction := ScmpActErrno | ScmpActNotify | ScmpActAllow.
Record LinuxSyscall := mkOciSyscall {
  names : list string; action : LinuxSeccompAction; errno_ret : option Z }.
Record LinuxSeccomp := mkSeccomp {
  default_action : LinuxSeccompAction; listener_path : option string; syscalls : list LinuxSyscall }.

(** Character devices, owned by root. *)
Record LinuxDevice := mkOciDevice {
  dev_path : string; major : Z; minor : Z; file_mode : Z; dev_uid : Z; dev_gid : Z }.

Record Mount := mkMount {
  destination : string; typ : option string; source : option string; options : list string }.

Section Oci.
(** The [FromStr] of oci-spec's [Capability], by the name it prints. *)
Context (parse_capability : string -> option string).

Definition oci_capability (name : string) : result string RauhaError :=
  let canonical := canonical_linux_capability_name name in
  let? short := ok_or (Str.strip_prefix "CAP_" canonical) (InvalidPolicy ("unknown capability: " ++ name)) in
  ok_or (parse_capability short) (InvalidPolicy ("unknown capability: " ++ name)).

Fixpoint collect_capabilities (allowed : list string) : result (gset string) RauhaError :=
  match allowed with
  | [] => Ok ∅
  | name :: rest =>
      let? c := oci_capability name in
      let? cs := collect_capabilities rest in
      Ok ({[c]} ∪ cs)
  end.

Definition oci_capabilities (policy : ZonePolicy) : result LinuxCapabilities RauhaError :=
  let? caps := collect_capabilities (cap_allowed (Zone.capabilities policy)) in
  Ok (mkOciCaps caps caps caps caps caps).

Definition EPERM : Z := 1.

(** The rule of the brokered system calls: each must have a listener to be handed
    to, not be denied as well, and be one the shim's broker judges. *)
Definition broker_rules (denied brokered : list string) (listener : option string)
  : result (list LinuxSyscall) RauhaError :=
  match brokered with
  | [] => Ok []
  | _ =>
      if negb (bool_decide (is_Some listener))
      then Err (InvalidPolicy "brokered syscalls require a seccomp listener path")
      else match List.find (fun name => existsb (String.eqb name) denied) brokered with
      | Some name =>
          Err (InvalidPolicy ("syscall " ++ name ++ " is listed in both syscalls.deny and syscalls.broker — "
                 ++ "remove it from one: deny would silently win and the broker never runs"))
      | None =>
          match List.find (fun name => negb (existsb (String.eqb name) BROKERABLE_SYSCALLS)) brokered with
          | Some name =>
              Err (InvalidPolicy ("brokered syscall not supported by the shim broker: " ++ name
                     ++ " (supported: " ++ Str.join ", " BROKERABLE_SYSCALLS ++ ")"))
          | None => Ok [mkOciSyscall brokered ScmpActNotify None]
          end
      end
  end.

Definition oci_seccomp (policy : ZonePolicy) (listener : option string)
  : result (option LinuxSeccomp) RauhaError :=
  let denied := deny (Zone.syscalls policy) in
  let brokered := broker (Zone.syscalls policy) in
  match denied, brokered with
  | [], [] => Ok None
  | _, _ =>
      let deny_rules := match denied with [] => [] | _ => [mkOciSyscall denied ScmpActErrno (Some EPERM)] end in
      let? notify := broker_rules denied brokered listener in
      Ok (Some (mkSeccomp ScmpActAllow listener (deny_rules ++ notify)))
  end.

Definition oci_devices (policy : ZonePolicy) : list LinuxDevice :=
  omap (fun path => '(major, minor) ← device_numbers path; Some (mkOciDevice path major minor 0x1b6 0 0))
    (dev_allowed (devices policy)).

End Oci.

(** ** Mounts *)

(** Beside the container's rootfs, named by the flattened path.  [Path::parent]
    of a path that does not end in a slash, with the default of the caller. *)
Definition path_parent (path : string) : string :=
  if String.eqb path "/" || String.eqb path "" then "."
  else match Str.rsplit_once "/" path with
  | Some ("", _) => "/"
  | Some (parent, _) => parent
  | None => ""
  end.
Definition writable_copy_dir (rootfs relative : string) : string :=
  Shim.join_path (Shim.join_path (path_parent rootfs) "writable") (Text.replace_char "/" "_" relative).

Section Mounts.
Context {E : Type} {H : Host.LinuxHost E}.
Notation IO := (M E RauhaError).
(** [oci_spec::runtime::get_default_mounts], and the recursive copy of the
    snapshotter. *)
Context (default_mounts : list Mount) (copy_dir_recursive : string -> string -> E -> result unit string * E).

(** Walk the declared path below the rootfs: every component must be present in
    the image and not a symbolic link. *)
Fixpoint walk_components (declared current : string) (cs : list Text.Component) : IO string :=
  match cs with
  | [] => ret current
  | Text.Normal component :: rest =>
      let current := Shim.join_path current component in
      do kind <- Host.os_try (Host.lstat_kind current)
        (fun e => InvalidPolicy ("writable path " ++ declared ++ " is not present in the image: " ++ e));
      match kind with
      | Host.Symlink => fail (InvalidPolicy ("writable path crosses a symlink: " ++ declared))
      | _ => walk_components declared current rest
      end
  | _ :: _ => fail (InvalidPolicy ("unsafe writable path: " ++ declared))
  end.

Definition writable_mount (rootfs declared : string) : IO Mount :=
  let relative := Text.trim_start_matches "/" declared in
  do current <- walk_components declared rootfs (Text.components relative);
  do metadata <- Host.os_try (Host.stat_mode current)
    (fun e => RootfsError ("failed to inspect writable path " ++ declared ++ ": " ++ e));
  match fst metadata with
  | Host.Directory =>
      do entries <- Host.os (Host.read_dir current);
      let shadows_content := match entries with Ok (_ :: _) => true | _ => false end in
      if shadows_content then
        let copy_dir := writable_copy_dir rootfs relative in
        do _ <- Host.os_try (copy_dir_recursive current copy_dir)
          (fun e => RootfsError ("failed to copy image content of writable path " ++ declared ++ " into "
                                  ++ copy_dir ++ ": " ++ e));
        ret (mkMount declared (Some "bind") (Some copy_dir) ["rw"])
      else
        ret (mkMount declared (Some "tmpfs") (Some "tmpfs")
          ["rw"; "nosuid"; "nodev"; "noexec"; "mode=" ++ Text.show_octal (Z.land (snd metadata) 0xfff); "size=65536k"])
  | _ => fail (InvalidPolicy ("writable path is not a directory: " ++ declared))
  end.

Fixpoint writable_mounts (rootfs : string) (paths : list string) : IO (list Mount) :=
  match paths with
  | [] => ret []
  | declared :: rest =>
      do m <- writable_mount rootfs declared;
      do ms <- writable_mounts rootfs rest;
      ret (m :: ms)
  end.

Definition oci_mounts (policy : ZonePolicy) (rootfs : string) (safe_writable_roots : list string) : IO (list Mount) :=
  let mounts := List.filter (fun m => negb (Text.path_eqb (destination m) "/sys/fs/cgroup")) default_mounts in
  do writable <- writable_mounts rootfs
    (List.filter (fun path => safe_writable_path path safe_writable_roots) (writable_paths (filesystem policy)));
  ret (mounts ++ writable)%list.

End Mounts.

(** ** The plan of the inode ownership check *)

Inductive InodeCheckPlan :=
| FailLive
| Mismatch (recorded expected : Z)
| DiskError (error : string)
| Attest (set : gset Z) (note : string).

Definition inode_ownership_check_plan (has_processes : bool) (disk : result (list Z) string) (recorded : list Z)
  : InodeCheckPlan :=
  let recorded : gset Z := list_to_set recorded in
  match disk with
  | Err e => DiskError e
  | Ok disk =>
      let disk : gset Z := list_to_set disk in
      if has_processes then
        if bool_decide (disk = ∅) then FailLive
        else if negb (bool_decide (disk = recorded))
        then Mismatch (Z.of_nat (size recorded)) (Z.of_nat (size disk))
        else Attest disk ""
      else Attest recorded " (zone idle — attesting recorded set)"
  end.

(** ** Admission, by its specification *)

(** A writable path is safe when it names something strictly below the root, with
    neither [.] nor [..], and is not below a reserved root. *)
Definition safe_path (safe_writable_roots : list string) (path : string) : Prop :=
  (exists names, names <> [] /\ Text.components path = Text.RootDir :: map Text.Normal names) /\
  forall reserved, reserved ∈ safe_writable_roots ->
    ~ exists rest, Text.components path = (Text.components reserved ++ rest)%list.

Lemma segments_shape ps : Forall (fun c => c = Text.ParentDir \/ exists n, c = Text.Normal n) (Text.segments ps).
Proof.
  induction ps as [|p ps IH]; [constructor|]. cbn. destruct (_ || _); [done|].
  constructor; [|done]. destruct (String.eqb p ".."); eauto.
Qed.

Lemma only_normal_names cs :
  Forall (fun c => c = Text.ParentDir \/ exists n, c = Text.Normal n) cs ->
  forallb only_normal cs = true <-> exists names, cs = map Text.Normal names.
Proof.
  intros Hcs. split.
  - induction Hcs as [|c cs [->|[n ->]] _ IH]; [by exists []|done|]. cbn. intros Hn.
    destruct (IH Hn) as [names ->]. by exists (n :: names).
  - intros [names ->]. clear Hcs. by induction names.
Qed.

Lemma safe_writable_path_spec path roots : safe_writable_path path roots = true <-> safe_path roots path.
Proof.
  unfold safe_writable_path, safe_path, Text.path_eqb, Text.path_starts_with.
  rewrite !andb_true_iff, !negb_true_iff, bool_decide_eq_false.
  assert (Hroots : existsb (fun q => Text.is_prefix (Text.components q) (Text.components path)) roots = false <->
    forall reserved, reserved ∈ roots -> ~ exists rest, Text.components path = (Text.components reserved ++ rest)%list).
  { rewrite <- not_true_iff_false, existsb_exists. setoid_rewrite Text.is_prefix_app.
    setoid_rewrite <- list_elem_of_In. naive_solver. }
  rewrite Hroots. clear Hroots.
  assert (Hnames : (Text.is_absolute path = true /\ Text.components path <> Text.components "/") /\
            forallb only_normal (Text.components path) = true <->
    exists names, names <> [] /\ Text.components path = Text.RootDir :: map Text.Normal names).
  { change (Text.components "/") with [Text.RootDir]. unfold Text.components.
    destruct (Text.is_absolute path); cbn [forallb only_normal andb].
    - rewrite (only_normal_names _ (segments_shape _)). split.
      + intros [[_ Hne] [names Hn]]. exists names. rewrite Hn in *. split; [by intros ->|done].
      + intros (names & Hne & [= Hn]). rewrite Hn. split_and!; [done| |eauto]. by destruct names.
    - split; [intros [[] _]; done|]. intros (names & _ & Hn). exfalso.
      destruct (Str.split "/"%char path) as [|q ps] eqn:Hs; [done|].
      pose proof (segments_shape (q :: ps)) as Hq. revert Hn.
      assert (Hcase : forall l, Forall (fun c => c = Text.ParentDir \/ exists n, c = Text.Normal n) l ->
        l <> Text.RootDir :: map Text.Normal names).
      { intros l Hl ->. inversion Hl as [|? ? [?|[? ?]]]; done. }
      destruct q as [|[[] [] [] [] [] [] [] []] [|]]; try (by apply Hcase); done. }
  tauto.
Qed.

(** A strict policy is admitted exactly when the kernel has every hook, every
    writable path is safe and every device is one the backend can create; an
    audit policy is always admitted. *)
Theorem strict_admission policy skipped_hooks roots :
  (admission policy = Strict ->
     admit_linux_policy policy skipped_hooks roots = Ok tt <->
     skipped_hooks = [] /\ Forall (safe_path roots) (writable_paths (filesystem policy)) /\
     Forall (fun d => is_Some (device_numbers d)) (dev_allowed (devices policy))) /\
  (admission policy = Audit -> admit_linux_policy policy skipped_hooks roots = Ok tt).
Proof.
  unfold admit_linux_policy. set (hooks := map _ skipped_hooks). split; intros Ha; rewrite Ha.
  2: { by destruct (_ ++ hooks)%list. }
  assert (Hh : hooks = [] <-> skipped_hooks = []) by (by destruct skipped_hooks).
  rewrite <- Hh. unfold unsupported_linux_controls.
  assert (Hex : forall A (f : A -> bool) (P : A -> Prop) l, (forall x, f x = false <-> P x) ->
    existsb f l = false <-> Forall P l).
  { intros A f P l Hf. rewrite <- not_true_iff_false, existsb_exists, Forall_forall.
    setoid_rewrite list_elem_of_In. setoid_rewrite <- Hf. setoid_rewrite <- not_true_iff_false. naive_solver. }
  rewrite <- (Hex _ (fun path => negb (safe_writable_path path roots))).
  2: { intros x. rewrite negb_false_iff. apply safe_writable_path_spec. }
  rewrite <- (Hex _ (fun path => negb (bool_decide (is_Some (device_numbers path))))).
  2: { intros x. rewrite negb_false_iff. apply bool_decide_eq_true. }
  destruct (existsb _ (writable_paths _)); [cbn; split; [done|by intros (_ & ? & _)]|].
  destruct (existsb _ (dev_allowed _)); [cbn; split; [done|by intros (_ & _ & ?)]|].
  destruct hooks; cbn; split; try done; by intros (? & _ & _).
Qed.

Lemma strict_admission_witness :
  admit_linux_policy (mkZonePolicy Strict (mkCapability []) ResourcePolicy_default NetworkPolicy_default
    (mkFilesystem "" true ["/data/out"; "/run"]) (mkDevice ["/dev/null"]) (mkSyscall [] [])) [] ["/run"] <> Ok tt.
Proof.
  intros Ha. apply strict_admission in Ha; [|reflexivity]. destruct Ha as (_ & Hp & _).
  inversion Hp as [|? ? _ Hq]. inversion Hq as [|? ? Hr _]. destruct Hr as [_ Hr].
  apply (Hr "/run"); [by left|]. exists []. reflexivity.
Defined.

(** ** The seccomp profile *)

(** libseccomp: the first rule that names a system call decides. *)
Fixpoint rule_for (rules : list LinuxSyscall) (name : string) : option LinuxSyscall :=
  match rules with
  | [] => None
  | r :: rest => if bool_decide (name ∈ names r) then Some r else rule_for rest name
  end.
Definition seccomp_action (profile : option LinuxSeccomp) (name : string) : LinuxSeccompAction :=
  match profile with
  | None => ScmpActAllow
  | Some p => match rule_for (syscalls p) name with Some r => action r | None => default_action p end
  end.

Definition brokerable (name : string) : Prop := exists nr, Broker.brokered_syscall_name nr = Some name.

Lemma existsb_eqb (l : list string) x : existsb (String.eqb x) l = true <-> x ∈ l.
Proof.
  rewrite existsb_exists. setoid_rewrite <- list_elem_of_In. setoid_rewrite String.eqb_eq. naive_solver.
Qed.

Lemma brokerable_spec name : existsb (String.eqb name) BROKERABLE_SYSCALLS = true <-> brokerable name.
Proof.
  rewrite existsb_eqb. unfold brokerable, Broker.brokered_syscall_name, BROKERABLE_SYSCALLS. split.
  - intros [->|Hn]%elem_of_cons; [by exists Broker.NR_OPENAT|].
    apply list_elem_of_singleton in Hn as ->. by exists Broker.NR_OPENAT2.
  - intros (nr & Hn). repeat case_match; simplify_eq; set_solver.
Qed.

Lemma broker_rules_spec denied brokered listener :
  match broker_rules denied brokered listener with
  | Ok rules => rules = match brokered with [] => [] | _ => [mkOciSyscall brokered ScmpActNotify None] end /\
      forall x, x ∈ brokered -> x ∉ denied /\ is_Some listener /\ brokerable x
  | Err _ => brokered <> [] /\
      (listener = None \/ exists x, x ∈ brokered /\ (x ∈ denied \/ ~ brokerable x))
  end.
Proof.
  unfold broker_rules. destruct brokered as [|b bs]; [split; [done|]; by intros x []%elem_of_nil|].
  destruct listener as [l|]; cbn [negb]; [|split; [done|by left]].
  destruct (List.find (fun name => existsb (String.eqb name) denied) (b :: bs)) as [n|] eqn:Hf.
  { apply find_some in Hf as [Hin Hd]. apply existsb_eqb in Hd. apply list_elem_of_In in Hin.
    split; [done|right; eauto]. }
  destruct (List.find (fun name => negb (existsb (String.eqb name) BROKERABLE_SYSCALLS)) (b :: bs)) as [n|] eqn:Hk.
  { apply find_some in Hk as [Hin Hd]. apply list_elem_of_In in Hin.
    rewrite negb_true_iff, <- not_true_iff_false, brokerable_spec in Hd. split; [done|right; eauto]. }
  split; [done|]. intros x Hx. apply list_elem_of_In in Hx. split_and!; [|by eexists|].
  - intros Hd%existsb_eqb. pose proof (find_none _ _ Hf x Hx) as Hno. cbn in Hno. congruence.
  - apply brokerable_spec. pose proof (find_none _ _ Hk x Hx) as Hno. cbn in Hno. by apply negb_false_iff.
Qed.

(** C28. A profile that is built fails exactly the denied system calls, hands exactly
    the brokered ones to the zone's broker, which knows each of them and listens
    where the profile says, and allows the rest.  The only policies without a
    profile broker a call without a listener, a denied one, or one the broker
    does not know. *)
Theorem seccomp_implements_policy policy listener :
  let denied := deny (Zone.syscalls policy) in let brokered := broker (Zone.syscalls policy) in
  match oci_seccomp policy listener with
  | Ok profile => forall name,
      (seccomp_action profile name = ScmpActErrno <-> name ∈ denied) /\
      (seccomp_action profile name = ScmpActNotify <-> name ∈ brokered) /\
      (name ∈ brokered -> name ∉ denied /\ brokerable name /\
         exists p l, profile = Some p /\ listener_path p = Some l)
  | Err _ => brokered <> [] /\
      (listener = None \/ exists name, name ∈ brokered /\ (name ∈ denied \/ ~ brokerable name))
  end.
Proof.
  cbv zeta. unfold oci_seccomp.
  set (denied := deny _). set (brokered := broker _).
  assert (Hnil : forall x : string, x ∈ [] <-> False) by (intros; split; [apply not_elem_of_nil|done]).
  pose proof (broker_rules_spec denied brokered listener) as Hs.
  destruct denied as [|d ds], brokered as [|b bs];
    [intros name; rewrite !Hnil; cbn; by split_and!; try split|..];
    (destruct (broker_rules _ _ _) as [rules|e]; [|done]; destruct Hs as [-> Hb]; intros name;
     cbn [seccomp_action syscalls default_action app rule_for names action];
     rewrite ?Hnil in *; repeat case_bool_decide; cbn [action];
     split_and!; try split; intros; try done; try tauto;
     destruct (Hb name) as (? & [l ->] & ?); try done; eauto 6).
Qed.

(** ** The capabilities of a container *)

Definition short_names : list string := omap (Str.strip_prefix "CAP_") LINUX_CAPABILITIES.

Lemma position_lookup name l b : position name l = Some b -> l !! Z.to_nat b = Some name.
Proof.
  revert b. induction l as [|k l IH]; intros b; [done|]. cbn [position].
  destruct (String.eqb_spec k name) as [->|]; [by intros [= <-]|].
  destruct (position name l) as [b'|] eqn:Hb; [|done]. intros [= <-].
  pose proof (position_range _ _ _ Hb). rewrite Z2Nat.inj_succ by lia. by apply IH.
Qed.

Lemma known_names : LINUX_CAPABILITIES = (fun short => "CAP_" ++ short)%string <$> short_names.
Proof. vm_compute. reflexivity. Qed.

Lemma strip_cap s : Str.strip_prefix "CAP_" ("CAP_" ++ s) = Some s.
Proof. reflexivity. Qed.

(** A known capability's canonical name is the prefix and its short name. *)
Lemma capability_bit_name name b :
  linux_capability_bit name = Some b ->
  exists short, Str.strip_prefix "CAP_" (canonical_linux_capability_name name) = Some short /\
    short_names !! Z.to_nat b = Some short.
Proof.
  unfold linux_capability_bit. intros Hp. apply position_lookup in Hp.
  rewrite known_names, list_lookup_fmap in Hp.
  destruct (short_names !! Z.to_nat b) as [short|]; [|discriminate].
  injection Hp as Hp. exists short. rewrite <- Hp. split; [apply strip_cap|done].
Qed.

Lemma short_names_nodup : NoDup short_names.
Proof. apply (bool_decide_unpack _). vm_compute. exact I. Qed.

Section Capabilities.
Context (parse_capability : string -> option string).
(** The crate knows the kernel's capabilities by their names. *)
Hypothesis parse_known : forall short, short ∈ short_names -> parse_capability short = Some short.

Lemma oci_capability_known name b :
  linux_capability_bit name = Some b ->
  exists short, oci_capability parse_capability name = Ok short /\ short_names !! Z.to_nat b = Some short.
Proof.
  intros Hb. destruct (capability_bit_name _ _ Hb) as (short & Hs & Hl). exists short. split; [|done].
  unfold oci_capability. rewrite Hs. cbn. rewrite parse_known; [done|]. by eapply list_elem_of_lookup_2.
Qed.

Lemma collect_capabilities_spec allowed m0 m :
  capabilities_to_mask_from allowed m0 = Ok m ->
  exists caps, collect_capabilities parse_capability allowed = Ok caps /\
    forall short, short ∈ caps <->
      exists name b, name ∈ allowed /\ linux_capability_bit name = Some b /\ short_names !! Z.to_nat b = Some short.
Proof.
  revert m0. induction allowed as [|name rest IH]; intros m0; cbn [collect_capabilities capabilities_to_mask_from].
  - intros _. exists ∅. split; [done|]. intros short. split; [intros Hs; by apply elem_of_empty in Hs|].
    intros (? & ? & Hn & _). by apply not_elem_of_nil in Hn.
  - destruct (linux_capability_bit name) as [b|] eqn:Hb; cbn [ok_or]; [|done]. intros (caps & Hc & Hin)%IH.
    destruct (oci_capability_known name b Hb) as (short & Hs & Hl). rewrite Hs, Hc.
    eexists. split; [done|]. intros s. rewrite elem_of_union, elem_of_singleton, Hin.
    setoid_rewrite elem_of_cons. split.
    + intros [->|(n & b' & ? & ? & ?)]; eauto 8.
    + intros (n & b' & [->|?] & ? & ?); [left; congruence|right; eauto 8].
Qed.

(** A container is given exactly the capabilities whose bits the kernel policy
    of its zone has: the same in all five sets, whenever the policy is one the
    kernel encoding accepts. *)
Theorem container_capabilities_match_kernel policy mask :
  capabilities_to_mask (cap_allowed (Zone.capabilities policy)) = Ok mask ->
  exists caps, oci_capabilities parse_capability policy = Ok (mkOciCaps caps caps caps caps caps) /\
    forall i short, short_names !! i = Some short -> (short ∈ caps <-> Z.testbit mask (Z.of_nat i) = true).
Proof.
  intros Hm. destruct (collect_capabilities_spec _ _ _ Hm) as (caps & Hc & Hin).
  exists caps. split; [unfold oci_capabilities; by rewrite Hc|]. intros i short Hi.
  rewrite Hin, (capabilities_to_mask_from_bits _ _ _ Hm), Z.bits_0.
  split.
  - intros (name & b & Hn & Hb & Hl). right. exists name. split; [done|].
    pose proof (linux_capability_bit_range _ _ Hb).
    rewrite (NoDup_lookup _ _ _ _ short_names_nodup Hi Hl), Z2Nat.id; [done|lia].
  - intros [|(name & Hn & Hb)]; [done|]. exists name, (Z.of_nat i). by rewrite Nat2Z.id.
Qed.

End Capabilities.

Lemma container_capabilities_match_kernel_witness :
  exists caps, oci_capabilities Some (mkZonePolicy Strict (mkCapability ["cap_chown"; "KILL"]) ResourcePolicy_default
      NetworkPolicy_default FilesystemPolicy_default (mkDevice []) (mkSyscall [] []))
    = Ok (mkOciCaps caps caps caps caps caps) /\ "KILL" ∈ caps /\ "SYS_ADMIN" ∉ caps.
Proof.
  destruct (container_capabilities_match_kernel Some (fun _ _ => eq_refl)
    (mkZonePolicy Strict (mkCapability ["cap_chown"; "KILL"]) ResourcePolicy_default
      NetworkPolicy_default FilesystemPolicy_default (mkDevice []) (mkSyscall [] [])) 33 eq_refl) as (caps & Hc & Hin).
  exists caps. split; [exact Hc|]. split.
  - apply (Hin 5%nat "KILL"); reflexivity.
  - intros Hs. apply (Hin 21%nat "SYS_ADMIN") in Hs; [discriminate Hs|reflexivity].
Defined.

End LinuxPolicy.
