(* ===== verification/Dns.v ===== *)
(** * resolv.conf of a container

    [rauhad/src/network/dns.rs]: the host's resolver configuration, filtered for use
    inside containers. *)

From stdpp Require Import base gmap strings list.
From Stdlib Require Import ZArith Ascii Lia.
From S2P Require Import Prelude.
From S2P Require Import RustStr.
From S2P Require Import RustText.

Module Dns.
Open Scope string_scope.

Definition LOCAL_STUBS : list string := ["127.0.0.53"; "127.0.0.1"].

(** One line of the host's file: the nameservers and the other lines kept so far. *)
Definition scan_line (acc : list string * list string) (line : string) : list string * list string :=
  let '(nameservers, other_lines) := acc in
  let trimmed := Str.trim line in
  if Str.starts_with "nameserver" trimmed then
    match Text.split_whitespace trimmed !! 1%nat with
    | Some addr => if existsb (String.eqb addr) LOCAL_STUBS then acc
                   else ((nameservers ++ [addr])%list, other_lines)
    | None => acc
    end
  else if Str.starts_with "search" trimmed || Str.starts_with "options" trimmed
  then (nameservers, (other_lines ++ [trimmed])%list)
  else acc.

Definition generate_resolv_conf_from (host_content : string) (fallback : list string) : string :=
  let '(nameservers, other_lines) := fold_left scan_line (Text.lines host_content) ([], []) in
  let nameservers := match nameservers with [] => fallback | _ => nameservers end in
  Text.unlines (("# Generated by rauha" :: map (fun ns => ("nameserver " ++ ns)%string) nameservers) ++ other_lines)%list.

Example mixed_stub : generate_resolv_conf_from
    ("nameserver 127.0.0.53" ++ Text.nl ++ "nameserver 10.0.0.1" ++ Text.nl ++ "options edns0" ++ Text.nl) ["1.1.1.1"]
  = "# Generated by rauha" ++ Text.nl ++ "nameserver 10.0.0.1" ++ Text.nl ++ "options edns0" ++ Text.nl.
Proof. reflexivity. Qed.
Example stub_only : generate_resolv_conf_from ("nameserver 127.0.0.53" ++ Text.nl) ["1.1.1.1"]
  = "# Generated by rauha" ++ Text.nl ++ "nameserver 1.1.1.1" ++ Text.nl.
Proof. reflexivity. Qed.

End Dns.
