(* ===== verification/LinuxBackend.v ===== *)
(** * The Linux backend

    [rauhad/src/backend/linux/mod.rs]: the daemon's implementation of
    [IsolationBackend] over the kernel enforcer ([LinuxEnforcer]), cgroups
    ([Cgroup]), namespaces and links ([Network]), nftables ([Nftables]) and the
    zone's shim.  [State] is the backend's struct with the generator of ids, the
    system, and two auxiliary variables the code never reads: the sequence of
    kernel map states it went through and the policies it applied in full.
    Locks are never poisoned here, and operations run one at a time. *)

From stdpp Require Import base gmap strings list sets sorting.
From Stdlib Require Import ZArith Ascii Lia.
From S2P Require Import Prelude.
From S2P Require Import RustStr.
From S2P Require Import RustText.
From S2P Require Import EnforcerApi.
From S2P Require Import Zone.
From S2P Require Import Kernel.
From S2P Require Import BpfMaps.
From S2P Require Import LinuxEnforcer.
From S2P Require Import IpAllocator.
From S2P Require Import Shim.
From S2P Require Import StateError.
From S2P Require Import Backend.
From S2P Require Import LinuxHost.
From S2P Require Import Cgroup.
From S2P Require Import Network.
From S2P Require Import Nftables.
From S2P Require Import LinuxPolicy.
From S2P Require Import Dns.
Import Zone.
Import Backend.

Module LinuxBackend.
Open Scope string_scope.

(** ** What the backend uses besides the system of [LinuxHost] *)

(** The OCI runtime specification the source builds. *)
Inductive NamespaceType := NsMount | NsUts | NsIpc | NsPid | NsCgroup | NsNetwork.

Record OciSpec := mkOciSpec {
  annotations : list (string * string);
  mounts : list LinuxPolicy.Mount;
  version : string;
  root_path : string;
  root_readonly : bool;
  args : list string;
  env_vars : list string;
  cwd : string;
  terminal : bool;
  oci_caps : LinuxPolicy.LinuxCapabilities;
  no_new_privileges : bool;
  namespaces : list (NamespaceType * option string);
  oci_devs : list LinuxPolicy.LinuxDevice;
  seccomp : option LinuxPolicy.LinuxSeccomp;
  hostname : string }.

(** Sockets, the shim process, the snapshotter, and the walk of a file system at
    a moment; serialisation and the parameters of [LinuxPolicy]. *)
Class Daemon (E : Type) := {
  connect : string -> E -> result unit string * E;
  send : string -> list Z -> E -> result unit string * E;
  read_stream : string -> E -> list Z * E;
  current_exe : E -> option string * E;
  make_private_dir : string -> E -> unit * E;
  spawn_shim : string -> list (string * string) -> list string -> E -> result unit string * E;
  mount_overlay : string -> string -> list string -> string -> E -> result string RauhaError * E;
  snapshotter_copy : string -> string -> E -> result unit string * E;
  rootfs_view : E -> BpfHost * E;
  to_allocvec : ShimRequest -> result (list Z) string;
  from_bytes : list Z -> result ShimResponse string;
  shim_io_text : Shim.ShimIoError (E := string) -> string;
  debug_response : ShimResponse -> string;
  spec_json : OciSpec -> result string string;
  default_mounts : list LinuxPolicy.Mount;
  parse_capability : string -> option string;
  debug_str : string -> string;
  seconds_of_usec : Z -> string;
  sha256 : string -> list Z;
  project_root : string }.

(** [Uuid::new_v4]: [drawn] are the ids drawn so far; a new one is fresh. *)
Class Rng (R : Type) := {
  new_v4 : R -> string * R;
  drawn : R -> gset string }.
Class RngLaws (R : Type) `{!Rng R} := {
  new_v4_fresh : forall r u r', new_v4 r = (u, r') -> u ∉ drawn r /\ drawn r' = {[u]} ∪ drawn r }.

(** The parts of the daemon's configuration the backend reads. *)
Record Config := mkConf {
  root : string; run_dir : string; netns_dir : string; bridge : string; subnet_text : string;
  dns_fallback : list string; safe_writable_roots : list string; crun : string;
  container_log_max_bytes : Z; cache_max_tasks : Z; judge_threads : Z; handoff_timeout_ms : Z }.

Section LinuxBackend.
Context {E R : Type} `{!Host.LinuxHost E, !Daemon E, !Rng R} `{K : BpfHost}.
Context (config : Config).

(** [next_zone_id] counts the allocations from 1; the code's atomic holds it
    modulo 2^32. *)
Record State := mkState {
  enforcer : Linux.LinuxEnforcer;
  next_zone_id : Z;
  zone_id_map : gmap string Z;
  zone_name_map : gmap string string;
  registered_inodes : gmap string (list Z);
  zone_policies : gmap string ZonePolicy;
  zone_degradations : gmap string (gset string);
  ip_allocator : Ip.IpAllocator;
  rng : R;
  env : E;
  history : list (gmap string Z * option Ebpf);
  applied : gmap string ZonePolicy }.

Notation M := (M State RauhaError).

Definition set_enforcer x s := mkState x (next_zone_id s) (zone_id_map s) (zone_name_map s)
  (registered_inodes s) (zone_policies s) (zone_degradations s) (ip_allocator s) (rng s) (env s)
  ((zone_id_map s, Linux.ebpf x) :: history s) (applied s).
(** A zone whose kernel id changes has no policy known to be applied. *)
Definition set_ids n x u s := mkState (enforcer s) n x (zone_name_map s)
  (registered_inodes s) (zone_policies s) (zone_degradations s) (ip_allocator s) (rng s) (env s)
  (history s) (base.delete u (applied s)).
Definition set_names x s := mkState (enforcer s) (next_zone_id s) (zone_id_map s) x
  (registered_inodes s) (zone_policies s) (zone_degradations s) (ip_allocator s) (rng s) (env s)
  (history s) (applied s).
Definition set_inodes x s := mkState (enforcer s) (next_zone_id s) (zone_id_map s) (zone_name_map s)
  x (zone_policies s) (zone_degradations s) (ip_allocator s) (rng s) (env s) (history s) (applied s).
Definition set_policies x s := mkState (enforcer s) (next_zone_id s) (zone_id_map s) (zone_name_map s)
  (registered_inodes s) x (zone_degradations s) (ip_allocator s) (rng s) (env s) (history s) (applied s).
Definition set_degradations x s := mkState (enforcer s) (next_zone_id s) (zone_id_map s) (zone_name_map s)
  (registered_inodes s) (zone_policies s) x (ip_allocator s) (rng s) (env s) (history s) (applied s).
Definition set_allocator x s := mkState (enforcer s) (next_zone_id s) (zone_id_map s) (zone_name_map s)
  (registered_inodes s) (zone_policies s) (zone_degradations s) x (rng s) (env s) (history s) (applied s).
Definition set_rng x s := mkState (enforcer s) (next_zone_id s) (zone_id_map s) (zone_name_map s)
  (registered_inodes s) (zone_policies s) (zone_degradations s) (ip_allocator s) x (env s) (history s) (applied s).
Definition set_env x s := mkState (enforcer s) (next_zone_id s) (zone_id_map s) (zone_name_map s)
  (registered_inodes s) (zone_policies s) (zone_degradations s) (ip_allocator s) (rng s) x (history s) (applied s).
Definition set_applied x s := mkState (enforcer s) (next_zone_id s) (zone_id_map s) (zone_name_map s)
  (registered_inodes s) (zone_policies s) (zone_degradations s) (ip_allocator s) (rng s) (env s) (history s) x.

(** Calls of the layers below. *)
Definition io {A} (c : Host.IO (E := E) A) : M A := fun s =>
  let '(r, e) := c (env s) in (r, set_env e s).
Definition os {A} (f : E -> A * E) : M A := io (Host.os f).
Definition os_try {A X} (f : E -> result A X * E) (err : X -> RauhaError) : M A := io (Host.os_try f err).
Definition bpf {A} (f : Linux.LinuxEnforcer -> result A RauhaError * Linux.LinuxEnforcer) : M A := fun s =>
  let '(r, x) := f (enforcer s) in (r, set_enforcer x s).
Definition alloc {A} (f : Ip.IpAllocator -> result A RauhaError * Ip.IpAllocator) : M A := fun s =>
  let '(r, a) := f (ip_allocator s) in (r, set_allocator a s).
Definition uuid : M string := fun s => let '(u, r) := new_v4 (rng s) in (Ok u, set_rng r s).

Definition release_ip (ip : list Z) : M unit := modify (fun s => set_allocator (Ip.release (ip_allocator s) ip) s).

(** ** Ids *)

(** [next_zone_id.fetch_add(1)]. *)
Definition allocate_zone_id (u : string) : M Z := fun s =>
  let id := wrap 32 (next_zone_id s) in
  (Ok id, set_ids (next_zone_id s + 1) (<[u := id]> (zone_id_map s)) u s).
Definition get_zone_id (u : string) : M (option Z) := gets (fun s => zone_id_map s !! u).
Definition remove_zone_id (u : string) : M (option Z) := fun s =>
  (Ok (zone_id_map s !! u), set_ids (next_zone_id s) (base.delete u (zone_id_map s)) u s).

(** ** The shim *)

Definition shim_socket_path (zone_name : string) : string :=
  Shim.join_path (run_dir config) ("shim-" ++ zone_name ++ ".sock").

(** [ShimConnection::send_request]. *)
Definition send_request (socket_path : string) (request : ShimRequest) : M ShimResponse :=
  do _ <- os_try (connect socket_path) (fun e => ShimError socket_path ("failed to connect to shim: " ++ e));
  do buf <- of_result (map_err (fun e => ShimError socket_path
                         ("failed to send request: shim encode error: " ++ e)) (Shim.encode to_allocvec request));
  do _ <- os_try (send socket_path buf)
            (fun e => ShimError socket_path ("failed to send request: shim I/O error: " ++ e));
  do stream <- os (read_stream socket_path);
  match Shim.decode_from from_bytes stream with
  | Ok (response, _) => ret response
  | Err e => fail (ShimError socket_path ("failed to read response: " ++ shim_io_text e))
  end.

Definition shim_request (zone_name : string) (request : ShimRequest) : M ShimResponse :=
  send_request (shim_socket_path zone_name) request.

Fixpoint first_existing (candidates : list string) : M (option string) :=
  match candidates with
  | [] => ret None
  | c :: rest => do there <- os (Host.path_exists c); if there : bool then ret (Some c) else first_existing rest
  end.

Definition find_shim_binary : M string :=
  do exe <- os current_exe;
  let beside := match exe with Some p => [Shim.join_path (LinuxPolicy.path_parent p) "rauha-shim"] | None => [] end in
  do found <- first_existing
    (beside ++ [Shim.join_path project_root "target/debug/rauha-shim";
                Shim.join_path project_root "target/release/rauha-shim";
                "/usr/local/bin/rauha-shim"; "/usr/bin/rauha-shim"])%list;
  or_fail found (ShimError "" "rauha-shim binary not found").

(** Waiting for the socket: at most [rounds] sleeps of 100 ms. *)
Fixpoint await_socket (rounds : nat) (socket_path : string) : M unit :=
  match rounds with
  | O => ret tt
  | S n =>
      do there <- os (Host.path_exists socket_path);
      if there : bool then ret tt
      else do _ <- os (Host.sleep_ms 100); await_socket n socket_path
  end.

Definition shim_env : list (string * string) :=
  [("RAUHA_RUN_DIR", run_dir config); ("RAUHA_CRUN", crun config);
   ("RAUHA_LOG_MAX_BYTES", Str.show (container_log_max_bytes config));
   ("RAUHA_BROKER_CACHE_MAX", Str.show (cache_max_tasks config));
   ("RAUHA_BROKER_JUDGE_THREADS", Str.show (judge_threads config));
   ("RAUHA_BROKER_HANDOFF_TIMEOUT_MS", Str.show (handoff_timeout_ms config))].

Definition zone_dir (zone_name : string) : string :=
  Shim.join_path (Shim.join_path (root config) "zones") zone_name.

Definition ensure_shim (zone_name : string) : M unit :=
  let socket_path := shim_socket_path zone_name in
  do there <- os (Host.path_exists socket_path);
  do alive <- (if there : bool then
                 do r <- attempt (shim_request zone_name GetStats); ret (is_ok r)
               else ret false);
  if alive : bool then ret tt
  else
    do stale <- os (Host.path_exists socket_path);
    do _ <- (if stale : bool then do _ <- os (Host.remove_file socket_path); ret tt else ret tt);
    let rootfs_root := zone_dir zone_name in
    do _ <- os_try (Host.create_dir_all rootfs_root)
              (fun e => ShimError zone_name ("failed to create zone dir: " ++ e));
    do _ <- os (make_private_dir (run_dir config));
    do shim_bin <- find_shim_binary;
    do _ <- os_try (spawn_shim shim_bin shim_env
                      ["--zone-name"; zone_name; "--socket"; socket_path; "--rootfs-root"; rootfs_root])
              (fun e => ShimError zone_name ("failed to spawn shim: " ++ e));
    do _ <- await_socket 50 socket_path;
    do there <- os (Host.path_exists socket_path);
    if negb there then fail (ShimError zone_name "shim socket did not appear after spawn") else ret tt.

(** ** Degradations and network rules *)

Definition record_degradation (zone_name control : string) : M unit :=
  modify (fun s => set_degradations
    (<[zone_name := {[control]} ∪ default ∅ (zone_degradations s !! zone_name)]> (zone_degradations s)) s).
Definition clear_degradation (zone_name control : string) : M unit :=
  modify (fun s => set_degradations (alter (fun d => d ∖ {[control]}) zone_name (zone_degradations s)) s).

(** A step whose failure is fatal under strict admission and recorded under
    audit admission. *)
Definition tolerate (zone_name control : string) (policy : ZonePolicy) (e : RauhaError) : M unit :=
  match admission policy with
  | Strict => fail e
  | Audit => record_degradation zone_name control
  end.

Definition veth_host_name_for (zone_name : string) : M string := io (Network.veth_host_name_for sha256 zone_name).

Definition apply_nftables_for_zone (zone : ZoneHandle) (policy : ZonePolicy) : M unit :=
  do veth_name <- veth_host_name_for (h_name zone);
  do r <- attempt (io (Nftables.apply_zone_rules debug_str sha256 (h_name zone) veth_name (network policy)));
  match r with
  | Ok _ => clear_degradation (h_name zone) "network:nftables"
  | Err e => tolerate (h_name zone) "network:nftables" policy e
  end.

(** ** Rootfs inodes *)

Definition containers_dir (zone_name : string) : string := Shim.join_path (zone_dir zone_name) "containers".

(** [maps::collect_rootfs_inodes]; the walk always ends
    ([collect_rootfs_terminates]). *)
Definition collect_rootfs_inodes (rootfs : string) (max_inodes : Z) : M (list Z) :=
  do view <- os rootfs_view;
  match MapManager.collect_rootfs_inodes (H := view) rootfs max_inodes with
  | Some r => of_result r
  | None => fail (Other "the walk did not end")
  end.

Fixpoint collect_containers (containers : string) (entries : list (result string string)) (inodes : gset Z)
  : M (gset Z) :=
  match entries with
  | [] => ret inodes
  | Err e :: _ => fail (RootfsError ("failed to enumerate " ++ containers ++ ": " ++ e))
  | Ok name :: rest =>
      let container := Shim.join_path containers name in
      let merged := Shim.join_path container "merged" in
      let legacy := Shim.join_path container "rootfs" in
      do is_merged <- os (Host.is_dir merged);
      do is_legacy <- (if is_merged : bool then ret false else os (Host.is_dir legacy));
      if negb (is_merged || is_legacy) then collect_containers containers rest inodes
      else
        let rootfs := if is_merged : bool then merged else legacy in
        let remaining := saturating_sub Kernel.MAX_INODES (wrap 32 (Z.of_nat (size inodes))) in
        if (remaining =? 0)%Z
        then fail (RootfsError ("zone rootfs inode count exceeds enforcement capacity of " ++ Str.show Kernel.MAX_INODES))
        else
          do found <- collect_rootfs_inodes rootfs remaining;
          collect_containers containers rest (inodes ∪ list_to_set found)
  end.

(** The set as the sorted list of a [BTreeSet]. *)
Definition sorted (s : gset Z) : list Z := merge_sort Z.le (elements s).

Definition collect_zone_rootfs_inodes (zone_name : string) : M (list Z) :=
  let containers := containers_dir zone_name in
  do there <- os (Host.path_exists containers);
  if negb there then ret []
  else
    do entries <- os_try (Host.read_dir containers)
                    (fun e => RootfsError ("failed to enumerate " ++ containers ++ ": " ++ e));
    do inodes <- collect_containers containers entries ∅;
    ret (sorted inodes).

Definition count_text (n : nat) : string := Str.show (Z.of_nat n).

Definition restore_rootfs_inodes (zone_name : string) (zone_id : Z) : M unit :=
  do expected <- collect_zone_rootfs_inodes zone_name;
  do live <- (match expected with [] => io (Cgroup.zone_has_processes zone_name) | _ => ret false end);
  if live : bool then fail (BackendError "live recovered zone has no discoverable rootfs inodes")
  else
    do inserted <- bpf (Linux.insert_inodes expected zone_id);
    do _ <- modify (fun s => set_inodes (<[zone_name := inserted]> (registered_inodes s)) s);
    if negb (Nat.eqb (length inserted) (length expected))
    then fail (BackendError ("rootfs inode recovery incomplete: registered " ++ count_text (length inserted)
                ++ " of " ++ count_text (length expected)))
    else ret tt.

(** ** Permissions between zones *)

(** The kernel ids of the allowed zones the backend knows. *)
Definition allowed_peers (net_policy : NetworkPolicy) (s : State) : gset Z :=
  list_to_set (omap (fun name => u ← zone_name_map s !! name; zone_id_map s !! u) (allowed_zones net_policy)).

Definition sync_bpf_allowed_comms (zone_id : Z) (net_policy : NetworkPolicy) : M unit :=
  do allowed_peer_ids <- gets (allowed_peers net_policy);
  do zone_ids <- gets (fun s => (map_to_list (zone_id_map s)).*2);
  do _ <- for_each (fun peer_zone_id =>
            if (peer_zone_id =? zone_id)%Z then ret tt
            else if bool_decide (peer_zone_id ∈ allowed_peer_ids) then ret tt
            else
              do _ <- bpf (Linux.deny_zone_comm zone_id peer_zone_id);
              bpf (Linux.deny_zone_comm peer_zone_id zone_id)) zone_ids;
  for_each (fun peer_zone_id =>
      do _ <- bpf (Linux.allow_zone_comm zone_id peer_zone_id);
      bpf (Linux.allow_zone_comm peer_zone_id zone_id)) (elements allowed_peer_ids).

(** ** Admission *)

Definition skipped_hooks (s : State) : list string :=
  match Linux.ebpf (enforcer s) with Some e => BpfMaps.skipped_hooks e | None => [] end.

Definition admit_policy (policy : ZonePolicy) : M unit := fun s =>
  (LinuxPolicy.admit_linux_policy policy (skipped_hooks s) (safe_writable_roots config), s).

Definition apply_resources (zone_name : string) (resources : ResourcePolicy) : M unit :=
  io (Cgroup.apply_resources zone_name resources).

(** ** Creating and destroying zones *)

Definition rollback_zone (name u : string) (net_state : option ZoneNetworkState) : M unit :=
  do _ <- (match net_state with Some n => release_ip (Backend.ip n) | None => ret tt end);
  do _ <- attempt (io (Network.destroy_veth_pair sha256 name));
  do _ <- attempt (io (Network.destroy_netns name (netns_dir config)));
  do _ <- attempt (io (Cgroup.destroy_zone_cgroup name));
  do _ <- remove_zone_id u;
  do _ <- modify (fun s => set_names (base.delete name (zone_name_map s)) s);
  modify (fun s => set_degradations (base.delete name (zone_degradations s)) s).

(** Run a step; when it fails, undo and fail with its error. *)
Definition or_undo {A} (c : M A) (undo : M unit) : M A :=
  do r <- attempt c;
  match r with
  | Ok a => ret a
  | Err e => do _ <- undo; fail e
  end.

Definition allocate_ip : M ZoneNetworkState :=
  do ip <- alloc Ip.allocate;
  gets (fun s => mkNetState ip (Ip.gateway (ip_allocator s)) (Ip.prefix_len (ip_allocator s))).

(** The namespace and the link of a zone that is not in host mode. *)
Definition create_network (cf : ZoneConfig) (u : string) : M ZoneNetworkState :=
  let name := cf_name cf in
  do ip_state <- or_undo allocate_ip (rollback_zone name u None);
  do _ <- or_undo (io (Network.create_netns name (netns_dir config))) (rollback_zone name u (Some ip_state));
  do veth <- attempt (io (Network.create_veth_pair sha256 name (Some ip_state) (bridge config)));
  match veth with
  | Ok _ => ret ip_state
  | Err e =>
      do _ <- or_undo (tolerate name "network:veth" (cf_policy cf) e) (rollback_zone name u (Some ip_state));
      ret ip_state
  end.

Definition create_zone (cf : ZoneConfig) : M ZoneHandle :=
  let name := cf_name cf in
  do _ <- admit_policy (cf_policy cf);
  do zone_uuid <- uuid;
  do zone_id <- allocate_zone_id zone_uuid;
  do _ <- modify (fun s => set_names (<[name := zone_uuid]> (zone_name_map s)) s);
  do cgroup_id <- or_undo (io (Cgroup.create_zone_cgroup name)) (void (remove_zone_id zone_uuid));
  do net_state <- (if bool_decide (mode (network (cf_policy cf)) = Host) then ret None
                   else do n <- create_network cf zone_uuid; ret (Some n));
  do _ <- or_undo (bpf (Linux.set_zone_policy zone_id (cf_policy cf))) (rollback_zone name zone_uuid net_state);
  do _ <- or_undo (bpf (Linux.add_zone_member cgroup_id zone_id (cf_zone_type cf)))
            (do _ <- attempt (bpf (Linux.remove_zone_policy zone_id)); rollback_zone name zone_uuid net_state);
  do _ <- or_undo (apply_resources name (resources (cf_policy cf)))
            (do found <- get_zone_id zone_uuid;
             do _ <- (match found with
                      | Some zone_id =>
                          do _ <- attempt (bpf (Linux.remove_zone_member cgroup_id));
                          do _ <- attempt (bpf (Linux.remove_zone_policy zone_id));
                          ret tt
                      | None => ret tt
                      end);
             rollback_zone name zone_uuid net_state);
  ret (mkHandle zone_uuid name cgroup_id net_state).

Definition destroy_zone (zone : ZoneHandle) : M unit :=
  let name := h_name zone in
  do there <- os (Host.path_exists (shim_socket_path name));
  do _ <- (if there : bool then do _ <- attempt (shim_request name Shutdown); ret tt else ret tt);
  do _ <- io (Cgroup.drain_zone name);
  do _ <- io (Cgroup.destroy_zone_cgroup name);
  do zone_id <- remove_zone_id (h_id zone);
  do stored_inodes <- gets (fun s => default [] (registered_inodes s !! name));
  do _ <- modify (fun s => set_inodes (base.delete name (registered_inodes s)) s);
  do _ <- (match zone_id with
           | Some zone_id =>
               do _ <- (match stored_inodes with
                        | [] => ret tt
                        | _ => do _ <- attempt (bpf (Linux.remove_inodes stored_inodes)); ret tt
                        end);
               do _ <- attempt (bpf (Linux.remove_zone_member (h_platform_id zone)));
               do _ <- attempt (bpf (Linux.remove_zone_policy zone_id));
               ret tt
           | None => ret tt
           end);
  do _ <- (match h_network_state zone with Some n => release_ip (Backend.ip n) | None => ret tt end);
  do _ <- attempt (io (Nftables.remove_zone_rules name));
  do _ <- attempt (io (Network.destroy_veth_pair sha256 name));
  do _ <- attempt (io (Network.destroy_netns name (netns_dir config)));
  do _ <- modify (fun s => set_names (base.delete name (zone_name_map s)) s);
  do _ <- modify (fun s => set_policies (base.delete name (zone_policies s)) s);
  do _ <- modify (fun s => set_degradations (base.delete name (zone_degradations s)) s);
  do _ <- os (Host.remove_file (shim_socket_path name));
  ret tt.

(** ** Policies *)

Definition kernel_id_of (zone : ZoneHandle) : M Z :=
  do found <- get_zone_id (h_id zone);
  or_fail found (BackendError ("zone " ++ h_name zone ++ " has no kernel identifier")).

Definition remember_policy (zone : ZoneHandle) (policy : ZonePolicy) : M unit :=
  do _ <- modify (fun s => set_policies (<[h_name zone := policy]> (zone_policies s)) s);
  modify (fun s => set_applied (<[h_id zone := policy]> (applied s)) s).

(** Until it is applied in full, no policy of the zone is known to be. *)
Definition forget_applied (zone : ZoneHandle) : M unit :=
  modify (fun s => set_applied (base.delete (h_id zone) (applied s)) s).

Definition enforce_policy (zone : ZoneHandle) (policy : ZonePolicy) : M unit :=
  do _ <- admit_policy policy;
  do zone_id <- kernel_id_of zone;
  do enforcement <- of_result (to_enforcement policy);
  do _ <- forget_applied zone;
  do _ <- bpf (Linux.apply_zone_enforcement zone_id enforcement);
  do _ <- sync_bpf_allowed_comms zone_id (network policy);
  do _ <- apply_nftables_for_zone zone policy;
  do _ <- apply_resources (h_name zone) (resources policy);
  remember_policy zone policy.

(** The update of a reload, and the restoration after a rejected one. *)
Definition reload_steps (zone : ZoneHandle) (zone_id : Z) (policy : ZonePolicy) : M unit :=
  do _ <- bpf (Linux.hot_reload_policy zone_id policy);
  do _ <- sync_bpf_allowed_comms zone_id (network policy);
  do _ <- apply_nftables_for_zone zone policy;
  apply_resources (h_name zone) (resources policy).

Definition restore_steps (zone : ZoneHandle) (zone_id : Z) (previous : ZonePolicy) : M unit :=
  do _ <- attempt (bpf (Linux.hot_reload_policy zone_id previous));
  do _ <- attempt (sync_bpf_allowed_comms zone_id (network previous));
  do _ <- attempt (apply_nftables_for_zone zone previous);
  do _ <- attempt (apply_resources (h_name zone) (resources previous));
  ret tt.

Definition hot_reload_policy (zone : ZoneHandle) (policy : ZonePolicy) : M unit :=
  do _ <- admit_policy policy;
  do recorded <- gets (fun s => zone_policies s !! h_name zone);
  do previous <- or_fail recorded (BackendError ("zone " ++ h_name zone ++ " has no policy to reload"));
  do zone_id <- kernel_id_of zone;
  do _ <- forget_applied zone;
  do _ <- or_undo (reload_steps zone zone_id policy) (restore_steps zone zone_id previous);
  remember_policy zone policy.

(** ** Recovery *)

(** What a recovery has done so far, for its rollback. *)
Record Progress := mkProgress {
  recovered_cgroup_id : option Z; ip_marked : bool; membership_installed : bool }.

(** A step of the recovery; a failure ends it with the progress made. *)
Definition step {A} (p : Progress) (c : M A) (k : A -> M (Progress * result unit RauhaError))
  : M (Progress * result unit RauhaError) :=
  do r <- attempt c;
  match r with
  | Ok a => k a
  | Err e => ret (p, Err e)
  end.

Definition recover_ip (zone : ZoneHandle) (policy : ZonePolicy) (n : ZoneNetworkState) : M unit :=
  do in_subnet <- gets (fun s => Ip.contains (ip_allocator s) (Backend.ip n));
  if negb in_subnet
  then tolerate (h_name zone) "network:ip_out_of_subnet" policy
         (BackendError ("zone IP " ++ Text.show_ipv4 (Backend.ip n) ++ " is outside the configured subnet "
            ++ subnet_text config ++ " — the [network] subnet changed after this zone was created"))
  else modify (fun s => set_allocator (Ip.mark_allocated (ip_allocator s) (Backend.ip n)) s).

(** [match c { Ok => clear, Err if strict => return, Err => record }]. *)
Definition restore_control (zone_name control : string) (policy : ZonePolicy) (c : M unit) : M unit :=
  do r <- attempt c;
  match r with
  | Ok _ => clear_degradation zone_name control
  | Err e => tolerate zone_name control policy e
  end.

Definition recover_network (zone : ZoneHandle) (policy : ZonePolicy) : M unit :=
  let name := h_name zone in
  if bool_decide (mode (network policy) = Host) then ret tt
  else
    do there <- io (Network.netns_exists name (netns_dir config));
    do _ <- (if negb there
             then restore_control name "netns" policy (io (Network.create_netns name (netns_dir config)))
             else ret tt);
    do there <- io (Network.netns_exists name (netns_dir config));
    do linked <- (if there : bool then io (Network.veth_exists sha256 name) else ret true);
    if negb linked
    then restore_control name "network:veth" policy
           (io (Network.create_veth_pair sha256 name (h_network_state zone) (bridge config)))
    else ret tt.

Definition recover_inodes (zone : ZoneHandle) (zone_id : Z) (policy : ZonePolicy) : M unit :=
  do r <- attempt (restore_rootfs_inodes (h_name zone) zone_id);
  match r with
  | Ok _ => ret tt
  | Err e => tolerate (h_name zone) "filesystem:inode_ownership" policy e
  end.

Definition recovery (zone : ZoneHandle) (zone_type : ZoneType) (policy : ZonePolicy) (zone_id : Z)
  : M (Progress * result unit RauhaError) :=
  let name := h_name zone in
  let p := mkProgress None false false in
  step p (modify (fun s => set_names (<[name := h_id zone]> (zone_name_map s)) s)) (fun _ =>
  step p (do there <- io (Cgroup.zone_cgroup_exists name);
          if there : bool then io (Cgroup.cgroup_id_for_zone name) else io (Cgroup.create_zone_cgroup name))
    (fun cgroup_id =>
  let p := mkProgress (Some cgroup_id) false false in
  step p (apply_resources name (resources policy)) (fun _ =>
  step p (match h_network_state zone with Some n => recover_ip zone policy n | None => ret tt end) (fun _ =>
  let p := mkProgress (Some cgroup_id) (bool_decide (is_Some (h_network_state zone))) false in
  step p (recover_network zone policy) (fun _ =>
  step p (bpf (Linux.set_zone_policy zone_id policy)) (fun _ =>
  step p (bpf (Linux.add_zone_member cgroup_id zone_id zone_type)) (fun _ =>
  let p := mkProgress (Some cgroup_id) (ip_marked p) true in
  step p (recover_inodes zone zone_id policy) (fun _ =>
  step p (sync_bpf_allowed_comms zone_id (network policy)) (fun _ =>
  step p (apply_nftables_for_zone zone policy) (fun _ =>
  step p (remember_policy zone policy) (fun _ => ret (p, Ok tt)))))))))))).

Definition undo_recovery (zone : ZoneHandle) (zone_id : Z) (p : Progress) : M unit :=
  let name := h_name zone in
  do _ <- (match recovered_cgroup_id p with
           | Some cgroup_id => do _ <- attempt (bpf (Linux.remove_zone_member cgroup_id)); ret tt
           | None => ret tt
           end);
  do registered <- gets (fun s => registered_inodes s !! name);
  do _ <- modify (fun s => set_inodes (base.delete name (registered_inodes s)) s);
  do _ <- (match registered with
           | Some inodes => do _ <- attempt (bpf (Linux.remove_inodes inodes)); ret tt
           | None => ret tt
           end);
  do _ <- attempt (sync_bpf_allowed_comms zone_id NetworkPolicy_default);
  do _ <- attempt (bpf (Linux.remove_zone_policy zone_id));
  do _ <- attempt (io (Nftables.remove_zone_rules name));
  do _ <- (match h_network_state zone with
           | Some n => if ip_marked p then release_ip (Backend.ip n) else ret tt
           | None => ret tt
           end);
  do _ <- remove_zone_id (h_id zone);
  do _ <- modify (fun s => set_names (base.delete name (zone_name_map s)) s);
  do _ <- modify (fun s => set_policies (base.delete name (zone_policies s)) s);
  modify (fun s => set_degradations (base.delete name (zone_degradations s)) s).

(** A failed recovery drains the live workloads of an enrolled cgroup before it
    rolls back; if that fails, enforcement stays. *)
Definition drain_before_undo (zone : ZoneHandle) (p : Progress) : M (result unit RauhaError) :=
  do live <- (if membership_installed p then
                do r <- attempt (io (Cgroup.zone_has_processes (h_name zone)));
                ret (match r with Ok b => b | Err _ => true end)
              else ret false);
  if live : bool then attempt (io (Cgroup.drain_zone (h_name zone))) else ret (Ok tt).

Definition recover_zone (zone : ZoneHandle) (zone_type : ZoneType) (policy : ZonePolicy) : M unit :=
  do _ <- admit_policy policy;
  do zone_id <- allocate_zone_id (h_id zone);
  do pr <- recovery zone zone_type policy zone_id;
  match snd pr with
  | Ok _ => ret tt
  | Err e =>
      do drained <- drain_before_undo zone (fst pr);
      match drained with
      | Err drain_error =>
          fail (BackendError ("zone recovery failed: " ++ Linux.display e ++ "; fail-closed drain failed: "
                  ++ Linux.display drain_error))
      | Ok _ => do _ <- undo_recovery zone zone_id (fst pr); fail e
      end
  end.

(** ** Orphans *)

Definition entry_names (entries : result (list (result string string)) string) : list string :=
  match entries with
  | Ok es => omap (fun e => match e with Ok n => Some n | Err _ => None end) es
  | Err _ => []
  end.

(** One cgroup of the slice: the live orphans found so far. *)
Definition cleanup_cgroup (known : gset string) (live_orphans : gset string) (entry : string) : M (gset string) :=
  match Str.strip_prefix "zone-" entry with
  | None => ret live_orphans
  | Some zone_name =>
      if bool_decide (zone_name ∈ known) then ret live_orphans
      else
        do r <- attempt (io (Cgroup.zone_has_processes zone_name));
        if match r with Ok b => b | Err _ => true end then ret ({[zone_name]} ∪ live_orphans)
        else
          do id <- attempt (io (Cgroup.cgroup_id_for_zone zone_name));
          do _ <- (match id with
                   | Ok cgroup_id => do _ <- attempt (bpf (Linux.remove_zone_member cgroup_id)); ret tt
                   | Err _ => ret tt
                   end);
          do _ <- attempt (io (Cgroup.destroy_zone_cgroup zone_name));
          ret live_orphans
  end.

Fixpoint cleanup_cgroups (known live_orphans : gset string) (entries : list string) : M (gset string) :=
  match entries with
  | [] => ret live_orphans
  | entry :: rest => do live <- cleanup_cgroup known live_orphans entry; cleanup_cgroups known live rest
  end.

Definition cleanup_netns (known live_orphans : gset string) (entry : string) : M unit :=
  match Str.strip_prefix "rauha-" entry with
  | None => ret tt
  | Some zone_name =>
      if bool_decide (zone_name ∈ known) || bool_decide (zone_name ∈ live_orphans) then ret tt
      else do _ <- attempt (io (Network.destroy_netns zone_name (netns_dir config))); ret tt
  end.

Definition list_dir (dir : string) : M (list string) :=
  do there <- os (Host.path_exists dir);
  if there : bool then do entries <- os (Host.read_dir dir); ret (entry_names entries) else ret [].

Definition cleanup_orphans (known_zones : list ZoneHandle) : M unit :=
  let known : gset string := list_to_set (map h_name known_zones) in
  do cgroups <- list_dir "/sys/fs/cgroup/rauha.slice";
  do live_orphans <- cleanup_cgroups known ∅ cgroups;
  do spaces <- list_dir (netns_dir config);
  for_each (cleanup_netns known live_orphans) spaces.

(** ** Containers *)

Definition join := Shim.join_path.

(** Symbolic links are copied as links.  A path of more than 4096 bytes cannot be
    created, and every level adds at least two, so the depth is enough. *)
Definition PATH_DEPTH : nat := 2048.

Fixpoint copy_dir_recursive (depth : nat) (src dst : string) : M unit :=
  match depth with
  | O => fail (RootfsError ("failed to create dir " ++ dst ++ ": File name too long (os error 36)"))
  | S depth =>
      do _ <- os_try (Host.create_dir_all dst) (fun e => RootfsError ("failed to create dir " ++ dst ++ ": " ++ e));
      do entries <- os_try (Host.read_dir src) (fun e => RootfsError ("failed to read dir " ++ src ++ ": " ++ e));
      do _ <- for_each (fun entry =>
        do name <- of_result (map_err (fun e => RootfsError ("failed to read entry: " ++ e)) entry);
        let src_path := join src name in
        let dst_path := join dst name in
        do kind <- os_try (Host.lstat_kind src_path) (fun e => RootfsError ("failed to stat " ++ src_path ++ ": " ++ e));
        match kind with
        | Host.Symlink =>
            do link_target <- os_try (Host.read_link src_path)
                                (fun e => RootfsError ("failed to read symlink " ++ src_path ++ ": " ++ e));
            os_try (Host.symlink link_target dst_path)
              (fun e => RootfsError ("failed to create symlink " ++ dst_path ++ " → " ++ link_target ++ ": " ++ e))
        | Host.Directory => copy_dir_recursive depth src_path dst_path
        | Host.Regular =>
            os_try (Host.copy_file src_path dst_path)
              (fun e => RootfsError ("failed to copy " ++ src_path ++ " → " ++ dst_path ++ ": " ++ e))
        end) entries;
      do _ <- os (Host.copy_permissions src dst);
      ret tt
  end.

Definition prepare_container_rootfs (zone : ZoneHandle) (spec : ContainerSpec) (container_id container_dir : string)
  : M string :=
  match sp_overlay_layers spec with
  | Some layers => os_try (mount_overlay (zone_dir (h_name zone)) container_id layers container_dir) id
  | None =>
      let rootfs_dir := join container_dir "rootfs" in
      match sp_rootfs_path spec with
      | Some base_rootfs => do _ <- copy_dir_recursive PATH_DEPTH base_rootfs rootfs_dir; ret rootfs_dir
      | None =>
          do _ <- os_try (Host.create_dir_all rootfs_dir)
                    (fun e => RootfsError ("failed to create rootfs dir: " ++ e));
          ret rootfs_dir
      end
  end.

(** Failures are logged: the container then resolves names with what its image has. *)
Definition write_resolv_conf (rootfs_dir : string) : M unit :=
  do _ <- os (Host.create_dir_all (join rootfs_dir "etc"));
  do host <- os (Host.read_to_string "/etc/resolv.conf");
  let content := match host with Ok c => c | Err _ => "" end in
  do _ <- os (Host.write_file (join (join rootfs_dir "etc") "resolv.conf")
                (Dns.generate_resolv_conf_from content (dns_fallback config)));
  ret tt.

Definition container_namespaces (zone : ZoneHandle) (policy : ZonePolicy) : list (NamespaceType * option string) :=
  ([(NsMount, None); (NsUts, None); (NsIpc, None); (NsPid, None); (NsCgroup, None)]
   ++ if bool_decide (mode (network policy) = Host) then []
      else [(NsNetwork, Some (Network.netns_path (h_name zone) (netns_dir config)))])%list.

Definition runtime_spec (zone : ZoneHandle) (policy : ZonePolicy) (spec : ContainerSpec) (rootfs_dir : string)
    (caps : LinuxPolicy.LinuxCapabilities) (profile : option LinuxPolicy.LinuxSeccomp)
    (all_mounts : list LinuxPolicy.Mount) : OciSpec :=
  mkOciSpec [("run.oci.seccomp_fail_unknown_syscall", "1")] all_mounts "1.0.2" rootfs_dir true
    (match sp_command spec with [] => ["/bin/sh"] | command => command end)
    (map (fun kv => (fst kv ++ "=" ++ snd kv)%string) (sp_env spec)
     ++ ["PATH=/usr/local/sbin:/usr/local/bin:/usr/sbin:/usr/bin:/sbin:/bin"])%list
    (default "/" (sp_working_dir spec)) false caps true (container_namespaces zone policy)
    (LinuxPolicy.oci_devices policy) profile (sp_name spec).

Definition broker_socket (container_id : string) : string :=
  join (run_dir config) ("broker-" ++ container_id ++ ".sock").

Definition build_spec (zone : ZoneHandle) (policy : ZonePolicy) (spec : ContainerSpec)
    (container_id rootfs_dir : string) (caps : LinuxPolicy.LinuxCapabilities) : M OciSpec :=
  let listener := match broker (syscalls policy) with [] => None | _ => Some (broker_socket container_id) end in
  do profile <- of_result (LinuxPolicy.oci_seccomp policy listener);
  do all_mounts <- io (LinuxPolicy.oci_mounts default_mounts snapshotter_copy policy rootfs_dir
                         (safe_writable_roots config));
  ret (runtime_spec zone policy spec rootfs_dir caps profile all_mounts).

(** The inodes that are now owned by the zone, and how many there are. *)
Definition register_rootfs (rootfs_dir : string) (zone_id : Z) : M (list Z * nat) :=
  do inodes <- collect_rootfs_inodes rootfs_dir Kernel.MAX_INODES;
  do inserted <- bpf (Linux.insert_inodes inodes zone_id);
  ret (inserted, length inodes).

Definition register_container (zone : ZoneHandle) (policy : ZonePolicy) (rootfs_dir : string) (zone_id : Z) : M unit :=
  let name := h_name zone in
  do registration <- attempt (register_rootfs rootfs_dir zone_id);
  match registration with
  | Ok (inserted, collected) =>
      do _ <- modify (fun s => set_inodes
                (<[name := (default [] (registered_inodes s !! name) ++ inserted)%list]> (registered_inodes s)) s);
      if negb (Nat.eqb (length inserted) collected)
      then tolerate name "filesystem:inode_ownership" policy
             (BackendError ("rootfs inode enforcement incomplete: registered " ++ count_text (length inserted)
                ++ " of " ++ count_text collected))
      else ret tt
  | Err e => tolerate name "filesystem:inode_ownership" policy e
  end.

Definition created_handle (zone : ZoneHandle) (container_id : string) (response : ShimResponse)
  : result ContainerHandle RauhaError :=
  match response with
  | RCreated pid => Ok (mkCHandle container_id (h_id zone) pid 0)
  | ROk => Ok (mkCHandle container_id (h_id zone) 0 0)
  | RError message => Err (ShimError (h_name zone) message)
  | _ => Err (ShimError (h_name zone) "unexpected shim response")
  end.

Definition create_container (zone : ZoneHandle) (spec : ContainerSpec) : M ContainerHandle :=
  let name := h_name zone in
  do _ <- ensure_shim name;
  do container_id <- uuid;
  do recorded <- gets (fun s => zone_policies s !! name);
  do policy <- or_fail recorded
    (BackendError ("zone " ++ name ++ " has no admitted policy; refusing container creation"));
  do caps <- of_result (LinuxPolicy.oci_capabilities parse_capability policy);
  let container_dir := join (containers_dir name) container_id in
  do rootfs_dir <- prepare_container_rootfs zone spec container_id container_dir;
  do _ <- write_resolv_conf rootfs_dir;
  do oci <- build_spec zone policy spec container_id rootfs_dir caps;
  do json <- of_result (map_err (fun e => BackendError ("failed to serialize spec: " ++ e)) (spec_json oci));
  do found <- get_zone_id (h_id zone);
  do zone_id <- or_fail found
    (BackendError ("zone " ++ name ++ " has no kernel identifier; refusing container creation"));
  do _ <- register_container zone policy rootfs_dir zone_id;
  do response <- shim_request name (CreateContainer container_id json);
  of_result (created_handle zone container_id response).

(** Ids are unique, so at most one name matches, whatever the order. *)
Definition zone_of_container (container : ContainerHandle) : M string :=
  do names <- gets zone_name_map;
  or_fail (fst <$> List.find (fun nu => String.eqb (snd nu) (ch_zone_id container)) (map_to_list names))
    (ShimError (ch_zone_id container) "zone not found for container").

Definition start_container (container : ContainerHandle) : M Z :=
  do zone_name <- zone_of_container container;
  do response <- shim_request zone_name (StartContainer (ch_id container));
  match response with
  | RCreated pid => ret pid
  | RError message => fail (ContainerExecError (ch_id container) message)
  | other => fail (ShimError zone_name ("unexpected response to StartContainer: " ++ debug_response other))
  end.

Definition stop_container (container : ContainerHandle) : M unit :=
  do zone_name <- zone_of_container container;
  do response <- shim_request zone_name (StopContainer (ch_id container) 15);
  match response with
  | ROk => ret tt
  | RError message => fail (ContainerExecError (ch_id container) message)
  | other => fail (ShimError zone_name ("unexpected response to StopContainer: " ++ debug_response other))
  end.

Definition zone_stats (zone : ZoneHandle) : M ZoneStats :=
  io (Cgroup.read_stats seconds_of_usec (h_name zone) (h_id zone)).

(** ** Verification *)

Definition check_if (name : string) (passed : bool) (good bad : string) : IsolationCheck :=
  mkCheck name passed (if passed then good else bad).

Definition policy_checks (policy : option ZonePolicy) : bool * list IsolationCheck :=
  match policy with
  | None => (false, [mkCheck "policy:admitted" false "zone has no admitted backend policy"])
  | Some p =>
      let controls := LinuxPolicy.unsupported_linux_controls p (safe_writable_roots config) in
      (bool_decide (controls = []),
       map (fun c => mkCheck ("policy:" ++ c)%string false "requested control is unsupported by the Linux backend")
         controls)
  end.

Definition program_check (s : Linux.ProgramStatus) : IsolationCheck :=
  mkCheck ("ebpf:" ++ Linux.ps_name s) (Linux.ps_loaded s && Linux.ps_attached s)
    (if Linux.ps_loaded s && Linux.ps_attached s then "program loaded and attached"
     else if Linux.ps_loaded s then "program loaded but detached from hook — restart rauhad to re-attach"
     else "program not loaded — zone boundary not enforced").

Definition ebpf_checks (s : State) : bool * list IsolationCheck :=
  match Linux.health_check (enforcer s) with
  | Ok statuses =>
      let skipped := skipped_hooks s in
      (forallb (fun p => Linux.ps_loaded p && Linux.ps_attached p) statuses && bool_decide (skipped = []),
       (map program_check statuses
        ++ map (fun hook => mkCheck ("ebpf:" ++ hook)%string false
                              "kernel does not expose this required BPF-LSM hook") skipped)%list)
  | Err e => (false, [mkCheck "ebpf:health" false ("health check failed: " ++ Linux.display e)])
  end.

Definition membership_check (zone : ZoneHandle) (s : State) : bool * string :=
  match zone_id_map s !! h_id zone with
  | Some zone_id =>
      match Linux.zone_member_matches (h_platform_id zone) zone_id (enforcer s) with
      | Ok true => (true, "zone cgroup is registered in the BPF membership map")
      | Ok false => (false, "zone cgroup is missing or mismatched in the BPF membership map")
      | Err e => (false, "failed to read BPF membership map: " ++ Linux.display e)
      end
  | None => (false, "zone has no userspace kernel identifier")
  end.

Definition attest (plan : LinuxPolicy.InodeCheckPlan) (zone_id : Z) (s : State) : bool * string :=
  match plan with
  | LinuxPolicy.FailLive => (false, "live zone has no discoverable rootfs inode ownership")
  | LinuxPolicy.Mismatch recorded expected =>
      (false, "userspace inode ownership differs from rootfs: recorded " ++ Str.show recorded
              ++ ", expected " ++ Str.show expected)
  | LinuxPolicy.DiskError e => (false, "failed to enumerate zone rootfs: " ++ e)
  | LinuxPolicy.Attest set note =>
      let list := sorted set in
      match Linux.inodes_match list zone_id (enforcer s) with
      | Ok true => (true, count_text (length list) ++ " rootfs inodes registered" ++ note)
      | Ok false => (false, "kernel inode ownership map is incomplete or mismatched")
      | Err e => (false, "failed to verify inode ownership map: " ++ Linux.display e)
      end
  end.

Definition inode_check (zone : ZoneHandle) : M (bool * string) :=
  do found <- get_zone_id (h_id zone);
  match found with
  | Some zone_id =>
      do live <- attempt (io (Cgroup.zone_has_processes (h_name zone)));
      let has_processes := match live with Ok b => b | Err _ => true end in
      do disk <- attempt (collect_zone_rootfs_inodes (h_name zone));
      do recorded <- gets (fun s => default [] (registered_inodes s !! h_name zone));
      gets (attest (LinuxPolicy.inode_ownership_check_plan has_processes (map_err Linux.display disk) recorded) zone_id)
  | None => ret (false, "zone has no userspace kernel identifier")
  end.

Definition counter_check (nc : string * Kernel.EnforcementCounters) : option IsolationCheck :=
  let '(name, c) := nc in
  if ((0 <? Kernel.error c) && (Kernel.deny c =? 0))%Z
  then Some (mkCheck ("enforcement:" ++ name) false
         ("hook has " ++ Str.show (Kernel.error c) ++ " errors and 0 denials — enforcement may be silently failing"))
  else if ((0 <? Kernel.allow c) || (0 <? Kernel.deny c))%Z
  then Some (mkCheck ("enforcement:" ++ name) true
         ("allow=" ++ Str.show (Kernel.allow c) ++ ", deny=" ++ Str.show (Kernel.deny c)
          ++ ", error=" ++ Str.show (Kernel.error c)))
  else None.

Definition counter_checks (s : State) : list IsolationCheck :=
  match Linux.read_enforcement_counters (enforcer s) with
  | Ok counters => omap counter_check counters
  | Err _ => []
  end.

(** The checks of a report before the enforcement counters. *)
Definition standing_checks (policy_cs degraded_cs : list IsolationCheck) (cgroup_ok : bool)
    (ebpf_cs : list IsolationCheck) (membership inode : bool * string) (requires_netns netns_ok veth_ok nft_ok : bool)
  : list IsolationCheck :=
  (policy_cs ++ degraded_cs
     ++ [check_if "cgroup" cgroup_ok "zone cgroup exists" "zone cgroup missing — zone is not resource-limited"]
     ++ ebpf_cs
     ++ [mkCheck "bpf_membership" (fst membership) (snd membership);
         mkCheck "filesystem:inode_ownership" (fst inode) (snd inode);
         mkCheck "netns" netns_ok
           (if negb requires_netns then "host network mode intentionally shares the host namespace"
            else if netns_ok then "network namespace exists"
            else "network namespace missing — network not isolated");
         mkCheck "network:veth" veth_ok
           (if negb requires_netns then "host network mode does not require a veth"
            else if veth_ok then "zone veth exists"
            else "zone veth missing — network namespace is disconnected");
         check_if "network:nftables" nft_ok "zone network policy rules are installed"
           "zone nftables rules missing — network policy is not enforced"])%list.

Definition verify_isolation (zone : ZoneHandle) : M IsolationReport :=
  let name := h_name zone in
  do admitted_policy <- gets (fun s => zone_policies s !! name);
  let '(policy_controls_ok, policy_cs) := policy_checks admitted_policy in
  do degradations <- gets (fun s => default ∅ (zone_degradations s !! name));
  let degraded_cs := map (fun c => mkCheck c false "control degraded during runtime setup") (elements degradations) in
  do cgroup_ok <- io (Cgroup.zone_cgroup_exists name);
  do ebpf <- gets ebpf_checks;
  do membership <- gets (membership_check zone);
  do inode <- inode_check zone;
  let requires_netns := match admitted_policy with
                        | Some p => negb (bool_decide (mode (network p) = Host))
                        | None => true
                        end in
  do netns_ok <- (if requires_netns then io (Network.netns_exists name (netns_dir config)) else ret true);
  do veth_ok <- (if requires_netns then io (Network.veth_exists sha256 name) else ret true);
  do veth_name <- veth_host_name_for name;
  let network_policy := match admitted_policy with Some p => network p | None => NetworkPolicy_default end in
  do nft_ok <- io (Nftables.zone_rules_exist debug_str sha256 name veth_name network_policy);
  do counter_cs <- gets counter_checks;
  ret (mkReport (h_id zone) SyscallPolicy
    (policy_controls_ok && bool_decide (degradations = ∅) && cgroup_ok && fst ebpf && fst membership && fst inode
     && netns_ok && veth_ok && nft_ok)
    (standing_checks policy_cs degraded_cs cgroup_ok (snd ebpf) membership inode requires_netns netns_ok veth_ok nft_ok
     ++ counter_cs)%list).

Definition enforcement_degraded_reason (s : State) : option string :=
  match skipped_hooks s with
  | [] => None
  | skipped => Some ("lsm_hooks_unavailable:" ++ Str.join "," skipped)
  end.

Definition kernel_zone_id (zone : ZoneHandle) (s : State) : option Z := zone_id_map s !! h_id zone.

#[export] Instance LinuxBackend : IsolationBackend State := {|
  Backend.create_zone := create_zone;
  Backend.destroy_zone := destroy_zone;
  Backend.enforce_policy := enforce_policy;
  Backend.hot_reload_policy := hot_reload_policy;
  Backend.create_container := create_container;
  Backend.start_container := start_container;
  Backend.stop_container := stop_container;
  Backend.zone_stats := zone_stats;
  Backend.verify_isolation := verify_isolation;
  Backend.recover_zone := recover_zone;
  Backend.cleanup_orphans := cleanup_orphans;
  Backend.isolation_model := SyscallPolicy;
  Backend.name := "linux-ebpf";
  Backend.enforcement_degraded_reason := enforcement_degraded_reason;
  Backend.kernel_zone_id := kernel_zone_id;
  Backend.shim_request := shim_request |}.

(** [LinuxBackend::new]: the enforcer starts from empty kernel maps, whatever an
    earlier daemon left ([host_load]); a missing bridge is only reported. *)
Definition new (r : R) : Host.IO (E := E) State :=
  do _ <- Cgroup.new;
  do subnet <- of_result (Ip.parse_cidr debug_str (subnet_text config));
  do ip <- or_fail (Ip.new (fst subnet) (snd subnet)) (Other "unreachable: the prefix is at most 30");
  do e <- of_result host_load;
  do _ <- attempt (Network.ensure_bridge (Ip.gateway ip) (Ip.prefix_len ip) (bridge config));
  do _ <- Nftables.ensure_nat (Text.show_ipv4 (Ip.subnet ip) ++ "/" ++ Str.show (Ip.prefix_len ip)) (bridge config);
  fun env => (Ok (mkState (Linux.LinuxEnforcer_new e) 1 ∅ ∅ ∅ ∅ ∅ ip r env [] ∅), env).

End LinuxBackend.
End LinuxBackend.
