(* ===== verification/Config.v ===== *)
(** * Daemon configuration

    [rauhad/src/config.rs]: finding, reading, defaulting and validating
    [rauha.toml], and what the parts of the system are given of it: the backend's
    [Config], the result store's capacity and the environment of the zone shims
    ([rauha-shim/src/broker/mod.rs] reads it back).

    The TOML reader is a parameter, with serde's derived reading into optional
    fields; the environment and the file system are arguments. *)

From stdpp Require Import base gmap strings list.
From Stdlib Require Import ZArith Ascii String Lia.
From S2P Require Import Prelude.
From S2P Require Import RustStr.
From S2P Require Import RustText.
From S2P Require Import EnforcerApi.
From S2P Require Import Zone.
From S2P Require Import Kernel.
From S2P Require Import BpfMaps.
From S2P Require Import Broker.
From S2P Require Import IpAllocator.
From S2P Require Import Results.
From S2P Require Import Shim.
From S2P Require Import LinuxBackend.
Open Scope string_scope.

Module Config.
Import Str Text.

(** ** The schema *)

Record ServerConfig := mkServer { addr : string }.
Record NetworkConfig := mkNetwork { subnet : string; bridge : string; dns_fallback : list string }.
Record ExecutorConfig := mkExecutor { crun : string }.
Record PathsConfig := mkPaths { run_dir : string; netns_dir : string; bpf_pin_dir : string }.
Record EvidenceConfig := mkEvidence {
  sandbox_log_max_bytes : Z; container_log_max_bytes : Z; results_max_bytes : Z }.
Record LimitsConfig := mkLimits { policy_max_bytes : Z }.
Record PolicyConfig := mkPolicy { safe_writable_roots : list string }.
Record BrokerConfig := mkBroker { cache_max_tasks : Z; judge_threads : Z; handoff_timeout_ms : Z }.

Record DaemonConfig := mkConfig {
  server : ServerConfig; network : NetworkConfig; executor : ExecutorConfig; paths : PathsConfig;
  evidence : EvidenceConfig; limits : LimitsConfig; policy : PolicyConfig; broker : BrokerConfig }.

Definition default_server_addr : string := "[::1]:9876".
Definition default_subnet : string := "10.89.0.0/16".
Definition default_bridge : string := "rauha0".
Definition default_dns_fallback : list string := ["1.1.1.1"; "8.8.8.8"].
Definition default_crun : string := "auto".
Definition default_run_dir : string := "/run/rauha".
Definition default_netns_dir : string := "/var/run/netns".
Definition default_bpf_pin_dir : string := "/sys/fs/bpf/rauha".
Definition default_sandbox_log_max_bytes : Z := 1024 * 1024.
Definition default_results_max_bytes : Z := 64 * 1024 * 1024.
Definition default_policy_max_bytes : Z := 64 * 1024.
Definition default_safe_writable_roots : list string := ["/proc"; "/sys"; "/dev"; "/run"].
Definition default_broker_cache_max_tasks : Z := 512.
Definition default_broker_judge_threads : Z := 4.
Definition default_broker_handoff_timeout_ms : Z := 30000.

(** A document: each section and each field may be missing. *)
Record ServerFile := mkServerF { f_addr : option string }.
Record NetworkFile := mkNetworkF {
  f_subnet : option string; f_bridge : option string; f_dns_fallback : option (list string) }.
Record ExecutorFile := mkExecutorF { f_crun : option string }.
Record PathsFile := mkPathsF {
  f_run_dir : option string; f_netns_dir : option string; f_bpf_pin_dir : option string }.
Record EvidenceFile := mkEvidenceF {
  f_sandbox_log_max_bytes : option Z; f_container_log_max_bytes : option Z; f_results_max_bytes : option Z }.
Record LimitsFile := mkLimitsF { f_policy_max_bytes : option Z }.
Record PolicyFile := mkPolicyF { f_safe_writable_roots : option (list string) }.
Record BrokerFile := mkBrokerF {
  f_cache_max_tasks : option Z; f_judge_threads : option Z; f_handoff_timeout_ms : option Z }.
Record ConfigFile := mkFile {
  f_server : option ServerFile; f_network : option NetworkFile; f_executor : option ExecutorFile;
  f_paths : option PathsFile; f_evidence : option EvidenceFile; f_limits : option LimitsFile;
  f_policy : option PolicyFile; f_broker : option BrokerFile }.

(** [#[serde(default = ...)]], section by section. *)
Definition server_of (f : ServerFile) : ServerConfig := mkServer (default default_server_addr (f_addr f)).
Definition network_of (f : NetworkFile) : NetworkConfig :=
  mkNetwork (default default_subnet (f_subnet f)) (default default_bridge (f_bridge f))
    (default default_dns_fallback (f_dns_fallback f)).
Definition executor_of (f : ExecutorFile) : ExecutorConfig := mkExecutor (default default_crun (f_crun f)).
Definition paths_of (f : PathsFile) : PathsConfig :=
  mkPaths (default default_run_dir (f_run_dir f)) (default default_netns_dir (f_netns_dir f))
    (default default_bpf_pin_dir (f_bpf_pin_dir f)).
Definition evidence_of (f : EvidenceFile) : EvidenceConfig :=
  mkEvidence (default default_sandbox_log_max_bytes (f_sandbox_log_max_bytes f))
    (default default_sandbox_log_max_bytes (f_container_log_max_bytes f))
    (default default_results_max_bytes (f_results_max_bytes f)).
Definition limits_of (f : LimitsFile) : LimitsConfig := mkLimits (default default_policy_max_bytes (f_policy_max_bytes f)).
Definition policy_of (f : PolicyFile) : PolicyConfig :=
  mkPolicy (default default_safe_writable_roots (f_safe_writable_roots f)).
Definition broker_of (f : BrokerFile) : BrokerConfig :=
  mkBroker (default default_broker_cache_max_tasks (f_cache_max_tasks f))
    (default default_broker_judge_threads (f_judge_threads f))
    (default default_broker_handoff_timeout_ms (f_handoff_timeout_ms f)).

(** The [Default] of each section and of the whole. *)
Definition default_server : ServerConfig := mkServer default_server_addr.
Definition default_network : NetworkConfig := mkNetwork default_subnet default_bridge default_dns_fallback.
Definition default_executor : ExecutorConfig := mkExecutor default_crun.
Definition default_paths : PathsConfig := mkPaths default_run_dir default_netns_dir default_bpf_pin_dir.
Definition default_evidence : EvidenceConfig :=
  mkEvidence default_sandbox_log_max_bytes default_sandbox_log_max_bytes default_results_max_bytes.
Definition default_limits : LimitsConfig := mkLimits default_policy_max_bytes.
Definition default_policy : PolicyConfig := mkPolicy default_safe_writable_roots.
Definition default_broker : BrokerConfig :=
  mkBroker default_broker_cache_max_tasks default_broker_judge_threads default_broker_handoff_timeout_ms.
Definition default_config : DaemonConfig :=
  mkConfig default_server default_network default_executor default_paths default_evidence default_limits
    default_policy default_broker.

(** A section [s] that is missing is its [Default]. *)
Definition section {F C} (of_file : F -> C) (dflt : C) (s : option F) : C :=
  match s with Some f => of_file f | None => dflt end.

Definition config_of (f : ConfigFile) : DaemonConfig := mkConfig
  (section server_of default_server (f_server f))
  (section network_of default_network (f_network f))
  (section executor_of default_executor (f_executor f))
  (section paths_of default_paths (f_paths f))
  (section evidence_of default_evidence (f_evidence f))
  (section limits_of default_limits (f_limits f))
  (section policy_of default_policy (f_policy f))
  (section broker_of default_broker (f_broker f)).

(** ** Validation *)

(** [SocketAddr::from_str]: an IPv4 address, or an IPv6 address in brackets with an
    optional scope, then a port; a number of any length that fits. *)
Definition read_any (radix w : Z) (s : string) : option (Z * string) :=
  Zone.read_number radix w (String.length s) true s.

Definition read_port (s : string) : option (Z * string) :=
  match Zone.read_char ":" s with Some s' => read_any 10 16 s' | None => None end.

Definition read_scope (s : string) : string :=
  match Zone.read_char "%" s with
  | Some s' => match read_any 10 32 s' with Some (_, rest) => rest | None => s end
  | None => s
  end.

Definition read_socket_addr (s : string) : option string :=
  match (match Zone.read_ipv4_addr s with Some (_, s') => snd <$> read_port s' | None => None end) with
  | Some rest => Some rest
  | None =>
      match Zone.read_char "[" s with
      | None => None
      | Some s1 =>
          match Zone.read_ipv6_addr s1 with
          | None => None
          | Some (_, s2) =>
              match Zone.read_char "]" (read_scope s2) with
              | None => None
              | Some s3 => snd <$> read_port s3
              end
          end
      end
  end.

Definition parses_socket_addr (s : string) : bool :=
  match read_socket_addr s with Some rest => String.eqb rest "" | None => false end.

Example addr_default : parses_socket_addr "[::1]:9876" = true. Proof. vm_compute. reflexivity. Qed.
Example addr_v4 : parses_socket_addr "127.0.0.1:0080" = true. Proof. vm_compute. reflexivity. Qed.
Example addr_scope : parses_socket_addr "[fe80::1%2]:1" = true. Proof. vm_compute. reflexivity. Qed.
Example addr_big_port : parses_socket_addr "127.0.0.1:65536" = false. Proof. vm_compute. reflexivity. Qed.
Example addr_bare : parses_socket_addr "::1:9876" = false. Proof. vm_compute. reflexivity. Qed.

Section Config.
(** [{:?}] of a string, and [toml::from_str]. *)
Context (debug : string -> string) (from_str : string -> result ConfigFile string).

Definition invalid (text : string) : result unit RauhaError := Err (InvalidInput text).

(** [for ns in &dns_fallback]. *)
Definition check_nameserver (ns : string) : result unit RauhaError :=
  match Zone.parse_ip_addr ns with
  | Some _ => Ok tt
  | None => invalid ("network.dns_fallback entry " ++ debug ns ++ " is not an IP address")
  end.

Definition validate (c : DaemonConfig) : result unit RauhaError :=
  let? _ := (if parses_socket_addr (addr (server c)) then Ok tt
             else invalid ("server.addr " ++ debug (addr (server c)) ++ " is not a valid socket address")) in
  let? _ := Ip.parse_cidr debug (subnet (network c)) in
  let? _ := try_for_each check_nameserver (dns_fallback (network c)) in
  if String.eqb (bridge (network c)) "" then invalid "network.bridge is empty"
  else if negb (String.eqb (crun (executor c)) "auto") && negb (is_absolute (crun (executor c))) then
    invalid ("executor.crun must be " ++ Ip.quoted "auto" ++ " or an absolute path, got " ++ debug (crun (executor c)))
  else if (container_log_max_bytes (evidence c) =? 0)%Z then
    invalid "evidence.container_log_max_bytes must be > 0"
  else if (results_max_bytes (evidence c) <? Results.MAX_RESULT_BYTES)%Z then
    invalid "evidence.results_max_bytes must hold at least one 4 MiB result"
  else if ((sandbox_log_max_bytes (evidence c) =? 0) || (policy_max_bytes (limits c) =? 0))%Z then
    invalid "evidence.sandbox_log_max_bytes and limits.policy_max_bytes must be > 0"
  else if (Results.MAX_RESULT_BYTES / 4 <? sandbox_log_max_bytes (evidence c))%Z then
    invalid "evidence.sandbox_log_max_bytes exceeds the per-stream wire budget (1 MiB)"
  else if (Z.shiftl 1 20 <? cache_max_tasks (broker c))%Z then
    invalid ("broker.cache_max_tasks " ++ show (cache_max_tasks (broker c))
      ++ " is unreasonable — one cache entry is held per workload thread making brokered calls (max "
      ++ show (Z.shiftl 1 20) ++ ")")
  else if ((judge_threads (broker c) =? 0) || (64 <? judge_threads (broker c)))%Z then
    invalid ("broker.judge_threads must be between 1 (serial) and 64, got " ++ show (judge_threads (broker c)))
  else if negb ((1000 <=? handoff_timeout_ms (broker c)) && (handoff_timeout_ms (broker c) <=? 300000))%Z then
    invalid ("broker.handoff_timeout_ms must be between 1000 and 300000, got " ++ show (handoff_timeout_ms (broker c)))
  else Ok tt.

(** ** Loading *)

Inductive ReadError := NotFound | Failed (text : string).

(** [rauha_config]: the environment variable; [read]: [fs::read_to_string]. *)
Definition config_path (rauha_config : option string) (root : string) : string :=
  match rauha_config with Some explicit => explicit | None => Shim.join_path root "rauha.toml" end.

Definition load (rauha_config : option string) (read : string -> result string ReadError) (root : string)
  : result DaemonConfig RauhaError :=
  let path := config_path rauha_config root in
  match read path with
  | Ok content =>
      let? file := map_err (fun e => InvalidInput ("invalid config file " ++ path ++ ": " ++ e)) (from_str content) in
      let? _ := validate (config_of file) in
      Ok (config_of file)
  | Err NotFound =>
      match rauha_config with
      | Some _ => Err (InvalidInput ("RAUHA_CONFIG points to " ++ path ++ ", which does not exist"))
      | None => Ok default_config
      end
  | Err (Failed e) => Err (InvalidInput ("cannot read config file " ++ path ++ ": " ++ e))
  end.

(** What the Linux backend reads of it. *)
Definition backend_config (root : string) (c : DaemonConfig) : LinuxBackend.Config :=
  LinuxBackend.mkConf root (run_dir (paths c)) (netns_dir (paths c)) (bridge (network c)) (subnet (network c))
    (dns_fallback (network c)) (safe_writable_roots (policy c)) (crun (executor c))
    (container_log_max_bytes (evidence c)) (cache_max_tasks (broker c)) (judge_threads (broker c))
    (handoff_timeout_ms (broker c)).

End Config.

(** ** The shim's side: [std::env::var] of the environment it is started with *)

Definition env_var (env : list (string * string)) (name : string) : option string :=
  snd <$> List.find (fun kv => String.eqb (fst kv) name) env.

(** [handoff_timeout_ms] of the broker. *)
Definition handoff_timeout_from (configured : option string) : Z := Broker.parse_or 30000 configured.


(** ** What an accepted configuration guarantees *)

Section Accepted.
Context (debug : string -> string) (from_str : string -> result ConfigFile string).

(** The integers of a configuration, all [usize] or [u64]. *)
Definition numbers (c : DaemonConfig) : list Z := [
  sandbox_log_max_bytes (evidence c); container_log_max_bytes (evidence c); results_max_bytes (evidence c);
  policy_max_bytes (limits c); cache_max_tasks (broker c); judge_threads (broker c); handoff_timeout_ms (broker c)].

(** serde reads an integer field at the field's width. *)
Context (from_str_width : forall text f, from_str text = Ok f -> Forall (in_width 64) (numbers (config_of f))).

Notation load := (load debug from_str).

Definition in_range (lo hi x : Z) : Prop := (lo <= x <= hi)%Z.

(** The conditions of [validate], as facts. *)
Record valid (c : DaemonConfig) : Prop := {
  valid_addr : parses_socket_addr (addr (server c)) = true;
  valid_subnet : exists op, Ip.parse_cidr debug (subnet (network c)) = Ok op;
  valid_dns : Forall (fun ns => is_Some (Zone.parse_ip_addr ns)) (dns_fallback (network c));
  valid_bridge : bridge (network c) <> "";
  valid_crun : crun (executor c) = "auto" \/ is_absolute (crun (executor c)) = true;
  valid_log : container_log_max_bytes (evidence c) <> 0%Z;
  valid_results : (Results.MAX_RESULT_BYTES <= results_max_bytes (evidence c))%Z;
  valid_capture : sandbox_log_max_bytes (evidence c) <> 0%Z /\
                  (sandbox_log_max_bytes (evidence c) <= Results.MAX_RESULT_BYTES / 4)%Z;
  valid_policy : policy_max_bytes (limits c) <> 0%Z;
  valid_cache : (cache_max_tasks (broker c) <= 2 ^ 20)%Z;
  valid_judges : judge_threads (broker c) <> 0%Z /\ (judge_threads (broker c) <= 64)%Z;
  valid_handoff : in_range 1000 300000 (handoff_timeout_ms (broker c)) }.

Lemma nameservers_ok l : try_for_each (check_nameserver debug) l = Ok tt ->
  Forall (fun ns => is_Some (Zone.parse_ip_addr ns)) l.
Proof.
  induction l as [|ns l IH]; [constructor|]. simpl. unfold check_nameserver at 1.
  destruct (Zone.parse_ip_addr ns) eqn:E; [|done]. intros Hl. constructor; [by rewrite E|by apply IH].
Qed.

Lemma validate_valid c : validate debug c = Ok tt -> valid c.
Proof.
  unfold validate, invalid. destruct (parses_socket_addr _) eqn:E1; [|done].
  destruct (Ip.parse_cidr _ _) as [op|] eqn:E2; [|done].
  destruct (try_for_each _ _) as [[]|] eqn:E3; [|done]. apply nameservers_ok in E3.
  destruct (String.eqb_spec (bridge (network c)) "") as [|E4]; [done|].
  destruct (negb _ && negb _) eqn:E5; [done|].
  destruct (Z.eqb_spec (container_log_max_bytes (evidence c)) 0) as [|E6]; [done|].
  destruct (Z.ltb_spec (results_max_bytes (evidence c)) Results.MAX_RESULT_BYTES) as [|E7]; [done|].
  destruct (_ || _) eqn:E8; [done|].
  destruct (Z.ltb_spec (Results.MAX_RESULT_BYTES / 4) (sandbox_log_max_bytes (evidence c))) as [|E9]; [done|].
  destruct (Z.ltb_spec (Z.shiftl 1 20) (cache_max_tasks (broker c))) as [|E10]; [done|].
  destruct ((judge_threads (broker c) =? 0) || (64 <? judge_threads (broker c)))%Z eqn:E11; [done|].
  destruct (negb (_ && _)) eqn:E12; [done|]. intros _.
  apply orb_false_iff in E8 as [E8%Z.eqb_neq E8'%Z.eqb_neq]. apply orb_false_iff in E11 as [E11%Z.eqb_neq E11'%Z.ltb_ge].
  apply negb_false_iff, andb_true_iff in E12 as [E12%Z.leb_le E12'%Z.leb_le].
  apply andb_false_iff in E5 as [E5%negb_false_iff|E5%negb_false_iff];
    (split; [done|by exists op|done|done| |done|done|done|done|done|done|done]).
  - left. by apply String.eqb_eq.
  - by right.
Qed.

Lemma default_valid : validate debug default_config = Ok tt.
Proof. vm_compute. reflexivity. Qed.

Lemma load_Ok rauha_config read root c : load rauha_config read root = Ok c ->
  valid c /\ (c = default_config \/ exists text f, from_str text = Ok f /\ c = config_of f).
Proof.
  unfold Config.load. destruct (read _) as [text|[]]; [|destruct rauha_config; [done|]|done].
  - destruct (from_str text) as [f|] eqn:E; [|done]. cbn [map_err]. destruct (validate _ _) as [[]|] eqn:Ev; [|done].
    intros [= <-]. split; [by apply validate_valid|]. right. by exists text, f.
  - intros [= <-]. split; [apply validate_valid, default_valid|by left].
Qed.

Lemma load_widths rauha_config read root c : load rauha_config read root = Ok c -> Forall (in_width 64) (numbers c).
Proof.
  intros [_ [->|(text & f & Hf & ->)]]%load_Ok; [|by eapply from_str_width].
  unfold in_width, numbers. forall_each; cbn; unfold default_sandbox_log_max_bytes, default_results_max_bytes, default_policy_max_bytes, default_broker_cache_max_tasks, default_broker_judge_threads, default_broker_handoff_timeout_ms; lia.
Qed.

Lemma parse_or_show d n : in_width 64 n -> Broker.parse_or d (Some (show n)) = n.
Proof. intros Hn. unfold Broker.parse_or. rewrite parse_uint_show by (unfold in_width in Hn; lia). done. Qed.

(** The pool of an accepted subnet has an address for a zone besides the gateway's. *)
Lemma accepted_subnet_has_room cidr o p : Ip.parse_cidr debug cidr = Ok (o, p) ->
  exists a ip a', Ip.new o p = Some a /\ Ip.allocate a = (Ok ip, a') /\
    Ip.from_be_bytes (Ip.gateway a) = (Ip.from_be_bytes o + 1)%Z /\
    Ip.from_be_bytes ip = (Ip.from_be_bytes o + 2)%Z /\ (2 < 2 ^ (32 - p) - 1)%Z.
Proof.
  intros (Ho & Hp & Hm)%Ip.parse_cidr_ok. destruct (Ip.new_wf o p Ho Hp Hm) as (a & Hn & Hw & _ & Hb & Hh).
  assert (Hr : (4 <= 2 ^ (32 - p))%Z) by (apply (Z.pow_le_mono_r 2 2); lia).
  assert (Halloc : Ip.allocated a = {[0; 1]}%Z) by (revert Hn; unfold Ip.new; destruct (_ <=? _)%Z; [by intros [= <-]|done]).
  exists a, (Ip.offset_to_ip a 2). eexists. split; [done|]. unfold Ip.allocate.
  rewrite Ip.max_host_offset_eq, Hh, Halloc by done.
  replace (Z.to_nat (2 ^ (32 - p) - 2 - 1)) with (S (Z.to_nat (2 ^ (32 - p) - 4))) by lia. cbn [Ip.first_free].
  rewrite bool_decide_eq_false_2 by set_solver by lia. split; [done|].
  unfold Ip.gateway. rewrite !Ip.offset_to_ip_value by (done || rewrite Hh; lia). rewrite Hb. lia.
Qed.

(** A task can always be admitted to an empty result store. *)
Lemma accepted_store_admits_a_task c id : valid c ->
  fst (Results.reserve_result Results.empty_store id (results_max_bytes (evidence c))) = Ok true.
Proof.
  intros Hv. unfold Results.reserve_result. cbn [Results.results Results.empty_store]. rewrite lookup_empty.
  change (Results.used Results.empty_store) with 0%Z.
  rewrite (proj2 (Z.leb_le _ _)); [done|]. pose proof (valid_results c Hv). unfold saturating_add. unfold Results.MAX_RESULT_BYTES in *. lia.
Qed.

(** A configuration the daemon accepts works in every part that is given some of it:
    the subnet yields an address pool with room for the gateway and a zone, an empty result
    store admits a task, two captured streams at their cap fit a result twice over, and a
    zone shim started with the environment the backend composes reads back exactly the
    configured log cap, number of judges, pin cache and hand-off time - no value is clamped,
    defaulted or refused on the other side. *)
Theorem accepted_configuration_works rauha_config read root c :
  load rauha_config read root = Ok c ->
  (exists o p a ip a', Ip.parse_cidr debug (subnet (network c)) = Ok (o, p) /\ Ip.new o p = Some a /\
     Ip.allocate a = (Ok ip, a') /\ Ip.from_be_bytes (Ip.gateway a) = (Ip.from_be_bytes o + 1)%Z /\
     Ip.from_be_bytes ip = (Ip.from_be_bytes o + 2)%Z /\ (2 < 2 ^ (32 - p) - 1)%Z) /\
  (forall id, fst (Results.reserve_result Results.empty_store id (results_max_bytes (evidence c))) = Ok true) /\
  (0 < 4 * sandbox_log_max_bytes (evidence c) <= Results.MAX_RESULT_BYTES)%Z /\
  let env := LinuxBackend.shim_env (backend_config root c) in
  Broker.judge_threads_from (env_var env "RAUHA_BROKER_JUDGE_THREADS") = judge_threads (broker c) /\
  Broker.cache_max_tasks_from (env_var env "RAUHA_BROKER_CACHE_MAX") = cache_max_tasks (broker c) /\
  handoff_timeout_from (env_var env "RAUHA_BROKER_HANDOFF_TIMEOUT_MS") = handoff_timeout_ms (broker c) /\
  forall (H : Shim.Host) (w : Shim.World),
    fst (Shim.call (Shim.EnvVar "RAUHA_LOG_MAX_BYTES") w) = env_var env "RAUHA_LOG_MAX_BYTES" ->
    fst (Shim.max_bytes w) = Ok (container_log_max_bytes (evidence c)).
Proof.
  intros Hl. pose proof (load_widths _ _ _ _ Hl) as Hw. apply load_Ok in Hl as [Hv _].
  unfold numbers in Hw. rewrite !Forall_cons in Hw. destruct Hw as (Hsb & Hlog & _ & _ & Hcache & Hjudge & Hhand & _).
  pose proof (valid_log c Hv) as Hlog0. destruct (valid_judges c Hv) as [Hj0 Hj1]. destruct (valid_capture c Hv) as [Hs0 Hs1].
  split; [|split; [by intros; apply accepted_store_admits_a_task|split; [|cbv zeta; split_and!]]].
  - destruct (valid_subnet c Hv) as [[o p] Hc]. destruct (accepted_subnet_has_room _ _ _ Hc) as (a & ip & a' & ?).
    by exists o, p, a, ip, a'.
  - unfold in_width, Results.MAX_RESULT_BYTES in *. change (4 * 1024 * 1024 / 4)%Z with 1048576%Z in Hs1. lia.
  - change (env_var _ _) with (Some (show (judge_threads (broker c)))). unfold Broker.judge_threads_from.
    rewrite parse_or_show by done. unfold clamp, Broker.MIN_JUDGE_THREADS, Broker.MAX_JUDGE_THREADS, in_width in *.
    repeat (destruct (_ <? _)%Z eqn:?; reflect_bools); lia.
  - change (env_var _ _) with (Some (show (cache_max_tasks (broker c)))). by apply parse_or_show.
  - change (env_var _ _) with (Some (show (handoff_timeout_ms (broker c)))). by apply parse_or_show.
  - intros H w. change (env_var _ _) with (Some (show (container_log_max_bytes (evidence c)))).
    unfold Shim.max_bytes, Shim.bind. destruct (Shim.call _ w) as [v w']. cbn [fst]. intros ->.
    unfold Shim.ret. cbn [fst]. rewrite parse_uint_show by (unfold in_width in Hlog; lia). cbn [map_err].
    rewrite (proj2 (Z.ltb_lt _ _)); [done|]. unfold in_width in Hlog. lia.
Qed.
End Accepted.

(** ** A host with a file that sets the subnet only *)
Module Demo.

Definition file : ConfigFile :=
  mkFile None (Some (mkNetworkF (Some "172.30.0.0/30") None None)) None None None None None None.
Definition from_str (text : string) : result ConfigFile string :=
  if String.eqb text "[network]" then Ok file else Err "expected a table".
Definition read (path : string) : result string ReadError :=
  if String.eqb path "/var/lib/rauha/rauha.toml" then Ok "[network]" else Err NotFound.

Lemma accepted_configuration_works_witness :
  load id from_str None read "/var/lib/rauha" = Ok (config_of file) /\
  fst (Results.reserve_result Results.empty_store "task" (results_max_bytes (evidence (config_of file)))) = Ok true.
Proof.
  assert (Hw : forall text f, from_str text = Ok f -> Forall (in_width 64) (numbers (config_of f))).
  { unfold from_str. intros text f. destruct (String.eqb _ _); [|done]. intros [= <-]. unfold in_width, numbers.
    forall_each; vm_compute; intuition discriminate. }
  assert (Hl : load id from_str None read "/var/lib/rauha" = Ok (config_of file)) by (vm_compute; reflexivity).
  split; [exact Hl|]. destruct (accepted_configuration_works id from_str Hw None read "/var/lib/rauha" _ Hl) as (_ & Hr & _).
  apply Hr.
Defined.

(** A misspelt explicit path is an error, a missing default file is not. *)
Example explicit_missing : is_ok (load id from_str (Some "/nonexistent/rauha.toml") read "/var/lib/rauha") = false.
Proof. vm_compute. reflexivity. Qed.
Example default_missing : load id from_str None read "/elsewhere" = Ok default_config.
Proof. vm_compute. reflexivity. Qed.

End Demo.
End Config.
