(* ===== verification/Telemetry.v ===== *)
(** * Telemetry and its configuration

    [rauha-common/src/observability.rs] reads the observability settings, the start of
    [main] ([rauhad/src/main.rs]) reads them and the daemon's configuration, and
    [rauhad/src/logging.rs] sets the log up and writes an event as one flat JSON object.
    TOML, JSON and the filter syntax are parameters; the environment is read as text. *)

From stdpp Require Import base gmap strings list.
From Stdlib Require Import ZArith Ascii String Lia.
From S2P Require Import Prelude.
From S2P Require Import RustStr.
From S2P Require Import RustText.
From S2P Require Import Zone.
From S2P Require Import Config.
Open Scope string_scope.

Module Telemetry.
Import Str Text.

(** ** The observability configuration *)

Inductive LogFormat := Json | TextFormat | Auto.
(** The ratios are floating-point numbers, kept as they are written. *)
Record SamplingConfig := mkSampling { keep_ratio : gmap string string; rate_limit_per_second : gmap string Z }.
Record DropConfig := mkDrop { drop_events : list string }.
Record RotatingFileSinkConfig := mkRotating { path : string; max_size_bytes : Z; max_age_seconds : Z }.
Record SinksConfig := mkSinks { stdout : bool; rotating_file : option RotatingFileSinkConfig }.
Record OtlpConfig := mkOtlp { endpoint : option string; protocol : string; headers : gmap string string; timeout_ms : Z }.
Record ObservabilityConfig := mkObservability {
  format : LogFormat; level : string; environment : string; sampling : SamplingConfig; drop : DropConfig;
  sinks : SinksConfig; otlp : OtlpConfig }.

Definition default_format : LogFormat := Auto.
Definition default_level : string := "info".
Definition default_environment : string := "unknown".
Definition default_otlp_protocol : string := "grpc".
Definition default_otlp_timeout_ms : Z := 10000.
Definition default_sampling : SamplingConfig := mkSampling ∅ ∅.
Definition default_sinks : SinksConfig := mkSinks true None.
Definition default_otlp : OtlpConfig := mkOtlp None default_otlp_protocol ∅ default_otlp_timeout_ms.
Definition default_observability : ObservabilityConfig :=
  mkObservability default_format default_level default_environment default_sampling (mkDrop []) default_sinks default_otlp.

(** [RauhaConfigFile]. *)
Record RauhaConfigFile := mkRauha { observability : option ObservabilityConfig }.

Inductive ObservabilityConfigError := Read (path source : string) | Parse (path source : string).
Definition error_text (e : ObservabilityConfigError) : string :=
  match e with
  | Read p source => "failed to read Rauha config at " ++ p ++ ": " ++ source
      ++ "; hint: set RAUHA_CONFIG to a readable TOML file or unset it to use defaults"
  | Parse p source => "failed to parse Rauha config at " ++ p ++ ": " ++ source
      ++ "; hint: use TOML with an [observability] table"
  end.

Definition with_timeout (ms : Z) (o : OtlpConfig) : OtlpConfig := mkOtlp (endpoint o) (protocol o) (headers o) ms.
Definition from_env_overrides (env : string -> option string) (c : ObservabilityConfig) : ObservabilityConfig :=
  let o := otlp c in
  let o := mkOtlp (match env "OTEL_EXPORTER_OTLP_ENDPOINT" with Some e => Some e | None => endpoint o end)
             (default (protocol o) (env "OTEL_EXPORTER_OTLP_PROTOCOL")) (headers o) (timeout_ms o) in
  let o := match env "OTEL_EXPORTER_OTLP_TIMEOUT" with
           | Some timeout => match parse_uint 64 timeout with Ok ms => with_timeout ms o | Err _ => o end
           | None => o
           end in
  mkObservability (format c) (default (level c) (env "RAUHA_LOG_LEVEL")) (default (environment c) (env "RAUHA_ENVIRONMENT"))
    (sampling c) (drop c) (sinks c) o.

(** ** The start of the daemon *)

Section Start.
(** The texts of errors, and [toml::from_str] of the two schemas. *)
Context (debug : string -> string) (read_error : Config.ReadError -> string).
Context (from_str : string -> result Config.ConfigFile string) (rauha_from_str : string -> result RauhaConfigFile string).
Context (error_display : RauhaError -> string).

Definition from_env_or_default (env : string -> option string) (read : string -> result string Config.ReadError)
  : result ObservabilityConfig ObservabilityConfigError :=
  match env "RAUHA_CONFIG" with
  | None => Ok (from_env_overrides env default_observability)
  | Some path =>
      let? text := map_err (fun e => Read path (read_error e)) (read path) in
      let? file := map_err (Parse path) (rauha_from_str text) in
      Ok (from_env_overrides env (default default_observability (observability file)))
  end.

(** The first lines of [main]: both configurations. *)
Definition load_configs (env : string -> option string) (read : string -> result string Config.ReadError) (default_root : string)
  : result (ObservabilityConfig * Config.DaemonConfig) string :=
  let? observability := map_err error_text (from_env_or_default env read) in
  let root := default default_root (env "RAUHA_ROOT") in
  let? config := map_err error_display (Config.load debug from_str (env "RAUHA_CONFIG") read root) in
  Ok (observability, config).
End Start.

(** The tables at the top of a document.  Both schemas deny the fields they do not know,
    and a table they know is read exactly when it is there. *)
Definition DAEMON_TABLES : list string :=
  ["server"; "network"; "executor"; "paths"; "evidence"; "limits"; "policy"; "broker"].
Definition daemon_sections (f : Config.ConfigFile) : list bool :=
  [bool_decide (is_Some (Config.f_server f)); bool_decide (is_Some (Config.f_network f));
   bool_decide (is_Some (Config.f_executor f)); bool_decide (is_Some (Config.f_paths f));
   bool_decide (is_Some (Config.f_evidence f)); bool_decide (is_Some (Config.f_limits f));
   bool_decide (is_Some (Config.f_policy f)); bool_decide (is_Some (Config.f_broker f))].

Class TomlTables (from_str : string -> result Config.ConfigFile string) (rauha_from_str : string -> result RauhaConfigFile string)
  (tables : string -> list string) := {
  daemon_reads : forall text f, from_str text = Ok f ->
    tables text ⊆ DAEMON_TABLES /\ daemon_sections f = map (fun t => bool_decide (t ∈ tables text)) DAEMON_TABLES;
  rauha_reads : forall text f, rauha_from_str text = Ok f ->
    tables text ⊆ ["observability"] /\ (is_Some (observability f) <-> "observability" ∈ tables text) }.

Section Started.
Context (debug : string -> string) (read_error : Config.ReadError -> string) (error_display : RauhaError -> string).
Context (from_str : string -> result Config.ConfigFile string) (rauha_from_str : string -> result RauhaConfigFile string).
Context (tables : string -> list string) `{T : !TomlTables from_str rauha_from_str tables}.

Lemma both_accept_nothing text f g : from_str text = Ok f -> rauha_from_str text = Ok g ->
  tables text = [] /\ Config.config_of f = Config.default_config /\ observability g = None.
Proof.
  intros (Hd & Hs)%(daemon_reads (TomlTables := T)) (Hr & Ho)%(rauha_reads (TomlTables := T)).
  assert (Ht : tables text = []).
  { destruct (tables text) as [|t ts] eqn:E; [done|exfalso].
    assert (H1 : t ∈ ["observability"]) by (apply Hr; by left). apply list_elem_of_singleton in H1 as ->.
    assert (H2 : "observability" ∈ DAEMON_TABLES) by (apply Hd; by left). revert H2. by apply (bool_decide_unpack _). }
  split; [done|]. rewrite Ht in *. split.
  - unfold daemon_sections in Hs. cbn in Hs. destruct f as [[] [] [] [] [] [] [] []]; cbn in Hs; try discriminate Hs. done.
  - destruct (observability g) eqn:E; [|done]. exfalso. by apply (not_elem_of_nil "observability"), Ho.
Qed.

(** C30. A daemon that is pointed at a configuration file starts only when the file sets
    nothing: each of the two readers of that one file refuses the tables of the other, so
    what it starts with is the default configuration, and the default observability with
    the environment's overrides.  Without the variable, the observability table can be
    given nowhere, and the daemon's file is the root's. *)
Theorem explicit_configuration_sets_nothing env read default_root :
  let start := load_configs debug read_error from_str rauha_from_str error_display env read default_root in
  (forall file, env "RAUHA_CONFIG" = Some file ->
     (forall o c, start = Ok (o, c) ->
        c = Config.default_config /\ o = from_env_overrides env default_observability /\
        exists text, read file = Ok text /\ tables text = []) /\
     (forall text, read file = Ok text -> tables text <> [] -> exists e, start = Err e)) /\
  (env "RAUHA_CONFIG" = None ->
     start = match Config.load debug from_str None read (default default_root (env "RAUHA_ROOT")) with
             | Ok c => Ok (from_env_overrides env default_observability, c)
             | Err e => Err (error_display e)
             end).
Proof.
  intros start. split.
  - intros file He.
    assert (H1 : forall o c, start = Ok (o, c) -> c = Config.default_config /\ o = from_env_overrides env default_observability /\
        exists text, read file = Ok text /\ tables text = []).
    { intros o c. unfold start, load_configs, from_env_or_default, Config.load, Config.config_path. rewrite He.
      destruct (read file) as [text|[]] eqn:Hr; cbn; [|done..].
      destruct (rauha_from_str text) as [g|] eqn:Hg; cbn; [|done]. destruct (from_str text) as [f|] eqn:Hf; cbn; [|done].
      destruct (both_accept_nothing text f g Hf Hg) as (Ht & Hc & Ho). rewrite Hc, Ho.
      destruct (Config.validate _ _); cbn; [|done]. intros [= <- <-]. split_and!; eauto. }
    split; [exact H1|]. intros text Hr Ht. destruct start as [[o c]|e]; [|by eexists].
    destruct (H1 o c eq_refl) as (_ & _ & text' & Hr' & Ht'). congruence.
  - intros He. unfold start, load_configs, from_env_or_default. rewrite He. cbn. by destruct (Config.load _ _ _ _ _).
Qed.
End Started.

(** ** The log *)

Inductive Value := VString (s : string) | VBool (b : bool) | VNumber (n : Z) | VFloat (text : string) | VOther (text : string).
#[export] Instance value_dec : EqDecision Value. Proof. solve_decision. Defined.
Notation Fields := (gmap string Value).

(** What is recorded of a field: the methods of [Visit]. *)
Inductive Recorded := RecStr (name value : string) | RecBool (name : string) (b : bool) | RecInt (name : string) (n : Z)
  | RecFloat (name text : string) | RecDebug (name text : string).

Section Log.
(** [serde_json::from_str] of an object. *)
Context (object_of_json : string -> option Fields).

Definition put (skip_empty : bool) (m : Fields) (kv : string * Value) : Fields :=
  let '(key, value) := kv in
  if skip_empty && bool_decide (value = VString "") && bool_decide (is_Some (m !! key)) then m else <[key := value]> m.

Definition is_payload_key (kv : string * Value) : bool :=
  negb (String.eqb kv.1 "timestamp") && negb (String.eqb kv.1 "level").
Definition merge_event_payload (skip_empty : bool) (m : Fields) (payload : string) : option Fields :=
  (fun fields => foldl (put skip_empty) m (filter (fun kv => is_payload_key kv = true) (map_to_list fields))) <$> object_of_json payload.

Definition record (skip_empty : bool) (m : Fields) (r : Recorded) : Fields :=
  match r with
  | RecStr name value =>
      match (if String.eqb name "event.payload" then merge_event_payload skip_empty m value else None) with
      | Some m => m
      | None => put skip_empty m (name, VString value)
      end
  | RecBool name b => put skip_empty m (name, VBool b)
  | RecInt name n => put skip_empty m (name, VNumber n)
  | RecFloat name text => put skip_empty m (name, VFloat text)
  | RecDebug name text => put skip_empty m (name, VString text)
  end.

(** The fields of the spans that are open, by their ids. *)
Definition on_new_span (spans : gmap Z Fields) (id : Z) (attrs : list Recorded) : gmap Z Fields :=
  <[id := foldl (record false) ∅ attrs]> spans.
Definition on_record (spans : gmap Z Fields) (id : Z) (values : list Recorded) : gmap Z Fields :=
  match spans !! id with Some fields => <[id := foldl (record false) fields values]> spans | None => spans end.

Record Metadata := mkMeta { meta_level : string; meta_target : string }.

Definition merge_span (spans : gmap Z Fields) (m : Fields) (id : Z) : Fields :=
  match spans !! id with Some fields => fields ∪ m | None => m end.

(** The line of an event: its time and origin, the resource, the spans it is in from the
    root, and its own fields. *)
Definition on_event (resource : list (string * Value)) (now : string) (meta : Metadata) (spans : gmap Z Fields)
    (scope : list Z) (event : list Recorded) : Fields :=
  let m := <["target" := VString (meta_target meta)]> (<["log.level" := VString (meta_level meta)]>
             (<["timestamp" := VString now]> ∅)) in
  let m := foldl (fun m kv => <[kv.1 := kv.2]> m) m resource in
  let m := foldl (merge_span spans) m scope in
  foldl (record true) m event.

(** [host_name] and [host_id]: what [gethostname] and the files give. *)
Definition nonempty (s : option string) : option string := match s with Some s => if String.eqb s "" then None else Some s | None => None end.
Definition host_name (gethostname hostname_var : option string) : string :=
  match nonempty gethostname with Some name => name | None => default "unknown" (nonempty hostname_var) end.
Definition host_id (read : string -> option string) (host_name : string) : string :=
  default host_name (nonempty (trim <$> (match read "/etc/machine-id" with Some s => Some s | None => read "/var/lib/dbus/machine-id" end))).

Definition resource_fields (c : ObservabilityConfig) (version host_id host_name : string) (pid : Z) : list (string * Value) :=
  [("service.name", VString "rauhad"); ("service.version", VString version); ("environment", VString (environment c));
   ("host.id", VString host_id); ("host.name", VString host_name); ("pid", VNumber pid)].

(** What [init] sets up, and what it warns of. *)
Record Setup (Filter : Type) := mkSetup { filter_ : Filter; text_output : bool; warnings : list string }.
Definition default_directives (lvl : string) : string := "rauhad=" ++ lvl ++ ",rauha_evidence=" ++ lvl ++ ",rauha_shim=" ++ lvl.
Definition init {Filter : Type} (try_new : string -> result Filter string) (rust_log : option string) (stdout_is_tty : bool)
    (c : ObservabilityConfig) : result (Setup Filter) string :=
  let? filter := match option_map try_new rust_log with Some (Ok f) => Ok f | _ => try_new (default_directives (level c)) end in
  let text := match format c with Json => false | TextFormat => true | Auto => stdout_is_tty end in
  Ok (mkSetup Filter filter text
    ((if negb (stdout (sinks c)) || bool_decide (is_Some (rotating_file (sinks c)))
      then ["observability sink routing is not yet implemented; logs always go to stdout regardless of [observability.sinks] (stdout=false / rotating_file ignored)"] else [])
     ++ (if negb (bool_decide (keep_ratio (sampling c) = ∅)) || negb (bool_decide (rate_limit_per_second (sampling c) = ∅))
            || negb (bool_decide (drop_events (drop c) = []))
         then ["observability sampling, rate limits, and event drops are not yet implemented; configured cost controls are ignored"] else [])
     ++ (if bool_decide (is_Some (endpoint (otlp c)))
         then ["OTLP export is not yet implemented; configured endpoint is ignored"] else []))%list).

(** ** What every line says *)

Lemma put_keeps b m kv k : is_Some (m !! k) -> is_Some (put b m kv !! k).
Proof.
  destruct kv as [k' v]. unfold put. destruct (_ && _); [done|]. intros H.
  destruct (decide (k' = k)) as [->|]; [rewrite lookup_insert_eq; by eexists|by rewrite lookup_insert_ne].
Qed.
Lemma puts_keep b l m k : is_Some (m !! k) -> is_Some (foldl (put b) m l !! k).
Proof. revert m. induction l as [|kv l IH]; intros m H; [done|]. by apply IH, put_keeps. Qed.
Lemma record_keeps b m r k : is_Some (m !! k) -> is_Some (record b m r !! k).
Proof.
  intros H. destruct r; try by apply put_keeps. cbn [record]. destruct (String.eqb _ _); [|by apply put_keeps].
  unfold merge_event_payload. destruct (object_of_json _); [by apply puts_keep|by apply put_keeps].
Qed.
Lemma foldl_keeps {A} (f : Fields -> A -> Fields) k : (forall m a, is_Some (m !! k) -> is_Some (f m a !! k)) ->
  forall l m, is_Some (m !! k) -> is_Some (foldl f m l !! k).
Proof. intros Hf l. induction l as [|a l IH]; intros m H; [done|]. by apply IH, Hf. Qed.
Lemma insert_keeps (m : Fields) k k' v : is_Some (m !! k) -> is_Some (<[k' := v]> m !! k).
Proof. intros H. destruct (decide (k' = k)) as [->|]; [rewrite lookup_insert_eq; by eexists|by rewrite lookup_insert_ne]. Qed.
Lemma insert_has (m : Fields) k v : is_Some (<[k := v]> m !! k).
Proof. rewrite lookup_insert_eq. by eexists. Qed.
Lemma merge_span_keeps spans m id k : is_Some (m !! k) -> is_Some (merge_span spans m id !! k).
Proof.
  unfold merge_span. destruct (spans !! id) as [fs|]; [|done]. intros [v Hv]. rewrite lookup_union, Hv. destruct (fs !! k); by eexists.
Qed.
Lemma resource_has (l : list (string * Value)) k m :
  k ∈ l.*1 \/ is_Some (m !! k) -> is_Some (foldl (fun (m : Fields) kv => <[kv.1 := kv.2]> m) m l !! k).
Proof.
  revert m. induction l as [|[k' v] l IH]; intros m [H|H]; [by apply not_elem_of_nil in H|done|..]; apply IH.
  - apply elem_of_cons in H as [->|H]; [right; apply insert_has|by left].
  - right. by apply insert_keeps.
Qed.

(** Nothing an event or a span records takes its time, its origin or the resource it is
    about from a line. *)
Theorem line_is_attributed resource now meta spans scope event k :
  k ∈ ["timestamp"; "log.level"; "target"] \/ k ∈ resource.*1 ->
  is_Some (on_event resource now meta spans scope event !! k).
Proof.
  intros Hk. unfold on_event. apply foldl_keeps; [intros; by apply record_keeps|].
  apply foldl_keeps; [intros; by apply merge_span_keeps|]. apply resource_has. destruct Hk as [Hk|Hk]; [right|by left].
  repeat (apply elem_of_cons in Hk as [->|Hk]); [..|by apply not_elem_of_nil in Hk].
  - do 2 apply insert_keeps. apply insert_has.
  - apply insert_keeps, insert_has.
  - apply insert_has.
Qed.

(** An event that says nothing of a key, or the empty text. *)
Definition silent (k : string) (kv : string * Value) : Prop := kv.1 = k -> kv.2 = VString "".
Definition quiet (k : string) (r : Recorded) : Prop :=
  match r with
  | RecStr name value =>
      silent k (name, VString value) /\
      (name = "event.payload" -> forall fields v, object_of_json value = Some fields -> fields !! k = Some v -> v = VString "")
  | RecBool name _ | RecInt name _ | RecFloat name _ => name <> k
  | RecDebug name text => silent k (name, VString text)
  end.

Lemma put_silent m kv k v : m !! k = Some v -> silent k kv -> put true m kv !! k = Some v.
Proof.
  destruct kv as [k' w]. unfold silent, put. cbn. intros Hm Hs. destruct (decide (k' = k)) as [->|Hne].
  - rewrite (Hs eq_refl), Hm. cbn. by rewrite bool_decide_true by by eexists.
  - destruct (_ && _); [done|]. by rewrite lookup_insert_ne.
Qed.

Lemma record_quiet m r k v : m !! k = Some v -> quiet k r -> record true m r !! k = Some v.
Proof.
  intros Hm. destruct r; cbn [record quiet]; try by (intros H; apply put_silent; [done|first [exact H|intros E; by destruct H]]).
  intros [Hs Hp]. destruct (String.eqb_spec name "event.payload") as [->|]; [|by apply put_silent].
  unfold merge_event_payload. destruct (object_of_json value) as [fields|]; [|by apply put_silent]. cbn.
  specialize (Hp eq_refl fields). assert (H : Forall (silent k) (filter (fun kv => is_payload_key kv = true) (map_to_list fields))).
  { apply Forall_forall. intros [k' w] [_ Hin%elem_of_map_to_list]%list_elem_of_filter E. cbn in *. subst k'. by apply Hp. }
  revert m Hm H. induction (filter _ _) as [|kv l IH]; intros m Hm H; [done|]. apply Forall_cons in H as [H1 H2].
  by apply IH; [apply put_silent|].
Qed.

(** What the spans or the resource say of a key an event leaves empty is what its line
    says: an event is told under the ids of the request it happens in. *)
Theorem line_inherits resource now meta spans scope event k v :
  on_event resource now meta spans scope [] !! k = Some v -> Forall (quiet k) event ->
  on_event resource now meta spans scope event !! k = Some v.
Proof.
  unfold on_event. cbn [foldl]. set (m := foldl (merge_span spans) _ scope). clearbody m. revert m.
  induction event as [|r event IH]; intros m Hm Hq; [done|]. apply Forall_cons in Hq as [Hr Hq].
  cbn [foldl]. apply IH; [by apply record_quiet|done].
Qed.
End Log.

Module Demo.
(** Documents of one table. *)
Definition tables (text : string) : list string := if String.eqb text "" then [] else [text].
Definition daemon_file : Config.ConfigFile := Config.mkFile None None None None None None None None.
Definition from_str (text : string) : result Config.ConfigFile string :=
  if String.eqb text "" then Ok daemon_file
  else if String.eqb text "network" then
    Ok (Config.mkFile None (Some (Config.mkNetworkF None (Some "br0") None)) None None None None None None)
  else Err "unknown field".
Definition rauha_from_str (text : string) : result RauhaConfigFile string :=
  if String.eqb text "" then Ok (mkRauha None)
  else if String.eqb text "observability" then Ok (mkRauha (Some default_observability))
  else Err "unknown field".
#[local] Instance toml_tables : TomlTables from_str rauha_from_str tables.
Proof.
  split; intros text f; unfold from_str, rauha_from_str, tables; (destruct (String.eqb_spec text "") as [->|]).
  - intros [= <-]. split; [set_solver|done].
  - destruct (String.eqb_spec text "network") as [->|]; [|done]. intros [= <-]. split; [|by vm_compute].
    intros t ->%list_elem_of_singleton. by apply (bool_decide_unpack _).
  - intros [= <-]. split; [set_solver|]. split; [by intros []|by intros ?%not_elem_of_nil].
  - destruct (String.eqb_spec text "observability") as [->|]; [|done]. intros [= <-]. split; [done|].
    split; [intros _; by left|by eexists].
Qed.

Definition env (name : string) : option string := if String.eqb name "RAUHA_CONFIG" then Some "/etc/rauha.toml" else None.
(** A file that sets the bridge, and one that sets the log, and an empty one. *)
Definition start (text : string) :=
  load_configs id (fun _ => "") from_str rauha_from_str (fun _ => "") env (fun _ => Ok text) "/var/lib/rauha".
Lemma explicit_configuration_sets_nothing_witness :
  (exists e, start "network" = Err e) /\ (exists e, start "observability" = Err e) /\ is_ok (start "") = true.
Proof.
  split; [|split; [|vm_compute; reflexivity]].
  - refine (proj2 (proj1 (explicit_configuration_sets_nothing id (fun _ => "") (fun _ => "") from_str rauha_from_str tables
      env (fun _ => Ok "network") "/var/lib/rauha") "/etc/rauha.toml" eq_refl) "network" eq_refl _). discriminate.
  - refine (proj2 (proj1 (explicit_configuration_sets_nothing id (fun _ => "") (fun _ => "") from_str rauha_from_str tables
      env (fun _ => Ok "observability") "/var/lib/rauha") "/etc/rauha.toml" eq_refl) "observability" eq_refl _). discriminate.
Defined.
End Demo.
End Telemetry.
