(* ===== verification/LinuxDemo.v ===== *)
(** * A concrete system under the Linux backend

    Instances of every interface of [LinuxBackend]: a file system that is a list of
    paths, commands that succeed
    (one value of a limit is refused), a kernel whose maps hold what is written, and
    ids that count.  The witnesses of [LinuxInvariant] and [Daemon] run on it. *)

From stdpp Require Import base gmap strings list sets.
From Stdlib Require Import ZArith Ascii Lia.
From S2P Require Import Prelude.
From S2P Require Import RustStr.
From S2P Require Import EnforcerApi.
From S2P Require Import Zone.
From S2P Require Import Kernel.
From S2P Require Import BpfMaps.
From S2P Require Import LinuxEnforcer.
From S2P Require Import IpAllocator.
From S2P Require Import StateError.
From S2P Require Import Backend.
From S2P Require Import LinuxHost.
From S2P Require Import LinuxPolicy.
From S2P Require Import LinuxBackend.
Import Zone Backend LinuxBackend.

Module LinuxDemo.
Open Scope string_scope.

Definition Files : Type := list string.
Definition has (p : string) (e : Files) : bool := existsb (String.eqb p) e.
Definition drop (p : string) (e : Files) : Files := List.filter (fun q => negb (String.eqb p q)) e.

#[export] Instance files_host : Host.LinuxHost Files := {|
  Host.path_exists p e := (has p e, e);
  Host.is_dir p e := (has p e, e);
  Host.create_dir p e := (Ok tt, p :: e);
  Host.create_dir_all p e := (Ok tt, p :: e);
  Host.remove_dir p e := (Ok tt, drop p e);
  Host.remove_file p e := (Ok tt, drop p e);
  Host.write_file p text e := if String.eqb text "4097" then (Err "EINVAL", e) else (Ok tt, p :: e);
  Host.read_to_string p e := (Ok "", e);
  Host.stat_ino p e := (Ok 42%Z, e);
  Host.stat_mode p e := (Ok (Host.Directory, 493%Z), e);
  Host.lstat_kind p e := (Ok Host.Directory, e);
  Host.read_dir p e := (Ok [], e);
  Host.read_link p e := (Ok "", e);
  Host.symlink target p e := (Ok tt, p :: e);
  Host.copy_file a b e := (Ok tt, b :: e);
  Host.copy_permissions a b e := (tt, e);
  Host.kill pid sig e := (tt, e);
  Host.sleep_ms n e := (tt, e);
  Host.command c args e := (Ok (Host.mkOutput true "" ""), e);
  Host.spawn_piped c args e := (Ok tt, e);
  Host.write_stdin text e := (Ok tt, e);
  Host.wait_with_output e := (Ok (Host.mkOutput true "" ""), e);
  Host.kill_and_wait e := (tt, e) |}.

#[export] Instance kernel_host : BpfHost := {|
  bpf_update present size max := if present || (size <? max)%Z then Ok tt else Err "E2BIG";
  bpf_delete present := if present then Ok tt else Err KeyMissing;
  host_load := Ok (mkEbpf (Kernel.mkMaps ∅ ∅ ∅ ∅ (Kernel.mkSelfTest 0 0) ∅ []) ∅ []);
  num_cpus := 2;
  program_loaded _ := true;
  fd_alive _ := true;
  io_text _ := "io error";
  read_dir _ := Err "not found";
  symlink_metadata _ := Err "not found" |}.

#[export] Instance kernel_laws : BpfHostLaws.
Proof.
  split; [|done..]. intros present size max [->|Hlt]; simpl; [done|].
  by rewrite (proj2 (Z.ltb_lt _ _) Hlt), orb_true_r.
Qed.

#[export] Instance daemon_host : Daemon Files := {|
  connect p e := (Err "refused", e);
  send p b e := (Ok tt, e);
  read_stream p e := ([], e);
  current_exe e := (Some "/usr/bin/rauhad", e);
  make_private_dir p e := (tt, e);
  spawn_shim bin vars args e := (Ok tt, e);
  mount_overlay r id layers dir e := (Ok dir, e);
  snapshotter_copy a b e := (Ok tt, e);
  rootfs_view e := (kernel_host, e);
  to_allocvec r := Ok [];
  from_bytes b := Err "truncated";
  shim_io_text e := "shim error";
  debug_response r := "response";
  spec_json s := Ok "{}";
  default_mounts := [];
  parse_capability c := Some c;
  debug_str s := s;
  seconds_of_usec n := "0";
  sha256 s := [1; 2; 3; 4; 5]%Z;
  project_root := "/src" |}.

(** Ids by their length. *)
Fixpoint id_text (n : nat) : string :=
  match n with O => "zone" | S n => String "i" (id_text n) end.

Lemma id_text_length n : String.length (id_text n) = (4 + n)%nat.
Proof. induction n as [|n IH]; cbn in *; congruence. Qed.

#[export] Instance counter : Rng nat := {|
  new_v4 n := (id_text n, S n);
  drawn n := list_to_set (map id_text (seq 0 n)) |}.

#[export] Instance counter_laws : RngLaws nat.
Proof.
  split. intros n u r' [= <- <-]. cbn [drawn counter]. split.
  - rewrite elem_of_list_to_set, list_elem_of_fmap. intros (k & Hk & Hin).
    apply (f_equal String.length) in Hk. rewrite !id_text_length in Hk. apply elem_of_seq in Hin. lia.
  - rewrite seq_S, map_app. cbn. set_solver.
Qed.

Definition config : LinuxBackend.Config := mkConf "/var/lib/rauha" "/run/rauha" "/run/netns" "rauha0" "10.89.0.0/16"
  [] [] "crun" 1024 16 2 1000.

Definition files0 : Files := ["/sys/fs/cgroup/cgroup.controllers"; "/sys/fs/cgroup/rauha.slice"].

(** The backend just started. *)
Definition started : LinuxBackend.State (E := Files) (R := nat) :=
  match LinuxBackend.new config 0%nat files0 with
  | (Ok s, _) => s
  | (Err _, _) => LinuxBackend.mkState (Linux.mkLinux None ∅ 1) 1 ∅ ∅ ∅ ∅ ∅ (Ip.mkAlloc [] 0 ∅) 0%nat files0 [] ∅
  end.

(** A memory limit of 4097 is what this system refuses. *)
Definition policy (caps : list string) (memory : Z) : ZonePolicy :=
  mkZonePolicy Strict (mkCapability caps) (mkResource 1024 memory 100 256)
    NetworkPolicy_default FilesystemPolicy_default (mkDevice []) (mkSyscall [] []).

(** The zones of a run: one created with a policy, its handle. *)
Definition web (memory : Z) : ZoneConfig := mkConfig "web" NonGlobal (policy ["chown"] memory).
Definition created := LinuxBackend.create_zone config (web 4096) started.
Definition handle : ZoneHandle := match fst created with Ok h => h | Err _ => mkHandle "" "" 0 None end.

End LinuxDemo.
