(* ===== verification/LinuxInvariant.v ===== *)
(** * What the Linux backend keeps in the kernel

    Every state the backend reaches, and every state of the kernel maps on the
    way, has a policy for each live zone with an enrolled cgroup; a policy applied
    in full is the one in the kernel.  Most of what the backend does touches
    neither table: [benign] collects that, and the few steps that do are
    followed one by one. *)

From stdpp Require Import base gmap strings list sets.
From Stdlib Require Import ZArith Lia.
From S2P Require Import Prelude.
From S2P Require Import RustStr.
From S2P Require Import EnforcerApi.
From S2P Require Import Zone.
From S2P Require Import Kernel.
From S2P Require Import BpfMaps.
From S2P Require Import LinuxEnforcer.
From S2P Require Import IpAllocator.
From S2P Require Import StateError.
From S2P Require Import Backend.
From S2P Require Import LinuxHost.
From S2P Require Import Cgroup.
From S2P Require Import Network.
From S2P Require Import Nftables.
From S2P Require Import LinuxPolicy.
From S2P Require Import LinuxBackend.
From S2P Require Import LinuxDemo.
Import Zone.
Import Backend.
Import LinuxBackend.

Module LinuxInvariant.

Section Benign.
Context {E R : Type} `{!Host.LinuxHost E, !Daemon E, !Rng R, !RngLaws R} `{K : BpfHost}.
Context (config : Config).
Notation State := (LinuxBackend.State (E := E) (R := R)).
Notation M := (M State RauhaError).

(** The two tables of the loaded object that decide who is confined and how. *)
Definition Tables : Type := gmap Z Kernel.ZoneInfoKernel * gmap Z Kernel.ZonePolicyKernel.
Definition tables (o : option Ebpf) : option Tables :=
  (fun e => (Kernel.ZONE_MEMBERSHIP (maps e), Kernel.ZONE_POLICY (maps e))) <$> o.

Definition now_tables (s : State) := tables (Linux.ebpf (enforcer s)).

(** Steps that leave the zones' ids, those tables and the applied policies as
    they are. *)
Record benign (s s' : State) : Prop := {
  benign_ids : zone_id_map s' = zone_id_map s;
  benign_next : next_zone_id s' = next_zone_id s;
  benign_applied : applied s' = applied s;
  benign_drawn : drawn (rng s) ⊆ drawn (rng s');
  benign_tables : now_tables s' = now_tables s;
  benign_history : exists h, history s' = (h ++ history s)%list /\
    Forall (fun x => fst x = zone_id_map s /\ tables (snd x) = now_tables s) h }.

#[export] Instance benign_preorder : PreOrder benign.
Proof.
  split.
  - intros s. split; try done. by exists [].
  - intros s1 s2 s3 [A1 A2 A3 A4 A5 (h1 & A6 & F1)] [B1 B2 B3 B4 B5 (h2 & B6 & F2)].
    split; try congruence; [by etransitivity|]. exists (h2 ++ h1)%list. split; [by rewrite B6, A6, app_assoc|].
    apply Forall_app_2; [|done]. eapply Forall_impl; [exact F2|]. intros x. by rewrite A1, A5.
Qed.

Lemma benign_set (s s' : State) :
  enforcer s' = enforcer s -> zone_id_map s' = zone_id_map s -> next_zone_id s' = next_zone_id s ->
  applied s' = applied s -> rng s' = rng s -> history s' = history s -> benign s s'.
Proof.
  intros E1 E2 E3 E4 E5 E6. split; try done; [by rewrite E5|by unfold now_tables; rewrite E1|].
  exists []. by rewrite E6.
Qed.

Lemma benign_modify (f : State -> State) : (forall s, benign s (f s)) -> keeps benign (modify f : M unit).
Proof. intros Hf s. apply wp_modify, Hf. Qed.

Lemma benign_io {A} (c : Host.IO (E := E) A) : keeps benign (io c : M A).
Proof. intros s. unfold wp, io. destruct (c (env s)). by apply benign_set. Qed.
Lemma benign_os {A} (f : E -> A * E) : keeps benign (LinuxBackend.os f : M A).
Proof. apply benign_io. Qed.
Lemma benign_os_try {A X} (f : E -> result A X * E) err : keeps benign (LinuxBackend.os_try f err).
Proof. apply benign_io. Qed.

Lemma benign_alloc {A} (f : Ip.IpAllocator -> result A RauhaError * Ip.IpAllocator) : keeps benign (alloc f).
Proof. intros s. unfold wp, alloc. destruct (f (ip_allocator s)). by apply benign_set. Qed.

Lemma benign_uuid : keeps benign (uuid : M _).
Proof.
  intros s. unfold wp, uuid. destruct (new_v4 (rng s)) as [u r] eqn:Hu. cbn.
  apply new_v4_fresh in Hu as [_ Hr]. split; try done; cbn; [rewrite Hr; set_solver|by exists []].
Qed.

(** Map operations on the other tables. *)
Lemma benign_bpf {A} (f : Linux.LinuxEnforcer -> result A RauhaError * Linux.LinuxEnforcer) :
  (forall x, tables (Linux.ebpf (snd (f x))) = tables (Linux.ebpf x)) -> keeps benign (bpf f).
Proof.
  intros Hf s. unfold wp, bpf. pose proof (Hf (enforcer s)) as Ht. destruct (f (enforcer s)) as [r x]. cbn in *.
  split; try done. eexists [_]. split; [done|]. by repeat constructor.
Qed.

Lemma with_bpf_tables op f :
  (forall m m', f m = Ok m' -> Kernel.ZONE_MEMBERSHIP m' = Kernel.ZONE_MEMBERSHIP m /\
                               Kernel.ZONE_POLICY m' = Kernel.ZONE_POLICY m) ->
  forall x, tables (Linux.ebpf (snd (Linux.with_bpf op f x))) = tables (Linux.ebpf x).
Proof.
  intros Hf x. unfold Linux.with_bpf. destruct (Linux.ebpf x) as [e|] eqn:He; cbn; [|by rewrite He].
  destruct (f (maps e)) as [m|] eqn:Hm; cbn; [|by rewrite He]. destruct (Hf _ _ Hm) as [E1 E2].
  unfold tables. cbn. by rewrite E1, E2.
Qed.

Ltac table_op := apply benign_bpf, with_bpf_tables; intros m m' Hm; revert Hm; cbv beta delta
  [MapManager.allow_zone_comm MapManager.deny_zone_comm]; cbv zeta;
  match goal with |- match ?x with _ => _ end = _ -> _ => destruct x; [|done] end; by intros [= <-].

Lemma benign_allow a b : keeps benign (bpf (Linux.allow_zone_comm a b)).
Proof. table_op. Qed.
Lemma benign_deny a b : keeps benign (bpf (Linux.deny_zone_comm a b)).
Proof. table_op. Qed.

Lemma insert_inodes_same l z m :
  Kernel.ZONE_MEMBERSHIP (snd (MapManager.insert_inodes m l z)) = Kernel.ZONE_MEMBERSHIP m /\
  Kernel.ZONE_POLICY (snd (MapManager.insert_inodes m l z)) = Kernel.ZONE_POLICY m.
Proof.
  revert m. induction l as [|i l IH]; intros m; [done|]. cbn [MapManager.insert_inodes].
  destruct (MapManager.set_inode_zone m i z) as [m'|] eqn:Hm; [|apply IH]. specialize (IH m').
  revert Hm IH. unfold MapManager.set_inode_zone.
  destruct (MapManager.hash_insert _ _ _ _ _ _); [intros [= <-]|done].
  by destruct (MapManager.insert_inodes _ l z).
Qed.

Lemma remove_inodes_same l n m :
  Kernel.ZONE_MEMBERSHIP (snd (MapManager.remove_inodes m l n)) = Kernel.ZONE_MEMBERSHIP m /\
  Kernel.ZONE_POLICY (snd (MapManager.remove_inodes m l n)) = Kernel.ZONE_POLICY m.
Proof.
  revert n m. induction l as [|i l IH]; intros n m; [done|]. cbn [MapManager.remove_inodes].
  destruct (MapManager.remove_inode_zone m i) as [m'|] eqn:Hm; [|done]. specialize (IH (wrap 32 (n + 1)) m').
  revert Hm IH. unfold MapManager.remove_inode_zone. by destruct (MapManager.hash_remove _ _ _); [intros [= <-]|].
Qed.

Lemma benign_insert_inodes l z : keeps benign (bpf (Linux.insert_inodes l z)).
Proof.
  apply benign_bpf. intros x. unfold Linux.insert_inodes. destruct (Linux.ebpf x) as [e|] eqn:He; [|by cbn; rewrite ?He].
  pose proof (insert_inodes_same l z (maps e)) as [E1 E2]. destruct (MapManager.insert_inodes (maps e) l z).
  cbn in *. unfold tables. cbn. by rewrite E1, E2.
Qed.

Lemma benign_remove_inodes l : keeps benign (bpf (Linux.remove_inodes l)).
Proof.
  apply benign_bpf. intros x. unfold Linux.remove_inodes. destruct (Linux.ebpf x) as [e|] eqn:He; [|by cbn; rewrite ?He].
  pose proof (remove_inodes_same l 0 (maps e)) as [E1 E2]. destruct (MapManager.remove_inodes (maps e) l 0).
  cbn in *. unfold tables. cbn. by rewrite E1, E2.
Qed.

Hint Resolve benign_io benign_os benign_os_try benign_alloc benign_uuid benign_allow benign_deny
  benign_insert_inodes benign_remove_inodes : keeps.
Hint Extern 2 (keeps benign (modify _)) => apply benign_modify; intros ?; by apply benign_set : keeps.
Hint Unfold get_zone_id release_ip record_degradation clear_degradation : keeps.

Lemma benign_get_zone_id u : keeps benign (get_zone_id u).
Proof. unfold get_zone_id. keeps_auto. Qed.
Lemma benign_release_ip a : keeps benign (release_ip a).
Proof. unfold release_ip. keeps_auto. Qed.
Lemma benign_record n c : keeps benign (record_degradation n c).
Proof. unfold record_degradation. keeps_auto. Qed.
Lemma benign_clear n c : keeps benign (clear_degradation n c).
Proof. unfold clear_degradation. keeps_auto. Qed.
Hint Resolve benign_get_zone_id benign_release_ip benign_record benign_clear : keeps.

Lemma benign_tolerate n c p e : keeps benign (tolerate n c p e).
Proof. unfold tolerate. keeps_auto. Qed.
Hint Resolve benign_tolerate : keeps.

Lemma benign_send p r : keeps benign (send_request p r).
Proof. unfold send_request. keeps_auto. Qed.
Lemma benign_shim n r : keeps benign (shim_request config n r).
Proof. apply benign_send. Qed.
Hint Resolve benign_send benign_shim : keeps.

Lemma benign_first_existing l : keeps benign (first_existing l).
Proof. induction l; cbn [first_existing]; keeps_auto. Qed.
Lemma benign_await n p : keeps benign (await_socket n p).
Proof. induction n; cbn [await_socket]; keeps_auto. Qed.
Hint Resolve benign_first_existing benign_await : keeps.
Lemma benign_find_shim : keeps benign find_shim_binary.
Proof. unfold find_shim_binary. keeps_auto. Qed.
Hint Resolve benign_find_shim : keeps.
Lemma benign_ensure_shim n : keeps benign (ensure_shim config n).
Proof. unfold ensure_shim. keeps_auto. Qed.
Hint Resolve benign_ensure_shim : keeps.

Lemma benign_nftables h p : keeps benign (apply_nftables_for_zone h p).
Proof. unfold apply_nftables_for_zone, veth_host_name_for. keeps_auto. Qed.
Lemma benign_resources n r : keeps benign (apply_resources n r).
Proof. unfold apply_resources. keeps_auto. Qed.
Lemma benign_collect r n : keeps benign (collect_rootfs_inodes r n).
Proof. unfold collect_rootfs_inodes. keeps_auto. Qed.
Hint Resolve benign_nftables benign_resources benign_collect : keeps.
Lemma benign_collect_containers c es l : keeps benign (collect_containers c es l).
Proof. revert l. induction es as [|[|] es IH]; intros l; cbn [collect_containers]; cbv zeta; keeps_auto. Qed.
Hint Resolve benign_collect_containers : keeps.
Lemma benign_collect_zone n : keeps benign (collect_zone_rootfs_inodes config n).
Proof. unfold collect_zone_rootfs_inodes. cbv zeta. keeps_auto. Qed.
Hint Resolve benign_collect_zone : keeps.
Lemma benign_restore_inodes n z : keeps benign (restore_rootfs_inodes config n z).
Proof. unfold restore_rootfs_inodes. keeps_auto. Qed.
Lemma benign_sync z p : keeps benign (sync_bpf_allowed_comms z p).
Proof. unfold sync_bpf_allowed_comms. keeps_auto. Qed.
Lemma benign_admit p : keeps benign (admit_policy config p).
Proof. intros s. unfold wp, admit_policy. reflexivity. Qed.
Hint Resolve benign_restore_inodes benign_sync benign_admit : keeps.

(** ** What is kept: the invariant of ids, memberships, policies *)

Record Core := mkCore {
  c_ids : gmap string Z; c_next : Z;
  c_tables : option Tables;
  c_applied : gmap string ZonePolicy }.

Definition core (s : State) : Core := mkCore (zone_id_map s) (next_zone_id s) (now_tables s) (applied s).

Lemma benign_core s s' : benign s s' -> core s' = core s.
Proof. intros [H1 H2 H3 _ H5 _]. unfold core. by rewrite H1, H2, H3, H5. Qed.

(** Every member of a live zone has a policy to be judged by. *)
Definition covered (ids : gmap string Z) (t : option Tables) : Prop :=
  forall m pol cg info u, t = Some (m, pol) -> m !! cg = Some info ->
    ids !! u = Some (Kernel.zone_id info) -> is_Some (pol !! Kernel.zone_id info).

(** The kernel's record of a zone encodes a policy. *)
Definition encoded (p : ZonePolicy) (o : option Kernel.ZonePolicyKernel) : Prop :=
  exists kp, MapManager.policy_to_kernel p = Ok kp /\ o = Some kp.

Record inv (c : Core) : Prop := {
  inv_range : forall u k, c_ids c !! u = Some k -> (1 <= k < c_next c)%Z;
  inv_inj : forall u u' k, c_ids c !! u = Some k -> c_ids c !! u' = Some k -> u = u';
  inv_next : (1 <= c_next c)%Z;
  inv_members : forall m pol cg info, c_tables c = Some (m, pol) -> m !! cg = Some info ->
    (Kernel.zone_id info < c_next c)%Z;
  inv_covered : covered (c_ids c) (c_tables c);
  inv_applied : forall u p, c_applied c !! u = Some p -> exists k, c_ids c !! u = Some k /\
    forall m pol, c_tables c = Some (m, pol) -> encoded p (pol !! k);
  inv_loaded : is_Some (c_tables c);
  inv_policies : forall m pol k, c_tables c = Some (m, pol) -> is_Some (pol !! k) -> (k < c_next c)%Z }.

Definition hist_ok (s : State) : Prop := Forall (fun x => covered (fst x) (tables (snd x))) (history s).

(** The invariant, and a fact on the ids and tables. *)
Definition at_ (P : Core -> Prop) (s : State) : Prop := inv (core s) /\ hist_ok s /\ P (core s).

Lemma at_benign P s s' : at_ P s -> benign s s' -> at_ P s'.
Proof.
  intros (Hi & Hh & Hp) Hb. pose proof (benign_core _ _ Hb) as Hc. unfold at_. rewrite Hc. split; [done|split; [|done]].
  destruct Hb as [_ _ _ _ _ (h & Hs & F)]. unfold hist_ok. rewrite Hs. apply Forall_app_2; [|done].
  eapply Forall_impl; [exact F|]. intros x (-> & ->). apply (inv_covered _ Hi).
Qed.

Lemma at_mono (P P' : Core -> Prop) s : (forall c, inv c -> P c -> P' c) -> at_ P s -> at_ P' s.
Proof. intros H1 (H2 & H3 & H4). split; [done|split; auto]. Qed.

Lemma wp_benign {A} (c : M A) P (Q : result A RauhaError -> State -> Prop) s :
  keeps benign c -> at_ P s -> (forall r s', at_ P s' -> Q r s') -> wp c Q s.
Proof. intros Hc Hs HQ. eapply wp_mono; [apply Hc|]. intros r s' Hb. apply HQ. exact (at_benign _ _ _ Hs Hb). Qed.

(** What is known of one zone while it is built or taken down: its id, that no
    policy counts as applied, which cgroups may be enrolled under the id, and
    what the kernel has as its policy. *)
Definition stage (u : string) (k : Z) (S : Z -> Prop) (T : option Kernel.ZonePolicyKernel -> Prop) (c : Core) : Prop :=
  c_ids c !! u = Some k /\ c_applied c !! u = None /\
  forall m pol, c_tables c = Some (m, pol) ->
    (forall cg info, m !! cg = Some info -> Kernel.zone_id info = k -> S cg) /\ T (pol !! k).

Definition nobody : Z -> Prop := fun _ => False.
Definition anybody : Z -> Prop := fun _ => True.
Definition whatever : option Kernel.ZonePolicyKernel -> Prop := fun _ => True.
Definition none : option Kernel.ZonePolicyKernel -> Prop := fun o => o = None.

(** ** Steps on the two tables *)

(** A map operation that either fails and changes nothing or rewrites the tables. *)
Definition table_step (f : Linux.LinuxEnforcer -> result unit RauhaError * Linux.LinuxEnforcer)
    (g : Tables -> Tables -> Prop) : Prop :=
  forall x, match f x with
  | (Ok _, x') => exists t t', tables (Linux.ebpf x) = Some t /\ tables (Linux.ebpf x') = Some t' /\ g t t'
  | (Err _, x') => tables (Linux.ebpf x') = tables (Linux.ebpf x)
  end.

Lemma wp_table f g P P' s :
  table_step f g -> at_ P s ->
  (forall t t', c_tables (core s) = Some t -> g t t' ->
     let c' := mkCore (zone_id_map s) (next_zone_id s) (Some t') (applied s) in inv c' /\ P' c') ->
  wp (bpf f : M unit) (fun r s' => match r with Ok _ => at_ P' s' | Err _ => at_ P s' end) s.
Proof.
  intros Hf (Hi & Hh & Hp) Hg. unfold wp, bpf. specialize (Hf (enforcer s)).
  destruct (f (enforcer s)) as [[[]|e] x]; cbn.
  - destruct Hf as (t & t' & Ht & Hx & Htt). destruct (Hg t t' Ht Htt) as [H1 H2].
    assert (core (set_enforcer x s) = mkCore (zone_id_map s) (next_zone_id s) (Some t') (applied s)) as Hc
      by (unfold core; f_equal; exact Hx).
    unfold at_. rewrite Hc. split; [done|split; [|done]]. constructor; [|exact Hh].
    change (covered (zone_id_map s) (tables (Linux.ebpf x))). rewrite Hx. exact (inv_covered _ H1).
  - assert (core (set_enforcer x s) = core s) as Hc by (unfold core; f_equal; exact Hf).
    unfold at_. rewrite Hc. split; [done|split; [|done]]. constructor; [|exact Hh].
    change (covered (zone_id_map s) (tables (Linux.ebpf x))). rewrite Hf. exact (inv_covered _ Hi).
Qed.

Lemma with_bpf_step op f (g : Tables -> Tables -> Prop) :
  (forall m m', f m = Ok m' ->
     g (Kernel.ZONE_MEMBERSHIP m, Kernel.ZONE_POLICY m) (Kernel.ZONE_MEMBERSHIP m', Kernel.ZONE_POLICY m')) ->
  table_step (Linux.with_bpf op f) g.
Proof.
  intros Hf x. unfold Linux.with_bpf. destruct (Linux.ebpf x) as [e|] eqn:He; cbn; [|by rewrite He].
  destruct (f (maps e)) as [m|] eqn:Hm; cbn; [|by rewrite He].
  do 2 eexists. split; [reflexivity|]. split; [reflexivity|]. exact (Hf _ _ Hm).
Qed.

Lemma set_kernel_tables k kp m m' : MapManager.set_zone_policy_kernel m k kp = Ok m' ->
  (Kernel.ZONE_MEMBERSHIP m', Kernel.ZONE_POLICY m') = (Kernel.ZONE_MEMBERSHIP m, <[k := kp]> (Kernel.ZONE_POLICY m)).
Proof.
  unfold MapManager.set_zone_policy_kernel. destruct (MapManager.hash_insert _ _ _ _ _ _) eqn:Hx; [|done].
  apply Linux.hash_insert_inv in Hx as ->. by intros [= <-].
Qed.

(** The two ways a policy reaches the kernel. *)
Definition sets_policy (k : Z) (p : ZonePolicy) (t t' : Tables) : Prop :=
  exists kp, MapManager.policy_to_kernel p = Ok kp /\ t' = (fst t, <[k := kp]> (snd t)).

Lemma set_policy_step op k p :
  table_step (Linux.with_bpf op (fun m => MapManager.set_zone_policy m k p)) (sets_policy k p).
Proof.
  apply with_bpf_step. intros m m'. unfold MapManager.set_zone_policy.
  destruct (MapManager.policy_to_kernel p) as [kp|] eqn:Hkp; [|done]. intros Hm. exists kp.
  split; [done|]. exact (set_kernel_tables _ _ _ _ Hm).
Qed.

Lemma apply_enforcement_step k p enf : to_enforcement p = Ok enf ->
  table_step (Linux.apply_zone_enforcement k enf) (sets_policy k p).
Proof.
  intros He. apply with_bpf_step. intros m m' Hm. exists (MapManager.enforcement_to_kernel enf).
  split; [unfold MapManager.policy_to_kernel; by rewrite He|]. exact (set_kernel_tables _ _ _ _ Hm).
Qed.

Lemma add_member_step cg k t :
  table_step (Linux.add_zone_member cg k t)
    (fun x x' => x' = (<[cg := Kernel.mkInfo k (MapManager.member_flags t)]> (fst x), snd x)).
Proof.
  apply with_bpf_step. intros m m'. unfold MapManager.add_zone_member.
  destruct (MapManager.hash_insert _ _ _ _ _ _) eqn:Hx; [|done]. apply Linux.hash_insert_inv in Hx as ->.
  by intros [= <-].
Qed.

(** ** Steps on one zone *)

(** Ids and applied policies may change for [u] only; ids drawn and allocated
    never come back. *)
Record touches (u : string) (s s' : State) : Prop := {
  touches_ids : forall v, v <> u -> zone_id_map s' !! v = zone_id_map s !! v;
  touches_applied : forall v, v <> u -> applied s' !! v = applied s !! v;
  touches_drawn : drawn (rng s) ⊆ drawn (rng s');
  touches_next : (next_zone_id s <= next_zone_id s')%Z }.

#[export] Instance touches_preorder u : PreOrder (touches u).
Proof.
  split.
  - intros s. by split.
  - intros s1 s2 s3 [A1 A2 A3 A4] [B1 B2 B3 B4]. split; [| |by etransitivity|lia].
    + intros v Hv. by rewrite B1, A1.
    + intros v Hv. by rewrite B2, A2.
Qed.

Lemma benign_touches u {A} (c : M A) : keeps benign c -> keeps (touches u) c.
Proof.
  intros Hc s. eapply wp_mono; [apply Hc|]. intros r s' [H1 H2 H3 H4 _ _].
  split; [by rewrite H1|by rewrite H3|done|by rewrite H2].
Qed.

Lemma touches_bpf u {A} (f : Linux.LinuxEnforcer -> result A RauhaError * Linux.LinuxEnforcer) :
  keeps (touches u) (bpf f : M A).
Proof. intros s. unfold wp, bpf. destruct (f (enforcer s)). by split. Qed.

Lemma touches_allocate u : keeps (touches u) (allocate_zone_id u : M Z).
Proof.
  intros s. unfold wp, allocate_zone_id. split; cbn; [| |done|lia]; intros v Hv.
  - by apply lookup_insert_ne.
  - by apply lookup_delete_ne.
Qed.
Lemma touches_remove u : keeps (touches u) (remove_zone_id u : M _).
Proof.
  intros s. unfold wp, remove_zone_id. split; cbn; [| |done|lia]; intros v Hv; by apply lookup_delete_ne.
Qed.
Lemma touches_forget zone : keeps (touches (h_id zone)) (forget_applied zone : M _).
Proof. intros s. unfold wp, forget_applied. split; cbn; [done| |done|lia]. intros v Hv. by apply lookup_delete_ne. Qed.
Lemma touches_remember zone p : keeps (touches (h_id zone)) (remember_policy zone p : M _).
Proof. intros s. unfold wp, remember_policy. split; cbn; [done| |done|lia]. intros v Hv. by apply lookup_insert_ne. Qed.

Lemma keeps_or_undo {A} Rel `{!PreOrder Rel} (c : M A) undo :
  keeps Rel c -> keeps Rel undo -> keeps Rel (or_undo c undo).
Proof. intros Hc Hu. unfold or_undo. keeps_auto. Qed.
Lemma keeps_step_ {A} Rel `{!PreOrder Rel} p (c : M A) k :
  keeps Rel c -> (forall a, keeps Rel (k a)) -> keeps Rel (step p c k).
Proof. intros Hc Hu. unfold step. keeps_auto. Qed.

Hint Extern 4 (keeps (touches _) _) => apply benign_touches : keeps.
Hint Resolve touches_bpf touches_allocate touches_remove touches_forget touches_remember : keeps.

Ltac keeps_all := repeat first [solve [eauto 3 with keeps] | keeps_step |
  apply keeps_or_undo; [apply _| |] | apply keeps_step_; [apply _| |intros ?]].

Lemma touches_rollback name u n : keeps (touches u) (rollback_zone config name u n).
Proof. unfold rollback_zone. keeps_all. Qed.
Hint Resolve touches_rollback : keeps.
Lemma benign_allocate_ip : keeps benign allocate_ip.
Proof. unfold allocate_ip. keeps_auto. Qed.
Hint Resolve benign_allocate_ip : keeps.
Lemma touches_network cf u : keeps (touches u) (create_network config cf u).
Proof. unfold create_network. keeps_all. Qed.
Hint Resolve touches_network : keeps.

Lemma touches_destroy zone : keeps (touches (h_id zone)) (destroy_zone config zone).
Proof. unfold destroy_zone. keeps_all. Qed.
Lemma touches_enforce zone p : keeps (touches (h_id zone)) (enforce_policy config zone p).
Proof. unfold enforce_policy, kernel_id_of. keeps_all. Qed.
Lemma touches_reload_steps zone k p u : keeps (touches u) (reload_steps zone k p).
Proof. unfold reload_steps. keeps_all. Qed.
Lemma touches_restore_steps zone k p u : keeps (touches u) (restore_steps zone k p).
Proof. unfold restore_steps. keeps_all. Qed.
Hint Resolve touches_reload_steps touches_restore_steps : keeps.
Lemma touches_reload zone p : keeps (touches (h_id zone)) (hot_reload_policy config zone p).
Proof. unfold hot_reload_policy, kernel_id_of. keeps_all. Qed.

Lemma benign_restore_control n c p m : keeps benign m -> keeps benign (restore_control n c p m).
Proof. intros Hm. unfold restore_control. keeps_auto. Qed.
Hint Resolve benign_restore_control : keeps.
Lemma benign_recover_ip zone p n : keeps benign (recover_ip config zone p n).
Proof. unfold recover_ip. keeps_auto. Qed.
Lemma benign_recover_network zone p : keeps benign (recover_network config zone p).
Proof. unfold recover_network. keeps_auto. Qed.
Lemma benign_recover_inodes zone k p : keeps benign (recover_inodes config zone k p).
Proof. unfold recover_inodes. keeps_auto. Qed.
Lemma benign_drain zone p : keeps benign (drain_before_undo zone p).
Proof. unfold drain_before_undo. keeps_auto. Qed.
Hint Resolve benign_recover_ip benign_recover_network benign_recover_inodes benign_drain : keeps.
Lemma touches_recovery zone t p k : keeps (touches (h_id zone)) (recovery config zone t p k).
Proof. unfold recovery. cbv zeta. keeps_all. Qed.
Lemma touches_undo_recovery zone k p : keeps (touches (h_id zone)) (undo_recovery zone k p).
Proof. unfold undo_recovery. keeps_all. Qed.
Hint Resolve touches_recovery touches_undo_recovery : keeps.
Lemma touches_recover zone t p : keeps (touches (h_id zone)) (recover_zone config zone t p).
Proof. unfold recover_zone. keeps_all. Qed.

Lemma benign_find_zone c : keeps benign (zone_of_container c).
Proof. unfold zone_of_container. keeps_auto. Qed.
Hint Resolve benign_find_zone : keeps.
Lemma benign_register zone p d k : keeps benign (register_container zone p d k).
Proof. unfold register_container, register_rootfs. keeps_auto. Qed.
Lemma benign_copy depth src dst : keeps benign (copy_dir_recursive depth src dst).
Proof.
  revert src dst. induction depth as [|depth IH]; intros src dst; cbn [copy_dir_recursive]; cbv zeta; keeps_auto.
Qed.
Hint Resolve benign_copy : keeps.
Lemma benign_create_container zone spec : keeps benign (create_container config zone spec).
Proof.
  unfold create_container, prepare_container_rootfs, write_resolv_conf, build_spec. cbv zeta.
  pose proof benign_register. keeps_auto.
Qed.
Lemma benign_start_container c : keeps benign (start_container config c).
Proof. unfold start_container. keeps_auto. Qed.
Lemma benign_stop_container c : keeps benign (stop_container config c).
Proof. unfold stop_container. keeps_auto. Qed.
Lemma benign_stats zone : keeps benign (zone_stats zone).
Proof. apply benign_io. Qed.
Lemma benign_verify zone : keeps benign (verify_isolation config zone).
Proof. unfold verify_isolation, inode_check, veth_host_name_for. cbv zeta. keeps_auto. Qed.

Lemma touches_cleanup_cgroups u known es live : keeps (touches u) (cleanup_cgroups known live es).
Proof.
  revert live. induction es as [|e es IH]; intros live; cbn [cleanup_cgroups]; [keeps_all|].
  unfold cleanup_cgroup. keeps_all.
Qed.
Lemma touches_cleanup u zones : keeps (touches u) (cleanup_orphans config zones).
Proof.
  unfold cleanup_orphans, list_dir, cleanup_netns. cbv zeta. pose proof touches_cleanup_cgroups. keeps_all.
Qed.

(** A program that keeps a relation, and what it returns. *)
Definition post {A} (Rel : State -> State -> Prop) (P : A -> Prop) (s : State) (r : result A RauhaError) (s' : State) : Prop :=
  Rel s s' /\ match r with Ok a => P a | Err _ => True end.

Lemma wp_then {A B} Rel `{!PreOrder Rel} (P : B -> Prop) (c : M A) (k : A -> M B) s0 s :
  keeps Rel c -> Rel s0 s -> (forall a s', Rel s0 s' -> wp (k a) (post Rel P s0) s') ->
  wp (bind c k) (post Rel P s0) s.
Proof.
  intros Hc Hs Hk. apply wp_bind. eapply wp_mono; [apply Hc|]. intros [a|e] s' Hs'.
  - apply Hk. by transitivity s.
  - split; [by transitivity s|done].
Qed.

(** What [create_zone] does once it has drawn the id. *)
Lemma create_zone_unfold cf s :
  match fst (admit_policy config (cf_policy cf) s) with
  | Err e => create_zone config cf s = (Err e, s)
  | Ok _ => exists u r', new_v4 (rng s) = (u, r') /\
      wp (create_zone config cf) (post (touches u) (fun h => h_id h = u) (set_rng r' s)) s
  end.
Proof.
  destruct (fst (admit_policy config (cf_policy cf) s)) as [[]|e] eqn:Ha.
  - destruct (new_v4 (rng s)) as [u r'] eqn:Hu. exists u, r'. split; [done|]. unfold create_zone. cbv zeta.
    apply wp_bind. unfold wp at 1. rewrite Ha. unfold admit_policy at 1. cbn [snd]. apply wp_bind.
    unfold wp at 1, uuid. rewrite Hu. cbn [fst snd].
    repeat (apply wp_then; [apply _|keeps_all|reflexivity || done|intros ? ? ?]).
    all: try (by apply wp_ret).
  - unfold create_zone, bind. unfold admit_policy in *. cbn in *. by rewrite Ha.
Qed.

(** ** The backend keeps the contract of the trait *)

(** The zones with a kernel id, each with the policy applied in full. *)
Definition live_view (s : State) : gmap string (option ZonePolicy) :=
  map_imap (fun u _ => Some (applied s !! u)) (zone_id_map s).

Lemma live_view_lookup s u : live_view s !! u = (fun _ => applied s !! u) <$> zone_id_map s !! u.
Proof. unfold live_view. rewrite map_lookup_imap. by destruct (zone_id_map s !! u). Qed.

Lemma touches_view u v s s' : touches u s s' -> v <> u -> live_view s' !! v = live_view s !! v.
Proof. intros [H1 H2 _ _] Hv. by rewrite !live_view_lookup, H1, H2. Qed.

Lemma benign_view s s' : benign s s' -> live_view s' = live_view s.
Proof. intros [H1 _ H3 _ _ _]. unfold live_view. by rewrite H1, H3. Qed.

Lemma keeps_final {A} Rel (c : M A) s : keeps Rel c -> Rel s (snd (c s)).
Proof. intros Hc. apply Hc. Qed.

(** A policy that ends being applied. *)
Definition applies (zone : ZoneHandle) (p : ZonePolicy) (r : result unit RauhaError) (s : State) : Prop :=
  match r with Ok _ => live_view s !! h_id zone = Some (Some p) | Err _ => True end.

Lemma applies_remember zone p k s :
  zone_id_map s !! h_id zone = Some k -> wp (remember_policy zone p) (applies zone p) s.
Proof. intros Hk. unfold wp, remember_policy. cbn. rewrite live_view_lookup. cbn. by rewrite Hk, lookup_insert_eq. Qed.

(** Steps after which the zone still has an id. *)
Definition has_id (u : string) (k : Z) (s s' : State) : Prop :=
  zone_id_map s !! u = Some k -> zone_id_map s' !! u = Some k.

#[export] Instance has_id_preorder u k : PreOrder (has_id u k).
Proof. unfold has_id. split; [intros s; exact id|]. intros s1 s2 s3 H1 H2 H3. auto. Qed.

Lemma benign_has_id u k {A} (c : M A) : keeps benign c -> keeps (has_id u k) c.
Proof. intros Hc s. eapply wp_mono; [apply Hc|]. intros r s' Hb. unfold has_id. by rewrite (benign_ids _ _ Hb). Qed.
Lemma bpf_has_id u k {A} (f : Linux.LinuxEnforcer -> result A RauhaError * Linux.LinuxEnforcer) :
  keeps (has_id u k) (bpf f : M A).
Proof. intros s. unfold wp, bpf. destruct (f (enforcer s)). exact id. Qed.
Lemma forget_has_id u k zone : keeps (has_id u k) (forget_applied zone : M _).
Proof. intros s. exact id. Qed.
Hint Extern 4 (keeps (has_id _ _) _) => apply benign_has_id : keeps.
Hint Resolve bpf_has_id forget_has_id : keeps.
Lemma reload_has_id u k zone z p : keeps (has_id u k) (reload_steps zone z p).
Proof. unfold reload_steps. keeps_all. Qed.
Lemma restore_has_id u k zone z p : keeps (has_id u k) (restore_steps zone z p).
Proof. unfold restore_steps. keeps_all. Qed.
Hint Resolve reload_has_id restore_has_id : keeps.

(** A program that keeps the id, and one that follows it. *)
Lemma applies_bind {A} zone p k (c : M A) (next : A -> M unit) s :
  keeps (has_id (h_id zone) k) c -> zone_id_map s !! h_id zone = Some k ->
  (forall a s', zone_id_map s' !! h_id zone = Some k -> wp (next a) (applies zone p) s') ->
  wp (bind c next) (applies zone p) s.
Proof.
  intros Hc Hk Hn. apply wp_bind. eapply wp_mono; [apply Hc|]. intros [a|e] s' Hs'; [|done]. by apply Hn, Hs'.
Qed.

Lemma applies_kernel_id zone p (next : Z -> M unit) s :
  (forall k, zone_id_map s !! h_id zone = Some k -> wp (next k) (applies zone p) s) ->
  wp (bind (kernel_id_of zone) next) (applies zone p) s.
Proof.
  intros Hn. unfold kernel_id_of. repeat wp_step. unfold get_zone_id. repeat wp_step; [by apply Hn|done].
Qed.

Lemma enforce_applies zone p s : wp (enforce_policy config zone p) (applies zone p) s.
Proof.
  unfold enforce_policy. apply wp_bind. unfold wp at 1, admit_policy at 1 2. cbn [fst snd].
  destruct (LinuxPolicy.admit_linux_policy _ _ _) as [[]|]; [|done].
  apply applies_kernel_id. intros k Hk.
  repeat (eapply applies_bind; [keeps_all|done|intros ? ? ?]). by eapply applies_remember.
Qed.

Lemma reload_applies zone p s : wp (hot_reload_policy config zone p) (applies zone p) s.
Proof.
  unfold hot_reload_policy. apply wp_bind. unfold wp at 1, admit_policy at 1 2. cbn [fst snd].
  destruct (LinuxPolicy.admit_linux_policy _ _ _) as [[]|]; [|done].
  do 3 wp_step. wp_step; [|done]. apply applies_kernel_id. intros k Hk.
  repeat (eapply applies_bind; [keeps_all|done|intros ? ? ?]). by eapply applies_remember.
Qed.

(** A recovery that ends well has applied the policy. *)
Definition recovers (zone : ZoneHandle) (p : ZonePolicy) (r : result (Progress * result unit RauhaError) RauhaError)
    (s : State) : Prop :=
  match r with Ok (_, Ok _) => live_view s !! h_id zone = Some (Some p) | _ => True end.

Lemma recovers_step {A} zone p k pr (c : M A) (next : A -> M (Progress * result unit RauhaError)) s :
  keeps (has_id (h_id zone) k) c -> zone_id_map s !! h_id zone = Some k ->
  (forall a s', zone_id_map s' !! h_id zone = Some k -> wp (next a) (recovers zone p) s') ->
  wp (step pr c next) (recovers zone p) s.
Proof.
  intros Hc Hk Hn. unfold step. apply wp_bind, wp_attempt. eapply wp_mono; [apply Hc|].
  intros [a|e] s' Hs'; [by apply Hn, Hs'|by apply wp_ret].
Qed.

Lemma recovery_applies zone t p k s :
  zone_id_map s !! h_id zone = Some k -> wp (recovery config zone t p k) (recovers zone p) s.
Proof.
  intros Hk. unfold recovery. cbv zeta.
  do 10 (eapply recovers_step; [keeps_all|done|intros ? ? ?]).
  unfold step. apply wp_bind, wp_attempt. eapply wp_mono; [by eapply applies_remember|].
  intros [] s2 Hs2; [|done]. by apply wp_ret.
Qed.

Lemma recover_applies zone t p s : wp (recover_zone config zone t p) (applies zone p) s.
Proof.
  unfold recover_zone. apply wp_bind. unfold wp at 1, admit_policy at 1 2. cbn [fst snd].
  destruct (LinuxPolicy.admit_linux_policy _ _ _) as [[]|]; [|done].
  apply wp_bind. unfold wp at 1, allocate_zone_id. cbn [fst snd]. apply wp_bind.
  eapply wp_mono; [apply recovery_applies; cbn; apply lookup_insert_eq|].
  intros [[pr [[]|e]]|e] s' Hs'; [by apply wp_ret| |done]. cbn. apply wp_bind. unfold wp at 1.
  destruct (drain_before_undo zone pr s') as [[[|]|] ?]; [|done|done]. apply wp_bind. unfold wp at 1.
  by match goal with |- match fst ?x with _ => _ end => destruct x as [[] ?] end.
Qed.

(** Once a zone has no id it stays without. *)
Definition no_id (u : string) (s s' : State) : Prop := zone_id_map s !! u = None -> zone_id_map s' !! u = None.

#[export] Instance no_id_preorder u : PreOrder (no_id u).
Proof. unfold no_id. split; [intros s; exact id|]. intros s1 s2 s3 H1 H2 H3. auto. Qed.

Lemma benign_no_id u {A} (c : M A) : keeps benign c -> keeps (no_id u) c.
Proof. intros Hc s. eapply wp_mono; [apply Hc|]. intros r s' Hb. unfold no_id. by rewrite (benign_ids _ _ Hb). Qed.
Lemma bpf_no_id u {A} (f : Linux.LinuxEnforcer -> result A RauhaError * Linux.LinuxEnforcer) :
  keeps (no_id u) (bpf f : M A).
Proof. intros s. unfold wp, bpf. destruct (f (enforcer s)). exact id. Qed.
Hint Extern 4 (keeps (no_id _) _) => apply benign_no_id : keeps.
Hint Resolve bpf_no_id : keeps.

Definition gone (u : string) (r : result unit RauhaError) (s : State) : Prop :=
  match r with Ok _ => zone_id_map s !! u = None | Err _ => True end.

Lemma gone_any {A} u (c : M A) (k : A -> M unit) s :
  (forall a s', wp (k a) (gone u) s') -> wp (bind c k) (gone u) s.
Proof. intros Hk. apply wp_bind. unfold wp at 1. destruct (c s) as [[a|e] s']; [apply Hk|done]. Qed.

Lemma destroy_gone zone s : wp (destroy_zone config zone) (gone (h_id zone)) s.
Proof.
  unfold destroy_zone. cbv zeta. do 4 (apply gone_any; intros ? ?).
  apply wp_bind. unfold wp at 1, remove_zone_id. cbn [fst snd].
  eapply wp_mono; [eapply (_ : keeps (no_id (h_id zone)) _)|].
  - intros [] s2; [|done]. unfold no_id, gone. cbn. intros H1. apply H1, lookup_delete_eq.
  Unshelve. keeps_all.
Qed.

Lemma create_zone_issued cf s : drawn (rng s) ⊆ drawn (rng (snd (create_zone config cf s))).
Proof.
  pose proof (create_zone_unfold cf s) as Hc. destruct (fst (admit_policy config (cf_policy cf) s)); [|by rewrite Hc].
  destruct Hc as (u & r' & Hu & [Ht _]). destruct (new_v4_fresh _ _ _ Hu) as [_ Hd].
  etransitivity; [|exact (touches_drawn _ _ _ Ht)]. cbn. rewrite Hd. set_solver.
Qed.

Lemma create_zone_fresh cf s h s' : create_zone config cf s = (Ok h, s') ->
  h_id h ∉ drawn (rng s) /\ h_id h ∈ drawn (rng s').
Proof.
  intros Hr. pose proof (create_zone_unfold cf s) as Hc.
  destruct (fst (admit_policy config (cf_policy cf) s)); [|by rewrite Hc in Hr].
  destruct Hc as (u & r' & Hu & Hw). unfold wp in Hw. rewrite Hr in Hw. cbn in Hw. destruct Hw as [Ht ->].
  destruct (new_v4_fresh _ _ _ Hu) as [Hf Hd]. split; [done|].
  apply (touches_drawn _ _ _ Ht). cbn. rewrite Hd. set_solver.
Qed.

Lemma create_zone_frame cf s id : id ∈ drawn (rng s) ->
  live_view (snd (create_zone config cf s)) !! id = live_view s !! id.
Proof.
  intros Hin. pose proof (create_zone_unfold cf s) as Hc.
  destruct (fst (admit_policy config (cf_policy cf) s)); [|by rewrite Hc].
  destruct Hc as (u & r' & Hu & [Ht _]). destruct (new_v4_fresh _ _ _ Hu) as [Hf Hd].
  rewrite (touches_view _ id _ _ Ht); [done|]. by intros ->.
Qed.

Lemma wp_ok {A} (c : M A) Q s a s' : wp c Q s -> c s = (Ok a, s') -> Q (Ok a) s'.
Proof. unfold wp. intros H1 H2. by rewrite H2 in H1. Qed.

Lemma benign_zones {A} (c : M A) s : keeps benign c ->
  live_view (snd (c s)) = live_view s /\ drawn (rng s) ⊆ drawn (rng (snd (c s))).
Proof. intros Hc. pose proof (Hc s) as Hb. split; [by apply benign_view|by apply benign_drawn]. Qed.

(** The Linux backend keeps what the trait promises. *)
#[export] Instance linux_contract : BackendContract State (LinuxBackend config).
Proof.
  refine {| Backend.view := live_view; Backend.issued := fun s => drawn (rng s) |}; cbn [Backend.create_zone
    Backend.destroy_zone Backend.enforce_policy Backend.hot_reload_policy Backend.create_container Backend.start_container
    Backend.stop_container Backend.zone_stats Backend.verify_isolation Backend.recover_zone Backend.cleanup_orphans
    Backend.shim_request LinuxBackend.LinuxBackend].
  - intros. apply create_zone_issued.
  - intros. eapply touches_drawn, touches_destroy.
  - intros. eapply touches_drawn, touches_enforce.
  - intros. eapply touches_drawn, touches_reload.
  - intros. eapply touches_drawn, touches_recover.
  - apply create_zone_fresh.
  - apply create_zone_frame.
  - intros h b b' Hr. rewrite live_view_lookup. by rewrite (wp_ok _ _ _ _ _ (destroy_gone h b) Hr).
  - intros. by eapply touches_view; [apply touches_destroy|].
  - intros h p b b' Hr. exact (wp_ok _ _ _ _ _ (enforce_applies h p b) Hr).
  - intros. by eapply touches_view; [apply touches_enforce|].
  - intros h p b b' Hr. exact (wp_ok _ _ _ _ _ (reload_applies h p b) Hr).
  - intros. by eapply touches_view; [apply touches_reload|].
  - intros h t p b b' Hr. exact (wp_ok _ _ _ _ _ (recover_applies h t p b) Hr).
  - intros. by eapply touches_view; [apply touches_recover|].
  - intros hs b h _. eapply (touches_view (h_id h ++ "x")%string); [apply touches_cleanup|]. intros Heq.
    apply (f_equal String.length) in Heq. rewrite Str.string_length_app in Heq. cbn in Heq. lia.
  - intros. eapply (touches_drawn ""), touches_cleanup.
  - intros. apply benign_zones, benign_create_container.
  - intros. apply benign_zones, benign_start_container.
  - intros. apply benign_zones, benign_stop_container.
  - intros. apply benign_zones, benign_stats.
  - intros. apply benign_zones, benign_verify.
  - intros. apply benign_zones, benign_shim.
Defined.

(** ** The kernel's tables *)

Context `{!BpfHostLaws}.

Lemma remove_member_step cg :
  table_step (Linux.remove_zone_member cg) (fun x x' => x' = (base.delete cg (fst x), snd x)).
Proof.
  apply with_bpf_step. intros m m'. unfold MapManager.remove_zone_member. rewrite Linux.hash_remove_ok.
  by intros [= <-].
Qed.

Lemma remove_policy_step k :
  table_step (Linux.remove_zone_policy k) (fun x x' => x' = (fst x, base.delete k (snd x))).
Proof.
  apply with_bpf_step. intros m m'. unfold MapManager.remove_zone_policy. rewrite Linux.hash_remove_ok.
  by intros [= <-].
Qed.

(** Rewriting a zone's policy keeps the others'. *)
Lemma stage_set_policy u k S T kp c m pol :
  inv c -> stage u k S T c -> c_tables c = Some (m, pol) ->
  let c' := mkCore (c_ids c) (c_next c) (Some (m, <[k := kp]> pol)) (c_applied c) in
  inv c' /\ stage u k S (fun o => o = Some kp) c'.
Proof.
  intros [H1 H2 H3 H4 H5 H6 H7 H8] (Hu & Ha & Hs) Ht c'. split.
  - split; cbn; try done.
    + intros ? ? cg info [= <- <-]. eauto.
    + intros ? ? cg info v [= <- <-] Hcg Hv. destruct (decide (Kernel.zone_id info = k)) as [->|Hne].
      * rewrite lookup_insert_eq. eauto.
      * rewrite lookup_insert_ne by done. by eapply H5.
    + intros v p Hv. destruct (H6 v p Hv) as (k' & Hk' & He). exists k'. split; [done|].
      intros ? ? [= <- <-]. rewrite lookup_insert_ne; [by apply (He m)|].
      intros <-. assert (u = v) as -> by eauto. congruence.
    + intros ? ? k' [= <- <-] Hk'. destruct (decide (k' = k)) as [->|Hne]; [by apply (H1 u)|].
      rewrite lookup_insert_ne in Hk' by done. by eapply H8.
  - split; [done|split; [done|]]. cbn. intros ? ? [= <- <-]. split; [apply (Hs m pol Ht)|]. apply lookup_insert_eq.
Qed.

Lemma stage_drop_policy u k T c m pol :
  inv c -> stage u k nobody T c -> c_tables c = Some (m, pol) ->
  let c' := mkCore (c_ids c) (c_next c) (Some (m, base.delete k pol)) (c_applied c) in
  inv c' /\ stage u k nobody none c'.
Proof.
  intros [H1 H2 H3 H4 H5 H6 H7 H8] (Hu & Ha & Hs) Ht c'. destruct (Hs m pol Ht) as [Hn _]. split.
  - split; cbn; try done.
    + intros ? ? cg info [= <- <-]. eauto.
    + intros ? ? cg info v [= <- <-] Hcg Hv. rewrite lookup_delete_ne; [by eapply H5|].
      intros Heq. by apply (Hn cg info).
    + intros v p Hv. destruct (H6 v p Hv) as (k' & Hk' & He). exists k'. split; [done|].
      intros ? ? [= <- <-]. rewrite lookup_delete_ne; [by apply (He m)|].
      intros <-. assert (u = v) as -> by eauto. congruence.
    + intros ? ? k' [= <- <-] [kp [_ Hk']%lookup_delete_Some]. eauto.
  - split; [done|split; [done|]]. cbn. intros ? ? [= <- <-]. split; [exact Hn|apply lookup_delete_eq].
Qed.

Lemma stage_add_member u k S (T : option Kernel.ZonePolicyKernel -> Prop) cg flags c m pol :
  (forall o, T o -> is_Some o) -> inv c -> stage u k S T c -> c_tables c = Some (m, pol) ->
  let c' := mkCore (c_ids c) (c_next c) (Some (<[cg := Kernel.mkInfo k flags]> m, pol)) (c_applied c) in
  inv c' /\ stage u k (fun x => S x \/ x = cg) T c'.
Proof.
  intros HT [H1 H2 H3 H4 H5 H6 H7 H8] (Hu & Ha & Hs) Ht c'. destruct (Hs m pol Ht) as [Hn Hp]. split.
  - split; cbn; try done.
    + intros ? ? cg' info [= <- <-]. rewrite lookup_insert_Some. intros [[_ <-]|[_ Hcg]]; [|eauto].
      cbn. by apply (H1 u).
    + intros ? ? cg' info v [= <- <-]. rewrite lookup_insert_Some. intros [[_ <-]|[_ Hcg]] Hv; [by apply HT|].
      by eapply H5.
    + intros v p Hv. destruct (H6 v p Hv) as (k' & Hk' & He). exists k'. split; [done|].
      intros ? ? [= <- <-]. by apply (He m).
    + intros ? ? k' [= <- <-]. eauto.
  - split; [done|split; [done|]]. cbn. intros ? ? [= <- <-]. split; [|done].
    intros cg' info. rewrite lookup_insert_Some. intros [[<- _]|[_ Hcg]] Hz; [by right|left; eauto].
Qed.

Lemma drop_member cg c m pol :
  inv c -> c_tables c = Some (m, pol) ->
  inv (mkCore (c_ids c) (c_next c) (Some (base.delete cg m, pol)) (c_applied c)).
Proof.
  intros [H1 H2 H3 H4 H5 H6 H7 H8] Ht. split; cbn; try done.
  - intros ? ? cg' info [= <- <-] [_ Hcg]%lookup_delete_Some. eauto.
  - intros ? ? cg' info v [= <- <-] [_ Hcg]%lookup_delete_Some Hv. by eapply H5.
  - intros v p Hv. destruct (H6 v p Hv) as (k' & Hk' & He). exists k'. split; [done|].
    intros ? ? [= <- <-]. by apply (He m).
  - intros ? ? k' [= <- <-]. eauto.
Qed.

Lemma stage_drop_member u k (S S' : Z -> Prop) T cg c m pol :
  (forall x, S x -> x <> cg -> S' x) -> stage u k S T c -> c_tables c = Some (m, pol) ->
  stage u k S' T (mkCore (c_ids c) (c_next c) (Some (base.delete cg m, pol)) (c_applied c)).
Proof.
  intros HS (Hu & Ha & Hs) Ht. destruct (Hs m pol Ht) as [Hn Hp].
  split; [done|split; [done|]]. cbn. intros ? ? [= <- <-]. split; [|done].
  intros cg' info [Hne Hcg]%lookup_delete_Some Hz. apply HS; eauto.
Qed.

(** The rules of the steps. *)
Lemma wp_sets_policy u k S T f p s :
  table_step f (sets_policy k p) -> at_ (stage u k S T) s ->
  wp (bpf f : M unit) (fun r s' => match r with
    | Ok _ => at_ (stage u k S (encoded p)) s' | Err _ => at_ (stage u k S T) s' end) s.
Proof.
  intros Hf Hs. eapply wp_table; [exact Hf|done|]. intros [m pol] t' Ht (kp & Hkp & ->).
  destruct Hs as (Hi & _ & Hs). destruct (stage_set_policy u k S T kp _ m pol Hi Hs Ht) as [H1 H2].
  split; [done|]. destruct H2 as (A & B & C). split; [done|split; [done|]]. intros ? ? Heq.
  destruct (C _ _ Heq) as [C1 C2]. split; [done|]. by exists kp.
Qed.

Lemma wp_add_member u k S (T : option Kernel.ZonePolicyKernel -> Prop) cg t s :
  (forall o, T o -> is_Some o) -> at_ (stage u k S T) s ->
  wp (bpf (Linux.add_zone_member cg k t) : M unit) (fun r s' => match r with
    | Ok _ => at_ (stage u k (fun x => S x \/ x = cg) T) s' | Err _ => at_ (stage u k S T) s' end) s.
Proof.
  intros HT Hs. eapply wp_table; [apply add_member_step|done|]. intros [m pol] t' Ht ->.
  destruct Hs as (Hi & _ & Hs). exact (stage_add_member u k S T cg _ (core s) m pol HT Hi Hs Ht).
Qed.

(** Removals cannot fail: a missing key is success. *)
Lemma remove_member_total cg s : inv (core s) -> is_ok (fst (Linux.remove_zone_member cg (enforcer s))) = true.
Proof.
  intros [_ _ _ _ _ _ [t Ht] _]. revert Ht. unfold core, now_tables, tables, Linux.remove_zone_member,
    Linux.with_bpf, MapManager.remove_zone_member. cbn. destruct (Linux.ebpf (enforcer s)); [|done].
  by rewrite Linux.hash_remove_ok.
Qed.
Lemma remove_policy_total k s : inv (core s) -> is_ok (fst (Linux.remove_zone_policy k (enforcer s))) = true.
Proof.
  intros [_ _ _ _ _ _ [t Ht] _]. revert Ht. unfold core, now_tables, tables, Linux.remove_zone_policy,
    Linux.with_bpf, MapManager.remove_zone_policy. cbn. destruct (Linux.ebpf (enforcer s)); [|done].
  by rewrite Linux.hash_remove_ok.
Qed.

Lemma wp_total_table f g P P' s :
  table_step f g -> (inv (core s) -> is_ok (fst (f (enforcer s))) = true) -> at_ P s ->
  (forall t t', c_tables (core s) = Some t -> g t t' ->
     let c' := mkCore (zone_id_map s) (next_zone_id s) (Some t') (applied s) in inv c' /\ P' c') ->
  wp (bpf f : M unit) (fun _ s' => at_ P' s') s.
Proof.
  intros Hf Hok Hs Hg. specialize (Hok (proj1 Hs)). pose proof (wp_table f g P P' s Hf Hs Hg) as Hw.
  revert Hw Hok. unfold wp, bpf. by destruct (f (enforcer s)) as [[]].
Qed.

Lemma wp_remove_member u k (S S' : Z -> Prop) T cg s :
  (forall x, S x -> x <> cg -> S' x) -> at_ (stage u k S T) s ->
  wp (bpf (Linux.remove_zone_member cg) : M unit) (fun r s' => at_ (stage u k S' T) s') s.
Proof.
  intros HS Hs. eapply wp_total_table; [apply remove_member_step|apply remove_member_total|exact Hs|].
  intros [m' pol'] t' Ht' ->. destruct Hs as (Hi & _ & Hs). split; [exact (drop_member cg (core s) m' pol' Hi Ht')|].
  exact (stage_drop_member u k S S' T cg (core s) m' pol' HS Hs Ht').
Qed.

Lemma wp_remove_policy u k T s :
  at_ (stage u k nobody T) s ->
  wp (bpf (Linux.remove_zone_policy k) : M unit) (fun r s' => at_ (stage u k nobody none) s') s.
Proof.
  intros Hs. eapply wp_total_table; [apply remove_policy_step|apply remove_policy_total|exact Hs|].
  intros [m pol] t' Ht ->. destruct Hs as (Hi & _ & Hs). exact (stage_drop_policy u k T (core s) m pol Hi Hs Ht).
Qed.

(** A relation kept to the end: enough once the ids have run out. *)
Definition J (s : State) : Prop := (next_zone_id s <= 2 ^ 32)%Z -> at_ (fun _ => True) s.

Lemma at_J P s : at_ P s -> J s.
Proof. intros Hs _. by eapply at_mono; [|exact Hs]. Qed.

Lemma J_exhausted {A} u (c : M A) s : (2 ^ 32 < next_zone_id s)%Z -> keeps (touches u) c -> wp c (fun _ => J) s.
Proof.
  intros Hn Hc. eapply wp_mono; [apply Hc|]. intros r s' [_ _ _ Hle] Hs'. lia.
Qed.

Lemma J_benign {A} (c : M A) s : keeps benign c -> J s -> wp c (fun _ => J) s.
Proof.
  intros Hc Hs. eapply wp_mono; [apply Hc|]. intros r s' Hb Hle.
  refine (at_benign _ _ _ (Hs _) Hb). by rewrite <- (benign_next _ _ Hb).
Qed.

(** ** Ids *)

Lemma inv_drop_id c u : inv c ->
  inv (mkCore (base.delete u (c_ids c)) (c_next c) (c_tables c) (base.delete u (c_applied c))).
Proof.
  intros [H1 H2 H3 H4 H5 H6 H7 H8]. split; cbn; try done.
  - intros v k [_ Hv]%lookup_delete_Some. eauto.
  - intros v v' k [_ Hv]%lookup_delete_Some [_ Hv']%lookup_delete_Some. eauto.
  - intros m pol cg info v Ht Hcg [_ Hv]%lookup_delete_Some. by eapply H5.
  - intros v p [Hne Hv]%lookup_delete_Some. destruct (H6 v p Hv) as (k & Hk & He). exists k.
    split; [|done]. rewrite lookup_delete_ne by done. done.
Qed.

Lemma wp_remove_id P u s : at_ P s -> wp (remove_zone_id u : M _) (fun _ s' => at_ (fun _ => True) s') s.
Proof. intros (Hi & Hh & _). split; [exact (inv_drop_id _ u Hi)|by split]. Qed.

(** A new id: no cgroup is enrolled under it. *)
Lemma wp_allocate_id P u s : (next_zone_id s < 2 ^ 32)%Z -> at_ P s ->
  wp (allocate_zone_id u : M Z) (fun r s' => match r with
    | Ok k => at_ (stage u k nobody none) s' | Err _ => False end) s.
Proof.
  intros Hn (Hi & Hh & _). destruct Hi as [H1 H2 H3 H4 H5 H6 H7 H8]. cbn in H3. unfold wp, allocate_zone_id. cbn [fst snd].
  rewrite (wrap_small 32) by lia. split; [|split; [exact Hh|]].
  - split; cbn.
    + intros v k. rewrite lookup_insert_Some. intros [[_ <-]|[_ Hv]]; [lia|]. specialize (H1 v k Hv). cbn in H1. lia.
    + intros v v' k. rewrite !lookup_insert_Some. intros [[<- <-]|[Hne Hv]] [[<- Heq]|[Hne' Hv']]; try done.
      * specialize (H1 v' _ Hv'). cbn in H1. lia.
      * subst k. specialize (H1 v _ Hv). cbn in H1. lia.
      * eauto.
    + lia.
    + intros m pol cg info Ht Hcg. specialize (H4 m pol cg info Ht Hcg). cbn in H4. lia.
    + intros m pol cg info v Ht Hcg. rewrite lookup_insert_Some. intros [[_ Heq]|[_ Hv]]; [|by eapply H5].
      specialize (H4 m pol cg info Ht Hcg). cbn in H4. lia.
    + intros v p [Hne Hv]%lookup_delete_Some. destruct (H6 v p Hv) as (k & Hk & He). exists k.
      by rewrite lookup_insert_ne.
    + exact H7.
    + intros m pol k Ht Hk. specialize (H8 m pol k Ht Hk). cbn in H8. lia.
  - split; [cbn; apply lookup_insert_eq|split; [cbn; apply lookup_delete_eq|]]. cbn. intros m pol Ht.
    split; [|apply eq_None_not_Some; intros Hp; specialize (H8 m pol _ Ht Hp); cbn in H8; lia].
    intros cg info Hcg Hz. specialize (H4 m pol cg info Ht Hcg). cbn in H4. unfold nobody. lia.
Qed.

Lemma inv_forget c u : inv c -> inv (mkCore (c_ids c) (c_next c) (c_tables c) (base.delete u (c_applied c))).
Proof. intros [H1 H2 H3 H4 H5 H6 H7 H8]. split; cbn; try done. intros v p [_ Hv]%lookup_delete_Some. eauto. Qed.

Lemma wp_forget P zone k s : at_ P s -> zone_id_map s !! h_id zone = Some k ->
  wp (forget_applied zone : M _) (fun r s' => at_ (stage (h_id zone) k anybody whatever) s') s.
Proof.
  intros (Hi & Hh & _) Hk. split; [exact (inv_forget _ (h_id zone) Hi)|split; [exact Hh|]].
  split; [exact Hk|split; [cbn; apply lookup_delete_eq|done]].
Qed.

Lemma wp_remember S zone k p s : at_ (stage (h_id zone) k S (encoded p)) s ->
  wp (remember_policy zone p : M _) (fun r s' => at_ (fun _ => True) s') s.
Proof.
  intros ([H1 H2 H3 H4 H5 H6 H7 H8] & Hh & A & B & C). split; [|by split]. split; cbn; try done.
  intros v q. rewrite lookup_insert_Some. intros [[<- <-]|[_ Hv]]; [|eauto].
  exists k. split; [done|]. intros m pol Ht. by apply (C m pol).
Qed.

(** Programs that never fail. *)
Definition total {A} (c : M A) : Prop := forall s, is_ok (fst (c s)) = true.

Lemma total_bind {A B} (c : M A) (k : A -> M B) : total c -> (forall a, total (k a)) -> total (bind c k).
Proof.
  intros Hc Hk s. unfold bind. specialize (Hc s). destruct (c s) as [[a|] s']; [apply Hk|done].
Qed.
Lemma total_attempt {A} (c : M A) : total (attempt c).
Proof. intros s. unfold attempt. by destruct (c s). Qed.
Lemma total_os {A} (f : E -> A * E) : total (LinuxBackend.os f : M A).
Proof. intros s. unfold LinuxBackend.os, io, Host.os. by destruct (f (env s)). Qed.

Ltac total_auto := repeat first
  [ done | apply total_attempt | apply total_os | apply total_bind; [|intros ?]
  | match goal with |- total (match ?x with _ => _ end) => destruct x end ].

Lemma wp_quiet {A B} (c : M A) (k : A -> M B) Q s :
  total c -> keeps benign c -> (forall a s', benign s s' -> wp (k a) Q s') -> wp (bind c k) Q s.
Proof.
  intros Ht Hc Hk. apply wp_bind. specialize (Ht s). specialize (Hc s). unfold wp in *.
  destruct (c s) as [[a|] s']; [by apply Hk|done].
Qed.

Lemma wp_last {A} (c : M A) (Q : result A RauhaError -> State -> Prop) s :
  total c -> keeps benign c -> (forall a s', benign s s' -> Q (Ok a) s') -> wp c Q s.
Proof.
  intros Ht Hc HQ. specialize (Ht s). specialize (Hc s). unfold wp in *. destruct (c s) as [[a|] s']; [by apply HQ|done].
Qed.

(** ** The operations *)

Lemma stage_whatever u k S T s : at_ (stage u k S T) s -> at_ (stage u k S whatever) s.
Proof.
  apply at_mono. intros c _ (A & B & C). split; [done|split; [done|]]. intros m pol Ht. by destruct (C m pol Ht).
Qed.

Lemma wp_or_undo {A} (c : M A) undo (Q : result A RauhaError -> State -> Prop) s :
  wp c (fun r s' => match r with
    | Ok a => Q (Ok a) s'
    | Err e => wp undo (fun r' s'' => match r' with Ok _ => Q (Err e) s'' | Err e' => Q (Err e') s'' end) s'
    end) s -> wp (or_undo c undo) Q s.
Proof.
  intros Hw. unfold or_undo. apply wp_bind, wp_attempt. eapply wp_mono; [exact Hw|].
  intros [a|e] s' Hs'; [by apply wp_ret|]. apply wp_bind. eapply wp_mono; [exact Hs'|]. by intros [].
Qed.

(** Follow a harmless program: on failure the whole fails with what is known. *)
Lemma wp_benign_bind {A B} (c : M A) (k : A -> M B) P (Q : result B RauhaError -> State -> Prop) s :
  keeps benign c -> at_ P s -> (forall e s', at_ P s' -> Q (Err e) s') ->
  (forall a s', at_ P s' -> wp (k a) Q s') -> wp (bind c k) Q s.
Proof. intros Hc Hs He Hk. apply wp_bind. eapply wp_benign; [done|exact Hs|]. intros [a|e]; auto. Qed.

Notation ok_at := (fun _ s' => at_ (fun _ => True) s') (only parsing).

Lemma any_at P s : at_ P s -> at_ (fun _ => True) s.
Proof. by apply at_mono. Qed.

(** Only the zone's id is dropped. *)
Ltac follow := first
  [ eapply wp_benign_bind; [solve [keeps_auto]|eassumption|by intros; eapply any_at|intros ? ? ?]
  | eapply wp_benign; [solve [keeps_auto]|eassumption|by intros; eapply any_at] ].

(** After a rollback nothing is left of the zone. *)
Definition cleared (u : string) (k : Z) (c : Core) : Prop :=
  c_ids c !! u = None /\ forall m pol, c_tables c = Some (m, pol) ->
    (forall cg info, m !! cg = Some info -> Kernel.zone_id info <> k) /\ pol !! k = None.

Lemma wp_clear_id u k s : at_ (stage u k nobody none) s ->
  wp (remove_zone_id u : M _) (fun _ s' => at_ (cleared u k) s') s.
Proof.
  intros (Hi & Hh & A & B & C). split; [exact (inv_drop_id _ u Hi)|split; [exact Hh|]].
  split; [cbn; apply lookup_delete_eq|]. cbn. intros m pol Ht. destruct (C m pol Ht) as [C1 C2].
  split; [|exact C2]. intros cg info Hcg Hz. exact (C1 cg info Hcg Hz).
Qed.

Lemma wp_quiet_at {A B} (c : M A) (k : A -> M B) P Q s :
  total c -> keeps benign c -> at_ P s -> (forall a s', at_ P s' -> wp (k a) Q s') -> wp (bind c k) Q s.
Proof.
  intros Ht Hc Hs Hk. apply wp_quiet; [done|done|]. intros a s' Hb. apply Hk. exact (at_benign _ _ _ Hs Hb).
Qed.

Lemma wp_rollback name u k n s : at_ (stage u k nobody none) s ->
  wp (rollback_zone config name u n) (fun _ s' => at_ (cleared u k) s') s.
Proof.
  intros Hs. unfold rollback_zone.
  do 4 (eapply wp_quiet_at; [total_auto|keeps_auto|eassumption|clear Hs; intros ? ? Hs]).
  apply wp_bind. eapply wp_mono; [by apply wp_clear_id|]. cbv beta. intros [?|?] s1 A1; [|done].
  eapply wp_quiet_at; [total_auto|keeps_auto|exact A1|]. intros _ s2 A2.
  apply wp_last; [total_auto|keeps_auto|]. intros ? s3 B3. exact (at_benign _ _ _ A2 B3).
Qed.

(** What a step of [create_zone] ends in: the zone as it is, or nothing of it. *)
Definition built {A} (u : string) (k : Z) (P : Core -> Prop) (r : result A RauhaError) (s : State) : Prop :=
  match r with Ok _ => at_ P s | Err _ => at_ (cleared u k) s end.

Lemma built_mono {A} u k (P P' : Core -> Prop) (r : result A RauhaError) s :
  (forall c, P c -> P' c) -> built u k P r s -> built u k P' r s.
Proof. intros HP. destruct r; [|done]. apply at_mono. auto. Qed.

(** A step with its undo. *)
Lemma wp_undo {A} (c : M A) undo u k P s :
  wp c (fun r s' => match r with
    | Ok _ => at_ P s' | Err _ => wp undo (fun _ s'' => at_ (cleared u k) s'') s' end) s ->
  wp (or_undo c undo) (built u k P) s.
Proof.
  intros Hw. apply wp_or_undo. eapply wp_mono; [exact Hw|]. intros [a|e] s' Hs'; [done|].
  eapply wp_mono; [exact Hs'|]. by intros [].
Qed.

Lemma built_bind {A B} (c : M A) (next : A -> M B) u k P P' s :
  wp c (built u k P) s -> (forall a s', at_ P s' -> wp (next a) (built u k P') s') ->
  wp (bind c next) (built u k P') s.
Proof. intros Hc Hn. apply wp_bind. eapply wp_mono; [exact Hc|]. intros [a|e] s' Hs'; [by apply Hn|done]. Qed.

(** A harmless step that is rolled back when it fails. *)
Lemma wp_harmless_or_rollback {A} (c : M A) name u k n s : keeps benign c -> at_ (stage u k nobody none) s ->
  wp (or_undo c (rollback_zone config name u n)) (built u k (stage u k nobody none)) s.
Proof.
  intros Hc Hs. apply wp_undo. eapply wp_benign; [exact Hc|exact Hs|]. intros [a|e] s' Hs'; [done|].
  by apply wp_rollback.
Qed.

Lemma wp_network cf u k s : at_ (stage u k nobody none) s ->
  wp (create_network config cf u) (built u k (stage u k nobody none)) s.
Proof.
  intros Hs. unfold create_network. cbv zeta.
  eapply built_bind; [apply wp_harmless_or_rollback; [eauto with keeps|exact Hs]|]. intros ip s1 A1.
  eapply built_bind; [apply wp_harmless_or_rollback; [eauto with keeps|exact A1]|]. intros _ s2 A2.
  eapply wp_quiet_at; [total_auto|keeps_auto|exact A2|]. intros [?|e] s3 A3; [by apply wp_ret|].
  eapply built_bind; [apply wp_harmless_or_rollback; [keeps_auto|exact A3]|]. intros _ s4 A4. by apply wp_ret.
Qed.

Lemma wp_maybe_network cf u k s : at_ (stage u k nobody none) s ->
  wp (if bool_decide (mode (network (cf_policy cf)) = Host) then ret None
      else do n <- create_network config cf u; ret (Some n)) (built u k (stage u k nobody none)) s.
Proof.
  intros Hs. case_match; [by apply wp_ret|].
  eapply built_bind; [by apply wp_network|]. intros n s' Hs'. by apply wp_ret.
Qed.

Lemma wp_undo_bind {A B} (c : M A) undo (k : A -> M B) s :
  wp c (fun r s' => match r with
    | Ok a => wp (k a) (fun _ s' => at_ (fun _ => True) s') s'
    | Err _ => wp undo (fun _ s'' => at_ (fun _ => True) s'') s'
    end) s -> wp (bind (or_undo c undo) k) (fun _ s' => at_ (fun _ => True) s') s.
Proof.
  intros Hw. apply wp_bind, wp_or_undo. eapply wp_mono; [exact Hw|].
  intros [a|e] s' Hs'; [done|]. eapply wp_mono; [exact Hs'|]. by intros [].
Qed.

Lemma encoded_some p o : encoded p o -> is_Some o.
Proof. intros (kp & _ & ->). by eexists. Qed.

(** The enrolled cgroup and the policy go, then the rest. *)
Lemma wp_unenroll u k cg p n name s : at_ (stage u k (fun x => nobody x \/ x = cg) (encoded p)) s ->
  wp (do found <- get_zone_id u;
      do _ <- (match found with
               | Some zone_id =>
                   do _ <- attempt (bpf (Linux.remove_zone_member cg));
                   do _ <- attempt (bpf (Linux.remove_zone_policy zone_id));
                   ret tt
               | None => ret tt
               end);
      rollback_zone config name u n) (fun _ s' => at_ (cleared u k) s') s.
Proof.
  intros Hs. apply wp_bind. unfold get_zone_id. apply wp_gets.
  rewrite (proj1 (proj2 (proj2 Hs)) : zone_id_map s !! u = Some k). do 2 apply wp_bind. apply wp_attempt.
  eapply wp_mono; [apply (wp_remove_member u k _ nobody _ cg s (fun x Hx Hne => match Hx with or_introl f => f | or_intror e => Hne e end) Hs)|].
  cbv beta. intros r s10 H10. apply wp_bind, wp_attempt. eapply wp_mono; [by eapply wp_remove_policy|].
  cbv beta. intros r' s11 H11. apply wp_ret. by apply wp_rollback.
Qed.

(** [create_zone] after the id is allocated. *)
Definition create_rest (cf : ZoneConfig) (zone_uuid : string) (zone_id : Z) : M ZoneHandle :=
  let name := cf_name cf in
  do _ <- modify (fun s => set_names (<[name := zone_uuid]> (zone_name_map s)) s);
  do cgroup_id <- or_undo (io (Cgroup.create_zone_cgroup name)) (void (remove_zone_id zone_uuid));
  do net_state <- (if bool_decide (mode (network (cf_policy cf)) = Host) then ret None
                   else do n <- create_network config cf zone_uuid; ret (Some n));
  do _ <- or_undo (bpf (Linux.set_zone_policy zone_id (cf_policy cf))) (rollback_zone config name zone_uuid net_state);
  do _ <- or_undo (bpf (Linux.add_zone_member cgroup_id zone_id (cf_zone_type cf)))
            (do _ <- attempt (bpf (Linux.remove_zone_policy zone_id)); rollback_zone config name zone_uuid net_state);
  do _ <- or_undo (apply_resources name (resources (cf_policy cf)))
            (do found <- get_zone_id zone_uuid;
             do _ <- (match found with
                      | Some zone_id =>
                          do _ <- attempt (bpf (Linux.remove_zone_member cgroup_id));
                          do _ <- attempt (bpf (Linux.remove_zone_policy zone_id));
                          ret tt
                      | None => ret tt
                      end);
             rollback_zone config name zone_uuid net_state);
  ret (mkHandle zone_uuid name cgroup_id net_state).

Lemma create_zone_eq cf :
  create_zone config cf = (do _ <- admit_policy config (cf_policy cf); do u <- uuid; do k <- allocate_zone_id u; create_rest cf u k).
Proof. reflexivity. Qed.

Lemma at_create_rest cf u k s : at_ (stage u k nobody none) s ->
  wp (create_rest cf u k) (built u k (fun _ => True)) s.
Proof.
  intros Hs. unfold create_rest. cbv zeta. eapply wp_quiet_at; [done|keeps_auto|exact Hs|]. intros _ s4 A4.
  eapply (built_bind _ _ _ _ (stage u k nobody none)).
  { apply wp_undo. eapply wp_benign; [apply benign_io|exact A4|]. intros [cg|e] s5 A5; [done|].
    apply wp_bind. eapply wp_mono; [by apply wp_clear_id|]. by intros [] ? ?. }
  intros cg s5 A5. eapply built_bind; [by apply wp_maybe_network|]. intros n s6 A6.
  eapply (built_bind _ _ _ _ (stage u k nobody (encoded (cf_policy cf)))).
  { apply wp_undo. eapply wp_mono; [by eapply wp_sets_policy; [apply set_policy_step|]|]. cbv beta.
    intros [[]|e] s7 A7; [done|by apply wp_rollback]. }
  intros _ s7 A7. eapply (built_bind _ _ _ _ (stage u k (fun x => nobody x \/ x = cg) (encoded (cf_policy cf)))).
  { apply wp_undo. eapply wp_mono; [by eapply wp_add_member; [apply encoded_some|]|]. cbv beta.
    intros [[]|e] s8 A8; [done|]. apply wp_bind, wp_attempt. eapply wp_mono; [by eapply wp_remove_policy|].
    cbv beta. intros r' s9 A9. by apply wp_rollback. }
  intros _ s8 A8. eapply (built_bind _ _ _ _ (fun _ => True)).
  { apply wp_undo. eapply wp_benign; [eauto with keeps|exact A8|]. intros [[]|e] s9 A9; [by eapply any_at|].
    by eapply wp_unenroll. }
  intros _ s9 A9. by apply wp_ret.
Qed.

Lemma at_create cf s : at_ (fun _ => True) s -> (next_zone_id s < 2 ^ 32)%Z ->
  wp (create_zone config cf) (fun _ s' => at_ (fun _ => True) s') s.
Proof.
  intros Hs Hn. rewrite create_zone_eq. apply wp_bind.
  eapply wp_mono; [apply benign_admit|]. intros [[]|e] s1 H1; [|exact (at_benign _ _ _ Hs H1)].
  pose proof (at_benign _ _ _ Hs H1) as Hs1. apply wp_bind. eapply wp_mono; [apply benign_uuid|].
  intros [u|e] s2 H2; [|exact (at_benign _ _ _ Hs1 H2)]. pose proof (at_benign _ _ _ Hs1 H2) as Hs2.
  assert (next_zone_id s2 < 2 ^ 32)%Z as Hn2 by (by rewrite (benign_next _ _ H2), (benign_next _ _ H1)).
  apply wp_bind. eapply wp_mono; [by eapply wp_allocate_id|]. intros [k|e] s3 H3; [|done].
  eapply wp_mono; [by apply at_create_rest|]. intros [] s4 A4; [done|by eapply any_at].
Qed.

Lemma J_bind_benign {A B} (c : M A) (k : A -> M B) s :
  keeps benign c -> J s -> (forall a s', J s' -> next_zone_id s' = next_zone_id s -> wp (k a) (fun _ => J) s') ->
  wp (bind c k) (fun _ => J) s.
Proof.
  intros Hc Hs Hk. apply wp_bind. pose proof (J_benign c s Hc Hs) as HJ. specialize (Hc s). unfold wp in *.
  destruct (c s) as [[a|e] s']; [|done]. apply Hk; [done|]. by apply benign_next.
Qed.

(** Ids that have run out, or room for one more. *)
Lemma J_create cf s : J s -> wp (create_zone config cf) (fun _ => J) s.
Proof.
  intros Hs. destruct (Z.lt_ge_cases (next_zone_id s) (2 ^ 32)) as [Hn|Hn].
  - eapply wp_mono; [apply at_create; [apply Hs; lia|done]|]. intros r s'. apply at_J.
  - unfold create_zone. cbv zeta. apply J_bind_benign; [eauto with keeps|done|]. intros _ s1 Hs1 Hn1.
    apply J_bind_benign; [apply benign_uuid|done|]. intros u s2 Hs2 Hn2.
    apply wp_bind. unfold wp at 1, allocate_zone_id. cbn [fst snd].
    eapply (J_exhausted u); [cbn; lia|]. keeps_all.
Qed.

Lemma J_recover_exhausted zone t p s : (2 ^ 32 <= next_zone_id s)%Z -> J s ->
  wp (recover_zone config zone t p) (fun _ => J) s.
Proof.
  intros Hn Hs. unfold recover_zone. apply J_bind_benign; [eauto with keeps|done|]. intros _ s1 Hs1 Hn1.
  apply wp_bind. unfold wp at 1, allocate_zone_id. cbn [fst snd].
  eapply (J_exhausted (h_id zone)); [cbn; lia|]. keeps_all.
Qed.

(** Facts on ids alone survive map operations. *)
Lemma wp_drop_member (P : gmap string Z -> Prop) cg s : at_ (fun c => P (c_ids c)) s ->
  wp (bpf (Linux.remove_zone_member cg) : M unit) (fun _ s' => at_ (fun c => P (c_ids c)) s') s.
Proof.
  intros Hs. eapply wp_mono; [eapply wp_table; [apply remove_member_step|exact Hs|]|by intros [] ?].
  intros [m pol] t' Ht ->. destruct Hs as (Hi & _ & Hs). split; [|exact Hs].
  exact (drop_member cg (core s) m pol Hi Ht).
Qed.

(** An id no zone has any more. *)
Definition retired (k : Z) (ids : gmap string Z) : Prop := forall u, ids !! u <> Some k.

Lemma wp_retire_id P u s : at_ P s -> wp (remove_zone_id u : M _) (fun r s' => match r with
  | Ok (Some k) => at_ (fun c => retired k (c_ids c)) s' | _ => at_ (fun _ => True) s' end) s.
Proof.
  intros Hs. pose proof (wp_remove_id P u s Hs) as Hw. destruct Hs as (Hi & _ & _). unfold wp in *.
  unfold remove_zone_id in *. cbn [fst snd] in *. destruct (zone_id_map s !! u) as [k|] eqn:Hk; [|exact Hw].
  destruct Hw as (A & B & _). split; [exact A|split; [exact B|]]. intros v. cbn.
  rewrite lookup_delete_Some. intros [Hne Hv]. by apply Hne, (inv_inj _ Hi u v k).
Qed.

Lemma wp_retire_policy k s : at_ (fun c => retired k (c_ids c)) s ->
  wp (bpf (Linux.remove_zone_policy k) : M unit) (fun _ s' => at_ (fun _ => True) s') s.
Proof.
  intros Hs. eapply wp_mono; [eapply (wp_table _ _ _ (fun _ => True)); [apply remove_policy_step|exact Hs|]|].
  - intros [m pol] t' Ht ->. destruct Hs as ([H1 H2 H3 H4 H5 H6 H7 H8] & _ & Hr). split; [|done]. split; cbn; try done.
    + intros ? ? cg info [= <- <-]. eauto.
    + intros ? ? cg info v [= <- <-] Hcg Hv. rewrite lookup_delete_ne; [by eapply H5|].
      intros Heq. apply (Hr v). cbn. by rewrite Heq.
    + intros v p Hv. destruct (H6 v p Hv) as (k' & Hk' & He). exists k'. split; [done|].
      intros ? ? [= <- <-]. rewrite lookup_delete_ne; [by apply (He m)|]. intros <-. by apply (Hr v).
    + intros ? ? k' [= <- <-] [kp [_ Hk']%lookup_delete_Some]. eauto.
  - intros [] s'; [done|]. apply any_at.
Qed.

Lemma at_destroy zone s : at_ (fun _ => True) s ->
  wp (destroy_zone config zone) (fun _ s' => at_ (fun _ => True) s') s.
Proof.
  intros Hs. unfold destroy_zone. cbv zeta. do 4 follow. apply wp_bind.
  eapply wp_mono; [by eapply wp_retire_id|]. cbv beta. intros [[k|]|e] s1 A1; [|repeat follow|done].
  do 2 follow. apply wp_bind, wp_bind.
  eapply wp_benign; [keeps_auto|eassumption|]. intros [?|?] s2 A2; [|by eapply any_at].
  apply wp_bind, wp_attempt. eapply wp_mono; [by apply (wp_drop_member (retired k))|]. cbv beta. intros r3 s3 A3.
  apply wp_bind, wp_attempt. eapply wp_mono; [by apply wp_retire_policy|]. cbv beta. intros r4 s4 A4.
  apply wp_ret. repeat follow.
Qed.

(** Programs that keep the invariant whatever is known. *)
Definition safe (s s' : State) : Prop := at_ (fun _ => True) s -> at_ (fun _ => True) s'.

#[export] Instance safe_preorder : PreOrder safe.
Proof. unfold safe. split; [intros s; exact id|]. intros s1 s2 s3 A1 A2 A3. auto. Qed.

Lemma benign_safe {A} (c : M A) : keeps benign c -> keeps safe c.
Proof. intros Hc s. eapply wp_mono; [apply Hc|]. intros r s' Hb Hs. exact (at_benign _ _ _ Hs Hb). Qed.
Lemma remove_member_safe cg : keeps safe (bpf (Linux.remove_zone_member cg) : M unit).
Proof. intros s. unfold safe, wp. intros Hs. exact (wp_drop_member (fun _ => True) cg s Hs). Qed.
Hint Extern 4 (keeps safe _) => apply benign_safe : keeps.
Hint Resolve remove_member_safe : keeps.

Lemma cleanup_cgroups_safe known es live : keeps safe (cleanup_cgroups known live es).
Proof.
  revert live. induction es as [|e es IH]; intros live; cbn [cleanup_cgroups]; [keeps_all|].
  unfold cleanup_cgroup. keeps_all.
Qed.
Lemma cleanup_safe zones : keeps safe (cleanup_orphans config zones).
Proof. unfold cleanup_orphans, list_dir, cleanup_netns. cbv zeta. pose proof cleanup_cgroups_safe. keeps_all. Qed.

(** Applying a policy to a zone that has one. *)
Lemma at_enforce zone p s : at_ (fun _ => True) s ->
  wp (enforce_policy config zone p) (fun _ s' => at_ (fun _ => True) s') s.
Proof.
  intros Hs. unfold enforce_policy. follow. apply wp_bind. unfold kernel_id_of, get_zone_id.
  apply wp_bind, wp_gets, wp_or_fail; [|done]. intros k Hk. apply wp_bind, wp_of_result; [|done]. intros enf He.
  apply wp_bind. eapply wp_mono; [by eapply wp_forget|]. cbv beta. intros [[]|e] s2 A2; [|by eapply any_at].
  apply wp_bind. eapply wp_mono; [by eapply wp_sets_policy; [apply apply_enforcement_step|]|]. cbv beta.
  intros [[]|e] s3 A3; [|by eapply any_at]. do 3 follow. by eapply wp_remember.
Qed.

Lemma wp_reload_steps zone k p S T s : at_ (stage (h_id zone) k S T) s ->
  wp (reload_steps zone k p) (fun r s' => match r with
    | Ok _ => at_ (stage (h_id zone) k S (encoded p)) s'
    | Err _ => at_ (stage (h_id zone) k S whatever) s' end) s.
Proof.
  intros Hs. unfold reload_steps. apply wp_bind.
  eapply wp_mono; [by eapply wp_sets_policy; [apply set_policy_step|]|]. cbv beta.
  intros [[]|e] s1 A1; [|by eapply stage_whatever].
  do 2 (eapply wp_benign_bind; [keeps_auto|exact A1|by intros; eapply stage_whatever|]; clear A1; intros ? ? A1).
  eapply wp_benign; [keeps_auto|exact A1|]. intros [] ? ?; [done|by eapply stage_whatever].
Qed.

Lemma wp_restore_steps zone k p S T s : at_ (stage (h_id zone) k S T) s ->
  wp (restore_steps zone k p) (fun r s' => at_ (stage (h_id zone) k S whatever) s') s.
Proof.
  intros Hs. unfold restore_steps. apply wp_bind, wp_attempt.
  eapply wp_mono; [by eapply wp_sets_policy; [apply set_policy_step|]|]. cbv beta. intros r s1 A1.
  assert (at_ (stage (h_id zone) k S whatever) s1) as A2 by (destruct r; by eapply stage_whatever).
  eapply wp_benign; [keeps_auto|exact A2|done].
Qed.

Lemma at_reload zone p s : at_ (fun _ => True) s ->
  wp (hot_reload_policy config zone p) (fun _ s' => at_ (fun _ => True) s') s.
Proof.
  intros Hs. unfold hot_reload_policy. do 3 follow. apply wp_bind. unfold kernel_id_of, get_zone_id.
  apply wp_bind, wp_gets, wp_or_fail; [|by intros; eapply any_at]. intros k Hk.
  apply wp_bind. eapply wp_mono; [by eapply wp_forget|]. cbv beta. intros [[]|e] s2 A2; [|by eapply any_at].
  apply wp_undo_bind. eapply wp_mono; [by eapply wp_reload_steps|]. cbv beta. intros [[]|e] s3 A3.
  - by eapply wp_remember.
  - eapply wp_mono; [by eapply wp_restore_steps|]. cbv beta. intros r s4 A4. by eapply any_at.
Qed.

(** What is known when a recovery ends: after a failure only the recovered
    cgroup can be enrolled under the zone's id. *)
Definition recovery_post (u : string) (k : Z) (r : result (Progress * result unit RauhaError) RauhaError) (s : State) : Prop :=
  match r with
  | Ok (pr, Err _) => at_ (stage u k (fun cg => recovered_cgroup_id pr = Some cg) whatever) s
  | _ => at_ (fun _ => True) s
  end.

Lemma recovery_failed u k S T pr e s :
  at_ (stage u k S T) s -> (forall cg, S cg -> recovered_cgroup_id pr = Some cg) ->
  recovery_post u k (Ok (pr, Err e)) s.
Proof.
  intros Hs HS. revert Hs. apply at_mono. intros c _ (A & B & C). split; [done|split; [done|]]. intros m pol Ht.
  destruct (C m pol Ht) as [C1 _]. split; [eauto|done].
Qed.

Lemma wp_recovery_step {A} u k S T pr (c : M A) next s :
  keeps benign c -> at_ (stage u k S T) s -> (forall cg, S cg -> recovered_cgroup_id pr = Some cg) ->
  (forall a s', at_ (stage u k S T) s' -> wp (next a) (recovery_post u k) s') ->
  wp (step pr c next) (recovery_post u k) s.
Proof.
  intros Hc Hs HS Hn. unfold step. apply wp_bind, wp_attempt. eapply wp_benign; [exact Hc|exact Hs|].
  intros [a|e] s' Hs'; [by apply Hn|]. apply wp_ret. by eapply recovery_failed.
Qed.

Lemma wp_recovery zone t p k s : at_ (stage (h_id zone) k nobody whatever) s ->
  wp (recovery config zone t p k) (recovery_post (h_id zone) k) s.
Proof.
  intros Hs. unfold recovery. cbv zeta.
  do 5 (eapply wp_recovery_step; [keeps_auto|eassumption|by intros ? []|clear Hs; intros ? ? Hs]).
  unfold step at 1. apply wp_bind, wp_attempt.
  eapply wp_mono; [by eapply wp_sets_policy; [apply set_policy_step|]|]. cbv beta.
  intros [?|e] s1 A1; [|by apply wp_ret; eapply recovery_failed; [exact A1|]; intros ? []].
  unfold step at 1. apply wp_bind, wp_attempt.
  eapply wp_mono; [by eapply wp_add_member; [apply encoded_some|]|]. cbv beta.
  intros [?|e] s2 A2; [|by apply wp_ret; eapply recovery_failed; [exact A2|]; intros ? []]. clear A1.
  do 3 (eapply wp_recovery_step; [keeps_auto|eassumption|by intros ? [[]| ->]|clear A2; intros ? ? A2]).
  exact (wp_remember _ zone k p _ A2).
Qed.

Lemma wp_undo_recovery zone k pr s :
  at_ (stage (h_id zone) k (fun cg => recovered_cgroup_id pr = Some cg) whatever) s ->
  wp (undo_recovery zone k pr) (fun _ s' => at_ (fun _ => True) s') s.
Proof.
  intros Hs. unfold undo_recovery. apply wp_bind.
  assert (wp (match recovered_cgroup_id pr with
              | Some cgroup_id => do _ <- attempt (bpf (Linux.remove_zone_member cgroup_id)); ret tt
              | None => ret tt
              end : M unit) (fun _ s' => at_ (stage (h_id zone) k nobody whatever) s') s) as Hw.
  { destruct (recovered_cgroup_id pr) as [cg|].
    - apply wp_bind, wp_attempt. eapply wp_mono; [eapply wp_remove_member; [|exact Hs]|].
      + intros x [= <-] Hne. by apply Hne.
      + cbv beta. intros r s1 A1. by apply wp_ret.
    - apply wp_ret. revert Hs. apply at_mono. intros c _ (A & B & C). split; [done|split; [done|]].
      intros m pol Ht. destruct (C m pol Ht) as [C1 _]. split; [|done]. intros cg info Hcg Hz. by specialize (C1 cg info Hcg Hz). }
  eapply wp_mono; [exact Hw|]. cbv beta. intros [?|?] s1 A1; [|by eapply any_at].
  do 4 follow. apply wp_bind, wp_attempt. eapply wp_mono; [by eapply wp_remove_policy|]. cbv beta. intros r s2 A2.
  do 2 follow. apply wp_bind. eapply wp_mono; [by eapply wp_remove_id|]. cbv beta. intros [?|?] s3 A3; [|done].
  repeat follow.
Qed.

Lemma at_recover zone t p s : at_ (fun _ => True) s -> (next_zone_id s < 2 ^ 32)%Z ->
  wp (recover_zone config zone t p) (fun _ s' => at_ (fun _ => True) s') s.
Proof.
  intros Hs Hn. unfold recover_zone. apply wp_bind. eapply wp_mono; [apply benign_admit|].
  intros [[]|e] s1 A1; [|exact (at_benign _ _ _ Hs A1)]. pose proof (at_benign _ _ _ Hs A1) as Hs1.
  apply wp_bind. eapply wp_mono; [eapply wp_allocate_id; [by rewrite (benign_next _ _ A1)|exact Hs1]|].
  cbv beta. intros [k|e] s2 A2; [|done]. apply stage_whatever in A2. apply wp_bind. eapply wp_mono; [by apply wp_recovery|].
  intros [[pr [[]|e]]|e] s3 A3; cbn [recovery_post] in A3; [by apply wp_ret| |done]. cbn [snd fst].
  eapply wp_benign_bind; [eauto with keeps|exact A3|by intros; eapply any_at|].
  intros [[]|d] s4 A4; [|apply wp_fail; by eapply any_at].
  apply wp_bind. eapply wp_mono; [by apply wp_undo_recovery|]. cbv beta. by intros [] s5 A5.
Qed.

Lemma J_recover zone t p s : J s -> wp (recover_zone config zone t p) (fun _ => J) s.
Proof.
  intros Hs. destruct (Z.lt_ge_cases (next_zone_id s) (2 ^ 32)) as [Hn|Hn]; [|by apply J_recover_exhausted].
  eapply wp_mono; [apply at_recover; [apply Hs; lia|done]|]. intros r s'. apply at_J.
Qed.

Lemma J_keeps {A} u (c : M A) s :
  (at_ (fun _ => True) s -> wp c (fun _ s' => at_ (fun _ => True) s') s) -> keeps (touches u) c -> J s -> wp c (fun _ => J) s.
Proof.
  intros Hc Hk Hs. destruct (Z.le_gt_cases (next_zone_id s) (2 ^ 32)) as [Hn|Hn].
  - eapply wp_mono; [by apply Hc, Hs|]. intros r s'. apply at_J.
  - by eapply J_exhausted.
Qed.

(** ** Runs *)

(** What can happen to the backend: the operations of the trait with any
    arguments, and changes of the system around it. *)
Inductive Op :=
| OpCreate (cf : ZoneConfig) | OpDestroy (zone : ZoneHandle)
| OpEnforce (zone : ZoneHandle) (p : ZonePolicy) | OpReload (zone : ZoneHandle) (p : ZonePolicy)
| OpRecover (zone : ZoneHandle) (t : ZoneType) (p : ZonePolicy) | OpCleanup (zones : list ZoneHandle)
| OpCreateContainer (zone : ZoneHandle) (spec : ContainerSpec)
| OpStart (c : ContainerHandle) | OpStop (c : ContainerHandle)
| OpStats (zone : ZoneHandle) | OpVerify (zone : ZoneHandle) | OpShim (n : string) (r : ShimRequest)
| OpWorld (e : E).

Definition run_op (s : State) (o : Op) : State :=
  match o with
  | OpCreate cf => snd (create_zone config cf s)
  | OpDestroy zone => snd (destroy_zone config zone s)
  | OpEnforce zone p => snd (enforce_policy config zone p s)
  | OpReload zone p => snd (hot_reload_policy config zone p s)
  | OpRecover zone t p => snd (recover_zone config zone t p s)
  | OpCleanup zones => snd (cleanup_orphans config zones s)
  | OpCreateContainer zone spec => snd (create_container config zone spec s)
  | OpStart c => snd (start_container config c s)
  | OpStop c => snd (stop_container config c s)
  | OpStats zone => snd (zone_stats zone s)
  | OpVerify zone => snd (verify_isolation config zone s)
  | OpShim n r => snd (shim_request config n r s)
  | OpWorld e => set_env e s
  end.

Definition run (s : State) (ops : list Op) : State := fold_left run_op ops s.

Lemma J_run_op s o : J s -> J (run_op s o).
Proof.
  intros Hs. destruct o; cbn [run_op].
  - by apply J_create.
  - apply (J_keeps (h_id zone)); [apply at_destroy|apply touches_destroy|done].
  - apply (J_keeps (h_id zone)); [apply at_enforce|apply touches_enforce|done].
  - apply (J_keeps (h_id zone)); [apply at_reload|apply touches_reload|done].
  - by apply J_recover.
  - apply (J_keeps ""%string); [apply cleanup_safe|apply touches_cleanup|done].
  - apply J_benign; [apply benign_create_container|done].
  - apply J_benign; [apply benign_start_container|done].
  - apply J_benign; [apply benign_stop_container|done].
  - apply J_benign; [apply benign_stats|done].
  - apply J_benign; [apply benign_verify|done].
  - apply J_benign; [apply benign_shim|done].
  - exact Hs.
Qed.

Lemma J_run s ops : J s -> J (run s ops).
Proof. revert s. induction ops as [|o ops IH]; intros s Hs; [done|]. apply IH. by apply J_run_op. Qed.

(** Loading the object creates its maps: no cgroup is enrolled and no zone has a policy. *)
Definition fresh_maps : Prop := forall b, host_load = Ok b ->
  Kernel.ZONE_MEMBERSHIP (maps b) = ∅ /\ Kernel.ZONE_POLICY (maps b) = ∅.

Lemma J_new r e s e' : fresh_maps -> new config r e = (Ok s, e') -> J s.
Proof.
  intros Hf Hn. assert (exists b ip env, host_load = Ok b /\
    s = mkState (Linux.LinuxEnforcer_new b) 1 ∅ ∅ ∅ ∅ ∅ ip r env [] ∅) as (b & ip & env & Hb & ->).
  { revert Hn. unfold new, bind. destruct (Cgroup.new e) as [[?|?] ?]; [|done].
    destruct (of_result _ _) as [[sub|?] ?]; [|done]. destruct (or_fail _ _ _) as [[ip|?] ?]; [|done].
    unfold of_result at 1. destruct host_load as [b|]; [|done]. cbn [ret].
    destruct (attempt _ _) as [[?|?] ?]; [|done]. destruct (Nftables.ensure_nat _ _ _) as [[?|?] env]; [|done].
    intros [= <- _]. by exists b, ip, env. }
  intros _. destruct (Hf b Hb) as [Hm Hp]. split; [|split; [by constructor|done]]. split; cbn; try done.
  - intros m pol cg info [= <- <-]. by rewrite Hm.
  - intros m pol k [= <- <-]. rewrite Hp. by intros [].
Qed.

(** ** A failed reload *)

(** The zone has its id and the kernel this record of it. *)
Definition holds (zone : ZoneHandle) (k : Z) (kp : Kernel.ZonePolicyKernel) (s : State) : Prop :=
  zone_id_map s !! h_id zone = Some k /\
  exists b, Linux.ebpf (enforcer s) = Some b /\ Kernel.ZONE_POLICY (maps b) !! k = Some kp.

(** The zone has some record, so writing another cannot fail. *)
Definition recorded (zone : ZoneHandle) (k : Z) (s : State) : Prop := exists kp, holds zone k kp s.

Definition same_record (zone : ZoneHandle) (k : Z) (s s' : State) : Prop :=
  forall kp, holds zone k kp s -> holds zone k kp s'.

#[export] Instance same_record_preorder zone k : PreOrder (same_record zone k).
Proof. unfold same_record. split; [intros s kp; exact id|]. intros s1 s2 s3 A1 A2 kp A3. auto. Qed.

Lemma benign_same_record zone k {A} (c : M A) : keeps benign c -> keeps (same_record zone k) c.
Proof.
  intros Hc s. eapply wp_mono; [apply Hc|]. intros r s' Hb kp (Hk & b & Hs & Hl). split; [by rewrite (benign_ids _ _ Hb)|].
  pose proof (benign_tables _ _ Hb) as Ht. revert Ht. unfold now_tables, tables. rewrite Hs. cbn.
  destruct (Linux.ebpf (enforcer s')) as [b'|]; [|done]. intros [= _ Hpol]. exists b'. by rewrite Hpol.
Qed.
Lemma forget_same_record zone k z : keeps (same_record zone k) (forget_applied z : M _).
Proof. intros s kp Hs. exact Hs. Qed.

(** Writing a policy that encodes. *)
Lemma set_policy_total zone k p kp s : MapManager.policy_to_kernel p = Ok kp -> recorded zone k s ->
  wp (bpf (Linux.hot_reload_policy k p) : M unit) (fun r s' => is_ok r = true /\ holds zone k kp s') s.
Proof.
  intros Hkp (kp' & Hk & b & Hb & Hl). unfold wp, bpf, Linux.hot_reload_policy, Linux.with_bpf. rewrite Hb.
  unfold MapManager.hot_reload_policy, MapManager.set_zone_policy, MapManager.set_zone_policy_kernel. rewrite Hkp.
  rewrite Linux.hash_insert_ok by (left; by eexists). cbn. split; [done|]. split; [done|]. eexists. split; [done|].
  apply lookup_insert_eq.
Qed.

(** Whatever happens, some record is there. *)
Definition still_recorded (zone : ZoneHandle) (k : Z) (s s' : State) : Prop := recorded zone k s -> recorded zone k s'.

#[export] Instance still_recorded_preorder zone k : PreOrder (still_recorded zone k).
Proof. unfold still_recorded. split; [intros s; exact id|]. intros s1 s2 s3 A1 A2 A3. auto. Qed.

Lemma benign_still_recorded zone k {A} (c : M A) : keeps benign c -> keeps (still_recorded zone k) c.
Proof.
  intros Hc s. eapply wp_mono; [by apply (benign_same_record zone k)|]. intros r s' Hs (kp & Hkp). exists kp. by apply Hs.
Qed.
Lemma set_still_recorded zone k p : keeps (still_recorded zone k) (bpf (Linux.hot_reload_policy k p) : M unit).
Proof.
  intros s Hr. destruct (MapManager.policy_to_kernel p) as [kp|] eqn:Hkp.
  - exists kp. by apply (set_policy_total zone k p kp s Hkp Hr).
  - revert Hr. unfold bpf, Linux.hot_reload_policy, Linux.with_bpf, MapManager.hot_reload_policy,
      MapManager.set_zone_policy. rewrite Hkp. intros (kp & Hk & b & Hb & Hl). rewrite Hb. exists kp. by split; [|exists b].
Qed.
Hint Extern 4 (keeps (still_recorded _ _) _) => apply benign_still_recorded : keeps.
Hint Extern 4 (keeps (same_record _ _) _) => apply benign_same_record : keeps.
Hint Resolve set_still_recorded forget_same_record : keeps.

Lemma reload_still_recorded zone k p : keeps (still_recorded zone k) (reload_steps zone k p).
Proof. unfold reload_steps. keeps_all. Qed.

Lemma restore_holds zone k prev kp s : MapManager.policy_to_kernel prev = Ok kp -> recorded zone k s ->
  wp (restore_steps zone k prev) (fun _ s' => holds zone k kp s') s.
Proof.
  intros Hkp Hr. unfold restore_steps. apply wp_bind, wp_attempt.
  eapply wp_mono; [by apply (set_policy_total zone k prev kp)|]. cbv beta. intros r s1 [_ A1].
  eapply wp_mono; [eapply (_ : keeps (same_record zone k) _)|]. { intros r' s2 A2. by apply A2. }
  Unshelve. keeps_all.
Qed.

Lemma reload_holds zone k p prev kp s :
  MapManager.policy_to_kernel prev = Ok kp -> zone_policies s !! h_name zone = Some prev -> holds zone k kp s ->
  wp (hot_reload_policy config zone p) (fun r s' => is_ok r = false -> holds zone k kp s') s.
Proof.
  intros Hkp Hp Hh. unfold hot_reload_policy. apply wp_bind. unfold wp at 1, admit_policy at 1 2. cbn [fst snd].
  destruct (LinuxPolicy.admit_linux_policy _ _ _) as [[]|]; [|done].
  apply wp_bind, wp_gets. rewrite Hp. apply wp_bind, wp_ret. apply wp_bind. unfold kernel_id_of, get_zone_id.
  apply wp_bind, wp_gets. rewrite (proj1 Hh). apply wp_ret. apply wp_bind.
  eapply wp_mono; [eapply forget_same_record|]. intros [[]|e] s1 A1; [|intros _; by apply A1].
  apply wp_bind, wp_or_undo. eapply wp_mono; [eapply reload_still_recorded|].
  intros [[]|e] s2 A2; [done|].
  eapply wp_mono; [apply restore_holds; [exact Hkp|apply A2; exists kp; by apply A1]|]. by intros [] s3 A3.
Qed.

(** ** Destruction *)

(** The kernel's tables without the zone's id and cgroup. *)
Definition erased (cg : Z) (k : option Z) (s : State) : Prop :=
  forall i b, k = Some i -> Linux.ebpf (enforcer s) = Some b ->
    Kernel.ZONE_POLICY (maps b) !! i = None /\ Kernel.ZONE_MEMBERSHIP (maps b) !! cg = None.

Lemma erased_benign cg k s s' : benign s s' -> erased cg k s -> erased cg k s'.
Proof.
  intros Hb He i b -> Hs'. pose proof (benign_tables _ _ Hb) as Ht. revert Ht. unfold now_tables, tables. rewrite Hs'.
  destruct (Linux.ebpf (enforcer s)) as [b0|] eqn:Hs; [|done]. intros [= -> ->]. by apply He.
Qed.

(** What [destroy_zone] does once the cgroup is gone. *)
Lemma erase_tables cg k s :
  wp (do _ <- attempt (bpf (Linux.remove_zone_member cg)); do _ <- attempt (bpf (Linux.remove_zone_policy k)); ret tt : M unit)
    (fun r s' => is_ok r = true /\ zone_id_map s' = zone_id_map s /\ erased cg (Some k) s') s.
Proof.
  unfold wp, bind, attempt, bpf, Linux.remove_zone_member, Linux.remove_zone_policy, Linux.with_bpf.
  destruct (Linux.ebpf (enforcer s)) as [b|] eqn:Hb; cbn.
  - unfold MapManager.remove_zone_member. rewrite Linux.hash_remove_ok. cbn.
    unfold MapManager.remove_zone_policy. rewrite Linux.hash_remove_ok. cbn.
    split; [done|split; [done|]]. intros i b' [= <-] [= <-]. cbn. by rewrite !lookup_delete_eq.
  - rewrite Hb. cbn. split; [done|split; [done|]]. intros i b' _. cbn. by rewrite Hb.
Qed.

Definition destroyed (zone : ZoneHandle) (s : State) (r : result unit RauhaError) (s' : State) : Prop :=
  match r with
  | Err _ => benign s s'
  | Ok _ => (exists s1, benign s s1 /\ Cgroup.observed_empty (h_name zone) (env s1)) /\
      zone_id_map s' = base.delete (h_id zone) (zone_id_map s) /\
      erased (h_platform_id zone) (zone_id_map s !! h_id zone) s'
  end.

Lemma wp_drain zone s : wp (io (Cgroup.drain_zone (h_name zone)) : M unit)
  (fun r s' => r = Ok tt -> Cgroup.observed_empty (h_name zone) (env s')) s.
Proof.
  pose proof (Cgroup.drain_zone_empty (h_name zone) (env s)) as Hd. unfold wp, io in *.
  by destruct (Cgroup.drain_zone (h_name zone) (env s)).
Qed.

Lemma wp_both {A} (c : M A) Q1 Q2 s : wp c Q1 s -> wp c Q2 s -> wp c (fun r s' => Q1 r s' /\ Q2 r s') s.
Proof. by split. Qed.

Lemma destroy_spec zone s : wp (destroy_zone config zone) (destroyed zone s) s.
Proof.
  unfold destroy_zone. cbv zeta. apply wp_quiet; [apply total_os|keeps_auto|]. intros there s1 B1.
  apply wp_quiet; [total_auto|keeps_auto|]. intros _ s2 B2.
  apply wp_bind. eapply wp_mono; [apply wp_both; [apply (benign_io (Cgroup.drain_zone (h_name zone)))|apply wp_drain]|].
  assert (benign s s2) as B02 by (by transitivity s1). intros [[]|e] s3 [B3 D3]; [|exact (transitivity B02 B3)].
  apply wp_bind. eapply wp_mono; [apply (benign_io (Cgroup.destroy_zone_cgroup (h_name zone)))|].
  pose proof (transitivity B02 B3) as B03.
  intros [?|e] s4 B4; [|exact (transitivity B03 B4)]. pose proof (transitivity B03 B4) as B04.
  apply wp_bind. unfold wp at 1, remove_zone_id. cbn [fst snd].
  rewrite (benign_ids _ _ B04). set (s5 := set_ids _ _ _ _).
  assert (forall s', zone_id_map s' = zone_id_map s5 -> erased (h_platform_id zone) (zone_id_map s !! h_id zone) s' ->
    destroyed zone s (Ok tt) s') as Hdone.
  { intros s' Hids He. split; [exists s3; split; [done|by apply D3]|]. split; [|done]. by rewrite Hids. }
  clearbody s5. apply wp_quiet; [done|keeps_auto|]. intros stored s6 B6.
  apply wp_quiet; [done|keeps_auto|]. intros _ s7 B7. pose proof (transitivity B6 B7) as B57.
  apply wp_bind. eapply (wp_mono _ (fun r s' => is_ok r = true /\ zone_id_map s' = zone_id_map s5 /\
    erased (h_platform_id zone) (zone_id_map s !! h_id zone) s')).
  { destruct (zone_id_map s !! h_id zone) as [k|]; [|by apply wp_ret; split; [|split; [apply (benign_ids _ _ B57)|]]].
    apply wp_quiet; [total_auto|keeps_auto|]. intros _ s8 B8.
    eapply wp_mono; [apply erase_tables|]. cbv beta. intros r s9 (Hok & Hids & He). split; [done|]. split; [|done].
    by rewrite Hids, (benign_ids _ _ B8), (benign_ids _ _ B57). }
  intros [[]|e] s8 (Hok & Hids & He); [|done].
  apply wp_last; [total_auto|keeps_auto|]. intros [] s9 B9. apply Hdone; [by rewrite (benign_ids _ _ B9)|].
  exact (erased_benign _ _ _ _ B9 He).
Qed.

(** ** A failed creation *)

(** Steps of a zone [u] with kernel id [k], if any, that change the tables for
    that id only; a cgroup may leave. *)
Definition only_id (u : string) (k : Z) (s : State) : Prop := forall i, zone_id_map s !! u = Some i -> i = k.

Definition tables_around (k : Z) (t t' : Tables) : Prop :=
  (forall k', k' <> k -> snd t' !! k' = snd t !! k') /\
  (forall cg info, fst t' !! cg = Some info -> Kernel.zone_id info <> k -> fst t !! cg = Some info).

Definition around (u : string) (k : Z) (s s' : State) : Prop :=
  only_id u k s -> only_id u k s' /\
  forall t, now_tables s = Some t -> exists t', now_tables s' = Some t' /\ tables_around k t t'.

#[export] Instance around_preorder u k : PreOrder (around u k).
Proof.
  unfold around. split; [intros s Ho; split; [done|]; intros t Hs; exists t; by repeat split|].
  intros s1 s2 s3 A B Ho. destruct (A Ho) as [Ho2 A']. destruct (B Ho2) as [Ho3 B']. split; [done|]. intros t Hs.
  destruct (A' t Hs) as (t2 & Hs2 & A1 & A2). destruct (B' t2 Hs2) as (t3 & Hs3 & B1 & B2).
  exists t3. split; [done|split]; [|by auto]. intros k' Hk. rewrite B1 by done. by apply A1.
Qed.

Lemma around_same u k s s' : zone_id_map s' = zone_id_map s -> now_tables s' = now_tables s -> around u k s s'.
Proof.
  intros Hi Ht Ho. split; [intros i; rewrite Hi; apply Ho|]. intros t Hs. exists t. rewrite Ht. by repeat split.
Qed.

Lemma benign_around u k {A} (c : M A) : keeps benign c -> keeps (around u k) c.
Proof.
  intros Hc s. eapply wp_mono; [apply Hc|]. intros r s' Hb. apply around_same; [apply Hb|apply Hb].
Qed.

Lemma table_around u k f g : table_step f g -> (forall t t', g t t' -> tables_around k t t') ->
  keeps (around u k) (bpf f : M unit).
Proof.
  intros Hf Hg s. specialize (Hf (enforcer s)). unfold wp, bpf. destruct (f (enforcer s)) as [[[]|e] x].
  - intros Ho. split; [exact Ho|]. intros t0 Hs. destruct Hf as (t & t' & Ht & Hx & Hr). unfold now_tables in Hs.
    rewrite Hs in Ht. injection Ht as <-. exists t'. split; [exact Hx|by apply Hg].
  - apply around_same; [done|exact Hf].
Qed.

Lemma remove_id_around u k : keeps (around u k) (remove_zone_id u : M _).
Proof.
  intros s Ho. split; [intros i; cbn; by rewrite lookup_delete_eq|]. intros t Hs. exists t. by repeat split.
Qed.
Lemma set_policy_around u k p : keeps (around u k) (bpf (Linux.set_zone_policy k p) : M unit).
Proof.
  eapply table_around; [apply set_policy_step|]. intros t t' (kp & _ & ->). split; [|done].
  intros k' Hk. by apply lookup_insert_ne.
Qed.
Lemma add_member_around u k cg t : keeps (around u k) (bpf (Linux.add_zone_member cg k t) : M unit).
Proof.
  eapply table_around; [apply add_member_step|]. intros x x' ->. split; [done|]. cbn. intros cg' info.
  rewrite lookup_insert_Some. by intros [[_ <-]|[_ Hcg]] Hz.
Qed.
Lemma remove_member_around u k cg : keeps (around u k) (bpf (Linux.remove_zone_member cg) : M unit).
Proof.
  eapply table_around; [apply remove_member_step|]. intros x x' ->. split; [done|]. cbn.
  by intros cg' info [_ Hcg]%lookup_delete_Some.
Qed.
Lemma remove_policy_around u k : keeps (around u k) (bpf (Linux.remove_zone_policy k) : M unit).
Proof.
  eapply table_around; [apply remove_policy_step|]. intros x x' ->. split; [|done].
  intros k' Hk. by apply lookup_delete_ne.
Qed.
Hint Extern 4 (keeps (around _ _) _) => apply benign_around : keeps.
Hint Resolve remove_id_around set_policy_around add_member_around remove_member_around remove_policy_around : keeps.

(** The id read back is the zone's. *)
Lemma get_id_around {A} u k (next : option Z -> M A) :
  keeps (around u k) (next None) -> keeps (around u k) (next (Some k)) -> keeps (around u k) (bind (get_zone_id u) next).
Proof.
  intros Hn Hk s. unfold wp, bind, get_zone_id, gets. destruct (zone_id_map s !! u) as [i|] eqn:Hi; [|apply Hn].
  intros Ho. assert (i = k) as -> by (by apply Ho). by apply Hk.
Qed.

Lemma rollback_around name u k n : keeps (around u k) (rollback_zone config name u n).
Proof. unfold rollback_zone. keeps_all. Qed.
Hint Resolve rollback_around : keeps.
Lemma network_around cf u k : keeps (around u k) (create_network config cf u).
Proof. unfold create_network. keeps_all. Qed.
Hint Resolve network_around : keeps.

Lemma create_rest_around cf u k : keeps (around u k) (create_rest cf u k).
Proof.
  unfold create_rest. cbv zeta. repeat first [apply get_id_around | solve [eauto 3 with keeps] | keeps_step |
    apply keeps_or_undo; [apply _| |]].
Qed.

Lemma touches_create_rest cf u k : keeps (touches u) (create_rest cf u k).
Proof. unfold create_rest. cbv zeta. keeps_all. Qed.

Lemma now_tables_some s m pol : now_tables s = Some (m, pol) ->
  exists b, Linux.ebpf (enforcer s) = Some b /\ Kernel.ZONE_MEMBERSHIP (maps b) = m /\ Kernel.ZONE_POLICY (maps b) = pol.
Proof. unfold now_tables, tables. destruct (Linux.ebpf (enforcer s)) as [b|]; [|done]. intros [= <- <-]. by exists b. Qed.

(** Tables changed around an id that had nothing before and has nothing after. *)
Lemma same_policies k s s2 s' : inv (core s) -> now_tables s2 = now_tables s ->
  (forall t, now_tables s2 = Some t -> exists t', now_tables s' = Some t' /\ tables_around k t t') ->
  (forall m pol, c_tables (core s2) = Some (m, pol) ->
     (forall cg info, m !! cg = Some info -> Kernel.zone_id info = k -> nobody cg) /\ none (pol !! k)) ->
  (forall m pol, c_tables (core s') = Some (m, pol) ->
     (forall cg info, m !! cg = Some info -> Kernel.zone_id info <> k) /\ pol !! k = None) ->
  exists b b', Linux.ebpf (enforcer s) = Some b /\ Linux.ebpf (enforcer s') = Some b' /\
    (forall k, Kernel.ZONE_POLICY (maps b') !! k = Kernel.ZONE_POLICY (maps b) !! k) /\
    (forall cg info, Kernel.ZONE_MEMBERSHIP (maps b') !! cg = Some info -> Kernel.ZONE_MEMBERSHIP (maps b) !! cg = Some info).
Proof.
  intros Hi Hnt Har Hst Hcl. destruct (inv_loaded _ Hi) as [[m pol] Ht]. cbn in Ht. rewrite <- Hnt in Ht.
  destruct (Har _ Ht) as ([m' pol'] & Ht' & Hp & Hm). destruct (Hst m pol Ht) as [_ Hk]. destruct (Hcl m' pol' Ht') as [Hc Hk'].
  rewrite Hnt in Ht. apply now_tables_some in Ht as (b & Hb & <- & <-). apply now_tables_some in Ht' as (b' & Hb' & <- & <-).
  exists b, b'. split; [done|split; [done|split]].
  - intros j. destruct (decide (j = k)) as [->|Hj]; [by rewrite Hk', Hk|by apply Hp].
  - intros cg info Hcg. apply Hm; [done|by eapply Hc].
Qed.

(** ** Properties *)

(** C23. A creation that fails leaves no trace in the enforcement of any run: the
    id it drew has no kernel id, no cgroup was enrolled, and the policies in the
    kernel and the ids of the other zones are what they were. *)
Theorem failed_create_leaves_no_trace r e s0 e' ops cf err s' :
  fresh_maps -> new config r e = (Ok s0, e') ->
  let s := run s0 ops in
  (next_zone_id s < 2 ^ 32)%Z ->
  create_zone config cf s = (Err err, s') ->
  s' = s \/
  exists u, u ∉ drawn (rng s) /\ zone_id_map s' !! u = None /\
    (forall v, v <> u -> zone_id_map s' !! v = zone_id_map s !! v) /\
    exists b b', Linux.ebpf (enforcer s) = Some b /\ Linux.ebpf (enforcer s') = Some b' /\
      (forall k, Kernel.ZONE_POLICY (maps b') !! k = Kernel.ZONE_POLICY (maps b) !! k) /\
      (forall cg info, Kernel.ZONE_MEMBERSHIP (maps b') !! cg = Some info -> Kernel.ZONE_MEMBERSHIP (maps b) !! cg = Some info).
Proof.
  intros Hf Hn s Hle Hr. destruct (J_run s0 ops (J_new r e s0 e' Hf Hn)) as (Hi & Hh & _); [fold s; lia|]. fold s in Hi, Hh.
  rewrite create_zone_eq in Hr. unfold bind at 1, admit_policy in Hr.
  destruct (LinuxPolicy.admit_linux_policy _ _ _) as [[]|]; [|injection Hr as _ <-; by left]. right.
  unfold bind at 1, uuid in Hr. destruct (new_v4 (rng s)) as [u r'] eqn:Hu. destruct (new_v4_fresh _ _ _ Hu) as [Hfr _].
  assert (at_ (fun _ => True) (set_rng r' s)) as Hs1 by (by split).
  pose proof (wp_allocate_id (fun _ => True) u (set_rng r' s) Hle Hs1) as Ha. unfold wp in Ha. unfold bind at 1 in Hr.
  pose proof (touches_allocate u (set_rng r' s)) as Ht. unfold wp in Ht.
  assert (now_tables (snd (allocate_zone_id u (set_rng r' s) : result Z RauhaError * State)) = now_tables s) as Hnt by done.
  destruct (allocate_zone_id u (set_rng r' s)) as [[k|] s2]; [|done]. cbn [fst snd] in *.
  pose proof (at_create_rest cf u k s2 Ha) as Hb. pose proof (create_rest_around cf u k s2) as Har. unfold wp in *.
  pose proof (touches_create_rest cf u k s2) as Htr. unfold wp in Htr.
  rewrite Hr in Hb, Har, Htr. cbn [fst snd built] in *. destruct Hb as (Hi' & _ & Hnone & Hcl).
  exists u. split; [done|split; [exact Hnone|split]].
  { intros v Hv. rewrite (touches_ids _ _ _ Htr v Hv). by apply (touches_ids _ _ _ Ht v Hv). }
  destruct Ha as (Hi2 & _ & Hk & _ & Hst). apply (same_policies k s s2 s' Hi Hnt); [|done..]. apply Har.
  intros i. unfold core in Hk. cbn in Hk. congruence.
Qed.


(** C2. At every moment of any run of fewer than 2^32 zones - between any two
    steps of the operations, the failing ones and their rollbacks included -
    each cgroup enrolled under the kernel id of a live zone has a policy in the
    kernel to be judged by, and live zones have distinct ids. *)
Theorem live_zones_always_judged r e s0 e' ops :
  fresh_maps -> new config r e = (Ok s0, e') ->
  let s := run s0 ops in
  (next_zone_id s <= 2 ^ 32)%Z ->
  (forall u u' k, zone_id_map s !! u = Some k -> zone_id_map s !! u' = Some k -> u = u') /\
  forall ids b, (ids, Some b) ∈ history s ->
    forall u k cg info, ids !! u = Some k -> Kernel.ZONE_MEMBERSHIP (maps b) !! cg = Some info ->
      Kernel.zone_id info = k -> is_Some (Kernel.ZONE_POLICY (maps b) !! k).
Proof.
  intros Hf Hn s Hle. destruct (J_run s0 ops (J_new r e s0 e' Hf Hn) Hle) as (Hi & Hh & _).
  split; [apply (inv_inj _ Hi)|]. intros ids b Hin u k cg info Hu Hcg Hk. unfold hist_ok in Hh.
  rewrite Forall_forall in Hh. specialize (Hh _ Hin). cbn in Hh. rewrite <- Hk in Hu |- *.
  by eapply Hh.
Qed.

(** The kernel enforces an applied policy of a live zone. *)
Lemma applied_in_kernel s u p : J s -> (next_zone_id s <= 2 ^ 32)%Z -> applied s !! u = Some p ->
  exists k b kp, zone_id_map s !! u = Some k /\ Linux.ebpf (enforcer s) = Some b /\
    MapManager.policy_to_kernel p = Ok kp /\ Kernel.ZONE_POLICY (maps b) !! k = Some kp.
Proof.
  intros HJ Hle Ha. destruct (HJ Hle) as (Hi & _ & _). destruct (inv_applied _ Hi u p Ha) as (k & Hk & He).
  destruct (inv_loaded _ Hi) as [[m pol] Ht]. destruct (He m pol Ht) as (kp & Hkp & Hl).
  revert Ht. unfold core, now_tables, tables. cbn. destruct (Linux.ebpf (enforcer s)) as [b|] eqn:Hb; [|done].
  intros [= <- <-]. by exists k, b, kp.
Qed.

(** C22. A rejected reload leaves the zone under the policy it had: whatever step
    of a reload fails, the kernel's record of the zone is again the encoding of
    the policy applied before. *)
Theorem failed_reload_restores r e s0 e' ops zone p prev err s' :
  fresh_maps -> new config r e = (Ok s0, e') ->
  let s := run s0 ops in
  (next_zone_id s <= 2 ^ 32)%Z ->
  applied s !! h_id zone = Some prev -> zone_policies s !! h_name zone = Some prev ->
  hot_reload_policy config zone p s = (Err err, s') ->
  exists k b kp, zone_id_map s' !! h_id zone = Some k /\ Linux.ebpf (enforcer s') = Some b /\
    MapManager.policy_to_kernel prev = Ok kp /\ Kernel.ZONE_POLICY (maps b) !! k = Some kp.
Proof.
  intros Hf Hn s Hle Ha Hp Hr.
  pose proof (applied_in_kernel s (h_id zone) prev (J_run s0 ops (J_new r e s0 e' Hf Hn)) Hle Ha)
    as (k & b & kp & Hk & Hb & Hkp & Hl).
  enough (wp (hot_reload_policy config zone p) (fun r' s' => is_ok r' = false -> holds zone k kp s') s) as Hw.
  { unfold wp in Hw. rewrite Hr in Hw. destruct (Hw eq_refl) as (Hk' & b' & Hb' & Hl'). by exists k, b', kp. }
  apply (reload_holds zone k p prev kp s Hkp Hp). by split; [|exists b].
Qed.

(** C24. A zone is destroyed in the right order: it keeps its id, its enrolment
    and its policy unless draining has seen its cgroup empty or gone, and when
    destruction reports success the id, the enrolment of the handle's cgroup and
    the policy are gone. *)
Theorem destroyed_only_when_drained zone s :
  match destroy_zone config zone s with
  | (Err _, s') => zone_id_map s' = zone_id_map s /\ applied s' = applied s /\ now_tables s' = now_tables s
  | (Ok _, s') =>
      (exists s1, zone_id_map s1 = zone_id_map s /\ now_tables s1 = now_tables s /\
         Cgroup.observed_empty (h_name zone) (env s1)) /\
      zone_id_map s' = base.delete (h_id zone) (zone_id_map s) /\
      forall k b, zone_id_map s !! h_id zone = Some k -> Linux.ebpf (enforcer s') = Some b ->
        Kernel.ZONE_POLICY (maps b) !! k = None /\ Kernel.ZONE_MEMBERSHIP (maps b) !! h_platform_id zone = None
  end.
Proof.
  pose proof (destroy_spec zone s) as Hd. unfold wp in Hd. destruct (destroy_zone config zone s) as [[[]|e] s'].
  - destruct Hd as ((s1 & B1 & O1) & Hids & He). split; [|split; [exact Hids|]].
    + exists s1. split; [by apply benign_ids|]. split; [by apply benign_tables|exact O1].
    + intros k b Hk Hb. by apply He.
  - split; [by apply benign_ids|]. split; [by apply benign_applied|by apply benign_tables].
Qed.

End Benign.

(** ** A run *)

Module Demo.
Import LinuxDemo.

Definition ops : list (Op (E := Files)) := [OpCreate (web 4096); OpEnforce handle (policy ["chown"] 4096)].

Lemma fresh : fresh_maps.
Proof. by intros b [= <-]. Qed.

Definition files1 : Files := snd (new config 0%nat files0).
Lemma is_started : new config 0%nat files0 = (Ok started, files1).
Proof. vm_compute. reflexivity. Qed.

Definition old : State (E := Files) (R := nat) := run config started ops.

(** Results are named through projections, so that states stay folded. *)
Lemma pair_err {A X S} (p : result A X * S) : is_ok (fst p) = false -> exists e, p = (Err e, snd p).
Proof. destruct p as [[a|e] s]; [done|]. by exists e. Qed.

Definition last_maps (s : State (E := Files) (R := nat)) : Kernel.Maps :=
  match Linux.ebpf (enforcer s) with Some b => maps b | None => Kernel.sample_maps end.

Lemma live_zones_always_judged_witness :
  exists ids b, (ids, Some b) ∈ history old /\ ids !! "zone"%string = Some 1%Z /\
    is_Some (Kernel.ZONE_POLICY (maps b) !! 1%Z).
Proof.
  destruct (live_zones_always_judged config 0%nat files0 started files1 ops fresh is_started) as [_ Hj];
    [vm_compute; discriminate|]. fold old in Hj.
  assert (exists ids b, head (history old) = Some (ids, Some b) /\ ids !! "zone"%string = Some 1%Z /\
    Kernel.ZONE_MEMBERSHIP (maps b) !! 42%Z = Some (Kernel.mkInfo 1 0)) as (ids & b & Hh & Hz & Hm).
  { do 2 eexists. split; [vm_compute; reflexivity|]. split; vm_compute; reflexivity. }
  assert ((ids, Some b) ∈ history old) as Hin.
  { revert Hh. generalize (history old). intros [|x l]; [done|]. intros [= ->]. by left. }
  exists ids, b. split; [exact Hin|split; [exact Hz|]].
  exact (Hj ids b Hin "zone"%string 1%Z 42%Z (Kernel.mkInfo 1 0) Hz Hm eq_refl).
Defined.

(** A limit the system refuses: the kernel's record was replaced, and is put back. *)
Definition bad : ZonePolicy := policy ["chown"; "kill"] 4097.
Definition refused := hot_reload_policy config handle bad old.

Lemma failed_reload_restores_witness :
  is_ok (fst refused) = false /\ Kernel.ZONE_POLICY (last_maps (snd refused)) !! 1%Z = Some (Kernel.mkKPolicy 1 0 0).
Proof.
  assert (next_zone_id old <= 2 ^ 32)%Z as H1 by (vm_compute; discriminate).
  assert (applied old !! h_id handle = Some (policy ["chown"] 4096)) as H2 by (vm_compute; reflexivity).
  assert (zone_policies old !! h_name handle = Some (policy ["chown"] 4096)) as H3 by (vm_compute; reflexivity).
  assert (is_ok (fst refused) = false) as H4 by (vm_compute; reflexivity).
  assert (zone_id_map (snd refused) !! h_id handle = Some 1%Z) as Hk1 by (vm_compute; reflexivity).
  split; [exact H4|]. destruct (pair_err refused H4) as [err Hr].
  destruct (failed_reload_restores config 0%nat files0 started files1 ops handle bad (policy ["chown"] 4096) err (snd refused)
              fresh is_started H1 H2 H3 Hr) as (k & b & kp & Hk & Hb & Hkp & Hl).
  rewrite Hk1 in Hk. injection Hk as <-. injection Hkp as <-. unfold last_maps. rewrite Hb. exact Hl.
Defined.

Definition refused_zone := create_zone config (web 4097) started.

Lemma failed_create_leaves_no_trace_witness :
  is_ok (fst refused_zone) = false /\ Kernel.ZONE_POLICY (last_maps (snd refused_zone)) !! 1%Z = None.
Proof.
  assert (is_ok (fst refused_zone) = false) as H4 by (vm_compute; reflexivity).
  assert (next_zone_id (snd refused_zone) <> next_zone_id started) as Hne by (vm_compute; discriminate).
  assert (next_zone_id (run config started []) < 2 ^ 32)%Z as H1 by (vm_compute; reflexivity).
  assert (Kernel.ZONE_POLICY (last_maps started) !! 1%Z = None) as H2 by (vm_compute; reflexivity).
  split; [exact H4|]. destruct (pair_err refused_zone H4) as [err Hr].
  destruct (failed_create_leaves_no_trace config 0%nat files0 started files1 [] (web 4097) err (snd refused_zone)
              fresh is_started H1 Hr) as [Heq|(u & _ & _ & _ & b & b' & Hb & Hb' & Hp & _)].
  - exfalso. apply Hne. exact (f_equal next_zone_id Heq).
  - unfold last_maps in *. rewrite Hb'. rewrite Hp. change (run config started []) with started in Hb.
    rewrite Hb in H2. exact H2.
Defined.

Definition finished := destroy_zone config handle old.

Lemma destroyed_only_when_drained_witness :
  is_ok (fst finished) = true /\ zone_id_map (snd finished) !! "zone"%string = None.
Proof.
  assert (is_ok (fst finished) = true) as Hok by (vm_compute; reflexivity).
  assert (h_id handle = "zone"%string) as Hid by (vm_compute; reflexivity).
  split; [exact Hok|]. pose proof (destroyed_only_when_drained config handle old) as Hd.
  change (destroy_zone config handle old) with finished in Hd. revert Hd Hok. generalize finished. rewrite Hid.
  intros [[[]|e] s'] Hd; [|done]. intros _. destruct Hd as (_ & Hz & _). cbn [snd]. rewrite Hz. apply lookup_delete_eq.
Defined.

End Demo.
End LinuxInvariant.
