(* ===== verification/LinuxReport.v ===== *)
(** * What an isolation report says

    [verify_isolation] of the Linux backend: its verdict is the conjunction of the
    checks it lists, the enforcement counters apart, and a positive verdict says
    what the kernel's maps hold. *)

From stdpp Require Import base gmap strings list sets sorting.
From Stdlib Require Import ZArith Lia Btauto.
From S2P Require Import Prelude.
From S2P Require Import RustStr.
From S2P Require Import EnforcerApi.
From S2P Require Import Zone.
From S2P Require Import Kernel.
From S2P Require Import BpfMaps.
From S2P Require Import LinuxEnforcer.
From S2P Require Import StateError.
From S2P Require Import Backend.
From S2P Require Import LinuxHost.
From S2P Require Import Cgroup.
From S2P Require Import Network.
From S2P Require Import Nftables.
From S2P Require Import LinuxPolicy.
From S2P Require Import LinuxBackend.
From S2P Require Import LinuxDemo.
Import Zone Backend LinuxBackend.

Module LinuxReport.

Section Report.
Context {E R : Type} `{!Host.LinuxHost E, !Daemon E, !Rng R} `{K : BpfHost}.
Context (config : Config).
Notation State := (LinuxBackend.State (E := E) (R := R)).
Notation passed := (forallb ck_passed).

Lemma no_empty_list {A} (l : list A) (f : A -> IsolationCheck) :
  (forall x, ck_passed (f x) = false) -> passed (map f l) = bool_decide (l = []).
Proof. intros Hf. destruct l as [|x l]; [done|]. cbn. by rewrite Hf. Qed.

Lemma policy_checks_sound o : fst (policy_checks config o) = passed (snd (policy_checks config o)).
Proof. destruct o as [p|]; [|done]. unfold policy_checks. cbv zeta. cbn [fst snd]. by rewrite no_empty_list. Qed.

Lemma ebpf_checks_sound (s : State) : fst (ebpf_checks s) = passed (snd (ebpf_checks s)).
Proof.
  unfold ebpf_checks. destruct (Linux.health_check (enforcer s)) as [l|e]; [|done]. cbn [fst snd].
  rewrite forallb_app, (no_empty_list (skipped_hooks s)) by done. f_equal. induction l as [|x l IH]; [done|]. cbn [forallb map].
  by rewrite IH.
Qed.

Lemma elements_empty (d : gset string) : bool_decide (elements d = []) = bool_decide (d = ∅).
Proof. apply bool_decide_ext. by rewrite elements_empty_iff, leibniz_equiv_iff. Qed.

(** A positive membership check read the kernel's map. *)
Lemma membership_check_sound zone (s : State) : fst (membership_check zone s) = true ->
  exists k b info, zone_id_map s !! h_id zone = Some k /\ Linux.ebpf (enforcer s) = Some b /\
    Kernel.ZONE_MEMBERSHIP (maps b) !! h_platform_id zone = Some info /\ Kernel.zone_id info = k.
Proof.
  unfold membership_check. destruct (zone_id_map s !! h_id zone) as [k|]; [|done].
  unfold Linux.zone_member_matches. destruct (Linux.ebpf (enforcer s)) as [b|]; [|done].
  unfold MapManager.zone_member.
  destruct (Kernel.ZONE_MEMBERSHIP (maps b) !! h_platform_id zone) as [info|] eqn:Hi; [|done]. cbn.
  destruct (Z.eqb_spec (Kernel.zone_id info) k) as [Hk|]; [|done]. intros _. by exists k, b, info.
Qed.

(** A positive inode check read the owner of every inode it attests. *)
Lemma attest_sound plan k (s : State) : fst (attest plan k s) = true ->
  exists set note b, plan = LinuxPolicy.Attest set note /\ Linux.ebpf (enforcer s) = Some b /\
    forall i, i ∈ set -> Kernel.INODE_ZONE_MAP (maps b) !! i = Some k.
Proof.
  destruct plan as [| |e|set note]; [done..|]. unfold attest. cbv zeta. unfold Linux.inodes_match.
  destruct (Linux.ebpf (enforcer s)) as [b|]; [|done].
  destruct (forallb _ _) eqn:Hf; [|done]. intros _. exists set, note, b. split; [done|split; [done|]].
  intros i Hi. rewrite forallb_forall in Hf. specialize (Hf i). rewrite bool_decide_eq_true in Hf. apply Hf.
  apply list_elem_of_In. unfold sorted. rewrite merge_sort_Permutation. by apply elem_of_elements.
Qed.

Definition is_counter (c : IsolationCheck) : bool := Str.starts_with "enforcement:" (ck_name c).

Lemma counter_checks_named (s : State) : forallb is_counter (counter_checks s) = true.
Proof.
  unfold counter_checks. destruct (Linux.read_enforcement_counters (enforcer s)) as [l|]; [|done].
  induction l as [|[n c] l IH]; [done|]. cbn [omap list_omap]. unfold counter_check at 1.
  destruct (_ && _)%Z; [|destruct (_ || _)%Z; [|exact IH]]; cbn [forallb]; rewrite IH, andb_true_r; unfold is_counter; cbn [ck_name];
    by destruct n.
Qed.

(** Reading steps, as relations on the state: only the system moves. *)
Definition reads (s s' : State) : Prop :=
  enforcer s' = enforcer s /\ zone_id_map s' = zone_id_map s /\ zone_policies s' = zone_policies s /\
  zone_degradations s' = zone_degradations s /\ registered_inodes s' = registered_inodes s.

#[local] Instance reads_preorder : PreOrder reads.
Proof. unfold reads. split; [by intros s|]. intros s1 s2 s3 (?&?&?&?&?) (?&?&?&?&?). by repeat split; congruence. Qed.

Lemma reads_io {A} (c : Host.IO (E := E) A) : keeps reads (io c : M State RauhaError A).
Proof. intros s. unfold wp, io. by destruct (c (env s)). Qed.

Lemma wp_reads {A B} (c : M State RauhaError A) (k : A -> M State RauhaError B) s0 s (Q : B -> Prop) :
  keeps reads c -> reads s0 s ->
  (forall a s', reads s0 s' -> wp (k a) (fun r _ => match r with Ok b => Q b | Err _ => True end) s') ->
  wp (bind c k) (fun r _ => match r with Ok b => Q b | Err _ => True end) s.
Proof.
  intros Hc Hs Hk. apply wp_bind. eapply wp_mono; [apply Hc|]. intros [a|e] s' Hs'; [|done].
  apply Hk. by transitivity s.
Qed.

(** What a positive verdict says of the backend and the kernel. *)
Definition isolated (zone : ZoneHandle) (s : State) : Prop :=
  (exists p, zone_policies s !! h_name zone = Some p /\
     LinuxPolicy.unsupported_linux_controls p (safe_writable_roots config) = []) /\
  default ∅ (zone_degradations s !! h_name zone) = ∅ /\
  exists k b info, zone_id_map s !! h_id zone = Some k /\ Linux.ebpf (enforcer s) = Some b /\
    Kernel.ZONE_MEMBERSHIP (maps b) !! h_platform_id zone = Some info /\ Kernel.zone_id info = k /\
    forall i, i ∈ default [] (registered_inodes s !! h_name zone) -> Kernel.INODE_ZONE_MAP (maps b) !! i = Some k.

Lemma policy_checks_isolated o : fst (policy_checks config o) = true ->
  exists p, o = Some p /\ LinuxPolicy.unsupported_linux_controls p (safe_writable_roots config) = [].
Proof. destruct o as [p|]; [|done]. unfold policy_checks. cbv zeta. cbn [fst]. rewrite bool_decide_eq_true. eauto. Qed.

Lemma attested_set live disk recorded set note :
  LinuxPolicy.inode_ownership_check_plan live disk recorded = LinuxPolicy.Attest set note ->
  set = list_to_set recorded.
Proof.
  unfold LinuxPolicy.inode_ownership_check_plan. cbv zeta. destruct disk as [d|]; [|done].
  destruct live; [|by intros [= <- _]]. case_bool_decide; [done|]. case_bool_decide as He; [|done].
  cbn [negb]. by intros [= <- _].
Qed.

Hint Resolve reads_io : keeps.
Lemma reads_os {A} (f : E -> A * E) : keeps reads (LinuxBackend.os f : M State RauhaError A).
Proof. apply reads_io. Qed.
Lemma reads_os_try {A X} (f : E -> result A X * E) err : keeps reads (LinuxBackend.os_try f err : M State RauhaError A).
Proof. apply reads_io. Qed.
Hint Resolve reads_os reads_os_try : keeps.
Lemma reads_collect r n : keeps reads (collect_rootfs_inodes r n : M State RauhaError _).
Proof. unfold collect_rootfs_inodes. keeps_auto. Qed.
Hint Resolve reads_collect : keeps.
Lemma reads_containers c es l : keeps reads (collect_containers c es l : M State RauhaError _).
Proof. revert l. induction es as [|[|] es IH]; intros l; cbn [collect_containers]; cbv zeta; keeps_auto. Qed.
Hint Resolve reads_containers : keeps.
Lemma reads_zone n : keeps reads (collect_zone_rootfs_inodes config n : M State RauhaError _).
Proof. unfold collect_zone_rootfs_inodes. cbv zeta. keeps_auto. Qed.
Hint Resolve reads_zone : keeps.

(** What a positive inode check found. *)
Definition owned (zone : ZoneHandle) (s : State) : Prop :=
  exists k b, zone_id_map s !! h_id zone = Some k /\ Linux.ebpf (enforcer s) = Some b /\
    forall i, i ∈ default [] (registered_inodes s !! h_name zone) -> Kernel.INODE_ZONE_MAP (maps b) !! i = Some k.

Lemma inode_check_sound zone s :
  wp (inode_check config zone) (fun r s' => reads s s' /\
    match r with Ok x => fst x = true -> owned zone s | Err _ => True end) s.
Proof.
  unfold inode_check. apply wp_bind. unfold get_zone_id. apply wp_gets.
  destruct (zone_id_map s !! h_id zone) as [k|] eqn:Hk; [|by apply wp_ret].
  apply wp_bind, wp_attempt. eapply wp_mono; [apply (reads_io (Cgroup.zone_has_processes (h_name zone)))|].
  intros live s1 R1. apply wp_bind, wp_attempt. eapply wp_mono; [apply reads_zone|]. intros disk s2 R2.
  apply wp_bind, wp_gets, wp_gets. pose proof (transitivity R1 R2) as R12. split; [exact R12|]. intros Ht.
  apply attest_sound in Ht as (set & note & b & Hp & Hb & Ho). apply attested_set in Hp as ->.
  destruct R12 as (Re & Ri & _ & _ & Rn). rewrite Re in Hb. rewrite Rn in Ho. exists k, b. split; [done|split; [done|]].
  intros i Hi. apply Ho. by apply elem_of_list_to_set.
Qed.

(** The verdict of an isolation report is the conjunction of the checks it
    lists, the enforcement counters apart; a positive one means that the zone's
    policy is admitted with no control the backend cannot enforce, that nothing was
    degraded, that the kernel has the zone's cgroup enrolled under its id, and that
    every inode on record for it is owned by it. *)
Theorem report_verdict_is_its_checks zone s report s' :
  verify_isolation config zone s = (Ok report, s') ->
  (exists main counters, checks report = (main ++ counters)%list /\ forallb is_counter counters = true /\
     is_isolated report = forallb ck_passed main) /\
  (is_isolated report = true -> isolated zone s).
Proof.
  intros Hr. enough (wp (verify_isolation config zone) (fun r _ => match r with
    | Ok report => (exists main counters, checks report = (main ++ counters)%list /\ forallb is_counter counters = true /\
        is_isolated report = forallb ck_passed main) /\ (is_isolated report = true -> isolated zone s)
    | Err _ => True end) s) as Hw by (unfold wp in Hw; by rewrite Hr in Hw).
  clear Hr report s'. unfold verify_isolation. cbv zeta. apply wp_bind, wp_gets.
  pose proof (policy_checks_sound (zone_policies s !! h_name zone)) as Hpc.
  pose proof (policy_checks_isolated (zone_policies s !! h_name zone)) as Hpi.
  destruct (policy_checks config (zone_policies s !! h_name zone)) as [pok pcs]. cbn [fst snd] in Hpc, Hpi.
  apply wp_bind, wp_gets. apply wp_reads with (s0 := s); [apply reads_io|reflexivity|]. intros cg s1 R1.
  apply wp_bind, wp_gets, wp_bind, wp_gets. apply wp_bind.
  eapply wp_mono; [apply inode_check_sound|]. intros [[iok itext]|e] s2 [R2 I2]; [|done].
  pose proof (transitivity R1 R2) as R12.
  eapply wp_reads; [|exact R12|intros nok s3 R3]. { case_match; [apply reads_io|keeps_auto]. }
  eapply wp_reads; [|exact R3|intros vok s4 R4]. { case_match; [apply reads_io|keeps_auto]. }
  eapply wp_reads; [apply reads_io|exact R4|intros vname s5 R5].
  eapply wp_reads; [apply reads_io|exact R5|intros fok s6 R6].
  apply wp_bind, wp_gets, wp_ret. cbn [is_isolated checks].
  pose proof (ebpf_checks_sound s1) as He. split.
  - eexists _, (counter_checks s6). split; [reflexivity|]. split; [apply counter_checks_named|].
    unfold standing_checks. rewrite !forallb_app. cbn [forallb ck_passed check_if].
    rewrite <- Hpc, <- He, (no_empty_list (elements _)) by done. rewrite elements_empty. btauto.
  - rewrite !andb_true_iff. intros [[[[[[[[P1 P2] _] _] P3] P4] _] _] _].
    destruct (Hpi P1) as (p & Hp & Hu). apply membership_check_sound in P3 as (k & b & info & Hk & Hb & Hm & Hi).
    destruct (I2 P4) as (k' & b' & Hk' & Hb' & Ho). rewrite Hk in Hk'. injection Hk' as <-.
    rewrite Hb in Hb'. injection Hb' as <-. apply bool_decide_eq_true in P2. destruct R1 as (Re & Ri & _ & _ & Rn).
    rewrite Re in Hb. rewrite Ri in Hk. rewrite Rn in Ho. split; [by exists p|split; [exact P2|]]. by exists k, b, info.
Qed.

End Report.

Module Demo.
Import LinuxDemo.

Definition enforced := snd (enforce_policy config handle (policy ["chown"%string] 4096) (snd created)).
Definition verified := verify_isolation config handle enforced.

Lemma report_verdict_is_its_checks_witness :
  exists report main counters, fst verified = Ok report /\ checks report = (main ++ counters)%list /\
    is_isolated report = forallb ck_passed main.
Proof.
  assert (is_ok (fst verified) = true) as Hok by (vm_compute; reflexivity).
  assert (forall p : result IsolationReport RauhaError * State (E := Files) (R := nat), is_ok (fst p) = true ->
    exists r, p = (Ok r, snd p)) as Hp by (intros [[r|e] s'] Hr; [by exists r|done]).
  destruct (Hp verified Hok) as [report Hr].
  destruct (report_verdict_is_its_checks config handle enforced report (snd verified) Hr) as [(main & counters & Hc & _ & Hv) _].
  exists report, main, counters. split; [exact (f_equal fst Hr)|split; [exact Hc|exact Hv]].
Defined.

End Demo.
End LinuxReport.
