(* ===== verification/Daemon.v ===== *)
(** * The daemon: the zone registry over the Linux backend

    The composition of [Registry] with [LinuxInvariant]: what the registry's
    tables say of a zone is what the kernel's BPF maps hold for it.  The registry
    only reaches the backend through the trait, so the backend's invariant holds
    in every registry run. *)

From stdpp Require Import base gmap strings list sets.
From Stdlib Require Import ZArith Ascii Lia.
From S2P Require Import Prelude.
From S2P Require Import RustStr.
From S2P Require Import RustText.
From S2P Require Import EnforcerApi.
From S2P Require Import Zone.
From S2P Require Import Kernel.
From S2P Require Import BpfMaps.
From S2P Require Import LinuxEnforcer.
From S2P Require Import StateError.
From S2P Require Import Backend.
From S2P Require Import Metadata.
From S2P Require Import Registry.
From S2P Require Import LinuxHost.
From S2P Require Import Nftables.
From S2P Require Import LinuxBackend.
From S2P Require Import LinuxDemo.
From S2P Require Import LinuxInvariant.
Import Zone Backend LinuxInvariant.

Module Daemon.

(** ** The registry reaches the backend through the trait only *)

Section Through.
Context {B E : Type} {I : IsolationBackend B} {V : Registry.Env E} {P : Metadata.Postcard}.
Context (paths : Registry.Paths) (Q : B -> B -> Prop) `{!PreOrder Q}.
Notation World := (Registry.World (B := B) (E := E)).
Notation M := (M World RauhaError).

Definition on_backend (w w' : World) : Prop := Q (Registry.backend w) (Registry.backend w').

#[local] Instance on_backend_preorder : PreOrder on_backend.
Proof. unfold on_backend. split; [by intros w|]. intros w1 w2 w3 H1 H2. by transitivity (Registry.backend w2). Qed.

Lemma call_on {A} (m : method B A) : (forall b, Q b (snd (m b))) -> keeps on_backend (Registry.call m : M A).
Proof.
  intros Hm w. specialize (Hm (Registry.backend w)). unfold wp, Registry.call, on_backend.
  by destruct (m (Registry.backend w)).
Qed.
Lemma sys_on {A} (f : E -> A * E) : keeps on_backend (Registry.sys f : M A).
Proof. intros w. unfold wp, Registry.sys, on_backend. by destruct (f (Registry.env w)). Qed.
Lemma sys_try_on {A X} (f : E -> result A X * E) err : keeps on_backend (Registry.sys_try f err : M A).
Proof. intros w. unfold wp, Registry.sys_try, on_backend. by destruct (f (Registry.env w)). Qed.
Lemma db_read_on {A} (f : option string -> World -> result A RauhaError) : keeps on_backend (Registry.db_read f).
Proof. intros w. unfold wp, Registry.db_read, on_backend. by destruct (Registry.redb (Registry.env w)). Qed.
Lemma db_zones_on f : keeps on_backend (Registry.db_zones f : M unit).
Proof.
  intros w. unfold wp, Registry.db_zones, on_backend. destruct (Registry.redb (Registry.env w)).
  by destruct (f _ (Registry.zones w)).
Qed.
Lemma db_containers_on f : keeps on_backend (Registry.db_containers f : M unit).
Proof.
  intros w. unfold wp, Registry.db_containers, on_backend. destruct (Registry.redb (Registry.env w)).
  by destruct (f _ (Registry.containers w)).
Qed.
Lemma modify_on (f : World -> World) : (forall w, Registry.backend (f w) = Registry.backend w) ->
  keeps on_backend (modify f : M unit).
Proof. intros Hf w. unfold wp, modify, on_backend. cbn. by rewrite Hf. Qed.

(** What the trait's methods keep, one hypothesis each. *)
Context (create_on : forall c b, Q b (snd (Backend.create_zone c b))).
Context (destroy_on : forall h b, Q b (snd (Backend.destroy_zone h b))).
Context (enforce_on : forall h p b, Q b (snd (Backend.enforce_policy h p b))).
Context (reload_on : forall h p b, Q b (snd (Backend.hot_reload_policy h p b))).
Context (recover_on : forall h t p b, Q b (snd (Backend.recover_zone h t p b))).
Context (cleanup_on : forall hs b, Q b (snd (Backend.cleanup_orphans hs b))).
Context (create_container_on : forall h s b, Q b (snd (Backend.create_container h s b))).
Context (start_on : forall c b, Q b (snd (Backend.start_container c b))).
Context (stop_on : forall c b, Q b (snd (Backend.stop_container c b))).
Context (stats_on : forall h b, Q b (snd (Backend.zone_stats h b))).
Context (verify_on : forall h b, Q b (snd (Backend.verify_isolation h b))).
Context (shim_on : forall n r b, Q b (snd (Backend.shim_request n r b))).

Hint Extern 1 (keeps on_backend (Registry.call _)) => apply call_on; intros ?; eauto : keeps.
Hint Extern 1 (keeps on_backend (modify _)) => apply modify_on; reflexivity : keeps.
Hint Extern 1 (keeps on_backend (Registry.sys _)) => apply sys_on : keeps.
Hint Extern 1 (keeps on_backend (Registry.sys_try _ _)) => apply sys_try_on : keeps.
Hint Resolve db_read_on db_zones_on db_containers_on : keeps.
Hint Unfold Registry.meta_get_zone Registry.meta_list_zones Registry.meta_put_zone Registry.meta_delete_zone
  Registry.meta_get_container Registry.meta_list_containers Registry.meta_put_container
  Registry.meta_delete_container : keeps.

Lemma logs_on id : keeps on_backend (Registry.remove_container_logs paths id).
Proof. unfold Registry.remove_container_logs. keeps_auto. Qed.
Hint Resolve logs_on : keeps.
Lemma find_container_on id : keeps on_backend (Registry.find_container id).
Proof. unfold Registry.find_container. keeps_auto. Qed.
Lemma find_handle_on id : keeps on_backend (Registry.find_handle id).
Proof. unfold Registry.find_handle. keeps_auto. Qed.
Hint Resolve find_container_on find_handle_on : keeps.
Lemma shim_delete_on n id : keeps on_backend (Registry.shim_delete paths n id).
Proof. unfold Registry.shim_delete. cbv zeta. keeps_auto. Qed.
Lemma stop_container_on id : keeps on_backend (Registry.stop_container id).
Proof. unfold Registry.stop_container, Registry.stop_found. keeps_auto. Qed.
Lemma reap_on c : keeps on_backend (Registry.maybe_reap_container c).
Proof. unfold Registry.maybe_reap_container, Registry.is_process_dead. cbv zeta. keeps_auto. Qed.
Hint Resolve shim_delete_on stop_container_on reap_on : keeps.
Lemma reap_all_on cs : keeps on_backend (Registry.reap_all cs).
Proof. induction cs; cbn [Registry.reap_all]; keeps_auto. Qed.
Lemma registry_shim_on n r : keeps on_backend (Registry.shim_request paths n r).
Proof. unfold Registry.shim_request. cbv zeta. keeps_auto. Qed.
Hint Resolve reap_all_on registry_shim_on : keeps.

Lemma exec_on o : keeps on_backend (Registry.exec paths o).
Proof.
  destruct o; cbn [Registry.exec]; unfold Registry.create_zone, Registry.delete_zone, Registry.apply_policy,
    Registry.apply_policy_locked, Registry.create_container, Registry.create_container_locked, Registry.prepare_rootfs,
    Registry.start_container, Registry.start_found, Registry.get_container_state, Registry.state_found, Registry.delete_container,
    Registry.get_container,
    Registry.list_containers, Registry.zone_stats, Registry.verify_isolation, Registry.get_zone,
    Registry.stop_if_running, Registry.forget_container, Registry.get_or_now; cbv zeta; keeps_auto.
Qed.

Lemma reconcile_on : keeps on_backend Registry.reconcile.
Proof.
  unfold Registry.reconcile, Registry.reconcile_zone, Registry.resolve_live_cgroup_id. cbv zeta. keeps_auto.
Qed.

End Through.

(** ** The daemon on Linux *)

Section Daemon.
Context {E R E2 : Type} `{!Host.LinuxHost E, !LinuxBackend.Daemon E, !LinuxBackend.Rng R, !LinuxBackend.RngLaws R}.
Context `{K : BpfHost} `{!BpfHostLaws} {V : Registry.Env E2} {P : Metadata.Postcard} `{!Metadata.PostcardLaws P}.
Context (config : LinuxBackend.Config) (paths : Registry.Paths).
Notation State := (LinuxBackend.State (E := E) (R := R)).
Notation World := (Registry.World (B := State) (E := E2)).
#[local] Existing Instance LinuxBackend.LinuxBackend.
#[local] Instance backend : IsolationBackend State := LinuxBackend.LinuxBackend config.
#[local] Instance contract : BackendContract State backend := linux_contract config.

(** The daemon's states: started on an empty database, by the registry's
    operations, and by restarts, which load the maps anew and reconcile; ids are
    never drawn twice across restarts. *)
Inductive running : World -> gset string -> Prop :=
| run_start r e s e' e2 : LinuxBackend.new config r e = (Ok s, e') ->
    running (Registry.mkWorld ∅ ∅ ∅ ∅ s e2) ∅
| run_operation o w T : running w T ->
    running (snd (Registry.exec paths o w)) (Registry.doubt o (fst (Registry.exec paths o w)) T)
| run_restart w T r e s e' e2 : running w T -> LinuxBackend.new config r e = (Ok s, e') ->
    issued (Registry.backend w) ⊆ issued s ->
    running (snd (Registry.reconcile (Registry.reboot s e2 w))) ∅.

Lemma running_reachable w T : running w T -> Registry.reachable paths w T.
Proof.
  induction 1; [apply Registry.reach_init|by apply Registry.reach_op|by eapply Registry.reach_restart].
Qed.

Definition stays (b b' : State) : Prop := J b -> J b'.
#[local] Instance stays_preorder : PreOrder stays.
Proof. unfold stays. split; [intros b; exact id|]. intros b1 b2 b3 A1 A2 A3. auto. Qed.

Lemma op_stays o (b : State) : stays b (LinuxInvariant.run_op config b o).
Proof. intros HJ. by apply J_run_op. Qed.

Lemma running_J w T : fresh_maps -> running w T -> J (Registry.backend w).
Proof.
  intros Hf. induction 1 as [r e s e' e2 Hn|o w T Hr IH|w T r e s e' e2 Hr IH Hn Hi]; [by eapply J_new|..].
  - refine (exec_on paths stays _ _ _ _ _ _ _ _ _ _ o w IH).
    + intros c. exact (op_stays (OpCreate c)).
    + intros h. exact (op_stays (OpDestroy h)).
    + intros h p. exact (op_stays (OpEnforce h p)).
    + intros h p. exact (op_stays (OpReload h p)).
    + intros h sp. exact (op_stays (OpCreateContainer h sp)).
    + intros c. exact (op_stays (OpStart c)).
    + intros c. exact (op_stays (OpStop c)).
    + intros h. exact (op_stays (OpStats h)).
    + intros h. exact (op_stays (OpVerify h)).
    + intros n r. exact (op_stays (OpShim n r)).
  - refine (reconcile_on stays _ _ (Registry.reboot s e2 w) _).
    + intros h t p. exact (op_stays (OpRecover h t p)).
    + intros hs. exact (op_stays (OpCleanup hs)).
    + by eapply J_new.
Qed.

(** The policy on record of a cached zone is the one in the kernel. *)
Lemma recorded_in_kernel w T n h :
  fresh_maps -> running w T -> (LinuxBackend.next_zone_id (Registry.backend w) <= 2 ^ 32)%Z ->
  Registry.handles w !! n = Some h -> n ∉ T ->
  exists z k b kp, Metadata.stored_zone (Registry.zones w) n = Some z /\ z_id z = h_id h /\
    LinuxBackend.zone_id_map (Registry.backend w) !! z_id z = Some k /\
    Linux.ebpf (LinuxBackend.enforcer (Registry.backend w)) = Some b /\
    MapManager.policy_to_kernel (z_policy z) = Ok kp /\ Kernel.ZONE_POLICY (maps b) !! k = Some kp.
Proof.
  intros Hf Hr Hle Hh HT.
  destruct (Registry.reachable_Inv paths w T (running_reachable w T Hr)) as [_ HE].
  destruct (HE n h Hh HT) as (z & Hz & Hid & Hv). rewrite <- Hid in Hv. cbn [view contract linux_contract] in Hv.
  rewrite live_view_lookup in Hv. apply fmap_Some in Hv as (k & Hk & Ha).
  destruct (applied_in_kernel (Registry.backend w) (z_id z) (z_policy z) (running_J w T Hf Hr) Hle (eq_sym Ha))
    as (k' & b & kp & Hk' & Hb & Hkp & Hl).
  exists z, k', b, kp. by repeat split.
Qed.

(** C1. What the database says of a zone is what the kernel enforces: in every
    state of the daemon - after any operations and restarts - a process confined to
    a zone the registry serves passes the [capable] hook exactly for the
    capabilities of the policy on record, unless the zone's last deletion or policy
    change reported an error. *)
Theorem kernel_enforces_recorded_policy w T n h offs :
  fresh_maps -> running w T -> (LinuxBackend.next_zone_id (Registry.backend w) <= 2 ^ 32)%Z ->
  Registry.handles w !! n = Some h -> n ∉ T ->
  exists z k b, Metadata.stored_zone (Registry.zones w) n = Some z /\ z_id z = h_id h /\
    LinuxBackend.kernel_zone_id h (Registry.backend w) = Some k /\
    Linux.ebpf (LinuxBackend.enforcer (Registry.backend w)) = Some b /\
    forall ctx, Kernel.confined ctx (maps b) = Some k ->
      fst (Kernel.run_hook offs Kernel.HCapable ctx (maps b)) = 0%Z <->
      exists cap, cap ∈ cap_allowed (capabilities (z_policy z)) /\
        linux_capability_bit cap = Some (as_signed 32 (Kernel.arg ctx 2)).
Proof.
  intros Hf Hr Hle Hh HT.
  destruct (recorded_in_kernel w T n h Hf Hr Hle Hh HT) as (z & k & b & kp & Hz & Hid & Hk & Hb & Hkp & Hl).
  exists z, k, b. split; [done|split; [done|split; [|split; [done|]]]].
  - unfold LinuxBackend.kernel_zone_id. by rewrite <- Hid.
  - intros ctx Hc. by apply (Linux.capable_hook_reads_policy offs k (z_policy z) kp).
Qed.

End Daemon.
(** ** Zone names and nftables *)

(** The registry accepts names the filter's transaction cannot carry: this one
    makes it flush every rule of the host. *)
Definition hostile_name : string := ("x" ++ Text.nl ++ "flush ruleset" ++ Text.nl ++ "#")%string.

Lemma accepted_name_injects_commands :
  Registry.validate_zone_name hostile_name = Ok tt /\
  "flush ruleset"%string ∈ Str.split "010"%char (Nftables.zone_script hostile_name "veth1" ["return"%string] ["drop"%string] ["drop"%string]).
Proof. split; [reflexivity|]. vm_compute. do 4 right. by left. Qed.

(** ** A run *)

Module Demo.
Import LinuxDemo.

#[local] Existing Instance Registry.Demo.env.

Definition record : Zone :=
  mkZone "zone" "web" NonGlobal Ready (policy ["chown"%string] 4096) 0 0 (h_network_state handle).

(** A codec that knows this one zone. *)
#[local] Instance codec : Metadata.Postcard := {|
  Metadata.zone_to_vec z := if bool_decide (z = record) then Ok [0%Z] else Err "unsupported"%string;
  Metadata.zone_from_bytes b := if bool_decide (b = [0%Z]) then Ok record else Err "bad zone"%string;
  Metadata.container_to_vec c := Err "unsupported"%string;
  Metadata.container_from_bytes b := Err "bad container"%string |}.
#[local] Instance codec_laws : Metadata.PostcardLaws codec.
Proof.
  split; [|done]. intros z b. cbn. case_bool_decide as Hz; [|done]. intros [= <-]. rewrite Hz. reflexivity.
Qed.

Definition paths : Registry.Paths := Registry.mkPaths "/var/lib/rauha" "/run/rauha".
Definition w0 : Registry.World (B := LinuxBackend.State (E := Files) (R := nat)) (E := list (option string)) :=
  Registry.mkWorld ∅ ∅ ∅ ∅ started [].
Definition create : Registry.Op := Registry.OCreate "web" NonGlobal (policy ["chown"%string] 4096).
#[local] Existing Instance backend.
Definition done_ := Registry.exec (I := backend LinuxDemo.config) paths create w0.

Lemma kernel_enforces_recorded_policy_witness :
  exists z b, Metadata.stored_zone (Registry.zones (snd done_)) "web" = Some z /\
    Linux.ebpf (LinuxBackend.enforcer (Registry.backend (snd done_))) = Some b /\
    forall ctx, Kernel.confined ctx (maps b) = Some 1%Z ->
      fst (Kernel.run_hook Kernel.offsets_default Kernel.HCapable ctx (maps b)) = 0%Z <->
      exists cap, cap ∈ cap_allowed (capabilities (z_policy z)) /\
        linux_capability_bit cap = Some (as_signed 32 (Kernel.arg ctx 2)).
Proof.
  assert (running LinuxDemo.config paths w0 ∅) as H0 by exact (run_start _ _ 0%nat files0 started _ [] LinuxInvariant.Demo.is_started).
  pose proof (run_operation LinuxDemo.config paths create w0 ∅ H0) as H1. change (Registry.exec paths create w0) with done_ in H1.
  assert (LinuxBackend.next_zone_id (Registry.backend (snd done_)) <= 2 ^ 32)%Z as H2 by (vm_compute; discriminate).
  assert (Registry.handles (snd done_) !! "web"%string = Some handle) as H3 by (vm_compute; reflexivity).
  assert ("web"%string ∉ Registry.doubt create (fst done_) ∅) as H4.
  { assert (Registry.doubt create (fst done_) ∅ = ∅) as -> by (vm_compute; reflexivity). apply not_elem_of_empty. }
  assert (LinuxBackend.kernel_zone_id handle (Registry.backend (snd done_)) = Some 1%Z) as H5 by (vm_compute; reflexivity).
  destruct (kernel_enforces_recorded_policy LinuxDemo.config paths (snd done_) _ "web"%string handle Kernel.offsets_default
              LinuxInvariant.Demo.fresh H1 H2 H3 H4) as (z & k & b & Hz & _ & Hk & Hb & Hc).
  rewrite H5 in Hk. injection Hk as <-. exists z, b. split; [exact Hz|split; [exact Hb|exact Hc]].
Defined.

End Demo.
End Daemon.
